(* ===== verification/_CoqProject ===== *)
-Q . S2P
Prelude.v
Bytes.v
Core.v
Contracts.v
Snapshots.v
Wire.v
Presentation.v
Noise.v
Terrain.v
Hydrology.v
WaterSurface.v
EnvironmentPolicy.v
Transport.v
Frontier.v
Preparation.v
Runtime.v
Delivery.v
Scheduler.v
SchedulerSafety.v
PublicContracts.v
HydrologyProof.v
Session.v
Sync.v
F32.v
Items.v
Config.v
GameData.v
Cache.v
Bags.v
Loot.v
Containers.v
Stacks.v
Encumbrance.v
Movement.v
Traversal.v
Character.v
Ecs.v
Zone.v
ZoneMovement.v
ZoneMining.v
ZoneInventory.v
ZoneSafety.v
ZoneCorrect.v
Egress.v
Router.v
System.v
Server.v
ServerInv.v
ServerSteps.v
ServerTrace.v
ServerCorrect.v
ServerZone.v
Persistence.v
ServerContracts.v
Ingress.v
ServerTransport.v
Startup.v
ClientHistory.v
ClientPrediction.v
Client.v
ClientRun.v
ClientServer.v
