(* ===== verification/Prelude.v ===== *)
(** * Aurenfall server: verification library

    A model of the authoritative core of the Aurenfall game server, a Rust
    workspace of library crates ([crates/]) and programs ([apps/]), with the
    theorems that make it correct.

    ** The program and this library

    Clients reach the server over QUIC.  A handshake admits a connection, a
    session gains authority step by step, and from then on the client only
    sends intents, which the server authorises, orders and simulates.  The world
    is a grid of quadrants that is generated deterministically from a seed and
    revealed piece by piece; a client plays only while it has acknowledged the
    current frontier.  Characters carry items, in grids, containers and bags.
    The client predicts its own movement on top of the server's snapshots.  The
    server starts from configuration and game data, and keeps inventories and
    positions in a database.

    Tasks and queues join the parts: the tasks of the connections put events into
    the queue of the session runtime; it owns the sessions and the frontier, sends
    commands into the queue of the zone and writes to the connections; the zone
    ticks and publishes snapshots, which the session runtime passes on; a worker
    prepares quadrants that the scheduler asks for and the session runtime reveals.

    Each file models one part.  Definitions bear the names of the source, with a
    prefix where several types have a method of that name.

    Foundations: [Prelude] (this file: machine integers, the error monad, shared
    lemmas and tactics), [Bytes] (integers as bytes, slices), [F32] (binary32 on
    the specification floats of the Standard Library), [Wire] (the shared loop and
    interface of variable-length messages).

    Shared types and messages:
    - [Core] (crates/core): the anti-replay window (replay.rs), positions,
      quadrants, seeds (world.rs).
    - [Contracts], [Snapshots], [Presentation] (crates/contracts): the codecs of
      all messages.  [Contracts.Codec] is the interface of a codec of fixed length:
      decoding inverts encoding on valid values and accepts nothing else;
      [Wire.ValidatedCodec] that of one that validates.

    The world:
    - [Noise], [Terrain], [Hydrology], [WaterSurface], [EnvironmentPolicy]
      (crates/terrain): value noise, the terrain of a quadrant, the water of the
      world and its carving, what clients are shown of both.
    - [Frontier], [Preparation] (crates/domain): the life of a quadrant Potential,
      Candidate, Prepared, Revealed, the candidate ring, requirements, the
      transactional reveal; the registry of preparations beside it.
    - [Runtime], [Delivery] (apps/world-server/src/frontier_runtime.rs,
      frontier_delivery.rs, development_frontier.rs): frontier and manifest
      together, the retries of a manifest, the development gate.
    - [Scheduler], [SchedulerSafety] (crates/preparation,
      preparation_scheduler.rs): the asynchronous worker as a step relation, the
      executor, the scheduler, and their interleavings.
    - [PublicContracts] (preparation_scheduler.rs, runtime/frontier_dispatcher.rs):
      what clients are told about a revealed quadrant.

    Connections and sessions:
    - [Transport], [Egress], [Ingress] (crates/transport): datagram frames, the
      capabilities of a connection, admission, handshake and the tasks that read.
    - [Session] (crates/session): the session state machine, the registry with one
      replay window per session, the bounded ingress.
    - [Sync] (frontier_sync.rs): who has acknowledged the frontier.
    - [Router] (world_router.rs, snapshot_bridge.rs): routes to the zones, and from
      characters to connections.
    - [System]: frontier, scheduler and gate as one system that cannot fail the
      session runtime.
    - [Server] (session_runtime.rs): every handler of the session runtime;
      [ServerInv], [ServerSteps]: its invariant and each handler against it;
      [ServerTrace]: its runs with the turns they take, and what becomes of every
      session and every intent on the way; [ServerCorrect], [ServerZone],
      [ServerContracts], [ServerTransport]: the theorems about it alone, with the
      zone, with the contracts it sends, and with the transport that feeds it.

    Simulation:
    - [Items], [Bags] (crates/domain/src/items.rs, ownership.rs), [Containers],
      [Stacks] (containers.rs), [Loot], [Encumbrance] (crates/simulation): items,
      grids, dropped bags, nested containers, looting, weight.
    - [Movement], [Traversal], [Character] (crates/simulation): integration of
      input, sweeps against static blockers, the self-contained character.
    - [Ecs]: the interface of the entity store, [hecs::World], as a class with its
      documented laws, and a store on finite maps as an instance.
    - [Zone] (zone.rs, systems.rs, components.rs, snapshot.rs, bootstrap.rs): the
      commands and the tick of a zone over any such store; [ZoneMovement],
      [ZoneMining], [ZoneInventory]: its systems; [ZoneSafety], [ZoneCorrect]: the
      zone as a whole.

    Start and storage:
    - [Config] (crates/config), [GameData] (crates/gamedata,
      apps/gamedata-compiler): the sections of the configuration and of the game
      data, their validation and loading, the compilation of items.
    - [Startup], [HydrologyProof] (apps/world-server/src/main.rs): from files and
      environment variables to the connected parts, the search for a frontier with
      water, the supervision of the tasks.
    - [Persistence] (crates/persistence), [Cache] (crates/cache): inventories with
      optimistic concurrency, the position buffer, the bounded cache.

    The client (apps/protocol-client/src):
    - [ClientHistory] (reconciliation.rs, held_prediction.rs), [ClientPrediction]
      (prediction.rs, presentation.rs), [Client] (main.rs): its inputs, its
      predictions and corrections, its handshake and loop.
    - [ClientRun], [ClientServer]: its loop against the snapshots of a zone.

    ** What the theorems show

    - C1: the replay window is a finite representation of a set of numbers.
    - C2 to C7, the server: its tables agree after every event; a client plays only
      while it has acknowledged the frontier, and the moves that reach the zone are
      those it sent; the zone never refuses what the session runtime asks; an
      acknowledgement is answered with the contracts of the revealed quadrants in
      order; the transport supplies what the runtime relies on and never gives an
      identifier twice, which C3 needs of sessions; the runtime stops in four cases
      only, of the frontier only when it is full or at its last revision.
    - C8, C9: from a valid configuration the server starts in a state of which C2 to
      C7 hold, with nothing of the development environment unless the configuration
      names it; what ends it.
    - C10 to C17, the world: neighbours generated apart fit together; preparation
      keeps its budget, stays private and makes progress; clients are told one
      consistent world; a manifest is delivered or given up; it exists, encodes and
      decodes always; the frontier is well formed and the reveal atomic.
    - C18 to C20, sessions: they refine an authority automaton, authorised sequence
      numbers increase, synced means acknowledged.
    - C21 to C25, simulation and client: the client follows the zone and never
      fails and predicts what the server does; a zone is well formed and never
      stuck, moves everybody exactly, keeps every item.
    - C26 to C28, storage: no saved inventory is overwritten unseen, by either of the
      two codecs of the column; a session saves only once, at an autosave or when the
      character leaves; stored positions move forward.
    - C29 to C33: the handshake; client and server understand each other; what game
      data is accepted; round trips of the larger messages.
    - C34 to C38: terrain and water are exact; looting moves one item or nothing; the
      weight of a container by formula; traversal.
    - C39, C40: the cache is a list of recently used entries; the self-contained
      character moves by inputs in order and in time, slowed by his load.

    Every further lemma is there for these, or states of a smaller operation what
    it does on each of its branches.

    ** Conventions

    An unsigned or signed machine integer is a [Z] with its range as a
    hypothesis where it matters ([in_u], [in_i]).  Plain [+], [-], [*] of the source
    wrap as in a release build; a debug build panics instead, and the theorems'
    bounds exclude both where they state a result.  [checked_*] and
    [saturating_*] are the functions of this file.  A method that mutates its
    receiver returns the new state with its result, also when it fails, so that
    theorems can say what a failure leaves behind.  Hash maps are [gmap]; where the
    source iterates over one, the order is an argument and the theorems hold for
    every enumeration of its entries.  An index of a vector is read with a default
    where the preceding lines establish that it is in range.

    Concurrency: a task is its state and its steps, queues are lists, and the
    theorems hold for all interleavings of steps.  A handler of the session runtime
    is one step: between its awaits nothing else of the runtime happens, and what
    other tasks do meanwhile is in the answers of its environment, which are
    functions of everything done so far ([Egress.Environment]).

    Loops whose end is not structural take fuel and return [None] when it runs
    out: the walks along parent links ([Containers.climb_to], [get_depth],
    [calculate_container_weight]) need no more than one step per container of an
    acyclic tree, as C37 and its lemmas prove, and the Newton iteration
    [Movement.newton] at most one step per bit and one, 65 on the server and 129
    where the client takes roots of 128 bits ([Movement.newton_start]).

    Bounds: a zone is followed for [ZoneSafety.MAX_AGE] = 2^28 commands and ticks
    (155 days at 20 ticks a second), characters appear within
    [ZoneSafety.MAX_SPAWN] = 2^61 millimetres of the origin and move less than 2^33
    in a tick, so that they stay within 2^62; the client receives fewer than 2^32
    snapshots, the range of its counters.

    Code outside the repository is a parameter: BLAKE3 is a pair of functions, of
    which [PublicContracts.hashes_ok] assumes hashes of 32 bytes and [Startup.blake3_ok]
    that no quadrant of the configured universe gets a seed of zeros only, which the
    generator refuses; [Core.World.quadrant_seed_separation] says that two inputs
    with the same seed are a collision of the keyed hash; a [DashMap] whose
    iteration is observed by other tasks is a map with a number of shards
    ([Persistence.flush_step]), visited one by one; a tokio channel is an instance of
    [Session.MpscSender], whose laws are the documented behaviour of [try_send]; the
    entity store is an instance of [Ecs.Ecs]; the answers of the network are
    functions; the requirement resolver of the frontier and the item definitions are
    arguments, as in the source; files, parsers and the answers at start-up are
    functions and options; PostgreSQL is its tables, what it documents of the
    statements used, and a fate of each statement ([Persistence.QueryOutcome]).

    ** Not modelled

    [Display] impls, serde derives and log lines.  Opening files, certificates,
    endpoints and the database, which is I/O of third-party crates; the shut-down
    of the QUIC endpoint; the deadline that ends the client.  The end of a loop
    because its channel was closed.  Generating certificates (apps/dev-certgen) and
    crates/observability, which only call libraries.  Code that nothing uses:
    registry.rs, character.rs and world.rs of crates/gamedata, which are not modules
    of the crate; runtime/ingress_dispatcher.rs and runtime/replication_pump.rs of
    the world server; the in-process channels that only tests use.  Each control
    message of the server travels on a QUIC stream of its own, so that
    [Egress.reliable_delivers_prefix] speaks of the order of writing, not of
    arrival.

    ** What the modelling showed

    Closed examples beside the definitions evaluate inputs on which the code does
    not do what it, or its comments, mean to: [Snapshots.snapshot_v1_loses_sequence],
    [Stacks.deposit_matching_duplicates], [Stacks.auto_sort_loses_items],
    [Stacks.find_free_slot_wraps], [Containers.attach_ignores_subtree_depth],
    [Encumbrance.overburdened_needs_101_percent], [ZoneCorrect.rock_destroyed_twice],
    [ZoneCorrect.drop_equipped_duplicates], [ServerCorrect.tracked_quadrant_truncates],
    [ClientHistory.ack_of_nothing_accepted], [Persistence.positions_lost],
    [Containers.items_weight_wraps], [ZoneCorrect.older_sequence_taken],
    [ZoneCorrect.zero_input_keeps_remainder], [ZoneCorrect.zero_input_is_active].
    [Persistence.session_saves_once] and [Startup.supervision_correct] prove two
    such behaviours in general. *)

From Stdlib Require Export ZArith Lia.
From stdpp Require Export base tactics option list gmap sets strings sorting numbers.

#[global] Open Scope Z_scope.

(** ** Machine integers

    A [w]-bit integer of the source is a [Z]; [in_u w] and [in_i w] say that a
    value is in the range of the unsigned or signed type.  Plain [+], [-], [*]
    of the source are written with the wrap-around of a release build; the
    [checked_*] and [saturating_*] methods of the standard library are the
    functions below. *)

Definition in_u (w x : Z) : Prop := 0 <= x < 2 ^ w.
Definition in_i (w x : Z) : Prop := - 2 ^ (w - 1) <= x < 2 ^ (w - 1).

#[global] Instance in_u_dec w x : Decision (in_u w x).
Proof. unfold in_u. apply _. Defined.
#[global] Instance in_i_dec w x : Decision (in_i w x).
Proof. unfold in_i. apply _. Defined.

Definition u_max (w : Z) : Z := 2 ^ w - 1.
Definition wrap_u (w x : Z) : Z := x mod 2 ^ w.
Definition wrap_i (w x : Z) : Z := (x + 2 ^ (w - 1)) mod 2 ^ w - 2 ^ (w - 1).
Definition checked_u (w x : Z) : option Z := if decide (in_u w x) then Some x else None.
Definition checked_i (w x : Z) : option Z := if decide (in_i w x) then Some x else None.
Definition saturating_add_u (w a b : Z) : Z := Z.min (a + b) (u_max w).
Definition saturating_mul_u (w a b : Z) : Z := Z.min (a * b) (u_max w).
Definition saturating_sub_u (a b : Z) : Z := Z.max 0 (a - b).

Lemma pow2_pos w : 0 <= w -> 0 < 2 ^ w.
Proof. intros. apply Z.pow_pos_nonneg; lia. Qed.

Lemma wrap_u_small w x : in_u w x -> wrap_u w x = x.
Proof. intros H. apply Z.mod_small. exact H. Qed.

Lemma wrap_u_range w x : 0 <= w -> in_u w (wrap_u w x).
Proof. intros Hw. apply Z.mod_pos_bound, pow2_pos, Hw. Qed.

Lemma wrap_i_range w x : 1 <= w -> in_i w (wrap_i w x).
Proof.
  intros Hw. unfold in_i, wrap_i.
  pose proof (Z.mod_pos_bound (x + 2 ^ (w - 1)) (2 ^ w) (pow2_pos w ltac:(lia))).
  assert (2 ^ w = 2 * 2 ^ (w - 1)) by (rewrite <- Z.pow_succ_r by lia; f_equal; lia). lia.
Qed.

Lemma wrap_i_small w x : 1 <= w -> in_i w x -> wrap_i w x = x.
Proof.
  intros Hw H. unfold in_i, wrap_i in *.
  assert (2 ^ w = 2 * 2 ^ (w - 1)) by (rewrite <- Z.pow_succ_r by lia; f_equal; lia).
  rewrite Z.mod_small; lia.
Qed.

Lemma wrap_i_mod w x : 1 <= w -> wrap_i w (x mod 2 ^ w) = wrap_i w x.
Proof.
  intros Hw. unfold wrap_i. rewrite Zplus_mod_idemp_l. done.
Qed.

Lemma checked_i_Some w x y : checked_i w x = Some y <-> y = x /\ in_i w x.
Proof. unfold checked_i. case_decide; naive_solver. Qed.

Lemma checked_i_None w x : checked_i w x = None <-> ~ in_i w x.
Proof. unfold checked_i. case_decide; naive_solver. Qed.

Lemma checked_u_Some w x y : checked_u w x = Some y <-> y = x /\ in_u w x.
Proof. unfold checked_u. case_decide; naive_solver. Qed.

Lemma checked_u_in w x : in_u w x -> checked_u w x = Some x.
Proof. intros. by apply checked_u_Some. Qed.

Lemma checked_i_in w x : in_i w x -> checked_i w x = Some x.
Proof. intros. by apply checked_i_Some. Qed.

(** ** Fallible computations

    [Result<T, E>] of the source; [?] is the monadic bind and [map_err] and
    [ok_or] are the combinators of the standard library. *)

Inductive result (E A : Type) : Type :=
| Ok (a : A)
| Err (e : E).
Arguments Ok {E A} a.
Arguments Err {E A} e.

#[global] Instance result_ret E : MRet (result E) := fun _ a => Ok a.
#[global] Instance result_bind E : MBind (result E) :=
  fun _ _ f r => match r with Ok a => f a | Err e => Err e end.

#[global] Instance result_eq_dec `{EqDecision E, EqDecision A} : EqDecision (result E A).
Proof. solve_decision. Defined.

Definition map_err {E F A} (f : E -> F) (r : result E A) : result F A :=
  match r with Ok a => Ok a | Err e => Err (f e) end.

Definition ok_or {E A} (e : E) (o : option A) : result E A :=
  match o with Some a => Ok a | None => Err e end.

Definition is_ok {E A} (r : result E A) : bool :=
  match r with Ok _ => true | Err _ => false end.

Lemma bind_Ok {E A B} (f : A -> result E B) r b :
  r ≫= f = Ok b <-> exists a, r = Ok a /\ f a = Ok b.
Proof. destruct r; cbn; naive_solver. Qed.

Lemma map_err_Ok {E F A} (f : E -> F) (r : result E A) a :
  map_err f r = Ok a <-> r = Ok a.
Proof. destruct r; cbn; naive_solver. Qed.

Lemma ok_or_Ok {E A} (e : E) (o : option A) a : ok_or e o = Ok a <-> o = Some a.
Proof. destruct o; cbn; naive_solver. Qed.

Lemma ok_or_Err {E A} (e e' : E) (o : option A) : ok_or e o = Err e' <-> o = None /\ e' = e.
Proof. destruct o; cbn; naive_solver. Qed.

(** A guard that leaves early: [if bad { return Err(e) }]. *)
Definition forbid {E} (bad : Prop) `{Decision bad} (e : E) : result E unit := if decide bad then Err e else Ok tt.

Lemma forbid_Ok {E} (bad : Prop) `{Decision bad} (e : E) u : forbid bad e = Ok u <-> ~ bad.
Proof. unfold forbid. destruct u. case_decide; naive_solver. Qed.

Lemma forbid_Err {E} (bad : Prop) `{Decision bad} (e e' : E) : forbid bad e = Err e' <-> bad /\ e' = e.
Proof. unfold forbid. case_decide; naive_solver. Qed.

(** ** Automation

    [step_inv H] peels the guards of a handler off a hypothesis that says what
    the handler returned: every [match], [if] and bind on the way is destructed
    and the impossible branches are closed. *)

Ltac step_inv H :=
  repeat first
    [ progress simplify_eq/=
    | match type of H with
      | context [decide ?P] => destruct (decide P) eqn:?
      | context [match ?x with _ => _ end] =>
          lazymatch x with
          | context [match _ with _ => _ end] => fail
          | _ => destruct x eqn:?
          end
      end ].

Ltac split_goals := repeat match goal with |- _ /\ _ => split end.

Ltac gen_destruct :=
  repeat match goal with
  | |- context [match ?x with _ => _ end] =>
      lazymatch x with
      | context [match _ with _ => _ end] => fail
      | _ => destruct x eqn:?; simplify_eq/=
      end
  end.

Create HintDb machine.
#[export] Hint Rewrite wrap_u_small wrap_i_small using (unfold in_u, in_i in *; lia) : machine.
