(* ===== verification/Bytes.v ===== *)
(** Bytes: the fixed-width little- and big-endian encodings of the standard
    library ([to_le_bytes], [from_be_bytes], ...) and byte slices.  A byte is a
    [Z] in [0, 256); an integer of [n] bytes is encoded by its low [8 n] bits,
    which is two's complement for a signed value. *)

From S2P Require Import Prelude.

Definition is_byte (b : Z) : Prop := in_u 8 b.
Abbreviation are_bytes := (Forall is_byte).

Fixpoint to_le (n : nat) (x : Z) : list Z :=
  match n with
  | O => []
  | S n' => x mod 256 :: to_le n' (x / 256)
  end.

Fixpoint from_le (l : list Z) : Z :=
  match l with
  | [] => 0
  | b :: l' => b + 256 * from_le l'
  end.

Definition to_be (n : nat) (x : Z) : list Z := reverse (to_le n x).
Definition from_be (l : list Z) : Z := from_le (reverse l).

(** [&bytes[i..j]]; every use in the source is inside the checked length. *)
Definition slice {A} (l : list A) (i j : nat) : list A := take (j - i) (drop i l).

Lemma length_to_le n x : length (to_le n x) = n.
Proof. revert x. induction n; intros; cbn; [done|by rewrite IHn]. Qed.

Lemma length_to_be n x : length (to_be n x) = n.
Proof. unfold to_be. by rewrite length_reverse, length_to_le. Qed.

Lemma to_le_bytes n x : are_bytes (to_le n x).
Proof.
  revert x. induction n; intros; cbn; constructor; [|done].
  unfold is_byte, in_u. apply Z.mod_pos_bound. lia.
Qed.

Lemma to_be_bytes n x : are_bytes (to_be n x).
Proof. apply Forall_reverse, to_le_bytes. Qed.

Lemma from_le_to_le n x : from_le (to_le n x) = x mod 2 ^ (8 * Z.of_nat n).
Proof.
  revert x. induction n; intros; cbn [to_le from_le]; [by rewrite Z.mod_1_r|].
  rewrite IHn. replace (8 * Z.of_nat (S n)) with (8 + 8 * Z.of_nat n) by lia.
  rewrite Z.pow_add_r by lia. change (2 ^ 8) with 256.
  rewrite Z.rem_mul_r; [lia|lia|]. apply pow2_pos. lia.
Qed.

Lemma from_be_to_be n x : from_be (to_be n x) = x mod 2 ^ (8 * Z.of_nat n).
Proof. unfold from_be, to_be. by rewrite reverse_involutive, from_le_to_le. Qed.

Lemma from_le_to_le_u n w x : w = 8 * Z.of_nat n -> in_u w x -> from_le (to_le n x) = x.
Proof. intros -> H. rewrite from_le_to_le. by apply Z.mod_small. Qed.

Lemma from_be_to_be_u n w x : w = 8 * Z.of_nat n -> in_u w x -> from_be (to_be n x) = x.
Proof. intros -> H. rewrite from_be_to_be. by apply Z.mod_small. Qed.

Lemma from_le_to_le_i n w x :
  w = 8 * Z.of_nat n -> 1 <= w -> in_i w x -> wrap_i w (from_le (to_le n x)) = x.
Proof. intros -> Hw H. rewrite from_le_to_le, wrap_i_mod by done. by apply wrap_i_small. Qed.

Lemma from_le_range l : are_bytes l -> in_u (8 * Z.of_nat (length l)) (from_le l).
Proof.
  unfold in_u. induction 1 as [|b l Hb _ IH]; cbn [from_le length]; [cbn; lia|].
  replace (8 * Z.of_nat (S (length l))) with (8 + 8 * Z.of_nat (length l)) by lia.
  rewrite Z.pow_add_r by lia. change (2 ^ 8) with 256. unfold is_byte, in_u in Hb. lia.
Qed.

Lemma to_le_from_le l : are_bytes l -> to_le (length l) (from_le l) = l.
Proof.
  induction 1 as [|b l Hb _ IH]; cbn [from_le length to_le]; [done|].
  unfold is_byte, in_u in Hb.
  rewrite (Z.mul_comm 256), Z.mod_add, Z.div_add, Z.mod_small, Z.div_small, Z.add_0_l, IH by lia.
  done.
Qed.

Lemma to_be_from_be l : are_bytes l -> to_be (length l) (from_be l) = l.
Proof.
  intros H. unfold to_be, from_be. rewrite <- (length_reverse l), to_le_from_le.
  - apply reverse_involutive.
  - by apply Forall_reverse.
Qed.

Lemma from_be_range l : are_bytes l -> in_u (8 * Z.of_nat (length l)) (from_be l).
Proof.
  intros H. unfold from_be. rewrite <- (length_reverse l).
  by apply from_le_range, Forall_reverse.
Qed.

(** *** Slices of a concatenation of fields *)

Lemma slice_here {A} (a b : list A) n : length a = n -> slice (a ++ b) 0 n = a.
Proof. intros <-. unfold slice. rewrite drop_0, Nat.sub_0_r. apply take_app_length. Qed.

Lemma slice_all {A} (a : list A) n : length a = n -> slice a 0 n = a.
Proof. intros <-. unfold slice. rewrite drop_0, Nat.sub_0_r. by rewrite take_ge. Qed.

Lemma slice_skip {A} (a b : list A) k i j :
  length a = k -> (k <= i)%nat -> slice (a ++ b) i j = slice b (i - k) (j - k).
Proof.
  intros Hk Hi. unfold slice. rewrite drop_app, drop_ge, app_nil_l by lia.
  rewrite Hk. f_equal. lia.
Qed.

Lemma length_slice {A} (l : list A) i j :
  (i <= j)%nat -> (j <= length l)%nat -> length (slice l i j) = (j - i)%nat.
Proof. intros. unfold slice. rewrite length_take, length_drop. lia. Qed.

Lemma slice_bytes l i j : are_bytes l -> are_bytes (slice l i j).
Proof. intros. unfold slice. by apply Forall_take, Forall_drop. Qed.

(** Splitting a list at consecutive offsets. *)
Lemma slice_split {A} (l : list A) i j k :
  (i <= j)%nat -> (j <= k)%nat -> slice l i k = slice l i j ++ slice l j k.
Proof.
  intros. unfold slice. replace (k - i)%nat with ((j - i) + (k - j))%nat by lia.
  rewrite <- take_take_drop, drop_drop. do 3 f_equal. lia.
Qed.

Lemma slice_full {A} (l : list A) n : length l = n -> l = slice l 0 n.
Proof. intros. symmetry. by apply slice_all. Qed.

Lemma to_le_slice l i j n :
  are_bytes l -> (i <= j)%nat -> (j <= length l)%nat -> n = (j - i)%nat ->
  to_le n (from_le (slice l i j)) = slice l i j.
Proof.
  intros Hb Hi Hj ->. rewrite <- (length_slice l i j) by done.
  by apply to_le_from_le, slice_bytes.
Qed.

Lemma to_be_slice l i j n :
  are_bytes l -> (i <= j)%nat -> (j <= length l)%nat -> n = (j - i)%nat ->
  to_be n (from_be (slice l i j)) = slice l i j.
Proof.
  intros Hb Hi Hj ->. rewrite <- (length_slice l i j) by done.
  by apply to_be_from_be, slice_bytes.
Qed.

Lemma to_le_wrap_i n w x : w = 8 * Z.of_nat n -> 1 <= w -> to_le n (wrap_i w x) = to_le n x.
Proof.
  intros -> Hw.
  rewrite <- (to_le_from_le (to_le n (wrap_i _ x))), <- (to_le_from_le (to_le n x)) by apply to_le_bytes.
  rewrite !length_to_le, !from_le_to_le. f_equal.
  unfold wrap_i. rewrite Zminus_mod_idemp_l. f_equal. lia.
Qed.

Lemma from_le_slice_range l i j w :
  are_bytes l -> (i <= j)%nat -> (j <= length l)%nat -> w = 8 * Z.of_nat (j - i) ->
  in_u w (from_le (slice l i j)).
Proof.
  intros Hb Hi Hj ->. rewrite <- (length_slice l i j) by done.
  by apply from_le_range, slice_bytes.
Qed.

Lemma from_be_slice_range l i j w :
  are_bytes l -> (i <= j)%nat -> (j <= length l)%nat -> w = 8 * Z.of_nat (j - i) ->
  in_u w (from_be (slice l i j)).
Proof.
  intros Hb Hi Hj ->. rewrite <- (length_slice l i j) by done.
  by apply from_be_range, slice_bytes.
Qed.

#[global] Opaque to_le from_le to_be from_be.
#[global] Arguments slice : simpl never.

(** [len_solve] computes the length of a concatenation of encoded fields;
    [slice_solve] reads one field back out of it. *)
Ltac len_solve :=
  repeat (progress (cbn [length app]; rewrite ?length_app, ?length_to_le, ?length_to_be));
  cbn [length]; try lia; try congruence.

Ltac slice_solve :=
  repeat first
    [ rewrite slice_here by len_solve
    | rewrite slice_all by len_solve
    | rewrite slice_skip with (k := 1%nat) by len_solve; cbn [Nat.sub]
    | rewrite slice_skip with (k := 2%nat) by len_solve; cbn [Nat.sub]
    | rewrite slice_skip with (k := 4%nat) by len_solve; cbn [Nat.sub]
    | rewrite slice_skip with (k := 8%nat) by len_solve; cbn [Nat.sub]
    | rewrite slice_skip with (k := 16%nat) by len_solve; cbn [Nat.sub] ].
