(* ===== verification/Core.v ===== *)
(** Core crate ([crates/core/src]): the replay window of [replay.rs] and the
    world coordinates and seed derivation of [world.rs].

    The newtype identifiers of [ids.rs] are the integers they wrap.  The
    BLAKE3 functions are not part of the repository: the seed functions take
    them as an argument. *)

From S2P Require Import Prelude Bytes.

(** The [id_type!] newtypes of [ids.rs]. *)
Abbreviation UniverseId := Z (only parsing).
Abbreviation ZoneId := Z (only parsing).
Abbreviation EntityId := Z (only parsing).
Abbreviation AccountId := Z (only parsing).
Abbreviation CharacterId := Z (only parsing).
Abbreviation ItemInstanceId := Z (only parsing).
Abbreviation DefinitionId := Z (only parsing).
Abbreviation ServerTick := Z (only parsing).
Abbreviation ConnectionId := Z (only parsing).
Abbreviation SessionId := Z (only parsing).
Abbreviation IntentSequence := Z (only parsing).

(** ** Replay window *)

Module Replay.

Definition WINDOW_BITS : Z := 64.

Inductive ReplayDecision :=
| AcceptedNewHighest
| AcceptedOutOfOrder
| RejectedDuplicate
| RejectedTooOld.

#[global] Instance ReplayDecision_eq_dec : EqDecision ReplayDecision.
Proof. solve_decision. Defined.

Definition is_accepted (d : ReplayDecision) : bool :=
  match d with AcceptedNewHighest | AcceptedOutOfOrder => true | _ => false end.

Record ReplayWindow := { highest : option Z; seen : Z }.

(** [ReplayWindow::default]. *)
Definition empty_window : ReplayWindow := {| highest := None; seen := 0 |}.

Definition observe (w : ReplayWindow) (sequence : Z) : ReplayWindow * ReplayDecision :=
  match highest w with
  | None => ({| highest := Some sequence; seen := 1 |}, AcceptedNewHighest)
  | Some h =>
      if decide (sequence > h) then
        let shift := sequence - h in
        let seen' := if decide (shift >= WINDOW_BITS) then 1
                     else Z.lor (wrap_u 64 (Z.shiftl (seen w) shift)) 1 in
        ({| highest := Some sequence; seen := seen' |}, AcceptedNewHighest)
      else
        let distance := h - sequence in
        if decide (distance >= WINDOW_BITS) then (w, RejectedTooOld)
        else
          let mask := Z.shiftl 1 distance in
          if decide (Z.land (seen w) mask <> 0) then (w, RejectedDuplicate)
          else ({| highest := Some h; seen := Z.lor (seen w) mask |}, AcceptedOutOfOrder)
  end.

Definition accept (w : ReplayWindow) (sequence : Z) : ReplayWindow * bool :=
  let '(w', d) := observe w sequence in (w', is_accepted d).

(** A run of the window over the sequence numbers of a packet stream. *)
Fixpoint observe_all (w : ReplayWindow) (ss : list Z) : ReplayWindow * list ReplayDecision :=
  match ss with
  | [] => (w, [])
  | s :: ss' =>
      let '(w1, d) := observe w s in
      let '(w2, ds) := observe_all w1 ss' in (w2, d :: ds)
  end.

(** *** Abstract specification

    The specification remembers the whole set of accepted sequence numbers and
    its maximum; the window is a 64-bit summary of it. *)

Record SpecWindow := { spec_max : option Z; spec_accepted : gset Z }.

Definition spec_empty : SpecWindow := {| spec_max := None; spec_accepted := ∅ |}.

Definition spec_observe (S : SpecWindow) (s : Z) : SpecWindow * ReplayDecision :=
  match spec_max S with
  | None => ({| spec_max := Some s; spec_accepted := {[ s ]} ∪ spec_accepted S |}, AcceptedNewHighest)
  | Some m =>
      if decide (m < s) then
        ({| spec_max := Some s; spec_accepted := {[ s ]} ∪ spec_accepted S |}, AcceptedNewHighest)
      else if decide (m - 64 < s) then
        if decide (s ∈ spec_accepted S) then (S, RejectedDuplicate)
        else ({| spec_max := Some m; spec_accepted := {[ s ]} ∪ spec_accepted S |}, AcceptedOutOfOrder)
      else (S, RejectedTooOld)
  end.

Fixpoint spec_observe_all (S : SpecWindow) (ss : list Z) : SpecWindow * list ReplayDecision :=
  match ss with
  | [] => (S, [])
  | s :: ss' =>
      let '(S1, d) := spec_observe S s in
      let '(S2, ds) := spec_observe_all S1 ss' in (S2, d :: ds)
  end.

(** The simulation relation: bit [d] of the window is set exactly when the
    sequence number [d] below the maximum was accepted. *)
Definition window_repr (w : ReplayWindow) (S : SpecWindow) : Prop :=
  highest w = spec_max S /\
  in_u 64 (seen w) /\
  match spec_max S with
  | None => seen w = 0 /\ spec_accepted S = ∅
  | Some m =>
      (forall s, s ∈ spec_accepted S -> s <= m) /\
      (forall d, 0 <= d < 64 -> Z.testbit (seen w) d = bool_decide (m - d ∈ spec_accepted S))
  end.

Lemma testbit_shifted_or_one x k d :
  0 <= k -> 0 <= d < 64 ->
  Z.testbit (Z.lor (wrap_u 64 (Z.shiftl x k)) 1) d
  = (bool_decide (d = 0) || (bool_decide (k <= d) && Z.testbit x (d - k))).
Proof.
  intros Hk Hd. unfold wrap_u.
  rewrite Z.lor_spec, Z.mod_pow2_bits_low, Z.shiftl_spec by lia.
  destruct (decide (d = 0)) as [->|Hd0].
  - rewrite bool_decide_true by lia. rewrite orb_true_r. done.
  - rewrite (bool_decide_false (d = 0)) by done.
    assert (Z.testbit 1 d = false) as -> by (destruct d; [lia|destruct p; done|lia]).
    rewrite orb_false_r. cbn [orb]. case_bool_decide; [done|].
    rewrite Z.testbit_neg_r by lia. done.
Qed.

Lemma land_mask_testbit x d :
  0 <= d -> Z.land x (Z.shiftl 1 d) <> 0 <-> Z.testbit x d = true.
Proof.
  intros Hd. rewrite Z.shiftl_1_l. split.
  - intros Hne. destruct (Z.testbit x d) eqn:E; [done|]. exfalso. apply Hne.
    apply Z.bits_inj'. intros i Hi. rewrite Z.land_spec, Z.bits_0, Z.pow2_bits_eqb by lia.
    destruct (Z.eqb_spec d i) as [->|]; [rewrite E; done|apply andb_false_r].
  - intros E Hz. assert (Z.testbit (Z.land x (2 ^ d)) d = false) as Hf by (rewrite Hz; apply Z.bits_0).
    rewrite Z.land_spec, E, Z.pow2_bits_eqb, Z.eqb_refl in Hf by lia. done.
Qed.

Lemma lor_u64 x y : in_u 64 x -> in_u 64 y -> in_u 64 (Z.lor x y).
Proof.
  unfold in_u. intros [Hx Hx'] [Hy Hy']. split; [apply Z.lor_nonneg; done|].
  assert (Z.lor x y = (Z.lor x y) mod 2 ^ 64) as ->; [|apply Z.mod_pos_bound; lia].
  rewrite <- Z.land_ones, Z.land_lor_distr_l, !Z.land_ones, !Z.mod_small by lia. done.
Qed.

Lemma window_repr_empty : window_repr empty_window spec_empty.
Proof. repeat split; cbn; lia. Qed.

(** A new highest sequence number: the summary is shifted and bit 0 is set. *)
Lemma window_repr_new_highest w S m s :
  window_repr w S -> spec_max S = Some m -> m < s ->
  window_repr
    {| highest := Some s;
       seen := if decide (s - m >= WINDOW_BITS) then 1
               else Z.lor (wrap_u 64 (Z.shiftl (seen w) (s - m))) 1 |}
    {| spec_max := Some s; spec_accepted := {[ s ]} ∪ spec_accepted S |}.
Proof.
  intros (Hh & Hu & Hr) Hm Hs. rewrite Hm in Hr. destruct Hr as [Hle Hbits].
  unfold WINDOW_BITS. split; [done|]. cbn. split.
  - case_decide; [unfold in_u; lia|]. apply lor_u64; [apply wrap_u_range; lia|unfold in_u; lia].
  - split; [set_unfold; intros x [->|Hx]; [lia|specialize (Hle x Hx); lia]|].
    intros d Hd. destruct (decide (d = 0)) as [->|Hd0].
    { rewrite bool_decide_true by set_solver by lia.
      case_decide; [done|]. rewrite testbit_shifted_or_one by lia. done. }
    assert (s - d ∈ ({[s]} ∪ spec_accepted S : gset Z) <-> s - d ∈ spec_accepted S) as Hin.
    { set_unfold. split; [intros [?|?]; [lia|done]|auto]. }
    rewrite (bool_decide_ext _ _ Hin).
    case_decide as Hsh.
    + rewrite bool_decide_false by (intros Hx%Hle; lia).
      destruct d as [|p|p]; [lia|destruct p; done|lia].
    + rewrite testbit_shifted_or_one by lia.
      rewrite (bool_decide_false (d = 0)) by done. cbn [orb].
      case_bool_decide as Hge; cbn [andb].
      * rewrite Hbits by lia. f_equal. apply bool_decide_ext. f_equiv. lia.
      * rewrite bool_decide_false; [done|]. intros Hx%Hle. lia.
Qed.

(** An unseen number inside the window: its bit is set. *)
Lemma window_repr_out_of_order w S m s :
  window_repr w S -> spec_max S = Some m -> s <= m -> m - 64 < s ->
  window_repr
    {| highest := Some m; seen := Z.lor (seen w) (Z.shiftl 1 (m - s)) |}
    {| spec_max := Some m; spec_accepted := {[ s ]} ∪ spec_accepted S |}.
Proof.
  intros (Hh & Hu & Hr) Hm Hs Hs'. rewrite Hm in Hr. destruct Hr as [Hle Hbits].
  rewrite Z.shiftl_1_l. split; [done|]. cbn [seen highest spec_max spec_accepted]. split.
  - apply lor_u64; [done|]. split; [apply Z.pow_nonneg; lia|apply Z.pow_lt_mono_r; lia].
  - split; [set_unfold; intros x [->|Hx]; [lia|auto]|].
    intros d Hd. rewrite Z.lor_spec, Z.pow2_bits_eqb, Hbits by lia.
    destruct (Z.eqb_spec (m - s) d) as [<-|Hne].
    + rewrite orb_true_r, bool_decide_true; [done|]. set_unfold. left. lia.
    + rewrite orb_false_r. apply bool_decide_ext. set_unfold.
      split; [auto|intros [?|?]; [lia|done]].
Qed.

Lemma window_repr_seen w S m s :
  window_repr w S -> spec_max S = Some m -> s <= m -> m - 64 < s ->
  Z.land (seen w) (Z.shiftl 1 (m - s)) <> 0 <-> s ∈ spec_accepted S.
Proof.
  intros (Hh & Hu & Hr) Hm Hs Hs'. rewrite Hm in Hr. destruct Hr as [Hle Hbits].
  rewrite land_mask_testbit, Hbits by lia. rewrite bool_decide_eq_true.
  replace (m - (m - s)) with s by lia. done.
Qed.

Lemma observe_simulates w S s :
  window_repr w S ->
  snd (observe w s) = snd (spec_observe S s) /\
  window_repr (fst (observe w s)) (fst (spec_observe S s)).
Proof.
  intros Hw. pose proof Hw as (Hh & Hu & Hr). unfold observe, spec_observe.
  destruct (spec_max S) as [m|] eqn:Hm; rewrite Hh.
  - destruct (decide (s > m)), (decide (m < s)); [|lia|lia|]; cbn.
    { split; [done|]. by apply window_repr_new_highest. }
    unfold WINDOW_BITS. destruct (decide (m - s >= 64)), (decide (m - 64 < s)); [lia|done| |lia].
    pose proof (window_repr_seen w S m s Hw Hm ltac:(lia) ltac:(lia)) as Hseen.
    destruct (decide (Z.land _ _ <> 0)) as [Hx|Hx], (decide (s ∈ _)) as [Hy|Hy]; [done|tauto|tauto|].
    split; [done|]. apply window_repr_out_of_order; done || lia.
  - destruct Hr as [_ Hempty]. split; [done|]. cbn. rewrite Hempty.
    split; [done|]. cbn. split; [unfold in_u; lia|]. split; [set_solver by lia|].
    intros d Hd. destruct (decide (d = 0)) as [->|].
    + rewrite bool_decide_true by set_solver by lia. done.
    + rewrite bool_decide_false by set_solver by lia. destruct d as [|p|p]; [lia|destruct p; done|lia].
Qed.

Lemma observe_all_simulates ss w S :
  window_repr w S ->
  snd (observe_all w ss) = snd (spec_observe_all S ss) /\
  window_repr (fst (observe_all w ss)) (fst (spec_observe_all S ss)).
Proof.
  revert w S. induction ss as [|s ss IH]; intros w S Hw; [done|]. cbn.
  destruct (observe_simulates w S s Hw) as [Hd Hw1].
  destruct (observe w s) as [w1 d], (spec_observe S s) as [S1 d']. cbn in *.
  specialize (IH w1 S1 Hw1).
  destruct (observe_all w1 ss), (spec_observe_all S1 ss). cbn in *. naive_solver.
Qed.

(** *** Consequences of the specification *)

Definition spec_wf (S : SpecWindow) : Prop :=
  match spec_max S with
  | None => spec_accepted S = ∅
  | Some m => m ∈ spec_accepted S /\ forall s, s ∈ spec_accepted S -> s <= m
  end.

Lemma spec_observe_wf S s : spec_wf S -> spec_wf (fst (spec_observe S s)).
Proof.
  unfold spec_wf, spec_observe. intros H.
  destruct (spec_max S) as [m|] eqn:Hm; [destruct H as [H1 H2]|];
    repeat (case_decide; cbn; rewrite ?Hm); try done.
  - set_unfold. split; [auto|]. intros x [->|Hx]; [lia|]. specialize (H2 x Hx). lia.
  - set_unfold. split; [auto|]. intros x [->|Hx]; [lia|auto].
  - rewrite H. split; [set_solver|]. set_unfold. intros x [->|[]]. lia.
Qed.

(** Numbers a run accepted, in order. *)
Fixpoint accepted_of (ss : list Z) (ds : list ReplayDecision) : list Z :=
  match ss, ds with
  | s :: ss', d :: ds' => if is_accepted d then s :: accepted_of ss' ds' else accepted_of ss' ds'
  | _, _ => []
  end.

Lemma spec_observe_accepts S s :
  spec_wf S ->
  (is_accepted (snd (spec_observe S s)) = true ->
     s ∉ spec_accepted S /\
     spec_accepted (fst (spec_observe S s)) = {[ s ]} ∪ spec_accepted S) /\
  (is_accepted (snd (spec_observe S s)) = false -> fst (spec_observe S s) = S).
Proof.
  unfold spec_wf, spec_observe. intros H.
  destruct (spec_max S) as [m|] eqn:Hm; [destruct H as [H1 H2]|];
    repeat (case_decide; cbn); split; intros; try done; (split; [|done]).
  - intros Hx%H2. lia.
  - rewrite H. set_solver.
Qed.

Lemma spec_run_nodup ss S :
  spec_wf S ->
  NoDup (accepted_of ss (snd (spec_observe_all S ss))) /\
  (forall s, s ∈ accepted_of ss (snd (spec_observe_all S ss)) -> s ∉ spec_accepted S).
Proof.
  revert S. induction ss as [|s ss IH]; intros S HS; cbn; [split; [constructor|set_solver]|].
  pose proof (spec_observe_wf S s HS) as HS1.
  destruct (spec_observe_accepts S s HS) as [Hacc Hrej].
  destruct (spec_observe S s) as [S1 d] eqn:E. cbn in *.
  specialize (IH S1 HS1). destruct (spec_observe_all S1 ss) as [S2 ds]. cbn in *.
  destruct IH as [IH1 IH2]. destruct (is_accepted d).
  - destruct (Hacc eq_refl) as [Hn HS1eq]. rewrite HS1eq in IH2. split.
    + apply NoDup_cons_2; [|done]. intros Hin. apply (IH2 s Hin). set_solver.
    + intros x [->|Hx]%elem_of_cons; [done|]. specialize (IH2 x Hx). set_solver.
  - rewrite (Hrej eq_refl) in IH2. done.
Qed.

(** ** Theorems *)

(** C1: over any packet stream the 64-bit replay window takes exactly the
    decisions of the specification that remembers every accepted sequence
    number: new maximum, unseen within 64 of the maximum, duplicate, or too
    old; and the bitmap stays a faithful 64-bit summary. *)
Theorem replay_window_refines_spec (ss : list Z) :
  snd (observe_all empty_window ss) = snd (spec_observe_all spec_empty ss) /\
  window_repr (fst (observe_all empty_window ss)) (fst (spec_observe_all spec_empty ss)).
Proof. apply observe_all_simulates, window_repr_empty. Qed.

(** At-most-once delivery: whatever the packet stream, no sequence number
    is accepted twice by the window. *)
Theorem replay_at_most_once (ss : list Z) :
  NoDup (accepted_of ss (snd (observe_all empty_window ss))).
Proof.
  destruct (observe_all_simulates ss _ _ window_repr_empty) as [-> _].
  apply spec_run_nodup. done.
Qed.

End Replay.

(** ** World coordinates *)

Module World.

Record SectorCoord := { sector_x : Z; sector_y : Z }.

#[global] Instance SectorCoord_eq_dec : EqDecision SectorCoord.
Proof. solve_decision. Defined.

Record QuadrantCoord := mk_coord { qx : Z; qy : Z }.

#[global] Instance QuadrantCoord_eq_dec : EqDecision QuadrantCoord.
Proof. solve_decision. Defined.

#[global] Instance QuadrantCoord_countable : Countable QuadrantCoord.
Proof.
  apply (inj_countable' (fun c => (qx c, qy c)) (fun '(x, y) => mk_coord x y)).
  by intros [].
Defined.

(** An [i64] pair. *)
Definition coord_ok (c : QuadrantCoord) : Prop := in_i 64 (qx c) /\ in_i 64 (qy c).

Inductive WorldGridError := InvalidQuadrantSize (value : Z).

(** [QuadrantSizeMm::new]. *)
Definition quadrant_size_new (value : Z) : result WorldGridError Z :=
  if decide (value <= 0) then Err (InvalidQuadrantSize value) else Ok value.

Record WorldPositionMm := mk_pos { px : Z; py : Z; pz : Z }.

#[global] Instance WorldPositionMm_eq_dec : EqDecision WorldPositionMm.
Proof. solve_decision. Defined.

Definition pos_ok (p : WorldPositionMm) : Prop :=
  in_i 64 (px p) /\ in_i 64 (py p) /\ in_i 64 (pz p).

Definition ORIGIN : WorldPositionMm := mk_pos 0 0 0.

(** [i64::div_euclid]: the quotient whose remainder is not negative; [b] is
    never zero here. *)
Definition div_euclid (a b : Z) : Z :=
  let q := Z.quot a b in
  if decide (Z.rem a b < 0) then (if decide (b > 0) then q - 1 else q + 1) else q.

Definition quadrant_coord (p : WorldPositionMm) (quadrant_size : Z) : QuadrantCoord :=
  mk_coord (div_euclid (px p) quadrant_size) (div_euclid (py p) quadrant_size).

Definition checked_translate_horizontal (p : WorldPositionMm) (delta_x_mm delta_y_mm : Z)
  : option WorldPositionMm :=
  x ← checked_i 64 (px p + delta_x_mm);
  y ← checked_i 64 (py p + delta_y_mm);
  Some (mk_pos x y (pz p)).

Lemma div_euclid_pos a b : 0 < b -> div_euclid a b = a / b.
Proof.
  intros Hb. unfold div_euclid.
  pose proof (Z.quot_rem a b ltac:(lia)) as Hqr.
  pose proof (Z.rem_bound_abs a b ltac:(lia)) as Habs.
  destruct (decide (Z.rem a b < 0)); [rewrite decide_True by lia|].
  - apply (Z.div_unique a b _ (Z.rem a b + b)); [left; lia|lia].
  - apply (Z.div_unique a b _ (Z.rem a b)); [left; lia|lia].
Qed.

Lemma div_in_i64 a b : in_i 64 a -> 0 < b -> in_i 64 (a / b).
Proof.
  unfold in_i. intros Ha Hb. split.
  - apply Z.div_le_lower_bound; [done|]. nia.
  - apply Z.div_lt_upper_bound; [done|]. nia.
Qed.

(** For a valid quadrant size the quadrant of a position is the unique
    one whose half-open square contains it, also for negative coordinates, and
    its coordinates stay in [i64]. *)
Theorem quadrant_coord_partition (p : WorldPositionMm) (v size : Z) :
  pos_ok p -> quadrant_size_new v = Ok size ->
  coord_ok (quadrant_coord p size) /\
  forall c : QuadrantCoord,
    (qx c * size <= px p < (qx c + 1) * size /\ qy c * size <= py p < (qy c + 1) * size)
    <-> c = quadrant_coord p size.
Proof.
  intros (Hx & Hy & _) Hs. unfold quadrant_size_new in Hs. step_inv Hs.
  assert (0 < size) as Hpos by lia.
  unfold quadrant_coord. rewrite !div_euclid_pos by done. split.
  { split; cbn; by apply div_in_i64. }
  intros [cx cy]; cbn. split.
  - intros [H1 H2]. f_equal.
    + apply (Z.div_unique (px p) size _ (px p - cx * size)); [left; lia|lia].
    + apply (Z.div_unique (py p) size _ (py p - cy * size)); [left; lia|lia].
  - intros [= -> ->].
    pose proof (Z.div_mod (px p) size ltac:(lia)). pose proof (Z.mod_pos_bound (px p) size Hpos).
    pose proof (Z.div_mod (py p) size ltac:(lia)). pose proof (Z.mod_pos_bound (py p) size Hpos).
    nia.
Qed.

Lemma quadrant_coord_partition_witness :
  coord_ok (quadrant_coord (mk_pos (-512001) 511999 7) 512000)
  /\ quadrant_coord (mk_pos (-512001) 511999 7) 512000 = mk_coord (-2) 0.
Proof.
  split; [|vm_compute; reflexivity].
  apply (quadrant_coord_partition (mk_pos (-512001) 511999 7) 512000 512000);
    [repeat split; vm_compute; congruence|vm_compute; reflexivity].
Defined.

End World.

(** ** Seed derivation *)

Module Seeds.
Import World.

(** The ASCII bytes of ["AURENFALL_QUADRANT_V1"]. *)
Definition QUADRANT_SEED_DOMAIN_V1 : list Z :=
  [65; 85; 82; 69; 78; 70; 65; 76; 76; 95; 81; 85; 65; 68; 82; 65; 78; 84; 95; 86; 49].

Section Blake3.
(** [blake3::hash] and a keyed [blake3::Hasher]: the hasher is a function of
    the key and of the concatenation of the inputs of its [update] calls. *)
Context (blake3_hash : list Z -> list Z) (blake3_keyed : list Z -> list Z -> list Z).

(** [UniverseSeed::from_phrase], the phrase as its UTF-8 bytes. *)
Definition from_phrase (phrase : list Z) : list Z := blake3_hash phrase.

(** The [update] calls of [quadrant_seed] and of [sector_seed]. *)
Definition quadrant_seed_updates (c : QuadrantCoord) (generator_version : Z) : list (list Z) :=
  [QUADRANT_SEED_DOMAIN_V1; to_le 4 generator_version; to_le 8 (qx c); to_le 8 (qy c)].

Definition sector_seed_updates (x y generator_version : Z) : list (list Z) :=
  [to_le 8 x; to_le 8 y; to_le 4 generator_version].

Definition quadrant_seed (universe : list Z) (c : QuadrantCoord) (generator_version : Z) : list Z :=
  blake3_keyed universe (concat (quadrant_seed_updates c generator_version)).

Definition sector_seed (universe : list Z) (x y generator_version : Z) : list Z :=
  blake3_keyed universe (concat (sector_seed_updates x y generator_version)).

(** Two different inputs with the same digest. *)
Definition collision (key : list Z) : Prop :=
  exists m m', m <> m' /\ blake3_keyed key m = blake3_keyed key m'.

Lemma to_le_i64_inj x y : in_i 64 x -> in_i 64 y -> to_le 8 x = to_le 8 y -> x = y.
Proof.
  intros Hx Hy H.
  rewrite <- (from_le_to_le_i 8 64 x), <- (from_le_to_le_i 8 64 y), H by (done || lia). done.
Qed.

Lemma to_le_u32_inj x y : in_u 32 x -> in_u 32 y -> to_le 4 x = to_le 4 y -> x = y.
Proof.
  intros Hx Hy H.
  rewrite <- (from_le_to_le_u 4 32 x), <- (from_le_to_le_u 4 32 y), H by (done || lia). done.
Qed.

Lemma quadrant_message_inj c v c' v' :
  coord_ok c -> coord_ok c' -> in_u 32 v -> in_u 32 v' ->
  concat (quadrant_seed_updates c v) = concat (quadrant_seed_updates c' v') -> c = c' /\ v = v'.
Proof.
  intros [Hx Hy] [Hx' Hy'] Hv Hv' H. cbn [concat quadrant_seed_updates] in H.
  apply app_inv_head in H. rewrite !app_nil_r in H.
  apply app_inj_1 in H as [Ev H]; [|len_solve].
  apply app_inj_1 in H as [Ex Ey]; [|len_solve].
  destruct c, c'; cbn in *. split; [f_equal; by apply to_le_i64_inj|by apply to_le_u32_inj].
Qed.

Lemma quadrant_sector_message_ne c v x y w :
  concat (quadrant_seed_updates c v) <> concat (sector_seed_updates x y w).
Proof.
  intros H. apply (f_equal length) in H. cbn [concat quadrant_seed_updates sector_seed_updates] in H.
  rewrite !length_app, !length_to_le in H. cbn in H. lia.
Qed.

(** The seed of a quadrant separates coordinates and generator versions:
    two quadrant seeds of one universe agree only for the same coordinate and
    version, or BLAKE3 has a collision; a quadrant seed never comes from the
    hasher input of a sector seed. *)
Theorem quadrant_seed_separation (universe : list Z) (c c' : QuadrantCoord) (v v' : Z) :
  coord_ok c -> coord_ok c' -> in_u 32 v -> in_u 32 v' ->
  (quadrant_seed universe c v = quadrant_seed universe c' v' ->
     (c = c' /\ v = v') \/ collision universe) /\
  (forall x y w, quadrant_seed universe c v = sector_seed universe x y w -> collision universe).
Proof.
  intros Hc Hc' Hv Hv'. split.
  - intros H. destruct (decide (concat (quadrant_seed_updates c v) = concat (quadrant_seed_updates c' v')))
      as [E|E].
    + left. by eapply quadrant_message_inj.
    + right. by exists (concat (quadrant_seed_updates c v)), (concat (quadrant_seed_updates c' v')).
  - intros x y w H.
    exists (concat (quadrant_seed_updates c v)), (concat (sector_seed_updates x y w)).
    split; [apply quadrant_sector_message_ne|done].
Qed.
End Blake3.

(** With an injective stand-in for the keyed hash the two seeds differ. *)
Lemma quadrant_seed_separation_witness :
  quadrant_seed (fun k m => k ++ m) [1; 2] (mk_coord 10 (-4)) 1
  <> quadrant_seed (fun k m => k ++ m) [1; 2] (mk_coord 11 (-4)) 1.
Proof.
  intros H.
  destruct (proj1 (quadrant_seed_separation (fun k m => k ++ m) [1; 2]
    (mk_coord 10 (-4)) (mk_coord 11 (-4)) 1 1
    ltac:(repeat split; vm_compute; congruence) ltac:(repeat split; vm_compute; congruence)
    ltac:(split; vm_compute; congruence) ltac:(split; vm_compute; congruence)) H)
    as [[E _]|(m & m' & Hne & E)].
  - discriminate E.
  - apply Hne. apply (app_inv_head [1; 2]). exact E.
Defined.

End Seeds.
