(* ===== verification/Contracts.v ===== *)
(** Contracts crate ([crates/contracts/src]): the wire messages exchanged with
    the client.  [Bootstrap] is the frame header and the handshake messages,
    [Intents] the client intents, [Ack] the frontier acknowledgement,
    [Prediction] the movement profile and [Manifest] the frontier manifest.

    Every message has a well-formedness predicate (the ranges of its fields and
    what its constructor validates), and the promise of a codec, stated once as
    the class [Codec]: encoding then decoding gives the message back, and every
    byte string the decoder accepts is the encoding of the message it returns. *)

From S2P Require Import Prelude Bytes.

Class Codec {A E : Type} (wf : A -> Prop) (enc : A -> list Z) (dec : list Z -> result E A) : Prop := {
  decode_encode : forall a, wf a -> dec (enc a) = Ok a;
  encode_decode : forall l a, are_bytes l -> dec l = Ok a -> wf a /\ enc a = l
}.

(** What clients of a codec rely on. *)
Section CodecFacts.
Context {A E} {wf : A -> Prop} {enc} {dec : list Z -> result E A} `{!Codec wf enc dec}.

Lemma encode_injective a b : wf a -> wf b -> enc a = enc b -> a = b.
Proof.
  intros Ha Hb H. pose proof (decode_encode a Ha) as Ea.
  rewrite H, (decode_encode b Hb) in Ea. congruence.
Qed.

Lemma decode_canonical l l' a :
  are_bytes l -> are_bytes l' -> dec l = Ok a -> dec l' = Ok a -> l = l'.
Proof.
  intros Hl Hl' H H'. destruct (encode_decode l a Hl H), (encode_decode l' a Hl' H'). congruence.
Qed.
End CodecFacts.

Definition len (l : list Z) : Z := Z.of_nat (length l).

(** [payload[i]], inside the checked length. *)
Definition byte_at (l : list Z) (i : nat) : Z := default 0 (l !! i).

Lemma slice_one (l : list Z) i : (i < length l)%nat -> slice l i (S i) = [byte_at l i].
Proof.
  intros Hi. unfold slice, byte_at. replace (S i - i)%nat with 1%nat by lia.
  destruct (lookup_lt_is_Some_2 l i Hi) as [b Hb]. rewrite Hb. cbn.
  by rewrite (drop_S _ _ _ Hb).
Qed.

Lemma byte_at_slice (l : list Z) i b : slice l i (S i) = [b] -> byte_at l i = b.
Proof.
  unfold slice, byte_at. replace (S i - i)%nat with 1%nat by lia. intros H.
  destruct (l !! i) as [x|] eqn:Hx.
  - rewrite (drop_S _ _ _ Hx) in H. cbn in H. by injection H.
  - apply lookup_ge_None in Hx. rewrite drop_ge in H by lia. done.
Qed.

(** ** Frame header and handshake ([lib.rs], [bootstrap.rs]) *)

Module Bootstrap.

Definition PROTOCOL_MAJOR : Z := 1.
Definition PROTOCOL_MINOR : Z := 3.

Definition negotiate_protocol_minor (client_major client_minor server_major server_minor : Z)
  : option Z :=
  if decide (client_major = server_major /\ client_minor <= server_minor)
  then Some client_minor else None.

Inductive MessageKind :=
| KClientHello | KServerHello | KMovementPredictionProfile | KMoveIntent | KFrontierManifest
| KEntityDelta | KSelfMovementSnapshot | KSelfMovementSnapshotV2 | KFrontierManifestAck
| KTerrainAuthority | KEnvironmentPresentationPolicy | KWaterSurfacePresentation
| KInventoryIntent | KInventoryResult | KMineIntent.

#[global] Instance MessageKind_eq_dec : EqDecision MessageKind.
Proof. solve_decision. Defined.

Inductive BootstrapCodecError :=
| InvalidMagic
| UnknownMessageKind (v : Z)
| InvalidPayloadLength (expected actual : Z)
| InvalidBoolean (v : Z)
| UnknownRejectCode (v : Z)
| PayloadTooLarge.

(** The discriminants of the [repr(u16)] enumeration, [kind as u16]. *)
Definition kind_code (k : MessageKind) : Z :=
  match k with
  | KClientHello => 1 | KServerHello => 2 | KMovementPredictionProfile => 3
  | KMoveIntent => 100
  | KFrontierManifest => 200 | KEntityDelta => 201 | KSelfMovementSnapshot => 202
  | KSelfMovementSnapshotV2 => 203 | KFrontierManifestAck => 204 | KTerrainAuthority => 205
  | KEnvironmentPresentationPolicy => 206 | KWaterSurfacePresentation => 207
  | KInventoryIntent => 300 | KInventoryResult => 301
  | KMineIntent => 400
  end.

Definition kind_try_from (value : Z) : result BootstrapCodecError MessageKind :=
  match value with
  | 1 => Ok KClientHello | 2 => Ok KServerHello | 3 => Ok KMovementPredictionProfile
  | 100 => Ok KMoveIntent
  | 200 => Ok KFrontierManifest | 201 => Ok KEntityDelta | 202 => Ok KSelfMovementSnapshot
  | 203 => Ok KSelfMovementSnapshotV2 | 204 => Ok KFrontierManifestAck | 205 => Ok KTerrainAuthority
  | 206 => Ok KEnvironmentPresentationPolicy | 207 => Ok KWaterSurfacePresentation
  | 300 => Ok KInventoryIntent | 301 => Ok KInventoryResult
  | 400 => Ok KMineIntent
  | _ => Err (UnknownMessageKind value)
  end.

(** [b"AUR2"]. *)
Definition MAGIC : list Z := [65; 85; 82; 50].
Definition FRAME_HEADER_BYTES : nat := 8.
Definition CLIENT_HELLO_BYTES : nat := 24.
Definition SERVER_HELLO_BYTES : nat := 62.

Record FrameHeader := { kind : MessageKind; payload_len : Z }.

Definition header_new (k : MessageKind) (payload_length : Z) : result BootstrapCodecError FrameHeader :=
  payload_len ← ok_or PayloadTooLarge (checked_u 16 payload_length);
  Ok {| kind := k; payload_len := payload_len |}.

Definition header_encode (h : FrameHeader) : list Z :=
  MAGIC ++ to_be 2 (kind_code (kind h)) ++ to_be 2 (payload_len h).

(** The argument is an array of [FRAME_HEADER_BYTES] bytes. *)
Definition header_decode (bytes : list Z) : result BootstrapCodecError FrameHeader :=
  if decide (slice bytes 0 4 <> MAGIC) then Err InvalidMagic
  else
    kind ← kind_try_from (from_be (slice bytes 4 6));
    Ok {| kind := kind; payload_len := from_be (slice bytes 6 8) |}.

Record ClientHello := {
  ch_protocol_major : Z;
  ch_protocol_minor : Z;
  ch_client_build : Z;
  ch_client_nonce : list Z
}.

Definition client_hello_encode (h : ClientHello) : list Z :=
  to_be 2 (ch_protocol_major h) ++ to_be 2 (ch_protocol_minor h) ++
  to_be 4 (ch_client_build h) ++ ch_client_nonce h.

Definition client_hello_decode (payload : list Z) : result BootstrapCodecError ClientHello :=
  if decide (length payload <> CLIENT_HELLO_BYTES)
  then Err (InvalidPayloadLength (Z.of_nat CLIENT_HELLO_BYTES) (len payload))
  else Ok {|
    ch_protocol_major := from_be (slice payload 0 2);
    ch_protocol_minor := from_be (slice payload 2 4);
    ch_client_build := from_be (slice payload 4 8);
    ch_client_nonce := slice payload 8 24
  |}.

Inductive HandshakeRejectCode := RejectNone | IncompatibleProtocol | ClientBuildTooOld.

Definition reject_code_byte (c : HandshakeRejectCode) : Z :=
  match c with RejectNone => 0 | IncompatibleProtocol => 1 | ClientBuildTooOld => 2 end.

Definition reject_code_try_from (value : Z) : result BootstrapCodecError HandshakeRejectCode :=
  match value with
  | 0 => Ok RejectNone
  | 1 => Ok IncompatibleProtocol
  | 2 => Ok ClientBuildTooOld
  | _ => Err (UnknownRejectCode value)
  end.

Record ServerHello := {
  sh_protocol_major : Z;
  sh_protocol_minor : Z;
  sh_accepted : bool;
  sh_reject_code : HandshakeRejectCode;
  sh_connection_id : Z;
  sh_session_id : Z;
  sh_universe_id : Z;
  sh_client_nonce_echo : list Z;
  sh_server_nonce : list Z
}.

Definition server_hello_encode (h : ServerHello) : list Z :=
  to_be 2 (sh_protocol_major h) ++ to_be 2 (sh_protocol_minor h) ++
  [if sh_accepted h then 1 else 0] ++ [reject_code_byte (sh_reject_code h)] ++
  to_be 8 (sh_connection_id h) ++ to_be 8 (sh_session_id h) ++ to_be 8 (sh_universe_id h) ++
  sh_client_nonce_echo h ++ sh_server_nonce h.

Definition decode_boolean (value : Z) : result BootstrapCodecError bool :=
  match value with 0 => Ok false | 1 => Ok true | _ => Err (InvalidBoolean value) end.

Definition server_hello_decode (payload : list Z) : result BootstrapCodecError ServerHello :=
  if decide (length payload <> SERVER_HELLO_BYTES)
  then Err (InvalidPayloadLength (Z.of_nat SERVER_HELLO_BYTES) (len payload))
  else
    accepted ← decode_boolean (byte_at payload 4);
    reject_code ← reject_code_try_from (byte_at payload 5);
    Ok {|
      sh_protocol_major := from_be (slice payload 0 2);
      sh_protocol_minor := from_be (slice payload 2 4);
      sh_accepted := accepted;
      sh_reject_code := reject_code;
      sh_connection_id := from_be (slice payload 6 14);
      sh_session_id := from_be (slice payload 14 22);
      sh_universe_id := from_be (slice payload 22 30);
      sh_client_nonce_echo := slice payload 30 46;
      sh_server_nonce := slice payload 46 62
    |}.

(** *** Field ranges *)

Definition header_ok (h : FrameHeader) : Prop := in_u 16 (payload_len h).

Definition client_hello_ok (h : ClientHello) : Prop :=
  in_u 16 (ch_protocol_major h) /\ in_u 16 (ch_protocol_minor h) /\ in_u 32 (ch_client_build h) /\
  length (ch_client_nonce h) = 16%nat.

Definition server_hello_ok (h : ServerHello) : Prop :=
  in_u 16 (sh_protocol_major h) /\ in_u 16 (sh_protocol_minor h) /\
  in_u 64 (sh_connection_id h) /\ in_u 64 (sh_session_id h) /\ in_u 64 (sh_universe_id h) /\
  length (sh_client_nonce_echo h) = 16%nat /\ length (sh_server_nonce h) = 16%nat.

Lemma kind_try_from_code k : kind_try_from (kind_code k) = Ok k.
Proof. by destruct k. Qed.

Lemma kind_try_from_Ok v k : kind_try_from v = Ok k -> v = kind_code k.
Proof.
  intros H. unfold kind_try_from in H.
  repeat (match type of H with
          | match ?x with _ => _ end = _ => destruct x
          end; try discriminate H; try (injection H as <-; reflexivity)).
Qed.

Lemma kind_code_u16 k : in_u 16 (kind_code k).
Proof. by destruct k. Qed.

Lemma reject_code_try_from_Ok v c : reject_code_try_from v = Ok c -> reject_code_byte c = v.
Proof.
  intros H. unfold reject_code_try_from in H.
  repeat (match type of H with
          | match ?x with _ => _ end = _ => destruct x
          end; try discriminate H; try (injection H as <-; reflexivity)).
Qed.

Lemma decode_boolean_Ok v b : decode_boolean v = Ok b -> (if b then 1 else 0) = v.
Proof.
  intros H. unfold decode_boolean in H.
  repeat (match type of H with
          | match ?x with _ => _ end = _ => destruct x
          end; try discriminate H; try (injection H as <-; reflexivity)).
Qed.

(** *** Codecs *)

Lemma length_header_encode h : length (header_encode h) = FRAME_HEADER_BYTES.
Proof. unfold header_encode, FRAME_HEADER_BYTES, MAGIC. len_solve. Qed.

(** The header is an array of exactly eight bytes, so its decoder is only a
    codec on lists of that length. *)
Definition header_decode_array (l : list Z) : result BootstrapCodecError FrameHeader :=
  if decide (length l = FRAME_HEADER_BYTES) then header_decode l
  else Err (InvalidPayloadLength (Z.of_nat FRAME_HEADER_BYTES) (len l)).

Lemma header_codec : Codec header_ok header_encode header_decode_array.
Proof.
  split.
  - intros [k n] Hn. unfold header_decode_array. rewrite decide_True by apply length_header_encode.
    unfold header_decode, header_encode; cbn [kind payload_len].
    unfold MAGIC. rewrite slice_here, decide_False by (done || tauto).
    rewrite !(slice_skip _ _ 4) by (done || lia). cbn [Nat.sub]. slice_solve.
    rewrite !(from_be_to_be_u 2 16) by (done || apply kind_code_u16).
    by rewrite kind_try_from_code.
  - intros l h Hl H. unfold header_decode_array in H. case_decide as Hlen; [|done].
    unfold header_decode in H. destruct (decide _) as [|Hm]; [done|].
    apply dec_stable in Hm. apply bind_Ok in H as (k & Hk & [= <-]).
    apply kind_try_from_Ok in Hk. unfold FRAME_HEADER_BYTES in Hlen. split.
    + apply from_be_slice_range; done || lia.
    + unfold header_encode; cbn [kind payload_len]. rewrite <- Hk, <- Hm.
      rewrite !to_be_slice by (done || lia).
      rewrite <- !slice_split, slice_all by (done || lia). done.
Qed.

Lemma client_hello_codec : Codec client_hello_ok client_hello_encode client_hello_decode.
Proof.
  split.
  - intros [ma mi b n] (Hma & Hmi & Hb & Hn). cbn in *.
    unfold client_hello_decode, client_hello_encode, CLIENT_HELLO_BYTES; cbn [ch_protocol_major
      ch_protocol_minor ch_client_build ch_client_nonce].
    rewrite decide_False by (intros C; apply C; len_solve). slice_solve.
    by rewrite !(from_be_to_be_u 2 16), (from_be_to_be_u 4 32).
  - intros l h Hl H. unfold client_hello_decode, CLIENT_HELLO_BYTES in H.
    destruct (decide _) as [|Hlen]; [done|]. apply dec_stable in Hlen. injection H as <-. split.
    + unfold client_hello_ok; cbn; split_goals; try (apply from_be_slice_range; done || lia).
      rewrite length_slice; lia.
    + unfold client_hello_encode; cbn. rewrite !to_be_slice by (done || lia).
      rewrite <- !slice_split, slice_all by (done || lia). done.
Qed.

Lemma server_hello_codec : Codec server_hello_ok server_hello_encode server_hello_decode.
Proof.
  split.
  - intros [ma mi acc rc ci si ui ce sn] (Hma & Hmi & Hc & Hs & Hu & Hce & Hsn). cbn in *.
    unfold server_hello_decode, server_hello_encode, SERVER_HELLO_BYTES; cbn [sh_protocol_major
      sh_protocol_minor sh_accepted sh_reject_code sh_connection_id sh_session_id sh_universe_id
      sh_client_nonce_echo sh_server_nonce].
    rewrite decide_False by (intros C; apply C; len_solve).
    rewrite (byte_at_slice _ 4 (if acc then 1 else 0)) by (by slice_solve).
    rewrite (byte_at_slice _ 5 (reject_code_byte rc)) by (by slice_solve).
    assert (decode_boolean (if acc then 1 else 0) = Ok acc) as -> by (by destruct acc).
    assert (reject_code_try_from (reject_code_byte rc) = Ok rc) as -> by (by destruct rc).
    cbn [mbind result_bind]. slice_solve.
    by rewrite !(from_be_to_be_u 2 16), !(from_be_to_be_u 8 64).
  - intros l h Hl H. unfold server_hello_decode, SERVER_HELLO_BYTES in H.
    destruct (decide _) as [|Hlen]; [done|]. apply dec_stable in Hlen.
    apply bind_Ok in H as (acc & Hacc & H). apply bind_Ok in H as (rc & Hrc & H).
    apply decode_boolean_Ok in Hacc. apply reject_code_try_from_Ok in Hrc. injection H as <-. split.
    + unfold server_hello_ok; cbn; split_goals;
        try (apply from_be_slice_range; done || lia); rewrite length_slice; lia.
    + unfold server_hello_encode; cbn [sh_protocol_major sh_protocol_minor sh_accepted sh_reject_code
        sh_connection_id sh_session_id sh_universe_id sh_client_nonce_echo sh_server_nonce].
      rewrite Hacc, Hrc, <- !slice_one by lia.
      rewrite !to_be_slice by (done || lia).
      rewrite <- !slice_split, slice_all by (done || lia). done.
Qed.

#[global] Existing Instances header_codec client_hello_codec server_hello_codec.

(** The handshake messages and the frame header round-trip: a message with
    fields in range decodes from its encoding, and every byte string a decoder
    accepts is exactly the encoding of the message it returns, so no two byte
    strings mean the same message. *)
Theorem bootstrap_roundtrip :
  Codec header_ok header_encode header_decode_array /\
  Codec client_hello_ok client_hello_encode client_hello_decode /\
  Codec server_hello_ok server_hello_encode server_hello_decode.
Proof. split_goals; apply _. Qed.

End Bootstrap.

(** ** Client intents ([intents.rs]) *)

Module Intents.

Definition MOVE_INTENT_BYTES : nat := 12.
Definition MOVE_AXIS_MIN : Z := -32767.
Definition MOVE_AXIS_MAX : Z := 32767.
Definition MINE_INTENT_BYTES : nat := 16.

Inductive IntentCodecError :=
| InvalidLength (expected actual : Z)
| AxisOutOfRange (name : string) (value : Z).

Record MoveIntent := { mv_sequence : Z; mv_axis_x : Z; mv_axis_y : Z }.

Definition validate_axis (name : string) (value : Z) : result IntentCodecError unit :=
  if decide (MOVE_AXIS_MIN <= value <= MOVE_AXIS_MAX) then Ok tt else Err (AxisOutOfRange name value).

Definition move_intent_new (sequence axis_x axis_y : Z) : result IntentCodecError MoveIntent :=
  _ ← validate_axis "axis_x" axis_x;
  _ ← validate_axis "axis_y" axis_y;
  Ok {| mv_sequence := sequence; mv_axis_x := axis_x; mv_axis_y := axis_y |}.

Definition move_intent_encode (m : MoveIntent) : list Z :=
  to_le 8 (mv_sequence m) ++ to_le 2 (mv_axis_x m) ++ to_le 2 (mv_axis_y m).

Definition move_intent_decode (bytes : list Z) : result IntentCodecError MoveIntent :=
  if decide (length bytes <> MOVE_INTENT_BYTES)
  then Err (InvalidLength (Z.of_nat MOVE_INTENT_BYTES) (len bytes))
  else
    let sequence := from_le (slice bytes 0 8) in
    let axis_x := wrap_i 16 (from_le (slice bytes 8 10)) in
    let axis_y := wrap_i 16 (from_le (slice bytes 10 12)) in
    move_intent_new sequence axis_x axis_y.

Record MineIntent := { mine_resource_id : Z; mine_sequence : Z }.

Definition mine_intent_encode (m : MineIntent) : list Z :=
  to_le 8 (mine_resource_id m) ++ to_le 8 (mine_sequence m).

Definition mine_intent_decode (bytes : list Z) : result IntentCodecError MineIntent :=
  if decide (length bytes <> MINE_INTENT_BYTES)
  then Err (InvalidLength (Z.of_nat MINE_INTENT_BYTES) (len bytes))
  else Ok {| mine_resource_id := from_le (slice bytes 0 8); mine_sequence := from_le (slice bytes 8 16) |}.

Definition move_intent_ok (m : MoveIntent) : Prop :=
  in_u 64 (mv_sequence m) /\
  MOVE_AXIS_MIN <= mv_axis_x m <= MOVE_AXIS_MAX /\ MOVE_AXIS_MIN <= mv_axis_y m <= MOVE_AXIS_MAX.

Definition mine_intent_ok (m : MineIntent) : Prop :=
  in_u 64 (mine_resource_id m) /\ in_u 64 (mine_sequence m).

Lemma validate_axis_Ok n v u : validate_axis n v = Ok u <-> MOVE_AXIS_MIN <= v <= MOVE_AXIS_MAX.
Proof. unfold validate_axis. destruct u. case_decide; naive_solver. Qed.

Lemma move_intent_new_Ok s x y m :
  move_intent_new s x y = Ok m <->
  m = {| mv_sequence := s; mv_axis_x := x; mv_axis_y := y |} /\
  MOVE_AXIS_MIN <= x <= MOVE_AXIS_MAX /\ MOVE_AXIS_MIN <= y <= MOVE_AXIS_MAX.
Proof.
  unfold move_intent_new. rewrite bind_Ok. setoid_rewrite bind_Ok.
  setoid_rewrite validate_axis_Ok. split.
  - intros (_ & ? & _ & ? & [= <-]). done.
  - intros (-> & ? & ?). by exists tt; split; [|exists tt].
Qed.

Lemma axis_in_i16 v : MOVE_AXIS_MIN <= v <= MOVE_AXIS_MAX -> in_i 16 v.
Proof. unfold MOVE_AXIS_MIN, MOVE_AXIS_MAX, in_i. lia. Qed.

Lemma move_intent_codec : Codec move_intent_ok move_intent_encode move_intent_decode.
Proof.
  split.
  - intros [s x y] (Hs & Hx & Hy). cbn in *.
    unfold move_intent_decode, move_intent_encode, MOVE_INTENT_BYTES; cbn [mv_sequence mv_axis_x mv_axis_y].
    rewrite decide_False by (intros C; apply C; len_solve). slice_solve.
    rewrite (from_le_to_le_u 8 64), !(from_le_to_le_i 2 16) by (done || lia || by apply axis_in_i16).
    by apply move_intent_new_Ok.
  - intros l m Hl H. unfold move_intent_decode, MOVE_INTENT_BYTES in H.
    destruct (decide _) as [|Hlen]; [done|]. apply dec_stable in Hlen.
    apply move_intent_new_Ok in H as (-> & Hx & Hy). split.
    + split; cbn [mv_sequence]; [apply from_le_slice_range; done || lia|done].
    + unfold move_intent_encode; cbn [mv_sequence mv_axis_x mv_axis_y].
      rewrite !to_le_wrap_i, !to_le_slice by (done || lia).
      rewrite <- !slice_split, slice_all by (done || lia). done.
Qed.

Lemma mine_intent_codec : Codec mine_intent_ok mine_intent_encode mine_intent_decode.
Proof.
  split.
  - intros [r s] (Hr & Hs). cbn in *.
    unfold mine_intent_decode, mine_intent_encode, MINE_INTENT_BYTES; cbn [mine_resource_id mine_sequence].
    rewrite decide_False by (intros C; apply C; len_solve). slice_solve.
    by rewrite !(from_le_to_le_u 8 64).
  - intros l m Hl H. unfold mine_intent_decode, MINE_INTENT_BYTES in H.
    destruct (decide _) as [|Hlen]; [done|]. apply dec_stable in Hlen. injection H as <-. split.
    + unfold mine_intent_ok; cbn; split_goals; apply from_le_slice_range; done || lia.
    + unfold mine_intent_encode; cbn. rewrite !to_le_slice by (done || lia).
      rewrite <- !slice_split, slice_all by (done || lia). done.
Qed.

#[global] Existing Instances move_intent_codec mine_intent_codec.

End Intents.

(** ** Frontier manifest acknowledgement ([frontier_ack.rs]) *)

Module Ack.

Definition FRONTIER_MANIFEST_ACK_BYTES : nat := 8.

Inductive FrontierManifestAckCodecError :=
| InvalidLength (expected actual : Z)
| ZeroRevision.

Record FrontierManifestAck := { ack_revision : Z }.

Definition ack_new (revision : Z) : result FrontierManifestAckCodecError FrontierManifestAck :=
  if decide (revision = 0) then Err ZeroRevision else Ok {| ack_revision := revision |}.

Definition ack_encode (a : FrontierManifestAck) : list Z := to_le 8 (ack_revision a).

Definition ack_decode (payload : list Z) : result FrontierManifestAckCodecError FrontierManifestAck :=
  if decide (length payload <> FRONTIER_MANIFEST_ACK_BYTES)
  then Err (InvalidLength (Z.of_nat FRONTIER_MANIFEST_ACK_BYTES) (len payload))
  else ack_new (from_le payload).

Definition ack_ok (a : FrontierManifestAck) : Prop := 0 < ack_revision a < 2 ^ 64.

Lemma ack_codec : Codec ack_ok ack_encode ack_decode.
Proof.
  split.
  - intros [r] Hr. unfold ack_ok in Hr; cbn in Hr.
    unfold ack_decode, ack_encode, FRONTIER_MANIFEST_ACK_BYTES; cbn [ack_revision].
    rewrite decide_False by (intros C; apply C; len_solve).
    rewrite (from_le_to_le_u 8 64) by (done || unfold in_u; lia).
    unfold ack_new. by rewrite decide_False by lia.
  - intros l a Hl H. unfold ack_decode, FRONTIER_MANIFEST_ACK_BYTES in H.
    destruct (decide _) as [|Hlen]; [done|]. apply dec_stable in Hlen.
    unfold ack_new in H. case_decide as Hz; [done|]. injection H as <-.
    pose proof (from_le_range l Hl) as Hr. rewrite Hlen in Hr. unfold in_u in Hr. split.
    + unfold ack_ok; cbn. change (8 * Z.of_nat 8) with 64 in Hr. lia.
    + unfold ack_encode; cbn [ack_revision]. rewrite <- Hlen. by apply to_le_from_le.
Qed.

#[global] Existing Instance ack_codec.

End Ack.

(** ** Movement prediction profile ([prediction.rs]) *)

Module Prediction.

Definition MOVEMENT_PREDICTION_PROFILE_BYTES : nat := 44.
Definition MOVEMENT_PREDICTION_PROFILE_VERSION : Z := 2.

Inductive PredictionProfileCodecError :=
| InvalidLength (expected actual : Z)
| UnsupportedVersion (received supported : Z)
| ZeroValue (field : string)
| InvalidCorrectionThresholds (absorb_max_mm smooth_max_mm hard_snap_threshold_mm : Z).

Record PresentationCorrectionProfile := {
  absorb_max_mm : Z;
  smooth_max_mm : Z;
  hard_snap_threshold_mm : Z;
  smooth_duration_ms : Z;
  rapid_duration_ms : Z
}.

Definition correction_validate (p : PresentationCorrectionProfile)
  : result PredictionProfileCodecError unit :=
  let thresholds :=
    InvalidCorrectionThresholds (absorb_max_mm p) (smooth_max_mm p) (hard_snap_threshold_mm p) in
  if decide (absorb_max_mm p >= smooth_max_mm p) then Err thresholds
  else if decide (smooth_max_mm p >= hard_snap_threshold_mm p) then Err thresholds
  else if decide (smooth_duration_ms p = 0) then Err (ZeroValue "smooth_duration_ms")
  else if decide (rapid_duration_ms p = 0) then Err (ZeroValue "rapid_duration_ms")
  else Ok tt.

Definition correction_new (absorb smooth hard smooth_ms rapid_ms : Z)
  : result PredictionProfileCodecError PresentationCorrectionProfile :=
  let profile := {| absorb_max_mm := absorb; smooth_max_mm := smooth; hard_snap_threshold_mm := hard;
                    smooth_duration_ms := smooth_ms; rapid_duration_ms := rapid_ms |} in
  _ ← correction_validate profile; Ok profile.

Record MovementPredictionProfile := {
  profile_version : Z;
  speed_mm_per_second : Z;
  simulation_tick_hz : Z;
  character_radius_mm : Z;
  movement_input_timeout_ticks : Z;
  presentation_correction : PresentationCorrectionProfile
}.

Definition profile_validate (p : MovementPredictionProfile)
  : result PredictionProfileCodecError unit :=
  if decide (profile_version p <> MOVEMENT_PREDICTION_PROFILE_VERSION)
  then Err (UnsupportedVersion (profile_version p) MOVEMENT_PREDICTION_PROFILE_VERSION)
  else if decide (speed_mm_per_second p = 0) then Err (ZeroValue "speed_mm_per_second")
  else if decide (simulation_tick_hz p = 0) then Err (ZeroValue "simulation_tick_hz")
  else if decide (character_radius_mm p = 0) then Err (ZeroValue "character_radius_mm")
  else if decide (movement_input_timeout_ticks p = 0)
  then Err (ZeroValue "movement_input_timeout_ticks")
  else correction_validate (presentation_correction p).

Definition profile_new (speed tick_hz radius timeout : Z) (c : PresentationCorrectionProfile)
  : result PredictionProfileCodecError MovementPredictionProfile :=
  let profile := {| profile_version := MOVEMENT_PREDICTION_PROFILE_VERSION;
                    speed_mm_per_second := speed; simulation_tick_hz := tick_hz;
                    character_radius_mm := radius; movement_input_timeout_ticks := timeout;
                    presentation_correction := c |} in
  _ ← profile_validate profile; Ok profile.

Definition profile_encode (p : MovementPredictionProfile) : list Z :=
  let c := presentation_correction p in
  to_le 4 (profile_version p) ++ to_le 4 (speed_mm_per_second p) ++ to_le 4 (simulation_tick_hz p) ++
  to_le 4 (character_radius_mm p) ++ to_le 8 (movement_input_timeout_ticks p) ++
  to_le 4 (absorb_max_mm c) ++ to_le 4 (smooth_max_mm c) ++ to_le 4 (hard_snap_threshold_mm c) ++
  to_le 4 (smooth_duration_ms c) ++ to_le 4 (rapid_duration_ms c).

(** The slices below have the length the conversion wants, so that it cannot
    fail, and lie within the payload, whose length is checked first. *)
Definition profile_decode_u32 (payload : list Z) (start : nat) : Z := from_le (slice payload start (start + 4)).
Definition profile_decode_u64 (payload : list Z) (start : nat) : Z := from_le (slice payload start (start + 8)).

Definition profile_decode (payload : list Z)
  : result PredictionProfileCodecError MovementPredictionProfile :=
  if decide (length payload <> MOVEMENT_PREDICTION_PROFILE_BYTES)
  then Err (InvalidLength (Z.of_nat MOVEMENT_PREDICTION_PROFILE_BYTES) (len payload))
  else
    let c := {| absorb_max_mm := profile_decode_u32 payload 24; smooth_max_mm := profile_decode_u32 payload 28;
                hard_snap_threshold_mm := profile_decode_u32 payload 32;
                smooth_duration_ms := profile_decode_u32 payload 36;
                rapid_duration_ms := profile_decode_u32 payload 40 |} in
    let profile := {| profile_version := profile_decode_u32 payload 0;
                      speed_mm_per_second := profile_decode_u32 payload 4;
                      simulation_tick_hz := profile_decode_u32 payload 8;
                      character_radius_mm := profile_decode_u32 payload 12;
                      movement_input_timeout_ticks := profile_decode_u64 payload 16;
                      presentation_correction := c |} in
    _ ← profile_validate profile; Ok profile.

Definition correction_fields_ok (c : PresentationCorrectionProfile) : Prop :=
  in_u 32 (absorb_max_mm c) /\ in_u 32 (smooth_max_mm c) /\ in_u 32 (hard_snap_threshold_mm c) /\
  in_u 32 (smooth_duration_ms c) /\ in_u 32 (rapid_duration_ms c).

Definition profile_fields_ok (p : MovementPredictionProfile) : Prop :=
  in_u 32 (profile_version p) /\ in_u 32 (speed_mm_per_second p) /\ in_u 32 (simulation_tick_hz p) /\
  in_u 32 (character_radius_mm p) /\ in_u 64 (movement_input_timeout_ticks p) /\
  correction_fields_ok (presentation_correction p).

Definition profile_ok (p : MovementPredictionProfile) : Prop :=
  profile_fields_ok p /\ profile_validate p = Ok tt.

Lemma profile_codec : Codec profile_ok profile_encode profile_decode.
Proof.
  split.
  - intros [v s t r to [a sm h sd rd]] [(Hv & Hs & Ht & Hr & Hto & Ha & Hsm & Hh & Hsd & Hrd) Hval].
    cbn in Hv, Hs, Ht, Hr, Hto, Ha, Hsm, Hh, Hsd, Hrd.
    unfold profile_decode, MOVEMENT_PREDICTION_PROFILE_BYTES, profile_decode_u32, profile_decode_u64, profile_encode;
      cbn [profile_version speed_mm_per_second simulation_tick_hz character_radius_mm
        movement_input_timeout_ticks presentation_correction absorb_max_mm smooth_max_mm
        hard_snap_threshold_mm smooth_duration_ms rapid_duration_ms Nat.add].
    rewrite decide_False by (intros C; apply C; len_solve). slice_solve.
    rewrite !(from_le_to_le_u 4 32), (from_le_to_le_u 8 64) by done.
    by rewrite Hval.
  - intros l p Hl H. unfold profile_decode, MOVEMENT_PREDICTION_PROFILE_BYTES in H.
    destruct (decide _) as [|Hlen]; [done|]. apply dec_stable in Hlen.
    apply bind_Ok in H as ([] & Hval & [= <-]). unfold profile_decode_u32, profile_decode_u64 in *. split.
    + split; [|done]. unfold profile_fields_ok, correction_fields_ok; cbn [profile_version
        speed_mm_per_second simulation_tick_hz character_radius_mm
        movement_input_timeout_ticks presentation_correction absorb_max_mm smooth_max_mm
        hard_snap_threshold_mm smooth_duration_ms rapid_duration_ms].
      split_goals; apply from_le_slice_range; done || lia.
    + unfold profile_encode; cbn [profile_version speed_mm_per_second simulation_tick_hz
        character_radius_mm movement_input_timeout_ticks presentation_correction absorb_max_mm
        smooth_max_mm hard_snap_threshold_mm smooth_duration_ms rapid_duration_ms Nat.add].
      rewrite !to_le_slice by (done || lia).
      rewrite <- !slice_split, slice_all by (done || lia). done.
Qed.

#[global] Existing Instance profile_codec.

(** What a validated profile guarantees. *)
Lemma profile_validate_Ok p :
  profile_validate p = Ok tt <->
  profile_version p = MOVEMENT_PREDICTION_PROFILE_VERSION /\
  speed_mm_per_second p <> 0 /\ simulation_tick_hz p <> 0 /\ character_radius_mm p <> 0 /\
  movement_input_timeout_ticks p <> 0 /\
  let c := presentation_correction p in
  absorb_max_mm c < smooth_max_mm c < hard_snap_threshold_mm c /\
  smooth_duration_ms c <> 0 /\ rapid_duration_ms c <> 0.
Proof.
  unfold profile_validate, correction_validate. cbn zeta.
  repeat (case_decide; [split; [done|lia]|]). split; [intros _|done].
  split_goals; (done || lia || by apply dec_stable).
Qed.

End Prediction.

(** ** Frontier manifest ([frontier.rs]) *)

Module Manifest.

Definition FRONTIER_MANIFEST_VERSION : Z := 1.
Definition FRONTIER_MANIFEST_HEADER_BYTES : Z := 26.
Definition FRONTIER_MANIFEST_QUADRANT_BYTES : Z := 16.
Definition U16_MAX : Z := u_max 16.

Record FrontierQuadrantCoord := mk_fqc { fx : Z; fy : Z }.

#[global] Instance FrontierQuadrantCoord_eq_dec : EqDecision FrontierQuadrantCoord.
Proof. solve_decision. Defined.

#[global] Instance FrontierQuadrantCoord_countable : Countable FrontierQuadrantCoord.
Proof.
  apply (inj_countable' (fun c => (fx c, fy c)) (fun '(x, y) => mk_fqc x y)). by intros [].
Defined.

Record FrontierManifest := {
  manifest_version : Z;
  generator_version : Z;
  quadrant_size_mm : Z;
  revision : Z;
  quadrants : list FrontierQuadrantCoord
}.

Inductive FrontierManifestCodecError :=
| PayloadTooShort (actual minimum : Z)
| InvalidLength (expected actual : Z)
| LengthOverflow
| UnsupportedVersion (received supported : Z)
| ZeroValue (field : string)
| InvalidQuadrantSize (value : Z)
| EmptyManifest
| TooManyQuadrants (actual maximum : Z)
| DuplicateQuadrant (x y : Z).

Abbreviation M := (result FrontierManifestCodecError).

(** The loop over a growing [BTreeSet] that stops at the first repetition. *)
Fixpoint check_unique (unique : gset FrontierQuadrantCoord) (l : list FrontierQuadrantCoord) : M unit :=
  match l with
  | [] => Ok tt
  | c :: l' =>
      if decide (c ∈ unique) then Err (DuplicateQuadrant (fx c) (fy c))
      else check_unique ({[ c ]} ∪ unique) l'
  end.

Definition validate (m : FrontierManifest) : M unit :=
  let n := Z.of_nat (length (quadrants m)) in
  if decide (manifest_version m <> FRONTIER_MANIFEST_VERSION)
  then Err (UnsupportedVersion (manifest_version m) FRONTIER_MANIFEST_VERSION)
  else if decide (generator_version m = 0) then Err (ZeroValue "generator_version")
  else if decide (quadrant_size_mm m <= 0) then Err (InvalidQuadrantSize (quadrant_size_mm m))
  else if decide (revision m = 0) then Err (ZeroValue "revision")
  else if decide (n = 0) then Err EmptyManifest
  else if decide (n > U16_MAX) then Err (TooManyQuadrants n U16_MAX)
  else check_unique ∅ (quadrants m).

Definition manifest_new (gen size rev : Z) (qs : list FrontierQuadrantCoord) : M FrontierManifest :=
  let manifest := {| manifest_version := FRONTIER_MANIFEST_VERSION; generator_version := gen;
                     quadrant_size_mm := size; revision := rev; quadrants := qs |} in
  _ ← validate manifest; Ok manifest.

(** [usize] is 64 bits wide. *)
Definition payload_len (quadrant_count : Z) : M Z :=
  ok_or LengthOverflow
    (bytes ← checked_u 64 (quadrant_count * FRONTIER_MANIFEST_QUADRANT_BYTES);
     checked_u 64 (FRONTIER_MANIFEST_HEADER_BYTES + bytes)).

Definition encode_quadrants (qs : list FrontierQuadrantCoord) : list Z :=
  concat (map (fun c => to_le 8 (fx c) ++ to_le 8 (fy c)) qs).

Definition encode (m : FrontierManifest) : M (list Z) :=
  _ ← validate m;
  let n := Z.of_nat (length (quadrants m)) in
  quadrant_count ← ok_or (TooManyQuadrants n U16_MAX) (checked_u 16 n);
  _ ← payload_len quadrant_count;
  Ok (to_le 4 (manifest_version m) ++ to_le 4 (generator_version m) ++
      to_le 8 (quadrant_size_mm m) ++ to_le 8 (revision m) ++ to_le 2 quadrant_count ++
      encode_quadrants (quadrants m)).

(** [payload.get(start..start + n)]: out of range is an error of its own. *)
Definition get_field (payload : list Z) (start n : nat) : M (list Z) :=
  if decide (start + n <= length payload)%nat then Ok (slice payload start (start + n))
  else Err (InvalidLength (Z.of_nat (start + n)) (len payload)).

Definition decode_u16 payload start : M Z := b ← get_field payload start 2; Ok (from_le b).
Definition decode_u32 payload start : M Z := b ← get_field payload start 4; Ok (from_le b).
Definition decode_u64 payload start : M Z := b ← get_field payload start 8; Ok (from_le b).
Definition decode_i64 payload start : M Z := b ← get_field payload start 8; Ok (wrap_i 64 (from_le b)).

Fixpoint decode_quadrants (payload : list Z) (count offset : nat) : M (list FrontierQuadrantCoord) :=
  match count with
  | O => Ok []
  | S count' =>
      x ← decode_i64 payload offset;
      y ← decode_i64 payload (offset + 8);
      rest ← decode_quadrants payload count' (offset + 16);
      Ok (mk_fqc x y :: rest)
  end.

Definition decode (payload : list Z) : M FrontierManifest :=
  if decide (len payload < FRONTIER_MANIFEST_HEADER_BYTES)
  then Err (PayloadTooShort (len payload) FRONTIER_MANIFEST_HEADER_BYTES)
  else
    quadrant_count ← decode_u16 payload 24;
    expected_len ← payload_len quadrant_count;
    if decide (len payload <> expected_len) then Err (InvalidLength expected_len (len payload))
    else
      quadrants ← decode_quadrants payload (Z.to_nat quadrant_count) 26;
      manifest_version ← decode_u32 payload 0;
      generator_version ← decode_u32 payload 4;
      quadrant_size_mm ← decode_i64 payload 8;
      revision ← decode_u64 payload 16;
      let manifest := {| manifest_version := manifest_version; generator_version := generator_version;
                         quadrant_size_mm := quadrant_size_mm; revision := revision;
                         quadrants := quadrants |} in
      _ ← validate manifest;
      Ok manifest.

Definition coord_fields_ok (c : FrontierQuadrantCoord) : Prop := in_i 64 (fx c) /\ in_i 64 (fy c).

Definition manifest_fields_ok (m : FrontierManifest) : Prop :=
  in_u 32 (manifest_version m) /\ in_u 32 (generator_version m) /\ in_i 64 (quadrant_size_mm m) /\
  in_u 64 (revision m) /\ Forall coord_fields_ok (quadrants m).

(** *** Facts about the validation *)

Lemma check_unique_Ok S l u :
  check_unique S l = Ok u <-> NoDup l /\ (forall c, c ∈ l -> c ∉ S).
Proof.
  destruct u. revert S. induction l as [|c l IH]; intros S; cbn.
  { split; [intros _; split; [constructor|set_solver]|done]. }
  case_decide as Hc.
  { split; [done|]. intros [_ H]. destruct (H c); [set_solver|done]. }
  rewrite IH, list.NoDup_cons. set_solver.
Qed.

Lemma validate_Ok m u :
  validate m = Ok u <->
  manifest_version m = FRONTIER_MANIFEST_VERSION /\ generator_version m <> 0 /\
  0 < quadrant_size_mm m /\ revision m <> 0 /\
  0 < Z.of_nat (length (quadrants m)) <= U16_MAX /\ NoDup (quadrants m).
Proof.
  unfold validate. cbn zeta.
  repeat (case_decide; [split; [done|lia]|]).
  rewrite check_unique_Ok. split; [|set_solver].
  intros [Hnd _]. split_goals; try (done || lia || by apply dec_stable).
Qed.

Lemma payload_len_u16 n : in_u 16 n -> payload_len n = Ok (26 + n * 16).
Proof.
  unfold in_u, payload_len, FRONTIER_MANIFEST_HEADER_BYTES, FRONTIER_MANIFEST_QUADRANT_BYTES.
  intros Hn. unfold checked_u. rewrite decide_True by (unfold in_u; lia). cbn [mbind option_bind].
  by rewrite decide_True by (unfold in_u; lia).
Qed.

Lemma length_encode_quadrants qs : length (encode_quadrants qs) = (16 * length qs)%nat.
Proof.
  unfold encode_quadrants. induction qs as [|c qs IH]; cbn [map concat length]; [lia|].
  rewrite !length_app, !length_to_le, IH. lia.
Qed.

Lemma get_field_app (a b c : list Z) n :
  length b = n -> get_field (a ++ b ++ c) (length a) n = Ok b.
Proof.
  intros Hn. unfold get_field. rewrite decide_True by (rewrite !length_app; lia).
  rewrite (slice_skip _ _ (length a)) by lia. rewrite Nat.sub_diag.
  replace (length a + n - length a)%nat with n by lia. by rewrite slice_here.
Qed.

Lemma decode_quadrants_encode qs : forall pre,
  Forall coord_fields_ok qs ->
  decode_quadrants (pre ++ encode_quadrants qs) (length qs) (length pre) = Ok qs.
Proof.
  induction qs as [|[x y] qs IH]; intros pre Hok; [done|].
  apply Forall_cons_1 in Hok as [[Hx Hy] Hok]. cbn [length decode_quadrants encode_quadrants map concat fx fy].
  change (concat (map _ qs)) with (encode_quadrants qs). cbn in Hx, Hy.
  rewrite <- !app_assoc. unfold decode_i64.
  rewrite get_field_app by len_solve. cbn [mbind result_bind].
  rewrite (from_le_to_le_i 8 64) by done.
  replace (length pre + 8)%nat with (length (pre ++ to_le 8 x)) by len_solve.
  rewrite (app_assoc pre), get_field_app by len_solve. cbn [mbind result_bind].
  rewrite (from_le_to_le_i 8 64) by done.
  replace (length pre + 16)%nat with (length ((pre ++ to_le 8 x) ++ to_le 8 y)) by len_solve.
  rewrite (app_assoc (pre ++ _)), IH by done. done.
Qed.

Lemma get_field_Ok payload start n b :
  get_field payload start n = Ok b <->
  (start + n <= length payload)%nat /\ b = slice payload start (start + n).
Proof. unfold get_field. case_decide; naive_solver. Qed.

Lemma decode_quadrants_Ok payload count : forall offset qs,
  are_bytes payload -> decode_quadrants payload count offset = Ok qs ->
  length qs = count /\ Forall coord_fields_ok qs /\
  encode_quadrants qs = slice payload offset (offset + 16 * count).
Proof.
  induction count as [|count IH]; intros offset qs Hb H; cbn [decode_quadrants] in H.
  { injection H as <-. split_goals; [done|constructor|]. unfold slice.
    by replace (offset + 16 * 0 - offset)%nat with 0%nat by lia. }
  unfold decode_i64 in H.
  apply bind_Ok in H as (x & Hx & H). apply bind_Ok in Hx as (bx & [Lx ->]%get_field_Ok & [= <-]).
  apply bind_Ok in H as (y & Hy & H). apply bind_Ok in Hy as (yb & [Ly ->]%get_field_Ok & [= <-]).
  apply bind_Ok in H as (rest & Hrest & [= <-]).
  destruct (IH _ _ Hb Hrest) as (Hlen & Hok & Henc). split_goals.
  - cbn. lia.
  - constructor; [|done]. split; cbn; apply wrap_i_range; lia.
  - cbn [encode_quadrants map concat fx fy]. change (concat (map _ rest)) with (encode_quadrants rest).
    rewrite Henc, !to_le_wrap_i, !to_le_slice by (done || lia).
    rewrite <- !slice_split by lia.
    replace (offset + 8 + 8)%nat with (offset + 16)%nat by lia.
    rewrite <- !slice_split by lia. f_equal. lia.
Qed.

(** *** The codec *)

Definition encode_body (m : FrontierManifest) : list Z :=
  to_le 4 (manifest_version m) ++ to_le 4 (generator_version m) ++
  to_le 8 (quadrant_size_mm m) ++ to_le 8 (revision m) ++
  to_le 2 (Z.of_nat (length (quadrants m))) ++ encode_quadrants (quadrants m).

Lemma count_u16 m : validate m = Ok tt -> in_u 16 (Z.of_nat (length (quadrants m))).
Proof.
  intros (_ & _ & _ & _ & Hn & _)%validate_Ok. unfold U16_MAX, u_max in Hn. unfold in_u. lia.
Qed.

Lemma encode_valid m : validate m = Ok tt -> encode m = Ok (encode_body m).
Proof.
  intros Hv. unfold encode. rewrite Hv. cbn [mbind result_bind]. pose proof (count_u16 m Hv) as Hn.
  unfold checked_u. rewrite decide_True by done. cbn [mbind result_bind ok_or].
  rewrite payload_len_u16 by done. done.
Qed.

Lemma encode_Ok m bs : encode m = Ok bs -> validate m = Ok tt /\ bs = encode_body m.
Proof.
  intros H. assert (validate m = Ok tt) as Hv.
  { unfold encode in H. apply bind_Ok in H as ([] & Hv & _). done. }
  split; [done|]. rewrite (encode_valid m Hv) in H. by injection H.
Qed.

Lemma length_encode_body m : length (encode_body m) = (26 + 16 * length (quadrants m))%nat.
Proof. unfold encode_body. rewrite !length_app, !length_to_le, length_encode_quadrants. lia. Qed.

Lemma get_field_body (l : list Z) i j n : 
  (j = i + n)%nat -> (j <= length l)%nat -> get_field l i n = Ok (slice l i j).
Proof. intros -> H. unfold get_field. by rewrite decide_True. Qed.

Lemma decode_encode_body m :
  manifest_fields_ok m -> validate m = Ok tt -> decode (encode_body m) = Ok m.
Proof.
  intros (Hv & Hg & Hs & Hr & Hq) Hval. pose proof (count_u16 m Hval) as Hn.
  pose proof (length_encode_body m) as Hlen. unfold decode, len.
  rewrite Hlen. unfold FRONTIER_MANIFEST_HEADER_BYTES.
  rewrite decide_False by lia. unfold decode_u16, decode_u32, decode_u64, decode_i64 at 1.
  rewrite (get_field_body _ 24 26), (get_field_body _ 0 4), (get_field_body _ 4 8),
    (get_field_body _ 8 16), (get_field_body _ 16 24) by lia.
  assert (slice (encode_body m) 24 26 = to_le 2 (Z.of_nat (length (quadrants m)))) as ->
    by (unfold encode_body; by slice_solve).
  assert (slice (encode_body m) 0 4 = to_le 4 (manifest_version m)) as ->
    by (unfold encode_body; by slice_solve).
  assert (slice (encode_body m) 4 8 = to_le 4 (generator_version m)) as ->
    by (unfold encode_body; by slice_solve).
  assert (slice (encode_body m) 8 16 = to_le 8 (quadrant_size_mm m)) as ->
    by (unfold encode_body; by slice_solve).
  assert (slice (encode_body m) 16 24 = to_le 8 (revision m)) as ->
    by (unfold encode_body; by slice_solve).
  cbn [mbind result_bind]. rewrite (from_le_to_le_u 2 16), payload_len_u16 by done.
  cbn [mbind result_bind]. rewrite decide_False by lia.
  rewrite !(from_le_to_le_u 4 32), (from_le_to_le_i 8 64), (from_le_to_le_u 8 64) by done.
  rewrite Nat2Z.id.
  assert (decode_quadrants (encode_body m) (length (quadrants m)) 26 = Ok (quadrants m)) as ->.
  { unfold encode_body. rewrite !app_assoc.
    match goal with |- decode_quadrants (?pre ++ _) _ _ = _ =>
      replace 26%nat with (length pre) by len_solve end.
    by apply decode_quadrants_encode. }
  cbn [mbind result_bind]. destruct m; cbn in *. by rewrite Hval.
Qed.

Lemma decode_Ok bs m :
  are_bytes bs -> decode bs = Ok m ->
  manifest_fields_ok m /\ validate m = Ok tt /\ bs = encode_body m.
Proof.
  intros Hb H. unfold decode, FRONTIER_MANIFEST_HEADER_BYTES, len in H. case_decide as Hshort; [done|].
  apply bind_Ok in H as (n & Hn & H). apply bind_Ok in Hn as (nb & [L1 ->]%get_field_Ok & [= <-]).
  assert (in_u 16 (from_le (slice bs 24 (24 + 2)))) as Hn16 by (apply from_le_slice_range; done || lia).
  rewrite payload_len_u16 in H by done. cbn [mbind result_bind] in H.
  destruct (decide _) as [|Hlen]; [done|]. apply dec_stable in Hlen.
  apply bind_Ok in H as (qs & Hqs & H). destruct (decode_quadrants_Ok _ _ _ _ Hb Hqs) as (Hlq & Hokq & Henc).
  apply bind_Ok in H as (v & Hv & H). apply bind_Ok in Hv as (vb & [L2 ->]%get_field_Ok & [= <-]).
  apply bind_Ok in H as (g & Hg & H). apply bind_Ok in Hg as (gb & [L3 ->]%get_field_Ok & [= <-]).
  apply bind_Ok in H as (s & Hs & H). apply bind_Ok in Hs as (sb & [L4 ->]%get_field_Ok & [= <-]).
  apply bind_Ok in H as (r & Hr & H). apply bind_Ok in Hr as (rb & [L5 ->]%get_field_Ok & [= <-]).
  apply bind_Ok in H as ([] & Hval & [= <-]). unfold in_u in Hn16.
  split_goals; [|done|].
  - unfold manifest_fields_ok; cbn. split_goals; [| | | |done];
      try (apply from_le_slice_range; done || lia). apply wrap_i_range; lia.
  - unfold encode_body; cbn [manifest_version generator_version quadrant_size_mm revision quadrants].
    rewrite Henc, Hlq, Z2Nat.id by lia.
    rewrite to_le_wrap_i, !to_le_slice by (done || lia). cbn [Nat.add].
    rewrite <- !slice_split by lia. symmetry. apply slice_all. lia.
Qed.

(** C32: the frontier manifest round-trips: a manifest that passes validation
    encodes to 26 + 16 n bytes that decode to it, encoding fails exactly with
    the validation error, and a payload is accepted only when it is the
    encoding of a valid manifest with distinct quadrants. *)
Theorem manifest_roundtrip :
  (forall m, manifest_fields_ok m -> validate m = Ok tt ->
     exists bs, encode m = Ok bs /\ len bs = 26 + 16 * Z.of_nat (length (quadrants m)) /\
                decode bs = Ok m) /\
  (forall m e, encode m = Err e <-> validate m = Err e) /\
  (forall bs m, are_bytes bs -> decode bs = Ok m ->
     manifest_fields_ok m /\ NoDup (quadrants m) /\ encode m = Ok bs).
Proof.
  split_goals.
  - intros m Hf Hv. exists (encode_body m). split_goals; [by apply encode_valid| |by apply decode_encode_body].
    unfold len. rewrite length_encode_body. lia.
  - intros m e. split.
    + intros H. destruct (validate m) as [[]|e'] eqn:Hv; [by rewrite (encode_valid m Hv) in H|].
      unfold encode in H. rewrite Hv in H. cbn in H. congruence.
    + intros H. unfold encode. by rewrite H.
  - intros bs m Hb H. destruct (decode_Ok bs m Hb H) as (Hf & Hv & ->).
    pose proof (encode_valid m Hv). apply validate_Ok in Hv as (_ & _ & _ & _ & _ & ?). done.
Qed.

End Manifest.

(** ** All fixed-size messages *)

(** Client intents, the manifest acknowledgement and the movement profile
    round-trip; in particular a decoded move intent never carries the axis
    value -32768 and a decoded profile satisfies the profile's validation. *)
Theorem fixed_messages_roundtrip :
  Codec Intents.move_intent_ok Intents.move_intent_encode Intents.move_intent_decode /\
  Codec Intents.mine_intent_ok Intents.mine_intent_encode Intents.mine_intent_decode /\
  Codec Ack.ack_ok Ack.ack_encode Ack.ack_decode /\
  Codec Prediction.profile_ok Prediction.profile_encode Prediction.profile_decode.
Proof. split_goals; apply _. Qed.
