(* ===== verification/Snapshots.v ===== *)
(** Movement snapshots ([crates/contracts/src/snapshots.rs] and
    [snapshots_v2.rs]): what the server tells a client about its own character.
    [SnapshotV1] is the first message, [SnapshotV2] its successor with two
    optional sequence numbers.  Neither decoder rejects every byte string that
    no encoder writes, so they are not instances of [Contracts.Codec]; the
    theorem says exactly which bytes are ignored, and what the first version
    loses. *)

From S2P Require Import Prelude Bytes Contracts.

(** ** [snapshots.rs] *)

Module SnapshotV1.

Definition SELF_MOVEMENT_SNAPSHOT_BYTES : nat := 34.

Record SelfMovementSnapshot := {
  server_tick : Z;
  x_mm : Z;
  y_mm : Z;
  z_mm : Z;
  sequence : option Z
}.

#[global] Instance SelfMovementSnapshot_eq_dec : EqDecision SelfMovementSnapshot.
Proof. solve_decision. Defined.

Inductive SnapshotCodecError :=
| PayloadTooShort (expected actual : Z)
| InvalidMarker (v : Z).

(** [bytes[32]] and [bytes[33]]; [(seq & 0xFF) as u8]. *)
Definition sequence_bytes (sequence : option Z) : list Z :=
  match sequence with
  | Some seq => [1; Z.land seq 255]
  | None => [0; 0]
  end.

Definition snapshot_encode (s : SelfMovementSnapshot) : list Z :=
  to_le 8 (server_tick s) ++ to_le 8 (x_mm s) ++ to_le 8 (y_mm s) ++ to_le 8 (z_mm s) ++
  sequence_bytes (sequence s).

Definition snapshot_decode (payload : list Z) : result SnapshotCodecError SelfMovementSnapshot :=
  if decide (len payload < Z.of_nat SELF_MOVEMENT_SNAPSHOT_BYTES)
  then Err (PayloadTooShort (Z.of_nat SELF_MOVEMENT_SNAPSHOT_BYTES) (len payload))
  else
    sequence ← match byte_at payload 32 with
               | 0 => Ok None
               | 1 => Ok (Some (byte_at payload 33))
               | marker => Err (InvalidMarker marker)
               end;
    Ok {|
      server_tick := from_le (slice payload 0 8);
      x_mm := wrap_i 64 (from_le (slice payload 8 16));
      y_mm := wrap_i 64 (from_le (slice payload 16 24));
      z_mm := wrap_i 64 (from_le (slice payload 24 32));
      sequence := sequence
    |}.

Definition snapshot_ok (s : SelfMovementSnapshot) : Prop :=
  in_u 64 (server_tick s) /\ in_i 64 (x_mm s) /\ in_i 64 (y_mm s) /\ in_i 64 (z_mm s) /\
  (forall q, sequence s = Some q -> in_u 64 q).

(** What is left of a snapshot after a round trip. *)
Definition truncated (s : SelfMovementSnapshot) : SelfMovementSnapshot := {|
  server_tick := server_tick s;
  x_mm := x_mm s;
  y_mm := y_mm s;
  z_mm := z_mm s;
  sequence := (fun q => q mod 256) <$> sequence s
|}.

Lemma length_sequence_bytes o : length (sequence_bytes o) = 2%nat.
Proof. by destruct o. Qed.

Lemma byte_at_skip (a b : list Z) i :
  (length a <= i)%nat -> byte_at (a ++ b) i = byte_at b (i - length a).
Proof. intros Hi. unfold byte_at. by rewrite lookup_app_r. Qed.

(** Trailing bytes are ignored. *)
Lemma decode_encode_extra s extra :
  snapshot_ok s -> snapshot_decode (snapshot_encode s ++ extra) = Ok (truncated s).
Proof.
  destruct s as [t x y z o]. intros (Ht & Hx & Hy & Hz & Ho); cbn in *.
  unfold snapshot_decode, snapshot_encode, SELF_MOVEMENT_SNAPSHOT_BYTES;
    cbn [server_tick x_mm y_mm z_mm sequence]. rewrite <- !app_assoc.
  rewrite decide_False by (unfold len; rewrite !length_app, !length_to_le, length_sequence_bytes; lia).
  rewrite !(byte_at_skip (to_le 8 _)) by (rewrite length_to_le; lia).
  rewrite !length_to_le; cbn [Nat.sub]. slice_solve.
  rewrite (from_le_to_le_u 8 64), !(from_le_to_le_i 8 64) by (done || lia).
  destruct o as [q|]; cbn; [|done]. change 255 with (Z.ones 8). by rewrite Z.land_ones by lia.
Qed.

Lemma truncated_fixed s :
  truncated s = s <-> forall q, sequence s = Some q -> 0 <= q < 256.
Proof.
  destruct s as [t x y z [q|]]; unfold truncated; cbn; split; intros H; [|f_equal|naive_solver|done].
  - intros q' [= <-]. assert (q mod 256 = q) as <- by congruence. apply Z.mod_pos_bound. lia.
  - f_equal. apply Z.mod_small. by apply H.
Qed.

End SnapshotV1.

(** ** [snapshots_v2.rs] *)

Module SnapshotV2.

Definition SELF_MOVEMENT_SNAPSHOT_V2_BYTES : nat := 50.

(** [MovementFlagsV2]. *)
Definition FLAGS_NONE : Z := 0.
Definition SPRINTING : Z := Z.shiftl 1 0.
Definition ACCELERATING : Z := Z.shiftl 1 1.
Definition flags_contains (flags other : Z) : bool := Z.land flags other =? other.

Record SelfMovementSnapshotV2 := {
  server_tick : Z;
  x_mm : Z;
  y_mm : Z;
  z_mm : Z;
  last_processed_input_sequence : option Z;
  active_movement_sequence : option Z
}.

Inductive SnapshotV2CodecError :=
| PayloadTooShort (expected actual : Z)
| InvalidMarker (v : Z).

(** The nine bytes written to the target. *)
Definition encode_optional_sequence (seq : option Z) : list Z :=
  match seq with
  | Some val => [1] ++ to_le 8 val
  | None => [0] ++ replicate 8 0
  end.

Definition decode_optional_sequence (source : list Z) : result SnapshotV2CodecError (option Z) :=
  if decide (source = []) then Ok None
  else
    match byte_at source 0 with
    | 0 => Ok None
    | 1 =>
        if decide (len source < 9) then Err (PayloadTooShort 9 (len source))
        else Ok (Some (from_le (slice source 1 9)))
    | marker => Err (InvalidMarker marker)
    end.

Definition encode_wire (s : SelfMovementSnapshotV2) : list Z :=
  to_le 8 (server_tick s) ++ to_le 8 (x_mm s) ++ to_le 8 (y_mm s) ++ to_le 8 (z_mm s) ++
  encode_optional_sequence (last_processed_input_sequence s) ++
  encode_optional_sequence (active_movement_sequence s).

Definition decode_wire (payload : list Z) : result SnapshotV2CodecError SelfMovementSnapshotV2 :=
  if decide (length payload <> SELF_MOVEMENT_SNAPSHOT_V2_BYTES)
  then Err (PayloadTooShort (Z.of_nat SELF_MOVEMENT_SNAPSHOT_V2_BYTES) (len payload))
  else
    last ← decode_optional_sequence (slice payload 32 41);
    active ← decode_optional_sequence (slice payload 41 50);
    Ok {|
      server_tick := from_le (slice payload 0 8);
      x_mm := wrap_i 64 (from_le (slice payload 8 16));
      y_mm := wrap_i 64 (from_le (slice payload 16 24));
      z_mm := wrap_i 64 (from_le (slice payload 24 32));
      last_processed_input_sequence := last;
      active_movement_sequence := active
    |}.

Definition sequence_ok (o : option Z) : Prop := forall q, o = Some q -> in_u 64 q.

Definition snapshot_v2_ok (s : SelfMovementSnapshotV2) : Prop :=
  in_u 64 (server_tick s) /\ in_i 64 (x_mm s) /\ in_i 64 (y_mm s) /\ in_i 64 (z_mm s) /\
  sequence_ok (last_processed_input_sequence s) /\ sequence_ok (active_movement_sequence s).

(** The decoder ignores the eight bytes after a zero marker; [canonical] is the
    payload with those bytes cleared. *)
Definition clear_absent (field : list Z) : list Z :=
  if byte_at field 0 =? 0 then replicate 9 0 else field.

Definition canonical (payload : list Z) : list Z :=
  slice payload 0 32 ++ clear_absent (slice payload 32 41) ++ clear_absent (slice payload 41 50).

(** *** Optional sequences *)

Lemma length_encode_optional o : length (encode_optional_sequence o) = 9%nat.
Proof. destruct o; cbn; [by rewrite length_to_le|done]. Qed.

Lemma decode_encode_optional o :
  sequence_ok o -> decode_optional_sequence (encode_optional_sequence o) = Ok o.
Proof.
  intros Ho. destruct o as [q|]; [|done].
  unfold decode_optional_sequence, encode_optional_sequence. rewrite decide_False by done.
  change (byte_at _ 0) with 1. cbv iota.
  rewrite decide_False by (unfold len; len_solve). slice_solve.
  by rewrite (from_le_to_le_u 8 64) by (done || by apply Ho).
Qed.

(** The decoder on the nine bytes it is given. *)
Lemma decode_optional_Ok field o :
  are_bytes field -> length field = 9%nat -> decode_optional_sequence field = Ok o ->
  sequence_ok o /\ encode_optional_sequence o = clear_absent field.
Proof.
  intros Hb Hl H. unfold decode_optional_sequence in H.
  destruct (decide (field = [])) as [->|_]; [done|]. unfold clear_absent.
  destruct (byte_at field 0) as [|[]|] eqn:Hm; try discriminate H; cbn [Z.eqb Pos.eqb].
  { injection H as <-. by split. }
  destruct (decide (len field < 9)); [done|]. injection H as <-. split.
  - intros q [= <-]. apply from_le_slice_range; done || lia.
  - unfold encode_optional_sequence. rewrite to_le_slice by (done || lia).
    rewrite <- Hm, <- slice_one, <- slice_split, slice_all by lia. done.
Qed.

Lemma decode_optional_is_ok field :
  length field = 9%nat ->
  is_ok (decode_optional_sequence field) = true <->
  byte_at field 0 = 0 \/ byte_at field 0 = 1.
Proof.
  intros Hl. unfold decode_optional_sequence.
  destruct (decide (field = [])) as [->|_]; [done|].
  destruct (byte_at field 0) as [|[]|] eqn:Hm; cbn; try (split; [done|lia]); [naive_solver|].
  rewrite decide_False by (unfold len; lia). cbn. naive_solver.
Qed.

Lemma byte_at_slice_0 (l : list Z) i j :
  (i < j)%nat -> (j <= length l)%nat -> byte_at (slice l i j) 0 = byte_at l i.
Proof.
  intros Hi Hj. unfold byte_at, slice. f_equal. rewrite lookup_take_lt, lookup_drop by lia.
  f_equal. lia.
Qed.

(** *** Whole messages *)

Lemma length_encode_wire x : length (encode_wire x) = 50%nat.
Proof. unfold encode_wire. rewrite !length_app, !length_to_le, !length_encode_optional. done. Qed.

Lemma decode_encode_wire s : snapshot_v2_ok s -> decode_wire (encode_wire s) = Ok s.
Proof.
  destruct s as [t x y z l a]. intros (Ht & Hx & Hy & Hz & Hl & Ha); cbn in *.
  unfold decode_wire, encode_wire, SELF_MOVEMENT_SNAPSHOT_V2_BYTES;
    cbn [server_tick x_mm y_mm z_mm last_processed_input_sequence active_movement_sequence].
  pose proof (length_encode_optional l) as El. pose proof (length_encode_optional a) as Ea.
  rewrite decide_False by (intros C; apply C; rewrite !length_app, !length_to_le; lia).
  slice_solve. rewrite (slice_skip (encode_optional_sequence l) _ 9) by (done || lia); cbn [Nat.sub].
  slice_solve. rewrite !decode_encode_optional by done. cbn [mbind result_bind].
  by rewrite (from_le_to_le_u 8 64), !(from_le_to_le_i 8 64) by (done || lia).
Qed.

Lemma decode_wire_Ok l s :
  are_bytes l -> decode_wire l = Ok s -> snapshot_v2_ok s /\ encode_wire s = canonical l.
Proof.
  intros Hb H. unfold decode_wire, SELF_MOVEMENT_SNAPSHOT_V2_BYTES in H.
  destruct (decide _) as [|Hlen]; [done|]. apply dec_stable in Hlen.
  apply bind_Ok in H as (o & Ho & H). apply bind_Ok in H as (a & Ha & [= <-]).
  apply decode_optional_Ok in Ho as [Ho Eo]; [|by apply slice_bytes|rewrite length_slice; lia].
  apply decode_optional_Ok in Ha as [Ha Ea]; [|by apply slice_bytes|rewrite length_slice; lia].
  split.
  - unfold snapshot_v2_ok; cbn. split_goals; try done;
      [apply from_le_slice_range; done || lia|apply wrap_i_range; lia..].
  - unfold encode_wire, canonical; cbn. rewrite Eo, Ea.
    rewrite !to_le_wrap_i, !to_le_slice by (done || lia).
    rewrite !app_assoc. do 2 f_equal. rewrite <- !slice_split by lia. done.
Qed.

Lemma decode_wire_is_ok l :
  is_ok (decode_wire l) = true <->
  length l = SELF_MOVEMENT_SNAPSHOT_V2_BYTES /\
  (byte_at l 32 = 0 \/ byte_at l 32 = 1) /\ (byte_at l 41 = 0 \/ byte_at l 41 = 1).
Proof.
  unfold decode_wire, SELF_MOVEMENT_SNAPSHOT_V2_BYTES.
  destruct (decide _) as [Hn|Hlen]; [split; [done|tauto]|]. apply dec_stable in Hlen.
  rewrite <- (byte_at_slice_0 l 32 41), <- (byte_at_slice_0 l 41 50) by lia.
  rewrite <- !decode_optional_is_ok by (rewrite length_slice; lia).
  destruct (decode_optional_sequence (slice l 32 41)), (decode_optional_sequence (slice l 41 50));
    (split; [intros [=]; by split_goals|by intros (_ & ? & ?)]).
Qed.

End SnapshotV2.

Import SnapshotV1 SnapshotV2.

(** C33: a snapshot of the second version decodes from its encoding; its decoder
    accepts exactly the strings of 50 bytes whose two markers are 0 or 1, and the
    message it returns is in range and encodes to the payload with the bytes
    after a zero marker cleared.  A snapshot of the first version, followed by
    any bytes, decodes to itself with its sequence number reduced modulo 256, so
    that the round trip is exact only for sequence numbers of one byte. *)
Theorem snapshots_roundtrip :
  (forall s, snapshot_v2_ok s -> decode_wire (encode_wire s) = Ok s) /\
  (forall l, is_ok (decode_wire l) = true <->
     length l = SELF_MOVEMENT_SNAPSHOT_V2_BYTES /\
     (byte_at l 32 = 0 \/ byte_at l 32 = 1) /\ (byte_at l 41 = 0 \/ byte_at l 41 = 1)) /\
  (forall l s, are_bytes l -> decode_wire l = Ok s ->
     snapshot_v2_ok s /\ encode_wire s = canonical l) /\
  (forall s extra, snapshot_ok s ->
     snapshot_decode (snapshot_encode s ++ extra) = Ok (truncated s) /\
     (truncated s = s <-> forall q, sequence s = Some q -> q < 256)).
Proof.
  split_goals; [exact decode_encode_wire|exact decode_wire_is_ok|exact decode_wire_Ok|].
  intros s extra Hs. split; [by apply decode_encode_extra|]. rewrite truncated_fixed.
  destruct Hs as (_ & _ & _ & _ & Hq). unfold in_u in Hq.
  split; intros H q Eq; specialize (H q Eq); specialize (Hq q Eq); lia.
Qed.

Lemma snapshots_roundtrip_witness :
  let v1 := {| SnapshotV1.server_tick := 9; SnapshotV1.x_mm := -5; SnapshotV1.y_mm := 7;
               SnapshotV1.z_mm := 0; sequence := Some 300 |} in
  let v2 := {| server_tick := 9; x_mm := -5; y_mm := 7; z_mm := 0;
               last_processed_input_sequence := Some 300; active_movement_sequence := None |} in
  decode_wire (encode_wire v2) = Ok v2 /\
  snapshot_decode (snapshot_encode v1 ++ [77]) = Ok (truncated v1) /\ sequence (truncated v1) = Some 44.
Proof.
  intros v1 v2. split_goals; [| |reflexivity].
  - apply (proj1 snapshots_roundtrip). unfold snapshot_v2_ok, sequence_ok, in_u, in_i; cbn.
    repeat split; try lia; intros; simplify_eq; lia.
  - apply snapshots_roundtrip. unfold snapshot_ok, in_u, in_i; cbn.
    repeat split; try lia; intros; simplify_eq; lia.
Defined.

(** [snapshots.rs] truncates the sequence number to its low byte. *)
Lemma snapshot_v1_loses_sequence :
  snapshot_decode (snapshot_encode {| SnapshotV1.server_tick := 1; SnapshotV1.x_mm := 0;
    SnapshotV1.y_mm := 0; SnapshotV1.z_mm := 0; sequence := Some 256 |}) =
  Ok {| SnapshotV1.server_tick := 1; SnapshotV1.x_mm := 0; SnapshotV1.y_mm := 0;
        SnapshotV1.z_mm := 0; sequence := Some 0 |}.
Proof. reflexivity. Qed.
