(* ===== verification/Wire.v ===== *)
(** Wire: what the codecs of variable-length messages share.  Bounds-checked
    field reads, the loop that decodes consecutive entries, and the interface
    of a message whose encoder and decoder both validate it. *)

From S2P Require Import Prelude Bytes Contracts.

(** The complement [!x] of an unsigned integer. *)
Definition not_u (w x : Z) : Z := Z.lxor (u_max w) x.

(** ** Field reads *)

Section Fields.
Context {E : Type} (invalid_length : Z -> Z -> E).

(** [payload.get(start..start + n)], or the error of an invalid length. *)
Definition get_bytes (payload : list Z) (start n : nat) : result E (list Z) :=
  if decide (start + n <= length payload)%nat then Ok (slice payload start (start + n))
  else Err (invalid_length (Z.of_nat (start + n)) (len payload)).

(** [uN::from_le_bytes] and [iN::from_le_bytes] of a field of [n] bytes. *)
Definition read_u (n : nat) (payload : list Z) (start : nat) : result E Z :=
  b ← get_bytes payload start n; Ok (from_le b).
Definition read_i (n : nat) (payload : list Z) (start : nat) : result E Z :=
  b ← get_bytes payload start n; Ok (wrap_i (8 * Z.of_nat n) (from_le b)).

Lemma get_bytes_Ok payload start n b :
  get_bytes payload start n = Ok b <->
  (start + n <= length payload)%nat /\ b = slice payload start (start + n).
Proof. unfold get_bytes. case_decide; naive_solver. Qed.

Lemma read_u_Ok n payload start v :
  read_u n payload start = Ok v <->
  (start + n <= length payload)%nat /\ v = from_le (slice payload start (start + n)).
Proof.
  unfold read_u. rewrite bind_Ok. setoid_rewrite get_bytes_Ok. naive_solver.
Qed.

Lemma read_i_Ok n payload start v :
  read_i n payload start = Ok v <->
  (start + n <= length payload)%nat /\
  v = wrap_i (8 * Z.of_nat n) (from_le (slice payload start (start + n))).
Proof.
  unfold read_i. rewrite bind_Ok. setoid_rewrite get_bytes_Ok. naive_solver.
Qed.

Lemma read_u_app n (a c : list Z) v i :
  length a = i -> in_u (8 * Z.of_nat n) v -> read_u n (a ++ to_le n v ++ c) i = Ok v.
Proof.
  intros Hi Hv. apply read_u_Ok. split; [len_solve|].
  rewrite (slice_skip _ _ i) by lia. rewrite Nat.sub_diag.
  replace (i + n - i)%nat with n by lia. rewrite slice_here by len_solve.
  by rewrite (from_le_to_le_u n (8 * Z.of_nat n)).
Qed.

Lemma read_i_app n (a c : list Z) v i :
  length a = i -> (0 < n)%nat -> in_i (8 * Z.of_nat n) v -> read_i n (a ++ to_le n v ++ c) i = Ok v.
Proof.
  intros Hi Hn Hv. apply read_i_Ok. split; [len_solve|].
  rewrite (slice_skip _ _ i) by lia. rewrite Nat.sub_diag.
  replace (i + n - i)%nat with n by lia. rewrite slice_here by len_solve.
  rewrite (from_le_to_le_i n (8 * Z.of_nat n)); done || lia.
Qed.

(** Reading back a field found at its offset. *)
Lemma read_u_slice n payload i v :
  (i + n <= length payload)%nat -> slice payload i (i + n) = to_le n v -> in_u (8 * Z.of_nat n) v ->
  read_u n payload i = Ok v.
Proof. intros Hi Es Hv. apply read_u_Ok. rewrite Es. by rewrite (from_le_to_le_u n (8 * Z.of_nat n)). Qed.

Lemma read_i_slice n payload i v :
  (0 < n)%nat -> (i + n <= length payload)%nat -> slice payload i (i + n) = to_le n v ->
  in_i (8 * Z.of_nat n) v -> read_i n payload i = Ok v.
Proof.
  intros Hn Hi Es Hv. apply read_i_Ok. rewrite Es.
  rewrite (from_le_to_le_i n (8 * Z.of_nat n)); done || lia.
Qed.

Lemma read_u_range n payload i v :
  are_bytes payload -> read_u n payload i = Ok v ->
  in_u (8 * Z.of_nat n) v /\ to_le n v = slice payload i (i + n).
Proof.
  intros Hb [Hi ->]%read_u_Ok. split; [apply from_le_slice_range; done || lia|].
  apply to_le_slice; done || lia.
Qed.

Lemma read_i_range n payload i v :
  are_bytes payload -> (0 < n)%nat -> read_i n payload i = Ok v ->
  in_i (8 * Z.of_nat n) v /\ to_le n v = slice payload i (i + n).
Proof.
  intros Hb Hn [Hi ->]%read_i_Ok. split; [apply wrap_i_range; lia|].
  rewrite to_le_wrap_i by lia. apply to_le_slice; done || lia.
Qed.

End Fields.

(** Peels one field read off a decoder that succeeded. *)
Ltac next_field H :=
  let F := fresh "F" in let v := fresh "v" in
  apply bind_Ok in H as (v & F & H);
  first [ apply read_u_range in F; [|assumption] | apply read_i_range in F; [|assumption|lia] ];
  destruct F.

(** ** Consecutive entries

    [for index in 0..count { entries.push(step(index, offset)?); offset += stride; }] *)

Fixpoint decode_entries {E A} (step : nat -> nat -> result E A) (stride : nat)
  (index count offset : nat) : result E (list A) :=
  match count with
  | O => Ok []
  | S count' =>
      a ← step index offset;
      rest ← decode_entries step stride (S index) count' (offset + stride);
      Ok (a :: rest)
  end.

Definition encode_entries {A} (enc : A -> list Z) (l : list A) : list Z := concat (map enc l).

Section Entries.
Context {E A : Type} (stride : nat) (enc : A -> list Z) (ok : A -> Prop)
  (step : list Z -> nat -> nat -> result E A).
Context (enc_length : forall a, length (enc a) = stride)
  (step_enc : forall pre a post i, ok a -> step (pre ++ enc a ++ post) i (length pre) = Ok a)
  (step_dec : forall l i offset a, are_bytes l -> (offset + stride <= length l)%nat ->
     step l i offset = Ok a -> ok a /\ enc a = slice l offset (offset + stride)).

Lemma length_encode_entries l : length (encode_entries enc l) = (stride * length l)%nat.
Proof.
  unfold encode_entries. induction l as [|a l IH]; cbn [map concat length]; [lia|].
  rewrite length_app, IH, enc_length. lia.
Qed.

Lemma decode_encode_entries l : forall pre post i,
  Forall ok l ->
  decode_entries (step (pre ++ encode_entries enc l ++ post)) stride i (length l) (length pre) = Ok l.
Proof.
  induction l as [|a l IH]; intros pre post i Hok; [done|].
  apply Forall_cons_1 in Hok as [Ha Hok]. cbn [length decode_entries].
  unfold encode_entries; cbn [map concat]. change (concat (map enc l)) with (encode_entries enc l).
  rewrite <- app_assoc, step_enc by done. cbn [mbind result_bind].
  replace (length pre + stride)%nat with (length (pre ++ enc a)) by (rewrite length_app, enc_length; lia).
  rewrite app_assoc, IH by done. done.
Qed.

Lemma decode_entries_Ok l count : forall i offset es,
  are_bytes l -> (offset + stride * count <= length l)%nat ->
  decode_entries (step l) stride i count offset = Ok es ->
  length es = count /\ Forall ok es /\
  encode_entries enc es = slice l offset (offset + stride * count).
Proof.
  induction count as [|count IH]; intros i offset es Hb Hoff H; cbn [decode_entries] in H.
  { injection H as <-. split_goals; [done|constructor|]. unfold slice.
    by replace (offset + stride * 0 - offset)%nat with 0%nat by lia. }
  rewrite Nat.mul_succ_r in *. pose proof (Nat.le_0_l (stride * count)).
  apply bind_Ok in H as (a & Ha & H). apply bind_Ok in H as (rest & Hrest & [= <-]).
  destruct (step_dec l i offset a Hb ltac:(lia) Ha) as (Hok & Henc).
  destruct (IH (S i) (offset + stride)%nat rest Hb ltac:(lia) Hrest) as (Hlen & Hoks & Hencs). split_goals.
  - cbn. lia.
  - by constructor.
  - unfold encode_entries; cbn [map concat]. change (concat (map enc rest)) with (encode_entries enc rest).
    rewrite Henc, Hencs, <- slice_split by lia. f_equal. lia.
Qed.

End Entries.

(** ** Validated messages

    [encode] fails exactly when [validate] does and else writes [body]; a
    message in range that is valid decodes from its body, and a byte string the
    decoder accepts is the body of a valid message. *)

Class ValidatedCodec {A V E D : Type} (fields_ok : A -> Prop) (validate : A -> result V unit)
  (body : A -> list Z) (encode : A -> result E (list Z)) (lift : V -> E)
  (decode : list Z -> result D A) : Prop := {
  encode_validated : forall a,
    encode a = match validate a with Ok _ => Ok (body a) | Err e => Err (lift e) end;
  decode_body : forall a, fields_ok a -> validate a = Ok tt -> decode (body a) = Ok a;
  decode_sound : forall l a, are_bytes l -> decode l = Ok a ->
    fields_ok a /\ validate a = Ok tt /\ body a = l
}.

Section ValidatedFacts.
Context {A V E D} {fields_ok : A -> Prop} {validate : A -> result V unit} {body encode} {lift : V -> E}
  {decode : list Z -> result D A} `{!ValidatedCodec fields_ok validate body encode lift decode}.

(** What a sender and a receiver rely on. *)
Lemma validated_roundtrip a bs : fields_ok a -> encode a = Ok bs -> decode bs = Ok a.
Proof.
  intros Hf H. rewrite encode_validated in H. destruct (validate a) as [[]|] eqn:Hv; [|done].
  injection H as <-. by apply decode_body.
Qed.

Lemma validated_canonical l a : are_bytes l -> decode l = Ok a -> encode a = Ok l.
Proof.
  intros Hl H. destruct (decode_sound l a Hl H) as (_ & Hv & <-). by rewrite encode_validated, Hv.
Qed.

End ValidatedFacts.
