(* ===== verification/Presentation.v ===== *)
(** Contracts of the public quadrant data ([crates/contracts/src]): the terrain
    authority ([terrain_authority.rs], module [Terrain]), the environment policy
    ([environment_presentation.rs], [Environment]) and the water surface
    ([water_surface_presentation.rs], [Water]), with their validation and wire
    formats.  Each is an instance of [Wire.ValidatedCodec]. *)

From S2P Require Import Prelude Bytes Contracts Wire.
Import Manifest.

(** [for (index, value) in list.iter().enumerate() { check(index, value)?; }] *)
Fixpoint check_each {E A} (check : Z -> A -> result E unit) (index : Z) (l : list A) : result E unit :=
  match l with
  | [] => Ok tt
  | a :: l' => _ ← check index a; check_each check (index + 1) l'
  end.

Lemma check_each_Ok {E A} (check : Z -> A -> result E unit) (P : A -> Prop) l : forall i,
  (forall i a, check i a = Ok tt <-> P a) -> check_each check i l = Ok tt <-> Forall P l.
Proof.
  induction l as [|a l IH]; intros i H; cbn; [by split|].
  rewrite list.Forall_cons, <- (H i a), <- (IH (i + 1) H).
  destruct (check i a) as [[]|]; cbn; naive_solver.
Qed.

(** [list.len()]. *)
Definition count {A} (l : list A) : Z := Z.of_nat (length l).

(** [has flags F] is [flags & F != 0]. *)
Definition has (flags mask : Z) : bool := negb (Z.land flags mask =? 0).

(** ** Terrain authority *)

Module Terrain.

Definition TERRAIN_AUTHORITY_CONTRACT_VERSION : Z := 1.
Definition TERRAIN_CONTROL_GRID_MIN_SIDE : Z := 2.
Definition TERRAIN_CONTROL_GRID_MAX_SIDE : Z := 65.
Definition TERRAIN_AUTHORITY_HEADER_BYTES : nat := 45.

Definition TERRAIN_CELL_WALKABLE : Z := Z.shiftl 1 0.
Definition TERRAIN_CELL_BUILDABLE : Z := Z.shiftl 1 1.
Definition TERRAIN_CELL_WATER : Z := Z.shiftl 1 2.
Definition TERRAIN_CELL_BLOCKED : Z := Z.shiftl 1 3.
Definition TERRAIN_CELL_CONNECTOR_CORRIDOR : Z := Z.shiftl 1 4.
Definition TERRAIN_CELL_KNOWN_MASK : Z :=
  Z.lor (Z.lor (Z.lor (Z.lor TERRAIN_CELL_WALKABLE TERRAIN_CELL_BUILDABLE) TERRAIN_CELL_WATER)
    TERRAIN_CELL_BLOCKED) TERRAIN_CELL_CONNECTOR_CORRIDOR.

Record TerrainAuthorityContractV1 := {
  version : Z;
  quadrant_coord : FrontierQuadrantCoord;
  quadrant_size_mm : Z;
  generator_version : Z;
  recipe_seed : Z;
  control_grid_side : Z;
  biome_id : Z;
  elevation_samples_mm : list Z;
  cell_flags : list Z
}.

Inductive TerrainAuthorityContractError :=
| UnsupportedVersion (v : Z)
| InvalidQuadrantSize (v : Z)
| InvalidGeneratorVersion
| InvalidControlGridSide (v : Z)
| ElevationSampleCount (expected actual : Z)
| CellFlagCount (expected actual : Z)
| UnknownCellFlags (index flags : Z)
| ContradictoryCellFlags (index flags : Z)
| InvalidBuildableCell (index flags : Z).

Inductive TerrainAuthorityWireCodecError :=
| InvalidContract (e : TerrainAuthorityContractError)
| PayloadTooShort (actual minimum : Z)
| InvalidLength (expected actual : Z).

Definition expected_elevation_sample_count (c : TerrainAuthorityContractV1) : Z :=
  control_grid_side c * control_grid_side c.

Definition expected_cell_count (c : TerrainAuthorityContractV1) : Z :=
  let side := saturating_sub_u (control_grid_side c) 1 in
  side * side.

Definition check_cell_flags (index flags : Z) : result TerrainAuthorityContractError unit :=
  if has flags (not_u 8 TERRAIN_CELL_KNOWN_MASK) then Err (UnknownCellFlags index flags)
  else
    let walkable := has flags TERRAIN_CELL_WALKABLE in
    let buildable := has flags TERRAIN_CELL_BUILDABLE in
    let water := has flags TERRAIN_CELL_WATER in
    let blocked := has flags TERRAIN_CELL_BLOCKED in
    if walkable && blocked then Err (ContradictoryCellFlags index flags)
    else if buildable && (negb walkable || blocked || water) then Err (InvalidBuildableCell index flags)
    else Ok tt.

Definition terrain_validate (c : TerrainAuthorityContractV1) : result TerrainAuthorityContractError unit :=
  if decide (version c <> TERRAIN_AUTHORITY_CONTRACT_VERSION) then Err (UnsupportedVersion (version c))
  else if decide (quadrant_size_mm c <= 0) then Err (InvalidQuadrantSize (quadrant_size_mm c))
  else if decide (generator_version c = 0) then Err InvalidGeneratorVersion
  else if decide (~ (TERRAIN_CONTROL_GRID_MIN_SIDE <= control_grid_side c <= TERRAIN_CONTROL_GRID_MAX_SIDE))
  then Err (InvalidControlGridSide (control_grid_side c))
  else if decide (len (elevation_samples_mm c) <> expected_elevation_sample_count c)
  then Err (ElevationSampleCount (expected_elevation_sample_count c) (len (elevation_samples_mm c)))
  else if decide (len (cell_flags c) <> expected_cell_count c)
  then Err (CellFlagCount (expected_cell_count c) (len (cell_flags c)))
  else check_each check_cell_flags 0 (cell_flags c).

(** The bytes written after validation; the counts are written [as u16]. *)
Definition terrain_body (c : TerrainAuthorityContractV1) : list Z :=
  to_le 2 (version c) ++ to_le 8 (fx (quadrant_coord c)) ++ to_le 8 (fy (quadrant_coord c)) ++
  to_le 8 (quadrant_size_mm c) ++ to_le 4 (generator_version c) ++ to_le 8 (recipe_seed c) ++
  to_le 2 (control_grid_side c) ++
  to_le 2 (wrap_u 16 (len (elevation_samples_mm c))) ++ to_le 2 (wrap_u 16 (len (cell_flags c))) ++
  [biome_id c] ++ encode_entries (to_le 4) (elevation_samples_mm c) ++ cell_flags c.

Definition terrain_encode_wire (c : TerrainAuthorityContractV1)
  : result TerrainAuthorityContractError (list Z) :=
  _ ← terrain_validate c; Ok (terrain_body c).

(** [i32::from_le_bytes(payload[offset..offset + 4])], inside the checked length. *)
Definition read_sample (payload : list Z) (index offset : nat)
  : result TerrainAuthorityWireCodecError Z :=
  Ok (wrap_i 32 (from_le (slice payload offset (offset + 4)))).

Definition terrain_decode_wire (payload : list Z)
  : result TerrainAuthorityWireCodecError TerrainAuthorityContractV1 :=
  if decide (len payload < Z.of_nat TERRAIN_AUTHORITY_HEADER_BYTES)
  then Err (PayloadTooShort (len payload) (Z.of_nat TERRAIN_AUTHORITY_HEADER_BYTES))
  else
    let sample_count := from_le (slice payload 40 42) in
    let cell_count := from_le (slice payload 42 44) in
    let expected_total := Z.of_nat TERRAIN_AUTHORITY_HEADER_BYTES + sample_count * 4 + cell_count in
    if decide (len payload <> expected_total) then Err (InvalidLength expected_total (len payload))
    else
      samples ← decode_entries (read_sample payload) 4 0 (Z.to_nat sample_count)
                  TERRAIN_AUTHORITY_HEADER_BYTES;
      let offset := (TERRAIN_AUTHORITY_HEADER_BYTES + 4 * Z.to_nat sample_count)%nat in
      let contract := {|
        version := from_le (slice payload 0 2);
        quadrant_coord := mk_fqc (wrap_i 64 (from_le (slice payload 2 10)))
                                 (wrap_i 64 (from_le (slice payload 10 18)));
        quadrant_size_mm := wrap_i 64 (from_le (slice payload 18 26));
        generator_version := from_le (slice payload 26 30);
        recipe_seed := from_le (slice payload 30 38);
        control_grid_side := from_le (slice payload 38 40);
        biome_id := byte_at payload 44;
        elevation_samples_mm := samples;
        cell_flags := slice payload offset (offset + Z.to_nat cell_count)
      |} in
      _ ← map_err InvalidContract (terrain_validate contract);
      Ok contract.

(** *** Ranges and validity *)

Definition terrain_fields_ok (c : TerrainAuthorityContractV1) : Prop :=
  in_u 16 (version c) /\ coord_fields_ok (quadrant_coord c) /\ in_i 64 (quadrant_size_mm c) /\
  in_u 32 (generator_version c) /\ in_u 64 (recipe_seed c) /\ in_u 16 (control_grid_side c) /\
  is_byte (biome_id c) /\ Forall (in_i 32) (elevation_samples_mm c) /\ are_bytes (cell_flags c).

(** The flag combinations a cell may have. *)
Definition cell_ok (f : Z) : Prop := check_cell_flags 0 f = Ok tt.

#[global] Instance cell_ok_dec f : Decision (cell_ok f).
Proof. unfold cell_ok. destruct (check_cell_flags 0 f) as [[]|]; [left|right]; done. Defined.

Lemma check_cell_flags_Ok i f : check_cell_flags i f = Ok tt <-> cell_ok f.
Proof.
  unfold cell_ok, check_cell_flags.
  destruct (has f (not_u 8 TERRAIN_CELL_KNOWN_MASK)); [done|].
  destruct (has f TERRAIN_CELL_WALKABLE && has f TERRAIN_CELL_BLOCKED); [done|].
  by destruct (has f TERRAIN_CELL_BUILDABLE && _).
Qed.

Lemma terrain_validate_Ok c :
  terrain_validate c = Ok tt <->
  version c = 1 /\ 0 < quadrant_size_mm c /\ generator_version c <> 0 /\
  2 <= control_grid_side c <= 65 /\
  len (elevation_samples_mm c) = control_grid_side c * control_grid_side c /\
  len (cell_flags c) = (control_grid_side c - 1) * (control_grid_side c - 1) /\
  Forall cell_ok (cell_flags c).
Proof.
  unfold terrain_validate, expected_elevation_sample_count, expected_cell_count,
    TERRAIN_AUTHORITY_CONTRACT_VERSION, TERRAIN_CONTROL_GRID_MIN_SIDE, TERRAIN_CONTROL_GRID_MAX_SIDE.
  repeat (case_decide; [split; [done|unfold saturating_sub_u in *; intuition lia]|]).
  rewrite (check_each_Ok _ cell_ok) by apply check_cell_flags_Ok.
  unfold saturating_sub_u in *. split; [|tauto]. intros Hf. split_goals; done || lia.
Qed.

(** *** The codec *)

Lemma counts_fit c :
  terrain_validate c = Ok tt -> in_u 16 (len (elevation_samples_mm c)) /\ in_u 16 (len (cell_flags c)).
Proof. intros (_ & _ & _ & Hs & -> & -> & _)%terrain_validate_Ok. unfold in_u. nia. Qed.

Lemma length_terrain_body c :
  length (terrain_body c) =
  (45 + 4 * length (elevation_samples_mm c) + length (cell_flags c))%nat.
Proof.
  unfold terrain_body. rewrite !length_app, !length_to_le.
  rewrite (length_encode_entries 4) by (intros; apply length_to_le). cbn [length]. lia.
Qed.

Lemma read_sample_enc pre x post i :
  in_i 32 x -> read_sample (pre ++ to_le 4 x ++ post) i (length pre) = Ok x.
Proof.
  intros Hx. unfold read_sample. rewrite (slice_skip _ _ (length pre)) by lia.
  rewrite Nat.sub_diag. replace (length pre + 4 - length pre)%nat with 4%nat by lia.
  rewrite slice_here, (from_le_to_le_i 4 32) by (done || len_solve). done.
Qed.

Lemma decode_terrain_body c :
  terrain_fields_ok c -> terrain_validate c = Ok tt -> terrain_decode_wire (terrain_body c) = Ok c.
Proof.
  intros (Hv & [Hx Hy] & Hs & Hg & Hr & Hc & Hb & He & Hf) Hval.
  destruct (counts_fit c Hval) as [Hn Hm].
  assert (len (terrain_body c) = 45 + len (elevation_samples_mm c) * 4 + len (cell_flags c)) as Hlen
    by (unfold len; rewrite length_terrain_body; lia).
  unfold terrain_decode_wire, TERRAIN_AUTHORITY_HEADER_BYTES. rewrite Hlen.
  rewrite decide_False by (unfold len; lia).
  assert (forall i j n v, slice (terrain_body c) i j = to_le n v -> in_u (8 * Z.of_nat n) v ->
    from_le (slice (terrain_body c) i j) = v) as RU.
  { intros i j n v -> Hin. by apply (from_le_to_le_u n (8 * Z.of_nat n)). }
  assert (forall i j v, slice (terrain_body c) i j = to_le 8 v -> in_i 64 v ->
    wrap_i 64 (from_le (slice (terrain_body c) i j)) = v) as RI.
  { intros i j v -> Hin. by apply (from_le_to_le_i 8 64). }
  rewrite (RU 40%nat 42%nat 2%nat (len (elevation_samples_mm c)))
    by (done || unfold terrain_body; rewrite !wrap_u_small by done; by slice_solve).
  rewrite (RU 42%nat 44%nat 2%nat (len (cell_flags c)))
    by (done || unfold terrain_body; rewrite !wrap_u_small by done; by slice_solve).
  rewrite decide_False by tauto. unfold len. rewrite !Nat2Z.id.
  assert (decode_entries (read_sample (terrain_body c)) 4 0 (length (elevation_samples_mm c)) 45 =
    Ok (elevation_samples_mm c)) as ->.
  { unfold terrain_body. rewrite !app_assoc. rewrite <- (app_assoc _ (encode_entries _ _)).
    match goal with |- decode_entries (read_sample (?pre ++ _)) _ _ _ _ = _ =>
      replace 45%nat with (length pre) by len_solve end.
    apply (decode_encode_entries 4 (to_le 4) (in_i 32)); [intros; apply length_to_le| |done].
    intros. by apply read_sample_enc. }
  cbn [mbind result_bind].
  assert (byte_at (terrain_body c) 44 = biome_id c) as ->
    by (apply byte_at_slice; unfold terrain_body; by slice_solve).
  rewrite (RU 0%nat 2%nat 2%nat (version c)), (RU 26%nat 30%nat 4%nat (generator_version c)),
    (RU 30%nat 38%nat 8%nat (recipe_seed c)), (RU 38%nat 40%nat 2%nat (control_grid_side c))
    by (done || unfold terrain_body; by slice_solve).
  rewrite (RI 2%nat 10%nat (fx (quadrant_coord c))), (RI 10%nat 18%nat (fy (quadrant_coord c))),
    (RI 18%nat 26%nat (quadrant_size_mm c)) by (done || unfold terrain_body; by slice_solve).
  assert (slice (terrain_body c) (45 + 4 * length (elevation_samples_mm c))
            (45 + 4 * length (elevation_samples_mm c) + length (cell_flags c)) = cell_flags c) as ->.
  { unfold terrain_body. rewrite !app_assoc.
    assert (forall a b : list Z, slice (a ++ b) (length a) (length a + length b) = b) as Htail.
    { intros a b. rewrite (slice_skip _ _ (length a)) by lia. rewrite Nat.sub_diag.
      apply slice_all. lia. }
    match goal with |- slice (?pre ++ ?f) ?i ?j = _ => replace i with (length pre); [apply Htail|] end.
    rewrite !length_app, !length_to_le.
    rewrite (length_encode_entries 4) by (intros; apply length_to_le). cbn [length]. lia. }
  destruct c as [? [] ? ? ? ? ? ? ?]; cbn in *. by rewrite Hval.
Qed.

Lemma terrain_decode_sound bs c :
  are_bytes bs -> terrain_decode_wire bs = Ok c ->
  terrain_fields_ok c /\ terrain_validate c = Ok tt /\ terrain_body c = bs.
Proof.
  intros Hb H. unfold terrain_decode_wire, TERRAIN_AUTHORITY_HEADER_BYTES in H.
  case_decide as Hshort; [done|]. destruct (decide _) as [|Hlen]; [done|]. apply dec_stable in Hlen.
  unfold len in Hshort, Hlen.
  assert (in_u 16 (from_le (slice bs 40 42))) as Hn by (apply from_le_slice_range; done || lia).
  assert (in_u 16 (from_le (slice bs 42 44))) as Hm by (apply from_le_slice_range; done || lia).
  set (n := from_le (slice bs 40 42)) in *. set (m := from_le (slice bs 42 44)) in *.
  unfold in_u in Hn, Hm. apply bind_Ok in H as (samples & Hs & H).
  apply (decode_entries_Ok 4 (to_le 4) (in_i 32)) in Hs as (Ln & Hs & Es); [|..|done|lia].
  2: { intros l i o a Hl Hle [= <-]. split; [apply wrap_i_range; lia|].
       rewrite to_le_wrap_i, to_le_slice by (done || lia). done. }
  remember (45 + 4 * Z.to_nat n)%nat as off eqn:Eoff. remember (off + Z.to_nat m)%nat as last eqn:El.
  apply bind_Ok in H as ([] & Hval & [= <-]). apply map_err_Ok in Hval.
  destruct (counts_fit _ Hval) as [Hcn Hcm]; cbn in Hcn, Hcm. split_goals; [|done|].
  - unfold terrain_fields_ok; cbn [version quadrant_coord quadrant_size_mm generator_version recipe_seed
      control_grid_side biome_id elevation_samples_mm cell_flags].
    split_goals; try (apply from_le_slice_range; done || lia); try (apply wrap_i_range; lia); try done.
    + split; cbn; apply wrap_i_range; lia.
    + destruct (lookup_lt_is_Some_2 bs 44 ltac:(lia)) as [b E]. unfold byte_at. rewrite E.
      by apply (Forall_lookup_1 _ _ _ _ Hb E).
    + by apply slice_bytes.
  - unfold terrain_body; cbn [version quadrant_coord quadrant_size_mm generator_version recipe_seed
      control_grid_side biome_id elevation_samples_mm cell_flags fx fy].
    rewrite Es, !wrap_u_small by done. unfold len.
    rewrite Ln, length_slice, El, Nat.add_sub', !Z2Nat.id by lia. subst n m.
    rewrite <- slice_one, !to_le_wrap_i, !to_le_slice by (done || lia).
    rewrite <- !slice_split by lia. apply slice_all. lia.
Qed.

Lemma terrain_codec :
  ValidatedCodec terrain_fields_ok terrain_validate terrain_body terrain_encode_wire id terrain_decode_wire.
Proof.
  split; [|exact decode_terrain_body|exact terrain_decode_sound].
  intros c. unfold terrain_encode_wire. by destruct (terrain_validate c) as [[]|].
Qed.

End Terrain.

(** ** Environment presentation policy *)

Module Environment.

Definition ENVIRONMENT_PRESENTATION_POLICY_VERSION : Z := 1.
Definition ENVIRONMENT_PRESENTATION_WIRE_HEADER_BYTES : nat := 38.

Definition ENVIRONMENT_FAMILY_GROUND_COVER : Z := Z.shiftl 1 0.
Definition ENVIRONMENT_FAMILY_SMALL_PLANT : Z := Z.shiftl 1 1.
Definition ENVIRONMENT_FAMILY_SHRUB : Z := Z.shiftl 1 2.
Definition ENVIRONMENT_FAMILY_TREE : Z := Z.shiftl 1 3.
Definition ENVIRONMENT_FAMILY_ROCK : Z := Z.shiftl 1 4.
Definition ENVIRONMENT_FAMILY_KNOWN_MASK : Z :=
  Z.lor (Z.lor (Z.lor (Z.lor ENVIRONMENT_FAMILY_GROUND_COVER ENVIRONMENT_FAMILY_SMALL_PLANT)
    ENVIRONMENT_FAMILY_SHRUB) ENVIRONMENT_FAMILY_TREE) ENVIRONMENT_FAMILY_ROCK.

Record EnvironmentPresentationPolicyV1 := {
  policy_version : Z;
  policy_quadrant_coord : FrontierQuadrantCoord;
  terrain_generator_version : Z;
  policy_generator_version : Z;
  policy_seed : Z;
  policy_control_grid_side : Z;
  cell_family_masks : list Z
}.

Inductive EnvironmentPresentationPolicyError :=
| UnsupportedVersion (v : Z)
| InvalidTerrainGeneratorVersion
| InvalidPolicyGeneratorVersion
| InvalidControlGridSide (v : Z)
| CellFamilyMaskCount (expected actual : Z)
| UnknownFamilyBits (index mask : Z).

Inductive EnvironmentPresentationWireCodecError :=
| InvalidPolicy (e : EnvironmentPresentationPolicyError)
| PayloadTooShort (actual minimum : Z)
| InvalidLength (expected actual : Z)
| LengthOverflow
| CountOverflow (field : string) (actual : Z).

Abbreviation M := (result EnvironmentPresentationWireCodecError).

Definition environment_expected_cell_count (p : EnvironmentPresentationPolicyV1) : Z :=
  let side := saturating_sub_u (policy_control_grid_side p) 1 in
  side * side.

Definition check_family_mask (index mask : Z) : result EnvironmentPresentationPolicyError unit :=
  if has mask (not_u 16 ENVIRONMENT_FAMILY_KNOWN_MASK) then Err (UnknownFamilyBits index mask) else Ok tt.

Definition environment_validate (p : EnvironmentPresentationPolicyV1)
  : result EnvironmentPresentationPolicyError unit :=
  if decide (policy_version p <> ENVIRONMENT_PRESENTATION_POLICY_VERSION)
  then Err (UnsupportedVersion (policy_version p))
  else if decide (terrain_generator_version p = 0) then Err InvalidTerrainGeneratorVersion
  else if decide (policy_generator_version p = 0) then Err InvalidPolicyGeneratorVersion
  else if decide (~ (Terrain.TERRAIN_CONTROL_GRID_MIN_SIDE <= policy_control_grid_side p
                     <= Terrain.TERRAIN_CONTROL_GRID_MAX_SIDE))
  then Err (InvalidControlGridSide (policy_control_grid_side p))
  else if decide (len (cell_family_masks p) <> environment_expected_cell_count p)
  then Err (CellFamilyMaskCount (environment_expected_cell_count p) (len (cell_family_masks p)))
  else check_each check_family_mask 0 (cell_family_masks p).

Definition environment_wire_payload_len (cell_count : Z) : M Z :=
  ok_or LengthOverflow
    (mask_bytes ← checked_u 64 (cell_count * 2);
     checked_u 64 (Z.of_nat ENVIRONMENT_PRESENTATION_WIRE_HEADER_BYTES + mask_bytes)).

Definition environment_encode_wire (p : EnvironmentPresentationPolicyV1) : M (list Z) :=
  _ ← map_err InvalidPolicy (environment_validate p);
  cell_count ← ok_or (CountOverflow "cell_family_masks" (len (cell_family_masks p)))
                 (checked_u 16 (len (cell_family_masks p)));
  _ ← environment_wire_payload_len cell_count;
  Ok (to_le 2 (policy_version p) ++ to_le 8 (fx (policy_quadrant_coord p)) ++
      to_le 8 (fy (policy_quadrant_coord p)) ++ to_le 4 (terrain_generator_version p) ++
      to_le 4 (policy_generator_version p) ++ to_le 8 (policy_seed p) ++
      to_le 2 (policy_control_grid_side p) ++ to_le 2 cell_count ++
      encode_entries (to_le 2) (cell_family_masks p)).

Definition environment_decode_wire (payload : list Z) : M EnvironmentPresentationPolicyV1 :=
  if decide (len payload < Z.of_nat ENVIRONMENT_PRESENTATION_WIRE_HEADER_BYTES)
  then Err (PayloadTooShort (len payload) (Z.of_nat ENVIRONMENT_PRESENTATION_WIRE_HEADER_BYTES))
  else
    cell_count ← read_u InvalidLength 2 payload 36;
    expected_len ← environment_wire_payload_len cell_count;
    if decide (len payload <> expected_len) then Err (InvalidLength expected_len (len payload))
    else
      masks ← decode_entries (fun _ offset => read_u InvalidLength 2 payload offset) 2 0
                (Z.to_nat cell_count) ENVIRONMENT_PRESENTATION_WIRE_HEADER_BYTES;
      version ← read_u InvalidLength 2 payload 0;
      x ← read_i InvalidLength 8 payload 2;
      y ← read_i InvalidLength 8 payload 10;
      terrain_version ← read_u InvalidLength 4 payload 18;
      policy_version' ← read_u InvalidLength 4 payload 22;
      seed ← read_u InvalidLength 8 payload 26;
      side ← read_u InvalidLength 2 payload 34;
      let policy := {| policy_version := version; policy_quadrant_coord := mk_fqc x y;
                       terrain_generator_version := terrain_version;
                       policy_generator_version := policy_version'; policy_seed := seed;
                       policy_control_grid_side := side; cell_family_masks := masks |} in
      _ ← map_err InvalidPolicy (environment_validate policy);
      Ok policy.

(** *** Ranges and validity *)

Definition environment_fields_ok (p : EnvironmentPresentationPolicyV1) : Prop :=
  in_u 16 (policy_version p) /\ coord_fields_ok (policy_quadrant_coord p) /\
  in_u 32 (terrain_generator_version p) /\ in_u 32 (policy_generator_version p) /\
  in_u 64 (policy_seed p) /\ in_u 16 (policy_control_grid_side p) /\
  Forall (in_u 16) (cell_family_masks p).

Definition mask_ok (mask : Z) : Prop := has mask (not_u 16 ENVIRONMENT_FAMILY_KNOWN_MASK) = false.

Lemma environment_validate_Ok p :
  environment_validate p = Ok tt <->
  policy_version p = 1 /\ terrain_generator_version p <> 0 /\ policy_generator_version p <> 0 /\
  2 <= policy_control_grid_side p <= 65 /\
  len (cell_family_masks p) = (policy_control_grid_side p - 1) * (policy_control_grid_side p - 1) /\
  Forall mask_ok (cell_family_masks p).
Proof.
  unfold environment_validate, environment_expected_cell_count, ENVIRONMENT_PRESENTATION_POLICY_VERSION,
    Terrain.TERRAIN_CONTROL_GRID_MIN_SIDE, Terrain.TERRAIN_CONTROL_GRID_MAX_SIDE.
  repeat (case_decide; [split; [done|unfold saturating_sub_u in *; intuition lia]|]).
  rewrite (check_each_Ok _ mask_ok).
  2: { intros i m. unfold check_family_mask, mask_ok. by destruct (has m _). }
  unfold saturating_sub_u in *. split; [|tauto]. intros Hf. split_goals; done || lia.
Qed.

Lemma masks_fit p : environment_validate p = Ok tt -> in_u 16 (len (cell_family_masks p)).
Proof. intros (_ & _ & _ & Hs & -> & _)%environment_validate_Ok. unfold in_u. nia. Qed.

Definition environment_body (p : EnvironmentPresentationPolicyV1) : list Z :=
  to_le 2 (policy_version p) ++ to_le 8 (fx (policy_quadrant_coord p)) ++
  to_le 8 (fy (policy_quadrant_coord p)) ++ to_le 4 (terrain_generator_version p) ++
  to_le 4 (policy_generator_version p) ++ to_le 8 (policy_seed p) ++
  to_le 2 (policy_control_grid_side p) ++ to_le 2 (len (cell_family_masks p)) ++
  encode_entries (to_le 2) (cell_family_masks p).

Lemma environment_payload_len n : in_u 16 n -> environment_wire_payload_len n = Ok (38 + n * 2).
Proof.
  unfold in_u, environment_wire_payload_len, ENVIRONMENT_PRESENTATION_WIRE_HEADER_BYTES.
  intros Hn. unfold checked_u. rewrite decide_True by (unfold in_u; lia). cbn [mbind option_bind].
  by rewrite decide_True by (unfold in_u; lia).
Qed.

Lemma environment_encode_spec p :
  environment_encode_wire p =
  match environment_validate p with Ok _ => Ok (environment_body p) | Err e => Err (InvalidPolicy e) end.
Proof.
  unfold environment_encode_wire. destruct (environment_validate p) as [[]|] eqn:Hv; [|done].
  pose proof (masks_fit p Hv) as Hn. cbn [map_err mbind result_bind].
  unfold checked_u. rewrite decide_True by done. cbn [mbind result_bind ok_or].
  by rewrite environment_payload_len by done.
Qed.

Lemma mask_entries :
  (forall x, length (to_le 2 x) = 2%nat) /\
  (forall pre x post i, in_u 16 x ->
     (fun (l : list Z) (_ offset : nat) => read_u InvalidLength 2 l offset)
       (pre ++ to_le 2 x ++ post) i (length pre) = Ok x) /\
  (forall l (i offset : nat) x, are_bytes l -> (offset + 2 <= length l)%nat ->
     read_u InvalidLength 2 l offset = Ok x -> in_u 16 x /\ to_le 2 x = slice l offset (offset + 2)).
Proof.
  split_goals; [intros; apply length_to_le| |].
  - intros. by apply read_u_app.
  - intros l _ o x Hl Hle Hx. by apply (read_u_range _ 2) in Hx.
Qed.

Lemma decode_environment_body p :
  environment_fields_ok p -> environment_validate p = Ok tt ->
  environment_decode_wire (environment_body p) = Ok p.
Proof.
  intros (Hv & [Hx Hy] & Ht & Hg & Hs & Hc & Hm) Hval. pose proof (masks_fit p Hval) as Hn.
  assert (length (environment_body p) = 38 + 2 * length (cell_family_masks p))%nat as Hlen.
  { unfold environment_body. rewrite !length_app, !length_to_le.
    rewrite (length_encode_entries 2) by apply mask_entries. lia. }
  unfold environment_decode_wire, ENVIRONMENT_PRESENTATION_WIRE_HEADER_BYTES.
  rewrite decide_False by (unfold len; lia).
  rewrite (read_u_slice _ 2 _ 36 (len (cell_family_masks p)))%nat
    by (done || lia || unfold environment_body; cbn [Nat.add]; by slice_solve).
  cbn [mbind result_bind]. rewrite environment_payload_len by done. cbn [mbind result_bind].
  rewrite decide_False by (unfold len; lia). unfold len. rewrite Nat2Z.id.
  assert (decode_entries (fun _ o => read_u InvalidLength 2 (environment_body p) o) 2 0
    (length (cell_family_masks p)) 38 = Ok (cell_family_masks p)) as ->.
  { unfold environment_body. rewrite !app_assoc.
    match goal with |- decode_entries (fun _ o => read_u _ _ (?pre ++ _) o) _ _ _ _ = _ =>
      replace 38%nat with (length pre) by len_solve end.
    pose proof (decode_encode_entries 2 (to_le 2) (in_u 16) (fun l _ o => read_u InvalidLength 2 l o)
      (proj1 mask_entries) (proj1 (proj2 mask_entries)) (cell_family_masks p)) as D.
    match goal with |- decode_entries (fun _ o => read_u _ _ (?pre ++ _) o) _ _ _ _ = _ =>
      specialize (D pre [] 0%nat Hm) end.
    rewrite app_nil_r in D. exact D. }
  cbn [mbind result_bind].
  rewrite (read_u_slice _ 2 _ 0 (policy_version p))%nat, (read_u_slice _ 4 _ 18 (terrain_generator_version p))%nat,
    (read_u_slice _ 4 _ 22 (policy_generator_version p))%nat, (read_u_slice _ 8 _ 26 (policy_seed p))%nat,
    (read_u_slice _ 2 _ 34 (policy_control_grid_side p))%nat, (read_i_slice _ 8 _ 2 (fx (policy_quadrant_coord p)))%nat,
    (read_i_slice _ 8 _ 10 (fy (policy_quadrant_coord p)))%nat
    by (done || lia || unfold environment_body; cbn [Nat.add]; by slice_solve).
  cbn [mbind result_bind]. destruct p as [? [] ? ? ? ? ?]; cbn in *. by rewrite Hval.
Qed.

Lemma environment_decode_sound bs p :
  are_bytes bs -> environment_decode_wire bs = Ok p ->
  environment_fields_ok p /\ environment_validate p = Ok tt /\ environment_body p = bs.
Proof.
  intros Hb H. unfold environment_decode_wire, ENVIRONMENT_PRESENTATION_WIRE_HEADER_BYTES in H.
  case_decide as Hshort; [done|].
  apply bind_Ok in H as (n & [Hn En]%read_u_range & H); [|done].
  rewrite environment_payload_len in H by done. cbn [mbind result_bind] in H.
  destruct (decide _) as [|Hlen]; [done|]. apply dec_stable in Hlen.
  unfold len in Hshort, Hlen. change (8 * Z.of_nat 2) with 16 in Hn. unfold in_u in Hn.
  apply bind_Ok in H as (masks & Hm & H).
  apply (decode_entries_Ok 2 (to_le 2) (in_u 16) (fun l _ o => read_u InvalidLength 2 l o)) in Hm
    as (Lm & Hm & Em); [|apply mask_entries|done|lia].
  do 7 next_field H.
  apply bind_Ok in H as ([] & Hval & [= <-]). apply map_err_Ok in Hval.
  split_goals; [|done|].
  - unfold environment_fields_ok; cbn. by split_goals.
  - unfold environment_body; cbn [policy_version policy_quadrant_coord fx fy terrain_generator_version
      policy_generator_version policy_seed policy_control_grid_side cell_family_masks].
    unfold len. rewrite Lm, Z2Nat.id by lia. rewrite Em, En.
    repeat match goal with E : to_le _ ?v = slice bs _ _ |- context [to_le _ ?v] => rewrite E end.
    rewrite <- !slice_split by lia. apply slice_all. lia.
Qed.

Lemma environment_codec :
  ValidatedCodec environment_fields_ok environment_validate environment_body
    environment_encode_wire InvalidPolicy environment_decode_wire.
Proof. split; [exact environment_encode_spec|exact decode_environment_body|exact environment_decode_sound]. Qed.

End Environment.

(** ** Water surface presentation *)

Module Water.

Definition WATER_SURFACE_PRESENTATION_VERSION : Z := 1.
Definition WATER_SURFACE_PRESENTATION_WIRE_HEADER_BYTES : nat := 30.
Definition WATER_SURFACE_PRESENTATION_SAMPLE_BYTES : nat := 8.

Inductive WaterSurfaceKindV1 := WDry | WLake | WRiver.

#[global] Instance WaterSurfaceKindV1_eq_dec : EqDecision WaterSurfaceKindV1.
Proof. solve_decision. Defined.

(** [kind as u8] and its inverse. *)
Definition water_kind_byte (k : WaterSurfaceKindV1) : Z :=
  match k with WDry => 0 | WLake => 1 | WRiver => 2 end.
Definition water_kind_try_from (value : Z) : result Z WaterSurfaceKindV1 :=
  match value with 0 => Ok WDry | 1 => Ok WLake | 2 => Ok WRiver | _ => Err value end.

Record WaterSurfaceSampleV1 := {
  sample_kind : WaterSurfaceKindV1;
  sample_flow_hint_x : Z;
  sample_flow_hint_y : Z;
  sample_surface_mm : Z
}.

#[global] Instance WaterSurfaceSampleV1_eq_dec : EqDecision WaterSurfaceSampleV1.
Proof. solve_decision. Defined.

Definition sample_dry : WaterSurfaceSampleV1 :=
  {| sample_kind := WDry; sample_flow_hint_x := 0; sample_flow_hint_y := 0; sample_surface_mm := 0 |}.
Definition sample_lake (surface_mm : Z) : WaterSurfaceSampleV1 :=
  {| sample_kind := WLake; sample_flow_hint_x := 0; sample_flow_hint_y := 0; sample_surface_mm := surface_mm |}.
Definition sample_river (surface_mm flow_x flow_y : Z) : WaterSurfaceSampleV1 :=
  {| sample_kind := WRiver; sample_flow_hint_x := flow_x; sample_flow_hint_y := flow_y;
     sample_surface_mm := surface_mm |}.
Definition is_wet (s : WaterSurfaceSampleV1) : bool :=
  match sample_kind s with WDry => false | _ => true end.

Record WaterSurfacePresentationV1 := {
  water_version : Z;
  water_quadrant_coord : FrontierQuadrantCoord;
  water_terrain_generator_version : Z;
  hydrology_generator_version : Z;
  water_control_grid_side : Z;
  samples : list WaterSurfaceSampleV1
}.

Inductive WaterSurfacePresentationError :=
| UnsupportedVersion (v : Z)
| InvalidTerrainGeneratorVersion
| InvalidHydrologyGeneratorVersion
| InvalidControlGridSide (v : Z)
| SampleCount (expected actual : Z)
| NonCanonicalDrySample (index : Z)
| LakeHasFlow (index : Z).

Inductive WaterSurfacePresentationWireCodecError :=
| InvalidPresentation (e : WaterSurfacePresentationError)
| PayloadTooShort (actual minimum : Z)
| InvalidLength (expected actual : Z)
| LengthOverflow
| CountOverflow (field : string) (actual : Z)
| UnknownSampleKind (index value : Z)
| NonZeroReservedByte (index value : Z).

Abbreviation M := (result WaterSurfacePresentationWireCodecError).

Definition expected_sample_count (p : WaterSurfacePresentationV1) : Z :=
  let side := water_control_grid_side p in side * side.

Definition check_sample (index : Z) (s : WaterSurfaceSampleV1) : result WaterSurfacePresentationError unit :=
  match sample_kind s with
  | WDry =>
      if decide (sample_surface_mm s <> 0 \/ sample_flow_hint_x s <> 0 \/ sample_flow_hint_y s <> 0)
      then Err (NonCanonicalDrySample index) else Ok tt
  | WLake =>
      if decide (sample_flow_hint_x s <> 0 \/ sample_flow_hint_y s <> 0)
      then Err (LakeHasFlow index) else Ok tt
  | WRiver => Ok tt
  end.

Definition water_validate (p : WaterSurfacePresentationV1) : result WaterSurfacePresentationError unit :=
  if decide (water_version p <> WATER_SURFACE_PRESENTATION_VERSION)
  then Err (UnsupportedVersion (water_version p))
  else if decide (water_terrain_generator_version p = 0) then Err InvalidTerrainGeneratorVersion
  else if decide (hydrology_generator_version p = 0) then Err InvalidHydrologyGeneratorVersion
  else if decide (~ (Terrain.TERRAIN_CONTROL_GRID_MIN_SIDE <= water_control_grid_side p
                     <= Terrain.TERRAIN_CONTROL_GRID_MAX_SIDE))
  then Err (InvalidControlGridSide (water_control_grid_side p))
  else if decide (count (samples p) <> expected_sample_count p)
  then Err (SampleCount (expected_sample_count p) (count (samples p)))
  else check_each check_sample 0 (samples p).

Definition water_wire_payload_len (sample_count : Z) : M Z :=
  ok_or LengthOverflow
    (sample_bytes ← checked_u 64 (sample_count * Z.of_nat WATER_SURFACE_PRESENTATION_SAMPLE_BYTES);
     checked_u 64 (Z.of_nat WATER_SURFACE_PRESENTATION_WIRE_HEADER_BYTES + sample_bytes)).

(** The hints are written [as u8]. *)
Definition encode_sample (s : WaterSurfaceSampleV1) : list Z :=
  [water_kind_byte (sample_kind s); wrap_u 8 (sample_flow_hint_x s); wrap_u 8 (sample_flow_hint_y s); 0] ++
  to_le 4 (sample_surface_mm s).

Definition water_encode_wire (p : WaterSurfacePresentationV1) : M (list Z) :=
  _ ← map_err InvalidPresentation (water_validate p);
  sample_count ← ok_or (CountOverflow "samples" (count (samples p))) (checked_u 16 (count (samples p)));
  _ ← water_wire_payload_len sample_count;
  Ok (to_le 2 (water_version p) ++ to_le 8 (fx (water_quadrant_coord p)) ++
      to_le 8 (fy (water_quadrant_coord p)) ++ to_le 4 (water_terrain_generator_version p) ++
      to_le 4 (hydrology_generator_version p) ++ to_le 2 (water_control_grid_side p) ++
      to_le 2 sample_count ++ encode_entries encode_sample (samples p)).

(** [payload.get(start).copied()]. *)
Definition decode_u8 (payload : list Z) (start : nat) : M Z :=
  ok_or (InvalidLength (Z.of_nat (start + 1)) (len payload)) (payload !! start).

Definition decode_sample (payload : list Z) (index offset : nat) : M WaterSurfaceSampleV1 :=
  kind_raw ← decode_u8 payload offset;
  kind ← map_err (UnknownSampleKind (Z.of_nat index)) (water_kind_try_from kind_raw);
  flow_x ← decode_u8 payload (offset + 1);
  flow_y ← decode_u8 payload (offset + 2);
  reserved ← decode_u8 payload (offset + 3);
  if decide (reserved <> 0) then Err (NonZeroReservedByte (Z.of_nat index) reserved)
  else
    surface ← read_i InvalidLength 4 payload (offset + 4);
    Ok {| sample_kind := kind; sample_flow_hint_x := wrap_i 8 flow_x;
          sample_flow_hint_y := wrap_i 8 flow_y; sample_surface_mm := surface |}.

Definition water_decode_wire (payload : list Z) : M WaterSurfacePresentationV1 :=
  if decide (len payload < Z.of_nat WATER_SURFACE_PRESENTATION_WIRE_HEADER_BYTES)
  then Err (PayloadTooShort (len payload) (Z.of_nat WATER_SURFACE_PRESENTATION_WIRE_HEADER_BYTES))
  else
    sample_count ← read_u InvalidLength 2 payload 28;
    expected_len ← water_wire_payload_len sample_count;
    if decide (len payload <> expected_len) then Err (InvalidLength expected_len (len payload))
    else
      samples ← decode_entries (decode_sample payload) WATER_SURFACE_PRESENTATION_SAMPLE_BYTES 0
                  (Z.to_nat sample_count) WATER_SURFACE_PRESENTATION_WIRE_HEADER_BYTES;
      version ← read_u InvalidLength 2 payload 0;
      x ← read_i InvalidLength 8 payload 2;
      y ← read_i InvalidLength 8 payload 10;
      terrain_version ← read_u InvalidLength 4 payload 18;
      hydrology_version ← read_u InvalidLength 4 payload 22;
      side ← read_u InvalidLength 2 payload 26;
      let presentation := {| water_version := version; water_quadrant_coord := mk_fqc x y;
                             water_terrain_generator_version := terrain_version;
                             hydrology_generator_version := hydrology_version;
                             water_control_grid_side := side; samples := samples |} in
      _ ← map_err InvalidPresentation (water_validate presentation);
      Ok presentation.

(** *** Ranges and validity *)

Definition sample_fields_ok (s : WaterSurfaceSampleV1) : Prop :=
  in_i 8 (sample_flow_hint_x s) /\ in_i 8 (sample_flow_hint_y s) /\ in_i 32 (sample_surface_mm s).

Definition water_fields_ok (p : WaterSurfacePresentationV1) : Prop :=
  in_u 16 (water_version p) /\ coord_fields_ok (water_quadrant_coord p) /\
  in_u 32 (water_terrain_generator_version p) /\ in_u 32 (hydrology_generator_version p) /\
  in_u 16 (water_control_grid_side p) /\ Forall sample_fields_ok (samples p).

(** Dry samples are all zero and lakes do not flow. *)
Definition sample_canonical (s : WaterSurfaceSampleV1) : Prop :=
  match sample_kind s with
  | WDry => s = sample_dry
  | WLake => s = sample_lake (sample_surface_mm s)
  | WRiver => True
  end.

Lemma check_sample_Ok i s : check_sample i s = Ok tt <-> sample_canonical s.
Proof.
  destruct s as [[] x y z]; unfold check_sample, sample_canonical, sample_dry, sample_lake; cbn;
    [case_decide..|done]; split; try done; intros; try (f_equal; lia).
  - exfalso. simplify_eq. lia.
  - exfalso. simplify_eq. lia.
Qed.

Lemma water_validate_Ok p :
  water_validate p = Ok tt <->
  water_version p = 1 /\ water_terrain_generator_version p <> 0 /\ hydrology_generator_version p <> 0 /\
  2 <= water_control_grid_side p <= 65 /\
  count (samples p) = water_control_grid_side p * water_control_grid_side p /\
  Forall sample_canonical (samples p).
Proof.
  unfold water_validate, expected_sample_count, WATER_SURFACE_PRESENTATION_VERSION,
    Terrain.TERRAIN_CONTROL_GRID_MIN_SIDE, Terrain.TERRAIN_CONTROL_GRID_MAX_SIDE.
  repeat (case_decide; [split; [done|intuition lia]|]).
  rewrite (check_each_Ok _ sample_canonical) by apply check_sample_Ok.
  split; [|tauto]. intros Hf. split_goals; done || lia.
Qed.

Lemma samples_fit p : water_validate p = Ok tt -> in_u 16 (count (samples p)).
Proof. intros (_ & _ & _ & Hs & -> & _)%water_validate_Ok. unfold in_u. nia. Qed.

(** *** The codec *)

Definition water_body (p : WaterSurfacePresentationV1) : list Z :=
  to_le 2 (water_version p) ++ to_le 8 (fx (water_quadrant_coord p)) ++
  to_le 8 (fy (water_quadrant_coord p)) ++ to_le 4 (water_terrain_generator_version p) ++
  to_le 4 (hydrology_generator_version p) ++ to_le 2 (water_control_grid_side p) ++
  to_le 2 (count (samples p)) ++ encode_entries encode_sample (samples p).

Lemma water_payload_len n : in_u 16 n -> water_wire_payload_len n = Ok (30 + n * 8).
Proof.
  unfold in_u, water_wire_payload_len, WATER_SURFACE_PRESENTATION_WIRE_HEADER_BYTES,
    WATER_SURFACE_PRESENTATION_SAMPLE_BYTES.
  intros Hn. unfold checked_u. rewrite decide_True by (unfold in_u; lia). cbn [mbind option_bind].
  by rewrite decide_True by (unfold in_u; lia).
Qed.

Lemma water_encode_spec p :
  water_encode_wire p =
  match water_validate p with Ok _ => Ok (water_body p) | Err e => Err (InvalidPresentation e) end.
Proof.
  unfold water_encode_wire. destruct (water_validate p) as [[]|] eqn:Hv; [|done].
  pose proof (samples_fit p Hv) as Hn. cbn [map_err mbind result_bind].
  unfold checked_u. rewrite decide_True by done. cbn [mbind result_bind ok_or].
  by rewrite water_payload_len by done.
Qed.

Lemma water_kind_roundtrip k : water_kind_try_from (water_kind_byte k) = Ok k.
Proof. by destruct k. Qed.

Lemma water_kind_try_from_Ok v k : water_kind_try_from v = Ok k -> water_kind_byte k = v.
Proof.
  unfold water_kind_try_from. intros H.
  repeat match type of H with
         | match ?x with _ => _ end = _ => destruct x; try done
         end; by injection H as <-.
Qed.

Lemma wrap_u_wrap_i b : is_byte b -> wrap_u 8 (wrap_i 8 b) = b.
Proof.
  intros Hb. unfold wrap_u, wrap_i, is_byte, in_u in *. change (2 ^ 8) with 256 in *.
  change (2 ^ (8 - 1)) with 128. rewrite Zminus_mod_idemp_l. rewrite Z.add_simpl_r. by apply Z.mod_small.
Qed.

Lemma decode_u8_Ok payload i b :
  decode_u8 payload i = Ok b <-> payload !! i = Some b.
Proof. unfold decode_u8. apply ok_or_Ok. Qed.

(** A byte found at its offset is a slice of length one. *)
Lemma lookup_slice (l : list Z) i b : l !! i = Some b -> slice l i (S i) = [b].
Proof.
  intros H. rewrite slice_one by (by apply lookup_lt_Some in H). unfold byte_at. by rewrite H.
Qed.

Lemma sample_encode_decode pre s post i :
  sample_fields_ok s -> decode_sample (pre ++ encode_sample s ++ post) i (length pre) = Ok s.
Proof.
  destruct s as [k x y z]. intros (Hx & Hy & Hz). cbn in Hx, Hy, Hz.
  unfold decode_sample, encode_sample; cbn [sample_kind sample_flow_hint_x sample_flow_hint_y sample_surface_mm].
  set (l := pre ++ _).
  assert (forall j b, ([water_kind_byte k; wrap_u 8 x; wrap_u 8 y; 0] ++ to_le 4 z ++ post) !! j = Some b ->
    decode_u8 l (length pre + j) = Ok b) as R.
  { intros j b H. apply decode_u8_Ok. unfold l. rewrite <- app_assoc, lookup_app_r by lia.
    by rewrite Nat.add_sub'. }
  pose proof (R 0%nat _ eq_refl) as R0. rewrite Nat.add_0_r in R0. rewrite R0. cbn [mbind result_bind].
  rewrite water_kind_roundtrip. cbn [map_err mbind result_bind].
  rewrite (R 1%nat _ eq_refl), (R 2%nat _ eq_refl), (R 3%nat _ eq_refl). cbn [mbind result_bind].
  rewrite decide_False by tauto.
  assert (read_i InvalidLength 4 l (length pre + 4) = Ok z) as ->.
  { unfold l. rewrite <- app_assoc, app_assoc. apply (read_i_app _ 4); [len_solve|lia|done]. }
  cbn [mbind result_bind]. unfold wrap_u. by rewrite !wrap_i_mod, !wrap_i_small by (done || lia).
Qed.

Lemma sample_decode_encode l (i offset : nat) s :
  are_bytes l -> (offset + 8 <= length l)%nat -> decode_sample l i offset = Ok s ->
  sample_fields_ok s /\ encode_sample s = slice l offset (offset + 8).
Proof.
  intros Hb Hle H. unfold decode_sample in H.
  apply bind_Ok in H as (k0 & E0%decode_u8_Ok & H).
  apply bind_Ok in H as (k & Hk & H). apply map_err_Ok, water_kind_try_from_Ok in Hk.
  apply bind_Ok in H as (x & E1%decode_u8_Ok & H). apply bind_Ok in H as (y & E2%decode_u8_Ok & H).
  apply bind_Ok in H as (r & E3%decode_u8_Ok & H). destruct (decide (r <> 0)) as [|Hr]; [done|].
  apply dec_stable in Hr. next_field H. injection H as <-. change (8 * Z.of_nat 4) with 32 in *.
  pose proof (Forall_lookup_1 _ _ _ _ Hb E1) as Bx. pose proof (Forall_lookup_1 _ _ _ _ Hb E2) as By.
  split; [unfold sample_fields_ok; cbn; split_goals; [apply wrap_i_range; lia..|done]|].
  unfold encode_sample; cbn [sample_kind sample_flow_hint_x sample_flow_hint_y sample_surface_mm].
  rewrite !wrap_u_wrap_i, Hk, <- Hr by done.
  rewrite (slice_split l offset (offset + 4)) by lia. replace (offset + 8)%nat with (offset + 4 + 4)%nat by lia.
  match goal with E : to_le 4 _ = _ |- _ => rewrite E end. f_equal.
  rewrite (slice_split l offset (S offset)), (lookup_slice _ _ _ E0) by lia.
  rewrite Nat.add_1_r in E1. rewrite (slice_split l (S offset) (S (S offset))), (lookup_slice _ _ _ E1) by lia.
  replace (offset + 2)%nat with (S (S offset)) in E2 by lia.
  replace (offset + 3)%nat with (S (S (S offset))) in E3 by lia.
  rewrite (slice_split l (S (S offset)) (S (S (S offset)))), (lookup_slice _ _ _ E2) by lia.
  replace (offset + 4)%nat with (S (S (S (S offset)))) by lia. by rewrite (lookup_slice _ _ _ E3).
Qed.

Lemma length_encode_sample s : length (encode_sample s) = 8%nat.
Proof. unfold encode_sample. len_solve. Qed.

Lemma decode_water_body p :
  water_fields_ok p -> water_validate p = Ok tt -> water_decode_wire (water_body p) = Ok p.
Proof.
  intros (Hv & [Hx Hy] & Ht & Hg & Hc & Hm) Hval. pose proof (samples_fit p Hval) as Hn.
  assert (length (water_body p) = 30 + 8 * length (samples p))%nat as Hlen.
  { unfold water_body. rewrite !length_app, !length_to_le.
    rewrite (length_encode_entries 8) by apply length_encode_sample. lia. }
  unfold water_decode_wire, WATER_SURFACE_PRESENTATION_WIRE_HEADER_BYTES,
    WATER_SURFACE_PRESENTATION_SAMPLE_BYTES.
  rewrite decide_False by (unfold len; lia).
  rewrite (read_u_slice _ 2 _ 28 (count (samples p)))%nat
    by (done || lia || unfold water_body; cbn [Nat.add]; by slice_solve).
  cbn [mbind result_bind]. rewrite water_payload_len by done. cbn [mbind result_bind].
  rewrite decide_False by (unfold len, count; lia). unfold count. rewrite Nat2Z.id.
  assert (decode_entries (decode_sample (water_body p)) 8 0 (length (samples p)) 30 = Ok (samples p)) as ->.
  { unfold water_body. rewrite !app_assoc.
    match goal with |- decode_entries (decode_sample (?pre ++ _)) _ _ _ _ = _ =>
      replace 30%nat with (length pre) by len_solve;
      pose proof (decode_encode_entries 8 encode_sample sample_fields_ok decode_sample length_encode_sample
        sample_encode_decode (samples p) pre [] 0%nat Hm) as D end.
    by rewrite app_nil_r in D. }
  cbn [mbind result_bind].
  rewrite (read_u_slice _ 2 _ 0 (water_version p))%nat,
    (read_u_slice _ 4 _ 18 (water_terrain_generator_version p))%nat,
    (read_u_slice _ 4 _ 22 (hydrology_generator_version p))%nat,
    (read_u_slice _ 2 _ 26 (water_control_grid_side p))%nat,
    (read_i_slice _ 8 _ 2 (fx (water_quadrant_coord p)))%nat,
    (read_i_slice _ 8 _ 10 (fy (water_quadrant_coord p)))%nat
    by (done || lia || unfold water_body; cbn [Nat.add]; by slice_solve).
  cbn [mbind result_bind]. destruct p as [? [] ? ? ? ?]; cbn in *. by rewrite Hval.
Qed.

Lemma water_decode_sound bs p :
  are_bytes bs -> water_decode_wire bs = Ok p ->
  water_fields_ok p /\ water_validate p = Ok tt /\ water_body p = bs.
Proof.
  intros Hb H. unfold water_decode_wire, WATER_SURFACE_PRESENTATION_WIRE_HEADER_BYTES,
    WATER_SURFACE_PRESENTATION_SAMPLE_BYTES in H.
  case_decide as Hshort; [done|].
  apply bind_Ok in H as (n & [Hn En]%read_u_range & H); [|done].
  rewrite water_payload_len in H by done. cbn [mbind result_bind] in H.
  destruct (decide _) as [|Hlen]; [done|]. apply dec_stable in Hlen.
  unfold len in Hshort, Hlen. change (8 * Z.of_nat 2) with 16 in Hn. unfold in_u in Hn.
  apply bind_Ok in H as (ss & Hs & H).
  apply (decode_entries_Ok 8 encode_sample sample_fields_ok decode_sample) in Hs
    as (Ls & Hs & Es); [|exact sample_decode_encode|done|lia].
  do 6 next_field H. apply bind_Ok in H as ([] & Hval & [= <-]). apply map_err_Ok in Hval.
  split_goals; [|done|].
  - unfold water_fields_ok; cbn. by split_goals.
  - unfold water_body; cbn [water_version water_quadrant_coord fx fy water_terrain_generator_version
      hydrology_generator_version water_control_grid_side samples].
    unfold count. rewrite Ls, Z2Nat.id by lia. rewrite Es, En.
    repeat match goal with E : to_le _ ?v = slice bs _ _ |- context [to_le _ ?v] => rewrite E end.
    rewrite <- !slice_split by lia. apply slice_all. lia.
Qed.

Lemma water_codec :
  ValidatedCodec water_fields_ok water_validate water_body
    water_encode_wire InvalidPresentation water_decode_wire.
Proof. split; [exact water_encode_spec|exact decode_water_body|exact water_decode_sound]. Qed.

End Water.

#[global] Existing Instances Terrain.terrain_codec Environment.environment_codec Water.water_codec.

Import Terrain Environment Water.

(** The three public quadrant messages are faithful on the wire.  Encoding
    fails exactly with the validation error; a valid message in range decodes
    from its encoding; and a payload is accepted only when it is the encoding
    of a valid message in range, so that equal payloads mean equal messages. *)
Theorem presentation_roundtrip :
  ValidatedCodec terrain_fields_ok terrain_validate terrain_body terrain_encode_wire id terrain_decode_wire /\
  ValidatedCodec environment_fields_ok environment_validate environment_body
    environment_encode_wire InvalidPolicy environment_decode_wire /\
  ValidatedCodec water_fields_ok water_validate water_body
    water_encode_wire InvalidPresentation water_decode_wire.
Proof. split_goals; apply _. Qed.
