(* ===== verification/Noise.v ===== *)
(** Noise: the deterministic 64-bit mixing and the fixed-point interpolation of
    the terrain crate ([crates/terrain/src/lib.rs]).  [mix64] and the rotation
    are bijections of the 64-bit words; the interpolation stays between its
    arguments and none of its machine operations wraps. *)

From S2P Require Import Prelude.

(** ** 64-bit words *)

Definition rotate_left (x k : Z) : Z := Z.lor (wrap_u 64 (Z.shiftl x k)) (Z.shiftr x (64 - k)).
Definition wrapping_mul (a b : Z) : Z := wrap_u 64 (a * b).
Definition xorshift (x k : Z) : Z := Z.lxor x (Z.shiftr x k).

Definition MIX_A : Z := 0xBF58476D1CE4E5B9.
Definition MIX_B : Z := 0x94D049BB133111EB.

Definition mix64 (value : Z) : Z :=
  let value := xorshift value 30 in
  let value := wrapping_mul value MIX_A in
  let value := xorshift value 27 in
  let value := wrapping_mul value MIX_B in
  xorshift value 31.

Lemma lxor_u w a b : 0 <= w -> in_u w a -> in_u w b -> in_u w (Z.lxor a b).
Proof.
  unfold in_u. intros Hw [Ha Ha'] [Hb Hb'].
  assert (0 <= Z.lxor a b) as Hn by (apply Z.lxor_nonneg; lia). split; [done|].
  destruct (Z.eq_dec (Z.lxor a b) 0) as [->|Hz]; [by apply pow2_pos|].
  apply Z.log2_lt_pow2; [lia|]. pose proof (Z.log2_lxor a b ltac:(lia) ltac:(lia)) as Hl.
  destruct (Z.eq_dec a 0) as [->|Hza], (Z.eq_dec b 0) as [->|Hzb]; [done|..].
  - rewrite Z.lxor_0_l. by apply Z.log2_lt_pow2; lia.
  - rewrite Z.lxor_0_r. by apply Z.log2_lt_pow2; lia.
  - apply Z.log2_lt_pow2 in Ha'; [|lia]. apply Z.log2_lt_pow2 in Hb'; [|lia]. lia.
Qed.

Lemma shiftr_u w k x : 0 <= k -> in_u w x -> in_u w (Z.shiftr x k).
Proof.
  unfold in_u. intros Hk [Hx Hx']. rewrite Z.shiftr_div_pow2 by done. pose proof (pow2_pos k Hk).
  split; [apply Z.div_pos; lia|]. apply Z.le_lt_trans with x; [|done]. apply Z.div_le_upper_bound; nia.
Qed.

Lemma xorshift_u k x : 0 <= k -> in_u 64 x -> in_u 64 (xorshift x k).
Proof. intros. apply lxor_u; [lia|done|]. by apply shiftr_u. Qed.

Lemma mix64_u x : in_u 64 x -> in_u 64 (mix64 x).
Proof. intros _. unfold mix64. apply xorshift_u; [lia|]. apply wrap_u_range. lia. Qed.

(** *** Inverses *)

Definition unxorshift (y k : Z) : Z := Z.lxor (Z.lxor y (Z.shiftr y k)) (Z.shiftr y (2 * k)).

Lemma unxorshift_xorshift k x : 22 <= k -> in_u 64 x -> unxorshift (xorshift x k) k = x.
Proof.
  intros Hk Hx. unfold unxorshift, xorshift. rewrite !Z.shiftr_lxor, !Z.shiftr_shiftr by lia.
  replace (k + 2 * k) with (3 * k) by lia. replace (k + k) with (2 * k) by lia.
  assert (Z.shiftr x (3 * k) = 0) as ->.
  { rewrite Z.shiftr_div_pow2 by lia. apply Z.div_small. unfold in_u in Hx. split; [lia|].
    apply Z.lt_le_trans with (2 ^ 64); [lia|]. apply Z.pow_le_mono_r; lia. }
  rewrite Z.lxor_0_r. rewrite <- (Z.lxor_assoc (Z.lxor x (Z.shiftr x k))).
  rewrite (Z.lxor_assoc x (Z.shiftr x k)), Z.lxor_nilpotent, Z.lxor_0_r.
  by rewrite Z.lxor_assoc, Z.lxor_nilpotent, Z.lxor_0_r.
Qed.

Definition MIX_A_INV : Z := 0x96DE1B173F119089.
Definition MIX_B_INV : Z := 0x319642B2D24D8EC3.

Lemma wrapping_mul_inv a b x :
  wrap_u 64 (a * b) = 1 -> in_u 64 x -> wrapping_mul (wrapping_mul x a) b = x.
Proof.
  intros Hab Hx. unfold wrapping_mul, wrap_u in *. rewrite Zmult_mod_idemp_l, <- Z.mul_assoc.
  rewrite <- Zmult_mod_idemp_r, Hab, Z.mul_1_r. by apply Z.mod_small.
Qed.

Definition unmix64 (value : Z) : Z :=
  let value := unxorshift value 31 in
  let value := wrapping_mul value MIX_B_INV in
  let value := unxorshift value 27 in
  let value := wrapping_mul value MIX_A_INV in
  unxorshift value 30.

Lemma unmix64_mix64 x : in_u 64 x -> unmix64 (mix64 x) = x.
Proof.
  intros Hx. unfold unmix64, mix64. cbv zeta.
  assert (in_u 64 (xorshift x 30)) as H1 by (by apply xorshift_u).
  assert (in_u 64 (xorshift (wrapping_mul (xorshift x 30) MIX_A) 27)) as H2
    by (apply xorshift_u; [lia|]; apply wrap_u_range; lia).
  rewrite (unxorshift_xorshift 31) by (lia || apply wrap_u_range; lia).
  rewrite (wrapping_mul_inv MIX_B) by (done || reflexivity).
  rewrite (unxorshift_xorshift 27) by (lia || apply wrap_u_range; lia).
  rewrite (wrapping_mul_inv MIX_A) by (done || reflexivity).
  by apply unxorshift_xorshift.
Qed.

Lemma mix64_inj x y : in_u 64 x -> in_u 64 y -> mix64 x = mix64 y -> x = y.
Proof. intros Hx Hy E. by rewrite <- (unmix64_mix64 x), <- (unmix64_mix64 y), E. Qed.

Lemma lxor_inj_l a x y : Z.lxor a x = Z.lxor a y -> x = y.
Proof.
  intros E. rewrite <- (Z.lxor_0_l x), <- (Z.lxor_nilpotent a), Z.lxor_assoc, E.
  by rewrite <- Z.lxor_assoc, Z.lxor_nilpotent, Z.lxor_0_l.
Qed.

(** The rotation exchanges the high [k] bits and the low [64 - k] bits. *)
Lemma rotate_left_split k x :
  0 < k < 64 -> in_u 64 x ->
  rotate_left x k = (x mod 2 ^ (64 - k)) * 2 ^ k + x / 2 ^ (64 - k).
Proof.
  intros Hk [Hx Hx']. unfold rotate_left. rewrite Z.shiftr_div_pow2 by lia.
  assert (2 ^ 64 = 2 ^ (64 - k) * 2 ^ k) as E by (rewrite <- Z.pow_add_r by lia; f_equal; lia).
  assert (wrap_u 64 (Z.shiftl x k) = Z.shiftl (x mod 2 ^ (64 - k)) k) as ->.
  { unfold wrap_u. rewrite !Z.shiftl_mul_pow2, E by lia.
    pose proof (pow2_pos k). pose proof (pow2_pos (64 - k)). by rewrite Z.mul_mod_distr_r by lia. }
  rewrite <- Z.add_nocarry_lor; [by rewrite Z.shiftl_mul_pow2 by lia|].
  apply Z.bits_inj'. intros n Hn. rewrite Z.land_spec, Z.bits_0.
  destruct (Z.lt_ge_cases n k) as [Hlt|Hge]; [by rewrite Z.shiftl_spec_low by lia|].
  rewrite andb_comm. replace (Z.testbit (x / 2 ^ (64 - k)) n) with false; [done|].
  symmetry. assert (0 <= x / 2 ^ (64 - k) < 2 ^ k) as Hb.
  { pose proof (pow2_pos (64 - k)). split; [apply Z.div_pos; lia|].
    apply Z.div_lt_upper_bound; lia. }
  destruct (Z.eq_dec (x / 2 ^ (64 - k)) 0) as [->|Hz]; [apply Z.bits_0|].
  apply Z.bits_above_log2; [lia|]. apply Z.lt_le_trans with k; [|done].
  apply Z.log2_lt_pow2; lia.
Qed.

Lemma rotate_left_inj k x y :
  0 < k < 64 -> in_u 64 x -> in_u 64 y -> rotate_left x k = rotate_left y k -> x = y.
Proof.
  intros Hk Hx Hy. rewrite !rotate_left_split by done. intros E. unfold in_u in Hx, Hy.
  assert (2 ^ 64 = 2 ^ (64 - k) * 2 ^ k) as E64 by (rewrite <- Z.pow_add_r by lia; f_equal; lia).
  pose proof (pow2_pos k ltac:(lia)) as Pk. pose proof (pow2_pos (64 - k) ltac:(lia)) as Pk'.
  set (p := 2 ^ (64 - k)) in *.
  assert (forall z, 0 <= z < 2 ^ 64 -> 0 <= z / p < 2 ^ k) as Hd.
  { intros z Hz. split; [apply Z.div_pos; lia|]. apply Z.div_lt_upper_bound; lia. }
  pose proof (Hd x Hx) as Dx. pose proof (Hd y Hy) as Dy.
  destruct (Z.div_mod_unique (2 ^ k) (x mod p) (y mod p) (x / p) (y / p)) as [Em Ed]; [lia|lia|lia|].
  rewrite (Z.div_mod x p), (Z.div_mod y p), Em, Ed by lia. done.
Qed.

Lemma rotate_left_u k x : 0 < k < 64 -> in_u 64 x -> in_u 64 (rotate_left x k).
Proof.
  intros Hk Hx. rewrite rotate_left_split by done. unfold in_u in *.
  assert (2 ^ 64 = 2 ^ (64 - k) * 2 ^ k) as E64 by (rewrite <- Z.pow_add_r by lia; f_equal; lia).
  pose proof (pow2_pos k ltac:(lia)) as Pk. pose proof (pow2_pos (64 - k) ltac:(lia)) as Pk'.
  set (p := 2 ^ (64 - k)) in *. pose proof (Z.mod_pos_bound x p Pk').
  assert (0 <= x / p < 2 ^ k) by (split; [apply Z.div_pos; lia|apply Z.div_lt_upper_bound; lia]). nia.
Qed.

(** [value as u64] of an [i64] is injective. *)
Lemma as_u64_inj x y : in_i 64 x -> in_i 64 y -> wrap_u 64 x = wrap_u 64 y -> x = y.
Proof.
  intros Hx Hy E. rewrite <- (wrap_i_small 64 x), <- (wrap_i_small 64 y) by (done || lia).
  rewrite <- (wrap_i_mod 64 x), <- (wrap_i_mod 64 y) by lia. unfold wrap_u in E. by rewrite E.
Qed.

#[global] Opaque mix64 rotate_left.

(** Hashing of a pair of coordinates: absorb the first, then the second,
    rotated by [k] bits. *)
Definition mix_xy (state k x y : Z) : Z :=
  mix64 (Z.lxor (mix64 (Z.lxor state (wrap_u 64 x))) (rotate_left (wrap_u 64 y) k)).

Lemma mix_xy_u state k x y :
  0 < k < 64 -> in_u 64 state -> in_u 64 (mix_xy state k x y).
Proof.
  intros Hk Hs. apply mix64_u, lxor_u; [lia|apply mix64_u, lxor_u|apply rotate_left_u];
    try done; try apply wrap_u_range; lia.
Qed.

(** Along a row and along a column of coordinates no two hashes are equal. *)
Lemma mix_xy_separates state k x y x' y' :
  0 < k < 64 -> in_u 64 state -> in_i 64 x -> in_i 64 y -> in_i 64 x' -> in_i 64 y' ->
  x = x' \/ y = y' -> mix_xy state k x y = mix_xy state k x' y' -> x = x' /\ y = y'.
Proof.
  intros Hk Hs Hx Hy Hx' Hy' Hor E.
  assert (forall z, in_u 64 (wrap_u 64 z)) as Hw by (intros; apply wrap_u_range; lia).
  assert (forall z, in_u 64 (mix64 (Z.lxor state (wrap_u 64 z)))) as Hm
    by (intros; apply mix64_u, lxor_u; [lia|done|done]).
  unfold mix_xy in E. apply mix64_inj in E;
    [|apply lxor_u; [lia|apply Hm|by apply rotate_left_u]..].
  destruct Hor as [<-|<-].
  - apply lxor_inj_l, rotate_left_inj, as_u64_inj in E; done.
  - split; [|done]. rewrite !(Z.lxor_comm _ (rotate_left _ _)) in E.
    apply lxor_inj_l, mix64_inj, lxor_inj_l, as_u64_inj in E; try done; apply lxor_u; done || lia.
Qed.

(** ** Fixed-point interpolation *)

Abbreviation i64 := (wrap_i 64).
Abbreviation i128 := (wrap_i 128).

Definition FIXED_ONE : Z := Z.shiftl 1 16.
Definition clamp_to (lo hi x : Z) : Z := Z.max lo (Z.min x hi).

Definition smoothstep_q16 (t : Z) : Z :=
  let t := clamp_to 0 FIXED_ONE t in
  let t2 := Z.quot (i128 (t * t)) FIXED_ONE in
  let three_minus_two_t := i64 (i64 (3 * FIXED_ONE) - i64 (2 * t)) in
  i64 (Z.quot (i128 (t2 * three_minus_two_t)) FIXED_ONE).

Definition lerp_q16 (a b t : Z) : Z :=
  i64 (a + Z.quot (i64 (i64 (b - a) * t)) FIXED_ONE).

Lemma small_in_i w x : 64 <= w -> - 2 ^ 62 <= x <= 2 ^ 62 -> in_i w x.
Proof.
  intros Hw Hx. unfold in_i. assert (2 ^ 63 <= 2 ^ (w - 1)) by (apply Z.pow_le_mono_r; lia). lia.
Qed.

Lemma smoothstep_q16_spec t :
  let u := clamp_to 0 65536 t in
  smoothstep_q16 t = (u * u / 65536) * (196608 - 2 * u) / 65536 /\
  0 <= smoothstep_q16 t <= 65536.
Proof.
  cbv zeta. unfold smoothstep_q16. change FIXED_ONE with 65536. cbv zeta.
  set (u := clamp_to 0 65536 t). assert (0 <= u <= 65536) as Hu by (unfold u, clamp_to; lia).
  rewrite !(wrap_i_small 64 (3 * _)), (wrap_i_small 64 (2 * u)) by (lia || apply small_in_i; lia).
  rewrite (wrap_i_small 64 (3 * _ - _)), (wrap_i_small 128 (u * u)) by (lia || apply small_in_i; nia).
  change (3 * 65536) with 196608. rewrite (Z.quot_div_nonneg (u * u)) by nia.
  set (t2 := u * u / 65536).
  assert (0 <= t2 <= u) as Ht2.
  { unfold t2. split; [apply Z.div_pos; nia|]. apply Z.div_le_upper_bound; nia. }
  rewrite (wrap_i_small 128) by (lia || apply small_in_i; nia).
  rewrite Z.quot_div_nonneg by nia.
  assert (0 <= t2 * (196608 - 2 * u) / 65536 <= 65536) as Hr.
  { split; [apply Z.div_pos; nia|]. apply Z.div_le_upper_bound; [lia|].
    assert (65536 * t2 <= u * u) by (unfold t2; pose proof (Z.mul_div_le (u * u) 65536); lia).
    assert (65536 * (t2 * (196608 - 2 * u)) <= u * u * (196608 - 2 * u)) by nia.
    assert (u * u * (196608 - 2 * u) <= 65536 * 65536 * 65536); [|lia].
    assert (0 <= (65536 - u) * (65536 - u) * (65536 + 2 * u)) as Hp
      by (apply Z.mul_nonneg_nonneg; [apply Z.square_nonneg|lia]).
    apply Z.le_0_sub. eapply Z.le_trans; [exact Hp|]. apply Z.eq_le_incl. ring. }
  rewrite wrap_i_small by (lia || apply small_in_i; lia). done.
Qed.

Lemma lerp_q16_spec a b t :
  - 2 ^ 40 <= a <= 2 ^ 40 -> - 2 ^ 40 <= b <= 2 ^ 40 -> 0 <= t <= 65536 ->
  lerp_q16 a b t = a + Z.quot ((b - a) * t) 65536 /\
  Z.min a b <= lerp_q16 a b t <= Z.max a b.
Proof.
  intros Ha Hb Ht. unfold lerp_q16. change FIXED_ONE with 65536.
  rewrite (wrap_i_small 64 (b - a)), (wrap_i_small 64 ((b - a) * t)) by (lia || apply small_in_i; nia).
  assert (Z.min a b <= a + Z.quot ((b - a) * t) 65536 <= Z.max a b) as Hr.
  { destruct (Z.le_ge_cases a b) as [H|H].
    - rewrite Z.quot_div_nonneg by nia.
      assert (0 <= (b - a) * t / 65536 <= b - a)
        by (split; [apply Z.div_pos; nia|apply Z.div_le_upper_bound; nia]). lia.
    - replace ((b - a) * t) with (- ((a - b) * t)) by lia.
      rewrite Z.quot_opp_l, Z.quot_div_nonneg by nia.
      assert (0 <= (a - b) * t / 65536 <= a - b)
        by (split; [apply Z.div_pos; nia|apply Z.div_le_upper_bound; nia]). lia. }
  rewrite wrap_i_small by (lia || apply small_in_i; lia). done.
Qed.
