(* ===== verification/Terrain.v ===== *)
(** Terrain ([crates/terrain/src/lib.rs], [semantics.rs], [artifact.rs]): the
    deterministic generation of a quadrant's terrain from the world seed, the
    summary of its cells and the canonical bytes behind its fingerprint.  The
    central fact is [elevation_global]: a sample depends only on the global
    coordinates of its lattice vertex, so neighbouring quadrants agree on the
    vertices they share. *)

From S2P Require Import Prelude Bytes Contracts Wire Presentation Noise.
Import Manifest Presentation.Terrain.

Definition TERRAIN_RECIPE_V1_CONTROL_GRID_SIDE : Z := 9.
Definition TERRAIN_RECIPE_V1_MAX_RELIEF_MM : Z := 18000.
Definition TERRAIN_RECIPE_V1_BUILDABLE_MAX_GRADE_PER_MILLE : Z := 150.
Definition TERRAIN_RECIPE_V1_WALKABLE_MAX_GRADE_PER_MILLE : Z := 700.

Record TerrainRecipeV1Settings := {
  recipe_quadrant_size_mm : Z;
  recipe_generator_version : Z;
  recipe_world_seed : Z
}.

Inductive TerrainRecipeError :=
| RecipeInvalidQuadrantSize (v : Z)
| RecipeInvalidGeneratorVersion
| LatticeCoordinateOverflow (x y : Z)
| InvalidGeneratedContract (e : TerrainAuthorityContractError).

Definition recipe_validate (s : TerrainRecipeV1Settings)
  : result TerrainRecipeError TerrainRecipeV1Settings :=
  if decide (recipe_quadrant_size_mm s <= 0) then Err (RecipeInvalidQuadrantSize (recipe_quadrant_size_mm s))
  else if decide (recipe_generator_version s = 0) then Err RecipeInvalidGeneratorVersion
  else Ok s.

(** ** Seeds and biomes *)

Definition derive_quadrant_recipe_seed (world_seed generator_version : Z) (c : FrontierQuadrantCoord) : Z :=
  mix_xy (Z.lxor world_seed (wrap_u 64 (Z.shiftl generator_version 32))) 29 (fx c) (fy c).

Definition derive_quadrant_biome_from_pool (world_seed : Z) (c : FrontierQuadrantCoord)
  (available_biome_ids : list Z) : Z :=
  if decide (available_biome_ids = []) then 1
  else
    let state := mix_xy (wrap_u 64 (world_seed + 0x517CC1B727220A95)) 31 (fx c) (fy c) in
    let index := state mod count available_biome_ids in
    default 0 (available_biome_ids !! Z.to_nat index).

Definition DEFAULT_BIOME_IDS : list Z := [1; 2].

Definition derive_quadrant_biome_id (world_seed : Z) (c : FrontierQuadrantCoord) : Z :=
  derive_quadrant_biome_from_pool world_seed c DEFAULT_BIOME_IDS.

(** ** Heights *)

Definition signed_lattice_value (seed generator_version x y : Z) : Z :=
  let state := mix_xy (Z.lxor seed (wrap_u 64 (Z.shiftl generator_version 17))) 23 x y in
  let magnitude := Z.land (Z.shiftr state 17) 65535 in
  wrap_i 32 (magnitude - 32768).

(** [div_euclid] and [rem_euclid] of the source agree with [Z.div] and
    [Z.modulo] on the positive spacings. *)
Definition interpolated_lattice_value (seed generator_version x y spacing : Z) : Z :=
  let cell_x := x / spacing in
  let cell_y := y / spacing in
  let frac_x := x mod spacing in
  let frac_y := y mod spacing in
  let tx := smoothstep_q16 (Z.quot (i64 (frac_x * FIXED_ONE)) spacing) in
  let ty := smoothstep_q16 (Z.quot (i64 (frac_y * FIXED_ONE)) spacing) in
  let v00 := signed_lattice_value seed generator_version cell_x cell_y in
  let v10 := signed_lattice_value seed generator_version (i64 (cell_x + 1)) cell_y in
  let v01 := signed_lattice_value seed generator_version cell_x (i64 (cell_y + 1)) in
  let v11 := signed_lattice_value seed generator_version (i64 (cell_x + 1)) (i64 (cell_y + 1)) in
  let south := lerp_q16 v00 v10 tx in
  let north := lerp_q16 v01 v11 tx in
  clamp_to (- 2 ^ 31) (2 ^ 31 - 1) (lerp_q16 south north ty).

Definition authoritative_height_mm (world_seed generator_version x y : Z) : Z :=
  let broad := interpolated_lattice_value world_seed generator_version x y 32 in
  let regional := interpolated_lattice_value (Z.lxor world_seed 0x9E3779B97F4A7C15) generator_version x y 16 in
  let local := interpolated_lattice_value (Z.lxor world_seed 0xD1B54A32D192ED03) generator_version x y 8 in
  let weighted := i64 (i64 (i64 (broad * 5) + i64 (regional * 3)) + i64 (local * 2)) in
  let normalized := Z.quot weighted 10 in
  clamp_to (- TERRAIN_RECIPE_V1_MAX_RELIEF_MM) TERRAIN_RECIPE_V1_MAX_RELIEF_MM
    (Z.quot (i64 (normalized * TERRAIN_RECIPE_V1_MAX_RELIEF_MM)) 32768).

(** ** Cell flags *)

Definition abs_i32 (x : Z) : Z := wrap_i 32 (Z.abs x).

Definition derive_cell_flags (h00 h10 h01 h11 quadrant_size_mm cells_per_side : Z) : Z :=
  let dx := Z.max (abs_i32 (wrap_i 32 (h10 - h00))) (abs_i32 (wrap_i 32 (h11 - h01))) in
  let dy := Z.max (abs_i32 (wrap_i 32 (h01 - h00))) (abs_i32 (wrap_i 32 (h11 - h10))) in
  let rise_sq := i128 (i128 (dx * dx) + i128 (dy * dy)) in
  let cell_scale_sq := i128 (cells_per_side * cells_per_side) in
  let normalized_rise_sq := i128 (i128 (rise_sq * 1000000) * cell_scale_sq) in
  let run_sq := i128 (quadrant_size_mm * quadrant_size_mm) in
  let buildable_limit_sq :=
    i128 (i128 (run_sq * TERRAIN_RECIPE_V1_BUILDABLE_MAX_GRADE_PER_MILLE)
          * TERRAIN_RECIPE_V1_BUILDABLE_MAX_GRADE_PER_MILLE) in
  if decide (normalized_rise_sq <= buildable_limit_sq)
  then Z.lor TERRAIN_CELL_WALKABLE TERRAIN_CELL_BUILDABLE
  else
    let walkable_limit_sq :=
      i128 (i128 (run_sq * TERRAIN_RECIPE_V1_WALKABLE_MAX_GRADE_PER_MILLE)
            * TERRAIN_RECIPE_V1_WALKABLE_MAX_GRADE_PER_MILLE) in
    if decide (normalized_rise_sq <= walkable_limit_sq) then TERRAIN_CELL_WALKABLE
    else TERRAIN_CELL_BLOCKED.

(** ** Generation *)

(** [for local_y in 0..side { for local_x in 0..side { ... } }], as the list of
    the visited pairs (x, y). *)
Definition grid_points (side : nat) : list (nat * nat) :=
  y ← seq 0 side; x ← seq 0 side; [(x, y)].

Definition sample_at (l : list Z) (i : nat) : Z := default 0 (l !! i).

(** The four corner vertices of a cell in a grid of [side] columns. *)
Definition corner_indices (side x y : nat) : nat * nat * nat * nat :=
  let i00 := (y * side + x)%nat in
  (i00, i00 + 1, i00 + side, i00 + side + 1)%nat.

Definition cell_flags_of (side : nat) (quadrant_size_mm : Z) (elevations : list Z) (p : nat * nat) : Z :=
  let '(i00, i10, i01, i11) := corner_indices side p.1 p.2 in
  derive_cell_flags (sample_at elevations i00) (sample_at elevations i10)
    (sample_at elevations i01) (sample_at elevations i11) quadrant_size_mm (Z.of_nat (side - 1)).

Definition generate_terrain_authority_v1 (settings : TerrainRecipeV1Settings) (c : FrontierQuadrantCoord)
  : result TerrainRecipeError TerrainAuthorityContractV1 :=
  settings ← recipe_validate settings;
  let side := Z.to_nat TERRAIN_RECIPE_V1_CONTROL_GRID_SIDE in
  let overflow := LatticeCoordinateOverflow (fx c) (fy c) in
  base_x ← ok_or overflow (checked_i 64 (fx c * (TERRAIN_RECIPE_V1_CONTROL_GRID_SIDE - 1)));
  base_y ← ok_or overflow (checked_i 64 (fy c * (TERRAIN_RECIPE_V1_CONTROL_GRID_SIDE - 1)));
  elevations ← mapM (fun '(local_x, local_y) =>
      global_x ← ok_or overflow (checked_i 64 (base_x + Z.of_nat local_x));
      global_y ← ok_or overflow (checked_i 64 (base_y + Z.of_nat local_y));
      Ok (authoritative_height_mm (recipe_world_seed settings) (recipe_generator_version settings)
            global_x global_y)) (grid_points side);
  let flags := map (cell_flags_of side (recipe_quadrant_size_mm settings) elevations)
                 (grid_points (side - 1)) in
  let contract := {|
    version := TERRAIN_AUTHORITY_CONTRACT_VERSION;
    quadrant_coord := c;
    quadrant_size_mm := recipe_quadrant_size_mm settings;
    generator_version := recipe_generator_version settings;
    recipe_seed := derive_quadrant_recipe_seed (recipe_world_seed settings)
                     (recipe_generator_version settings) c;
    control_grid_side := TERRAIN_RECIPE_V1_CONTROL_GRID_SIDE;
    biome_id := derive_quadrant_biome_id (recipe_world_seed settings) c;
    elevation_samples_mm := elevations;
    cell_flags := flags
  |} in
  _ ← map_err InvalidGeneratedContract (terrain_validate contract);
  Ok contract.

(** ** Summary and artifact *)

Record TerrainSemanticSummary := {
  total_cells : Z;
  walkable_cells : Z;
  buildable_cells : Z;
  blocked_cells : Z;
  water_cells : Z;
  connector_corridor_cells : Z
}.

Definition count_cell (s : TerrainSemanticSummary) (flags : Z) : TerrainSemanticSummary :=
  let bump (mask old : Z) := if has flags mask then old + 1 else old in
  {| total_cells := total_cells s;
     walkable_cells := bump TERRAIN_CELL_WALKABLE (walkable_cells s);
     buildable_cells := bump TERRAIN_CELL_BUILDABLE (buildable_cells s);
     blocked_cells := bump TERRAIN_CELL_BLOCKED (blocked_cells s);
     water_cells := bump TERRAIN_CELL_WATER (water_cells s);
     connector_corridor_cells := bump TERRAIN_CELL_CONNECTOR_CORRIDOR (connector_corridor_cells s) |}.

Definition summary_from_contract (c : TerrainAuthorityContractV1) : TerrainSemanticSummary :=
  foldl count_cell
    {| total_cells := count (cell_flags c); walkable_cells := 0; buildable_cells := 0;
       blocked_cells := 0; water_cells := 0; connector_corridor_cells := 0 |} (cell_flags c).

Definition classified_ground_cells (s : TerrainSemanticSummary) : Z := walkable_cells s + blocked_cells s.

(** [b"AURENFALL_TERRAIN_AUTHORITY_ARTIFACT_V1"]. *)
Definition TERRAIN_AUTHORITY_ARTIFACT_DOMAIN_V1 : list Z :=
  [65;85;82;69;78;70;65;76;76;95;84;69;82;82;65;73;78;95;65;85;84;72;79;82;73;84;89;95;65;82;84;73;70;65;
   67;84;95;86;49].

Definition encode_canonical_contract (c : TerrainAuthorityContractV1) : list Z :=
  TERRAIN_AUTHORITY_ARTIFACT_DOMAIN_V1 ++
  to_le 2 (version c) ++ to_le 8 (fx (quadrant_coord c)) ++ to_le 8 (fy (quadrant_coord c)) ++
  to_le 8 (quadrant_size_mm c) ++ to_le 4 (generator_version c) ++ to_le 8 (recipe_seed c) ++
  to_le 2 (control_grid_side c) ++
  to_le 4 (wrap_u 32 (count (elevation_samples_mm c))) ++ encode_entries (to_le 4) (elevation_samples_mm c) ++
  to_le 4 (wrap_u 32 (count (cell_flags c))) ++ cell_flags c.

Record TerrainAuthorityArtifactV1 := {
  art_contract : TerrainAuthorityContractV1;
  canonical_bytes : list Z;
  fingerprint : list Z
}.

Section Artifact.
(** [blake3::hash], 32 bytes. *)
Context (blake3_hash : list Z -> list Z).

Definition artifact_from_contract (c : TerrainAuthorityContractV1) : TerrainAuthorityArtifactV1 :=
  let bytes := encode_canonical_contract c in
  {| art_contract := c; canonical_bytes := bytes; fingerprint := blake3_hash bytes |}.
End Artifact.

Definition artifact_byte_len (a : TerrainAuthorityArtifactV1) : Z := count (canonical_bytes a).

(** ** Grids *)

Lemma mapM_Ok {E A B} (f : A -> result E B) l k :
  mapM f l = Ok k <-> Forall2 (fun x y => f x = Ok y) l k.
Proof.
  revert k. induction l as [|x l IH]; intros k; cbn.
  { split; [by intros [= <-]|by inversion 1]. }
  split.
  - intros (y & Hy & (ys & Hys & [= <-])%bind_Ok)%bind_Ok. constructor; [done|]. by apply IH.
  - inversion 1 as [|? y ? ys Hy Hys]; subst. apply IH in Hys. by rewrite Hy, Hys.
Qed.

Lemma rows_lookup {A} (f : nat -> list A) w n : forall s x y,
  (forall y, length (f y) = w) -> (x < w)%nat -> (y < n)%nat ->
  concat (map f (seq s n)) !! (y * w + x)%nat = f (s + y)%nat !! x.
Proof.
  induction n as [|n IH]; intros s x y Hf Hx Hy; [lia|]. cbn [seq map concat].
  destruct y as [|y].
  - rewrite lookup_app_l by (rewrite Hf; lia). by rewrite Nat.add_0_r.
  - rewrite lookup_app_r by (rewrite Hf; lia). rewrite Hf.
    replace (S y * w + x - w)%nat with (y * w + x)%nat by lia.
    rewrite IH by (done || lia). f_equal. f_equal. lia.
Qed.

Lemma length_rows {A} (f : nat -> list A) w n s :
  (forall y, length (f y) = w) -> length (concat (map f (seq s n))) = (n * w)%nat.
Proof.
  intros Hf. revert s. induction n as [|n IH]; intros s; cbn; [done|]. rewrite length_app, Hf, IH. done.
Qed.

Lemma nested_loop_rows (xs ys : list nat) :
  (y ← ys; x ← xs; [(x, y)]) = concat (map (fun y => map (fun x => (x, y)) xs) ys).
Proof.
  assert (forall y : nat, (x ← xs; [(x, y)]) = map (fun x => (x, y)) xs) as Hrow.
  { intros y. by induction xs as [|x xs IH]; cbn; [|f_equal]. }
  induction ys as [|y ys IH]; [done|]. cbn [map concat]. rewrite <- IH, <- Hrow. done.
Qed.

Lemma grid_points_rows side :
  grid_points side = concat (map (fun y => map (fun x => (x, y)) (seq 0 side)) (seq 0 side)).
Proof. apply nested_loop_rows. Qed.

Lemma length_grid_points side : length (grid_points side) = (side * side)%nat.
Proof. rewrite grid_points_rows. apply length_rows. intros. by rewrite length_map, length_seq. Qed.

Lemma grid_points_lookup side x y :
  (x < side)%nat -> (y < side)%nat -> grid_points side !! (y * side + x)%nat = Some (x, y).
Proof.
  intros Hx Hy. rewrite grid_points_rows, rows_lookup; [|intros; by rewrite length_map, length_seq|done..].
  change (0 + y)%nat with y. rewrite list_lookup_fmap, lookup_seq_lt by done. done.
Qed.

Lemma elem_of_grid_points side x y :
  (x, y) ∈ grid_points side <-> (x < side)%nat /\ (y < side)%nat.
Proof.
  unfold grid_points. rewrite list_elem_of_bind. setoid_rewrite list_elem_of_bind.
  setoid_rewrite elem_of_seq. split.
  - intros (y' & (x' & [= <- <-]%list_elem_of_singleton & Hx) & Hy). lia.
  - intros [Hx Hy]. exists y. split; [|lia]. exists x. split; [by apply list_elem_of_singleton|lia].
Qed.

(** What a loop over the grid that collects one value per point returns. *)
Lemma mapM_grid {E A} (f : nat * nat -> result E A) side l x y :
  mapM f (grid_points side) = Ok l -> (x < side)%nat -> (y < side)%nat ->
  exists a, f (x, y) = Ok a /\ l !! (y * side + x)%nat = Some a.
Proof.
  intros H%mapM_Ok Hx Hy.
  destruct (Forall2_lookup_l _ _ _ _ _ H (grid_points_lookup side x y Hx Hy)) as (a & Ha & Hf). eauto.
Qed.

Lemma mapM_grid_length {E A} (f : nat * nat -> result E A) side l :
  mapM f (grid_points side) = Ok l -> length l = (side * side)%nat.
Proof. intros H%mapM_Ok. rewrite <- (Forall2_length H). apply length_grid_points. Qed.

Lemma grid_index_lt side x y : (x < side)%nat -> (y < side)%nat -> (y * side + x < side * side)%nat.
Proof. nia. Qed.

(** ** Heights stay in range and no operation wraps *)

Lemma signed_lattice_value_range seed ver x y :
  -32768 <= signed_lattice_value seed ver x y <= 32767.
Proof.
  unfold signed_lattice_value. change 65535 with (Z.ones 16). rewrite Z.land_ones by lia.
  set (v := Z.shiftr _ 17). pose proof (Z.mod_pos_bound v (2 ^ 16)).
  rewrite wrap_i_small; [lia|lia|]. unfold in_i. lia.
Qed.

Lemma fraction_q16 x spacing :
  8 <= spacing <= 32 ->
  0 <= Z.quot (i64 (x mod spacing * FIXED_ONE)) spacing <= 65536 /\
  Z.quot (i64 (x mod spacing * FIXED_ONE)) spacing = x mod spacing * 65536 / spacing.
Proof.
  intros Hs. change FIXED_ONE with 65536. pose proof (Z.mod_pos_bound x spacing ltac:(lia)).
  rewrite wrap_i_small by (lia || apply small_in_i; nia).
  rewrite Z.quot_div_nonneg by nia. split; [|done].
  split; [apply Z.div_pos; nia|apply Z.div_le_upper_bound; nia].
Qed.

Lemma interpolated_range seed ver x y spacing :
  8 <= spacing <= 32 -> -32768 <= interpolated_lattice_value seed ver x y spacing <= 32767.
Proof.
  intros Hs. unfold interpolated_lattice_value. cbv zeta.
  destruct (smoothstep_q16_spec (Z.quot (i64 (x mod spacing * FIXED_ONE)) spacing)) as [_ Hx].
  destruct (smoothstep_q16_spec (Z.quot (i64 (y mod spacing * FIXED_ONE)) spacing)) as [_ Hy].
  set (tx := smoothstep_q16 (Z.quot (i64 (x mod _ * _)) _)) in *.
  set (ty := smoothstep_q16 (Z.quot (i64 (y mod _ * _)) _)) in *.
  set (cx := x / spacing). set (cy := y / spacing).
  pose proof (signed_lattice_value_range seed ver cx cy).
  pose proof (signed_lattice_value_range seed ver (i64 (cx + 1)) cy).
  pose proof (signed_lattice_value_range seed ver cx (i64 (cy + 1))).
  pose proof (signed_lattice_value_range seed ver (i64 (cx + 1)) (i64 (cy + 1))).
  destruct (lerp_q16_spec (signed_lattice_value seed ver cx cy)
    (signed_lattice_value seed ver (i64 (cx + 1)) cy) tx) as [_ Hsouth]; [lia..|].
  destruct (lerp_q16_spec (signed_lattice_value seed ver cx (i64 (cy + 1)))
    (signed_lattice_value seed ver (i64 (cx + 1)) (i64 (cy + 1))) tx) as [_ Hnorth]; [lia..|].
  match goal with |- context [lerp_q16 (lerp_q16 ?a ?b tx) (lerp_q16 ?c ?d tx) ty] =>
    destruct (lerp_q16_spec (lerp_q16 a b tx) (lerp_q16 c d tx) ty) as [_ Hr]; [lia..|] end.
  unfold clamp_to. lia.
Qed.

(** The height is the weighted mean of three octaves, scaled to the relief. *)
Lemma authoritative_height_exact seed ver x y :
  let b := interpolated_lattice_value seed ver x y 32 in
  let r := interpolated_lattice_value (Z.lxor seed 0x9E3779B97F4A7C15) ver x y 16 in
  let l := interpolated_lattice_value (Z.lxor seed 0xD1B54A32D192ED03) ver x y 8 in
  authoritative_height_mm seed ver x y = Z.quot (Z.quot (5 * b + 3 * r + 2 * l) 10 * 18000) 32768 /\
  -18000 <= authoritative_height_mm seed ver x y <= 18000.
Proof.
  cbv zeta. unfold authoritative_height_mm.
  pose proof (interpolated_range seed ver x y 32 ltac:(lia)) as Hb.
  pose proof (interpolated_range (Z.lxor seed 0x9E3779B97F4A7C15) ver x y 16 ltac:(lia)) as Hr.
  pose proof (interpolated_range (Z.lxor seed 0xD1B54A32D192ED03) ver x y 8 ltac:(lia)) as Hl.
  set (b := interpolated_lattice_value _ _ _ _ 32) in *.
  set (r := interpolated_lattice_value _ _ _ _ 16) in *.
  set (l := interpolated_lattice_value _ _ _ _ 8) in *.
  unfold TERRAIN_RECIPE_V1_MAX_RELIEF_MM.
  rewrite (wrap_i_small 64 (b * 5)), (wrap_i_small 64 (r * 3)), (wrap_i_small 64 (l * 2))
    by (lia || apply small_in_i; lia).
  rewrite (wrap_i_small 64 (b * 5 + r * 3)), (wrap_i_small 64 (_ + l * 2)) by (lia || apply small_in_i; lia).
  replace (b * 5 + r * 3 + l * 2) with (5 * b + 3 * r + 2 * l) by lia.
  set (w := 5 * b + 3 * r + 2 * l).
  assert (-32768 <= Z.quot w 10 <= 32768) as Hn by (Z.to_euclidean_division_equations; lia).
  set (n := Z.quot w 10) in *. rewrite (wrap_i_small 64) by (lia || apply small_in_i; lia).
  assert (-18000 <= Z.quot (n * 18000) 32768 <= 18000) as Hq by (Z.to_euclidean_division_equations; lia).
  unfold clamp_to. lia.
Qed.

(** ** Cell flags *)

Lemma derive_cell_flags_values h00 h10 h01 h11 size n :
  derive_cell_flags h00 h10 h01 h11 size n = 3 \/ derive_cell_flags h00 h10 h01 h11 size n = 1 \/
  derive_cell_flags h00 h10 h01 h11 size n = 8.
Proof.
  unfold derive_cell_flags. cbv zeta.
  match goal with |- context [decide ?P] => destruct (decide P) end; [by left|right].
  match goal with |- context [decide ?P] => destruct (decide P) end; [by left|by right].
Qed.

Lemma derive_cell_flags_ok h00 h10 h01 h11 size n :
  cell_ok (derive_cell_flags h00 h10 h01 h11 size n).
Proof. by destruct (derive_cell_flags_values h00 h10 h01 h11 size n) as [->|[->| ->]]. Qed.

(** The steepest squared rise of a cell, over the edges of each direction. *)
Definition rise_squared (h00 h10 h01 h11 : Z) : Z :=
  let dx := Z.max (Z.abs (h10 - h00)) (Z.abs (h11 - h01)) in
  let dy := Z.max (Z.abs (h01 - h00)) (Z.abs (h11 - h10)) in
  dx * dx + dy * dy.

(** For heights within the relief and any realistic quadrant size the 128-bit
    comparison is exact: a cell is buildable up to a grade of 150 per mille,
    walkable up to 700, and blocked above. *)
Lemma derive_cell_flags_exact h00 h10 h01 h11 size n :
  Forall (fun h => -18000 <= h <= 18000) [h00; h10; h01; h11] ->
  0 < size <= 2 ^ 53 -> 0 < n <= 64 ->
  derive_cell_flags h00 h10 h01 h11 size n =
  (if decide (rise_squared h00 h10 h01 h11 * (1000 * n) ^ 2 <= (150 * size) ^ 2) then 3
   else if decide (rise_squared h00 h10 h01 h11 * (1000 * n) ^ 2 <= (700 * size) ^ 2) then 1 else 8).
Proof.
  rewrite !list.Forall_cons. intros (H00 & H10 & H01 & H11 & _) Hs Hn.
  unfold derive_cell_flags, rise_squared, abs_i32. cbv zeta.
  assert (forall x, -36000 <= x <= 36000 -> wrap_i 32 x = x) as W32
    by (intros x Hx; apply wrap_i_small; [lia|unfold in_i; lia]).
  rewrite (W32 (h10 - h00)), (W32 (h11 - h01)), (W32 (h01 - h00)), (W32 (h11 - h10)) by lia.
  rewrite !W32 by lia.
  set (dx := Z.max _ (Z.abs (h11 - h01))). set (dy := Z.max _ (Z.abs (h11 - h10))).
  assert (0 <= dx <= 36000) as Hdx by lia. assert (0 <= dy <= 36000) as Hdy by lia. clearbody dx dy.
  assert (forall x, 0 <= x < 2 ^ 127 -> i128 x = x) as W128
    by (intros x Hx; apply wrap_i_small; [lia|unfold in_i; lia]).
  rewrite (W128 (dx * dx)), (W128 (dy * dy)), (W128 (n * n)) by nia.
  rewrite (W128 (dx * dx + dy * dy)) by nia. set (r := dx * dx + dy * dy).
  assert (0 <= r <= 2592000000) as Hr by (unfold r; nia). clearbody r.
  rewrite (W128 (r * 1000000)) by lia. assert (0 <= n * n <= 4096) as Hnn by nia.
  rewrite (W128 (r * 1000000 * (n * n))) by nia.
  assert (0 <= size * size <= 2 ^ 106) as Hss.
  { split; [nia|]. change (2 ^ 106) with (2 ^ 53 * 2 ^ 53). nia. }
  rewrite (W128 (size * size)) by lia.
  unfold TERRAIN_RECIPE_V1_BUILDABLE_MAX_GRADE_PER_MILLE, TERRAIN_RECIPE_V1_WALKABLE_MAX_GRADE_PER_MILLE.
  rewrite (W128 (size * size * 150)), (W128 (size * size * 700)) by lia.
  rewrite (W128 (size * size * 150 * 150)), (W128 (size * size * 700 * 700)) by lia.
  replace (r * (1000 * n) ^ 2) with (r * 1000000 * (n * n)) by ring.
  replace ((150 * size) ^ 2) with (size * size * 150 * 150) by ring.
  replace ((700 * size) ^ 2) with (size * size * 700 * 700) by ring.
  destruct (decide (r * 1000000 * (n * n) <= size * size * 150 * 150)); [done|].
  by destruct (decide (r * 1000000 * (n * n) <= size * size * 700 * 700)).
Qed.

(** ** Generation *)

(** The quadrants whose lattice vertices have 64-bit coordinates. *)
Definition lattice_ok (c : FrontierQuadrantCoord) : Prop :=
  in_i 64 (fx c * 8) /\ in_i 64 (fx c * 8 + 8) /\ in_i 64 (fy c * 8) /\ in_i 64 (fy c * 8 + 8).

Definition settings_ok (s : TerrainRecipeV1Settings) : Prop :=
  0 < recipe_quadrant_size_mm s /\ recipe_generator_version s <> 0.

Lemma recipe_validate_Ok s s' : recipe_validate s = Ok s' <-> s' = s /\ settings_ok s.
Proof.
  unfold recipe_validate, settings_ok. case_decide; [naive_solver lia|].
  case_decide; [naive_solver|]. split; [intros [= <-]; split; [done|lia]|by intros [-> _]].
Qed.

Lemma checked_vertex base (l : nat) e :
  in_i 64 base -> in_i 64 (base + 8) -> (l < 9)%nat ->
  ok_or (E := TerrainRecipeError) e (checked_i 64 (base + Z.of_nat l)) = Ok (base + Z.of_nat l).
Proof. intros H H' Hl. rewrite checked_i_in; [done|]. unfold in_i in *. lia. Qed.

(** The vertex heights of a quadrant, in row-major order. *)
Definition quadrant_heights (seed ver : Z) (c : FrontierQuadrantCoord) : list Z :=
  map (fun p => authoritative_height_mm seed ver (fx c * 8 + Z.of_nat p.1) (fy c * 8 + Z.of_nat p.2))
    (grid_points 9).

Lemma quadrant_heights_lookup seed ver c (x y : nat) :
  (x < 9)%nat -> (y < 9)%nat ->
  quadrant_heights seed ver c !! (y * 9 + x)%nat =
  Some (authoritative_height_mm seed ver (fx c * 8 + Z.of_nat x) (fy c * 8 + Z.of_nat y)).
Proof.
  intros Hx Hy. unfold quadrant_heights. rewrite list_lookup_fmap, grid_points_lookup by done. done.
Qed.

Definition generated (s : TerrainRecipeV1Settings) (c : FrontierQuadrantCoord) : TerrainAuthorityContractV1 :=
  let heights := quadrant_heights (recipe_world_seed s) (recipe_generator_version s) c in {|
    version := 1; quadrant_coord := c; quadrant_size_mm := recipe_quadrant_size_mm s;
    generator_version := recipe_generator_version s;
    recipe_seed := derive_quadrant_recipe_seed (recipe_world_seed s) (recipe_generator_version s) c;
    control_grid_side := 9; biome_id := derive_quadrant_biome_id (recipe_world_seed s) c;
    elevation_samples_mm := heights;
    cell_flags := map (cell_flags_of 9 (recipe_quadrant_size_mm s) heights) (grid_points 8)
  |}.

Lemma generated_valid s c : settings_ok s -> terrain_validate (generated s c) = Ok tt.
Proof.
  intros [Hs Hg]. apply terrain_validate_Ok. unfold generated; cbn [version quadrant_size_mm
    generator_version control_grid_side elevation_samples_mm cell_flags]. split_goals; try done || lia.
  apply list.Forall_forall. intros f (p & -> & _)%list_elem_of_fmap.
  unfold cell_flags_of. destruct (corner_indices 9 p.1 p.2) as [[[? ?] ?] ?]. apply derive_cell_flags_ok.
Qed.

(** Generation is total on lattice coordinates and fails on no other account. *)
Lemma generate_Ok s c t :
  generate_terrain_authority_v1 s c = Ok t <-> settings_ok s /\ lattice_ok c /\ t = generated s c.
Proof.
  unfold generate_terrain_authority_v1, TERRAIN_RECIPE_V1_CONTROL_GRID_SIDE, lattice_ok.
  change (9 - 1) with 8. change (Z.to_nat 9) with 9%nat.
  assert (forall bx by_, in_i 64 bx -> in_i 64 (bx + 8) -> in_i 64 by_ -> in_i 64 (by_ + 8) ->
    mapM (fun '(lx, ly) => gx ← ok_or (LatticeCoordinateOverflow (fx c) (fy c)) (checked_i 64 (bx + Z.of_nat lx));
      gy ← ok_or (LatticeCoordinateOverflow (fx c) (fy c)) (checked_i 64 (by_ + Z.of_nat ly));
      Ok (authoritative_height_mm (recipe_world_seed s) (recipe_generator_version s) gx gy)) (grid_points 9) =
    Ok (map (fun p => authoritative_height_mm (recipe_world_seed s) (recipe_generator_version s)
      (bx + Z.of_nat p.1) (by_ + Z.of_nat p.2)) (grid_points 9))) as Hloop.
  { intros bx by_ Hx Hx8 Hy Hy8. apply mapM_Ok, Forall2_fmap_r, Forall_Forall2_diag, list.Forall_forall.
    intros [lx ly] [Hlx Hly]%elem_of_grid_points; cbn [fst snd].
    rewrite !checked_vertex by done. done. }
  split.
  - intros (s' & [-> Hs]%recipe_validate_Ok & H)%bind_Ok.
    apply bind_Ok in H as (bx & [-> Hbx]%ok_or_Ok%checked_i_Some & H).
    apply bind_Ok in H as (by_ & [-> Hby]%ok_or_Ok%checked_i_Some & H).
    apply bind_Ok in H as (el & Hel & H).
    assert (in_i 64 (fx c * 8 + 8) /\ in_i 64 (fy c * 8 + 8)) as [Hx8 Hy8].
    { destruct (mapM_grid _ _ _ 8 8 Hel ltac:(lia) ltac:(lia)) as (a & Ha & _).
      apply bind_Ok in Ha as (? & [-> ?]%ok_or_Ok%checked_i_Some & Ha).
      apply bind_Ok in Ha as (? & [-> ?]%ok_or_Ok%checked_i_Some & _). done. }
    rewrite Hloop in Hel by done. injection Hel as <-.
    apply bind_Ok in H as (_ & _ & [= <-]). done.
  - intros (Hs & (Hx & Hx8 & Hy & Hy8) & ->).
    rewrite (proj2 (recipe_validate_Ok s s) (conj eq_refl Hs)). cbn [mbind result_bind].
    rewrite !checked_i_in by done. cbn [ok_or mbind result_bind]. rewrite Hloop by done.
    cbn [mbind result_bind].
    change (map _ (grid_points 9)) with (quadrant_heights (recipe_world_seed s) (recipe_generator_version s) c).
    change (TERRAIN_AUTHORITY_CONTRACT_VERSION) with 1. change (9 - 1)%nat with 8%nat.
    pose proof (generated_valid s c Hs) as Hv. unfold generated in Hv. rewrite Hv. done.
Qed.

Lemma cell_flags_lookup s c (x y : nat) :
  (x < 8)%nat -> (y < 8)%nat ->
  cell_flags (generated s c) !! (y * 8 + x)%nat =
  Some (cell_flags_of 9 (recipe_quadrant_size_mm s) (elevation_samples_mm (generated s c)) (x, y)).
Proof.
  intros Hx Hy. unfold generated; cbn [cell_flags elevation_samples_mm].
  by rewrite list_lookup_fmap, grid_points_lookup.
Qed.

(** Height of vertex [(x, y)] of quadrant [c]. *)
Definition vertex_height (s : TerrainRecipeV1Settings) (c : FrontierQuadrantCoord) (x y : nat) : Z :=
  authoritative_height_mm (recipe_world_seed s) (recipe_generator_version s)
    (fx c * 8 + Z.of_nat x) (fy c * 8 + Z.of_nat y).

Lemma generated_elevation s c (x y : nat) :
  (x < 9)%nat -> (y < 9)%nat ->
  elevation_samples_mm (generated s c) !! (y * 9 + x)%nat = Some (vertex_height s c x y).
Proof. intros. unfold generated; cbn [elevation_samples_mm]. by apply quadrant_heights_lookup. Qed.

Lemma generated_sample_at s c (x y : nat) :
  (x < 9)%nat -> (y < 9)%nat ->
  sample_at (elevation_samples_mm (generated s c)) (y * 9 + x)%nat = vertex_height s c x y.
Proof. intros. unfold sample_at. by rewrite generated_elevation. Qed.

(** The classification of a cell by the grade between its corners. *)
Definition grade_flags (rise size : Z) : Z :=
  if decide (rise * 8000 ^ 2 <= (150 * size) ^ 2) then Z.lor TERRAIN_CELL_WALKABLE TERRAIN_CELL_BUILDABLE
  else if decide (rise * 8000 ^ 2 <= (700 * size) ^ 2) then TERRAIN_CELL_WALKABLE
  else TERRAIN_CELL_BLOCKED.

Lemma generated_cell s c (x y : nat) :
  0 < recipe_quadrant_size_mm s <= 2 ^ 53 -> (x < 8)%nat -> (y < 8)%nat ->
  cell_flags (generated s c) !! (y * 8 + x)%nat =
  Some (grade_flags (rise_squared (vertex_height s c x y) (vertex_height s c (S x) y)
                       (vertex_height s c x (S y)) (vertex_height s c (S x) (S y)))
          (recipe_quadrant_size_mm s)).
Proof.
  intros Hs Hx Hy. rewrite cell_flags_lookup by done. f_equal.
  unfold cell_flags_of, corner_indices. cbn [fst snd].
  replace (y * 9 + x + 1)%nat with (y * 9 + S x)%nat by lia.
  replace (y * 9 + x + 9 + 1)%nat with (S y * 9 + S x)%nat by lia.
  replace (y * 9 + x + 9)%nat with (S y * 9 + x)%nat by lia.
  rewrite !generated_sample_at by lia.
  apply derive_cell_flags_exact; [|done|cbn; lia].
  rewrite !list.Forall_cons. split_goals; try done; apply authoritative_height_exact.
Qed.

(** C34: terrain generation is total on the lattice and exact.  It succeeds
    exactly when the settings are valid and every vertex of the quadrant has
    64-bit coordinates; the result is a valid contract for the quadrant; every
    height is the value noise of the global coordinates, within 18 metres; and
    every cell is classified by the steepest grade between its corners, with no
    operation overflowing for quadrants up to 2^53 millimetres. *)
Theorem terrain_generation_correct (s : TerrainRecipeV1Settings) (c : FrontierQuadrantCoord) :
  ((exists t, generate_terrain_authority_v1 s c = Ok t) <-> settings_ok s /\ lattice_ok c) /\
  forall t, generate_terrain_authority_v1 s c = Ok t ->
    terrain_validate t = Ok tt /\ quadrant_coord t = c /\
    (forall x y, (x < 9)%nat -> (y < 9)%nat ->
       elevation_samples_mm t !! (y * 9 + x)%nat = Some (vertex_height s c x y) /\
       -18000 <= vertex_height s c x y <= 18000) /\
    (recipe_quadrant_size_mm s <= 2 ^ 53 -> forall x y, (x < 8)%nat -> (y < 8)%nat ->
       cell_flags t !! (y * 8 + x)%nat =
       Some (grade_flags (rise_squared (vertex_height s c x y) (vertex_height s c (S x) y)
                            (vertex_height s c x (S y)) (vertex_height s c (S x) (S y)))
               (recipe_quadrant_size_mm s))).
Proof.
  split.
  - split; [intros (t & ?%generate_Ok); naive_solver|].
    intros [Hs Hc]. exists (generated s c). by apply generate_Ok.
  - intros t (Hs & Hc & ->)%generate_Ok. split_goals; [by apply generated_valid|done| |].
    + intros x y Hx Hy. split; [by apply generated_elevation|apply authoritative_height_exact].
    + intros Hmax x y Hx Hy. apply generated_cell; [|done|done]. destruct Hs. lia.
Qed.

(** ** Seeds *)

(** No two quadrants of a row or of a column share a recipe seed, for any
    world seed and generator version. *)
Theorem recipe_seeds_separate (world_seed generator_version : Z) (c c' : FrontierQuadrantCoord) :
  in_u 64 world_seed -> coord_fields_ok c -> coord_fields_ok c' ->
  fx c = fx c' \/ fy c = fy c' ->
  derive_quadrant_recipe_seed world_seed generator_version c =
  derive_quadrant_recipe_seed world_seed generator_version c' -> c = c'.
Proof.
  intros Hw [Hx Hy] [Hx' Hy'] Hor E.
  apply mix_xy_separates in E as [Ex Ey]; try done; [|apply lxor_u; [lia|done|apply wrap_u_range; lia]].
  destruct c, c'; cbn in *. by subst.
Qed.

Lemma recipe_seeds_separate_witness :
  derive_quadrant_recipe_seed 7 1 (mk_fqc 0 3) <> derive_quadrant_recipe_seed 7 1 (mk_fqc (-1) 3).
Proof.
  intros E. apply (recipe_seeds_separate 7 1 (mk_fqc 0 3) (mk_fqc (-1) 3)) in E;
    [discriminate E|vm_compute; split; congruence|split; vm_compute; split; congruence..|by right].
Defined.

Lemma biome_in_pool world_seed c pool :
  pool <> [] -> derive_quadrant_biome_from_pool world_seed c pool ∈ pool.
Proof.
  intros Hp. unfold derive_quadrant_biome_from_pool. rewrite decide_False by done.
  set (i := _ mod _). assert (0 <= i < count pool) as Hi.
  { apply Z.mod_pos_bound. unfold count. destruct pool; cbn; [done|lia]. }
  unfold count in Hi. destruct (lookup_lt_is_Some_2 pool (Z.to_nat i) ltac:(lia)) as [b Hb].
  rewrite Hb. by apply list_elem_of_lookup_2 in Hb.
Qed.

(** ** The canonical bytes *)

Lemma to_le_inj_u n x y : in_u (8 * Z.of_nat n) x -> in_u (8 * Z.of_nat n) y -> to_le n x = to_le n y -> x = y.
Proof.
  intros Hx Hy E. by rewrite <- (from_le_to_le_u n _ x eq_refl Hx), <- (from_le_to_le_u n _ y eq_refl Hy), E.
Qed.

Lemma to_le_inj_i n x y :
  (0 < n)%nat -> in_i (8 * Z.of_nat n) x -> in_i (8 * Z.of_nat n) y -> to_le n x = to_le n y -> x = y.
Proof.
  intros Hn Hx Hy E.
  rewrite <- (from_le_to_le_i n _ x eq_refl ltac:(lia) Hx), <- (from_le_to_le_i n _ y eq_refl ltac:(lia) Hy).
  by rewrite E.
Qed.

Lemma encode_entries_inj n l k :
  (0 < n)%nat -> Forall (in_i (8 * Z.of_nat n)) l -> Forall (in_i (8 * Z.of_nat n)) k ->
  encode_entries (to_le n) l = encode_entries (to_le n) k -> l = k.
Proof.
  intros Hn Hl. revert k. induction Hl as [|x l Hx _ IH]; intros [|y k] Hk E; try done.
  - apply (f_equal length) in E. unfold encode_entries in E. cbn in E. rewrite length_app, length_to_le in E. lia.
  - apply (f_equal length) in E. unfold encode_entries in E. cbn in E. rewrite length_app, length_to_le in E. lia.
  - unfold encode_entries in E; cbn [map concat] in E. apply Forall_cons_1 in Hk as [Hy Hk].
    apply app_inj_1 in E as [Exy E]; [|by rewrite !length_to_le].
    f_equal; [by apply (to_le_inj_i n)|by apply IH].
Qed.

Definition forget_biome (c : TerrainAuthorityContractV1) : TerrainAuthorityContractV1 :=
  {| version := version c; quadrant_coord := quadrant_coord c; quadrant_size_mm := quadrant_size_mm c;
     generator_version := generator_version c; recipe_seed := recipe_seed c;
     control_grid_side := control_grid_side c; biome_id := 0;
     elevation_samples_mm := elevation_samples_mm c; cell_flags := cell_flags c |}.

(** Peels the first field off an equality of concatenated encodings. *)
Ltac peel_field E :=
  let F := fresh "F" in apply app_inj_1 in E as [F E]; [|by rewrite ?length_to_le].

Lemma canonical_bytes_determine c c' :
  terrain_fields_ok c -> terrain_fields_ok c' ->
  terrain_validate c = Ok tt -> terrain_validate c' = Ok tt ->
  encode_canonical_contract c = encode_canonical_contract c' -> forget_biome c = forget_biome c'.
Proof.
  intros Hf Hf' V V' E.
  destruct (counts_fit c V) as [Hn Hm], (counts_fit c' V') as [Hn' Hm'].
  destruct Hf as (Hv & [Hx Hy] & Hs & Hg & Hr & Hc & _ & He & _),
    Hf' as (Hv' & [Hx' Hy'] & Hs' & Hg' & Hr' & Hc' & _ & He' & _).
  unfold encode_canonical_contract in E. apply app_inv_head in E.
  do 8 peel_field E. unfold len in *. change count with len in *.
  assert (forall x, in_u 16 x -> wrap_u 32 x = x) as W by
    (intros x Hu; apply wrap_u_small; unfold in_u in *; lia).
  change (@count Z) with len in *. unfold len in *.
  rewrite !W in F6 by done. apply to_le_inj_u in F6; [|unfold in_u in *; lia..].
  apply app_inj_1 in E as [Ee E].
  2: { rewrite !(length_encode_entries 4) by (intros; apply length_to_le). lia. }
  peel_field E. apply encode_entries_inj in Ee; [|lia|done|done].
  apply to_le_inj_u in F, F3, F4, F5; [|done..]. apply to_le_inj_i in F0, F1, F2; [|done || lia..].
  destruct c as [? [] ? ? ? ? ? ? ?], c' as [? [] ? ? ? ? ? ? ?]; cbn in *. unfold forget_biome; cbn. congruence.
Qed.

(** The biome is not part of the canonical bytes. *)
Lemma canonical_bytes_forget_biome c :
  encode_canonical_contract (forget_biome c) = encode_canonical_contract c.
Proof. reflexivity. Qed.

(** The canonical bytes behind an artifact's fingerprint determine every
    field of a valid contract except the biome, on which they do not depend:
    two valid contracts have the same canonical bytes exactly when they differ
    at most in the biome. *)
Theorem canonical_bytes_exact (c c' : TerrainAuthorityContractV1) :
  terrain_fields_ok c -> terrain_fields_ok c' ->
  terrain_validate c = Ok tt -> terrain_validate c' = Ok tt ->
  encode_canonical_contract c = encode_canonical_contract c' <-> forget_biome c = forget_biome c'.
Proof.
  intros Hf Hf' V V'. split; [by apply canonical_bytes_determine|].
  intros E. by rewrite <- (canonical_bytes_forget_biome c), <- (canonical_bytes_forget_biome c'), E.
Qed.

Definition example_settings : TerrainRecipeV1Settings :=
  {| recipe_quadrant_size_mm := 64000; recipe_generator_version := 1; recipe_world_seed := 7 |}.

Lemma terrain_generation_correct_witness :
  exists t, generate_terrain_authority_v1 example_settings (mk_fqc 3 (-2)) = Ok t /\
            terrain_validate t = Ok tt /\ quadrant_coord t = mk_fqc 3 (-2) /\
            -18000 <= vertex_height example_settings (mk_fqc 3 (-2)) 4 5 <= 18000.
Proof.
  destruct (terrain_generation_correct example_settings (mk_fqc 3 (-2))) as [[_ Hex] H].
  destruct Hex as [t Ht]; [split; [split; [reflexivity|discriminate]|repeat split; vm_compute; congruence]|].
  exists t. destruct (H t Ht) as (Hv & Hc & Hh & _).
  split; [exact Ht|split; [exact Hv|split; [exact Hc|]]]. apply (Hh 4%nat 5%nat); lia.
Defined.

Definition example_contract (biome : Z) : TerrainAuthorityContractV1 :=
  {| version := 1; quadrant_coord := mk_fqc 3 (-2); quadrant_size_mm := 64000; generator_version := 1;
     recipe_seed := 5; control_grid_side := 2; biome_id := biome;
     elevation_samples_mm := [100; -200; 0; 7]; cell_flags := [3] |}.

Lemma example_contract_ok biome : is_byte biome -> terrain_fields_ok (example_contract biome).
Proof.
  intros Hb. unfold terrain_fields_ok, example_contract, coord_fields_ok, in_u, in_i, is_byte; cbn.
  rewrite !list.Forall_cons. split_goals; try lia; try done; constructor.
Qed.

Lemma canonical_bytes_exact_witness :
  encode_canonical_contract (example_contract 1) = encode_canonical_contract (example_contract 2) /\
  example_contract 1 <> example_contract 2.
Proof.
  split; [|discriminate].
  apply (canonical_bytes_exact (example_contract 1) (example_contract 2));
    [apply example_contract_ok; split; reflexivity || discriminate..|reflexivity|reflexivity|reflexivity].
Defined.
