(* ===== verification/Hydrology.v ===== *)
(** Hydrology ([crates/terrain/src/hydrology.rs]): the water field of the world,
    a function of the seed and the global lattice coordinates.  Lakes are discs,
    one at most per region of 48 by 48 vertices; rivers run along bands of 96
    columns and meander.  The source looks for water only in the neighbouring
    regions and bands; [nearby_lakes_suffice] and [nearby_rivers_suffice] show that
    this finds what a search of the whole world would find. *)

From S2P Require Import Prelude Contracts Noise Terrain.
Import Manifest.

Definition LAKE_REGION_SIDE : Z := 48.
Definition LAKE_HALF_REGION : Z := Z.quot LAKE_REGION_SIDE 2.
Definition RIVER_BAND_SPACING : Z := 96.
Definition RIVER_HALF_BAND : Z := Z.quot RIVER_BAND_SPACING 2.
Definition RIVER_ANCHOR_SPACING : Z := 32.
Definition LAKE_TAG : Z := 0x1A4E0001.
Definition RIVER_BAND_TAG : Z := 0xA17E0001.
Definition RIVER_MEANDER_TAG : Z := 0xA17E1001.
Definition LAKE_BASIN_DEPTH_MM : Z := 2000.
Definition RIVER_CHANNEL_DEPTH_MM : Z := 1000.

Record HydrologyFieldV1Settings := {
  hydro_world_seed : Z;
  hydro_generator_version : Z
}.

Inductive HydrologyKindV1 := HDry | HLake | HRiver.

Record HydrologySampleV1 := {
  hydro_kind : HydrologyKindV1;
  water_surface_mm : option Z;
  flow_hint_x : Z;
  flow_hint_y : Z
}.

Definition hydro_dry : HydrologySampleV1 :=
  {| hydro_kind := HDry; water_surface_mm := None; flow_hint_x := 0; flow_hint_y := 0 |}.
Definition hydro_lake (surface : Z) : HydrologySampleV1 :=
  {| hydro_kind := HLake; water_surface_mm := Some surface; flow_hint_x := 0; flow_hint_y := 0 |}.
Definition hydro_river (surface : Z) : HydrologySampleV1 :=
  {| hydro_kind := HRiver; water_surface_mm := Some surface; flow_hint_x := 0; flow_hint_y := 1 |}.

Inductive HydrologyFieldV1Error :=
| HydroInvalidGeneratorVersion
| HydroLatticeCoordinateOverflow (x y local_x local_y : Z)
| InvalidSamplesPerQuadrant (v : Z).

Definition hydro_validate (s : HydrologyFieldV1Settings)
  : result HydrologyFieldV1Error HydrologyFieldV1Settings :=
  if decide (hydro_generator_version s = 0) then Err HydroInvalidGeneratorVersion else Ok s.

(** ** Hashes *)

Definition hash_xy (s : HydrologyFieldV1Settings) (tag x y : Z) : Z :=
  mix_xy (Z.lxor (Z.lxor (hydro_world_seed s)
    (wrap_u 64 (Z.shiftl (hydro_generator_version s) 32))) tag) 29 x y.

Definition signed_bucket (value min max : Z) : Z :=
  let span := wrap_u 64 (i64 (i64 (max - min) + 1)) in
  i64 (min + i64 (value mod span)).

Definition saturating_i64 (x : Z) : Z := clamp_to (- 2 ^ 63) (2 ^ 63 - 1) x.

(** [for i in a..=b]. *)
Definition range_inclusive (a b : Z) : list Z := map (fun i => a + Z.of_nat i) (seq 0 (Z.to_nat (b - a + 1))).

(** ** The best candidate so far, by distance and then by hash *)

Definition key_lt (k k' : Z * Z) : bool := (k.1 <? k'.1) || ((k.1 =? k'.1) && (k.2 <? k'.2)).

(** One iteration of a search loop: [None] is [continue]. *)
Definition consider {A} (best : option (Z * Z * A)) (entry : option (Z * Z * A)) : option (Z * Z * A) :=
  match entry with
  | None => best
  | Some (d, h, c) =>
      match best with
      | None => Some (d, h, c)
      | Some (d', h', _) => if key_lt (d, h) (d', h') then Some (d, h, c) else best
      end
  end.

(** ** Lakes *)

Record LakeCandidate := {
  lake_center_x : Z;
  lake_center_y : Z;
  lake_radius : Z;
  lake_surface_mm : Z;
  lake_hash : Z
}.

Definition lake_candidate (s : HydrologyFieldV1Settings) (region_x region_y : Z) : option LakeCandidate :=
  let hash := hash_xy s LAKE_TAG region_x region_y in
  if decide (Z.land hash 3 <> 0) then None
  else
    let offset_x := signed_bucket (Z.shiftr hash 8) (-16) 16 in
    let offset_y := signed_bucket (Z.shiftr hash 16) (-16) 16 in
    let radius := 5 + (Z.shiftr hash 32) mod 7 in
    let surface := -2000 + (Z.shiftr hash 40) mod 4001 in
    mx ← checked_i 64 (region_x * LAKE_REGION_SIDE);
    hx ← checked_i 64 (mx + LAKE_HALF_REGION);
    center_x ← checked_i 64 (hx + offset_x);
    my ← checked_i 64 (region_y * LAKE_REGION_SIDE);
    hy ← checked_i 64 (my + LAKE_HALF_REGION);
    center_y ← checked_i 64 (hy + offset_y);
    Some {| lake_center_x := center_x; lake_center_y := center_y; lake_radius := radius;
            lake_surface_mm := surface; lake_hash := hash |}.

(** The body of the loop for one region. *)
Definition lake_entry (s : HydrologyFieldV1Settings) (global_x global_y : Z) (region : Z * Z)
  : option (Z * Z * LakeCandidate) :=
  candidate ← lake_candidate s region.1 region.2;
  let dx := i128 (global_x - lake_center_x candidate) in
  let dy := i128 (global_y - lake_center_y candidate) in
  let distance_sq := i128 (i128 (dx * dx) + i128 (dy * dy)) in
  let radius_sq := i128 (lake_radius candidate * lake_radius candidate) in
  if decide (distance_sq > radius_sq) then None
  else Some (distance_sq, lake_hash candidate, candidate).

Definition neighbours (i : Z) : list Z :=
  range_inclusive (saturating_i64 (i - 1)) (saturating_i64 (i + 1)).

Definition select_lake_candidate (s : HydrologyFieldV1Settings) (global_x global_y : Z)
  : option LakeCandidate :=
  let region_x := global_x / LAKE_REGION_SIDE in
  let region_y := global_y / LAKE_REGION_SIDE in
  let regions := ry ← neighbours region_y; rx ← neighbours region_x; [(rx, ry)] in
  snd <$> foldl (fun best r => consider best (lake_entry s global_x global_y r)) None regions.

(** ** Rivers *)

Record RiverCandidate := {
  river_center_x : Z;
  river_half_width : Z;
  river_surface_mm : Z;
  river_hash : Z
}.

Definition river_anchor_offset (s : HydrologyFieldV1Settings) (band_x anchor_y : Z) : Z :=
  let hash := hash_xy s (Z.lxor RIVER_MEANDER_TAG (wrap_u 64 band_x)) band_x anchor_y in
  signed_bucket (Z.shiftr hash 16) (-12) 12.

Definition river_candidate (s : HydrologyFieldV1Settings) (band_x global_y : Z) : RiverCandidate :=
  let band_hash := hash_xy s RIVER_BAND_TAG band_x 0 in
  let base_center_x := saturating_i64
    (i128 (i128 (i128 (band_x * RIVER_BAND_SPACING) + RIVER_HALF_BAND)
           + signed_bucket (Z.shiftr band_hash 8) (-16) 16)) in
  let half_width := 2 + (Z.shiftr band_hash 24) mod 3 in
  let base_surface_mm := -1500 + (Z.shiftr band_hash 32) mod 3001 in
  let anchor_y := global_y / RIVER_ANCHOR_SPACING in
  let fraction := global_y mod RIVER_ANCHOR_SPACING in
  let south_offset := river_anchor_offset s band_x anchor_y in
  let north_offset := river_anchor_offset s band_x (saturating_i64 (anchor_y + 1)) in
  let interpolated_offset :=
    Z.quot (i64 (i64 (south_offset * i64 (RIVER_ANCHOR_SPACING - fraction)) + i64 (north_offset * fraction)))
      RIVER_ANCHOR_SPACING in
  {| river_center_x := saturating_i64 (base_center_x + interpolated_offset);
     river_half_width := half_width;
     river_surface_mm := clamp_to (- 2 ^ 31) (2 ^ 31 - 1)
       (i128 (base_surface_mm - i128 (global_y * 25)));
     river_hash := band_hash |}.

Definition river_entry (s : HydrologyFieldV1Settings) (global_x global_y candidate_band : Z)
  : option (Z * Z * RiverCandidate) :=
  let candidate := river_candidate s candidate_band global_y in
  let distance := Z.abs (global_x - river_center_x candidate) in
  if decide (distance > river_half_width candidate) then None
  else Some (distance, river_hash candidate, candidate).

Definition select_river_candidate (s : HydrologyFieldV1Settings) (global_x global_y : Z)
  : option RiverCandidate :=
  let band_x := global_x / RIVER_BAND_SPACING in
  snd <$> foldl (fun best b => consider best (river_entry s global_x global_y b)) None (neighbours band_x).

(** ** Samples *)

Definition sample_hydrology_v1 (s : HydrologyFieldV1Settings) (global_x global_y : Z)
  : result HydrologyFieldV1Error HydrologySampleV1 :=
  s ← hydro_validate s;
  Ok match select_lake_candidate s global_x global_y with
     | Some lake => hydro_lake (lake_surface_mm lake)
     | None =>
         match select_river_candidate s global_x global_y with
         | Some river => hydro_river (river_surface_mm river)
         | None => hydro_dry
         end
     end.

Definition sample_hydrology_for_quadrant_local_v1 (s : HydrologyFieldV1Settings)
  (quadrant : FrontierQuadrantCoord) (local_x local_y samples_per_quadrant : Z)
  : result HydrologyFieldV1Error HydrologySampleV1 :=
  let overflow := HydroLatticeCoordinateOverflow (fx quadrant) (fy quadrant) local_x local_y in
  if decide (samples_per_quadrant <= 0) then Err (InvalidSamplesPerQuadrant samples_per_quadrant)
  else
    base_x ← ok_or overflow (checked_i 64 (fx quadrant * samples_per_quadrant));
    base_y ← ok_or overflow (checked_i 64 (fy quadrant * samples_per_quadrant));
    global_x ← ok_or overflow (checked_i 64 (base_x + local_x));
    global_y ← ok_or overflow (checked_i 64 (base_y + local_y));
    sample_hydrology_v1 s global_x global_y.

(** ** The search loop returns a least entry *)

Lemma key_lt_irrefl k : key_lt k k = false.
Proof. unfold key_lt. rewrite !Z.ltb_irrefl, andb_false_r. done. Qed.

Lemma key_lt_trans k1 k2 k3 : key_lt k1 k2 = true -> key_lt k2 k3 = true -> key_lt k1 k3 = true.
Proof.
  unfold key_lt. rewrite !orb_true_iff, !andb_true_iff, !Z.ltb_lt, !Z.eqb_eq. lia.
Qed.

Section Search.
Context {I A : Type} (entry : I -> option (Z * Z * A)).

Definition least (l : list I) (d h : Z) (c : A) : Prop :=
  (exists i, i ∈ l /\ entry i = Some (d, h, c)) /\
  (forall i d' h' c', i ∈ l -> entry i = Some (d', h', c') -> key_lt (d', h') (d, h) = false).

Lemma search_spec (l : list I) :
  match foldl (fun best i => consider best (entry i)) None l with
  | Some (d, h, c) => least l d h c
  | None => forall i, i ∈ l -> entry i = None
  end.
Proof.
  induction l as [|i l IH] using rev_ind; [cbn; set_solver|].
  rewrite foldl_snoc. set (best := foldl _ _ l) in *. unfold consider.
  destruct (entry i) as [[[d h] c]|] eqn:Ei, best as [[[d' h'] c']|].
  - destruct IH as [(j & Hj & Ej) Hmin]. destruct (key_lt (d, h) (d', h')) eqn:Hk.
    + split; [exists i; set_solver|]. intros k dk hk ck [Hk'|Hk']%elem_of_app Ek.
      * destruct (key_lt (dk, hk) (d, h)) eqn:Hc; [|done].
        pose proof (key_lt_trans _ _ _ Hc Hk). rewrite (Hmin k dk hk ck) in *; done.
      * apply list_elem_of_singleton in Hk' as ->. rewrite Ei in Ek. injection Ek as <- <- <-.
        apply key_lt_irrefl.
    + split; [exists j; set_solver|]. intros k dk hk ck [Hk'|Hk']%elem_of_app Ek; [by eapply Hmin|].
      apply list_elem_of_singleton in Hk' as ->. rewrite Ei in Ek. injection Ek as <- <- <-. done.
  - split; [exists i; set_solver|]. intros k dk hk ck [Hk'|Hk']%elem_of_app Ek.
    + by rewrite (IH k Hk') in Ek.
    + apply list_elem_of_singleton in Hk' as ->. rewrite Ei in Ek. injection Ek as <- <- <-.
      apply key_lt_irrefl.
  - destruct IH as [(j & Hj & Ej) Hmin]. split; [exists j; set_solver|].
    intros k dk hk ck [Hk'|Hk']%elem_of_app Ek; [by eapply Hmin|].
    apply list_elem_of_singleton in Hk' as ->. congruence.
  - intros k [Hk|Hk]%elem_of_app; [by apply IH|]. by apply list_elem_of_singleton in Hk as ->.
Qed.

End Search.

(** ** Ranges *)

Lemma signed_bucket_range v min max :
  0 <= v -> -100 <= min -> min <= max -> max <= 100 -> min <= signed_bucket v min max <= max.
Proof.
  intros Hv H1 H2 H3. unfold signed_bucket. cbv zeta.
  rewrite (wrap_i_small 64 (max - min)), (wrap_i_small 64 (max - min + 1)) by (lia || apply small_in_i; lia).
  rewrite wrap_u_small by (unfold in_u; lia).
  pose proof (Z.mod_pos_bound v (max - min + 1) ltac:(lia)).
  rewrite (wrap_i_small 64 (v mod _)) by (lia || apply small_in_i; lia).
  rewrite wrap_i_small by (lia || apply small_in_i; lia). lia.
Qed.

Lemma hash_xy_u s tag x y : in_u 64 (hydro_world_seed s) -> in_u 64 tag -> in_u 64 (hash_xy s tag x y).
Proof.
  intros Hs Ht. unfold hash_xy. apply mix_xy_u; [lia|].
  apply lxor_u; [lia|apply lxor_u; [lia|done|apply wrap_u_range; lia]|done].
Qed.

Lemma shiftr_nonneg h k : in_u 64 h -> 0 <= Z.shiftr h k.
Proof. intros [Hh _]. by apply Z.shiftr_nonneg. Qed.

Lemma saturating_i64_id x : in_i 64 x -> saturating_i64 x = x.
Proof. unfold saturating_i64, clamp_to, in_i. lia. Qed.

Lemma elem_of_range a b i : i ∈ range_inclusive a b <-> a <= i <= b.
Proof.
  unfold range_inclusive. rewrite list_elem_of_fmap. setoid_rewrite elem_of_seq. split.
  - intros (k & -> & Hk). lia.
  - intros Hi. exists (Z.to_nat (i - a)). lia.
Qed.

(** The world coordinates considered: away from the ends of the 64-bit range,
    where regions and bands are cut off. *)
Definition coordinate_ok (x : Z) : Prop := - 2 ^ 62 <= x <= 2 ^ 62.

Lemma elem_of_neighbours x side i :
  coordinate_ok x -> 0 < side -> i ∈ neighbours (x / side) <-> x / side - 1 <= i <= x / side + 1.
Proof.
  intros Hx Hs. unfold coordinate_ok in Hx. assert (- 2 ^ 62 <= x / side <= 2 ^ 62) as Hr.
  { split; [apply Z.div_le_lower_bound; nia|apply Z.div_le_upper_bound; nia]. }
  unfold neighbours. rewrite !saturating_i64_id by (unfold in_i; lia). apply elem_of_range.
Qed.

(** ** Lakes *)

Section Lakes.
Context (s : HydrologyFieldV1Settings) (seed_ok : in_u 64 (hydro_world_seed s)).

(** A lake and the squared distance of a vertex to its centre. *)
Definition lake_distance (l : LakeCandidate) (x y : Z) : Z :=
  (x - lake_center_x l) ^ 2 + (y - lake_center_y l) ^ 2.

Definition lake_covers (l : LakeCandidate) (x y : Z) : Prop := lake_distance l x y <= lake_radius l ^ 2.

#[local] Instance lake_covers_dec l x y : Decision (lake_covers l x y).
Proof. unfold lake_covers. apply _. Defined.

Lemma lake_candidate_range rx ry l :
  lake_candidate s rx ry = Some l ->
  rx * 48 + 8 <= lake_center_x l <= rx * 48 + 40 /\ ry * 48 + 8 <= lake_center_y l <= ry * 48 + 40 /\
  5 <= lake_radius l <= 11 /\ -2000 <= lake_surface_mm l <= 2000 /\
  in_i 64 (lake_center_x l) /\ in_i 64 (lake_center_y l).
Proof.
  unfold lake_candidate. set (h := hash_xy s LAKE_TAG rx ry).
  assert (in_u 64 h) as Hh by (apply hash_xy_u; done).
  destruct (decide _); [done|].
  pose proof (signed_bucket_range (Z.shiftr h 8) (-16) 16 (shiftr_nonneg h 8 Hh)) as Hx.
  pose proof (signed_bucket_range (Z.shiftr h 16) (-16) 16 (shiftr_nonneg h 16 Hh)) as Hy.
  set (ox := signed_bucket (Z.shiftr h 8) _ _) in *. set (oy := signed_bucket (Z.shiftr h 16) _ _) in *.
  pose proof (Z.mod_pos_bound (Z.shiftr h 32) 7). pose proof (Z.mod_pos_bound (Z.shiftr h 40) 4001).
  change LAKE_HALF_REGION with 24. change LAKE_REGION_SIDE with 48.
  intros E. repeat (apply bind_Some in E as (? & [-> ?]%checked_i_Some & E)). injection E as <-.
  cbn [lake_center_x lake_center_y lake_radius lake_surface_mm]. split_goals; done || lia.
Qed.

(** A vertex covered by a lake lies in the lake's region or a neighbour of it. *)
Lemma lake_covers_nearby rx ry l x y :
  lake_candidate s rx ry = Some l -> lake_covers l x y ->
  x / 48 - 1 <= rx <= x / 48 + 1 /\ y / 48 - 1 <= ry <= y / 48 + 1.
Proof.
  intros (Hx & Hy & Hr & _)%lake_candidate_range Hc. unfold lake_covers, lake_distance in Hc.
  assert (Z.abs (x - lake_center_x l) <= 11) by nia. assert (Z.abs (y - lake_center_y l) <= 11) by nia.
  Z.to_euclidean_division_equations. lia.
Qed.

(** The 128-bit distance test is exact in the neighbourhood. *)
Lemma lake_entry_spec x y rx ry :
  coordinate_ok x -> coordinate_ok y ->
  x / 48 - 1 <= rx <= x / 48 + 1 -> y / 48 - 1 <= ry <= y / 48 + 1 ->
  lake_entry s x y (rx, ry) =
  match lake_candidate s rx ry with
  | Some l => if decide (lake_covers l x y) then Some (lake_distance l x y, lake_hash l, l) else None
  | None => None
  end.
Proof.
  intros Hx Hy Hrx Hry. unfold lake_entry. cbn [fst snd].
  destruct (lake_candidate s rx ry) as [l|] eqn:El; [|done]. cbn [mbind option_bind].
  apply lake_candidate_range in El as (Cx & Cy & Cr & _).
  assert (-200 <= x - lake_center_x l <= 200) as Dx by (Z.to_euclidean_division_equations; lia).
  assert (-200 <= y - lake_center_y l <= 200) as Dy by (Z.to_euclidean_division_equations; lia).
  set (dx := x - lake_center_x l) in *. set (dy := y - lake_center_y l) in *. set (r := lake_radius l) in *.
  rewrite (wrap_i_small 128 dx), (wrap_i_small 128 dy) by (lia || apply small_in_i; lia).
  rewrite (wrap_i_small 128 (dx * dx)), (wrap_i_small 128 (dy * dy)), (wrap_i_small 128 (r * r))
    by (lia || apply small_in_i; nia).
  rewrite (wrap_i_small 128 (dx * dx + dy * dy)) by (lia || apply small_in_i; nia).
  assert (lake_distance l x y = dx * dx + dy * dy) as -> by (unfold lake_distance; rewrite !Z.pow_2_r; done).
  assert (lake_covers l x y <-> dx * dx + dy * dy <= r * r) as Hcov
    by (unfold lake_covers, lake_distance; rewrite !Z.pow_2_r; done).
  destruct (decide (dx * dx + dy * dy > r * r)), (decide (lake_covers l x y)); done || (rewrite Hcov in *; lia).
Qed.

(** [l] is the lake at vertex [(x, y)]: of all lakes of the world that cover it,
    one with the nearest centre, and the least hash among those. *)
Definition is_lake_at (x y : Z) (l : LakeCandidate) : Prop :=
  (exists rx ry, lake_candidate s rx ry = Some l) /\ lake_covers l x y /\
  forall rx ry l', lake_candidate s rx ry = Some l' -> lake_covers l' x y ->
    key_lt (lake_distance l' x y, lake_hash l') (lake_distance l x y, lake_hash l) = false.

Definition no_lake_at (x y : Z) : Prop :=
  forall rx ry l, lake_candidate s rx ry = Some l -> ~ lake_covers l x y.

Lemma elem_of_regions x y rx ry :
  coordinate_ok x -> coordinate_ok y ->
  (rx, ry) ∈ (ry ← neighbours (y / 48); rx ← neighbours (x / 48); [(rx, ry)]) <->
  x / 48 - 1 <= rx <= x / 48 + 1 /\ y / 48 - 1 <= ry <= y / 48 + 1.
Proof.
  intros Hx Hy. rewrite list_elem_of_bind. setoid_rewrite list_elem_of_bind.
  setoid_rewrite (elem_of_neighbours y 48); [|done|lia]. setoid_rewrite (elem_of_neighbours x 48); [|done|lia].
  split; [intros (? & (? & [= -> ->]%list_elem_of_singleton & ?) & ?); lia|].
  intros [H1 H2]. exists ry. split; [|done]. exists rx. split; [by apply list_elem_of_singleton|done].
Qed.

(** Searching the nine nearest regions finds the lake of the whole world. *)
Lemma nearby_lakes_suffice x y :
  coordinate_ok x -> coordinate_ok y ->
  match select_lake_candidate s x y with
  | Some l => is_lake_at x y l
  | None => no_lake_at x y
  end.
Proof.
  intros Hx Hy. unfold select_lake_candidate. cbv zeta. change LAKE_REGION_SIDE with 48.
  set (regions := ry ← neighbours (y / 48); _).
  pose proof (search_spec (lake_entry s x y) regions) as Hs.
  assert (forall rx ry l, lake_candidate s rx ry = Some l -> lake_covers l x y ->
    (rx, ry) ∈ regions /\ lake_entry s x y (rx, ry) = Some (lake_distance l x y, lake_hash l, l)) as Hin.
  { intros rx ry l El Hc. destruct (lake_covers_nearby _ _ _ _ _ El Hc) as [Hrx Hry].
    split; [by apply elem_of_regions|]. rewrite lake_entry_spec, El by done. by rewrite decide_True. }
  destruct (foldl _ None regions) as [[[d h] l]|]; cbn [fmap option_fmap option_map snd].
  - destruct Hs as [([rx ry] & Hr & Er) Hmin]. apply elem_of_regions in Hr as [Hrx Hry]; [|done|done].
    rewrite lake_entry_spec in Er by done. destruct (lake_candidate s rx ry) as [l'|] eqn:El; [|done].
    destruct (decide (lake_covers l' x y)) as [Hc|]; [|done]. injection Er as <- <- ->.
    split; [by exists rx, ry|split; [done|]]. intros rx' ry' l2 El2 Hc2.
    destruct (Hin _ _ _ El2 Hc2) as [Hr2 Er2]. by apply (Hmin _ _ _ _ Hr2 Er2).
  - intros rx ry l El Hc. destruct (Hin _ _ _ El Hc) as [Hr Er]. by rewrite (Hs _ Hr) in Er.
Qed.

End Lakes.

(** ** Rivers *)

Section Rivers.
Context (s : HydrologyFieldV1Settings) (seed_ok : in_u 64 (hydro_world_seed s)).

(** The bands that lie within the 64-bit range. *)
Definition band_ok (b : Z) : Prop := - 2 ^ 63 <= b * 96 /\ b * 96 + 96 < 2 ^ 63.

Definition river_covers (r : RiverCandidate) (x : Z) : Prop :=
  Z.abs (x - river_center_x r) <= river_half_width r.

Lemma river_anchor_offset_range b a : -12 <= river_anchor_offset s b a <= 12.
Proof.
  unfold river_anchor_offset. apply signed_bucket_range; [|lia..]. apply shiftr_nonneg, hash_xy_u; [done|].
  apply lxor_u; [lia|done|apply wrap_u_range; lia].
Qed.

(** The centre line stays 20 columns inside its band. *)
Lemma river_candidate_range b y :
  band_ok b ->
  b * 96 + 20 <= river_center_x (river_candidate s b y) <= b * 96 + 76 /\
  2 <= river_half_width (river_candidate s b y) <= 4.
Proof.
  intros Hb. unfold band_ok in Hb. unfold river_candidate. cbv zeta. cbn [river_center_x river_half_width].
  set (h := hash_xy s RIVER_BAND_TAG b 0). assert (in_u 64 h) as Hh by (apply hash_xy_u; done).
  change RIVER_BAND_SPACING with 96. change RIVER_HALF_BAND with 48. change RIVER_ANCHOR_SPACING with 32.
  pose proof (signed_bucket_range (Z.shiftr h 8) (-16) 16 (shiftr_nonneg h 8 Hh)) as Ho.
  set (o := signed_bucket _ _ _) in *. pose proof (Z.mod_pos_bound (Z.shiftr h 24) 3 ltac:(lia)) as Hw.
  pose proof (river_anchor_offset_range b (y / 32)) as Hs.
  pose proof (river_anchor_offset_range b (saturating_i64 (y / 32 + 1))) as Hn.
  set (so := river_anchor_offset s b (y / 32)) in *. set (no := river_anchor_offset s b (saturating_i64 (y / 32 + 1))) in *.
  pose proof (Z.mod_pos_bound y 32 ltac:(lia)) as Hf. set (f := y mod 32) in *.
  rewrite (wrap_i_small 64 (32 - f)) by (lia || apply small_in_i; lia).
  rewrite (wrap_i_small 64 (so * _)), (wrap_i_small 64 (no * f)) by (lia || apply small_in_i; nia).
  rewrite (wrap_i_small 64) by (lia || apply small_in_i; nia).
  assert (-12 <= Z.quot (so * (32 - f) + no * f) 32 <= 12) as Hi.
  { assert (-384 <= so * (32 - f) + no * f <= 384) by nia. Z.to_euclidean_division_equations. lia. }
  set (i := Z.quot _ 32) in *.
  rewrite (wrap_i_small 128 (b * 96)), (wrap_i_small 128 (b * 96 + 48)) by (lia || unfold in_i; lia).
  rewrite (wrap_i_small 128) by (lia || unfold in_i; lia).
  assert (-16 <= o <= 16) by lia.
  rewrite (saturating_i64_id (b * 96 + 48 + o)) by (unfold in_i; lia).
  rewrite saturating_i64_id by (unfold in_i; lia). lia.
Qed.

(** The river of a band covers only vertices of that band. *)
Lemma river_covers_own_band b x y :
  band_ok b -> river_covers (river_candidate s b y) x -> b = x / 96.
Proof.
  intros Hb Hc. pose proof (river_candidate_range b y Hb). unfold river_covers in Hc.
  Z.to_euclidean_division_equations. lia.
Qed.

Lemma own_bands_ok x b : coordinate_ok x -> x / 96 - 1 <= b <= x / 96 + 1 -> band_ok b.
Proof. unfold coordinate_ok, band_ok. intros. Z.to_euclidean_division_equations. lia. Qed.

(** Searching the three nearest bands finds the river of the whole world. *)
Lemma nearby_rivers_suffice x y :
  coordinate_ok x ->
  match select_river_candidate s x y with
  | Some r => r = river_candidate s (x / 96) y /\ river_covers r x
  | None => forall b, band_ok b -> ~ river_covers (river_candidate s b y) x
  end.
Proof.
  intros Hx. unfold select_river_candidate. cbv zeta. change RIVER_BAND_SPACING with 96.
  pose proof (search_spec (river_entry s x y) (neighbours (x / 96))) as Hs.
  assert (forall b r d h, river_entry s x y b = Some (d, h, r) ->
    r = river_candidate s b y /\ river_covers r x) as Hentry.
  { intros b r d h E. unfold river_entry in E. remember (river_candidate s b y) as rc eqn:Erc.
    destruct (decide _) as [|Hd]; [discriminate E|]. assert (rc = r) as -> by congruence.
    split; [reflexivity|]. unfold river_covers. lia. }
  destruct (foldl _ None _) as [[[d h] r]|]; cbn [fmap option_fmap option_map snd].
  - destruct Hs as [(b & Hb & Er) _]. apply elem_of_neighbours in Hb; [|done|lia].
    apply Hentry in Er as [-> Hc]. split; [|done].
    by rewrite <- (river_covers_own_band b x y (own_bands_ok x b Hx Hb) Hc).
  - intros b Hb Hc. pose proof (river_covers_own_band b x y Hb Hc) as ->.
    assert (river_entry s x y (x / 96) = None) as E.
    { apply Hs. apply elem_of_neighbours; [done|lia|lia]. }
    unfold river_entry in E. remember (river_candidate s (x / 96) y) as rc eqn:Erc.
    destruct (decide _) as [Hd|]; [|discriminate E]. unfold river_covers in Hc. lia.
Qed.

(** Rivers flow towards growing [y]: the surface falls 25 mm per vertex. *)
Lemma river_surface_exact b y :
  - 2 ^ 26 <= y <= 2 ^ 26 ->
  river_surface_mm (river_candidate s b y) = river_surface_mm (river_candidate s b 0) - 25 * y.
Proof.
  intros Hy. unfold river_candidate. cbv zeta. cbn [river_surface_mm].
  set (h := hash_xy s RIVER_BAND_TAG b 0). pose proof (Z.mod_pos_bound (Z.shiftr h 32) 3001 ltac:(lia)) as Hb.
  set (base := -1500 + _). assert (-1500 <= base <= 1500) as Hbase by (unfold base; lia). clearbody base.
  rewrite (wrap_i_small 128 (y * 25)), (wrap_i_small 128 (0 * 25)) by (lia || apply small_in_i; lia).
  rewrite !(wrap_i_small 128) by (lia || apply small_in_i; lia). unfold clamp_to. lia.
Qed.

End Rivers.

(** C35: at a vertex whose coordinates are at most 2^62 in magnitude, the water is what a
    search of the whole world would find, although the code looks only at the nearest
    regions and bands.  A vertex is in a lake exactly when some lake of the world covers
    it, and then takes the surface of one whose centre is nearest; else it is in a river
    exactly when the river of some band covers it; else it is dry.  For y from
    -2^26 to 2^26 - 1 a river falls 25 mm to the next vertex in the direction of its flow
    hint; beyond that nothing is said, because the code clamps the surface to 32 bits. *)
Theorem hydrology_search_exact (s : HydrologyFieldV1Settings) (x y : Z) (sample : HydrologySampleV1) :
  in_u 64 (hydro_world_seed s) -> coordinate_ok x -> coordinate_ok y ->
  sample_hydrology_v1 s x y = Ok sample ->
  match hydro_kind sample with
  | HLake => exists l, is_lake_at s x y l /\ sample = hydro_lake (lake_surface_mm l)
  | HRiver => no_lake_at s x y /\
      exists b, band_ok b /\ river_covers (river_candidate s b y) x /\
        sample = hydro_river (river_surface_mm (river_candidate s b y)) /\
        (- 2 ^ 26 <= y <= 2 ^ 26 - 1 ->
         river_surface_mm (river_candidate s b (y + 1)) = river_surface_mm (river_candidate s b y) - 25)
  | HDry => no_lake_at s x y /\ sample = hydro_dry /\
      forall b, band_ok b -> ~ river_covers (river_candidate s b y) x
  end.
Proof.
  intros Hs Hx Hy H. unfold sample_hydrology_v1 in H. apply bind_Ok in H as (s' & Hv & [= <-]).
  unfold hydro_validate in Hv. destruct (decide _); [done|]. injection Hv as <-.
  pose proof (nearby_lakes_suffice s Hs x y Hx Hy) as Hl.
  destruct (select_lake_candidate s x y) as [l|]; [by exists l|].
  pose proof (nearby_rivers_suffice s Hs x y Hx) as Hr.
  destruct (select_river_candidate s x y) as [r|]; [|done].
  destruct Hr as [-> Hc]. split; [done|]. exists (x / 96).
  split; [apply (own_bands_ok x); [done|lia]|split; [done|split; [done|]]].
  intros Hy'. rewrite (river_surface_exact s (x / 96) (y + 1)), (river_surface_exact s (x / 96) y) by lia. lia.
Qed.

Lemma hydrology_search_exact_witness :
  let s := {| hydro_world_seed := 7; hydro_generator_version := 1 |} in
  exists sample, sample_hydrology_v1 s 55 1 = Ok sample /\ hydro_kind sample = HRiver /\
    no_lake_at s 55 1 /\ exists b, river_covers (river_candidate s b 1) 55.
Proof.
  intros s. pose proof (hydrology_search_exact s 55 1) as H.
  destruct (sample_hydrology_v1 s 55 1) as [sample|e] eqn:E; [|vm_compute in E; discriminate E].
  assert (hydro_kind sample = HRiver) as Hk.
  { assert (sample_hydrology_v1 s 55 1 = Ok (hydro_river 477)) as E' by (vm_compute; reflexivity).
    rewrite E' in E. injection E as <-. reflexivity. }
  specialize (H sample ltac:(vm_compute; split; congruence) ltac:(vm_compute; split; congruence)
    ltac:(vm_compute; split; congruence) eq_refl).
  rewrite Hk in H. destruct H as (Hn & b & _ & Hc & _).
  exists sample. split; [reflexivity|split; [exact Hk|split; [exact Hn|exists b; exact Hc]]].
Defined.
