(* ===== verification/WaterSurface.v ===== *)
(** Water surfaces ([crates/terrain/src]): how the water field carves the terrain
    of a quadrant ([hydrology.rs], [apply_hydrology_to_terrain_v1]), the surface
    shown to clients ([water_surface_presentation.rs]) and the environment policy
    ([environment_presentation.rs]).  The three agree with each other and with
    those of the neighbouring quadrants. *)

From S2P Require Import Prelude Bytes Contracts Wire Presentation Noise Terrain Hydrology.
Import Manifest Presentation.Terrain Presentation.Environment Presentation.Water.

(** [for p in points { state = step(state, p)?; }] *)
Fixpoint foldM {E S P} (step : S -> P -> result E S) (st : S) (points : list P) : result E S :=
  match points with
  | [] => Ok st
  | p :: points' => st' ← step st p; foldM step st' points'
  end.

(** ** Carving water into the terrain *)

Inductive HydrologyTerrainIntegrationError :=
| IntegrationInvalidTerrain (e : TerrainAuthorityContractError)
| IntegrationVersionMismatch (terrain_version hydrology_version : Z)
| IntegrationHydrology (e : HydrologyFieldV1Error)
| InvalidIntegratedTerrain (e : TerrainAuthorityContractError).

Definition saturating_i32 (x : Z) : Z := clamp_to (- 2 ^ 31) (2 ^ 31 - 1) x.

(** The depth below the surface; [None] is [continue]. *)
Definition carve_depth (k : HydrologyKindV1) : option Z :=
  match k with
  | HLake => Some LAKE_BASIN_DEPTH_MM
  | HRiver => Some RIVER_CHANNEL_DEPTH_MM
  | HDry => None
  end.

Definition carved_ceiling (sample : HydrologySampleV1) : option Z :=
  water_surface ← water_surface_mm sample;
  depth ← carve_depth (hydro_kind sample);
  Some (saturating_i32 (water_surface - depth)).

(** The body of the vertex loop, on the elevations and the wet marks. *)
Definition carve_vertex (side : nat) (st : list Z * list bool) (p : nat * nat) (sample : HydrologySampleV1)
  : list Z * list bool :=
  match carved_ceiling sample with
  | None => st
  | Some ceiling =>
      let index := (p.2 * side + p.1)%nat in
      (<[index := Z.min (sample_at st.1 index) ceiling]> st.1, <[index := true]> st.2)
  end.

Definition local_sample (s : HydrologyFieldV1Settings) (c : FrontierQuadrantCoord) (side : nat) (p : nat * nat)
  : result HydrologyFieldV1Error HydrologySampleV1 :=
  sample_hydrology_for_quadrant_local_v1 s c (Z.of_nat p.1) (Z.of_nat p.2) (Z.of_nat side - 1).

Definition wet_at (wet : list bool) (i : nat) : bool := default false (wet !! i).

Definition any_corner (wet : nat -> bool) (side : nat) (p : nat * nat) : bool :=
  let '(i00, i10, i01, i11) := corner_indices side p.1 p.2 in
  wet i00 || wet i10 || wet i01 || wet i11.

Definition flood_cell (side : nat) (wet : list bool) (flags : list Z) (p : nat * nat) : list Z :=
  if any_corner (wet_at wet) side p
  then <[(p.2 * (side - 1) + p.1)%nat := Z.lor TERRAIN_CELL_WATER TERRAIN_CELL_BLOCKED]> flags
  else flags.

Definition with_terrain (t : TerrainAuthorityContractV1) (elevations flags : list Z)
  : TerrainAuthorityContractV1 :=
  {| version := version t; quadrant_coord := quadrant_coord t; quadrant_size_mm := quadrant_size_mm t;
     generator_version := generator_version t; recipe_seed := recipe_seed t;
     control_grid_side := control_grid_side t; biome_id := biome_id t;
     elevation_samples_mm := elevations; cell_flags := flags |}.

Definition apply_hydrology_to_terrain_v1 (s : HydrologyFieldV1Settings) (terrain : TerrainAuthorityContractV1)
  : result HydrologyTerrainIntegrationError TerrainAuthorityContractV1 :=
  _ ← map_err IntegrationInvalidTerrain (terrain_validate terrain);
  s ← map_err IntegrationHydrology (hydro_validate s);
  if decide (generator_version terrain <> hydro_generator_version s)
  then Err (IntegrationVersionMismatch (generator_version terrain) (hydro_generator_version s))
  else
    let side := Z.to_nat (control_grid_side terrain) in
    st ← foldM (fun st p =>
           sample ← map_err IntegrationHydrology (local_sample s (quadrant_coord terrain) side p);
           Ok (carve_vertex side st p sample))
         (elevation_samples_mm terrain, replicate (length (elevation_samples_mm terrain)) false)
         (grid_points side);
    let '(elevations, wet) := st in
    let flags := foldl (flood_cell side wet) (cell_flags terrain) (grid_points (side - 1)) in
    let integrated := with_terrain terrain elevations flags in
    _ ← map_err InvalidIntegratedTerrain (terrain_validate integrated);
    Ok integrated.

(** ** The water surface presentation *)

Inductive WaterSurfacePresentationGenerationError :=
| WaterInvalidTerrain (e : TerrainAuthorityContractError)
| WaterVersionMismatch (terrain_version hydrology_version : Z)
| WaterHydrology (e : HydrologyFieldV1Error)
| MissingHydrologySurface (index : Z) (kind : HydrologyKindV1)
| SurfaceBelowTerrain (index surface elevation : Z)
| TerrainWaterSemanticMismatch (index : Z) (expected_water actual_water : bool)
| WaterInvalidPresentation (e : WaterSurfacePresentationError).

Definition presentation_sample (index : Z) (h : HydrologySampleV1)
  : result WaterSurfacePresentationGenerationError WaterSurfaceSampleV1 :=
  match hydro_kind h with
  | HDry => Ok sample_dry
  | HLake =>
      surface ← ok_or (MissingHydrologySurface index HLake) (water_surface_mm h);
      Ok (sample_lake surface)
  | HRiver =>
      surface ← ok_or (MissingHydrologySurface index HRiver) (water_surface_mm h);
      Ok (sample_river surface (flow_hint_x h) (flow_hint_y h))
  end.

(** The body of the vertex loop. *)
Definition water_vertex (s : HydrologyFieldV1Settings) (terrain : TerrainAuthorityContractV1) (side : nat)
  (p : nat * nat) : result WaterSurfacePresentationGenerationError WaterSurfaceSampleV1 :=
  let index := (p.2 * side + p.1)%nat in
  hydrology ← map_err WaterHydrology (local_sample s (quadrant_coord terrain) side p);
  sample ← presentation_sample (Z.of_nat index) hydrology;
  let terrain_elevation := sample_at (elevation_samples_mm terrain) index in
  if decide (is_wet sample = true /\ sample_surface_mm sample < terrain_elevation)
  then Err (SurfaceBelowTerrain (Z.of_nat index) (sample_surface_mm sample) terrain_elevation)
  else Ok sample.

Definition wet_sample (samples : list WaterSurfaceSampleV1) (i : nat) : bool :=
  match samples !! i with Some sample => is_wet sample | None => false end.

(** The body of the cell loop. *)
Definition check_water_cell (terrain : TerrainAuthorityContractV1) (side : nat)
  (samples : list WaterSurfaceSampleV1) (p : nat * nat)
  : result WaterSurfacePresentationGenerationError unit :=
  let expected_water := any_corner (wet_sample samples) side p in
  let index := (p.2 * (side - 1) + p.1)%nat in
  let actual_water := has (sample_at (cell_flags terrain) index) TERRAIN_CELL_WATER in
  if decide (expected_water <> actual_water)
  then Err (TerrainWaterSemanticMismatch (Z.of_nat index) expected_water actual_water) else Ok tt.

Definition generate_water_surface_presentation_v1 (s : HydrologyFieldV1Settings)
  (terrain : TerrainAuthorityContractV1)
  : result WaterSurfacePresentationGenerationError WaterSurfacePresentationV1 :=
  _ ← map_err WaterInvalidTerrain (terrain_validate terrain);
  s ← map_err WaterHydrology (hydro_validate s);
  if decide (generator_version terrain <> hydro_generator_version s)
  then Err (WaterVersionMismatch (generator_version terrain) (hydro_generator_version s))
  else
    let side := Z.to_nat (control_grid_side terrain) in
    samples ← mapM (water_vertex s terrain side) (grid_points side);
    _ ← foldM (fun _ p => check_water_cell terrain side samples p) tt (grid_points (side - 1));
    let presentation := {|
      water_version := WATER_SURFACE_PRESENTATION_VERSION;
      water_quadrant_coord := quadrant_coord terrain;
      water_terrain_generator_version := generator_version terrain;
      hydrology_generator_version := hydro_generator_version s;
      water_control_grid_side := control_grid_side terrain;
      samples := samples
    |} in
    _ ← map_err WaterInvalidPresentation (water_validate presentation);
    Ok presentation.

(** ** Loops over the grid *)

Section UpdateLoop.
Context {P A : Type} (idx : P -> nat) (upd : P -> A -> option A).

(** One iteration that updates at most the cell of its point. *)
Definition update (l : list A) (p : P) : list A :=
  match l !! idx p ≫= upd p with Some a => <[idx p := a]> l | None => l end.

Lemma length_update l p : length (update l p) = length l.
Proof. unfold update. destruct (_ ≫= _); [apply length_insert|done]. Qed.

Lemma length_foldl_update ps : forall l, length (foldl update l ps) = length l.
Proof. induction ps as [|p ps IH]; intros l; cbn; [done|]. by rewrite IH, length_update. Qed.

Lemma update_ne l p i : i <> idx p -> update l p !! i = l !! i.
Proof. intros Hi. unfold update. destruct (_ ≫= _); [by apply list_lookup_insert_ne|done]. Qed.

Lemma foldl_update_ne ps i : forall l,
  i ∉ idx <$> ps -> foldl update l ps !! i = l !! i.
Proof.
  induction ps as [|p ps IH]; intros l; cbn; [done|]. rewrite not_elem_of_cons. intros [Hne Hni].
  by rewrite IH, update_ne.
Qed.

(** A property of the cells that every update establishes. *)
Lemma foldl_update_Forall (Q : A -> Prop) ps : forall l i a,
  Forall Q l -> (forall p a b, Q a -> upd p a = Some b -> Q b) ->
  foldl update l ps !! i = Some a -> Q a.
Proof.
  induction ps as [|p ps IH]; intros l i a Hl HQ; cbn; [intros; by eapply Forall_lookup_1|].
  apply IH; [|done]. unfold update. destruct (l !! idx p) as [b|] eqn:E; cbn; [|done].
  destruct (upd p b) as [b'|] eqn:Eu; [|done]. apply Forall_insert; [done|].
  eapply HQ, Eu. by eapply Forall_lookup_1.
Qed.

(** A loop whose points have distinct cells updates each cell once. *)
Lemma foldl_update_eq ps p : forall l a,
  NoDup (idx <$> ps) -> p ∈ ps -> l !! idx p = Some a ->
  foldl update l ps !! idx p = Some (default a (upd p a)).
Proof.
  induction ps as [|q ps IH]; intros l a; cbn; [set_solver|].
  rewrite list.NoDup_cons. intros [Hq Hnd] [->|Hp]%elem_of_cons Ha.
  - rewrite foldl_update_ne by done. unfold update. rewrite Ha. cbn.
    destruct (upd q a); cbn; [|done]. apply list_lookup_insert_eq. by apply lookup_lt_Some in Ha.
  - apply IH; [done|done|]. rewrite update_ne; [done|].
    intros E. apply Hq. rewrite <- E. by apply list_elem_of_fmap_2.
Qed.

End UpdateLoop.

Definition grid_index (side : nat) (p : nat * nat) : nat := (p.2 * side + p.1)%nat.

Lemma grid_index_inj side p q :
  p ∈ grid_points side -> q ∈ grid_points side -> grid_index side p = grid_index side q -> p = q.
Proof.
  destruct p as [x y], q as [x' y']. rewrite !elem_of_grid_points. unfold grid_index; cbn.
  intros [Hx Hy] [Hx' Hy'] E. assert (y = y') as -> by nia. f_equal. lia.
Qed.

Lemma NoDup_grid_index side : NoDup (grid_index side <$> grid_points side).
Proof.
  apply NoDup_alt. intros i j a. rewrite !list_lookup_fmap.
  assert (forall k q, grid_points side !! k = Some q -> k = grid_index side q) as Hk.
  { intros k q Hq. pose proof (lookup_lt_Some _ _ _ Hq) as Hlt. rewrite length_grid_points in Hlt.
    assert (side <> 0)%nat by (intros ->; lia).
    pose proof (Nat.div_mod_eq k side) as Ek.
    assert (grid_points side !! (k / side * side + k mod side)%nat = Some ((k mod side)%nat, (k / side)%nat)) as E.
    { apply grid_points_lookup; [by apply Nat.mod_upper_bound|by apply Nat.Div0.div_lt_upper_bound]. }
    replace (k / side * side + k mod side)%nat with k in E by lia. rewrite Hq in E. injection E as ->.
    unfold grid_index; cbn. lia. }
  destruct (grid_points side !! i) as [p|] eqn:Ei; [|done].
  destruct (grid_points side !! j) as [q|] eqn:Ej; [|done].
  cbn. intros [= <-] [= E]. by rewrite (Hk _ _ Ei), (Hk _ _ Ej).
Qed.

(** A loop over the grid that updates the cells of its points. *)
Lemma grid_update_lookup {A} side upd (l : list A) x y a :
  (x < side)%nat -> (y < side)%nat -> l !! (y * side + x)%nat = Some a ->
  foldl (update (grid_index side) upd) l (grid_points side) !! (y * side + x)%nat =
  Some (default a (upd (x, y) a)).
Proof.
  intros Hx Hy. apply (foldl_update_eq (grid_index side) upd (grid_points side) (x, y));
    [apply NoDup_grid_index|by apply elem_of_grid_points].
Qed.

(** ** Fallible loops *)

Lemma foldM_Ok {E S P Y} (get : P -> result E Y) (step : S -> P -> Y -> S) ps : forall st st',
  foldM (fun st p => y ← get p; Ok (step st p y)) st ps = Ok st' <->
  exists ys, mapM get ps = Ok ys /\ st' = foldl (fun st '(p, y) => step st p y) st (zip ps ys).
Proof.
  induction ps as [|p ps IH]; intros st st'; cbn [foldM mapM].
  { split; [intros [= <-]; by exists []|by intros (ys & [= <-] & ->)]. }
  destruct (get p) as [y|e]; cbn [mbind result_bind]; [|naive_solver].
  rewrite IH. split.
  - intros (ys & Hys & ->). rewrite Hys. by exists (y :: ys).
  - intros (ys & H & ->). apply bind_Ok in H as (ys' & Hys & [= <-]). by exists ys'.
Qed.

Lemma foldM_checks {E P} (check : P -> result E unit) ps :
  foldM (fun _ p => check p) tt ps = Ok tt <-> forall p, p ∈ ps -> check p = Ok tt.
Proof.
  induction ps as [|p ps IH]; cbn; [set_solver|].
  destruct (check p) as [[]|] eqn:Hp; cbn.
  - rewrite IH. split; [|intros H q Hq; apply H; by right].
    intros H q [->|Hq]%elem_of_cons; [done|by apply H].
  - split; [done|]. intros H. rewrite <- Hp. apply H. by left.
Qed.

(** ** The water of a vertex *)

Definition water_at (s : HydrologyFieldV1Settings) (x y : Z) : HydrologySampleV1 :=
  match sample_hydrology_v1 s x y with Ok w => w | Err _ => hydro_dry end.

(** Vertex [p] of quadrant [c] in a grid of [side] vertices, in the world. *)
Definition global_vertex (c : FrontierQuadrantCoord) (side : nat) (p : nat * nat) : Z * Z :=
  let cells := Z.of_nat side - 1 in (fx c * cells + Z.of_nat p.1, fy c * cells + Z.of_nat p.2).

Definition vertex_water (s : HydrologyFieldV1Settings) (c : FrontierQuadrantCoord) (side : nat) (p : nat * nat)
  : HydrologySampleV1 :=
  let g := global_vertex c side p in water_at s g.1 g.2.

(** Every vertex of the quadrant has 64-bit coordinates. *)
Definition vertices_in_range (c : FrontierQuadrantCoord) (side : nat) : Prop :=
  let cells := Z.of_nat side - 1 in
  in_i 64 (fx c * cells) /\ in_i 64 (fx c * cells + cells) /\
  in_i 64 (fy c * cells) /\ in_i 64 (fy c * cells + cells).

#[global] Instance vertices_in_range_dec c side : Decision (vertices_in_range c side).
Proof. unfold vertices_in_range. apply _. Defined.

Lemma hydro_validate_Ok s s' : hydro_validate s = Ok s' <-> s' = s /\ hydro_generator_version s <> 0.
Proof. unfold hydro_validate. case_decide; naive_solver. Qed.

Lemma local_sample_Ok s c side p w :
  hydro_generator_version s <> 0 -> (2 <= side)%nat ->
  local_sample s c side p = Ok w <->
  in_i 64 (fx c * (Z.of_nat side - 1)) /\ in_i 64 (fy c * (Z.of_nat side - 1)) /\
  in_i 64 (global_vertex c side p).1 /\ in_i 64 (global_vertex c side p).2 /\ w = vertex_water s c side p.
Proof.
  intros Hg Hside. unfold local_sample, sample_hydrology_for_quadrant_local_v1. cbv zeta.
  rewrite decide_False by lia. cbn [global_vertex fst snd]. split.
  - intros H. apply bind_Ok in H as (bx & [-> Hbx]%ok_or_Ok%checked_i_Some & H).
    apply bind_Ok in H as (by_ & [-> Hby]%ok_or_Ok%checked_i_Some & H).
    apply bind_Ok in H as (gx & [-> Hgx]%ok_or_Ok%checked_i_Some & H).
    apply bind_Ok in H as (gy & [-> Hgy]%ok_or_Ok%checked_i_Some & H).
    split_goals; try done. unfold vertex_water, water_at. cbn [global_vertex fst snd]. by rewrite H.
  - intros (Hbx & Hby & Hgx & Hgy & ->). rewrite !checked_i_in by done. cbn [ok_or mbind result_bind].
    rewrite checked_i_in by done. cbn [ok_or mbind result_bind].
    rewrite checked_i_in by done. cbn [ok_or mbind result_bind].
    unfold vertex_water, water_at. cbn [global_vertex fst snd].
    unfold sample_hydrology_v1. by rewrite (proj2 (hydro_validate_Ok s s) (conj eq_refl Hg)).
Qed.

Lemma in_range_between a cells k : in_i 64 a -> in_i 64 (a + cells) -> 0 <= k <= cells -> in_i 64 (a + k).
Proof. unfold in_i. lia. Qed.

Lemma local_sample_in_range s c side p :
  hydro_generator_version s <> 0 -> (2 <= side)%nat -> vertices_in_range c side ->
  p ∈ grid_points side -> local_sample s c side p = Ok (vertex_water s c side p).
Proof.
  destruct p as [x y]. intros Hg Hside (Hx & Hx' & Hy & Hy') [Hpx Hpy]%elem_of_grid_points.
  apply local_sample_Ok; [done..|]. cbn [global_vertex fst snd].
  split_goals; try done; eapply in_range_between; done || lia.
Qed.

Lemma vertices_sampled s c side ws :
  hydro_generator_version s <> 0 -> (2 <= side)%nat ->
  mapM (local_sample s c side) (grid_points side) = Ok ws <->
  vertices_in_range c side /\ ws = map (vertex_water s c side) (grid_points side).
Proof.
  intros Hg Hside. split.
  - intros H. assert (vertices_in_range c side) as Hr.
    { destruct (mapM_grid _ _ _ (side - 1) (side - 1) H ltac:(lia) ltac:(lia)) as (w & Hw & _).
      apply local_sample_Ok in Hw as (Hx & Hy & Hgx & Hgy & _); [|done..]. cbn [global_vertex fst snd] in *.
      unfold vertices_in_range. rewrite Nat2Z.inj_sub in Hgx, Hgy by lia. done. }
    split; [done|]. apply mapM_Ok in H.
    induction H as [|p w ps ws Hw _ IH]; [done|]. cbn. f_equal; [|done].
    by apply local_sample_Ok in Hw as (_ & _ & _ & _ & ->).
  - intros [Hr ->]. apply mapM_Ok, Forall2_fmap_r, Forall_Forall2_diag, list.Forall_forall.
    intros p Hp. by apply local_sample_in_range.
Qed.

(** Every wet sample has a surface in the 32-bit range. *)
Lemma lake_candidate_surface s rx ry l :
  lake_candidate s rx ry = Some l -> -2000 <= lake_surface_mm l <= 2000.
Proof.
  unfold lake_candidate. destruct (decide _); [done|]. intros H.
  repeat (apply bind_Some in H as (? & _ & H)). injection H as <-. cbn [lake_surface_mm].
  match goal with |- context [?a mod 4001] => pose proof (Z.mod_pos_bound a 4001 ltac:(lia)) end. lia.
Qed.

Lemma select_lake_surface s x y l :
  select_lake_candidate s x y = Some l -> -2000 <= lake_surface_mm l <= 2000.
Proof.
  unfold select_lake_candidate. cbv zeta. set (regions := ry ← _; _).
  pose proof (search_spec (lake_entry s x y) regions) as Hs. destruct (foldl _ _ regions) as [[[d h] l']|]; [|done].
  destruct Hs as [([rx ry] & _ & He) _]. cbn. intros [= <-].
  unfold lake_entry in He. apply bind_Some in He as (l & Hl & He). cbv zeta in He.
  destruct (decide _); [done|]. injection He as _ _ <-. by eapply lake_candidate_surface.
Qed.

Lemma river_entry_candidate s x y b d h r :
  river_entry s x y b = Some (d, h, r) -> r = river_candidate s b y.
Proof.
  unfold river_entry. cbv zeta. remember (river_candidate s b y) as r' eqn:E. clear E.
  destruct (decide _); [done|]. by intros [= _ _ <-].
Qed.

Lemma water_surface_in_range s x y :
  match hydro_kind (water_at s x y) with
  | HDry => water_at s x y = hydro_dry
  | HLake => exists w, in_i 32 w /\ water_at s x y = hydro_lake w
  | HRiver => exists w, in_i 32 w /\ water_at s x y = hydro_river w
  end.
Proof.
  unfold water_at, sample_hydrology_v1. destruct (hydro_validate s); [|done]. cbn [mbind result_bind].
  destruct (select_lake_candidate _ x y) as [l|] eqn:El; cbn [hydro_kind hydro_lake].
  { exists (lake_surface_mm l). split; [|done]. apply select_lake_surface in El. unfold in_i; lia. }
  unfold select_river_candidate. cbv zeta. set (bands := neighbours _).
  pose proof (search_spec (river_entry a x y) bands) as Hs. destruct (foldl _ _ bands) as [[[d h] r]|]; [|done].
  destruct Hs as [(b & _ & ->%river_entry_candidate) _]. cbn [fmap option_fmap option_map snd hydro_kind hydro_river].
  eexists. split; [|done]. unfold river_candidate. cbv zeta. cbn [river_surface_mm].
  unfold clamp_to, in_i. lia.
Qed.

(** ** What carving does *)

Definition carve_elevation (w : HydrologySampleV1) (e : Z) : option Z := Z.min e <$> carved_ceiling w.
Definition mark_wet (w : HydrologySampleV1) (_ : bool) : option bool := const true <$> carved_ceiling w.

Lemma carve_loop side (W : nat * nat -> HydrologySampleV1) ps : forall elevations wet,
  foldl (fun st '(p, w) => carve_vertex side st p w) (elevations, wet) (zip ps (map W ps)) =
  (foldl (update (grid_index side) (fun p => carve_elevation (W p))) elevations ps,
   foldl (update (grid_index side) (fun p => mark_wet (W p))) wet ps).
Proof.
  induction ps as [|p ps IH]; intros elevations wet; [done|]. cbn [map zip_with zip foldl].
  assert (carve_vertex side (elevations, wet) p (W p) =
    (update (grid_index side) (fun p => carve_elevation (W p)) elevations p,
     update (grid_index side) (fun p => mark_wet (W p)) wet p)) as ->; [|apply IH].
  unfold carve_vertex, update, carve_elevation, mark_wet. fold (grid_index side p). cbn [fst snd].
  unfold sample_at. destruct (carved_ceiling (W p)); cbn.
  - f_equal.
    + destruct (elevations !! grid_index side p) eqn:E; cbn; [done|]. by apply list_insert_ge, lookup_ge_None.
    + destruct (wet !! grid_index side p) eqn:E; cbn; [done|]. by apply list_insert_ge, lookup_ge_None.
  - by destruct (elevations !! _), (wet !! _).
Qed.

Definition flooded (wet : list bool) (side : nat) (flags : list Z) : list Z :=
  foldl (flood_cell side wet) flags (grid_points (side - 1)).

Definition flood_flags (wet : list bool) (side : nat) (p : nat * nat) (_ : Z) : option Z :=
  if any_corner (wet_at wet) side p then Some (Z.lor TERRAIN_CELL_WATER TERRAIN_CELL_BLOCKED) else None.

Lemma flood_loop wet side ps : forall flags,
  foldl (flood_cell side wet) flags ps =
  foldl (update (grid_index (side - 1)) (flood_flags wet side)) flags ps.
Proof.
  induction ps as [|p ps IH]; intros flags; [done|]. cbn [foldl]. rewrite IH. f_equal.
  unfold flood_cell, update, flood_flags. fold (grid_index (side - 1) p).
  destruct (any_corner _ side p), (flags !! grid_index (side - 1) p) eqn:E; cbn; try done.
  by apply list_insert_ge, lookup_ge_None.
Qed.

Definition side_of (t : TerrainAuthorityContractV1) : nat := Z.to_nat (control_grid_side t).

(** The terrain after carving. *)
Definition carved (s : HydrologyFieldV1Settings) (t : TerrainAuthorityContractV1) : TerrainAuthorityContractV1 :=
  let side := side_of t in
  let W := vertex_water s (quadrant_coord t) side in
  let wet := foldl (update (grid_index side) (fun p => mark_wet (W p)))
               (replicate (length (elevation_samples_mm t)) false) (grid_points side) in
  with_terrain t
    (foldl (update (grid_index side) (fun p => carve_elevation (W p))) (elevation_samples_mm t) (grid_points side))
    (foldl (update (grid_index (side - 1)) (flood_flags wet side)) (cell_flags t) (grid_points (side - 1))).

Definition hydro_wet (w : HydrologySampleV1) : bool :=
  match hydro_kind w with HDry => false | _ => true end.

Lemma ceiling_spec s c side p :
  let w := vertex_water s c side p in
  if hydro_wet w
  then exists surface ceiling, water_surface_mm w = Some surface /\ in_i 32 surface /\
         carved_ceiling w = Some ceiling /\ ceiling <= surface
  else w = hydro_dry /\ carved_ceiling w = None.
Proof.
  intros w. subst w. unfold vertex_water. cbv zeta.
  pose proof (water_surface_in_range s (global_vertex c side p).1 (global_vertex c side p).2) as H.
  revert H. generalize (water_at s (global_vertex c side p).1 (global_vertex c side p).2) as w. intros w.
  unfold hydro_wet. destruct (hydro_kind w) eqn:E; [by intros ->| |]; intros (surface & Hs & ->);
    (exists surface; eexists; split_goals; [done|done|reflexivity|]; unfold saturating_i32, clamp_to,
       LAKE_BASIN_DEPTH_MM, RIVER_CHANNEL_DEPTH_MM, in_i in *; lia).
Qed.

(** The water of the four corners of a cell. *)
Definition cell_wet (s : HydrologyFieldV1Settings) (t : TerrainAuthorityContractV1) (x y : nat) : bool :=
  let wet p := hydro_wet (vertex_water s (quadrant_coord t) (side_of t) p) in
  wet (x, y) || wet (S x, y) || wet (x, S y) || wet (S x, S y).

(** [f] on the four corners of a cell, when it is known on every vertex. *)
Lemma any_corner_grid (f : nat -> bool) (g : nat * nat -> bool) side x y :
  (forall x y, (x < side)%nat -> (y < side)%nat -> f (y * side + x)%nat = g (x, y)) ->
  (x < side - 1)%nat -> (y < side - 1)%nat ->
  any_corner f side (x, y) = g (x, y) || g (S x, y) || g (x, S y) || g (S x, S y).
Proof.
  intros H Hx Hy. unfold any_corner, corner_indices. cbn [fst snd].
  replace (y * side + x + 1)%nat with (y * side + S x)%nat by lia.
  replace (y * side + x + side + 1)%nat with (S y * side + S x)%nat by lia.
  replace (y * side + x + side)%nat with (S y * side + x)%nat by lia.
  by rewrite !H by lia.
Qed.

Section Carved.
Context (s : HydrologyFieldV1Settings) (t : TerrainAuthorityContractV1).
Context (Hvalid : terrain_validate t = Ok tt).
Let side : nat := side_of t.
Let W (p : nat * nat) : HydrologySampleV1 := vertex_water s (quadrant_coord t) side p.

Lemma side_facts :
  (2 <= side <= 65)%nat /\ control_grid_side t = Z.of_nat side /\
  length (elevation_samples_mm t) = (side * side)%nat /\
  length (cell_flags t) = ((side - 1) * (side - 1))%nat.
Proof.
  apply terrain_validate_Ok in Hvalid as (_ & _ & _ & Hs & He & Hc & _). unfold side, side_of, len in *. nia.
Qed.

Lemma carved_elevation x y e :
  (x < side)%nat -> (y < side)%nat -> elevation_samples_mm t !! (y * side + x)%nat = Some e ->
  elevation_samples_mm (carved s t) !! (y * side + x)%nat = Some (default e (carve_elevation (W (x, y)) e)).
Proof. intros Hx Hy He. unfold carved; cbn [elevation_samples_mm with_terrain]. by apply grid_update_lookup. Qed.

Definition wet_marks : list bool :=
  foldl (update (grid_index side) (fun p => mark_wet (W p)))
    (replicate (length (elevation_samples_mm t)) false) (grid_points side).

Lemma wet_marks_spec x y :
  (x < side)%nat -> (y < side)%nat -> wet_at wet_marks (y * side + x)%nat = hydro_wet (W (x, y)).
Proof.
  destruct side_facts as (_ & _ & Hl & _). intros Hx Hy. unfold wet_at, wet_marks.
  rewrite (grid_update_lookup _ _ _ _ _ false); [|done..|].
  2: { rewrite Hl. apply lookup_replicate_2. nia. }
  cbn [default]. unfold mark_wet. pose proof (ceiling_spec s (quadrant_coord t) side (x, y)) as H.
  cbv zeta in H. fold (W (x, y)) in H. destruct (hydro_wet (W (x, y))).
  - destruct H as (? & ? & _ & _ & -> & _). done.
  - by destruct H as [_ ->].
Qed.

Lemma carved_flags x y f :
  (x < side - 1)%nat -> (y < side - 1)%nat -> cell_flags t !! (y * (side - 1) + x)%nat = Some f ->
  cell_flags (carved s t) !! (y * (side - 1) + x)%nat =
  Some (if cell_wet s t x y then Z.lor TERRAIN_CELL_WATER TERRAIN_CELL_BLOCKED else f).
Proof.
  intros Hx Hy Hf. unfold carved; cbn [cell_flags with_terrain]. fold side.
  change (foldl _ (replicate _ false) (grid_points side)) with wet_marks.
  rewrite (grid_update_lookup _ _ _ _ _ f) by done. f_equal. unfold flood_flags.
  rewrite (any_corner_grid _ (fun p => hydro_wet (W p))) by (done || apply wet_marks_spec).
  unfold cell_wet. fold side. change (vertex_water s (quadrant_coord t) side) with W.
  generalize (hydro_wet (W (x, y)) || hydro_wet (W (S x, y)) || hydro_wet (W (x, S y)) || hydro_wet (W (S x, S y))).
  by intros [].
Qed.

Lemma carved_valid : terrain_validate (carved s t) = Ok tt.
Proof.
  apply terrain_validate_Ok. destruct side_facts as (_ & _ & He & Hc).
  apply terrain_validate_Ok in Hvalid as (Hv & Hs & Hg & Hside & Hle & Hlc & Hf).
  unfold carved; cbn [version quadrant_size_mm generator_version control_grid_side elevation_samples_mm
    cell_flags with_terrain]. unfold len in *. rewrite !length_foldl_update. split_goals; try (done || lia).
  apply list.Forall_forall. intros f (i & Hi)%list_elem_of_lookup_1.
  apply (foldl_update_Forall _ _ cell_ok) in Hi; [done|done|].
  intros p a b Ha. unfold flood_flags. destruct (any_corner _ _ _); [|done]. intros [= <-]. by vm_compute.
Qed.
End Carved.

Lemma mapM_map_err {E F A B} (h : E -> F) (f : A -> result E B) l k :
  mapM (fun a => map_err h (f a)) l = Ok k <-> mapM f l = Ok k.
Proof. rewrite !mapM_Ok. split; intros H; induction H; constructor; try done; by apply map_err_Ok in H || apply map_err_Ok. Qed.

Lemma carve_foldM s c side elevations wet st' :
  hydro_generator_version s <> 0 -> (2 <= side)%nat ->
  foldM (fun st p => sample ← map_err IntegrationHydrology (local_sample s c side p);
                     Ok (carve_vertex side st p sample)) (elevations, wet) (grid_points side) = Ok st' <->
  vertices_in_range c side /\
  st' = (foldl (update (grid_index side) (fun p => carve_elevation (vertex_water s c side p)))
           elevations (grid_points side),
         foldl (update (grid_index side) (fun p => mark_wet (vertex_water s c side p))) wet (grid_points side)).
Proof.
  intros Hg Hside.
  rewrite (foldM_Ok (fun p => map_err IntegrationHydrology (local_sample s c side p))
             (fun st p w => carve_vertex side st p w)).
  rewrite <- carve_loop. setoid_rewrite mapM_map_err. setoid_rewrite vertices_sampled; [|done..].
  naive_solver.
Qed.

(** Carving succeeds exactly on valid terrain of the same generator version
    with vertices in range; the integrated contract is then always valid. *)
Lemma apply_hydrology_Ok s t t' :
  apply_hydrology_to_terrain_v1 s t = Ok t' <->
  terrain_validate t = Ok tt /\ hydro_generator_version s <> 0 /\
  generator_version t = hydro_generator_version s /\
  vertices_in_range (quadrant_coord t) (side_of t) /\ t' = carved s t.
Proof.
  unfold apply_hydrology_to_terrain_v1. fold (side_of t).
  destruct (terrain_validate t) as [[]|] eqn:Hv; [|naive_solver]. cbn [map_err mbind result_bind].
  destruct (hydro_validate s) as [s'|] eqn:Hs.
  2: { split; [done|]. intros (_ & Hg & _). unfold hydro_validate in Hs. by rewrite decide_False in Hs. }
  apply hydro_validate_Ok in Hs as [-> Hg]. cbn [map_err mbind result_bind].
  destruct (decide _) as [Hne|Heq]; [naive_solver|apply dec_stable in Heq].
  pose proof (side_facts t Hv) as ((Hside & _) & _). cbv zeta. split.
  - intros H. apply bind_Ok in H as (st & [Hr ->]%carve_foldM & H); [|done..].
    rewrite flood_loop in H. fold (carved s t) in H. by apply bind_Ok in H as (_ & _ & [= <-]).
  - intros (_ & _ & _ & Hr & ->).
    rewrite (proj2 (carve_foldM s _ _ _ _ _ Hg Hside) (conj Hr eq_refl)).
    cbn [mbind result_bind]. rewrite flood_loop. fold (carved s t). by rewrite carved_valid.
Qed.

(** ** What the presentation shows *)

(** The sample shown for the water of a vertex. *)
Definition shown (w : HydrologySampleV1) : WaterSurfaceSampleV1 :=
  let surface := default 0 (water_surface_mm w) in
  match hydro_kind w with
  | HDry => sample_dry
  | HLake => sample_lake surface
  | HRiver => sample_river surface (flow_hint_x w) (flow_hint_y w)
  end.

Definition shown_surface (s : HydrologyFieldV1Settings) (t : TerrainAuthorityContractV1)
  : WaterSurfacePresentationV1 := {|
    water_version := WATER_SURFACE_PRESENTATION_VERSION;
    water_quadrant_coord := quadrant_coord t;
    water_terrain_generator_version := generator_version t;
    hydrology_generator_version := hydro_generator_version s;
    water_control_grid_side := control_grid_side t;
    samples := map (fun p => shown (vertex_water s (quadrant_coord t) (side_of t) p)) (grid_points (side_of t))
  |}.

(** The terrain is nowhere above the water, and the water cells are marked. *)
Definition terrain_matches (s : HydrologyFieldV1Settings) (t : TerrainAuthorityContractV1) : Prop :=
  let side := side_of t in
  (forall x y e surface, (x < side)%nat -> (y < side)%nat ->
     elevation_samples_mm t !! (y * side + x)%nat = Some e ->
     water_surface_mm (vertex_water s (quadrant_coord t) side (x, y)) = Some surface -> e <= surface) /\
  (forall x y f, (x < side - 1)%nat -> (y < side - 1)%nat ->
     cell_flags t !! (y * (side - 1) + x)%nat = Some f -> has f TERRAIN_CELL_WATER = cell_wet s t x y).

Lemma is_wet_shown w : is_wet (shown w) = hydro_wet w.
Proof. unfold is_wet, shown, hydro_wet. by destruct (hydro_kind w). Qed.

Lemma presentation_sample_Ok s c side p i :
  presentation_sample i (vertex_water s c side p) = Ok (shown (vertex_water s c side p)).
Proof.
  pose proof (ceiling_spec s c side p) as H. cbv zeta in H. revert H.
  generalize (vertex_water s c side p) as w. intros w. unfold presentation_sample, shown, hydro_wet.
  destruct (hydro_kind w); [done| |]; by intros (surface & ? & -> & _).
Qed.

Lemma Forall2_is_map {A B} (R : A -> B -> Prop) (f : A -> B) l k :
  Forall2 R l k -> (forall a b, a ∈ l -> R a b -> b = f a) -> k = map f l.
Proof.
  induction 1 as [|a b l k Hab _ IH]; intros H; [done|]. cbn. f_equal; [apply H; [by left|done]|].
  apply IH. intros a' b' Ha'. apply H. by right.
Qed.

Section Shown.
Context (s : HydrologyFieldV1Settings) (t : TerrainAuthorityContractV1).
Context (Hvalid : terrain_validate t = Ok tt) (Hg : hydro_generator_version s <> 0).
Let side : nat := side_of t.
Let W (p : nat * nat) : HydrologySampleV1 := vertex_water s (quadrant_coord t) side p.

Lemma water_vertex_Ok p sample :
  vertices_in_range (quadrant_coord t) side -> p ∈ grid_points side ->
  water_vertex s t side p = Ok sample <->
  sample = shown (W p) /\
  forall surface, water_surface_mm (W p) = Some surface ->
    sample_at (elevation_samples_mm t) (grid_index side p) <= surface.
Proof.
  destruct (side_facts t Hvalid) as ((Hside & _) & _).
  intros Hr Hp. unfold water_vertex. cbv zeta. fold (grid_index side p).
  rewrite local_sample_in_range by done. cbn [map_err mbind result_bind].
  rewrite presentation_sample_Ok. cbn [mbind result_bind]. fold (W p). rewrite is_wet_shown.
  pose proof (ceiling_spec s (quadrant_coord t) side p) as H. cbv zeta in H. fold (W p) in H.
  destruct (hydro_wet (W p)) eqn:Hw.
  - destruct H as (surface & _ & Hs & _). rewrite Hs.
    assert (sample_surface_mm (shown (W p)) = surface) as ->.
    { unfold shown, hydro_wet in *. rewrite Hs. by destruct (hydro_kind (W p)). }
    destruct (decide _) as [[_ Hlt]|Hge].
    + split; [done|]. intros [_ Hle]. specialize (Hle _ eq_refl). lia.
    + split; [intros [= <-]; split; [done|intros ? [= <-]; lia]|by intros [-> _]].
  - rewrite decide_False by naive_solver. destruct H as [-> _].
    split; [intros [= <-]; split; done|by intros [-> _]].
Qed.

Lemma water_vertices_Ok samples :
  mapM (water_vertex s t side) (grid_points side) = Ok samples <->
  vertices_in_range (quadrant_coord t) side /\ samples = map (fun p => shown (W p)) (grid_points side) /\
  forall x y e surface, (x < side)%nat -> (y < side)%nat ->
    elevation_samples_mm t !! (y * side + x)%nat = Some e ->
    water_surface_mm (W (x, y)) = Some surface -> e <= surface.
Proof.
  destruct (side_facts t Hvalid) as ((Hside & _) & _ & He & _). fold side in Hside, He. split.
  - intros H. assert (vertices_in_range (quadrant_coord t) side) as Hr.
    { apply (proj1 (vertices_sampled s (quadrant_coord t) side (map W (grid_points side)) Hg Hside)).
      apply mapM_Ok in H. apply mapM_Ok, Forall2_fmap_r.
      apply Forall_Forall2_diag, list.Forall_forall. intros p Hp.
      destruct (proj1 (list_elem_of_lookup _ _) Hp) as [i Hi].
      destruct (Forall2_lookup_l _ _ _ _ _ H Hi) as (a & _ & Ha).
      unfold water_vertex in Ha. apply bind_Ok in Ha as (w & Hw%map_err_Ok & _).
      rewrite Hw. by apply local_sample_Ok in Hw as (_ & _ & _ & _ & ->). }
    split; [done|]. apply mapM_Ok in H. split.
    + apply (Forall2_is_map _ _ _ _ H). intros p a Hp Ha. by apply water_vertex_Ok in Ha as [-> _].
    + intros x y e surface Hx Hy He' Hs.
      destruct (Forall2_lookup_l _ _ _ _ _ H (grid_points_lookup side x y Hx Hy)) as (a & _ & Ha).
      apply water_vertex_Ok in Ha as [_ Ha]; [|done|by apply elem_of_grid_points].
      specialize (Ha _ Hs). unfold grid_index, sample_at in Ha; cbn in Ha. by rewrite He' in Ha.
  - intros (Hr & -> & Hle). apply mapM_Ok, Forall2_fmap_r, Forall_Forall2_diag, list.Forall_forall.
    intros [x y] Hp. apply water_vertex_Ok; [done..|]. split; [done|]. intros surface Hs.
    apply elem_of_grid_points in Hp as [Hx Hy]. unfold sample_at, grid_index; cbn.
    destruct (lookup_lt_is_Some_2 (elevation_samples_mm t) (y * side + x)%nat) as [e E].
    { rewrite He. nia. }
    rewrite E. exact (Hle x y e surface Hx Hy E Hs).
Qed.
End Shown.

Lemma water_cells_Ok s t :
  terrain_validate t = Ok tt ->
  let side := side_of t in
  foldM (fun _ p => check_water_cell t side
           (map (fun p => shown (vertex_water s (quadrant_coord t) side p)) (grid_points side)) p)
    tt (grid_points (side - 1)) = Ok tt <->
  forall x y f, (x < side - 1)%nat -> (y < side - 1)%nat ->
    cell_flags t !! (y * (side - 1) + x)%nat = Some f -> has f TERRAIN_CELL_WATER = cell_wet s t x y.
Proof.
  intros Hv side. destruct (side_facts t Hv) as (_ & _ & _ & Hc). fold side in Hc.
  rewrite foldM_checks. set (samples := map _ (grid_points side)).
  assert (forall x y, (x < side)%nat -> (y < side)%nat ->
    wet_sample samples (y * side + x)%nat = hydro_wet (vertex_water s (quadrant_coord t) side (x, y))) as Hw.
  { intros x y Hx Hy. unfold wet_sample, samples. rewrite list_lookup_fmap, grid_points_lookup by done.
    apply is_wet_shown. }
  assert (forall x y, (x < side - 1)%nat -> (y < side - 1)%nat ->
    check_water_cell t side samples (x, y) = Ok tt <->
    has (sample_at (cell_flags t) (y * (side - 1) + x)%nat) TERRAIN_CELL_WATER = cell_wet s t x y) as Hcheck.
  { intros x y Hx Hy. unfold check_water_cell. cbv zeta. cbn [fst snd].
    rewrite (any_corner_grid _ (fun p => hydro_wet (vertex_water s (quadrant_coord t) side p))) by done.
    change (_ || _) with (cell_wet s t x y). destruct (decide _) as [Hne|Heq]; [naive_solver|].
    apply dec_stable in Heq. by rewrite Heq. }
  split.
  - intros H x y f Hx Hy Hf.
    pose proof (proj1 (Hcheck x y Hx Hy) (H (x, y) (proj2 (elem_of_grid_points _ _ _) (conj Hx Hy)))) as E.
    unfold sample_at in E. by rewrite Hf in E.
  - intros H [x y] [Hx Hy]%elem_of_grid_points. apply Hcheck; [done..|].
    destruct (lookup_lt_is_Some_2 (cell_flags t) (y * (side - 1) + x)%nat) as [f Hf]; [rewrite Hc; nia|].
    unfold sample_at. rewrite Hf. exact (H x y f Hx Hy Hf).
Qed.

Lemma shown_valid s t :
  terrain_validate t = Ok tt -> hydro_generator_version s <> 0 -> water_validate (shown_surface s t) = Ok tt.
Proof.
  intros Hv Hg. apply water_validate_Ok. destruct (side_facts t Hv) as (Hside & Hcs & _).
  apply terrain_validate_Ok in Hv as (_ & _ & Hgv & Hcv & _). unfold shown_surface;
    cbn [water_version water_terrain_generator_version hydrology_generator_version water_control_grid_side samples].
  split_goals; try (done || lia).
  - unfold count. rewrite length_map, length_grid_points. lia.
  - apply list.Forall_forall. intros w (p & -> & _)%list_elem_of_fmap. unfold shown, sample_canonical.
    by destruct (hydro_kind _).
Qed.

(** The presentation exists exactly when the terrain matches the water. *)
Lemma generate_water_Ok s t p :
  generate_water_surface_presentation_v1 s t = Ok p <->
  terrain_validate t = Ok tt /\ hydro_generator_version s <> 0 /\
  generator_version t = hydro_generator_version s /\
  vertices_in_range (quadrant_coord t) (side_of t) /\ terrain_matches s t /\ p = shown_surface s t.
Proof.
  unfold generate_water_surface_presentation_v1, terrain_matches. fold (side_of t). cbv zeta.
  destruct (terrain_validate t) as [[]|] eqn:Hv; [|naive_solver]. cbn [map_err mbind result_bind].
  destruct (hydro_validate s) as [s'|] eqn:Hs.
  2: { split; [done|]. intros (_ & Hg & _). unfold hydro_validate in Hs. by rewrite decide_False in Hs. }
  apply hydro_validate_Ok in Hs as [-> Hg]. cbn [map_err mbind result_bind].
  destruct (decide _) as [Hne|Heq]; [naive_solver|apply dec_stable in Heq]. split.
  - intros H. apply bind_Ok in H as (samples & (Hr & -> & Hle)%water_vertices_Ok & H); [|done..].
    apply bind_Ok in H as ([] & Hcells & H). pose proof (proj1 (water_cells_Ok s t Hv) Hcells).
    by apply bind_Ok in H as (_ & _ & [= <-]).
  - intros (_ & _ & _ & Hr & [Hle Hcells] & ->).
    rewrite (proj2 (water_vertices_Ok s t Hv Hg _) (conj Hr (conj eq_refl Hle))). cbn [mbind result_bind].
    rewrite (proj2 (water_cells_Ok s t Hv) Hcells). cbn [mbind result_bind].
    fold (shown_surface s t). by rewrite shown_valid.
Qed.

(** Carved terrain matches the water it was carved by. *)
Lemma carved_matches s t :
  terrain_validate t = Ok tt -> Forall (fun f => has f TERRAIN_CELL_WATER = false) (cell_flags t) ->
  terrain_matches s (carved s t).
Proof.
  intros Hv Hdry. destruct (side_facts t Hv) as (_ & _ & He & Hc).
  assert (side_of (carved s t) = side_of t) as Eside by done.
  unfold terrain_matches. rewrite Eside. split.
  - intros x y e surface Hx Hy He' Hs. change (quadrant_coord (carved s t)) with (quadrant_coord t) in Hs.
    destruct (lookup_lt_is_Some_2 (elevation_samples_mm t) (y * side_of t + x)%nat) as [e0 E]; [rewrite He; nia|].
    rewrite (carved_elevation s t x y e0) in He' by done. injection He' as <-.
    pose proof (ceiling_spec s (quadrant_coord t) (side_of t) (x, y)) as H. cbv zeta in H.
    destruct (hydro_wet _).
    + destruct H as (surface' & ceiling & Hs' & _ & Hceil & Hle). rewrite Hs' in Hs. injection Hs as <-.
      unfold carve_elevation. rewrite Hceil. cbn. lia.
    + destruct H as [H _]. by rewrite H in Hs.
  - intros x y f Hx Hy Hf.
    destruct (lookup_lt_is_Some_2 (cell_flags t) (y * (side_of t - 1) + x)%nat) as [f0 F]; [rewrite Hc; nia|].
    rewrite (carved_flags s t Hv x y f0) in Hf by done. injection Hf as <-.
    change (cell_wet s (carved s t) x y) with (cell_wet s t x y).
    destruct (cell_wet s t x y); [done|]. by apply (Forall_lookup_1 _ _ _ _ Hdry F).
Qed.

(** ** The theorems *)

Lemma generated_dry s c : settings_ok s -> Forall (fun f => has f TERRAIN_CELL_WATER = false) (cell_flags (generated s c)).
Proof.
  intros _. apply list.Forall_forall. unfold generated; cbn [cell_flags].
  intros f (p & -> & _)%list_elem_of_fmap. unfold cell_flags_of, derive_cell_flags.
  destruct (corner_indices 9 p.1 p.2) as [[[? ?] ?] ?]. cbv zeta.
  destruct (decide _); [done|]. by destruct (decide _).
Qed.

(** Carving water into a quadrant's terrain.  It succeeds exactly on valid
    terrain of the water field's generator version whose vertices have 64-bit
    coordinates.  The result is valid; a wet vertex is lowered to the bed of its
    water, at most the water surface, and a dry one keeps its height; a cell with
    a wet corner becomes blocked water and any other keeps its flags; nothing
    else of the contract changes. *)
Theorem carving_correct (s : HydrologyFieldV1Settings) (t : TerrainAuthorityContractV1) :
  ((exists t', apply_hydrology_to_terrain_v1 s t = Ok t') <->
   terrain_validate t = Ok tt /\ hydro_generator_version s <> 0 /\
   generator_version t = hydro_generator_version s /\ vertices_in_range (quadrant_coord t) (side_of t)) /\
  forall t', apply_hydrology_to_terrain_v1 s t = Ok t' ->
    terrain_validate t' = Ok tt /\
    t' = with_terrain t (elevation_samples_mm t') (cell_flags t') /\
    (forall x y e, (x < side_of t)%nat -> (y < side_of t)%nat ->
       elevation_samples_mm t !! (y * side_of t + x)%nat = Some e ->
       elevation_samples_mm t' !! (y * side_of t + x)%nat =
       Some match carved_ceiling (vertex_water s (quadrant_coord t) (side_of t) (x, y)) with
            | Some bed => Z.min e bed
            | None => e
            end) /\
    (forall x y f, (x < side_of t - 1)%nat -> (y < side_of t - 1)%nat ->
       cell_flags t !! (y * (side_of t - 1) + x)%nat = Some f ->
       cell_flags t' !! (y * (side_of t - 1) + x)%nat =
       Some (if cell_wet s t x y then Z.lor TERRAIN_CELL_WATER TERRAIN_CELL_BLOCKED else f)).
Proof.
  split; [setoid_rewrite apply_hydrology_Ok; naive_solver|].
  intros t' (Hv & Hg & Heq & Hr & ->)%apply_hydrology_Ok. split_goals; [by apply carved_valid|done| |].
  - intros x y e Hx Hy He. rewrite (carved_elevation s t x y e Hx Hy He). unfold carve_elevation.
    by destruct (carved_ceiling _).
  - intros x y f Hx Hy Hf. by apply carved_flags.
Qed.

(** The water shown to clients always fits the terrain it was carved into.
    For terrain without water cells, once carving has succeeded, generating the
    presentation cannot fail: no surface is below the terrain and every cell's
    mark agrees with its corners.  The presentation is valid, so it is encodable,
    and shows at each vertex the water that carved it. *)
Theorem water_presentation_total (s : HydrologyFieldV1Settings) (t t' : TerrainAuthorityContractV1) :
  Forall (fun f => has f TERRAIN_CELL_WATER = false) (cell_flags t) ->
  apply_hydrology_to_terrain_v1 s t = Ok t' ->
  exists p, generate_water_surface_presentation_v1 s t' = Ok p /\ water_validate p = Ok tt /\
    (exists bs, water_encode_wire p = Ok bs) /\
    water_quadrant_coord p = quadrant_coord t /\
    forall x y, (x < side_of t)%nat -> (y < side_of t)%nat ->
      let w := vertex_water s (quadrant_coord t) (side_of t) (x, y) in
      exists e, elevation_samples_mm t' !! (y * side_of t + x)%nat = Some e /\
        samples p !! (y * side_of t + x)%nat = Some (shown w) /\
        (hydro_wet w = true -> e <= sample_surface_mm (shown w)).
Proof.
  intros Hdry (Hv & Hg & Heq & Hr & ->)%apply_hydrology_Ok.
  pose proof (carved_valid s t Hv) as Hv'. pose proof (carved_matches s t Hv Hdry) as Hm.
  exists (shown_surface s (carved s t)). split_goals; [|by apply shown_valid| |done|].
  - by apply generate_water_Ok.
  - exists (water_body (shown_surface s (carved s t))). rewrite water_encode_spec. by rewrite shown_valid.
  - intros x y Hx Hy w. destruct (side_facts (carved s t) Hv') as (_ & _ & He & _).
    change (side_of (carved s t)) with (side_of t) in He.
    destruct (lookup_lt_is_Some_2 (elevation_samples_mm (carved s t)) (y * side_of t + x)%nat) as [e E]; [rewrite He; nia|].
    exists e. split; [done|]. split.
    + unfold shown_surface; cbn [samples]. change (side_of (carved s t)) with (side_of t).
      by rewrite list_lookup_fmap, grid_points_lookup.
    + intros Hwet. destruct Hm as [Hle _].
      pose proof (ceiling_spec s (quadrant_coord t) (side_of t) (x, y)) as H. cbv zeta in H. fold w in H.
      rewrite Hwet in H. destruct H as (surface & _ & Hs & _). 
      pose proof (Hle x y e surface Hx Hy E Hs). unfold shown, hydro_wet in *. rewrite Hs.
      by destruct (hydro_kind w).
Qed.

(** C10: quadrants fit together.  Two quadrants of the same world, generated and
    carved independently, have the same height and show the same water at every
    lattice vertex they share. *)
Theorem quadrants_fit_together (ts : TerrainRecipeV1Settings) (hs : HydrologyFieldV1Settings)
  (c1 c2 : FrontierQuadrantCoord) (t1 t2 t1' t2' : TerrainAuthorityContractV1)
  (w1 w2 : WaterSurfacePresentationV1) (x1 y1 x2 y2 : nat) :
  generate_terrain_authority_v1 ts c1 = Ok t1 -> generate_terrain_authority_v1 ts c2 = Ok t2 ->
  apply_hydrology_to_terrain_v1 hs t1 = Ok t1' -> apply_hydrology_to_terrain_v1 hs t2 = Ok t2' ->
  generate_water_surface_presentation_v1 hs t1' = Ok w1 ->
  generate_water_surface_presentation_v1 hs t2' = Ok w2 ->
  (x1 < 9)%nat -> (y1 < 9)%nat -> (x2 < 9)%nat -> (y2 < 9)%nat ->
  global_vertex c1 9 (x1, y1) = global_vertex c2 9 (x2, y2) ->
  elevation_samples_mm t1' !! (y1 * 9 + x1)%nat = elevation_samples_mm t2' !! (y2 * 9 + x2)%nat /\
  samples w1 !! (y1 * 9 + x1)%nat = samples w2 !! (y2 * 9 + x2)%nat.
Proof.
  intros (_ & _ & ->)%generate_Ok (_ & _ & ->)%generate_Ok (_ & _ & _ & _ & ->)%apply_hydrology_Ok
    (_ & _ & _ & _ & ->)%apply_hydrology_Ok (_ & _ & _ & _ & _ & ->)%generate_water_Ok
    (_ & _ & _ & _ & _ & ->)%generate_water_Ok Hx1 Hy1 Hx2 Hy2 E.
  assert (forall c x y, (x < 9)%nat -> (y < 9)%nat ->
    elevation_samples_mm (carved hs (generated ts c)) !! (y * 9 + x)%nat =
    Some (default (vertex_height ts c x y) (carve_elevation (vertex_water hs c 9 (x, y)) (vertex_height ts c x y))))
    as He.
  { intros c x y Hx Hy. apply (carved_elevation hs (generated ts c)); [done..|]. by apply generated_elevation. }
  assert (forall c x y, (x < 9)%nat -> (y < 9)%nat ->
    samples (shown_surface hs (carved hs (generated ts c))) !! (y * 9 + x)%nat =
    Some (shown (vertex_water hs c 9 (x, y)))) as Hs.
  { intros c x y Hx Hy. unfold shown_surface; cbn [samples].
    change (side_of (carved hs (generated ts c))) with 9%nat.
    by rewrite list_lookup_fmap, grid_points_lookup. }
  rewrite !He, !Hs by done. unfold vertex_water. cbv zeta. rewrite E.
  assert (vertex_height ts c1 x1 y1 = vertex_height ts c2 x2 y2) as ->; [|done].
  unfold global_vertex in E; cbn [fst snd] in E. change (Z.of_nat 9 - 1) with 8 in E.
  injection E as Ex Ey. unfold vertex_height. by rewrite Ex, Ey.
Qed.

(** ** Examples: the quadrants (5, 6) and (6, 6) of the world with seed 7, the
    second of which is crossed by a river. *)

Definition example_hydrology : HydrologyFieldV1Settings :=
  {| hydro_world_seed := 7; hydro_generator_version := 1 |}.
Definition example_terrain (x : Z) : TerrainAuthorityContractV1 := generated example_settings (mk_fqc x 6).

Lemma example_generated x :
  -10 <= x <= 10 -> generate_terrain_authority_v1 example_settings (mk_fqc x 6) = Ok (example_terrain x).
Proof.
  intros Hx. apply generate_Ok. split_goals; [done..| |done].
  unfold lattice_ok, in_i; cbn [fx fy]. lia.
Qed.

Lemma example_range x : -10 <= x <= 10 -> vertices_in_range (mk_fqc x 6) 9.
Proof.
  intros Hx. unfold vertices_in_range. cbv zeta. change (Z.of_nat 9 - 1) with 8. cbn [fx fy]. unfold in_i. lia.
Qed.

Lemma example_carved x :
  -10 <= x <= 10 ->
  apply_hydrology_to_terrain_v1 example_hydrology (example_terrain x) =
  Ok (carved example_hydrology (example_terrain x)).
Proof.
  intros Hx. apply apply_hydrology_Ok.
  split; [by apply generated_valid|]. do 2 (split; [done|]). split; [by apply example_range|done].
Qed.

Lemma carving_correct_witness :
  exists t', apply_hydrology_to_terrain_v1 example_hydrology (example_terrain 6) = Ok t' /\
    terrain_validate t' = Ok tt /\
    vertex_height example_settings (mk_fqc 6 6) 0 0 = -1607 /\
    elevation_samples_mm t' !! (0 * side_of (example_terrain 6) + 0)%nat = Some (-1698).
Proof.
  destruct (carving_correct example_hydrology (example_terrain 6)) as [_ H].
  exists (carved example_hydrology (example_terrain 6)).
  pose proof (example_carved 6 ltac:(lia)) as E. split; [exact E|].
  destruct (H _ E) as (Hv & _ & He & _). split; [exact Hv|]. split; [vm_compute; reflexivity|].
  rewrite (He 0%nat 0%nat (vertex_height example_settings (mk_fqc 6 6) 0 0));
    [|by apply Nat.ltb_lt|by apply Nat.ltb_lt|apply generated_elevation; lia].
  change (quadrant_coord (example_terrain 6)) with (mk_fqc 6 6). change (side_of (example_terrain 6)) with 9%nat.
  vm_compute. reflexivity.
Defined.

Lemma water_presentation_total_witness :
  exists p, generate_water_surface_presentation_v1 example_hydrology
              (carved example_hydrology (example_terrain 6)) = Ok p /\ water_validate p = Ok tt.
Proof.
  destruct (water_presentation_total example_hydrology (example_terrain 6) _
    (generated_dry example_settings (mk_fqc 6 6) ltac:(split; [reflexivity|discriminate]))
    (example_carved 6 ltac:(lia))) as (p & Hp & Hv & _).
  exists p. split; [exact Hp|exact Hv].
Defined.

Lemma quadrants_fit_together_witness :
  elevation_samples_mm (carved example_hydrology (example_terrain 5)) !! (0 * 9 + 8)%nat =
  elevation_samples_mm (carved example_hydrology (example_terrain 6)) !! (0 * 9 + 0)%nat.
Proof.
  assert (forall x, -10 <= x <= 10 -> exists w, generate_water_surface_presentation_v1 example_hydrology
    (carved example_hydrology (example_terrain x)) = Ok w) as Hw.
  { intros x Hx. eexists. apply generate_water_Ok. pose proof (generated_valid example_settings (mk_fqc x 6)
      ltac:(split; [reflexivity|discriminate])) as V.
    split; [by apply carved_valid|]. split; [discriminate|]. split; [reflexivity|].
    split; [by apply example_range|]. split; [|reflexivity]. apply carved_matches; [exact V|].
    apply generated_dry. split; [reflexivity|discriminate]. }
  destruct (Hw 5 ltac:(lia)) as [w5 H5], (Hw 6 ltac:(lia)) as [w6 H6].
  destruct (quadrants_fit_together example_settings example_hydrology (mk_fqc 5 6) (mk_fqc 6 6)
    (example_terrain 5) (example_terrain 6) _ _ w5 w6 8 0 0 0
    (example_generated 5 ltac:(lia)) (example_generated 6 ltac:(lia))
    (example_carved 5 ltac:(lia)) (example_carved 6 ltac:(lia)) H5 H6
    ltac:(lia) ltac:(lia) ltac:(lia) ltac:(lia) eq_refl) as [He _].
  exact He.
Defined.
