(* ===== verification/EnvironmentPolicy.v ===== *)
(** The environment policy of a quadrant
    ([crates/terrain/src/environment_presentation.rs]): which families of plants
    and rocks each cell of a terrain may carry, from the cell's flags and a hash of
    its global coordinates.  [blake3::Hasher], fed by successive [update]s, is a
    parameter: a function of the concatenated bytes. *)

From S2P Require Import Prelude Bytes Contracts Wire Presentation Noise Terrain WaterSurface.
Import Manifest Presentation.Terrain Presentation.Environment.

Definition LAB_ENVIRONMENT_POLICY_GENERATOR_VERSION : Z := 1.

Inductive EnvironmentPresentationGenerationError :=
| InvalidTerrainAuthority (e : TerrainAuthorityContractError)
| PolicyLatticeCoordinateOverflow (x y : Z)
| InvalidGeneratedPolicy (e : EnvironmentPresentationPolicyError).

(** [b"aurenfall/environment-policy-seed/v1"]. *)
Definition POLICY_SEED_DOMAIN : list Z :=
  [97;117;114;101;110;102;97;108;108;47;101;110;118;105;114;111;110;109;101;110;116;45;112;111;108;105;99;121;
   45;115;101;101;100;47;118;49].
(** [b"aurenfall/environment-policy-cell/v1"]. *)
Definition POLICY_CELL_DOMAIN : list Z :=
  [97;117;114;101;110;102;97;108;108;47;101;110;118;105;114;111;110;109;101;110;116;45;112;111;108;105;99;121;
   45;99;101;108;108;47;118;49].

Definition digest_prefix_u64 (digest : list Z) : Z := from_le (slice digest 0 8).

Section Policy.
Context (blake3 : list Z -> list Z).

Definition derive_environment_policy_seed (world_seed : Z) (t : TerrainAuthorityContractV1) : Z :=
  digest_prefix_u64 (blake3
    (POLICY_SEED_DOMAIN ++ to_le 8 world_seed ++ to_le 4 (generator_version t) ++
     to_le 4 LAB_ENVIRONMENT_POLICY_GENERATOR_VERSION ++ to_le 8 (recipe_seed t) ++
     to_le 8 (fx (quadrant_coord t)) ++ to_le 8 (fy (quadrant_coord t)))).

Definition derive_global_cell_morphology (world_seed terrain_generator_version global_x global_y : Z) : Z :=
  digest_prefix_u64 (blake3
    (POLICY_CELL_DOMAIN ++ to_le 8 world_seed ++ to_le 4 terrain_generator_version ++
     to_le 4 LAB_ENVIRONMENT_POLICY_GENERATOR_VERSION ++ to_le 8 global_x ++ to_le 8 global_y)).

Definition derive_allowed_family_mask (flags morphology : Z) : Z :=
  if has flags TERRAIN_CELL_WATER then 0
  else if has flags TERRAIN_CELL_BLOCKED then
    match Z.land morphology 3 with
    | 0 => ENVIRONMENT_FAMILY_ROCK
    | 1 => Z.lor ENVIRONMENT_FAMILY_SHRUB ENVIRONMENT_FAMILY_ROCK
    | 2 => Z.lor ENVIRONMENT_FAMILY_TREE ENVIRONMENT_FAMILY_ROCK
    | _ => Z.lor (Z.lor ENVIRONMENT_FAMILY_SHRUB ENVIRONMENT_FAMILY_TREE) ENVIRONMENT_FAMILY_ROCK
    end
  else if has flags TERRAIN_CELL_CONNECTOR_CORRIDOR then ENVIRONMENT_FAMILY_GROUND_COVER
  else if has flags TERRAIN_CELL_BUILDABLE then
    match Z.land morphology 3 with
    | 0 => 0
    | 1 => ENVIRONMENT_FAMILY_GROUND_COVER
    | _ => Z.lor ENVIRONMENT_FAMILY_GROUND_COVER ENVIRONMENT_FAMILY_SMALL_PLANT
    end
  else if has flags TERRAIN_CELL_WALKABLE then
    match Z.land morphology 7 with
    | 0 => 0
    | 1 => ENVIRONMENT_FAMILY_GROUND_COVER
    | 2 => Z.lor ENVIRONMENT_FAMILY_GROUND_COVER ENVIRONMENT_FAMILY_SMALL_PLANT
    | 3 => Z.lor ENVIRONMENT_FAMILY_GROUND_COVER ENVIRONMENT_FAMILY_SHRUB
    | 4 => Z.lor (Z.lor ENVIRONMENT_FAMILY_GROUND_COVER ENVIRONMENT_FAMILY_SMALL_PLANT) ENVIRONMENT_FAMILY_SHRUB
    | 5 => Z.lor ENVIRONMENT_FAMILY_GROUND_COVER ENVIRONMENT_FAMILY_TREE
    | 6 => Z.lor ENVIRONMENT_FAMILY_GROUND_COVER ENVIRONMENT_FAMILY_ROCK
    | _ => Z.lor (Z.lor (Z.lor (Z.lor ENVIRONMENT_FAMILY_GROUND_COVER ENVIRONMENT_FAMILY_SMALL_PLANT)
             ENVIRONMENT_FAMILY_SHRUB) ENVIRONMENT_FAMILY_TREE) ENVIRONMENT_FAMILY_ROCK
    end
  else 0.

(** The body of the cell loop. *)
Definition policy_cell (world_seed : Z) (t : TerrainAuthorityContractV1) (base_x base_y : Z) (cell_side : nat)
  (p : nat * nat) : result EnvironmentPresentationGenerationError Z :=
  let overflow := PolicyLatticeCoordinateOverflow (fx (quadrant_coord t)) (fy (quadrant_coord t)) in
  global_x ← ok_or overflow (checked_i 64 (base_x + Z.of_nat p.1));
  global_y ← ok_or overflow (checked_i 64 (base_y + Z.of_nat p.2));
  let index := (p.2 * cell_side + p.1)%nat in
  let morphology := derive_global_cell_morphology world_seed (generator_version t) global_x global_y in
  Ok (derive_allowed_family_mask (sample_at (cell_flags t) index) morphology).

Definition generate_environment_presentation_policy_v1 (world_seed : Z) (t : TerrainAuthorityContractV1)
  : result EnvironmentPresentationGenerationError EnvironmentPresentationPolicyV1 :=
  _ ← map_err InvalidTerrainAuthority (terrain_validate t);
  let cell_side := control_grid_side t - 1 in
  let overflow := PolicyLatticeCoordinateOverflow (fx (quadrant_coord t)) (fy (quadrant_coord t)) in
  base_x ← ok_or overflow (checked_i 64 (fx (quadrant_coord t) * cell_side));
  base_y ← ok_or overflow (checked_i 64 (fy (quadrant_coord t) * cell_side));
  masks ← mapM (policy_cell world_seed t base_x base_y (Z.to_nat cell_side)) (grid_points (Z.to_nat cell_side));
  let policy := {|
    policy_version := ENVIRONMENT_PRESENTATION_POLICY_VERSION;
    policy_quadrant_coord := quadrant_coord t;
    terrain_generator_version := generator_version t;
    policy_generator_version := LAB_ENVIRONMENT_POLICY_GENERATOR_VERSION;
    policy_seed := derive_environment_policy_seed world_seed t;
    policy_control_grid_side := control_grid_side t;
    cell_family_masks := masks
  |} in
  _ ← map_err InvalidGeneratedPolicy (environment_validate policy);
  Ok policy.

(** ** What a mask may hold *)

Lemma land_small m k : 0 <= k -> 0 <= m -> 0 <= Z.land m (Z.ones k) < 2 ^ k.
Proof. intros Hk Hm. rewrite Z.land_ones by done. apply Z.mod_pos_bound. by apply pow2_pos. Qed.

(** The rules of the laboratory policy. *)
Definition mask_rules (flags mask : Z) : Prop :=
  mask_ok mask /\
  if has flags TERRAIN_CELL_WATER then mask = 0
  else if has flags TERRAIN_CELL_BLOCKED then
    has mask ENVIRONMENT_FAMILY_ROCK = true /\
    has mask (Z.lor ENVIRONMENT_FAMILY_GROUND_COVER ENVIRONMENT_FAMILY_SMALL_PLANT) = false
  else if has flags TERRAIN_CELL_CONNECTOR_CORRIDOR then mask = ENVIRONMENT_FAMILY_GROUND_COVER
  else if has flags TERRAIN_CELL_BUILDABLE then
    has mask (Z.lor (Z.lor ENVIRONMENT_FAMILY_SHRUB ENVIRONMENT_FAMILY_TREE) ENVIRONMENT_FAMILY_ROCK) = false
  else has flags TERRAIN_CELL_WALKABLE = true \/ mask = 0.

Lemma derive_mask_rules flags morphology :
  0 <= morphology -> mask_rules flags (derive_allowed_family_mask flags morphology).
Proof.
  intros Hm. pose proof (land_small morphology 2 ltac:(lia) Hm) as H3.
  pose proof (land_small morphology 3 ltac:(lia) Hm) as H7.
  change (Z.ones 2) with 3 in H3. change (Z.ones 3) with 7 in H7.
  change (2 ^ 2) with 4 in H3. change (2 ^ 3) with 8 in H7.
  unfold mask_rules, derive_allowed_family_mask.
  destruct (has flags TERRAIN_CELL_WATER); [done|].
  assert (forall v, 0 <= v < 4 -> v = 0 \/ v = 1 \/ v = 2 \/ v = 3) as C4 by lia.
  assert (forall v, 0 <= v < 8 -> v = 0 \/ v = 1 \/ v = 2 \/ v = 3 \/ v = 4 \/ v = 5 \/ v = 6 \/ v = 7) as C8 by lia.
  destruct (has flags TERRAIN_CELL_BLOCKED); [destruct (C4 _ H3) as [->|[->|[->| ->]]]; by vm_compute|].
  destruct (has flags TERRAIN_CELL_CONNECTOR_CORRIDOR); [done|].
  destruct (has flags TERRAIN_CELL_BUILDABLE); [destruct (C4 _ H3) as [->|[->|[->| ->]]]; by vm_compute|].
  destruct (has flags TERRAIN_CELL_WALKABLE); [|split; [done|by right]].
  destruct (C8 _ H7) as [->|[->|[->|[->|[->|[->|[->| ->]]]]]]]; (split; [by vm_compute|by left]).
Qed.

(** ** Totality *)

(** Every cell of the quadrant has 64-bit coordinates. *)
Definition cells_in_range (t : TerrainAuthorityContractV1) : Prop :=
  let cells := control_grid_side t - 1 in
  in_i 64 (fx (quadrant_coord t) * cells) /\ in_i 64 (fx (quadrant_coord t) * cells + (cells - 1)) /\
  in_i 64 (fy (quadrant_coord t) * cells) /\ in_i 64 (fy (quadrant_coord t) * cells + (cells - 1)).

(** The mask of cell [p]. *)
Definition cell_mask (world_seed : Z) (t : TerrainAuthorityContractV1) (p : nat * nat) : Z :=
  let cells := control_grid_side t - 1 in
  derive_allowed_family_mask (sample_at (cell_flags t) (grid_index (Z.to_nat cells) p))
    (derive_global_cell_morphology world_seed (generator_version t)
       (fx (quadrant_coord t) * cells + Z.of_nat p.1) (fy (quadrant_coord t) * cells + Z.of_nat p.2)).

Definition derived_policy (world_seed : Z) (t : TerrainAuthorityContractV1) : EnvironmentPresentationPolicyV1 := {|
  policy_version := ENVIRONMENT_PRESENTATION_POLICY_VERSION;
  policy_quadrant_coord := quadrant_coord t;
  terrain_generator_version := generator_version t;
  policy_generator_version := LAB_ENVIRONMENT_POLICY_GENERATOR_VERSION;
  policy_seed := derive_environment_policy_seed world_seed t;
  policy_control_grid_side := control_grid_side t;
  cell_family_masks := map (cell_mask world_seed t) (grid_points (Z.to_nat (control_grid_side t - 1)))
|}.

(** Bytes of the hash make a natural number. *)
Context (Hblake3 : forall bs, are_bytes (blake3 bs)).

Lemma morphology_nonneg ws v x y : 0 <= derive_global_cell_morphology ws v x y.
Proof.
  unfold derive_global_cell_morphology, digest_prefix_u64.
  by destruct (from_le_range (slice (blake3 (POLICY_CELL_DOMAIN ++ to_le 8 ws ++ to_le 4 v ++
     to_le 4 LAB_ENVIRONMENT_POLICY_GENERATOR_VERSION ++ to_le 8 x ++ to_le 8 y)) 0 8) (slice_bytes _ _ _ (Hblake3 _))).
Qed.

Lemma policy_cell_Ok ws t p m (cells := control_grid_side t - 1) :
  policy_cell ws t (fx (quadrant_coord t) * cells) (fy (quadrant_coord t) * cells) (Z.to_nat cells) p = Ok m <->
  in_i 64 (fx (quadrant_coord t) * cells + Z.of_nat p.1) /\
  in_i 64 (fy (quadrant_coord t) * cells + Z.of_nat p.2) /\ m = cell_mask ws t p.
Proof.
  unfold policy_cell. cbv zeta. split.
  - intros H. apply bind_Ok in H as (gx & [-> Hx]%ok_or_Ok%checked_i_Some & H).
    by apply bind_Ok in H as (gy & [-> Hy]%ok_or_Ok%checked_i_Some & [= <-]).
  - intros (Hx & Hy & ->). rewrite (checked_i_in 64 _ Hx). cbn [ok_or mbind result_bind].
    by rewrite (checked_i_in 64 _ Hy).
Qed.

Lemma policy_cells_Ok ws t masks (cells := control_grid_side t - 1) :
  1 <= cells -> in_i 64 (fx (quadrant_coord t) * cells) -> in_i 64 (fy (quadrant_coord t) * cells) ->
  mapM (policy_cell ws t (fx (quadrant_coord t) * cells) (fy (quadrant_coord t) * cells) (Z.to_nat cells))
    (grid_points (Z.to_nat cells)) = Ok masks <->
  cells_in_range t /\ masks = map (cell_mask ws t) (grid_points (Z.to_nat cells)).
Proof.
  intros Hc Hx Hy. split.
  - intros H. split.
    + destruct (mapM_grid _ _ _ (Z.to_nat cells - 1) (Z.to_nat cells - 1) H ltac:(lia) ltac:(lia)) as (m & Hm & _).
      apply policy_cell_Ok in Hm as (Hx' & Hy' & _). cbn [fst snd] in *. fold cells in Hx', Hy'.
      replace (Z.of_nat (Z.to_nat cells - 1)) with (cells - 1) in * by lia. by unfold cells_in_range.
    + apply mapM_Ok in H. apply (Forall2_is_map _ _ _ _ H). by intros p m _ (_ & _ & ->)%policy_cell_Ok.
  - intros [(_ & Hx' & _ & Hy') ->]. apply mapM_Ok, Forall2_fmap_r, Forall_Forall2_diag, list.Forall_forall.
    intros [x y] [Hpx Hpy]%elem_of_grid_points. apply policy_cell_Ok. cbn [fst snd]. fold cells in Hx', Hy' |- *.
    split; [|split; [|done]]; eapply in_range_between; try done; lia.
Qed.

Lemma derived_policy_valid ws t :
  terrain_validate t = Ok tt -> environment_validate (derived_policy ws t) = Ok tt.
Proof.
  intros (_ & _ & Hg & Hs & _)%terrain_validate_Ok. apply environment_validate_Ok. unfold derived_policy;
    cbn [policy_version terrain_generator_version policy_generator_version policy_control_grid_side cell_family_masks].
  split_goals; try (done || lia).
  - unfold len. rewrite length_map, length_grid_points. lia.
  - apply list.Forall_forall. intros m (p & -> & _)%list_elem_of_fmap.
    by destruct (derive_mask_rules (sample_at (cell_flags t) (grid_index (Z.to_nat (control_grid_side t - 1)) p)) _
      (morphology_nonneg ws (generator_version t) (fx (quadrant_coord t) * (control_grid_side t - 1) + Z.of_nat p.1)
        (fy (quadrant_coord t) * (control_grid_side t - 1) + Z.of_nat p.2))).
Qed.

Lemma generate_policy_Ok ws t p :
  generate_environment_presentation_policy_v1 ws t = Ok p <->
  terrain_validate t = Ok tt /\ cells_in_range t /\ p = derived_policy ws t.
Proof.
  unfold generate_environment_presentation_policy_v1. cbv zeta.
  destruct (terrain_validate t) as [[]|] eqn:Hv; [|naive_solver]. cbn [map_err mbind result_bind].
  pose proof (proj1 (terrain_validate_Ok t) Hv) as (_ & _ & _ & Hs & _). split.
  - intros H. apply bind_Ok in H as (bx & [-> Hx]%ok_or_Ok%checked_i_Some & H).
    apply bind_Ok in H as (by_ & [-> Hy]%ok_or_Ok%checked_i_Some & H).
    apply bind_Ok in H as (masks & [Hr ->]%policy_cells_Ok & H); [|lia|done|done].
    by apply bind_Ok in H as (_ & _ & [= <-]).
  - intros (_ & Hr & ->). pose proof Hr as (Hx & _ & Hy & _).
    rewrite (checked_i_in 64 _ Hx). cbn [ok_or mbind result_bind].
    rewrite (checked_i_in 64 _ Hy). cbn [ok_or mbind result_bind].
    rewrite (proj2 (policy_cells_Ok ws t _ ltac:(lia) Hx Hy) (conj Hr eq_refl)). cbn [mbind result_bind].
    fold (derived_policy ws t). by rewrite derived_policy_valid.
Qed.

Lemma derived_mask_lookup ws t x y f (cells := (control_grid_side t - 1)) :
  (x < Z.to_nat cells)%nat -> (y < Z.to_nat cells)%nat -> cell_flags t !! (y * Z.to_nat cells + x)%nat = Some f ->
  exists m, cell_family_masks (derived_policy ws t) !! (y * Z.to_nat cells + x)%nat = Some m /\ mask_rules f m.
Proof.
  intros Hx Hy Hf. eexists. split.
  - cbn [derived_policy cell_family_masks]. by rewrite list_lookup_fmap, grid_points_lookup.
  - unfold cell_mask, grid_index; cbn [fst snd]. fold cells. unfold sample_at. rewrite Hf.
    apply derive_mask_rules, morphology_nonneg.
Qed.
End Policy.

(** The environment policy follows the terrain.  It exists exactly for a
    valid terrain whose cells have 64-bit coordinates; it is valid, encodable and
    addressed like the terrain; and the families each cell may carry obey the
    rules: nothing in water, rocks but no ground cover where movement is blocked,
    only ground cover in a corridor, no shrub, tree or rock on buildable ground. *)
Theorem environment_policy_correct (blake3 : list Z -> list Z) (world_seed : Z) (t : TerrainAuthorityContractV1) :
  (forall bs, are_bytes (blake3 bs)) ->
  ((exists p, generate_environment_presentation_policy_v1 blake3 world_seed t = Ok p) <->
   terrain_validate t = Ok tt /\ cells_in_range t) /\
  forall p, generate_environment_presentation_policy_v1 blake3 world_seed t = Ok p ->
    environment_validate p = Ok tt /\ (exists bs, environment_encode_wire p = Ok bs) /\
    policy_quadrant_coord p = quadrant_coord t /\ policy_control_grid_side p = control_grid_side t /\
    forall x y f, let cells := Z.to_nat (control_grid_side t - 1) in
      (x < cells)%nat -> (y < cells)%nat -> cell_flags t !! (y * cells + x)%nat = Some f ->
      exists mask, cell_family_masks p !! (y * cells + x)%nat = Some mask /\ mask_rules f mask.
Proof.
  intros Hb. pose proof (fun p => generate_policy_Ok blake3 Hb world_seed t p) as HOk.
  split; [setoid_rewrite HOk; naive_solver|]. intros p (Hv & _ & ->)%HOk. pose proof (derived_policy_valid blake3 Hb world_seed t Hv) as Hp.
  split_goals; [done| |done|done|].
  - exists (environment_body (derived_policy blake3 world_seed t)). rewrite environment_encode_spec. by rewrite Hp.
  - intros x y f cells Hx Hy Hf. by apply derived_mask_lookup.
Qed.

Lemma environment_policy_correct_witness :
  exists p m, generate_environment_presentation_policy_v1 (fun bs => replicate 32 1) 7 (example_contract 1) = Ok p /\
    cell_family_masks p !! 0%nat = Some m /\ mask_rules 3 m.
Proof.
  destruct (environment_policy_correct (fun bs => replicate 32 1) 7 (example_contract 1)) as [[_ Hex] H].
  { intros _. repeat constructor; done. }
  destruct Hex as [p Hp]; [split; [reflexivity|unfold cells_in_range, in_i; cbn; lia]|].
  exists p. destruct (H p Hp) as (_ & _ & _ & _ & Hm).
  destruct (Hm 0%nat 0%nat 3 ltac:(apply Nat.ltb_lt; reflexivity) ltac:(apply Nat.ltb_lt; reflexivity) eq_refl)
    as (m & Hl & Hr).
  exists m. split; [exact Hp|split; [exact Hl|exact Hr]].
Defined.
