(* ===== verification/Transport.v ===== *)
(** Transport crate ([crates/transport/src]): the datagram frames of
    [datagram.rs], a frame header followed by the payload.  The theorems use
    the header only through its [Codec] laws. *)

From S2P Require Import Prelude Bytes Contracts.
Import Bootstrap.

Module Datagram.

Inductive DatagramFrameError :=
| Codec (e : BootstrapCodecError)
| TooLarge (actual maximum : Z)
| HeaderTooShort (actual minimum : Z)
| PayloadLengthMismatch (declared actual : Z).

Definition HEADER : Z := Z.of_nat FRAME_HEADER_BYTES.

Definition encode_datagram_frame (k : MessageKind) (payload : list Z) (maximum_datagram_bytes : Z)
  : result DatagramFrameError (list Z) :=
  header ← map_err Codec (header_new k (len payload));
  let total_len := HEADER + len payload in
  if decide (total_len > maximum_datagram_bytes) then Err (TooLarge total_len maximum_datagram_bytes)
  else Ok (header_encode header ++ payload).

Definition decode_datagram_frame (frame : list Z) (maximum_datagram_bytes : Z)
  : result DatagramFrameError (MessageKind * list Z) :=
  if decide (len frame > maximum_datagram_bytes)
  then Err (TooLarge (len frame) maximum_datagram_bytes)
  else if decide (len frame < HEADER) then Err (HeaderTooShort (len frame) HEADER)
  else
    let header_bytes := slice frame 0 FRAME_HEADER_BYTES in
    header ← map_err Codec (header_decode header_bytes);
    let payload := drop FRAME_HEADER_BYTES frame in
    let declared := payload_len header in
    if decide (declared <> len payload) then Err (PayloadLengthMismatch declared (len payload))
    else Ok (kind header, payload).

Lemma len_app a b : len (a ++ b) = len a + len b.
Proof. unfold len. rewrite length_app. lia. Qed.

Lemma len_header_encode h : len (header_encode h) = HEADER.
Proof. unfold len. by rewrite length_header_encode. Qed.

Lemma header_decode_encode h : header_ok h -> header_decode (header_encode h) = Ok h.
Proof.
  intros Hok. pose proof (decode_encode h Hok) as H. unfold header_decode_array in H.
  by rewrite decide_True in H by apply length_header_encode.
Qed.

Lemma header_encode_decode l h :
  are_bytes l -> length l = FRAME_HEADER_BYTES -> header_decode l = Ok h ->
  header_ok h /\ header_encode h = l.
Proof.
  intros Hb Hl H. apply (encode_decode l h Hb). unfold header_decode_array. by rewrite decide_True.
Qed.

Lemma header_new_Ok k n h :
  header_new k n = Ok h <-> in_u 16 n /\ h = {| kind := k; Bootstrap.payload_len := n |}.
Proof.
  unfold header_new. rewrite bind_Ok. setoid_rewrite ok_or_Ok. setoid_rewrite checked_u_Some.
  naive_solver.
Qed.

Lemma decode_payload_bytes frame maximum k payload : are_bytes frame ->
  decode_datagram_frame frame maximum = Ok (k, payload) -> are_bytes payload.
Proof.
  intros Hb H. unfold decode_datagram_frame in H. case_decide; [done|]. case_decide; [done|].
  apply bind_Ok in H as (h & _ & H). destruct (decide _); [done|]. injection H as _ <-. by apply Forall_drop.
Qed.

(** Datagram frames round-trip within the configured maximum: an encoded
    frame decodes to its kind and payload under any maximum it fits in; a frame
    is accepted only when it is the encoding of what it decodes to; and encoding
    succeeds exactly when the payload length fits the 16-bit field and the frame
    fits the maximum. *)
Theorem datagram_roundtrip :
  (forall k payload maximum frame,
     encode_datagram_frame k payload maximum = Ok frame ->
     len frame <= maximum /\ decode_datagram_frame frame maximum = Ok (k, payload)) /\
  (forall frame maximum k payload,
     are_bytes frame -> decode_datagram_frame frame maximum = Ok (k, payload) ->
     encode_datagram_frame k payload maximum = Ok frame) /\
  (forall k payload maximum,
     is_ok (encode_datagram_frame k payload maximum) = true <->
     in_u 16 (len payload) /\ HEADER + len payload <= maximum).
Proof.
  split_goals.
  - intros k payload maximum frame H. unfold encode_datagram_frame in H.
    apply bind_Ok in H as (h & [Hn ->]%map_err_Ok%header_new_Ok & H).
    case_decide as Hbig; [done|]. assert (frame = header_encode {| kind := k; Bootstrap.payload_len := len payload |} ++ payload)
      as -> by congruence.
    rewrite len_app, len_header_encode. split; [lia|].
    unfold decode_datagram_frame. rewrite len_app, len_header_encode.
    rewrite decide_False by lia. rewrite decide_False by (unfold len; lia).
    rewrite slice_here by apply length_header_encode.
    rewrite header_decode_encode by done. cbn [map_err mbind result_bind Bootstrap.payload_len kind].
    rewrite drop_app, drop_ge, app_nil_l by (by rewrite length_header_encode).
    rewrite length_header_encode, Nat.sub_diag, drop_0. by rewrite decide_False by tauto.
  - intros frame maximum k payload Hb H. unfold decode_datagram_frame in H.
    case_decide as Hbig; [done|]. case_decide as Hshort; [done|].
    apply bind_Ok in H as (h & Hh%map_err_Ok & H). destruct (decide _) as [|Hd]; [done|].
    apply dec_stable in Hd. injection H as <- <-.
    assert (FRAME_HEADER_BYTES <= length frame)%nat as Hle by (unfold HEADER, len in Hshort; lia).
    destruct (header_encode_decode (slice frame 0 FRAME_HEADER_BYTES) h) as [Hok Henc];
      [by apply slice_bytes|by rewrite length_slice; [rewrite Nat.sub_0_r| |done]; lia|done|].
    unfold encode_datagram_frame. unfold header_new, checked_u.
    rewrite decide_True by (rewrite <- Hd; exact Hok). cbn [ok_or mbind result_bind map_err].
    assert (HEADER + len (drop FRAME_HEADER_BYTES frame) = len frame) as ->.
    { unfold HEADER, len. rewrite length_drop. lia. }
    rewrite decide_False by lia. f_equal. rewrite <- Hd.
    replace {| kind := kind h; Bootstrap.payload_len := Bootstrap.payload_len h |} with h by (by destruct h).
    rewrite Henc. unfold slice. rewrite drop_0, Nat.sub_0_r. apply take_drop.
  - intros k payload maximum. unfold encode_datagram_frame, header_new, checked_u.
    destruct (decide (in_u 16 (len payload))) as [H16|H16]; cbn.
    + destruct (decide (HEADER + len payload > maximum)); cbn.
      * split; [done|intros [_ ?]; lia].
      * split; [intros _; split; [done|lia]|done].
    + split; [done|intros [? _]; done].
Qed.

End Datagram.
