(* ===== verification/Frontier.v ===== *)
(** The frontier of the domain crate ([crates/domain/src]): the initial
    rectangle and the lifecycle of a quadrant ([frontier.rs]), the derivation
    of candidates ([candidate_frontier.rs]), unlock requirements
    ([frontier_eligibility.rs]) and the atomic reveal ([frontier_reveal.rs]).

    A method with a mutable receiver returns the state after the call also when
    it fails, so that "unchanged on error" is a theorem and not an assumption. *)

From S2P Require Import Prelude Core.
Import World.

(** The sort key [(coord.y(), coord.x())]. *)
Definition coord_le (a b : QuadrantCoord) : Prop :=
  qy a < qy b \/ (qy a = qy b /\ qx a <= qx b).

#[global] Instance coord_le_dec a b : Decision (coord_le a b).
Proof. unfold coord_le. apply _. Defined.

#[global] Instance coord_le_total : Total coord_le.
Proof. intros a b. unfold coord_le. lia. Qed.

#[global] Instance coord_le_trans : Transitive coord_le.
Proof. intros a b c. unfold coord_le. lia. Qed.

#[global] Instance coord_le_antisym : AntiSymm (=) coord_le.
Proof. intros [] []. unfold coord_le; cbn. intros. f_equal; lia. Qed.

Definition sort_coords (l : list QuadrantCoord) : list QuadrantCoord := merge_sort coord_le l.

Lemma sort_coords_Permutation l : sort_coords l ≡ₚ l.
Proof. apply merge_sort_Permutation. Qed.

Lemma elem_of_sort_coords l c : c ∈ sort_coords l <-> c ∈ l.
Proof. by rewrite sort_coords_Permutation. Qed.

(** ** The initial rectangle *)

Definition MAX_INITIAL_FRONTIER_AXIS : Z := 64.
Definition MAX_REVEALED_FRONTIER_QUADRANTS : Z := 65535.

Record InitialFrontier := {
  min_coord : QuadrantCoord;
  max_coord : QuadrantCoord;
  width : Z;
  height : Z;
  initial_quadrants : list QuadrantCoord
}.

Inductive InitialFrontierError :=
| EmptyDimension (axis : string)
| DimensionTooLarge (axis : string) (value maximum : Z)
| CoordinateOverflow (axis : string).

Definition validate_dimension (axis : string) (value : Z) : result InitialFrontierError unit :=
  if decide (value = 0) then Err (EmptyDimension axis)
  else if decide (value > MAX_INITIAL_FRONTIER_AXIS)
  then Err (DimensionTooLarge axis value MAX_INITIAL_FRONTIER_AXIS)
  else Ok tt.

(** The nested loops over [0..height] and [0..width], row by row. *)
Definition rectangle (min : QuadrantCoord) (w h : Z) : list QuadrantCoord :=
  offset_y ← seqZ 0 h;
  (fun offset_x => mk_coord (qx min + offset_x) (qy min + offset_y)) <$> seqZ 0 w.

Definition rectangular (min : QuadrantCoord) (w h : Z) : result InitialFrontierError InitialFrontier :=
  _ ← validate_dimension "width" w;
  _ ← validate_dimension "height" h;
  max_x ← ok_or (CoordinateOverflow "x") (checked_i 64 (qx min + (w - 1)));
  max_y ← ok_or (CoordinateOverflow "y") (checked_i 64 (qy min + (h - 1)));
  Ok {| min_coord := min; max_coord := mk_coord max_x max_y; width := w; height := h;
        initial_quadrants := rectangle min w h |}.

Definition initial_is_revealed (f : InitialFrontier) (c : QuadrantCoord) : bool :=
  bool_decide (qx c >= qx (min_coord f) /\ qx c <= qx (max_coord f) /\
               qy c >= qy (min_coord f) /\ qy c <= qy (max_coord f)).

Lemma validate_dimension_Ok axis v u :
  0 <= v -> validate_dimension axis v = Ok u <-> 1 <= v <= MAX_INITIAL_FRONTIER_AXIS.
Proof.
  intros Hv. unfold validate_dimension, MAX_INITIAL_FRONTIER_AXIS. destruct u.
  repeat case_decide; split; intros; try done; lia.
Qed.

Lemma elem_of_rectangle min w h c :
  c ∈ rectangle min w h <->
  qx min <= qx c < qx min + w /\ qy min <= qy c < qy min + h.
Proof.
  unfold rectangle. rewrite list_elem_of_bind. split.
  - intros (oy & (ox & -> & Hx%elem_of_seqZ)%list_elem_of_fmap & Hy%elem_of_seqZ). cbn. lia.
  - intros [Hx Hy]. exists (qy c - qy min). split; [|apply elem_of_seqZ; lia].
    apply list_elem_of_fmap. exists (qx c - qx min). split; [|apply elem_of_seqZ; lia].
    destruct c; cbn. f_equal; lia.
Qed.

Lemma length_row_major {A} (f : Z -> list A) (l : list Z) n :
  (forall y, length (f y) = n) -> length (l ≫= f) = (length l * n)%nat.
Proof. intros Hf. induction l; cbn; [done|]. by rewrite length_app, Hf, IHl. Qed.

Lemma length_rectangle min w h : length (rectangle min w h) = (Z.to_nat h * Z.to_nat w)%nat.
Proof.
  unfold rectangle. rewrite (length_row_major _ _ (Z.to_nat w)), length_seqZ; [done|].
  intros y. by rewrite length_fmap, length_seqZ.
Qed.

Lemma NoDup_rectangle min w h : NoDup (rectangle min w h).
Proof.
  unfold rectangle. apply NoDup_bind.
  - intros y1 y2 c _ _ (x1 & -> & _)%list_elem_of_fmap (x2 & E & _)%list_elem_of_fmap.
    injection E. lia.
  - intros y _. apply NoDup_fmap_2; [|apply NoDup_seqZ]. intros a b [= E]. lia.
  - apply NoDup_seqZ.
Qed.

(** A rectangular initial frontier is built exactly when both dimensions
    are in 1..64 and the far corner fits [i64]; it then lists each of its
    width * height quadrants once, and the constant-time rectangle test agrees
    with membership in that list. *)
Theorem initial_frontier_correct (min : QuadrantCoord) (w h : Z) :
  coord_ok min -> in_u 16 w -> in_u 16 h ->
  (is_ok (rectangular min w h) = true <->
     1 <= w <= 64 /\ 1 <= h <= 64 /\ in_i 64 (qx min + (w - 1)) /\ in_i 64 (qy min + (h - 1))) /\
  (forall f, rectangular min w h = Ok f ->
     NoDup (initial_quadrants f) /\
     Z.of_nat (length (initial_quadrants f)) = w * h /\
     Forall coord_ok (initial_quadrants f) /\
     forall c, initial_is_revealed f c = true <-> c ∈ initial_quadrants f).
Proof.
  intros [Hmx Hmy] Hw Hh. unfold in_u in Hw, Hh. split.
  - unfold rectangular. 
    destruct (validate_dimension "width" w) as [u|e] eqn:Ew;
      [apply validate_dimension_Ok in Ew; [|lia]|]; cbn.
    2: { split; [done|]. intros (H1 & _). assert (validate_dimension "width" w = Ok tt) by
           (apply validate_dimension_Ok; done || lia). congruence. }
    destruct (validate_dimension "height" h) as [u'|e] eqn:Eh;
      [apply validate_dimension_Ok in Eh; [|lia]|]; cbn.
    2: { split; [done|]. intros (_ & H1 & _). assert (validate_dimension "height" h = Ok tt) by
           (apply validate_dimension_Ok; done || lia). congruence. }
    unfold checked_i, MAX_INITIAL_FRONTIER_AXIS in *.
    destruct (decide (in_i 64 (qx min + (w - 1)))); cbn; [|naive_solver].
    destruct (decide (in_i 64 (qy min + (h - 1)))); cbn; [|naive_solver]. naive_solver.
  - intros f H. unfold rectangular in H.
    apply bind_Ok in H as ([] & Hvw & H). apply bind_Ok in H as ([] & Hvh & H).
    apply validate_dimension_Ok in Hvw; [|lia]. apply validate_dimension_Ok in Hvh; [|lia].
    apply bind_Ok in H as (mx & [-> Hx]%ok_or_Ok%checked_i_Some & H).
    apply bind_Ok in H as (my & [-> Hy]%ok_or_Ok%checked_i_Some & [= <-]). cbn.
    split_goals; [apply NoDup_rectangle|rewrite length_rectangle; lia| |].
    + apply list.Forall_forall. intros c Hc%elem_of_rectangle. unfold coord_ok, in_i in *. lia.
    + intros c. unfold initial_is_revealed. rewrite bool_decide_eq_true, elem_of_rectangle; cbn. lia.
Qed.

Lemma initial_frontier_correct_witness :
  exists f, rectangular (mk_coord (-1) 4) 3 2 = Ok f /\
    length (initial_quadrants f) = 6%nat /\ NoDup (initial_quadrants f).
Proof.
  eexists. split; [vm_compute; reflexivity|]. split; [reflexivity|].
  apply (initial_frontier_correct (mk_coord (-1) 4) 3 2);
    [split; split; vm_compute; congruence|split; vm_compute; congruence
    |split; vm_compute; congruence|vm_compute; reflexivity].
Defined.

(** ** Lifecycle of a quadrant *)

Inductive FrontierQuadrantState := Potential | Candidate | Prepared | Revealed.

#[global] Instance FrontierQuadrantState_eq_dec : EqDecision FrontierQuadrantState.
Proof. solve_decision. Defined.

Definition can_transition_to (from to : FrontierQuadrantState) : bool :=
  match from, to with
  | Potential, Candidate | Candidate, Prepared | Prepared, Revealed => true
  | _, _ => false
  end.

Record FrontierState := mk_frontier {
  revision : Z;
  revealed_quadrants : list QuadrantCoord;
  revealed_lookup : gset QuadrantCoord;
  lifecycle_states : gmap QuadrantCoord FrontierQuadrantState
}.

Inductive FrontierLifecycleError :=
| ZeroRevision
| InvalidTransition (coord : QuadrantCoord) (from to : FrontierQuadrantState)
| FrontierCapacityExceeded (attempted maximum : Z)
| RevisionOverflow.

Record FrontierLifecycleTransition := mk_transition {
  tr_coord : QuadrantCoord;
  tr_from : FrontierQuadrantState;
  tr_to : FrontierQuadrantState;
  tr_previous_revision : Z;
  tr_revision : Z
}.

Definition advances_public_revision (t : FrontierLifecycleTransition) : bool :=
  bool_decide (tr_revision t <> tr_previous_revision t).

Definition from_initial (initial : InitialFrontier) (rev : Z)
  : result FrontierLifecycleError FrontierState :=
  if decide (rev = 0) then Err ZeroRevision
  else Ok {| revision := rev;
             revealed_quadrants := initial_quadrants initial;
             revealed_lookup := list_to_set (initial_quadrants initial);
             lifecycle_states := ∅ |}.

Definition state (s : FrontierState) (c : QuadrantCoord) : FrontierQuadrantState :=
  if decide (c ∈ revealed_lookup s) then Revealed else default Potential (lifecycle_states s !! c).

Definition is_revealed (s : FrontierState) (c : QuadrantCoord) : bool :=
  bool_decide (c ∈ revealed_lookup s).

Definition quadrants_in_state (s : FrontierState) (target : FrontierQuadrantState)
  : list QuadrantCoord :=
  if decide (target = Revealed) then sort_coords (revealed_quadrants s)
  else sort_coords ((map_to_list (filter (fun '(_, st) => st = target) (lifecycle_states s))).*1).

(** The revision a transition to [target] leads to, with the checks made
    before anything is written. *)
Definition next_revision (s : FrontierState) (target : FrontierQuadrantState)
  : result FrontierLifecycleError Z :=
  if decide (target = Revealed) then
    next_len ← ok_or (FrontierCapacityExceeded (u_max 64) MAX_REVEALED_FRONTIER_QUADRANTS)
                     (checked_u 64 (Z.of_nat (length (revealed_quadrants s)) + 1));
    if decide (next_len > MAX_REVEALED_FRONTIER_QUADRANTS)
    then Err (FrontierCapacityExceeded next_len MAX_REVEALED_FRONTIER_QUADRANTS)
    else ok_or RevisionOverflow (checked_u 64 (revision s + 1))
  else Ok (revision s).

Definition transition (s : FrontierState) (c : QuadrantCoord) (target : FrontierQuadrantState)
  : FrontierState * result FrontierLifecycleError (option FrontierLifecycleTransition) :=
  let current := state s c in
  if decide (current = target) then (s, Ok None)
  else if can_transition_to current target then
    match next_revision s target with
    | Err e => (s, Err e)
    | Ok next =>
        let s' :=
          if decide (target = Revealed) then
            {| revision := next;
               revealed_quadrants := revealed_quadrants s ++ [c];
               revealed_lookup := {[ c ]} ∪ revealed_lookup s;
               lifecycle_states := delete c (lifecycle_states s) |}
          else
            {| revision := revision s;
               revealed_quadrants := revealed_quadrants s;
               revealed_lookup := revealed_lookup s;
               lifecycle_states := <[c := target]> (lifecycle_states s) |} in
        (s', Ok (Some (mk_transition c current target (revision s) next)))
    end
  else (s, Err (InvalidTransition c current target)).

Definition mark_candidate s c := transition s c Candidate.
Definition mark_prepared s c := transition s c Prepared.
Definition reveal s c := transition s c Revealed.

(** *** Invariant *)

Record frontier_wf (s : FrontierState) : Prop := {
  fw_lookup : revealed_lookup s = list_to_set (revealed_quadrants s);
  fw_nodup : NoDup (revealed_quadrants s);
  fw_disjoint : forall c, c ∈ revealed_lookup s -> lifecycle_states s !! c = None;
  fw_states : forall c st, lifecycle_states s !! c = Some st -> st = Candidate \/ st = Prepared;
  fw_capacity : Z.of_nat (length (revealed_quadrants s)) <= MAX_REVEALED_FRONTIER_QUADRANTS;
  fw_revision : 0 < revision s < 2 ^ 64
}.

Definition rank (st : FrontierQuadrantState) : Z :=
  match st with Potential => 0 | Candidate => 1 | Prepared => 2 | Revealed => 3 end.

Lemma can_transition_to_rank a b : can_transition_to a b = true <-> rank b = rank a + 1.
Proof. destruct a, b; cbn; split; intros; done || lia. Qed.

Lemma rank_inj a b : rank a = rank b -> a = b.
Proof. by destruct a, b. Qed.

Lemma state_Revealed s c : frontier_wf s -> state s c = Revealed <-> c ∈ revealed_lookup s.
Proof.
  intros Hwf. unfold state. destruct (decide (c ∈ revealed_lookup s)) as [?|Hn]; [naive_solver|].
  destruct (lifecycle_states s !! c) as [st|] eqn:E; cbn; [|naive_solver].
  destruct (fw_states s Hwf c st E); subst; naive_solver.
Qed.

Lemma state_lifecycle s c st :
  frontier_wf s -> st = Candidate \/ st = Prepared ->
  state s c = st <-> lifecycle_states s !! c = Some st.
Proof.
  intros Hwf Hst. unfold state. destruct (decide (c ∈ revealed_lookup s)) as [Hin|Hn].
  - rewrite (fw_disjoint s Hwf c Hin). destruct Hst; subst; done.
  - destruct (lifecycle_states s !! c) as [st'|]; cbn; destruct Hst; subst; naive_solver.
Qed.

Lemma next_revision_Ok s target next :
  next_revision s target = Ok next ->
  (target <> Revealed /\ next = revision s) \/
  (target = Revealed /\ next = revision s + 1 /\ next < 2 ^ 64 /\
   Z.of_nat (length (revealed_quadrants s)) < MAX_REVEALED_FRONTIER_QUADRANTS).
Proof.
  unfold next_revision. case_decide as Ht; [|intros [= <-]; auto].
  intros (n & [-> _]%ok_or_Ok%checked_u_Some & H)%bind_Ok. case_decide as Hm; [done|].
  apply ok_or_Ok, checked_u_Some in H as [-> [_ Hlt]]. right. split_goals; (done || lia).
Qed.

Lemma next_revision_total s target :
  (target = Revealed ->
     Z.of_nat (length (revealed_quadrants s)) < MAX_REVEALED_FRONTIER_QUADRANTS /\ revision s + 1 < 2 ^ 64) ->
  0 < revision s ->
  exists next, next_revision s target = Ok next.
Proof.
  unfold next_revision, MAX_REVEALED_FRONTIER_QUADRANTS. intros Hcap Hr.
  destruct (decide (target = Revealed)) as [Ht|]; [|eauto]. destruct (Hcap Ht).
  rewrite !checked_u_in by (unfold in_u; lia). unfold ok_or, mbind, result_bind. cbv beta iota.
  rewrite decide_False by lia. eauto.
Qed.

(** Every way a transition can end. *)
Lemma transition_cases s c target s' r :
  transition s c target = (s', r) ->
  (s' = s /\ r = Ok None /\ state s c = target) \/
  (s' = s /\ exists e, r = Err e) \/
  (rank target = rank (state s c) + 1 /\ exists next,
     next_revision s target = Ok next /\
     r = Ok (Some (mk_transition c (state s c) target (revision s) next)) /\
     s' = if decide (target = Revealed) then
            mk_frontier next (revealed_quadrants s ++ [c]) ({[ c ]} ∪ revealed_lookup s)
              (delete c (lifecycle_states s))
          else mk_frontier (revision s) (revealed_quadrants s) (revealed_lookup s)
              (<[c := target]> (lifecycle_states s))).
Proof.
  unfold transition. case_decide as Hc; [intros [= <- <-]; auto|].
  destruct (can_transition_to _ _) eqn:Ht; [|intros [= <- <-]; eauto].
  apply can_transition_to_rank in Ht.
  destruct (next_revision s target) as [next|e]; intros [= <- <-]; [|eauto].
  right; right. split; [done|]. eauto.
Qed.

Lemma transition_wf s c target :
  frontier_wf s -> frontier_wf (fst (transition s c target)).
Proof.
  intros Hwf. destruct (transition s c target) as [s' r] eqn:E. cbn.
  apply transition_cases in E as [(-> & _)|[(-> & _)|(Hr & next & Hn & _ & ->)]]; [done|done|].
  apply next_revision_Ok in Hn as [[Ht ->]|(-> & -> & Hlt & Hcap)].
  - rewrite decide_False by done. destruct Hwf. split; cbn; try done.
    + intros x Hx. rewrite lookup_insert_ne; [auto|]. intros <-.
      unfold state in Hr. rewrite decide_True in Hr by done. destruct target; done.
    + intros x st. destruct (decide (c = x)) as [<-|Hne].
      * rewrite lookup_insert_eq. intros [= <-].
        destruct target; [|by left|by right|done]. destruct (state s c); done.
      * rewrite lookup_insert_ne by done. eauto.
  - rewrite decide_True by done.
    assert (c ∉ revealed_lookup s) as Hc.
    { intros Hc. unfold state in Hr. rewrite decide_True in Hr by done. cbn in Hr. lia. }
    destruct Hwf as [Hl Hnd Hd Hs Hcp Hrv]. split; cbn.
    + rewrite list_to_set_app_L, Hl. cbn. set_solver.
    + apply list.NoDup_app. split_goals; [done| |apply NoDup_singleton].
      intros x Hx ->%list_elem_of_singleton. apply Hc. rewrite Hl. by apply elem_of_list_to_set.
    + intros x Hx. destruct (decide (c = x)) as [<-|Hne]; [apply lookup_delete_eq|].
      rewrite lookup_delete_ne by done. apply Hd. set_solver.
    + intros x st [_ Hx]%lookup_delete_Some. eauto.
    + rewrite length_app. cbn. lia.
    + lia.
Qed.

(** The effect of a transition on every coordinate. *)
Lemma state_after s c target s' r d :
  frontier_wf s -> transition s c target = (s', r) ->
  state s' d = (if decide (d = c /\ is_ok r = true) then target else state s d) /\
  (r = Ok None -> s' = s) /\ (is_ok r = false -> s' = s).
Proof.
  intros Hwf H.
  apply transition_cases in H as [(-> & -> & Hst)|[(-> & e & ->)|(Hr & next & Hn & -> & ->)]].
  - split_goals; try done. case_decide as Hx; [destruct Hx as [-> _]|]; done.
  - split_goals; try done. rewrite decide_False by naive_solver. done.
  - split_goals; try done. destruct (decide (d = c)) as [->|Hne].
    + rewrite (decide_True (P := c = c /\ _)) by done.
      case_decide as Ht; unfold state; cbn.
      * rewrite decide_True by set_solver. done.
      * rewrite lookup_insert_eq. cbn. rewrite decide_False; [done|].
        intros Hin. unfold state in Hr. rewrite decide_True in Hr by done. destruct target; done.
    + rewrite (decide_False (P := d = c /\ _)) by naive_solver.
      case_decide as Ht; unfold state; cbn.
      * rewrite lookup_delete_ne by done. destruct (decide (d ∈ revealed_lookup s)).
        -- rewrite decide_True by set_solver. done.
        -- rewrite decide_False by set_solver. done.
      * rewrite lookup_insert_ne by done. done.
Qed.

Lemma revision_after s c target s' r :
  transition s c target = (s', r) ->
  revision s' - revision s =
    Z.of_nat (length (revealed_quadrants s')) - Z.of_nat (length (revealed_quadrants s)) /\
  (exists suffix, revealed_quadrants s' = revealed_quadrants s ++ suffix) /\
  (target <> Revealed -> revision s' = revision s /\ revealed_quadrants s' = revealed_quadrants s).
Proof.
  intros H.
  apply transition_cases in H as [(-> & -> & Hst)|[(-> & e & ->)|(Hr & next & Hn & -> & ->)]].
  - split_goals; [lia|exists []; by rewrite app_nil_r|done].
  - split_goals; [lia|exists []; by rewrite app_nil_r|done].
  - apply next_revision_Ok in Hn as [[Ht ->]|(-> & -> & _)].
    + rewrite decide_False by done. cbn. split_goals; [lia|exists []; by rewrite app_nil_r|done].
    + rewrite decide_True by done. cbn. rewrite length_app. cbn.
      split_goals; [lia|eauto|done].
Qed.

(** ** Candidate derivation ([candidate_frontier.rs]) *)

Inductive CandidateFrontierError :=
| QuadrantCoordinateOverflow (coord : QuadrantCoord) (axis : string) (delta : Z)
| Lifecycle (e : FrontierLifecycleError).

Definition CARDINAL_NEIGHBORS : list (Z * Z) := [(-1, 0); (1, 0); (0, -1); (0, 1)].

Definition checked_neighbor (c : QuadrantCoord) (delta_x delta_y : Z)
  : result CandidateFrontierError QuadrantCoord :=
  x ← ok_or (QuadrantCoordinateOverflow c "x" delta_x) (checked_i 64 (qx c + delta_x));
  y ← ok_or (QuadrantCoordinateOverflow c "y" delta_y) (checked_i 64 (qy c + delta_y));
  Ok (mk_coord x y).

(** The nested loop over the revealed quadrants and their four neighbours, with
    the set [seen] and the vector [newly_candidates] as accumulators. *)
Fixpoint collect_candidates (s : FrontierState) (todo : list (QuadrantCoord * (Z * Z)))
    (seen : gset QuadrantCoord) (newly : list QuadrantCoord)
  : result CandidateFrontierError (list QuadrantCoord) :=
  match todo with
  | [] => Ok newly
  | (c, (dx, dy)) :: todo' =>
      neighbor ← checked_neighbor c dx dy;
      if decide (state s neighbor = Potential /\ neighbor ∉ seen)
      then collect_candidates s todo' ({[ neighbor ]} ∪ seen) (newly ++ [neighbor])
      else collect_candidates s todo' seen newly
  end.

(** The loop that marks every new candidate and stops at the first error. *)
Fixpoint mark_all (s : FrontierState) (l : list QuadrantCoord)
  : FrontierState * result FrontierLifecycleError unit :=
  match l with
  | [] => (s, Ok tt)
  | c :: l' =>
      match mark_candidate s c with
      | (s', Ok _) => mark_all s' l'
      | (s', Err e) => (s', Err e)
      end
  end.

Definition neighbor_pairs (l : list QuadrantCoord) : list (QuadrantCoord * (Z * Z)) :=
  c ← l; pair c <$> CARDINAL_NEIGHBORS.

Definition derive_candidate_frontier (s : FrontierState)
  : FrontierState * result CandidateFrontierError (list QuadrantCoord) :=
  match collect_candidates s (neighbor_pairs (revealed_quadrants s)) ∅ [] with
  | Err e => (s, Err e)
  | Ok found =>
      let newly_candidates := sort_coords found in
      match mark_all s newly_candidates with
      | (s', Ok _) => (s', Ok newly_candidates)
      | (s', Err e) => (s', Err (Lifecycle e))
      end
  end.

(** *** Facts *)

Definition adjacent (a b : QuadrantCoord) : Prop :=
  exists d, d ∈ CARDINAL_NEIGHBORS /\ b = mk_coord (qx a + d.1) (qy a + d.2).

Lemma elem_of_neighbor_pairs l c d :
  (c, d) ∈ neighbor_pairs l <-> c ∈ l /\ d ∈ CARDINAL_NEIGHBORS.
Proof.
  unfold neighbor_pairs. rewrite list_elem_of_bind. split.
  - intros (x & (y & [= -> ->] & Hy)%list_elem_of_fmap & Hx). done.
  - intros [Hc Hd]. exists c. split; [|done]. apply list_elem_of_fmap. eauto.
Qed.

Lemma checked_neighbor_Ok c dx dy n :
  checked_neighbor c dx dy = Ok n ->
  n = mk_coord (qx c + dx) (qy c + dy) /\ coord_ok n.
Proof.
  unfold checked_neighbor.
  intros (x & [-> Hx]%ok_or_Ok%checked_i_Some & (y & [-> Hy]%ok_or_Ok%checked_i_Some & [= <-])%bind_Ok)%bind_Ok.
  done.
Qed.

Lemma collect_candidates_Ok s todo : forall seen newly l,
  (forall c, c ∈ seen <-> c ∈ newly) -> NoDup newly ->
  collect_candidates s todo seen newly = Ok l ->
  NoDup l /\
  (forall n, n ∈ l <-> n ∈ newly \/
     (state s n = Potential /\ exists c d, (c, d) ∈ todo /\ n = mk_coord (qx c + d.1) (qy c + d.2))) /\
  (forall c d, (c, d) ∈ todo -> coord_ok (mk_coord (qx c + d.1) (qy c + d.2))).
Proof.
  induction todo as [|[c [dx dy]] todo IH]; intros seen newly l Hseen Hnd H; cbn in H.
  { injection H as <-. split_goals; [done| |set_solver]. intros n. set_solver. }
  apply bind_Ok in H as (n & [-> Hok]%checked_neighbor_Ok & H).
  case_decide as Hc.
  - destruct Hc as [Hp Hns]. apply IH in H as (H1 & H2 & H3).
    + split_goals; [done| |].
      * intros n. rewrite H2, elem_of_app, list_elem_of_singleton. split.
        -- intros [[?| ->]|(? & c' & d & ? & ?)]; [by left| |].
           ++ right. split; [done|]. exists c, (dx, dy). set_solver.
           ++ right. split; [done|]. exists c', d. set_solver.
        -- intros [?|(? & c' & d & [[= -> ->]|?]%elem_of_cons & ->)]; [auto|auto|].
           right. eauto.
      * intros c' d [[= -> ->]|?]%elem_of_cons; [done|eauto].
    + set_solver.
    + apply list.NoDup_app. split_goals; [done| |apply NoDup_singleton].
      intros x Hx ->%list_elem_of_singleton. apply Hns, Hseen, Hx.
  - apply IH in H as (H1 & H2 & H3); [|done|done]. split_goals; [done| |].
    + intros n. rewrite H2. split.
      * intros [?|(? & c' & d & ? & ?)]; [by left|]. right. split; [done|]. exists c', d. set_solver.
      * intros [?|(Hp & c' & d & [[= -> ->]|?]%elem_of_cons & ->)]; [by left| |].
        -- left. apply Hseen. destruct (decide (mk_coord (qx c + dx) (qy c + dy) ∈ seen)); [done|].
           exfalso. apply Hc. done.
        -- right. eauto.
    + intros c' d [[= -> ->]|?]%elem_of_cons; [done|eauto].
Qed.

Lemma mark_all_spec l : forall s,
  frontier_wf s -> NoDup l -> (forall c, c ∈ l -> state s c = Potential) ->
  snd (mark_all s l) = Ok tt /\ frontier_wf (fst (mark_all s l)) /\
  revision (fst (mark_all s l)) = revision s /\
  revealed_quadrants (fst (mark_all s l)) = revealed_quadrants s /\
  forall d, state (fst (mark_all s l)) d = if decide (d ∈ l) then Candidate else state s d.
Proof.
  induction l as [|c l IH]; intros s Hwf Hnd Hp; cbn [mark_all].
  { by split_goals. }
  apply list.NoDup_cons in Hnd as [Hc Hnd].
  pose proof (transition_wf s c Candidate Hwf) as Hwf1.
  destruct (mark_candidate s c) as [s1 r] eqn:E. unfold mark_candidate in E. rewrite E in Hwf1.
  assert (is_ok r = true) as Hr.
  { unfold transition in E. rewrite (Hp c) in E by set_solver. cbn in E.
    rewrite decide_False in E by done. cbn in E. by injection E as _ <-. }
  destruct r as [o|]; [|done]. cbn in Hwf1.
  pose proof (fun d => proj1 (state_after s c Candidate s1 _ d Hwf E)) as Hst.
  destruct (revision_after s c Candidate s1 _ E) as (_ & _ & Hrev).
  destruct (Hrev ltac:(done)) as [Hrv Hrq].
  destruct (IH s1) as (I1 & I2 & I3 & I4 & I5); [done|done| |].
  { intros x Hx. rewrite Hst, decide_False; [apply Hp; set_solver|]. intros [-> _]. done. }
  split_goals; [done|done|congruence|congruence|].
  intros d. rewrite I5, Hst. cbn.
  destruct (decide (d = c)) as [->|Hne].
  - rewrite (decide_False (P := c ∈ l)) by done. rewrite !decide_True by set_solver. done.
  - rewrite (decide_False (P := d = c /\ _)) by naive_solver.
    apply decide_ext. set_solver.
Qed.

Lemma derive_cases s s' r :
  frontier_wf s -> derive_candidate_frontier s = (s', r) ->
  (s' = s /\ exists e, r = Err e) \/
  (exists l, r = Ok l /\ NoDup l /\ Sorted coord_le l /\ frontier_wf s' /\
     revision s' = revision s /\ revealed_quadrants s' = revealed_quadrants s /\
     (forall n, n ∈ l <-> state s n = Potential /\ exists c, c ∈ revealed_quadrants s /\ adjacent c n) /\
     (forall d, state s' d = if decide (d ∈ l) then Candidate else state s d)).
Proof.
  intros Hwf H. unfold derive_candidate_frontier in H.
  destruct (collect_candidates _ _ _ _) as [found|e] eqn:Ec; [|injection H as <- <-; eauto].
  destruct (collect_candidates_Ok s _ ∅ [] found ltac:(set_solver) ltac:(constructor) Ec)
    as (Hnd & Hin & _).
  assert (NoDup (sort_coords found)) as Hnds by (by rewrite sort_coords_Permutation).
  assert (forall n, n ∈ sort_coords found <->
    state s n = Potential /\ exists c, c ∈ revealed_quadrants s /\ adjacent c n) as Hin'.
  { intros n. rewrite elem_of_sort_coords, Hin. split.
    - intros [Hx|(Hp & c & d & [Hc Hd]%elem_of_neighbor_pairs & ->)]; [by apply not_elem_of_nil in Hx|].
      split; [done|]. exists c. split; [done|]. by exists d.
    - intros (Hp & c & Hc & d & Hd & ->). right. split; [done|]. exists c, d.
      split; [by apply elem_of_neighbor_pairs|done]. }
  destruct (mark_all_spec (sort_coords found) s Hwf Hnds) as (H1 & H2 & H3 & H4 & H5).
  { intros c Hc. by apply Hin'. }
  destruct (mark_all s (sort_coords found)) as [s1 rm]. cbn in *. subst rm.
  injection H as <- <-. right. exists (sort_coords found). split_goals; try done.
  apply Sorted_merge_sort, _.
Qed.

(** A new candidate is a neighbour that fits its 64 bits. *)
Lemma derive_coords s s' l n : frontier_wf s -> derive_candidate_frontier s = (s', Ok l) -> n ∈ l -> coord_ok n.
Proof.
  intros Hwf H Hn. unfold derive_candidate_frontier in H.
  destruct (collect_candidates _ _ _ _) as [found|e] eqn:Ec; [|done].
  destruct (collect_candidates_Ok s _ ∅ [] found ltac:(set_solver) ltac:(constructor) Ec) as (_ & Hin & Hok).
  destruct (mark_all _ _) as [s1 []]; [|done]. injection H as _ <-.
  rewrite elem_of_sort_coords, Hin in Hn. destruct Hn as [Hx|(_ & c & d & Hcd & ->)]; [by apply not_elem_of_nil in Hx|].
  by apply Hok.
Qed.

Lemma collect_candidates_total s todo : forall seen newly,
  (forall c d, (c, d) ∈ todo -> coord_ok (mk_coord (qx c + d.1) (qy c + d.2))) ->
  is_ok (collect_candidates s todo seen newly) = true.
Proof.
  induction todo as [|[c [dx dy]] todo IH]; intros seen newly H; cbn; [done|].
  destruct (H c (dx, dy)) as [Hx Hy]; [by left|]. cbn in Hx, Hy. unfold checked_neighbor, checked_i.
  rewrite !decide_True by done. cbn. case_decide; apply IH; intros; apply H; by right.
Qed.

(** When no neighbour overflows, the candidates are derived. *)
Lemma derive_total s : frontier_wf s ->
  (forall c d, c ∈ revealed_quadrants s -> d ∈ CARDINAL_NEIGHBORS -> coord_ok (mk_coord (qx c + d.1) (qy c + d.2))) ->
  is_ok (derive_candidate_frontier s).2 = true.
Proof.
  intros Hwf H. pose proof (collect_candidates_total s (neighbor_pairs (revealed_quadrants s)) ∅ []) as Ht.
  unfold derive_candidate_frontier. destruct (collect_candidates _ _ _ _) as [found|e] eqn:Ec.
  2: { discriminate Ht. intros c d [Hc Hd]%elem_of_neighbor_pairs. by apply H. }
  destruct (collect_candidates_Ok s _ ∅ [] found ltac:(set_solver) ltac:(constructor) Ec) as (Hnd & Hin & _).
  destruct (mark_all_spec (sort_coords found) s Hwf) as (H1 & _).
  - by rewrite sort_coords_Permutation.
  - intros c. rewrite elem_of_sort_coords, Hin. by intros [Hx%not_elem_of_nil|[? _]].
  - destruct (mark_all _ _) as [s1 r]. cbn in H1. by subst r.
Qed.

(** What keeps a prepared quadrant from being revealed: 65535 are already, or the last revision is used. *)
Definition no_room (s : FrontierState) (e : FrontierLifecycleError) : Prop :=
  match e with
  | FrontierCapacityExceeded attempted maximum =>
      attempted = 65536 /\ maximum = 65535 /\ Z.of_nat (length (revealed_quadrants s)) = 65535
  | RevisionOverflow => revision s = 2 ^ 64 - 1
  | _ => False
  end.

Lemma reveal_no_room s c s' e : frontier_wf s -> state s c = Prepared -> reveal s c = (s', Err e) -> no_room s e.
Proof.
  intros Hwf Hst H. pose proof (fw_capacity s Hwf) as Hcap. pose proof (fw_revision s Hwf) as Hrev.
  unfold reveal, transition in H. rewrite Hst in H. cbn in H. rewrite decide_False in H by done.
  unfold next_revision, checked_u, in_u, MAX_REVEALED_FRONTIER_QUADRANTS in *. rewrite decide_True in H by done. rewrite (decide_True (P := 0 <= Z.of_nat _ + 1 < 2 ^ 64)) in H by lia.
  cbn [ok_or mbind result_bind] in H. case_decide; [injection H as _ <-; cbn; lia|].
  case_decide; cbn [ok_or] in H; [done|]. injection H as _ <-. cbn. lia.
Qed.

(** ** Unlock requirements ([frontier_eligibility.rs]) *)

Inductive FrontierEligibilityError :=
| ZeroRequirementId
| EmptyRequirementSet (coord : QuadrantCoord)
| DuplicateRequirement (coord : QuadrantCoord) (requirement : Z)
| UnknownRequirement (coord : QuadrantCoord) (requirement : Z).

Definition requirement_id_new (value : Z) : result FrontierEligibilityError Z :=
  if decide (value = 0) then Err ZeroRequirementId else Ok value.

Record FrontierUnlockRequirements := { req_coord : QuadrantCoord; req_list : list Z }.

(** [windows(2).find(|pair| pair[0] == pair[1])]. *)
Fixpoint adjacent_duplicate (l : list Z) : option Z :=
  match l with
  | a :: ((b :: _) as l') => if decide (a = b) then Some a else adjacent_duplicate l'
  | _ => None
  end.

Definition unlock_requirements_new (c : QuadrantCoord) (requirements : list Z)
  : result FrontierEligibilityError FrontierUnlockRequirements :=
  match requirements with
  | [] => Err (EmptyRequirementSet c)
  | _ =>
      let sorted := merge_sort Z.le requirements in
      match adjacent_duplicate sorted with
      | Some d => Err (DuplicateRequirement c d)
      | None => Ok {| req_coord := c; req_list := sorted |}
      end
  end.

Record FrontierEligibilityEvaluation := { ev_coord : QuadrantCoord; ev_unsatisfied : list Z }.

Definition is_eligible (e : FrontierEligibilityEvaluation) : bool :=
  match ev_unsatisfied e with [] => true | _ => false end.

(** The trait [FrontierRequirementResolver]: [None] is an unknown requirement. *)
Abbreviation Resolver := (QuadrantCoord -> Z -> option bool).

Fixpoint unsatisfied (resolver : Resolver) (c : QuadrantCoord) (reqs : list Z)
  : result FrontierEligibilityError (list Z) :=
  match reqs with
  | [] => Ok []
  | r :: reqs' =>
      match resolver c r with
      | Some true => unsatisfied resolver c reqs'
      | Some false => rest ← unsatisfied resolver c reqs'; Ok (r :: rest)
      | None => Err (UnknownRequirement c r)
      end
  end.

Definition evaluate_frontier_eligibility (requirements : FrontierUnlockRequirements)
    (resolver : Resolver) : result FrontierEligibilityError FrontierEligibilityEvaluation :=
  l ← unsatisfied resolver (req_coord requirements) (req_list requirements);
  Ok {| ev_coord := req_coord requirements; ev_unsatisfied := l |}.

Lemma adjacent_duplicate_None l :
  Sorted Z.le l -> adjacent_duplicate l = None <-> NoDup l.
Proof.
  intros Hs%Sorted_StronglySorted; [|apply _].
  induction Hs as [|a l Hs IH Ha]; cbn; [split; [constructor|done]|].
  destruct l as [|b l]; [split; [intros _; apply NoDup_singleton|done]|].
  case_decide as Hab.
  - subst. split; [done|]. intros [Hn _]%list.NoDup_cons. set_solver.
  - rewrite IH, (list.NoDup_cons a). split; [|tauto]. intros Hnd. split; [|done].
    intros Hin. rewrite list.Forall_forall in Ha.
    apply StronglySorted_Sorted in Hs. inversion Hs as [|? ? Hs' Hb]; subst.
    apply elem_of_cons in Hin as [->|Hin]; [done|].
    assert (StronglySorted Z.le (b :: l)) as Hss by (apply Sorted_StronglySorted; [apply _|by constructor]).
    inversion Hss as [|? ? _ Hall]; subst. rewrite list.Forall_forall in Hall.
    specialize (Hall a Hin). specialize (Ha b ltac:(set_solver)). lia.
Qed.

Lemma unsatisfied_Ok resolver c reqs l :
  unsatisfied resolver c reqs = Ok l <->
  Forall (fun r => resolver c r <> None) reqs /\
  l = filter (fun r => resolver c r = Some false) reqs.
Proof.
  revert l. induction reqs as [|r reqs IH]; intros l; cbn [unsatisfied].
  { split; [by intros [= <-]|by intros [_ ->]]. }
  rewrite list.Forall_cons, list.filter_cons.
  destruct (resolver c r) as [[]|] eqn:E.
  - rewrite decide_False by done. rewrite IH. naive_solver.
  - rewrite decide_True by done. rewrite bind_Ok. setoid_rewrite IH. naive_solver.
  - naive_solver.
Qed.

(** Unlock requirements are accepted exactly when they are non-empty and
    free of duplicates, and are then kept sorted; evaluating them fails exactly
    when the resolver does not know one of them, and otherwise reports exactly
    the unsatisfied ones, so a quadrant is eligible iff all are satisfied. *)
Theorem eligibility_correct (c : QuadrantCoord) (reqs : list Z) (resolver : Resolver) :
  (is_ok (unlock_requirements_new c reqs) = true <-> reqs <> [] /\ NoDup reqs) /\
  (forall u, unlock_requirements_new c reqs = Ok u ->
     req_coord u = c /\ req_list u ≡ₚ reqs /\ Sorted Z.le (req_list u)) /\
  (forall u, is_ok (evaluate_frontier_eligibility u resolver) = true <->
     Forall (fun r => resolver (req_coord u) r <> None) (req_list u)) /\
  (forall u e, evaluate_frontier_eligibility u resolver = Ok e ->
     (forall r, r ∈ ev_unsatisfied e <-> r ∈ req_list u /\ resolver (req_coord u) r = Some false) /\
     (is_eligible e = true <-> Forall (fun r => resolver (req_coord u) r = Some true) (req_list u))).
Proof.
  assert (Sorted Z.le (merge_sort Z.le reqs)) as Hs by (apply Sorted_merge_sort, _).
  pose proof (merge_sort_Permutation Z.le reqs) as Hp.
  assert (adjacent_duplicate (merge_sort Z.le reqs) = None <-> NoDup reqs) as Hdup
    by (rewrite adjacent_duplicate_None by done; by rewrite Hp).
  split_goals.
  - unfold unlock_requirements_new. destruct reqs as [|r reqs]; [naive_solver|].
    destruct (adjacent_duplicate _); cbn; naive_solver.
  - intros u H. unfold unlock_requirements_new in H. destruct reqs as [|r reqs]; [done|].
    destruct (adjacent_duplicate _); [done|]. injection H as <-. done.
  - intros u. unfold evaluate_frontier_eligibility.
    destruct (unsatisfied _ _ _) as [l|e] eqn:E; cbn.
    + apply unsatisfied_Ok in E as [E _]. done.
    + split; [done|]. intros HF.
      assert (unsatisfied resolver (req_coord u) (req_list u) = Ok _) as E'
        by (apply unsatisfied_Ok; split; [exact HF|reflexivity]). congruence.
  - intros u e H. unfold evaluate_frontier_eligibility in H.
    apply bind_Ok in H as (l & [HF ->]%unsatisfied_Ok & [= <-]). cbn. split.
    + intros r. rewrite list_elem_of_filter. tauto.
    + unfold is_eligible. cbn. rewrite list.Forall_forall in HF. rewrite list.Forall_forall.
      destruct (filter _ _) as [|x xs] eqn:Ef.
      * split; [intros _|done]. intros r Hr. specialize (HF r Hr).
        destruct (resolver (req_coord u) r) as [[]|] eqn:Er; [done| |done].
        assert (r ∈ filter (fun r => resolver (req_coord u) r = Some false) (req_list u))
          as Hin by (by apply list_elem_of_filter). rewrite Ef in Hin. set_solver.
      * split; [done|]. intros Hall.
        assert (x ∈ filter (fun r => resolver (req_coord u) r = Some false) (req_list u))
          as [Hx Hin]%list_elem_of_filter by (rewrite Ef; set_solver).
        rewrite (Hall x Hin) in Hx. done.
Qed.

(** ** The atomic reveal ([frontier_reveal.rs]) *)

Inductive AuthoritativeRevealOutcome :=
| Blocked (evaluation : FrontierEligibilityEvaluation)
| AlreadyRevealed (coord : QuadrantCoord) (rev : Z)
| RevealCommitted (t : FrontierLifecycleTransition) (newly_candidates : list QuadrantCoord).

Inductive AuthoritativeRevealError :=
| NotPrepared (coord : QuadrantCoord) (actual : FrontierQuadrantState)
| MissingRevealTransition (coord : QuadrantCoord)
| RevealEligibility (e : FrontierEligibilityError)
| RevealLifecycle (e : FrontierLifecycleError)
| RevealCandidateFrontier (e : CandidateFrontierError).

(** The part of the commit that works on the staged copy. *)
Definition stage_reveal (s : FrontierState) (c : QuadrantCoord)
  : result AuthoritativeRevealError (FrontierState * FrontierLifecycleTransition * list QuadrantCoord) :=
  let '(staged, revealed) := reveal s c in
  revealed ← map_err RevealLifecycle revealed;
  transition ← ok_or (MissingRevealTransition c) revealed;
  let '(staged', derivation) := derive_candidate_frontier staged in
  newly ← map_err RevealCandidateFrontier derivation;
  Ok (staged', transition, newly).

Definition commit_authoritative_reveal (s : FrontierState) (requirements : FrontierUnlockRequirements)
    (resolver : Resolver)
  : FrontierState * result AuthoritativeRevealError AuthoritativeRevealOutcome :=
  let c := req_coord requirements in
  match state s c with
  | Revealed => (s, Ok (AlreadyRevealed c (revision s)))
  | Prepared =>
      match evaluate_frontier_eligibility requirements resolver with
      | Err e => (s, Err (RevealEligibility e))
      | Ok evaluation =>
          if is_eligible evaluation then
            match stage_reveal s c with
            | Err e => (s, Err e)
            | Ok (staged, t, newly) => (staged, Ok (RevealCommitted t newly))
            end
          else (s, Ok (Blocked evaluation))
      end
  | actual => (s, Err (NotPrepared c actual))
  end.

Lemma stage_reveal_Ok s c s' t newly :
  frontier_wf s -> state s c = Prepared -> stage_reveal s c = Ok (s', t, newly) ->
  exists s1, transition s c Revealed = (s1, Ok (Some t)) /\ frontier_wf s1 /\
    derive_candidate_frontier s1 = (s', Ok newly).
Proof.
  intros Hwf Hst H. unfold stage_reveal, reveal in H.
  pose proof (transition_wf s c Revealed Hwf) as Hwf1.
  destruct (transition s c Revealed) as [s1 [o|e]] eqn:E; cbn in H; [|done].
  destruct o as [t'|]; cbn in H; [|done].
  destruct (derive_candidate_frontier s1) as [s2 [l|e]] eqn:Ed; cbn in H; [|done].
  injection H as <- <- <-. eauto.
Qed.

Lemma commit_cases s u resolver s' r :
  frontier_wf s -> commit_authoritative_reveal s u resolver = (s', r) ->
  (s' = s /\ (forall t l, r <> Ok (RevealCommitted t l))) \/
  (exists s1 t l, r = Ok (RevealCommitted t l) /\ state s (req_coord u) = Prepared /\
     (exists ev, evaluate_frontier_eligibility u resolver = Ok ev /\ is_eligible ev = true) /\
     transition s (req_coord u) Revealed = (s1, Ok (Some t)) /\ frontier_wf s1 /\
     derive_candidate_frontier s1 = (s', Ok l)).
Proof.
  intros Hwf H. unfold commit_authoritative_reveal in H.
  destruct (state s (req_coord u)) eqn:Est; try (injection H as <- <-; left; split; [done|intros; done]).
  destruct (evaluate_frontier_eligibility u resolver) as [ev|e] eqn:Eev;
    [|injection H as <- <-; left; split; [done|intros; done]].
  destruct (is_eligible ev) eqn:Eel; [|injection H as <- <-; left; split; [done|intros; done]].
  destruct (stage_reveal s (req_coord u)) as [[[s2 t] l]|e] eqn:Es;
    [|injection H as <- <-; left; split; [done|intros; done]].
  injection H as <- <-. destruct (stage_reveal_Ok s _ _ _ _ Hwf Est Es) as (s1 & H1 & H2 & H3).
  right. exists s1, t, l. split_goals; eauto.
Qed.

(** ** The frontier as a transition system *)

Inductive frontier_step (s : FrontierState) : FrontierState -> Prop :=
| step_mark_candidate c s' r : mark_candidate s c = (s', r) -> frontier_step s s'
| step_mark_prepared c s' r : mark_prepared s c = (s', r) -> frontier_step s s'
| step_reveal c s' r : reveal s c = (s', r) -> frontier_step s s'
| step_derive s' r : derive_candidate_frontier s = (s', r) -> frontier_step s s'
| step_commit u resolver s' r : commit_authoritative_reveal s u resolver = (s', r) -> frontier_step s s'.

Lemma from_initial_wf min w h f rev s :
  coord_ok min -> 0 <= w -> 0 <= h -> rectangular min w h = Ok f ->
  0 <= rev < 2 ^ 64 -> from_initial f rev = Ok s -> frontier_wf s.
Proof.
  intros Hmin Hw Hh Hf Hrev H. unfold rectangular in Hf.
  apply bind_Ok in Hf as ([] & Hvw & Hf). apply bind_Ok in Hf as ([] & Hvh & Hf).
  apply validate_dimension_Ok in Hvw; [|done]. apply validate_dimension_Ok in Hvh; [|done].
  unfold MAX_INITIAL_FRONTIER_AXIS in *.
  apply bind_Ok in Hf as (mx & _ & Hf). apply bind_Ok in Hf as (my & _ & [= <-]).
  unfold from_initial in H. case_decide; [done|]. injection H as <-. split; cbn.
  - done.
  - apply NoDup_rectangle.
  - intros c _. apply lookup_empty.
  - intros c st. rewrite lookup_empty. done.
  - rewrite length_rectangle. unfold MAX_REVEALED_FRONTIER_QUADRANTS. nia.
  - lia.
Qed.

(** One relation between the states before and after a step, closed under
    composition: nothing moves backwards. *)
Definition frontier_le (s s' : FrontierState) : Prop :=
  (forall c, rank (state s c) <= rank (state s' c)) /\
  (exists suffix, revealed_quadrants s' = revealed_quadrants s ++ suffix) /\
  revision s' - revision s =
    Z.of_nat (length (revealed_quadrants s')) - Z.of_nat (length (revealed_quadrants s)).

#[global] Instance frontier_le_preorder : PreOrder frontier_le.
Proof.
  split.
  - intros s. unfold frontier_le. split_goals; [done|exists []; by rewrite app_nil_r|lia].
  - intros s1 s2 s3 (A1 & (x & A2) & A3) (B1 & (y & B2) & B3).
    unfold frontier_le. split_goals; [|exists (x ++ y)|lia].
    + intros c. specialize (A1 c). specialize (B1 c). lia.
    + rewrite B2, A2. by rewrite app_assoc.
Qed.

Lemma transition_le s c target s' r :
  frontier_wf s -> transition s c target = (s', r) -> frontier_le s s'.
Proof.
  intros Hwf H. destruct (revision_after _ _ _ _ _ H) as (H1 & H2 & _).
  unfold frontier_le. split_goals; [|done|done]. intros d.
  destruct (state_after s c target s' r d Hwf H) as (-> & _ & _).
  case_decide as Hd; [|lia]. destruct Hd as [-> Hok].
  apply transition_cases in H as [(_ & _ & ->)|[(_ & e & ->)|(Hr & _)]]; [lia|done|lia].
Qed.

Lemma derive_le s s' r : frontier_wf s -> derive_candidate_frontier s = (s', r) -> frontier_le s s'.
Proof.
  intros Hwf H. apply derive_cases in H as [(-> & _)|(l & _ & _ & _ & _ & Hrv & Hrq & Hl & Hst)];
    [reflexivity| |done].
  unfold frontier_le. split_goals; [|exists []; by rewrite app_nil_r|rewrite Hrv, Hrq; lia].
  intros d. rewrite Hst. case_decide as Hd; [|lia]. apply Hl in Hd as [-> _]. cbn. lia.
Qed.

Lemma derive_wf s s' r : frontier_wf s -> derive_candidate_frontier s = (s', r) -> frontier_wf s'.
Proof. intros Hwf H. by apply derive_cases in H as [(-> & _)|(l & _ & _ & _ & ? & _)]. Qed.

Lemma frontier_step_sound s s' : frontier_wf s -> frontier_step s s' -> frontier_wf s' /\ frontier_le s s'.
Proof.
  intros Hwf H. destruct H as [c s' r H|c s' r H|c s' r H|s' r H|u res s' r H].
  1,2,3: unfold mark_candidate, mark_prepared, reveal in H; split; [|by eapply transition_le];
    match type of H with transition _ _ ?t = _ => pose proof (transition_wf s c t Hwf) as Hx end;
    by rewrite H in Hx.
  - split; [by eapply derive_wf|by eapply derive_le].
  - apply commit_cases in H as [(-> & _)|(s1 & t & l & _ & _ & _ & Ht & Hwf1 & Hd)];
      [by split| |done].
    split; [by eapply derive_wf|]. etransitivity; [by eapply transition_le|by eapply derive_le].
Qed.



(** A lifecycle transition moves one coordinate exactly one step forward,
    is a no-op on a coordinate already there, and fails exactly on any other
    jump, at the capacity limit of 65535 revealed quadrants or at the end of
    the revision counter; failing or not, every other coordinate keeps its
    state, a failure changes nothing, and only a reveal advances the revision,
    by one. *)
Theorem frontier_transition_correct (s s' : FrontierState) (c : QuadrantCoord)
    (target : FrontierQuadrantState) (r : result FrontierLifecycleError (option FrontierLifecycleTransition)) :
  frontier_wf s -> transition s c target = (s', r) ->
  (is_ok r = true <->
     state s c = target \/
     (rank target = rank (state s c) + 1 /\
      (target = Revealed ->
        Z.of_nat (length (revealed_quadrants s)) < MAX_REVEALED_FRONTIER_QUADRANTS /\
        revision s + 1 < 2 ^ 64))) /\
  (is_ok r = false -> s' = s) /\
  (r = Ok None <-> state s c = target) /\
  (is_ok r = true -> state s' c = target) /\
  (forall d, d <> c -> state s' d = state s d) /\
  (forall t, r = Ok (Some t) ->
     t = mk_transition c (state s c) target (revision s) (revision s') /\
     (advances_public_revision t = true <-> target = Revealed) /\
     revision s' = revision s + (if decide (target = Revealed) then 1 else 0)).
Proof.
  intros Hwf H. pose proof (fun d => state_after s c target s' r d Hwf H) as Hst.
  pose proof (fw_revision s Hwf) as Hrev.
  assert (forall t, r = Ok (Some t) ->
    revision s' = revision s + (if decide (target = Revealed) then 1 else 0) /\
    t = mk_transition c (state s c) target (revision s) (revision s')) as Ht.
  { intros t ->. apply transition_cases in H as [(_ & ? & _)|[(_ & e & ?)|(_ & next & Hn & [= ->] & ->)]];
      [done|done|]. apply next_revision_Ok in Hn as [[Hne ->]|(-> & -> & _)].
    - rewrite !decide_False by done. cbn. split; [lia|done].
    - rewrite !decide_True by done. done. }
  split_goals.
  - split.
    + apply transition_cases in H as [(_ & _ & ?)|[(_ & e & ->)|(Hr & next & Hn & _)]]; [auto|done|].
      intros _. right. split; [done|]. intros ->.
      apply next_revision_Ok in Hn as [[? _]|(_ & -> & ? & ?)]; done.
    + intros Hcond. unfold transition in H.
      destruct (decide (state s c = target)) as [Hc|Hc]; [by simplify_eq|].
      destruct Hcond as [?|[Hr Hcap]]; [done|].
      rewrite (proj2 (can_transition_to_rank _ _) Hr) in H.
      destruct (next_revision_total s target) as [next Hn];
        [intros Ht'; by apply Hcap|destruct (fw_revision s Hwf); done|].
      rewrite Hn in H. by simplify_eq.
  - by apply (Hst c).
  - split.
    + intros ->. by apply transition_cases in H as [(_ & _ & ?)|[(_ & e & ?)|(_ & n & _ & ? & _)]].
    + intros Hc. unfold transition in H. rewrite decide_True in H by done. by simplify_eq.
  - intros Hok. destruct (Hst c) as (-> & _). by rewrite decide_True.
  - intros d Hd. destruct (Hst d) as (-> & _). by rewrite decide_False by naive_solver.
  - intros t Hr. destruct (Ht t Hr) as [Hrv Heq]. split_goals; [done| |done].
    rewrite Heq. unfold advances_public_revision. rewrite bool_decide_eq_true. cbn. rewrite Hrv.
    case_decide; split; intros; (done || lia).
Qed.

Lemma frontier_transition_correct_witness :
  let s := mk_frontier 5 [mk_coord 0 0] {[ mk_coord 0 0 ]} {[ mk_coord 0 1 := Prepared ]} in
  state (fst (reveal s (mk_coord 0 1))) (mk_coord 0 1) = Revealed /\
  revision (fst (reveal s (mk_coord 0 1))) = 6.
Proof.
  set (s := mk_frontier 5 [mk_coord 0 0] {[ mk_coord 0 0 ]} {[ mk_coord 0 1 := Prepared ]}).
  assert (frontier_wf s) as Hwf.
  { split; cbn; [set_solver|apply NoDup_singleton| | |vm_compute; congruence|lia].
    - intros c ->%elem_of_singleton. vm_compute. done.
    - intros c st [<- <-]%lookup_singleton_Some. by right. }
  destruct (frontier_transition_correct s _ (mk_coord 0 1) Revealed _ Hwf (surjective_pairing _))
    as (_ & _ & _ & H1 & _). cbn zeta. split; [apply H1; vm_compute; reflexivity|vm_compute; reflexivity].
Defined.

(** Deriving candidates either fails, only because a neighbour coordinate
    leaves [i64], and changes nothing, or turns exactly the Potential cardinal
    neighbours of revealed quadrants into Candidates: each listed once in
    (y, x) order, no other coordinate touched, the revision unchanged, and
    afterwards no neighbour of a revealed quadrant is Potential. *)
Theorem derive_candidates_correct (s s' : FrontierState)
    (r : result CandidateFrontierError (list QuadrantCoord)) :
  frontier_wf s -> derive_candidate_frontier s = (s', r) ->
  (forall e, r = Err e -> s' = s /\ exists c a d, e = QuadrantCoordinateOverflow c a d) /\
  (forall l, r = Ok l ->
     (forall n, n ∈ l <-> state s n = Potential /\ exists c, c ∈ revealed_quadrants s /\ adjacent c n) /\
     NoDup l /\ Sorted coord_le l /\
     (forall d, state s' d = if decide (d ∈ l) then Candidate else state s d) /\
     revision s' = revision s /\ revealed_quadrants s' = revealed_quadrants s /\
     (forall c n, c ∈ revealed_quadrants s' -> adjacent c n -> state s' n <> Potential)).
Proof.
  intros Hwf H. pose proof H as H'.
  apply derive_cases in H as [(-> & e & ->)|(l & -> & Hnd & Hso & Hwf' & Hrv & Hrq & Hin & Hst)]; [| |done].
  - split; [|done]. intros e' [= <-]. split; [done|]. unfold derive_candidate_frontier in H'.
    destruct (collect_candidates _ _ _ _) as [found|e2] eqn:Ec.
    + destruct (mark_all s (sort_coords found)) as [s2 [u|e2]] eqn:Em; [done|]. exfalso.
      destruct (collect_candidates_Ok s _ ∅ [] found ltac:(set_solver) ltac:(constructor) Ec)
        as (Hnd & Hin & _).
      destruct (mark_all_spec (sort_coords found) s Hwf) as (H1 & _).
      * by rewrite sort_coords_Permutation.
      * intros c Hc%elem_of_sort_coords%Hin. destruct Hc as [Hc|[? _]]; [set_solver|done].
      * rewrite Em in H1. done.
    + injection H' as <-. clear -Ec. revert Ec. generalize (∅ : gset QuadrantCoord) ([] : list QuadrantCoord).
      induction (neighbor_pairs (revealed_quadrants s)) as [|[c [dx dy]] todo IH]; intros seen nw Ec; [done|].
      cbn in Ec. destruct (checked_neighbor c dx dy) as [n|e] eqn:En; cbn in Ec.
      * case_decide; eauto.
      * injection Ec as <-. unfold checked_neighbor in En.
        destruct (checked_i 64 (qx c + dx)); cbn in En; [|injection En as <-; eauto].
        destruct (checked_i 64 (qy c + dy)); cbn in En; [done|injection En as <-; eauto].
  - split; [done|]. intros l' [= <-]. split_goals; try done.
    intros c n Hc Ha. rewrite Hst. case_decide as Hn; [done|]. intros Hp. apply Hn, Hin.
    split; [done|]. exists c. by rewrite <- Hrq.
Qed.

Lemma derive_candidates_correct_witness :
  let s := mk_frontier 5 [mk_coord 0 0] {[ mk_coord 0 0 ]} ∅ in
  snd (derive_candidate_frontier s)
    = Ok [mk_coord 0 (-1); mk_coord (-1) 0; mk_coord 1 0; mk_coord 0 1] /\
  NoDup [mk_coord 0 (-1); mk_coord (-1) 0; mk_coord 1 0; mk_coord 0 1].
Proof.
  set (s := mk_frontier 5 [mk_coord 0 0] {[ mk_coord 0 0 ]} ∅).
  assert (frontier_wf s) as Hwf.
  { split; cbn; [set_solver|apply NoDup_singleton| | |vm_compute; congruence|lia].
    - intros c _. apply lookup_empty.
    - intros c st. rewrite lookup_empty. done. }
  assert (snd (derive_candidate_frontier s)
    = Ok [mk_coord 0 (-1); mk_coord (-1) 0; mk_coord 1 0; mk_coord 0 1]) as E by (vm_compute; reflexivity).
  split; [exact E|].
  apply (derive_candidates_correct s _ _ Hwf (surjective_pairing _)). exact E.
Defined.

(** C17: the authoritative reveal is atomic: unless it reports a committed
    reveal the frontier is exactly what it was, also when the candidate
    derivation fails after the quadrant was revealed on the staged copy; a
    commit happens only for a Prepared quadrant whose requirements are all
    satisfied, reveals exactly it, adds exactly one revision, and leaves every
    neighbour of a revealed quadrant at least a Candidate. *)
Theorem authoritative_reveal_atomic (s s' : FrontierState) (u : FrontierUnlockRequirements)
    (resolver : Resolver) (r : result AuthoritativeRevealError AuthoritativeRevealOutcome) :
  frontier_wf s -> commit_authoritative_reveal s u resolver = (s', r) ->
  ((forall t l, r <> Ok (RevealCommitted t l)) -> s' = s) /\
  (forall t l, r = Ok (RevealCommitted t l) ->
     state s (req_coord u) = Prepared /\
     Forall (fun q => resolver (req_coord u) q = Some true) (req_list u) /\
     state s' (req_coord u) = Revealed /\
     revealed_quadrants s' = revealed_quadrants s ++ [req_coord u] /\
     revision s' = revision s + 1 /\ frontier_wf s' /\
     (forall c n, c ∈ revealed_quadrants s' -> adjacent c n -> state s' n <> Potential)).
Proof.
  intros Hwf H.
  apply commit_cases in H as [(-> & Hno)|(s1 & t & l & -> & Hp & (ev & Hev & Hel) & Ht & Hwf1 & Hd)];
    [split; [done|intros t l E; by destruct (Hno t l)]| |done].
  split; [intros Hno; by destruct (Hno t l)|]. intros t' l' [= <- <-].
  pose proof (derive_wf _ _ _ Hwf1 Hd) as Hwf'.
  destruct (state_after _ _ _ _ _ (req_coord u) Hwf Ht) as (Hst & _). rewrite decide_True in Hst by done.
  pose proof Ht as Hc.
  apply transition_cases in Hc as [(_ & ? & _)|[(_ & e & ?)|(_ & next & Hn & _ & ->)]]; [done|done|].
  apply next_revision_Ok in Hn as [[? _]|(_ & -> & _)]; [done|].
  rewrite decide_True in * by done.
  pose proof Hd as Hd'.
  apply derive_cases in Hd as [(_ & e & ?)|(l2 & [= <-] & _ & _ & _ & Hrv & Hrq & Hin & Hst')]; [done| |done].
  split_goals; try done.
  - unfold evaluate_frontier_eligibility in Hev.
    apply bind_Ok in Hev as (q & [HF ->]%unsatisfied_Ok & [= <-]).
    rewrite list.Forall_forall in HF. apply list.Forall_forall. intros x Hx. specialize (HF x Hx).
    destruct (resolver (req_coord u) x) as [[]|] eqn:E; [done| |done].
    assert (x ∈ filter (fun r => resolver (req_coord u) r = Some false) (req_list u))
      as Hin2 by (by apply list_elem_of_filter).
    unfold is_eligible in Hel. cbn in Hel. destruct (filter _ _); [set_solver|done].
  - rewrite Hst', Hst. case_decide as Hl; [|done]. apply Hin in Hl as [Hl _]. congruence.
  - intros c n Hc Ha. rewrite Hst'. case_decide as Hx; [done|]. intros Hpo. apply Hx, Hin.
    split; [done|]. exists c. by rewrite <- Hrq.
Qed.

Lemma authoritative_reveal_atomic_witness :
  let s := mk_frontier 5 [mk_coord 0 0] {[ mk_coord 0 0 ]} {[ mk_coord 0 1 := Prepared ]} in
  let u := {| req_coord := mk_coord 0 1; req_list := [1; 2] |} in
  state (fst (commit_authoritative_reveal s u (fun _ _ => Some true))) (mk_coord 0 1) = Revealed /\
  fst (commit_authoritative_reveal s u (fun _ r => Some (bool_decide (r = 1)))) = s.
Proof.
  set (s := mk_frontier 5 [mk_coord 0 0] {[ mk_coord 0 0 ]} {[ mk_coord 0 1 := Prepared ]}).
  assert (frontier_wf s) as Hwf.
  { split; cbn; [set_solver|apply NoDup_singleton| | |vm_compute; congruence|lia].
    - intros c ->%elem_of_singleton. vm_compute. done.
    - intros c st [<- <-]%lookup_singleton_Some. by right. }
  cbn zeta. split.
  - destruct (authoritative_reveal_atomic s _ {| req_coord := mk_coord 0 1; req_list := [1; 2] |}
      (fun _ _ => Some true) _ Hwf (surjective_pairing _)) as [_ H].
    edestruct H as (_ & _ & Hst & _); [vm_compute; reflexivity|exact Hst].
  - destruct (authoritative_reveal_atomic s _ {| req_coord := mk_coord 0 1; req_list := [1; 2] |}
      (fun _ r => Some (bool_decide (r = 1))) _ Hwf (surjective_pairing _)) as [H _].
    apply H. vm_compute. congruence.
Defined.
