(* ===== verification/Preparation.v ===== *)
(** Quadrant preparation ([crates/domain/src/quadrant_preparation.rs]): the
    in-flight and prepared artifacts of Candidate quadrants, next to the
    frontier they advance. *)

From S2P Require Import Prelude Core Frontier.
Import World.

Inductive QuadrantPreparationError :=
| ZeroGeneratorVersion
| ZeroFingerprint
| EmptyArtifact
| FrontierNotCandidate (coord : QuadrantCoord) (actual : FrontierQuadrantState)
| ConflictingIdentity (coord : QuadrantCoord)
| CompletionWithoutRequest (coord : QuadrantCoord)
| ConflictingPreparedArtifact (coord : QuadrantCoord)
| MissingPreparedTransition (coord : QuadrantCoord)
| PrepLifecycle (e : FrontierLifecycleError).

(** [PreparationFingerprint]: 32 bytes, not all zero. *)
Abbreviation PreparationFingerprint := (list Z) (only parsing).

Definition fingerprint_new (bytes : list Z) : result QuadrantPreparationError PreparationFingerprint :=
  if decide (Forall (fun b => b = 0) bytes) then Err ZeroFingerprint else Ok bytes.

Record QuadrantPreparationIdentity := {
  id_coord : QuadrantCoord;
  id_generator_version : Z;
  id_inputs_fingerprint : PreparationFingerprint
}.

#[global] Instance QuadrantPreparationIdentity_eq_dec : EqDecision QuadrantPreparationIdentity.
Proof. solve_decision. Defined.

Definition identity_new (c : QuadrantCoord) (generator_version : Z) (fp : PreparationFingerprint)
  : result QuadrantPreparationError QuadrantPreparationIdentity :=
  if decide (generator_version = 0) then Err ZeroGeneratorVersion
  else Ok {| id_coord := c; id_generator_version := generator_version; id_inputs_fingerprint := fp |}.

Record PreparedQuadrantArtifact := {
  art_identity : QuadrantPreparationIdentity;
  art_fingerprint : PreparationFingerprint;
  art_bytes : Z
}.

#[global] Instance PreparedQuadrantArtifact_eq_dec : EqDecision PreparedQuadrantArtifact.
Proof. solve_decision. Defined.

Definition artifact_new (identity : QuadrantPreparationIdentity) (fp : PreparationFingerprint) (n : Z)
  : result QuadrantPreparationError PreparedQuadrantArtifact :=
  if decide (n = 0) then Err EmptyArtifact
  else Ok {| art_identity := identity; art_fingerprint := fp; art_bytes := n |}.

Inductive QuadrantPreparationRequestOutcome := Started | AlreadyInFlight | RequestAlreadyPrepared.

Inductive QuadrantPreparationCompletionOutcome :=
| CompletionPrepared (t : FrontierLifecycleTransition)
| CompletionAlreadyPrepared.

Inductive QuadrantPreparationAbandonOutcome := Removed | NotFound | AbandonAlreadyPrepared.

Inductive QuadrantPreparationSlot :=
| SlotInFlight (i : QuadrantPreparationIdentity)
| SlotPrepared (a : PreparedQuadrantArtifact).

Definition slot_identity (s : QuadrantPreparationSlot) : QuadrantPreparationIdentity :=
  match s with SlotInFlight i => i | SlotPrepared a => art_identity a end.

Abbreviation Slots := (gmap QuadrantCoord QuadrantPreparationSlot).

Definition is_in_flight (s : QuadrantPreparationSlot) : bool :=
  match s with SlotInFlight _ => true | SlotPrepared _ => false end.

Definition in_flight_len (slots : Slots) : nat :=
  length (filter (fun '(_, s) => is_in_flight s = true) (map_to_list slots)).

Definition request (slots : Slots) (frontier : FrontierState) (identity : QuadrantPreparationIdentity)
  : Slots * result QuadrantPreparationError QuadrantPreparationRequestOutcome :=
  let c := id_coord identity in
  match slots !! c with
  | Some slot =>
      if decide (slot_identity slot <> identity) then (slots, Err (ConflictingIdentity c))
      else (slots, Ok (match slot with
                       | SlotInFlight _ => AlreadyInFlight
                       | SlotPrepared _ => RequestAlreadyPrepared
                       end))
  | None =>
      let actual := state frontier c in
      if decide (actual <> Candidate) then (slots, Err (FrontierNotCandidate c actual))
      else (<[c := SlotInFlight identity]> slots, Ok Started)
  end.

Definition complete (slots : Slots) (frontier : FrontierState) (artifact : PreparedQuadrantArtifact)
  : Slots * FrontierState * result QuadrantPreparationError QuadrantPreparationCompletionOutcome :=
  let identity := art_identity artifact in
  let c := id_coord identity in
  match slots !! c with
  | None => (slots, frontier, Err (CompletionWithoutRequest c))
  | Some slot =>
      if decide (slot_identity slot <> identity) then (slots, frontier, Err (ConflictingIdentity c))
      else
        match slot with
        | SlotPrepared existing =>
            if decide (existing = artifact) then (slots, frontier, Ok CompletionAlreadyPrepared)
            else (slots, frontier, Err (ConflictingPreparedArtifact c))
        | SlotInFlight _ =>
            let actual := state frontier c in
            if decide (actual <> Candidate)
            then (slots, frontier, Err (FrontierNotCandidate c actual))
            else
              match mark_prepared frontier c with
              | (frontier', Err e) => (slots, frontier', Err (PrepLifecycle e))
              | (frontier', Ok None) => (slots, frontier', Err (MissingPreparedTransition c))
              | (frontier', Ok (Some t)) =>
                  (<[c := SlotPrepared artifact]> slots, frontier', Ok (CompletionPrepared t))
              end
        end
  end.

(** [cancel] and [fail] both abandon the request. *)
Definition abandon (slots : Slots) (identity : QuadrantPreparationIdentity)
  : Slots * result QuadrantPreparationError QuadrantPreparationAbandonOutcome :=
  let c := id_coord identity in
  match slots !! c with
  | None => (slots, Ok NotFound)
  | Some slot =>
      if decide (slot_identity slot <> identity) then (slots, Err (ConflictingIdentity c))
      else
        match slot with
        | SlotPrepared _ => (slots, Ok AbandonAlreadyPrepared)
        | SlotInFlight _ => (delete c slots, Ok Removed)
        end
  end.

Definition cancel := abandon.
Definition fail := abandon.

Definition prepared_artifact (slots : Slots) (identity : QuadrantPreparationIdentity)
  : option PreparedQuadrantArtifact :=
  match slots !! id_coord identity with
  | Some (SlotPrepared a) => if decide (art_identity a = identity) then Some a else None
  | _ => None
  end.

(** ** Preparation and frontier as one transition system

    The store is the only client of [mark_prepared]; the frontier also moves by
    candidate derivation and authoritative reveals. *)

Inductive prep_step : Slots * FrontierState -> Slots * FrontierState -> Prop :=
| prep_request sl f i sl' r :
    request sl f i = (sl', r) -> prep_step (sl, f) (sl', f)
| prep_complete sl f a sl' f' r :
    complete sl f a = (sl', f', r) -> prep_step (sl, f) (sl', f')
| prep_abandon sl f i sl' r :
    abandon sl i = (sl', r) -> prep_step (sl, f) (sl', f)
| prep_derive sl f f' r :
    derive_candidate_frontier f = (f', r) -> prep_step (sl, f) (sl, f')
| prep_commit sl f u res f' r :
    commit_authoritative_reveal f u res = (f', r) -> prep_step (sl, f) (sl, f').

(** Every slot sits under its own coordinate; an in-flight one belongs to a
    Candidate and a prepared one to a quadrant that is Prepared or Revealed. *)
Definition slot_ok (f : FrontierState) (c : QuadrantCoord) (s : QuadrantPreparationSlot) : Prop :=
  id_coord (slot_identity s) = c /\
  match s with
  | SlotInFlight _ => state f c = Candidate
  | SlotPrepared _ => 2 <= rank (state f c)
  end.

Definition prep_inv (x : Slots * FrontierState) : Prop :=
  frontier_wf x.2 /\ map_Forall (slot_ok x.2) x.1.

Lemma slots_ok_mono (sl : Slots) f f' :
  (forall c, rank (state f c) <= rank (state f' c)) ->
  (forall c, state f c = Candidate -> state f' c = Candidate) ->
  map_Forall (slot_ok f) sl -> map_Forall (slot_ok f') sl.
Proof.
  intros Hr Hc H c s Hs. destruct (H c s Hs) as [Hid Hst]. split; [done|].
  destruct s; [auto|]. specialize (Hr c). lia.
Qed.

Lemma derive_keeps_candidates f f' r c :
  frontier_wf f -> derive_candidate_frontier f = (f', r) ->
  state f c = Candidate -> state f' c = Candidate.
Proof.
  intros Hwf H Hc.
  apply derive_cases in H as [(-> & _)|(l & _ & _ & _ & _ & _ & _ & _ & Hst)]; [done| |done].
  rewrite Hst. by case_decide.
Qed.

Lemma commit_keeps_candidates f f' u res r c :
  frontier_wf f -> commit_authoritative_reveal f u res = (f', r) ->
  state f c = Candidate -> state f' c = Candidate.
Proof.
  intros Hwf H Hc.
  apply commit_cases in H as [(-> & _)|(f1 & t & l & _ & Hp & _ & Ht & Hwf1 & Hd)]; [done| |done].
  eapply derive_keeps_candidates; [done..|].
  destruct (state_after _ _ _ _ _ c Hwf Ht) as (-> & _).
  rewrite decide_False; [done|]. intros [-> _]. congruence.
Qed.

(** Every way a completion can end. *)
Lemma complete_cases sl f a sl' f' r :
  frontier_wf f -> complete sl f a = (sl', f', r) ->
  let c := id_coord (art_identity a) in
  (sl' = sl /\ f' = f /\ (forall t, r <> Ok (CompletionPrepared t)) /\
     (r = Ok CompletionAlreadyPrepared <-> sl !! c = Some (SlotPrepared a))) \/
  (exists t, r = Ok (CompletionPrepared t) /\ sl !! c = Some (SlotInFlight (art_identity a)) /\
     state f c = Candidate /\ sl' = <[c := SlotPrepared a]> sl /\
     transition f c Prepared = (f', Ok (Some t))).
Proof.
  intros Hwf H c. unfold complete in H. fold c in H.
  destruct (sl !! c) as [slot|] eqn:Es; [|left; simplify_eq; naive_solver].
  destruct (decide (slot_identity slot <> art_identity a)) as [Hne|Heq].
  { left. simplify_eq. split_goals; try done. split; [done|]. intros [= ->]. by destruct Hne. }
  apply dec_stable in Heq. destruct slot as [i|ex].
  - cbn in Heq. subst i. destruct (decide (state f c <> Candidate)) as [Hn|Hn];
      [left; simplify_eq; naive_solver|]. apply dec_stable in Hn.
    destruct (mark_prepared f c) as [f1 [[t|]|e]] eqn:Em; unfold mark_prepared in Em.
    + right. simplify_eq. eauto 10.
    + exfalso. apply transition_cases in Em as [(_ & _ & ?)|[(_ & e & ?)|(_ & n & _ & ? & _)]]; congruence.
    + left. simplify_eq.
      destruct (state_after _ _ _ _ _ c Hwf Em) as (_ & _ & ->); [naive_solver|done].
  - destruct (decide (ex = a)) as [->|Hx]; left; simplify_eq; naive_solver.
Qed.

Lemma prep_step_inv x y : prep_inv x -> prep_step x y -> prep_inv y.
Proof.
  intros [Hwf Hsl] H. destruct H as [sl f i sl' r H|sl f a sl' f' r H|sl f i sl' r H
    |sl f f' r H|sl f u res f' r H]; cbn in *.
  - split; [done|]. cbn. unfold request in H. destruct (sl !! id_coord i) as [slot|] eqn:Es.
    + destruct (decide _); simplify_eq; done.
    + destruct (decide (state f (id_coord i) <> Candidate)) as [|Hc]; simplify_eq; [done|].
      apply dec_stable in Hc. apply map_Forall_insert_2; [by split|done].
  - destruct (complete_cases _ _ _ _ _ _ Hwf H) as [(-> & -> & _)|(t & _ & Hs & Hc & -> & Ht)]; [done|].
    pose proof (transition_wf f (id_coord (art_identity a)) Prepared Hwf) as Hwf'.
    rewrite Ht in Hwf'. split; [done|]. cbn.
    pose proof (fun d => proj1 (state_after _ _ _ _ _ d Hwf Ht)) as Hst. cbn in Hst.
    intros c s. rewrite lookup_insert_Some. intros [[<- <-]|[Hne Hls]].
    + split; [done|]. rewrite Hst, decide_True by done. cbn. lia.
    + destruct (Hsl c s Hls) as [Hid Hss]. split; [done|]. rewrite Hst, decide_False by naive_solver. done.
  - split; [done|]. cbn. unfold abandon in H. destruct (sl !! id_coord i) as [slot|]; [|by simplify_eq].
    destruct (decide _); [by simplify_eq|]. destruct slot; simplify_eq; [|done].
    by apply map_Forall_delete.
  - split; [by eapply derive_wf|]. cbn. eapply slots_ok_mono; [| |done].
    + apply (derive_le f f' r); done.
    + intros c. by eapply derive_keeps_candidates.
  - destruct (frontier_step_sound f f' Hwf (step_commit f u res f' r H)) as [Hwf' [Hle _]].
    split; [done|]. cbn. eapply slots_ok_mono; [done| |done].
    intros c. by eapply commit_keeps_candidates.
Qed.

Lemma prep_step_keeps_artifact x y c a :
  prep_inv x -> prep_step x y -> x.1 !! c = Some (SlotPrepared a) -> y.1 !! c = Some (SlotPrepared a).
Proof.
  intros [Hwf Hsl] H Hc. destruct H as [sl f i sl' r H|sl f b sl' f' r H|sl f i sl' r H
    |sl f f' r H|sl f u res f' r H]; cbn in *; [| | |done|done].
  - unfold request in H. destruct (sl !! id_coord i) as [slot|] eqn:Es.
    + destruct (decide _); by simplify_eq.
    + destruct (decide _); simplify_eq; [done|]. rewrite lookup_insert_ne; congruence.
  - destruct (complete_cases _ _ _ _ _ _ Hwf H) as [(-> & _)|(t & _ & Hs & _ & -> & _)]; [done|].
    rewrite lookup_insert_ne; congruence.
  - unfold abandon in H. destruct (sl !! id_coord i) as [slot|] eqn:Es; [|by simplify_eq].
    destruct (decide _); [by simplify_eq|]. destruct slot; simplify_eq; [|done].
    rewrite lookup_delete_ne; congruence.
Qed.

(** From an empty store over a well-formed frontier, after any sequence of
    requests, completions, cancellations, derivations and reveals, every
    in-flight request is for a Candidate quadrant and every prepared artifact
    for a Prepared or Revealed one, each under its own coordinate; and an
    artifact once prepared stays exactly as it is for ever. *)
Theorem preparation_invariant (f0 : FrontierState) (x y : Slots * FrontierState) :
  frontier_wf f0 -> rtc prep_step (∅, f0) x -> rtc prep_step x y ->
  prep_inv x /\
  forall i a, prepared_artifact x.1 i = Some a -> prepared_artifact y.1 i = Some a.
Proof.
  intros Hwf Hx Hy.
  assert (forall x y, prep_inv x -> rtc prep_step x y -> prep_inv y /\
    forall c a, x.1 !! c = Some (SlotPrepared a) -> y.1 !! c = Some (SlotPrepared a)) as Hrun.
  { clear. intros x y Hinv H. induction H as [x|x y z Hstep _ IH]; [done|].
    destruct (IH (prep_step_inv _ _ Hinv Hstep)) as [Hz Hk]. split; [done|].
    intros c a Hc. apply Hk. exact (prep_step_keeps_artifact _ _ _ _ Hinv Hstep Hc). }
  assert (prep_inv x) as Hinv by (apply (Hrun (∅, f0)); [split; [done|apply map_Forall_empty]|done]).
  split; [done|]. intros i a Hp. unfold prepared_artifact in *.
  destruct (x.1 !! id_coord i) as [[]|] eqn:E; try done.
  rewrite (proj2 (Hrun x y Hinv Hy) _ _ E). done.
Qed.

(** A completion is idempotent and atomic: it changes nothing unless it
    reports the Candidate to Prepared transition, which needs an in-flight
    request with the same identity; it then records exactly that artifact, and
    delivering the same artifact again reports AlreadyPrepared while any other
    artifact for the same identity is refused as conflicting. *)
Theorem completion_atomic_idempotent (sl sl' : Slots) (f f' : FrontierState)
    (a b : PreparedQuadrantArtifact) (r : result QuadrantPreparationError QuadrantPreparationCompletionOutcome) :
  frontier_wf f -> complete sl f a = (sl', f', r) ->
  ((forall t, r <> Ok (CompletionPrepared t)) -> sl' = sl /\ f' = f) /\
  (forall t, r = Ok (CompletionPrepared t) ->
     sl !! id_coord (art_identity a) = Some (SlotInFlight (art_identity a)) /\
     state f (id_coord (art_identity a)) = Candidate /\
     state f' (id_coord (art_identity a)) = Prepared /\
     prepared_artifact sl' (art_identity a) = Some a /\
     complete sl' f' a = (sl', f', Ok CompletionAlreadyPrepared) /\
     (art_identity b = art_identity a -> b <> a ->
      complete sl' f' b = (sl', f', Err (ConflictingPreparedArtifact (id_coord (art_identity a)))))).
Proof.
  intros Hwf H.
  destruct (complete_cases _ _ _ _ _ _ Hwf H) as [(-> & -> & Hno & _)|(t & -> & Hs & Hc & -> & Ht)].
  { split; [done|]. intros t E. by destruct (Hno t). }
  split; [intros Hno; by destruct (Hno t)|]. intros t' [= <-].
  destruct (state_after _ _ _ _ _ (id_coord (art_identity a)) Hwf Ht) as (Hst & _).
  rewrite decide_True in Hst by done.
  split_goals; try done.
  - unfold prepared_artifact. rewrite lookup_insert_eq. by rewrite decide_True.
  - unfold complete. rewrite lookup_insert_eq. cbn [slot_identity].
    rewrite decide_False by tauto. by rewrite decide_True.
  - intros Hid Hne. unfold complete. rewrite Hid, lookup_insert_eq. cbn [slot_identity].
    rewrite decide_False by tauto. by rewrite decide_False by congruence.
Qed.

Section Witness.
Let f0 := mk_frontier 5 [mk_coord 0 0] {[ mk_coord 0 0 ]} {[ mk_coord 0 1 := Candidate ]}.
Let i0 := {| id_coord := mk_coord 0 1; id_generator_version := 1; id_inputs_fingerprint := [3] |}.
Let a0 := {| art_identity := i0; art_fingerprint := [9]; art_bytes := 4 |}.
Let sl1 := fst (request ∅ f0 i0).
Let x2 := fst (complete sl1 f0 a0).

Lemma witness_frontier_wf : frontier_wf f0.
Proof.
  split; cbn; [set_solver|apply NoDup_singleton| | |vm_compute; congruence|lia].
  - intros c ->%elem_of_singleton. vm_compute. done.
  - intros c st [<- <-]%lookup_singleton_Some. by left.
Qed.

Lemma witness_run : rtc prep_step (∅, f0) x2.
Proof.
  apply (rtc_l _ _ (sl1, f0)); [eapply prep_request; apply surjective_pairing|].
  apply rtc_once. unfold x2. destruct (complete sl1 f0 a0) as [[s f] r] eqn:E.
  eapply prep_complete, E.
Qed.

Lemma preparation_invariant_witness :
  prep_inv x2 /\ prepared_artifact (fst x2) i0 = Some a0.
Proof.
  destruct (preparation_invariant f0 x2 x2 witness_frontier_wf witness_run (rtc_refl _ _)) as [H K].
  split; [exact H|]. apply K. vm_compute. reflexivity.
Defined.

Lemma completion_atomic_idempotent_witness :
  complete (fst x2) (snd x2) a0 = (fst x2, snd x2, Ok CompletionAlreadyPrepared).
Proof.
  assert (complete sl1 f0 a0 = (fst x2, snd x2, snd (complete sl1 f0 a0))) as E by (vm_compute; reflexivity).
  destruct (completion_atomic_idempotent sl1 (fst x2) f0 (snd x2) a0 a0 _ witness_frontier_wf E) as [_ H].
  edestruct H as (_ & _ & _ & _ & K & _); [vm_compute; reflexivity|exact K].
Defined.
End Witness.
