(* ===== verification/Runtime.v ===== *)
(** The frontier as the world server runs it
    ([apps/world-server/src/frontier_runtime.rs]): the frontier and its preparations
    behind one generator version, and the manifest of the revealed quadrants.  The
    preparations must never become public; the manifest must always exist. *)

From S2P Require Import Prelude Bytes Core Contracts Frontier Preparation.
Import World.

(** The contexts and messages of [anyhow]. *)
Inductive RuntimeError :=
| RuntimeLifecycle (e : FrontierLifecycleError)
| RuntimeCandidates (e : CandidateFrontierError)
| RuntimeManifest (e : Manifest.FrontierManifestCodecError)
| RuntimePreparation (e : QuadrantPreparationError)
| RuntimeReveal (e : AuthoritativeRevealError)
| GeneratorVersionMismatch (coord : QuadrantCoord) (identity runtime : Z).

Record FrontierRuntime := {
  rt_state : FrontierState;
  rt_preparations : Slots;
  rt_generator_version : Z;
  rt_quadrant_size_mm : Z
}.

Definition with_frontier (r : FrontierRuntime) (f : FrontierState) (sl : Slots) : FrontierRuntime :=
  {| rt_state := f; rt_preparations := sl; rt_generator_version := rt_generator_version r;
     rt_quadrant_size_mm := rt_quadrant_size_mm r |}.

(** The sort key [(coord.y, coord.x)]. *)
Definition to_fqc (c : QuadrantCoord) : Manifest.FrontierQuadrantCoord := Manifest.mk_fqc (qx c) (qy c).

Definition build_manifest (f : FrontierState) (generator_version quadrant_size_mm : Z)
  : result RuntimeError Manifest.FrontierManifest :=
  map_err RuntimeManifest
    (Manifest.manifest_new generator_version quadrant_size_mm (revision f)
       (map to_fqc (sort_coords (revealed_quadrants f)))).

Definition manifest (r : FrontierRuntime) : result RuntimeError Manifest.FrontierManifest :=
  build_manifest (rt_state r) (rt_generator_version r) (rt_quadrant_size_mm r).

Definition runtime_new (initial : InitialFrontier) (rev generator_version quadrant_size_mm : Z)
  : result RuntimeError FrontierRuntime :=
  f ← map_err RuntimeLifecycle (from_initial initial rev);
  let '(f', derived) := derive_candidate_frontier f in
  _ ← map_err RuntimeCandidates derived;
  let runtime := {| rt_state := f'; rt_preparations := ∅; rt_generator_version := generator_version;
                    rt_quadrant_size_mm := quadrant_size_mm |} in
  _ ← manifest runtime;
  Ok runtime.

Definition rt_revision (r : FrontierRuntime) : Z := revision (rt_state r).
Definition rt_revealed_len (r : FrontierRuntime) : nat := length (revealed_quadrants (rt_state r)).
Definition candidate_quadrants (r : FrontierRuntime) : list QuadrantCoord :=
  quadrants_in_state (rt_state r) Candidate.
Definition prepared_len (r : FrontierRuntime) : nat := length (quadrants_in_state (rt_state r) Prepared).
Definition preparation_in_flight_len (r : FrontierRuntime) : nat := in_flight_len (rt_preparations r).

Definition preparation_identity (r : FrontierRuntime) (c : QuadrantCoord) (fp : list Z)
  : result RuntimeError QuadrantPreparationIdentity :=
  map_err RuntimePreparation (identity_new c (rt_generator_version r) fp).

Definition validate_preparation_generator (r : FrontierRuntime) (i : QuadrantPreparationIdentity)
  : result RuntimeError unit :=
  if decide (id_generator_version i <> rt_generator_version r)
  then Err (GeneratorVersionMismatch (id_coord i) (id_generator_version i) (rt_generator_version r)) else Ok tt.

(** The checked calls into the preparations. *)
Definition request_preparation (r : FrontierRuntime) (i : QuadrantPreparationIdentity)
  : FrontierRuntime * result RuntimeError QuadrantPreparationRequestOutcome :=
  match validate_preparation_generator r i with
  | Err e => (r, Err e)
  | Ok _ =>
      let '(sl, o) := request (rt_preparations r) (rt_state r) i in
      (with_frontier r (rt_state r) sl, map_err RuntimePreparation o)
  end.

Definition complete_preparation (r : FrontierRuntime) (a : PreparedQuadrantArtifact)
  : FrontierRuntime * result RuntimeError QuadrantPreparationCompletionOutcome :=
  match validate_preparation_generator r (art_identity a) with
  | Err e => (r, Err e)
  | Ok _ =>
      let '(sl, f, o) := complete (rt_preparations r) (rt_state r) a in
      (with_frontier r f sl, map_err RuntimePreparation o)
  end.

Definition cancel_preparation (r : FrontierRuntime) (i : QuadrantPreparationIdentity)
  : FrontierRuntime * result RuntimeError QuadrantPreparationAbandonOutcome :=
  match validate_preparation_generator r i with
  | Err e => (r, Err e)
  | Ok _ =>
      let '(sl, o) := cancel (rt_preparations r) i in
      (with_frontier r (rt_state r) sl, map_err RuntimePreparation o)
  end.

Definition fail_preparation (r : FrontierRuntime) (i : QuadrantPreparationIdentity)
  : FrontierRuntime * result RuntimeError QuadrantPreparationAbandonOutcome :=
  match validate_preparation_generator r i with
  | Err e => (r, Err e)
  | Ok _ =>
      let '(sl, o) := fail (rt_preparations r) i in
      (with_frontier r (rt_state r) sl, map_err RuntimePreparation o)
  end.

Definition commit_reveal (r : FrontierRuntime) (u : FrontierUnlockRequirements) (resolver : Resolver)
  : FrontierRuntime * result RuntimeError AuthoritativeRevealOutcome :=
  let '(f, o) := commit_authoritative_reveal (rt_state r) u resolver in
  (with_frontier r f (rt_preparations r), map_err RuntimeReveal o).

(** ** The runtime as a transition system *)

Inductive runtime_step (r : FrontierRuntime) : FrontierRuntime -> Prop :=
| rt_request i r' o : request_preparation r i = (r', o) -> runtime_step r r'
| rt_complete a r' o : complete_preparation r a = (r', o) -> runtime_step r r'
| rt_cancel i r' o : cancel_preparation r i = (r', o) -> runtime_step r r'
| rt_fail i r' o : fail_preparation r i = (r', o) -> runtime_step r r'
| rt_commit u resolver r' o : commit_reveal r u resolver = (r', o) -> runtime_step r r'.

Definition rt_pair (r : FrontierRuntime) : Slots * FrontierState := (rt_preparations r, rt_state r).

Lemma runtime_step_prep r r' :
  runtime_step r r' ->
  rtc prep_step (rt_pair r) (rt_pair r') /\ rt_generator_version r' = rt_generator_version r /\
  rt_quadrant_size_mm r' = rt_quadrant_size_mm r.
Proof.
  destruct 1 as [i r' o H|a r' o H|i r' o H|i r' o H|u res r' o H];
    unfold request_preparation, complete_preparation, cancel_preparation, fail_preparation, commit_reveal in H;
    try (destruct (validate_preparation_generator _ _); [|simplify_eq; by split_goals]).
  - destruct (request _ _ _) as [sl o'] eqn:E. simplify_eq. split; [|done]. by eapply rtc_once, prep_request.
  - destruct (complete _ _ _) as [[sl f] o'] eqn:E. simplify_eq. split; [|done]. by eapply rtc_once, prep_complete.
  - destruct (cancel _ _) as [sl o'] eqn:E. simplify_eq. split; [|done]. by eapply rtc_once, prep_abandon.
  - destruct (fail _ _) as [sl o'] eqn:E. simplify_eq. split; [|done]. by eapply rtc_once, prep_abandon.
  - destruct (commit_authoritative_reveal _ _ _) as [f o'] eqn:E. simplify_eq. split; [|done].
    by eapply rtc_once, prep_commit.
Qed.

Definition runtime_ok (r : FrontierRuntime) : Prop :=
  prep_inv (rt_pair r) /\ is_ok (manifest r) = true.

(** ** The manifest *)

Lemma to_fqc_inj c c' : to_fqc c = to_fqc c' -> c = c'.
Proof. destruct c, c'. by intros [= -> ->]. Qed.

#[global] Instance to_fqc_Inj : Inj (=) (=) to_fqc.
Proof. intros c c'. apply to_fqc_inj. Qed.

(** When the settings are right, the manifest exists for every well-formed
    frontier with something revealed. *)
Lemma manifest_exists f gen size :
  frontier_wf f -> revealed_quadrants f <> [] -> gen <> 0 -> 0 < size ->
  build_manifest f gen size =
  Ok {| Manifest.manifest_version := 1; Manifest.generator_version := gen; Manifest.quadrant_size_mm := size;
        Manifest.revision := revision f; Manifest.quadrants := map to_fqc (sort_coords (revealed_quadrants f)) |}.
Proof.
  intros Hwf Hne Hg Hs. unfold build_manifest, Manifest.manifest_new, Manifest.validate,
    Manifest.FRONTIER_MANIFEST_VERSION.
  cbn [Manifest.quadrants Manifest.manifest_version Manifest.generator_version Manifest.quadrant_size_mm
    Manifest.revision].
  rewrite length_map, (Permutation_length (sort_coords_Permutation _)).
  destruct Hwf as [_ Hnd _ _ Hcap Hrev]. unfold MAX_REVEALED_FRONTIER_QUADRANTS in Hcap.
  assert (length (revealed_quadrants f) <> 0%nat) by (intros Hn%nil_length_inv; done).
  change Manifest.U16_MAX with 65535.
  rewrite !decide_False by lia.
  rewrite (proj2 (Manifest.check_unique_Ok ∅ _ tt)); [done|]. split; [|set_solver].
  apply NoDup_fmap_2; [apply _|]. by rewrite sort_coords_Permutation.
Qed.

Lemma manifest_settings f gen size m :
  build_manifest f gen size = Ok m -> revealed_quadrants f <> [] /\ gen <> 0 /\ 0 < size.
Proof.
  unfold build_manifest. rewrite map_err_Ok. unfold Manifest.manifest_new. intros H.
  apply bind_Ok in H as ([] & H & _). unfold Manifest.validate in H.
  cbn [Manifest.quadrants Manifest.manifest_version Manifest.generator_version Manifest.quadrant_size_mm
    Manifest.revision] in H.
  rewrite length_map, (Permutation_length (sort_coords_Permutation _)) in H.
  repeat (case_decide; [done|]). split; [|lia]. intros E. rewrite E in *. done.
Qed.

Lemma prep_steps_frontier x y :
  prep_inv x -> rtc prep_step x y -> prep_inv y /\ frontier_le x.2 y.2.
Proof.
  intros Hx H. induction H as [x|x y z Hstep _ IH]; [split; [done|reflexivity]|].
  pose proof (prep_step_inv x y Hx Hstep) as Hy. destruct (IH Hy) as [Hz Hle]. split; [done|].
  etransitivity; [|done]. destruct Hx as [Hwf _]. clear -Hwf Hstep.
  destruct Hstep as [sl f i sl' r H|sl f a sl' f' r H|sl f i sl' r H|sl f f' r H|sl f u res f' r H]; cbn in *;
    [reflexivity| |reflexivity| |].
  - destruct (complete_cases _ _ _ _ _ _ Hwf H) as [(-> & -> & _)|(t & _ & _ & _ & _ & Ht)]; [reflexivity|].
    by eapply transition_le.
  - by eapply derive_le.
  - by apply (frontier_step_sound f f' Hwf (step_commit f u res f' r H)).
Qed.

Lemma runtime_steps_ok r r' :
  runtime_ok r -> rtc runtime_step r r' ->
  runtime_ok r' /\ frontier_le (rt_state r) (rt_state r') /\
  rt_generator_version r' = rt_generator_version r /\ rt_quadrant_size_mm r' = rt_quadrant_size_mm r.
Proof.
  intros Hr H. induction H as [r|r r1 r2 Hstep _ IH]; [split_goals; [apply Hr..|reflexivity|done|done]|].
  destruct (runtime_step_prep r r1 Hstep) as (Hp & Hg & Hs).
  destruct Hr as [Hinv Hm]. destruct (prep_steps_frontier _ _ Hinv Hp) as [Hinv1 Hle].
  assert (runtime_ok r1) as Hr1.
  { split; [done|]. unfold manifest in *. destruct (build_manifest (rt_state r) _ _) as [m|] eqn:E; [|done].
    apply manifest_settings in E as (Hne & Hg0 & Hs0). destruct Hinv1 as [Hwf1 _].
    rewrite manifest_exists; [done|done| |congruence|congruence].
    destruct Hle as (_ & (suffix & Hsuf) & _). cbn in Hsuf. rewrite Hsuf.
    by destruct (revealed_quadrants (rt_state r)). }
  destruct (IH Hr1) as (Hr2 & Hle2 & Hg2 & Hs2). split; [done|].
  split; [by etransitivity|]. split; congruence.
Qed.

Lemma runtime_new_ok min w h f rev gen size r :
  coord_ok min -> 0 <= w -> 0 <= h -> rectangular min w h = Ok f -> 0 <= rev < 2 ^ 64 ->
  runtime_new f rev gen size = Ok r -> runtime_ok r /\ rt_preparations r = ∅.
Proof.
  intros Hmin Hw Hh Hf Hrev H. unfold runtime_new in H.
  apply bind_Ok in H as (f0 & H0 & H). apply map_err_Ok in H0.
  pose proof (from_initial_wf _ _ _ _ _ _ Hmin Hw Hh Hf Hrev H0) as Hwf0.
  destruct (derive_candidate_frontier f0) as [f1 d] eqn:Ed.
  apply bind_Ok in H as (_ & _ & H). apply bind_Ok in H as (m & Hm & [= <-]). split; [|done].
  split; [|by rewrite Hm]. split; [by eapply derive_wf|]. intros c s Hs. cbn in Hs. by rewrite lookup_empty in Hs.
Qed.

(** ** Coordinates *)

(** What is not merely potential fits its 64 bits. *)
Definition coords_fit (f : FrontierState) : Prop := forall c, state f c <> Potential -> coord_ok c.

Lemma derive_fit f f' r : frontier_wf f -> derive_candidate_frontier f = (f', r) -> coords_fit f -> coords_fit f'.
Proof.
  intros Hwf H Hf c Hc. pose proof H as Hd. apply derive_cases in H as [(-> & _)|(l & -> & _ & _ & _ & _ & _ & _ & Hst)]; [auto| |done].
  rewrite Hst in Hc. case_decide; [by eapply derive_coords|auto].
Qed.

Lemma transition_fit f c target f' r : frontier_wf f -> transition f c target = (f', r) -> state f c <> Potential ->
  coords_fit f -> coords_fit f'.
Proof.
  intros Hwf H Hc Hf d Hd. destruct (state_after f c target f' r d Hwf H) as (E & _). rewrite E in Hd.
  case_decide as Hx; [destruct Hx as [-> _]; by apply Hf|by apply Hf].
Qed.

Lemma prep_step_fit x y : prep_inv x -> prep_step x y -> coords_fit x.2 -> coords_fit y.2.
Proof.
  intros [Hwf _]. destruct 1 as [sl f i sl' r H|sl f a sl' f' r H|sl f i sl' r H|sl f f' r H|sl f u res f' r H]; cbn in *; intros Hf; try done.
  - destruct (complete_cases _ _ _ _ _ _ Hwf H) as [(_ & -> & _)|(t & _ & _ & Hc & _ & Ht)]; [done|].
    eapply transition_fit; [exact Hwf|exact Ht|by rewrite Hc|done].
  - by eapply derive_fit.
  - apply commit_cases in H as [(-> & _)|(s1 & t & l & _ & Hc & _ & Ht & Hwf1 & Hd)]; [done| |done].
    eapply derive_fit; [exact Hwf1|exact Hd|]. eapply transition_fit; [exact Hwf|exact Ht|by rewrite Hc|done].
Qed.

Lemma runtime_steps_fit r r' : runtime_ok r -> rtc runtime_step r r' -> coords_fit (rt_state r) -> coords_fit (rt_state r').
Proof.
  intros Hr H. induction H as [r|r r1 r2 Hstep _ IH]; [done|]. intros Hf.
  destruct (runtime_steps_ok r r1 Hr (rtc_once _ _ Hstep)) as (Hr1 & _). apply (IH Hr1).
  destruct (runtime_step_prep r r1 Hstep) as (Hp & _). destruct Hr as [Hinv _].
  change (rt_state r1) with (rt_pair r1).2. change (rt_state r) with (rt_pair r).2 in Hf.
  revert Hinv Hf. generalize (rt_pair r), (rt_pair r1), Hp. clear. intros x y H. induction H as [x|x y z Hxy _ IH]; [done|].
  intros Hx Hf. apply IH; [by eapply prep_step_inv|by eapply prep_step_fit].
Qed.

Lemma runtime_new_fit min w h f rev gen size r : coord_ok min -> 0 <= w -> 0 <= h -> rectangular min w h = Ok f ->
  0 <= rev < 2 ^ 64 -> runtime_new f rev gen size = Ok r -> coords_fit (rt_state r).
Proof.
  intros Hmin Hw Hh Hf Hrev H. unfold runtime_new in H. apply bind_Ok in H as (f0 & H0%map_err_Ok & H).
  pose proof (from_initial_wf _ _ _ _ _ _ Hmin Hw Hh Hf Hrev H0) as Hwf0.
  destruct (derive_candidate_frontier f0) as [f1 d] eqn:Ed. apply bind_Ok in H as (_ & _ & (m & _ & [= <-])%bind_Ok). cbn.
  eapply derive_fit; [exact Hwf0|exact Ed|]. intros c Hc. unfold rectangular in Hf.
  apply bind_Ok in Hf as (_ & _ & (_ & _ & (mx & [-> Hx]%ok_or_Ok%checked_i_Some & (my & [-> Hy]%ok_or_Ok%checked_i_Some & [= <-])%bind_Ok)%bind_Ok)%bind_Ok).
  unfold from_initial in H0. case_decide; [done|]. injection H0 as <-. unfold state in Hc. cbn in Hc.
  rewrite lookup_empty in Hc. case_decide as Hin; [|done]. apply elem_of_list_to_set, elem_of_rectangle in Hin.
  destruct Hmin. unfold coord_ok, in_i in *. lia.
Qed.

(** C15: a running frontier can always be announced.  From any runtime the server
    can start, with a generator version of 32 and a quadrant size of 64 bits, after any
    sequence of requests, completions, cancellations, failures and reveals, successful
    or not, the manifest exists, encodes to a payload, and that payload decodes to the
    manifest again, which holds exactly the revealed quadrants, in order and without
    repetition, at the frontier's revision, with the version and size of the start;
    and the quadrants already announced stay. *)
Theorem manifest_always_exists (min : QuadrantCoord) (w h rev gen size : Z) (f : InitialFrontier)
  (r0 r : FrontierRuntime) :
  coord_ok min -> 0 <= w -> 0 <= h -> rectangular min w h = Ok f -> 0 <= rev < 2 ^ 64 ->
  in_u 32 gen -> in_i 64 size ->
  runtime_new f rev gen size = Ok r0 -> rtc runtime_step r0 r ->
  exists m payload, manifest r = Ok m /\ Manifest.encode m = Ok payload /\ Manifest.decode payload = Ok m /\
    Manifest.revision m = revision (rt_state r) /\
    Manifest.generator_version m = gen /\ Manifest.quadrant_size_mm m = size /\
    (forall c, to_fqc c ∈ Manifest.quadrants m <-> state (rt_state r) c = Revealed) /\
    (exists qs, Manifest.quadrants m = map to_fqc qs /\ Sorted coord_le qs /\ NoDup qs) /\
    forall c, state (rt_state r0) c = Revealed -> to_fqc c ∈ Manifest.quadrants m.
Proof.
  intros Hmin Hw Hh Hf Hrev Hgen Hsize H0 Hsteps.
  destruct (runtime_new_ok _ _ _ _ _ _ _ _ Hmin Hw Hh Hf Hrev H0) as [Hr0 _].
  pose proof (runtime_steps_fit r0 r Hr0 Hsteps (runtime_new_fit _ _ _ _ _ _ _ _ Hmin Hw Hh Hf Hrev H0)) as Hfit.
  assert (rt_generator_version r0 = gen /\ rt_quadrant_size_mm r0 = size) as [Hg0 Hs0].
  { unfold runtime_new in H0. apply bind_Ok in H0 as (f0 & _ & H0). destruct (derive_candidate_frontier f0).
    apply bind_Ok in H0 as (_ & _ & H0). by apply bind_Ok in H0 as (_ & _ & [= <-]). }
  destruct (runtime_steps_ok r0 r Hr0 Hsteps) as ([[Hwf _] Hm] & (Hmono & _ & _) & Hg & Hs). cbn in Hwf.
  unfold manifest in *. destruct (build_manifest (rt_state r) _ _) as [m|] eqn:E; [|done].
  pose proof (manifest_settings _ _ _ _ E) as (Hne & Hgn & Hsn).
  pose proof E as E'. rewrite manifest_exists in E' by done. injection E' as E'.
  assert (forall c, to_fqc c ∈ Manifest.quadrants m <-> state (rt_state r) c = Revealed) as Hin.
  { intros c. rewrite <- E'; cbn [Manifest.quadrants]. rewrite (list_elem_of_fmap_inj to_fqc), elem_of_sort_coords.
    rewrite state_Revealed by done. destruct Hwf as [-> _ _ _ _ _]. by rewrite elem_of_list_to_set. }
  assert (Manifest.validate m = Ok tt) as V.
  { unfold build_manifest in E. rewrite map_err_Ok in E. unfold Manifest.manifest_new in E.
    by apply bind_Ok in E as ([] & V & [= <-]). }
  assert (Manifest.manifest_fields_ok m) as Hfields.
  { rewrite <- E' in *. unfold Manifest.manifest_fields_ok. cbn [Manifest.manifest_version Manifest.generator_version
      Manifest.quadrant_size_mm Manifest.revision Manifest.quadrants].
    rewrite Hg, Hg0, Hs, Hs0. pose proof (fw_revision _ Hwf). split_goals; [done|done|done|unfold in_u; lia|].
    apply list.Forall_forall. intros x (c & -> & Hc)%list_elem_of_fmap.
    destruct (Hfit c); [|by split]. rewrite elem_of_sort_coords in Hc.
    rewrite (proj2 (state_Revealed (rt_state r) c Hwf)); [done|]. destruct Hwf as [-> _ _ _ _ _]. by rewrite elem_of_list_to_set. }
  exists m, (Manifest.encode_body m). split; [done|]. split; [by apply Manifest.encode_valid|].
  split; [by apply Manifest.decode_encode_body|].
  subst m; cbn [Manifest.revision Manifest.generator_version Manifest.quadrant_size_mm Manifest.quadrants] in *.
  split_goals; [done|congruence|congruence|done| |].
  - eexists. split; [done|]. split; [apply Sorted_merge_sort, _|]. rewrite sort_coords_Permutation. apply Hwf.
  - intros c Hc. apply Hin. specialize (Hmono c). rewrite Hc in Hmono. cbn in Hmono.
    by destruct (state (rt_state r) c); cbn in Hmono.
Qed.

Definition example_initial : InitialFrontier :=
  {| min_coord := mk_coord 0 0; max_coord := mk_coord 1 0; width := 2; height := 1;
     initial_quadrants := [mk_coord 0 0; mk_coord 1 0] |}.

Definition example_identity : QuadrantPreparationIdentity :=
  {| id_coord := mk_coord 0 1; id_generator_version := 1; id_inputs_fingerprint := [9] |}.

Lemma manifest_always_exists_witness :
  exists r0 r m, runtime_new example_initial 5 1 64000 = Ok r0 /\ rtc runtime_step r0 r /\
    preparation_in_flight_len r = 1%nat /\ manifest r = Ok m /\
    Manifest.quadrants m = [Manifest.mk_fqc 0 0; Manifest.mk_fqc 1 0].
Proof.
  destruct (runtime_new example_initial 5 1 64000) as [r0|e] eqn:E; [|vm_compute in E; discriminate E].
  pose (r := fst (request_preparation r0 example_identity)).
  assert (rtc runtime_step r0 r) as Hs by (eapply rtc_once, rt_request, surjective_pairing).
  assert (preparation_in_flight_len r = 1%nat) as Hn.
  { subst r. vm_compute in E. injection E as <-. vm_compute. reflexivity. }
  destruct (manifest_always_exists (mk_coord 0 0) 2 1 5 1 64000 example_initial r0 r) as (m & p & Hm & _ & Hdec & _);
    [split; vm_compute; split; congruence|lia|lia|reflexivity|lia|unfold in_u; lia|unfold in_i; lia|exact E|exact Hs|].
  exists r0, r, m. split; [reflexivity|]. split; [exact Hs|]. split; [exact Hn|]. split; [exact Hm|].
  subst r. vm_compute in E. injection E as <-. vm_compute in Hm. by injection Hm as <-.
Defined.
