(* ===== verification/Delivery.v ===== *)
(** Delivery of the frontier manifest ([apps/world-server/src/frontier_delivery.rs]):
    a manifest that is not acknowledged is sent again at intervals, a bounded number
    of times, until its deadline.  And the laboratory's reveal gate
    ([development_frontier.rs]).  Times are numbers of nanoseconds. *)

From S2P Require Import Prelude Bytes Core Frontier Preparation Runtime.
Import World.

Record FrontierDeliveryPolicy := {
  retry_interval : Z;
  ack_timeout : Z;
  max_retries : Z
}.

(** [FrontierDeliveryPolicy::DEFAULT]: 500 ms, 5 s, 3 retries. *)
Definition delivery_default : FrontierDeliveryPolicy :=
  {| retry_interval := 500000000; ack_timeout := 5000000000; max_retries := 3 |}.

Inductive FrontierDeliveryPolicyError :=
| ZeroRetryInterval
| AckTimeoutNotGreaterThanRetry (retry_interval ack_timeout : Z)
| ZeroMaxRetries.

Definition delivery_policy_new (retry timeout retries : Z)
  : result FrontierDeliveryPolicyError FrontierDeliveryPolicy :=
  if decide (retry = 0) then Err ZeroRetryInterval
  else if decide (timeout <= retry) then Err (AckTimeoutNotGreaterThanRetry retry timeout)
  else if decide (retries = 0) then Err ZeroMaxRetries
  else Ok {| retry_interval := retry; ack_timeout := timeout; max_retries := retries |}.

Inductive FrontierDeliveryAction :=
| Retry (connection_id revision attempt : Z)
| Timeout (connection_id revision retries_sent : Z).

Record PendingFrontierDelivery := {
  pending_revision : Z;
  started_at : Z;
  next_retry_at : Z;
  retries_sent : Z
}.

(** The tracker's map of connections; the policy is an argument. *)
Abbreviation FrontierDeliveries := (gmap Z PendingFrontierDelivery).

Section Tracker.
Context (policy : FrontierDeliveryPolicy).

Definition track (pending : FrontierDeliveries) (connection_id revision now : Z) : FrontierDeliveries :=
  <[connection_id := {| pending_revision := revision; started_at := now;
                        next_retry_at := now + retry_interval policy; retries_sent := 0 |}]> pending.

Definition acknowledge (pending : FrontierDeliveries) (connection_id revision : Z) : FrontierDeliveries * bool :=
  match pending !! connection_id with
  | None => (pending, false)
  | Some p =>
      if decide (pending_revision p <> revision) then (pending, false)
      else (delete connection_id pending, true)
  end.

Definition delivery_remove (pending : FrontierDeliveries) (connection_id : Z) : FrontierDeliveries :=
  delete connection_id pending.

(** The body of the loop of [evaluate]. *)
Definition evaluate_connection (now : Z) (st : FrontierDeliveries * list FrontierDeliveryAction) (connection_id : Z)
  : FrontierDeliveries * list FrontierDeliveryAction :=
  let '(pending, actions) := st in
  match pending !! connection_id with
  | None => st
  | Some p =>
      if decide (now >= started_at p + ack_timeout policy) then
        (delete connection_id pending,
         actions ++ [Timeout connection_id (pending_revision p) (retries_sent p)])
      else if decide (retries_sent p >= max_retries policy \/ now < next_retry_at p) then st
      else
        let current := {| pending_revision := pending_revision p; started_at := started_at p;
                          next_retry_at := now + retry_interval policy;
                          retries_sent := wrap_u 32 (retries_sent p + 1) |} in
        (<[connection_id := current]> pending,
         actions ++ [Retry connection_id (pending_revision p) (retries_sent current)])
  end.

(** [connection_ids] are the keys in the order of the hash map's iterator. *)
Definition evaluate_delivery (connection_ids : list Z) (pending : FrontierDeliveries) (now : Z)
  : FrontierDeliveries * list FrontierDeliveryAction :=
  foldl (evaluate_connection now) (pending, []) connection_ids.

(** ** One connection *)

(** What an evaluation does to the delivery of one connection. *)
Definition delivery_step (connection_id now : Z) (p : PendingFrontierDelivery)
  : option PendingFrontierDelivery * list FrontierDeliveryAction :=
  if decide (started_at p + ack_timeout policy <= now)
  then (None, [Timeout connection_id (pending_revision p) (retries_sent p)])
  else if decide (retries_sent p < max_retries policy /\ next_retry_at p <= now)
  then (Some {| pending_revision := pending_revision p; started_at := started_at p;
                next_retry_at := now + retry_interval policy; retries_sent := retries_sent p + 1 |},
        [Retry connection_id (pending_revision p) (retries_sent p + 1)])
  else (Some p, []).

Definition action_connection (a : FrontierDeliveryAction) : Z :=
  match a with Retry c _ _ | Timeout c _ _ => c end.

Definition policy_ok : Prop := 0 < retry_interval policy < ack_timeout policy /\ 0 < max_retries policy < 2 ^ 32.

(** Every tracked delivery counts at most the retries allowed. *)
Definition deliveries_ok (pending : FrontierDeliveries) : Prop :=
  forall c p, pending !! c = Some p -> 0 <= retries_sent p <= max_retries policy.

Lemma evaluate_connection_step now pending actions c p :
  policy_ok -> pending !! c = Some p -> 0 <= retries_sent p <= max_retries policy ->
  evaluate_connection now (pending, actions) c =
  (match (delivery_step c now p).1 with Some p' => <[c := p']> pending | None => delete c pending end,
   actions ++ (delivery_step c now p).2).
Proof.
  intros [_ Hmax] Hp Hr. unfold evaluate_connection, delivery_step. rewrite Hp.
  destruct (decide (now >= _)); [rewrite decide_True by lia; done|]. rewrite (decide_False (P := _ <= now)) by lia.
  destruct (decide (_ \/ _)).
  - rewrite decide_False by lia. cbn. by rewrite insert_id, app_nil_r.
  - rewrite decide_True by lia. cbn. rewrite wrap_u_small; [done|unfold in_u; lia].
Qed.

(** An evaluation treats each connection by itself; the order of the keys shows
    only in the order of the actions. *)
Lemma evaluate_loop now ids : forall pending actions pending' actions',
  policy_ok -> deliveries_ok pending -> NoDup ids -> (forall c, c ∈ ids -> is_Some (pending !! c)) ->
  foldl (evaluate_connection now) (pending, actions) ids = (pending', actions') ->
  deliveries_ok pending' /\
  (forall c, pending' !! c =
     if decide (c ∈ ids) then p ← pending !! c; (delivery_step c now p).1 else pending !! c) /\
  (exists new, actions' = actions ++ new /\
     forall c, filter (fun a => action_connection a = c) new =
       if decide (c ∈ ids) then from_option (fun p => (delivery_step c now p).2) [] (pending !! c) else []).
Proof.
  induction ids as [|i ids IH]; intros pending actions pending' actions' Hpol Hok Hnd Hin; cbn [foldl].
  { intros [= <- <-]. split; [done|]. split; [intros c; by rewrite decide_False by set_solver|].
    exists []. rewrite app_nil_r. split; [done|]. intros c. by rewrite decide_False by set_solver. }
  apply list.NoDup_cons in Hnd as [Hi Hnd]. destruct (Hin i ltac:(by left)) as [p Hp].
  rewrite (evaluate_connection_step now pending actions i p Hpol Hp (Hok i p Hp)). intros H.
  set (pending1 := match (delivery_step i now p).1 with Some p' => _ | None => _ end) in H.
  assert (forall c, pending1 !! c = if decide (c = i) then (delivery_step i now p).1 else pending !! c) as Hl.
  { intros c. unfold pending1. destruct (decide (c = i)) as [->|Hne].
    - destruct (delivery_step i now p).1; [apply lookup_insert_eq|apply lookup_delete_eq].
    - destruct (delivery_step i now p).1; [by apply lookup_insert_ne|by apply lookup_delete_ne]. }
  assert (deliveries_ok pending1) as Hok1.
  { intros c q. rewrite Hl. destruct (decide (c = i)) as [->|]; [|apply Hok].
    specialize (Hok i p Hp). unfold delivery_step. destruct (decide _); [done|].
    destruct (decide _); intros [= <-]; cbn; lia. }
  apply IH in H as (Hok' & Hpend & new & -> & Hnew); [|done..|].
  2: { intros c Hc. rewrite Hl. destruct (decide (c = i)) as [->|]; [done|]. apply Hin. by right. }
  split; [done|]. split.
  - intros c. rewrite Hpend, Hl. destruct (decide (c = i)) as [->|Hne].
    + rewrite decide_False by done. rewrite decide_True by (by left). by rewrite Hp.
    + destruct (decide (c ∈ ids)); [by rewrite decide_True by (by right)|].
      by rewrite decide_False by (rewrite elem_of_cons; naive_solver).
  - exists ((delivery_step i now p).2 ++ new). split; [by rewrite app_assoc|]. intros c.
    rewrite list.filter_app, Hnew, Hl. destruct (decide (c = i)) as [->|Hne].
    + rewrite decide_False by done. rewrite decide_True by (by left). rewrite Hp, app_nil_r. cbn.
      unfold delivery_step. repeat (destruct (decide _); cbn; try done); by rewrite filter_cons_True.
    + assert (filter (fun a => action_connection a = c) (delivery_step i now p).2 = []) as ->.
      { unfold delivery_step. repeat (destruct (decide _); cbn; try done); by rewrite filter_cons_False. }
      cbn. destruct (decide (c ∈ ids)); [by rewrite decide_True by (by right)|].
      by rewrite decide_False by (rewrite elem_of_cons; naive_solver).
Qed.
End Tracker.

(** ** A run of evaluations *)

Section Run.
Context (policy : FrontierDeliveryPolicy).

(** Evaluations at the given times, each in some order of the keys. *)
Inductive delivery_run : FrontierDeliveries -> list Z -> FrontierDeliveries -> list (Z * FrontierDeliveryAction) -> Prop :=
| delivery_done pending : delivery_run pending [] pending []
| delivery_evaluated pending ids now pending1 actions times pending2 later :
    ids ≡ₚ (map_to_list pending).*1 -> evaluate_delivery policy ids pending now = (pending1, actions) ->
    delivery_run pending1 times pending2 later ->
    delivery_run pending (now :: times) pending2 (map (fun a => (now, a)) actions ++ later).

Definition of_connection (c : Z) (l : list (Z * FrontierDeliveryAction)) : list (Z * FrontierDeliveryAction) :=
  filter (fun e => action_connection e.2 = c) l.

Lemma evaluate_delivery_spec ids pending now pending' actions :
  policy_ok policy -> deliveries_ok policy pending -> ids ≡ₚ (map_to_list pending).*1 ->
  evaluate_delivery policy ids pending now = (pending', actions) ->
  deliveries_ok policy pending' /\
  (forall c, pending' !! c = p ← pending !! c; (delivery_step policy c now p).1) /\
  forall c, filter (fun a => action_connection a = c) actions =
    from_option (fun p => (delivery_step policy c now p).2) [] (pending !! c).
Proof.
  intros Hpol Hok Hids H.
  assert (forall c, c ∈ ids <-> is_Some (pending !! c)) as Hin.
  { intros c. rewrite Hids, list_elem_of_fmap. split.
    - intros ([c' p] & -> & Hp%elem_of_map_to_list). by exists p.
    - intros [p Hp]. exists (c, p). by rewrite elem_of_map_to_list. }
  apply evaluate_loop in H as (Hok' & Hp & new & -> & Hn); [|done|done| |by intros c ?%Hin].
  2: { rewrite Hids. apply NoDup_fst_map_to_list. }
  split; [done|]. split; intros c; [rewrite Hp|rewrite app_nil_l, Hn]; destruct (decide (c ∈ ids)) as [|Hni];
    try done; rewrite Hin in Hni; apply eq_None_not_Some in Hni; by rewrite Hni.
Qed.

Lemma of_connection_now c now actions :
  of_connection c (map (fun a => (now, a)) actions) =
  map (fun a => (now, a)) (filter (fun a => action_connection a = c) actions).
Proof.
  unfold of_connection. induction actions as [|a actions IH]; [done|]. cbn [map].
  destruct (decide (action_connection a = c)).
  - rewrite !filter_cons_True by done. cbn. by rewrite IH.
  - by rewrite !filter_cons_False by done.
Qed.

Lemma untracked_run c pending times pending' acts :
  policy_ok policy -> deliveries_ok policy pending -> delivery_run pending times pending' acts ->
  pending !! c = None -> of_connection c acts = [] /\ pending' !! c = None.
Proof.
  intros Hpol Hok H. induction H as [pending|pending ids now pending1 actions times pending2 later Hids He _ IH]; [done|].
  intros Hc. destruct (evaluate_delivery_spec _ _ _ _ _ Hpol Hok Hids He) as (Hok1 & Hp & Ha).
  destruct (IH Hok1) as [Hl Hn]; [by rewrite Hp, Hc|]. split; [|done].
  unfold of_connection. rewrite list.filter_app. fold (of_connection c (map (fun a => (now, a)) actions)).
  fold (of_connection c later). by rewrite of_connection_now, Ha, Hc, Hl.
Qed.

(** The retries of a delivery that has already sent [k], at the times [sent]. *)
Definition retries (c rev k : Z) (sent : list Z) : list (Z * FrontierDeliveryAction) :=
  imap (fun i s => (s, Retry c rev (k + 1 + Z.of_nat i))) sent.

Lemma retries_cons c rev k s sent : retries c rev k (s :: sent) = (s, Retry c rev (k + 1)) :: retries c rev (k + 1) sent.
Proof.
  unfold retries. cbn [imap]. f_equal; [by rewrite Z.add_0_r|]. apply imap_ext. intros i x _. cbn. f_equal. f_equal. lia.
Qed.

(** Each retry waits for its interval. *)
Fixpoint spaced (from : Z) (sent : list Z) : Prop :=
  match sent with [] => True | s :: sent' => from <= s /\ spaced (s + retry_interval policy) sent' end.

Lemma tracked_run c pending times pending' acts p :
  policy_ok policy -> deliveries_ok policy pending -> delivery_run pending times pending' acts ->
  pending !! c = Some p ->
  exists sent, let k := retries_sent p + Z.of_nat (length sent) in
    k <= max_retries policy /\ spaced (next_retry_at p) sent /\
    Forall (fun s => s < started_at p + ack_timeout policy) sent /\
    ((Forall (fun s => s < started_at p + ack_timeout policy) times /\
      of_connection c acts = retries c (pending_revision p) (retries_sent p) sent /\
      exists p', pending' !! c = Some p' /\ pending_revision p' = pending_revision p /\ retries_sent p' = k) \/
     exists now before after, times = before ++ now :: after /\
      Forall (fun s => s < started_at p + ack_timeout policy) before /\ started_at p + ack_timeout policy <= now /\
      of_connection c acts =
        retries c (pending_revision p) (retries_sent p) sent ++ [(now, Timeout c (pending_revision p) k)] /\
      pending' !! c = None).
Proof.
  intros Hpol Hok H. revert p. induction H as [pending|pending ids now pending1 actions times pending2 later Hids He Hrun IH];
    intros p Hc.
  { exists []. cbn. rewrite Z.add_0_r. specialize (Hok c p Hc). split_goals; [lia|done|constructor|].
    left. split; [constructor|]. split; [done|]. by exists p. }
  destruct (evaluate_delivery_spec _ _ _ _ _ Hpol Hok Hids He) as (Hok1 & Hp & Ha).
  specialize (Hp c). specialize (Ha c). rewrite Hc in Hp, Ha. cbn in Hp, Ha. cbv zeta.
  assert (of_connection c (map (fun a => (now, a)) actions ++ later) =
    map (fun a => (now, a)) (delivery_step policy c now p).2 ++ of_connection c later) as Eacts.
  { unfold of_connection at 1. rewrite list.filter_app. fold (of_connection c (map (fun a => (now, a)) actions)).
    by rewrite of_connection_now, Ha. }
  rewrite Eacts. unfold delivery_step in Hp |- *. specialize (Hok c p Hc).
  destruct (decide (started_at p + ack_timeout policy <= now)) as [Hout|Hin].
  - destruct (untracked_run c _ _ _ _ Hpol Hok1 Hrun Hp) as [-> Hn].
    exists []. cbn. rewrite Z.add_0_r. split_goals; [lia|done|constructor|]. right. exists now, [], times.
    split_goals; [done|constructor|done|done|done].
  - destruct (decide (retries_sent p < max_retries policy /\ next_retry_at p <= now)) as [[Hlt Hnext]|Hno].
    + destruct (IH Hok1 _ Hp) as (sent & Hk & Hsp & Hsent & Hcase). cbn in Hk, Hsp, Hsent, Hcase. exists (now :: sent).
      rewrite retries_cons. cbn [length app map snd]. rewrite Nat2Z.inj_succ. split_goals; [lia|done|by constructor; [lia|]|].
      destruct Hcase as [(Ht & -> & p' & Hp' & Er & Es)|(t & before & after & -> & Hb & Ht & -> & Hn)].
      * left. split; [constructor; [lia|done]|]. split; [done|]. exists p'. split_goals; [done|done|lia].
      * right. exists t, (now :: before), after. split_goals; [done|by constructor; [lia|]|done| |done].
        cbn. do 5 f_equal. lia.
    + destruct (IH Hok1 _ Hp) as (sent & Hk & Hsp & Hsent & Hcase). exists sent. cbn [map app].
      split_goals; [done..|]. destruct Hcase as [(Ht & -> & Hex)|(t & before & after & -> & Hb & Ht & -> & Hn)].
      * left. split; [constructor; [lia|done]|done].
      * right. exists t, (now :: before), after. split_goals; [done|by constructor; [lia|]|done..].
Qed.
End Run.

(** C14: a manifest is delivered or given up, and never flooded.  However the
    evaluations fall and in whatever order each visits the connections, a
    manifest that is tracked from time [t0] and not acknowledged is sent again at
    most [max_retries] times, numbered from one, each at least an interval after
    the one before and none after the deadline; the first evaluation past the
    deadline reports the time-out with the number of retries sent and forgets the
    connection; and until then the connection stays tracked. *)
Theorem frontier_delivery_bounded (policy : FrontierDeliveryPolicy) (pending pending' : FrontierDeliveries)
  (c rev t0 : Z) (times : list Z) (acts : list (Z * FrontierDeliveryAction)) :
  policy_ok policy -> deliveries_ok policy pending ->
  delivery_run policy (track policy pending c rev t0) times pending' acts ->
  let deadline := t0 + ack_timeout policy in
  exists sent, let k := Z.of_nat (length sent) in
    k <= max_retries policy /\ spaced policy (t0 + retry_interval policy) sent /\
    Forall (fun s => s < deadline) sent /\
    ((Forall (fun s => s < deadline) times /\ of_connection c acts = retries c rev 0 sent /\
      exists p', pending' !! c = Some p' /\ pending_revision p' = rev /\ retries_sent p' = k) \/
     exists now before after, times = before ++ now :: after /\
      Forall (fun s => s < deadline) before /\ deadline <= now /\
      of_connection c acts = retries c rev 0 sent ++ [(now, Timeout c rev k)] /\ pending' !! c = None).
Proof.
  intros Hpol Hok Hrun deadline.
  assert (deliveries_ok policy (track policy pending c rev t0)) as Hok'.
  { intros c' p. unfold track. destruct (decide (c' = c)) as [->|].
    - rewrite lookup_insert_eq. intros [= <-]. cbn. destruct Hpol. lia.
    - rewrite lookup_insert_ne by done. apply Hok. }
  exact (tracked_run policy c _ _ _ _ _ Hpol Hok' Hrun (lookup_insert_eq _ _ _)).
Qed.

Lemma frontier_delivery_bounded_witness :
  policy_ok {| retry_interval := 5; ack_timeout := 12; max_retries := 3 |} /\
  exists pending' acts, delivery_run {| retry_interval := 5; ack_timeout := 12; max_retries := 3 |}
    (track {| retry_interval := 5; ack_timeout := 12; max_retries := 3 |} ∅ 7 4 100) [103; 106; 111; 113] pending' acts /\
    acts = [(106, Retry 7 4 1); (111, Retry 7 4 2); (113, Timeout 7 4 2)] /\ pending' !! 7 = None.
Proof.
  assert (policy_ok {| retry_interval := 5; ack_timeout := 12; max_retries := 3 |}) as Hpol
    by (unfold policy_ok; cbn; lia).
  split; [exact Hpol|].
  assert (exists pending' acts, delivery_run {| retry_interval := 5; ack_timeout := 12; max_retries := 3 |}
    (track {| retry_interval := 5; ack_timeout := 12; max_retries := 3 |} ∅ 7 4 100) [103; 106; 111; 113] pending' acts /\
    acts = [(106, Retry 7 4 1); (111, Retry 7 4 2); (113, Timeout 7 4 2)]) as (pending' & acts & H & E).
  { eexists _, _. split; [do 4 (eapply (delivery_evaluated _ _ [7]); [reflexivity|vm_compute; reflexivity|]);
      apply delivery_done|reflexivity]. }
  exists pending', acts. split; [exact H|split; [exact E|]].
  destruct (frontier_delivery_bounded _ ∅ pending' 7 4 100 _ acts Hpol ltac:(intros c p Hc; rewrite lookup_empty in Hc; discriminate Hc) H)
    as (sent & _ & _ & _ & [(Hall & _)|(_ & _ & _ & _ & _ & _ & _ & Hn)]); [|exact Hn].
  do 3 apply Forall_cons_1 in Hall as [_ Hall]. apply Forall_cons_1 in Hall as [Hall _]. cbn in Hall. lia.
Defined.

(** ** The laboratory's reveal gate ([development_frontier.rs]) *)

Definition DEVELOPMENT_FRONTIER_REQUIREMENT_ID : Z := 1.
Definition DEVELOPMENT_PREPARATION_INPUT_FINGERPRINT : list Z := replicate 32 0xD1.
Definition DEVELOPMENT_PREPARED_ARTIFACT_FINGERPRINT : list Z := replicate 32 0xD2.
Definition DEVELOPMENT_PREPARED_ARTIFACT_BYTES : Z := 1.

Record DevelopmentFrontierRevealConfig := { reveal_coord : QuadrantCoord; reveal_delay : Z }.

Inductive GateError :=
| ZeroRevealDelay
| GateFingerprint (e : QuadrantPreparationError)
| GateRuntime (e : RuntimeError)
| GateEligibility (e : FrontierEligibilityError).

Definition reveal_config_new (c : QuadrantCoord) (delay : Z) : result GateError DevelopmentFrontierRevealConfig :=
  if decide (delay = 0) then Err ZeroRevealDelay else Ok {| reveal_coord := c; reveal_delay := delay |}.

Record DevelopmentFrontierRevealGate := {
  gate_requirements : FrontierUnlockRequirements;
  gate_requirement : Z;
  gate_delay : Z;
  armed_at : option Z;
  gate_complete : bool
}.

(** The quadrant is prepared with a stand-in artifact on the spot. *)
Definition gate_new (frontier : FrontierRuntime) (config : DevelopmentFrontierRevealConfig)
  : FrontierRuntime * result GateError DevelopmentFrontierRevealGate :=
  let prepared :=
    input ← map_err GateFingerprint (fingerprint_new DEVELOPMENT_PREPARATION_INPUT_FINGERPRINT);
    map_err GateRuntime (preparation_identity frontier (reveal_coord config) input) in
  match prepared with
  | Err e => (frontier, Err e)
  | Ok identity =>
  let '(frontier, requested) := request_preparation frontier identity in
  match requested with
  | Err e => (frontier, Err (GateRuntime e))
  | Ok _ =>
  let artifact :=
    output ← map_err GateFingerprint (fingerprint_new DEVELOPMENT_PREPARED_ARTIFACT_FINGERPRINT);
    map_err GateFingerprint (artifact_new identity output DEVELOPMENT_PREPARED_ARTIFACT_BYTES) in
  match artifact with
  | Err e => (frontier, Err e)
  | Ok artifact =>
  let '(frontier, completed) := complete_preparation frontier artifact in
  match completed with
  | Err e => (frontier, Err (GateRuntime e))
  | Ok _ =>
      (frontier,
       requirement ← map_err GateEligibility (requirement_id_new DEVELOPMENT_FRONTIER_REQUIREMENT_ID);
       requirements ← map_err GateEligibility (unlock_requirements_new (reveal_coord config) [requirement]);
       Ok {| gate_requirements := requirements; gate_requirement := requirement;
             gate_delay := reveal_delay config; armed_at := None; gate_complete := false |})
  end
  end
  end
  end.

Definition arm (g : DevelopmentFrontierRevealGate) (now : Z) : DevelopmentFrontierRevealGate * bool :=
  match armed_at g, gate_complete g with
  | None, false =>
      ({| gate_requirements := gate_requirements g; gate_requirement := gate_requirement g;
          gate_delay := gate_delay g; armed_at := Some now; gate_complete := false |}, true)
  | _, _ => (g, false)
  end.

(** [saturating_duration_since] is zero when [armed_at] is later. *)
Definition is_ready (g : DevelopmentFrontierRevealGate) (now : Z) : bool :=
  match armed_at g with
  | Some armed => bool_decide (gate_delay g <= Z.max 0 (now - armed))
  | None => false
  end.

Definition mark_complete (g : DevelopmentFrontierRevealGate) : DevelopmentFrontierRevealGate :=
  {| gate_requirements := gate_requirements g; gate_requirement := gate_requirement g; gate_delay := gate_delay g;
     armed_at := armed_at g; gate_complete := true |}.

Definition gate_coord (g : DevelopmentFrontierRevealGate) : QuadrantCoord := req_coord (gate_requirements g).

Definition gate_resolver (g : DevelopmentFrontierRevealGate) (satisfied : bool) : Resolver :=
  fun c requirement =>
    if decide (c = gate_coord g /\ requirement = gate_requirement g) then Some satisfied else None.

(** Where a new gate stands. *)
Definition gate_ok (g : DevelopmentFrontierRevealGate) : Prop :=
  gate_requirements g = {| req_coord := gate_coord g; req_list := [gate_requirement g] |}.

(** The calls of a successful [new]. *)
Lemma gate_new_calls r config r' g : gate_new r config = (r', Ok g) ->
  exists artifact r1 o o', id_coord (art_identity artifact) = reveal_coord config /\
    request_preparation r (art_identity artifact) = (r1, Ok o) /\ complete_preparation r1 artifact = (r', Ok o') /\
    g = {| gate_requirements := {| req_coord := reveal_coord config; req_list := [1] |}; gate_requirement := 1;
           gate_delay := reveal_delay config; armed_at := None; gate_complete := false |}.
Proof.
  intros H. unfold gate_new in H. cbv zeta in H.
  match type of H with match ?x with _ => _ end = _ => destruct x as [identity|] eqn:Ei; [|done] end.
  assert (id_coord identity = reveal_coord config) as Hcoord.
  { apply bind_Ok in Ei as (fp & _ & Ei). apply map_err_Ok in Ei. unfold preparation_identity, identity_new in Ei.
    apply map_err_Ok in Ei. destruct (decide _); [done|]. by injection Ei as <-. }
  destruct (request_preparation r identity) as [r1 [o|e]] eqn:Er; [|done].
  match type of H with match ?x with _ => _ end = _ => destruct x as [artifact|] eqn:Ea; [|done] end.
  assert (art_identity artifact = identity) as Hart.
  { apply bind_Ok in Ea as (fp & _ & Ea). apply map_err_Ok in Ea. unfold artifact_new in Ea.
    destruct (decide _); [done|]. by injection Ea as <-. }
  destruct (complete_preparation r1 artifact) as [r2 [o2|e]] eqn:Ec; [|done]. injection H as <- <-.
  exists artifact, r1, o, o2. by rewrite Hart.
Qed.

Lemma gate_new_Ok r config r' g :
  runtime_ok r -> gate_new r config = (r', Ok g) ->
  gate_ok g /\ gate_coord g = reveal_coord config /\ gate_delay g = reveal_delay config /\
  armed_at g = None /\ gate_complete g = false /\
  rtc runtime_step r r' /\ 2 <= rank (state (rt_state r') (gate_coord g)) /\
  rt_revision r' = rt_revision r /\ revealed_quadrants (rt_state r') = revealed_quadrants (rt_state r).
Proof.
  intros [Hprep _] (artifact & r1 & o & o2 & Hcoord & Er & Ec & ->)%gate_new_calls.
  assert (runtime_step r r1) as S1 by (by eapply rt_request).
  assert (runtime_step r1 r') as S2 by (by eapply rt_complete).
  assert (prep_inv (rt_pair r1)) as Hp1.
  { by destruct (prep_steps_frontier _ _ Hprep (proj1 (runtime_step_prep _ _ S1))). }
  assert (rt_state r1 = rt_state r) as E1.
  { unfold request_preparation in Er. destruct (validate_preparation_generator r _); [|by simplify_eq].
    destruct (request _ _ _) as [sl o']. by injection Er as <- _. }
  unfold complete_preparation in Ec. destruct (validate_preparation_generator r1 _); [|done].
  destruct (complete _ _ _) as [[sl f] o'] eqn:Ecomp. injection Ec as <- Eo. cbn [rt_state with_frontier].
  destruct Hp1 as [Hwf1 Hsl1]. cbn in Hwf1, Hsl1.
  assert (gate_coord {| gate_requirements := {| req_coord := reveal_coord config; req_list := [1] |};
    gate_requirement := 1; gate_delay := reveal_delay config; armed_at := None; gate_complete := false |} =
    reveal_coord config) as Hgc by done.
  do 5 (split; [done|]). split; [by eapply rtc_l, rtc_once|].
  unfold rt_revision. cbn [rt_state with_frontier].
  pose proof Ecomp as Hcases. apply complete_cases in Hcases as [(-> & -> & Hno & Hiff)|(t & -> & Hs & Hcand & -> & Ht)]; [| |done].
  - destruct o' as [o'|]; [|done]. destruct o' as [t|]; [by destruct (Hno t)|].
    pose proof (proj1 Hiff eq_refl) as Hslot. destruct (Hsl1 _ _ Hslot) as [_ Hrank]. rewrite Hcoord in Hrank.
    split; [exact Hrank|]. by rewrite E1.
  - rewrite Hcoord in *. destruct (state_after _ _ _ _ _ (reveal_coord config) Hwf1 Ht) as (Hst & _).
    rewrite decide_True in Hst by done. change (gate_coord _) with (reveal_coord config). rewrite Hst. split; [cbn; lia|].
    apply transition_cases in Ht as [(_ & ? & _)|[(_ & e & ?)|(_ & n & Hn & _ & ->)]]; [done|done|].
    rewrite <- E1. apply next_revision_Ok in Hn as [[_ Hn]|(? & _ & _)]; [|done].
    rewrite (decide_False (P := Prepared = Revealed)) by done. by split.
Qed.

(** The gate reveals its quadrant, when its delay has passed and not before.  It
    prepares the quadrant in private; a gate armed at [t0] is ready from [t0] plus
    the delay on, stays armed, and a ready gate's commit reveals exactly its
    quadrant, unless the frontier is full or its revisions are used up; while the
    requirement is unsatisfied nothing changes. *)
Theorem development_gate_reveals (r r' : FrontierRuntime) (config : DevelopmentFrontierRevealConfig)
  (g : DevelopmentFrontierRevealGate) (t0 : Z) :
  runtime_ok r -> gate_new r config = (r', Ok g) -> 0 < reveal_delay config ->
  rt_revision r' = rt_revision r /\ revealed_quadrants (rt_state r') = revealed_quadrants (rt_state r) /\
  is_ready g t0 = false /\
  (let '(armed, first) := arm g t0 in first = true /\ arm armed (t0 + 1) = (armed, false) /\
     forall now, is_ready armed now = true <-> t0 + reveal_delay config <= now) /\
  (exists o, commit_reveal r' (gate_requirements g) (gate_resolver g false) = (r', Ok o) /\
     forall t l, o <> RevealCommitted t l) /\
  (forall r2 o, commit_reveal r' (gate_requirements g) (gate_resolver g true) = (r2, Ok o) ->
     state (rt_state r2) (reveal_coord config) = Revealed /\
     (revealed_quadrants (rt_state r2) = revealed_quadrants (rt_state r') ++ [reveal_coord config] \/ r2 = r')).
Proof.
  intros Hok H Hdelay. destruct (gate_new_Ok _ _ _ _ Hok H) as (Hg & Hc & Hd & Ha & Hcomp & Hsteps & Hrank & Hrev & Hrq).
  assert (runtime_ok r') as [[Hwf _] _] by (by eapply runtime_steps_ok). cbn in Hwf.
  assert (forall b q, gate_resolver g b (gate_coord g) q = if decide (q = gate_requirement g) then Some b else None) as Hres.
  { intros b q. unfold gate_resolver. destruct (decide (q = gate_requirement g)) as [->|Hn].
    - by rewrite decide_True.
    - rewrite decide_False; [done|]. by intros [_ ?]. }
  split; [done|]. split; [done|]. split; [unfold is_ready; by rewrite Ha|]. split.
  { unfold arm. rewrite Ha, Hcomp. split; [done|]. split; [done|]. intros now. unfold is_ready. cbn.
    rewrite bool_decide_eq_true, Hd. lia. }
  assert (with_frontier r' (rt_state r') (rt_preparations r') = r') as Hid by (by destruct r').
  assert (forall b, evaluate_frontier_eligibility (gate_requirements g) (gate_resolver g b) =
    Ok {| ev_coord := gate_coord g; ev_unsatisfied := if b then [] else [gate_requirement g] |}) as Hev.
  { intros b. unfold evaluate_frontier_eligibility. fold (gate_coord g).
    assert (req_list (gate_requirements g) = [gate_requirement g]) as -> by (by rewrite Hg). cbn [unsatisfied].
    rewrite Hres, decide_True by done. by destruct b. }
  unfold commit_reveal. split.
  - unfold commit_authoritative_reveal. fold (gate_coord g).
    destruct (state (rt_state r') (gate_coord g)); cbn in Hrank; try lia; rewrite ?Hev;
      cbn -[with_frontier]; rewrite Hid; eexists; split; [reflexivity|done|reflexivity|done].
  - intros r2 o Hcommit. destruct (commit_authoritative_reveal _ _ _) as [f out] eqn:Ecommit.
    injection Hcommit as <- Hout. apply map_err_Ok in Hout as ->. rewrite <- Hc. cbn [rt_state with_frontier].
    pose proof Ecommit as Hcase. apply commit_cases in Hcase as [(-> & Hno)|(s1 & t & l & _ & Hp & _ & Ht & Hwf1 & Hder)]; [| |done].
    + unfold commit_authoritative_reveal in Ecommit. fold (gate_coord g) in Ecommit.
      destruct (state (rt_state r') (gate_coord g)) eqn:Est; cbn in Hrank; try lia; [|split; [done|by right]].
      rewrite Hev in Ecommit. cbn in Ecommit. destruct (stage_reveal _ _) as [[[? ?] ?]|]; [|done].
      injection Ecommit as _ <-. by destruct (Hno f0 l).
    + destruct (state_after _ _ _ _ _ (gate_coord g) Hwf Ht) as (Hst & _). rewrite decide_True in Hst by done.
      apply derive_cases in Hder as [(_ & e & ?)|(l2 & _ & _ & _ & _ & _ & Hrq2 & Hin & Hst2)]; [done| |done].
      split.
      * rewrite Hst2, decide_False; [done|]. intros [Hpot _]%Hin. congruence.
      * left. rewrite Hrq2. unfold reveal in Ht.
        apply transition_cases in Ht as [(_ & ? & _)|[(_ & e & ?)|(_ & n & _ & _ & ->)]]; [done|done|].
        by rewrite decide_True.
Qed.
