(* ===== verification/Scheduler.v ===== *)
(** Preparing quadrants ahead of time: the bounded worker
    ([crates/preparation/src/lib.rs]), the executor that generates the terrain and
    the scheduler that feeds the worker and commits its results
    ([apps/world-server/src/preparation_scheduler.rs]).

    The worker is a task of its own: it is a transition relation, [worker_step],
    interleaved with the scheduler's calls.  What they share is explicit: the two
    channels, the set of outstanding identities and the store of retained
    artifacts.  Time is a number of nanoseconds.  Poisoned mutexes (a panic while a
    lock is held) are not modelled. *)

From S2P Require Import Prelude Bytes Core Contracts Presentation Terrain Hydrology WaterSurface.
From S2P Require Import EnvironmentPolicy Frontier Preparation Runtime.
Import World.

#[global] Instance QuadrantPreparationIdentity_countable : Countable QuadrantPreparationIdentity.
Proof.
  apply (inj_countable' (fun i => (id_coord i, id_generator_version i, id_inputs_fingerprint i))
    (fun '(c, g, f) => {| id_coord := c; id_generator_version := g; id_inputs_fingerprint := f |})).
  by intros [].
Defined.

Abbreviation Identity := QuadrantPreparationIdentity.

(** ** Worker settings *)

Definition MAX_PREPARATION_QUEUE_CAPACITY : Z := 65536.
Definition MAX_PREPARATION_CONCURRENCY : Z := 64.

Record PreparationWorkerSettings := {
  request_queue_capacity : Z;
  result_queue_capacity : Z;
  max_in_flight : Z
}.

Inductive PreparationWorkerSettingsError :=
| ZeroCapacity (field : string)
| CapacityTooLarge (field : string) (value maximum : Z).

Definition validate_capacity (field : string) (value maximum : Z)
  : result PreparationWorkerSettingsError unit :=
  if decide (value = 0) then Err (ZeroCapacity field)
  else if decide (value > maximum) then Err (CapacityTooLarge field value maximum) else Ok tt.

Definition worker_settings_new (request result_ in_flight : Z)
  : result PreparationWorkerSettingsError PreparationWorkerSettings :=
  _ ← validate_capacity "request_queue_capacity" request MAX_PREPARATION_QUEUE_CAPACITY;
  _ ← validate_capacity "result_queue_capacity" result_ MAX_PREPARATION_QUEUE_CAPACITY;
  _ ← validate_capacity "max_in_flight" in_flight MAX_PREPARATION_CONCURRENCY;
  Ok {| request_queue_capacity := request; result_queue_capacity := result_; max_in_flight := in_flight |}.

(** ** The worker *)

(** Messages are opaque. *)
Inductive PreparationExecutionError :=
| ExecutionTerrain (e : HydrologyTerrainIntegrationError)
| ExecutionRecipe (e : TerrainRecipeError)
| ExecutionArtifact (e : QuadrantPreparationError)
| ExecutionPanicked.

Inductive PreparationWorkerEvent :=
| WorkerCompleted (a : PreparedQuadrantArtifact)
| WorkerFailed (i : Identity) (e : PreparationExecutionError).

Definition event_identity (e : PreparationWorkerEvent) : Identity :=
  match e with WorkerCompleted a => art_identity a | WorkerFailed i _ => i end.

(** The event of a job's result. *)
Definition event_of (i : Identity) (r : result PreparationExecutionError PreparedQuadrantArtifact)
  : PreparationWorkerEvent :=
  match r with Ok a => WorkerCompleted a | Err e => WorkerFailed i e end.

Inductive PreparationSubmissionOutcome := Submitted | SubmissionDuplicate | SubmissionFull | SubmissionClosed.

(** A task of the join set: its blocking execution runs or has finished. *)
Abbreviation Task := (Identity * option (result PreparationExecutionError PreparedQuadrantArtifact))%type.

(** [w_sending] is the identity whose event has been sent and which is not yet
    removed from the outstanding ones. *)
Record Worker := {
  w_requests : list Identity;
  w_tasks : list Task;
  w_sending : option Identity;
  w_results : list PreparationWorkerEvent;
  w_outstanding : gset Identity;
  w_alive : bool
}.

Definition worker_init : Worker :=
  {| w_requests := []; w_tasks := []; w_sending := None; w_results := []; w_outstanding := ∅; w_alive := true |}.

Section Submit.
Context (s : PreparationWorkerSettings).

(** [try_submit]: the channel is closed once the worker has returned. *)
Definition try_submit (w : Worker) (i : Identity) : Worker * PreparationSubmissionOutcome :=
  if decide (i ∈ w_outstanding w) then (w, SubmissionDuplicate)
  else if negb (w_alive w) then (w, SubmissionClosed)
  else if decide (Z.of_nat (length (w_requests w)) >= request_queue_capacity s) then (w, SubmissionFull)
  else ({| w_requests := w_requests w ++ [i]; w_tasks := w_tasks w; w_sending := w_sending w;
           w_results := w_results w; w_outstanding := {[ i ]} ∪ w_outstanding w; w_alive := w_alive w |},
        Submitted).
End Submit.

(** ** The executor *)

(** [PreparedTerrainArtifacts]. *)
Abbreviation Retained := (gmap Identity TerrainAuthorityArtifactV1).

Inductive TerrainIntegrationError :=
| BaseTerrain (e : TerrainRecipeError)
| HydrologyIntegration (e : HydrologyTerrainIntegrationError).

Definition with_biome (t : Terrain.TerrainAuthorityContractV1) (biome : Z) : Terrain.TerrainAuthorityContractV1 :=
  {| Terrain.version := Terrain.version t; Terrain.quadrant_coord := Terrain.quadrant_coord t;
     Terrain.quadrant_size_mm := Terrain.quadrant_size_mm t;
     Terrain.generator_version := Terrain.generator_version t; Terrain.recipe_seed := Terrain.recipe_seed t;
     Terrain.control_grid_side := Terrain.control_grid_side t; Terrain.biome_id := biome;
     Terrain.elevation_samples_mm := Terrain.elevation_samples_mm t; Terrain.cell_flags := Terrain.cell_flags t |}.

Definition generate_hydrology_integrated_terrain_authority_v1 (quadrant_size_mm generator_version world_seed : Z)
  (c : Manifest.FrontierQuadrantCoord) (available_biome_ids : list Z)
  : result TerrainIntegrationError Terrain.TerrainAuthorityContractV1 :=
  terrain ← map_err BaseTerrain (generate_terrain_authority_v1
    {| recipe_quadrant_size_mm := quadrant_size_mm; recipe_generator_version := generator_version;
       recipe_world_seed := world_seed |} c);
  let terrain :=
    if decide (available_biome_ids = []) then terrain
    else with_biome terrain (derive_quadrant_biome_from_pool world_seed c available_biome_ids) in
  map_err HydrologyIntegration (apply_hydrology_to_terrain_v1
    {| hydro_world_seed := world_seed; hydro_generator_version := generator_version |} terrain).

Definition integration_error (e : TerrainIntegrationError) : PreparationExecutionError :=
  match e with BaseTerrain e => ExecutionRecipe e | HydrologyIntegration e => ExecutionTerrain e end.

Section Scheduler.
(** BLAKE3, plain and keyed. *)
Context (blake3_hash : list Z -> list Z) (blake3_keyed : list Z -> list Z -> list Z).

(** [TerrainPreparationExecutor]: the artifact to retain comes with the metadata. *)
Definition execute (quadrant_size_mm world_seed : Z) (available_biome_ids : list Z) (i : Identity)
  : result PreparationExecutionError (TerrainAuthorityArtifactV1 * PreparedQuadrantArtifact) :=
  contract ← map_err integration_error (generate_hydrology_integrated_terrain_authority_v1 quadrant_size_mm
    (id_generator_version i) world_seed (to_fqc (id_coord i)) available_biome_ids);
  let terrain_artifact := artifact_from_contract blake3_hash contract in
  fp ← map_err ExecutionArtifact (fingerprint_new (fingerprint terrain_artifact));
  prepared ← map_err ExecutionArtifact (artifact_new i fp (artifact_byte_len terrain_artifact));
  Ok (terrain_artifact, prepared).

(** [terrain_world_seed_v1]. *)
Definition terrain_world_seed_v1 (universe_seed : list Z) : Z :=
  from_le (slice (Seeds.quadrant_seed blake3_keyed universe_seed (mk_coord 0 0) 1) 0 8).

(** ** The scheduler *)

Record PreparationSchedulerSettings := {
  evaluation_interval : Z;
  max_submissions_per_tick : Z;
  max_prepared_quadrants : Z;
  retry_backoff : Z;
  max_retry_attempts : Z
}.

Inductive SchedulerSettingsError := ZeroSetting (name : string).

Definition scheduler_settings_new (interval submissions prepared backoff attempts : Z)
  : result SchedulerSettingsError PreparationSchedulerSettings :=
  if decide (interval = 0) then Err (ZeroSetting "evaluation interval")
  else if decide (submissions = 0) then Err (ZeroSetting "max submissions per tick")
  else if decide (prepared = 0) then Err (ZeroSetting "prepared budget")
  else if decide (backoff = 0) then Err (ZeroSetting "retry backoff")
  else if decide (attempts = 0) then Err (ZeroSetting "max retry attempts")
  else Ok {| evaluation_interval := interval; max_submissions_per_tick := submissions;
             max_prepared_quadrants := prepared; retry_backoff := backoff; max_retry_attempts := attempts |}.

Record PreparationSchedulerReport := {
  rep_completed : Z; rep_failed : Z; rep_submitted : Z; rep_backpressure : Z; rep_exhausted : Z;
  rep_prepared_private : Z; rep_in_flight : Z
}.

Definition report_default : PreparationSchedulerReport :=
  {| rep_completed := 0; rep_failed := 0; rep_submitted := 0; rep_backpressure := 0; rep_exhausted := 0;
     rep_prepared_private := 0; rep_in_flight := 0 |}.

Definition has_activity (r : PreparationSchedulerReport) : bool :=
  (0 <? rep_completed r) || (0 <? rep_failed r) || (0 <? rep_submitted r) || (0 <? rep_backpressure r)
  || (0 <? rep_exhausted r).

Definition report_add (r : PreparationSchedulerReport) (completed failed submitted backpressure exhausted : Z)
  : PreparationSchedulerReport :=
  {| rep_completed := rep_completed r + completed; rep_failed := rep_failed r + failed;
     rep_submitted := rep_submitted r + submitted; rep_backpressure := rep_backpressure r + backpressure;
     rep_exhausted := rep_exhausted r + exhausted; rep_prepared_private := rep_prepared_private r;
     rep_in_flight := rep_in_flight r |}.

Record RetryState := { failures : Z; retry_after : Z; exhausted : bool }.

Inductive SchedulerError :=
| SchedulerRuntime (e : RuntimeError)
| ResultQueueDisconnected
| RequestQueueClosed
| ArtifactNotRetained
| RetainedFingerprintInvalid (e : QuadrantPreparationError)
| RetainedFingerprintMismatch
| RetainedLengthMismatch
| PublicRevisionMutated
| FailedWithoutReservation (coord : QuadrantCoord)
| FailedButPrepared (coord : QuadrantCoord)
| BackpressureRollback (coord : QuadrantCoord)
| SeedFingerprintInvalid (e : QuadrantPreparationError).

(** The fields of [PreparationScheduler] that do not change. *)
Record SchedulerConfig := {
  cfg_settings : PreparationSchedulerSettings;
  cfg_worker : PreparationWorkerSettings;
  cfg_universe_seed : list Z;
  cfg_quadrant_size_mm : Z;
  cfg_generator_version : Z;
  cfg_biome_ids : list Z
}.

(** The scheduler's own state, the frontier it drives, and what it shares with
    the worker. *)
Record Sys := {
  sys_frontier : FrontierRuntime;
  sys_retries : gmap QuadrantCoord RetryState;
  sys_worker : Worker;
  sys_retained : Retained
}.

Definition with_worker (s : Sys) (w : Worker) : Sys :=
  {| sys_frontier := sys_frontier s; sys_retries := sys_retries s; sys_worker := w; sys_retained := sys_retained s |}.
Definition with_runtime (s : Sys) (f : FrontierRuntime) : Sys :=
  {| sys_frontier := f; sys_retries := sys_retries s; sys_worker := sys_worker s; sys_retained := sys_retained s |}.
Definition with_retries (s : Sys) (r : gmap QuadrantCoord RetryState) : Sys :=
  {| sys_frontier := sys_frontier s; sys_retries := r; sys_worker := sys_worker s; sys_retained := sys_retained s |}.
Definition with_retained (s : Sys) (r : Retained) : Sys :=
  {| sys_frontier := sys_frontier s; sys_retries := sys_retries s; sys_worker := sys_worker s; sys_retained := r |}.
Definition with_results (w : Worker) (results : list PreparationWorkerEvent) : Worker :=
  {| w_requests := w_requests w; w_tasks := w_tasks w; w_sending := w_sending w; w_results := results;
     w_outstanding := w_outstanding w; w_alive := w_alive w |}.

Context (cfg : SchedulerConfig).

Definition verify_retained_terrain_artifact (s : Sys) (a : PreparedQuadrantArtifact) : result SchedulerError unit :=
  terrain_artifact ← ok_or ArtifactNotRetained (sys_retained s !! art_identity a);
  retained_fingerprint ← map_err RetainedFingerprintInvalid (fingerprint_new (fingerprint terrain_artifact));
  if decide (retained_fingerprint <> art_fingerprint a) then Err RetainedFingerprintMismatch
  else if decide (artifact_byte_len terrain_artifact <> art_bytes a) then Err RetainedLengthMismatch
  else Ok tt.

(** The [Completed] arm. *)
Definition consume_completed (s : Sys) (report : PreparationSchedulerReport) (a : PreparedQuadrantArtifact)
  : Sys * result SchedulerError PreparationSchedulerReport :=
  let revision_before := rt_revision (sys_frontier s) in
  match verify_retained_terrain_artifact s a with
  | Err e => (s, Err e)
  | Ok _ =>
      let '(f, o) := complete_preparation (sys_frontier s) a in
      let s := with_runtime s f in
      match o with
      | Err e => (s, Err (SchedulerRuntime e))
      | Ok _ =>
          let s := with_retries s (delete (id_coord (art_identity a)) (sys_retries s)) in
          let report := report_add report 1 0 0 0 0 in
          if decide (rt_revision (sys_frontier s) <> revision_before) then (s, Err PublicRevisionMutated)
          else (s, Ok report)
      end
  end.

(** The retry bookkeeping of a failure: the new state and whether it is exhausted. *)
Definition record_failure (retry : option RetryState) (now : Z) : RetryState :=
  let retry := default {| failures := 0; retry_after := now; exhausted := false |} retry in
  let n := saturating_add_u 32 (failures retry) 1 in
  if decide (n > max_retry_attempts (cfg_settings cfg))
  then {| failures := n; retry_after := retry_after retry; exhausted := true |}
  else {| failures := n; retry_after := now + retry_backoff (cfg_settings cfg); exhausted := exhausted retry |}.

(** The [Failed] arm. *)
Definition consume_failed (s : Sys) (now : Z) (report : PreparationSchedulerReport) (i : Identity)
  : Sys * result SchedulerError PreparationSchedulerReport :=
  let revision_before := rt_revision (sys_frontier s) in
  let c := id_coord i in
  let s := with_retained s (delete i (sys_retained s)) in
  let '(f, o) := fail_preparation (sys_frontier s) i in
  let s := with_runtime s f in
  match o with
  | Err e => (s, Err (SchedulerRuntime e))
  | Ok NotFound => (s, Err (FailedWithoutReservation c))
  | Ok AbandonAlreadyPrepared => (s, Err (FailedButPrepared c))
  | Ok Removed =>
      let retry := record_failure (sys_retries s !! c) now in
      let newly_exhausted := if decide (failures retry > max_retry_attempts (cfg_settings cfg)) then 1 else 0 in
      let s := with_retries s (<[c := retry]> (sys_retries s)) in
      let report := report_add report 0 1 0 0 newly_exhausted in
      if decide (rt_revision (sys_frontier s) <> revision_before) then (s, Err PublicRevisionMutated)
      else (s, Ok report)
  end.

Definition consume_event (s : Sys) (now : Z) (report : PreparationSchedulerReport) (e : PreparationWorkerEvent)
  : Sys * result SchedulerError PreparationSchedulerReport :=
  match e with
  | WorkerCompleted a => consume_completed s report a
  | WorkerFailed i _ => consume_failed s now report i
  end.

(** The loop of [consume_results] over the events that [try_recv] returns. *)
Fixpoint consume_loop (events : list PreparationWorkerEvent) (s : Sys) (now : Z)
  (report : PreparationSchedulerReport) : Sys * result SchedulerError PreparationSchedulerReport :=
  match events with
  | [] => if w_alive (sys_worker s) then (s, Ok report) else (s, Err ResultQueueDisconnected)
  | e :: events' =>
      let s := with_worker s (with_results (sys_worker s) events') in
      match consume_event s now report e with
      | (s', Ok report') => consume_loop events' s' now report'
      | (s', Err err) => (s', Err err)
      end
  end.

Definition consume_results (s : Sys) (now : Z) (report : PreparationSchedulerReport)
  : Sys * result SchedulerError PreparationSchedulerReport :=
  consume_loop (w_results (sys_worker s)) s now report.

Definition retry_allows (s : Sys) (c : QuadrantCoord) (now : Z) : bool :=
  match sys_retries s !! c with
  | None => true
  | Some retry => negb (exhausted retry) && bool_decide (now >= retry_after retry)
  end.

(** What one iteration of the admission loop does: go on with the number
    admitted, stop, or fail. *)
Inductive Admission :=
| AdmissionContinue (admitted : Z)
| AdmissionBreak
| AdmissionError (e : SchedulerError).

(** The body of the loop past the retry check. *)
Definition admit_candidate (s : Sys) (report : PreparationSchedulerReport) (admitted : Z) (c : QuadrantCoord)
  : Sys * PreparationSchedulerReport * Admission :=
  let seed := Seeds.quadrant_seed blake3_keyed (cfg_universe_seed cfg) c (cfg_generator_version cfg) in
  match fingerprint_new seed with
  | Err e => (s, report, AdmissionError (SeedFingerprintInvalid e))
  | Ok fp =>
  match preparation_identity (sys_frontier s) c fp with
  | Err e => (s, report, AdmissionError (SchedulerRuntime e))
  | Ok identity =>
  let '(f, o) := request_preparation (sys_frontier s) identity in
  let s := with_runtime s f in
  match o with
  | Err e => (s, report, AdmissionError (SchedulerRuntime e))
  | Ok AlreadyInFlight | Ok RequestAlreadyPrepared => (s, report, AdmissionContinue admitted)
  | Ok Started =>
  let '(w, submission) := try_submit (cfg_worker cfg) (sys_worker s) identity in
  let s := with_worker s w in
  match submission with
  | Submitted => (s, report_add report 0 0 1 0 0, AdmissionContinue (admitted + 1))
  | SubmissionDuplicate => (s, report, AdmissionContinue (admitted + 1))
  | SubmissionFull =>
      let '(f, o) := cancel_preparation (sys_frontier s) identity in
      let s := with_runtime s f in
      match o with
      | Err e => (s, report, AdmissionError (SchedulerRuntime e))
      | Ok Removed => (s, report_add report 0 0 0 1 0, AdmissionBreak)
      | Ok _ => (s, report, AdmissionError (BackpressureRollback c))
      end
  | SubmissionClosed =>
      let '(f, o) := cancel_preparation (sys_frontier s) identity in
      let s := with_runtime s f in
      match o with
      | Err e => (s, report, AdmissionError (SchedulerRuntime e))
      | Ok _ => (s, report, AdmissionError RequestQueueClosed)
      end
  end
  end
  end
  end.

Fixpoint admission_loop (candidates : list QuadrantCoord) (admission_budget : Z) (s : Sys) (now : Z)
  (report : PreparationSchedulerReport) (admitted : Z) : Sys * result SchedulerError PreparationSchedulerReport :=
  match candidates with
  | [] => (s, Ok report)
  | c :: candidates' =>
      if decide (admitted >= admission_budget) then (s, Ok report)
      else if retry_allows s c now then
        match admit_candidate s report admitted c with
        | (s', report', AdmissionContinue admitted') =>
            admission_loop candidates' admission_budget s' now report' admitted'
        | (s', report', AdmissionBreak) => (s', Ok report')
        | (s', _, AdmissionError e) => (s', Err e)
        end
      else admission_loop candidates' admission_budget s now report admitted
  end.

Definition occupied (f : FrontierRuntime) : Z :=
  Z.of_nat (prepared_len f) + Z.of_nat (preparation_in_flight_len f).

Definition schedule_candidates (s : Sys) (now : Z) (report : PreparationSchedulerReport)
  : Sys * result SchedulerError PreparationSchedulerReport :=
  let occ := occupied (sys_frontier s) in
  if decide (occ >= max_prepared_quadrants (cfg_settings cfg)) then (s, Ok report)
  else
    let available_budget := max_prepared_quadrants (cfg_settings cfg) - occ in
    let admission_budget := Z.min available_budget (max_submissions_per_tick (cfg_settings cfg)) in
    if decide (admission_budget = 0) then (s, Ok report)
    else admission_loop (candidate_quadrants (sys_frontier s)) admission_budget s now report 0.

Definition evaluate (s : Sys) (now : Z) : Sys * result SchedulerError PreparationSchedulerReport :=
  match consume_results s now report_default with
  | (s', Err e) => (s', Err e)
  | (s', Ok report) =>
      match schedule_candidates s' now report with
      | (s'', Err e) => (s'', Err e)
      | (s'', Ok report') =>
          (s'', Ok {| rep_completed := rep_completed report'; rep_failed := rep_failed report';
                      rep_submitted := rep_submitted report'; rep_backpressure := rep_backpressure report';
                      rep_exhausted := rep_exhausted report';
                      rep_prepared_private := Z.of_nat (prepared_len (sys_frontier s''));
                      rep_in_flight := Z.of_nat (preparation_in_flight_len (sys_frontier s'')) |})
      end
  end.

(** ** The worker's task *)

Definition with_tasks (w : Worker) (tasks : list Task) : Worker :=
  {| w_requests := w_requests w; w_tasks := tasks; w_sending := w_sending w; w_results := w_results w;
     w_outstanding := w_outstanding w; w_alive := w_alive w |}.

(** [run_worker]: it takes a request while fewer than [max_in_flight] tasks exist;
    a blocking task ends with the executor's result, or panics; a finished task is
    joined, its event sent once the result channel has room, and then its
    identity removed from the outstanding ones.  The outer tasks only await and
    cannot fail to join, and the channels stay open while the scheduler lives. *)
Inductive worker_step : Worker * Retained -> Worker * Retained -> Prop :=
| worker_receive w store i rest :
    w_alive w = true -> w_sending w = None -> w_requests w = i :: rest ->
    Z.of_nat (length (w_tasks w)) < max_in_flight (cfg_worker cfg) ->
    worker_step (w, store)
      ({| w_requests := rest; w_tasks := w_tasks w ++ [(i, None)]; w_sending := None;
          w_results := w_results w; w_outstanding := w_outstanding w; w_alive := true |}, store)
| worker_executed w store i before after artifact a :
    w_tasks w = before ++ (i, None) :: after ->
    execute (cfg_quadrant_size_mm cfg) (terrain_world_seed_v1 (cfg_universe_seed cfg)) (cfg_biome_ids cfg) i =
      Ok (artifact, a) ->
    worker_step (w, store)
      (with_tasks w (before ++ (i, Some (Ok a)) :: after), <[i := artifact]> store)
| worker_failed w store i before after e :
    w_tasks w = before ++ (i, None) :: after ->
    execute (cfg_quadrant_size_mm cfg) (terrain_world_seed_v1 (cfg_universe_seed cfg)) (cfg_biome_ids cfg) i =
      Err e ->
    worker_step (w, store) (with_tasks w (before ++ (i, Some (Err e)) :: after), store)
| worker_panicked w store i before after :
    w_tasks w = before ++ (i, None) :: after ->
    worker_step (w, store) (with_tasks w (before ++ (i, Some (Err ExecutionPanicked)) :: after), store)
| worker_send w store i before after r :
    w_alive w = true -> w_sending w = None -> w_tasks w = before ++ (i, Some r) :: after ->
    Z.of_nat (length (w_results w)) < result_queue_capacity (cfg_worker cfg) ->
    worker_step (w, store)
      ({| w_requests := w_requests w; w_tasks := before ++ after; w_sending := Some i;
          w_results := w_results w ++ [event_of i r]; w_outstanding := w_outstanding w; w_alive := true |}, store)
| worker_sent w store i :
    w_alive w = true -> w_sending w = Some i ->
    worker_step (w, store)
      ({| w_requests := w_requests w; w_tasks := w_tasks w; w_sending := None; w_results := w_results w;
          w_outstanding := w_outstanding w ∖ {[ i ]}; w_alive := true |}, store).

(** ** The whole system: the worker, the scheduler's two loops and the server's
    reveals, in any order. *)

Inductive sys_step (s : Sys) : Sys -> Prop :=
| sys_worker_step w store :
    worker_step (sys_worker s, sys_retained s) (w, store) ->
    sys_step s (with_retained (with_worker s w) store)
| sys_receive e rest now report s' r :
    w_results (sys_worker s) = e :: rest ->
    consume_event (with_worker s (with_results (sys_worker s) rest)) now report e = (s', r) ->
    sys_step s s'
| sys_schedule now report s' r :
    schedule_candidates s now report = (s', r) -> sys_step s s'
| sys_reveal u resolver f r :
    commit_reveal (sys_frontier s) u resolver = (f, r) -> sys_step s (with_runtime s f).

End Scheduler.
