(* ===== verification/SchedulerSafety.v ===== *)
(** The correctness of quadrant preparation ([Scheduler]): whatever the
    interleaving of the worker with the scheduler and with the server's reveals,
    the budget holds, nothing becomes public, every event finds its reservation
    and its artifact, and an evaluation never fails. *)

From S2P Require Import Prelude Bytes Core Contracts Presentation Terrain Hydrology WaterSurface.
From S2P Require Import EnvironmentPolicy Frontier Preparation Runtime Scheduler.
Import World.

(** ** What a runtime holds *)

Definition prepared_set (f : FrontierState) : gset QuadrantCoord :=
  dom (filter (fun '(_, st) => st = Prepared) (lifecycle_states f)).

Definition in_flight_set (sl : Slots) : gset QuadrantCoord :=
  dom (filter (fun '(_, s) => is_in_flight s = true) sl).

(** The quadrants that count against the budget. *)
Definition occupied_set (r : FrontierRuntime) : gset QuadrantCoord :=
  prepared_set (rt_state r) ∪ in_flight_set (rt_preparations r).

Lemma elem_of_prepared_set f c : frontier_wf f -> c ∈ prepared_set f <-> state f c = Prepared.
Proof.
  intros Hwf. unfold prepared_set. rewrite elem_of_dom. split.
  - intros [st Hst]. apply map_lookup_filter_Some in Hst as [Hst ->]. unfold state.
    destruct (decide (c ∈ revealed_lookup f)) as [Hin|]; [by rewrite (fw_disjoint f Hwf c Hin) in Hst|].
    by rewrite Hst.
  - intros Hst. unfold state in Hst. destruct (decide _); [done|].
    destruct (lifecycle_states f !! c) as [st|] eqn:E; [|done]. cbn in Hst. subst st.
    exists Prepared. by apply map_lookup_filter_Some.
Qed.

Lemma elem_of_in_flight_set sl c : c ∈ in_flight_set sl <-> exists i, sl !! c = Some (SlotInFlight i).
Proof.
  unfold in_flight_set. rewrite elem_of_dom. split.
  - intros [s Hs]. apply map_lookup_filter_Some in Hs as [Hs Hf]. destruct s as [i|]; [by exists i|done].
  - intros [i Hi]. exists (SlotInFlight i). by apply map_lookup_filter_Some.
Qed.

Lemma length_filter_size {A} (P : QuadrantCoord * A -> Prop) `{!forall x, Decision (P x)}
  (m : gmap QuadrantCoord A) : length (filter P (map_to_list m)) = size (dom (filter P m)).
Proof.
  rewrite size_dom, <- length_map_to_list. apply Permutation_length.
  apply list.NoDup_Permutation; [apply list.NoDup_filter, NoDup_map_to_list|apply NoDup_map_to_list|].
  intros [c a]. rewrite list_elem_of_filter, !elem_of_map_to_list, map_lookup_filter_Some. naive_solver.
Qed.

Lemma occupied_size r : prep_inv (rt_pair r) -> occupied r = Z.of_nat (size (occupied_set r)).
Proof.
  intros [Hwf Hsl]. cbn in Hwf, Hsl. unfold occupied, occupied_set. rewrite size_union.
  - rewrite Nat2Z.inj_add. f_equal; f_equal.
    + unfold prepared_len, quadrants_in_state. rewrite decide_False by done.
      rewrite (Permutation_length (sort_coords_Permutation _)), length_fmap, length_map_to_list.
      unfold prepared_set. by rewrite size_dom.
    + unfold preparation_in_flight_len, in_flight_len, in_flight_set. by rewrite length_filter_size.
  - intros c Hp Hi. apply elem_of_prepared_set in Hp; [|done]. apply elem_of_in_flight_set in Hi as [i Hi].
    destruct (Hsl c _ Hi) as [_ Hc]. cbn in Hc. congruence.
Qed.

Lemma elem_of_occupied r c :
  frontier_wf (rt_state r) ->
  c ∈ occupied_set r <-> state (rt_state r) c = Prepared \/ exists i, rt_preparations r !! c = Some (SlotInFlight i).
Proof.
  intros Hwf. unfold occupied_set. by rewrite elem_of_union, elem_of_prepared_set, elem_of_in_flight_set.
Qed.

Lemma occupied_mono r r' :
  prep_inv (rt_pair r) -> prep_inv (rt_pair r') -> occupied_set r' ⊆ occupied_set r -> occupied r' <= occupied r.
Proof. intros H H' Hsub. rewrite !occupied_size by done. apply inj_le, subseteq_size, Hsub. Qed.

Lemma occupied_add r r' c :
  prep_inv (rt_pair r) -> prep_inv (rt_pair r') -> c ∉ occupied_set r ->
  occupied_set r' = {[ c ]} ∪ occupied_set r -> occupied r' = occupied r + 1.
Proof.
  intros H H' Hc E. rewrite !occupied_size, E by done. rewrite size_union by set_solver.
  rewrite size_singleton. lia.
Qed.

(** ** The checked calls *)

Lemma with_frontier_id r : with_frontier r (rt_state r) (rt_preparations r) = r.
Proof. by destruct r. Qed.

Lemma with_runtime_id s : with_runtime s (sys_frontier s) = s.
Proof. by destruct s. Qed.

Lemma complete_in_flight sl f a :
  prep_inv (sl, f) -> sl !! id_coord (art_identity a) = Some (SlotInFlight (art_identity a)) ->
  exists t f', complete sl f a = (<[id_coord (art_identity a) := SlotPrepared a]> sl, f', Ok (CompletionPrepared t)) /\
    transition f (id_coord (art_identity a)) Prepared = (f', Ok (Some t)).
Proof.
  intros [Hwf Hsl] Hs. cbn in *. set (c := id_coord (art_identity a)) in *.
  destruct (Hsl c _ Hs) as [_ Hc]. cbn in Hc.
  assert (exists t f', transition f c Prepared = (f', Ok (Some t))) as (t & f' & Ht).
  { unfold transition. rewrite Hc. cbn [can_transition_to]. rewrite decide_False by done.
    unfold next_revision. rewrite decide_False by done. eauto. }
  exists t, f'. split; [|done]. unfold complete. fold c. rewrite Hs. cbn [slot_identity].
  rewrite decide_False by naive_solver. rewrite Hc, decide_False by naive_solver.
  unfold mark_prepared. by rewrite Ht.
Qed.

Section Safety.
Context (blake3_hash : list Z -> list Z) (blake3_keyed : list Z -> list Z -> list Z) (cfg : SchedulerConfig).

(** The identity of a quadrant's preparation. *)
Definition seed_of (c : QuadrantCoord) : list Z :=
  Seeds.quadrant_seed blake3_keyed (cfg_universe_seed cfg) c (cfg_generator_version cfg).
Definition ident (c : QuadrantCoord) : Identity :=
  {| id_coord := c; id_generator_version := cfg_generator_version cfg; id_inputs_fingerprint := seed_of c |}.

(** No seed is all zero: [PreparationFingerprint::new] refuses such digests. *)
Definition seeds_nonzero : Prop := forall c, ~ Forall (fun b => b = 0) (seed_of c).

(** Where the jobs of the worker are, and the events they end or will end with. *)
Definition queued (w : Worker) : list Identity := w_requests w ++ (w_tasks w).*1.
Definition jobs (w : Worker) : list Identity := queued w ++ map event_identity (w_results w).
Definition task_events (tasks : list Task) : list PreparationWorkerEvent :=
  omap (fun t => event_of t.1 <$> t.2) tasks.
Definition events (w : Worker) : list PreparationWorkerEvent := w_results w ++ task_events (w_tasks w).

(** The artifact of a completed job is retained and agrees with its metadata. *)
Definition retained_ok (store : Retained) (a : PreparedQuadrantArtifact) : Prop :=
  exists t, store !! art_identity a = Some t /\
    fingerprint_new (fingerprint t) = Ok (art_fingerprint a) /\ artifact_byte_len t = art_bytes a.

(** The artifact is the one the executor makes of its identity. *)
Definition generated_by (i : Identity) (t : TerrainAuthorityArtifactV1) : Prop :=
  i = ident (id_coord i) /\ exists a,
    execute blake3_hash (cfg_quadrant_size_mm cfg) (terrain_world_seed_v1 blake3_keyed (cfg_universe_seed cfg))
      (cfg_biome_ids cfg) i = Ok (t, a).

Definition task_ok (t : Task) : Prop :=
  match t.2 with Some (Ok a) => art_identity a = t.1 | _ => True end.

Definition retry_ok (sl : Slots) (c : QuadrantCoord) (r : RetryState) : Prop :=
  0 < failures r <= max_retry_attempts (cfg_settings cfg) + 1 /\
  (exhausted r = true <-> max_retry_attempts (cfg_settings cfg) < failures r) /\
  (exhausted r = true -> forall i, sl !! c <> Some (SlotInFlight i)).

Record worker_inv (w : Worker) (store : Retained) : Prop := {
  wi_nodup : NoDup (jobs w);
  wi_outstanding : forall i, i ∈ w_outstanding w <-> i ∈ queued w \/ w_sending w = Some i;
  wi_sending : forall i, w_sending w = Some i -> i ∉ queued w;
  wi_tasks : Forall task_ok (w_tasks w);
  wi_retained : forall a, WorkerCompleted a ∈ events w -> retained_ok store a;
  wi_alive : w_alive w = true
}.

Record sys_inv (s : Sys) : Prop := {
  si_prep : prep_inv (rt_pair (sys_frontier s));
  si_generator : rt_generator_version (sys_frontier s) = cfg_generator_version cfg;
  si_slots : forall c i, rt_preparations (sys_frontier s) !! c = Some (SlotInFlight i) -> i = ident c;
  si_jobs : forall i, i ∈ jobs (sys_worker s) ->
    rt_preparations (sys_frontier s) !! id_coord i = Some (SlotInFlight i);
  si_worker : worker_inv (sys_worker s) (sys_retained s);
  si_retained : forall i t, sys_retained s !! i = Some t -> generated_by i t;
  si_retries : forall c r, sys_retries s !! c = Some r -> retry_ok (rt_preparations (sys_frontier s)) c r;
  si_budget : occupied (sys_frontier s) <= max_prepared_quadrants (cfg_settings cfg)
}.

(** ** The worker keeps its books *)

Lemma task_event_identity tasks a :
  Forall task_ok tasks -> WorkerCompleted a ∈ task_events tasks -> art_identity a ∈ tasks.*1.
Proof.
  intros Hok (t & Hin & He)%list_elem_of_omap. destruct t as [i [r|]]; [|done]. cbn in He.
  injection He as He. destruct r as [b|]; [|done]. cbn in He. injection He as ->.
  pose proof (proj1 (list.Forall_forall _ _) Hok _ Hin) as H. cbn in H. rewrite H.
  by apply (list_elem_of_fmap_2 fst) in Hin.
Qed.

Lemma execute_identity size ws pool i t a :
  execute blake3_hash size ws pool i = Ok (t, a) -> art_identity a = i /\
  fingerprint_new (fingerprint t) = Ok (art_fingerprint a) /\ artifact_byte_len t = art_bytes a.
Proof.
  unfold execute. intros H. apply bind_Ok in H as (c & _ & H). cbv zeta in H.
  apply bind_Ok in H as (fp & Hfp & H). apply map_err_Ok in Hfp.
  apply bind_Ok in H as (p & Hp & [= <- <-]). apply map_err_Ok in Hp.
  unfold artifact_new in Hp. destruct (decide _); [done|]. injection Hp as <-. cbn. done.
Qed.

Lemma task_events_app l k : task_events (l ++ k) = task_events l ++ task_events k.
Proof. apply omap_app. Qed.

Lemma queued_middle w before after i o :
  w_tasks w = before ++ (i, o) :: after ->
  queued w = w_requests w ++ before.*1 ++ i :: after.*1.
Proof. intros E. unfold queued. by rewrite E, fmap_app. Qed.

(** Finishing a task changes neither the jobs nor the outstanding ones; it adds
    one event, whose artifact must be retained. *)
Lemma finish_task_inv w store store' i before after r :
  w_tasks w = before ++ (i, None) :: after -> worker_inv w store ->
  task_ok (i, Some r) ->
  (forall a, retained_ok store a -> art_identity a <> i -> retained_ok store' a) ->
  (forall a, r = Ok a -> retained_ok store' a) ->
  worker_inv (with_tasks w (before ++ (i, Some r) :: after)) store' /\
  jobs (with_tasks w (before ++ (i, Some r) :: after)) = jobs w.
Proof.
  intros Et Hw Htask Hold Hnew. set (w' := with_tasks w _).
  assert (queued w' = queued w) as Eq.
  { rewrite (queued_middle w _ _ _ _ Et). by rewrite (queued_middle w' before after i (Some r)). }
  assert (jobs w' = jobs w) as Ej by (unfold jobs; by rewrite Eq). split; [|done].
  destruct Hw as [Hnd Ho Hs Ht Hr Ha]. rewrite Et in Ht.
  apply Forall_app in Ht as [Hb Haf%Forall_cons_1]. destruct Haf as [_ Haf].
  split; [by rewrite Ej| | | | |done].
  - intros j. change (w_outstanding w') with (w_outstanding w). by rewrite Eq.
  - intros j. rewrite Eq. apply Hs.
  - cbn. apply Forall_app. split; [done|]. by constructor.
  - intros a Hin. unfold events in Hin. cbn [w' with_tasks w_tasks w_results] in Hin.
    rewrite task_events_app in Hin. unfold jobs in Hnd. rewrite (queued_middle w _ _ _ _ Et) in Hnd.
    assert (forall j, j ∈ before.*1 \/ j ∈ after.*1 \/ j ∈ map event_identity (w_results w) -> j <> i) as Hne.
    { intros j Hj ->. revert Hnd. rewrite !list.NoDup_app, list.NoDup_cons.
      setoid_rewrite elem_of_app. setoid_rewrite elem_of_cons. set_solver. }
    apply elem_of_app in Hin as [Hin|Hin].
    { apply Hold; [apply Hr; apply elem_of_app; by left|]. apply Hne. right; right.
      by apply (list_elem_of_fmap_2 event_identity) in Hin. }
    apply elem_of_app in Hin as [Hin|Hin].
    { apply Hold; [|apply Hne; left; by apply task_event_identity].
      apply Hr, elem_of_app. right. rewrite Et, task_events_app. apply elem_of_app. by left. }
    cbn in Hin. apply elem_of_cons in Hin as [Hin|Hin].
    { apply Hnew. destruct r; cbn in Hin; congruence. }
    apply Hold; [|apply Hne; right; left; by apply task_event_identity].
    apply Hr, elem_of_app. right. rewrite Et, task_events_app. apply elem_of_app. by right.
Qed.

Lemma worker_step_inv w store w' store' :
  worker_inv w store -> worker_step blake3_hash blake3_keyed cfg (w, store) (w', store') ->
  worker_inv w' store' /\ jobs w' ≡ₚ jobs w.
Proof.
  intros Hw H. remember (w, store) as x eqn:Ex. remember (w', store') as y eqn:Ey.
  destruct H as [v st i rest Ha' Hsend Hreq Hlt|v st i before after artifact a Htasks Hexec
    |v st i before after e Htasks Hexec|v st i before after Htasks|v st i before after r Ha' Hsend Htasks Hlt
    |v st i Ha' Hsend]; injection Ex as -> ->; injection Ey as <- <-.
  - (* receive *)
    assert (queued {| w_requests := rest; w_tasks := w_tasks w ++ [(i, None)]; w_sending := None;
      w_results := w_results w; w_outstanding := w_outstanding w; w_alive := true |} ≡ₚ queued w) as Eq.
    { unfold queued; cbn. rewrite Hreq.
      rewrite fmap_app. cbn. solve_Permutation. }
    destruct Hw as [Hnd Ho Hs Ht Hr Ha]. split; [|unfold jobs; by rewrite Eq]. split; cbn; try done.
    + unfold jobs. by rewrite Eq.
    + intros j. by rewrite Eq, Ho, Hsend.
    + apply Forall_app. split; [done|]. by constructor.
    + intros a. unfold events; cbn. rewrite task_events_app. cbn. rewrite app_nil_r. apply Hr.
  - apply execute_identity in Hexec as (Hid & Hfp & Hlen).
    destruct (finish_task_inv w store (<[i:=artifact]> store) i before after (Ok a) Htasks Hw) as [? ->]; [done| | |done].
    + intros b (t & Ht & Hb) Hne. exists t. rewrite lookup_insert_ne by done. done.
    + intros b [= <-]. exists artifact. rewrite Hid, lookup_insert_eq. done.
  - destruct (finish_task_inv w store store i before after (Err e) Htasks Hw) as [? ->]; done.
  - destruct (finish_task_inv w store store i before after (Err ExecutionPanicked) Htasks Hw) as [? ->]; done.
  - (* send *)
    match goal with |- worker_inv ?x _ /\ _ => set (w1 := x) end.
    assert (queued w ≡ₚ i :: queued w1) as Eq.
    { rewrite (queued_middle w _ _ _ _ Htasks). unfold queued; cbn. rewrite fmap_app. solve_Permutation. }
    assert (jobs w1 ≡ₚ jobs w) as Ej.
    { assert (event_identity (event_of i r) = i) as Eid.
      { destruct Hw as [_ _ _ Ht _ _]. rewrite Htasks in Ht. apply Forall_app in Ht as [_ [Ht _]%Forall_cons_1].
        by destruct r. }
      unfold jobs. rewrite Eq. change (w_results w1) with (w_results w ++ [event_of i r]).
      rewrite map_app. cbn [map]. rewrite Eid. solve_Permutation. }
    split; [|done]. destruct Hw as [Hnd Ho Hs Ht Hr Ha]. split; cbn; try done.
    + change (NoDup (jobs w1)). by rewrite Ej.
    + intros j. rewrite Ho, Eq, elem_of_cons. rewrite Hsend. naive_solver.
    + intros j [= <-]. unfold jobs in Hnd. rewrite Eq in Hnd. cbn in Hnd. apply list.NoDup_cons in Hnd as [Hni _].
      set_solver.
    + rewrite Htasks in Ht. apply Forall_app in Ht as [Hb [_ Haf]%Forall_cons_1]. by apply Forall_app.
    + intros a Hin. apply Hr. unfold events in *; cbn in Hin. rewrite Htasks, task_events_app. cbn.
      rewrite task_events_app in Hin. set_solver.
  - (* sent *)
    destruct Hw as [Hnd Ho Hs Ht Hr Ha]. split; [|done]. split; cbn; try done.
    intros j. unfold queued in *; cbn. rewrite elem_of_difference, Ho, elem_of_singleton.
    specialize (Hs i Hsend). rewrite Hsend. split; [intros [[?|[= ->]] ?]; [by left|done]|].
    intros [Hj|?]; [|done]. split; [by left|]. by intros ->.
Qed.

(** ** Consuming an event *)

Lemma pop_event w store e rest :
  worker_inv w store -> w_results w = e :: rest ->
  worker_inv (with_results w rest) store /\ jobs w ≡ₚ event_identity e :: jobs (with_results w rest).
Proof.
  intros [Hnd Ho Hs Ht Hr Ha] Er.
  assert (jobs w ≡ₚ event_identity e :: jobs (with_results w rest)) as Ej.
  { unfold jobs. rewrite Er. change (queued (with_results w rest)) with (queued w). cbn. solve_Permutation. }
  split; [|done]. split; try done.
  - rewrite Ej in Hnd. by apply list.NoDup_cons in Hnd as [_ Hnd].
  - intros a Hin. apply Hr. unfold events in *. rewrite Er. cbn in *. by right.
Qed.

Lemma forget_artifact w store i :
  worker_inv w store -> i ∉ jobs w -> worker_inv w (delete i store).
Proof.
  intros [Hnd Ho Hs Ht Hr Ha] Hi. split; try done. intros a Hin.
  destruct (Hr a Hin) as (t & Hl & Hok). exists t. split; [|done]. rewrite lookup_delete_ne; [done|].
  intros ->. apply Hi. unfold events in Hin. unfold jobs, queued. apply elem_of_app in Hin as [Hin|Hin].
  - apply elem_of_app. right. by apply (list_elem_of_fmap_2 event_identity) in Hin.
  - apply task_event_identity in Hin; [|done]. set_solver.
Qed.

(** Two jobs in different states of progress are on different quadrants. *)
Lemma in_flight_coord_ne (sl : Slots) i j :
  sl !! id_coord i = Some (SlotInFlight i) -> sl !! id_coord j = Some (SlotInFlight j) -> j <> i ->
  id_coord i <> id_coord j.
Proof. intros Hi Hj Hne E. rewrite E in Hi. congruence. Qed.

Definition same_public (r r' : FrontierRuntime) : Prop :=
  rt_revision r' = rt_revision r /\ revealed_quadrants (rt_state r') = revealed_quadrants (rt_state r).

Lemma prep_inv_step_runtime r r' :
  prep_inv (rt_pair r) -> runtime_step r r' -> prep_inv (rt_pair r').
Proof. intros H Hs. by destruct (prep_steps_frontier _ _ H (proj1 (runtime_step_prep _ _ Hs))). Qed.

Lemma generator_checked s i :
  sys_inv s -> i = ident (id_coord i) -> validate_preparation_generator (sys_frontier s) i = Ok tt.
Proof.
  intros Hs ->. unfold validate_preparation_generator. rewrite (si_generator s Hs). by rewrite decide_False by naive_solver.
Qed.

Definition settings_in_range : Prop := 0 <= max_retry_attempts (cfg_settings cfg) < 2 ^ 32.

Lemma record_failure_ok sl c (o : option RetryState) now :
  settings_in_range -> (forall r, o = Some r -> retry_ok sl c r /\ exhausted r = false) ->
  (forall i, sl !! c <> Some (SlotInFlight i)) -> retry_ok sl c (record_failure cfg o now).
Proof.
  intros [Hm0 Hm] Ho Hsl. unfold record_failure. cbv zeta.
  assert (0 <= failures (default {| failures := 0; retry_after := now; exhausted := false |} o)
          <= max_retry_attempts (cfg_settings cfg) /\
    exhausted (default {| failures := 0; retry_after := now; exhausted := false |} o) = false) as [Hf Hx].
  { destruct o as [r|]; cbn; [|split; [lia|done]]. destruct (Ho r eq_refl) as [(Hr & He & _) Hx]. split; [|done].
    rewrite Hx in He. destruct He as [_ He]. destruct (decide (max_retry_attempts (cfg_settings cfg) < failures r));
      [by specialize (He l)|lia]. }
  revert Hf Hx. generalize (default {| failures := 0; retry_after := now; exhausted := false |} o).
  intros r Hf Hx. unfold saturating_add_u, u_max. change (2 ^ 32) with 4294967296 in *.
  unfold retry_ok. destruct (decide _); cbn [failures exhausted]; split_goals; try done; try lia; split; intros; (congruence || lia).
Qed.

(** An event leaves the queue, and its reservation is no longer in flight. *)
Definition event_consumed (s s' : Sys) (i : Identity) (rest : list PreparationWorkerEvent) : Prop :=
  sys_worker s' = with_results (sys_worker s) rest /\
  forall c j, rt_preparations (sys_frontier s') !! c = Some (SlotInFlight j) ->
    rt_preparations (sys_frontier s) !! c = Some (SlotInFlight j) /\ j <> i.

Lemma consume_completed_ok s a rest now report :
  sys_inv s -> w_results (sys_worker s) = WorkerCompleted a :: rest ->
  exists s' report', consume_event cfg (with_worker s (with_results (sys_worker s) rest)) now report
                       (WorkerCompleted a) = (s', Ok report') /\
    sys_inv s' /\ same_public (sys_frontier s) (sys_frontier s') /\
    event_consumed s s' (art_identity a) rest.
Proof.
  intros Hs Er. pose proof Hs as [Hp Hg Hsl Hj Hw Hrt Hre Hb].
  destruct (pop_event _ _ _ _ Hw Er) as [Hw1 Ej]. set (w1 := with_results (sys_worker s) rest) in *.
  cbn [event_identity] in Ej. set (i := art_identity a) in *.
  assert (rt_preparations (sys_frontier s) !! id_coord i = Some (SlotInFlight i)) as Hslot
    by (apply Hj; rewrite Ej; by left).
  pose proof (Hsl _ _ Hslot) as Hid.
  destruct (wi_retained _ _ Hw a) as (t & Hl & Hfp & Hlen); [unfold events; rewrite Er; by left|].
  destruct (complete_in_flight _ _ a Hp Hslot) as (tr & f' & Hc & Htr).
  cbn [consume_event]. unfold consume_completed, verify_retained_terrain_artifact. cbn [sys_retained with_worker].
  fold i in Hl |- *. rewrite Hl. cbn [ok_or mbind result_bind]. rewrite Hfp. cbn [map_err mbind result_bind].
  rewrite decide_False by naive_solver. rewrite decide_False by naive_solver.
  cbn [sys_frontier with_worker].
  assert (complete_preparation (sys_frontier s) a =
    (with_frontier (sys_frontier s) f' (<[id_coord i := SlotPrepared a]> (rt_preparations (sys_frontier s))),
     Ok (CompletionPrepared tr))) as Hcp.
  { unfold complete_preparation. fold i. rewrite (generator_checked s i Hs Hid). by rewrite Hc. }
  rewrite Hcp. destruct (revision_after _ _ _ _ _ Htr) as (_ & _ & Hrev). destruct (Hrev ltac:(done)) as [Hrev1 Hrev2].
  unfold rt_revision. cbn [sys_frontier with_runtime with_retries rt_state with_frontier with_worker].
  rewrite decide_False by naive_solver. eexists _, _. split; [done|].
  pose proof (prep_inv_step_runtime _ _ Hp (rt_complete _ _ _ _ Hcp)) as Hp'.
  split; [|split; [split; done|]].
  2: { split; [done|]. intros c j Hc'. cbn in Hc'. apply lookup_insert_Some in Hc' as [[_ ?]|[Hne Hc']]; [done|].
       split; [done|]. intros ->. pose proof (Hsl c _ Hc') as Hj'. apply Hne. by rewrite Hj'. }
  split; cbn [sys_frontier sys_worker sys_retained sys_retries with_runtime with_retries with_worker
    rt_preparations with_frontier rt_generator_version]; try done.
  - intros c j [[_ ?]|[_ Hc']]%lookup_insert_Some; [done|by apply Hsl].
  - intros j Hjw. assert (j <> i) as Hne.
    { intros ->. pose proof (wi_nodup _ _ Hw) as Hnd. rewrite Ej in Hnd. by apply list.NoDup_cons in Hnd as [? _]. }
    assert (j ∈ jobs (sys_worker s)) as Hjw' by (rewrite Ej; by right).
    rewrite lookup_insert_ne; [by apply Hj|]. eapply in_flight_coord_ne; [done|by apply Hj|done].
  - intros c r [_ Hr]%lookup_delete_Some. destruct (Hre c r Hr) as (H1 & H2 & H3). split; [done|]. split; [done|].
    intros Hx j [[_ ?]|[_ Hc']]%lookup_insert_Some; [done|]. by apply (H3 Hx j).
  - etransitivity; [|exact Hb]. apply occupied_mono; [done|done|]. intros c.
    destruct Hp as [Hwf _], Hp' as [Hwf' _]. cbn in Hwf, Hwf'. rewrite !elem_of_occupied by done. cbn.
    destruct (state_after _ _ _ _ _ c Hwf Htr) as (-> & _). intros [Hst|[j Hc']].
    + destruct (decide _) as [[-> _]|]; [|by left]. right. by exists i.
    + apply lookup_insert_Some in Hc' as [[_ ?]|[_ Hc']]; [done|]. right. by exists j.
Qed.

Lemma consume_failed_ok s i e rest now report :
  settings_in_range -> sys_inv s -> w_results (sys_worker s) = WorkerFailed i e :: rest ->
  exists s' report', consume_event cfg (with_worker s (with_results (sys_worker s) rest)) now report
                       (WorkerFailed i e) = (s', Ok report') /\
    sys_inv s' /\ same_public (sys_frontier s) (sys_frontier s') /\
    event_consumed s s' (i) rest.
Proof.
  intros Hset Hs Er. pose proof Hs as [Hp Hg Hsl Hj Hw Hrt Hre Hb].
  destruct (pop_event _ _ _ _ Hw Er) as [Hw1 Ej]. set (w1 := with_results (sys_worker s) rest) in *.
  cbn [event_identity] in Ej.
  assert (rt_preparations (sys_frontier s) !! id_coord i = Some (SlotInFlight i)) as Hslot
    by (apply Hj; rewrite Ej; by left).
  pose proof (Hsl _ _ Hslot) as Hid.
  assert (i ∉ jobs w1) as Hi.
  { pose proof (wi_nodup _ _ Hw) as Hnd. rewrite Ej in Hnd. by apply list.NoDup_cons in Hnd as [? _]. }
  cbn [consume_event]. unfold consume_failed. cbn [sys_frontier with_worker with_retained].
  assert (fail_preparation (sys_frontier s) i =
    (with_frontier (sys_frontier s) (rt_state (sys_frontier s)) (delete (id_coord i) (rt_preparations (sys_frontier s))),
     Ok Removed)) as Hfp.
  { unfold fail_preparation. rewrite (generator_checked s i Hs Hid). unfold fail, abandon. rewrite Hslot.
    cbn [slot_identity]. by rewrite decide_False by naive_solver. }
  rewrite Hfp. unfold rt_revision.
  cbn [sys_frontier sys_retries with_runtime with_retries with_retained rt_state with_frontier with_worker].
  rewrite decide_False by naive_solver. eexists _, _. split; [done|].
  pose proof (prep_inv_step_runtime _ _ Hp (rt_fail _ _ _ _ Hfp)) as Hp'.
  split; [|split; [split; done|]].
  2: { split; [done|]. intros c j Hc'. cbn in Hc'. apply lookup_delete_Some in Hc' as [Hne Hc']. split; [done|].
       intros ->. pose proof (Hsl c _ Hc') as Hj'. apply Hne. by rewrite Hj'. }
  split; cbn [sys_frontier sys_worker sys_retained sys_retries with_runtime with_retries with_worker with_retained
    rt_preparations with_frontier rt_generator_version]; try done.
  - intros c j [_ Hc']%lookup_delete_Some. by apply Hsl.
  - intros j Hjw. assert (j <> i) as Hne by (by intros ->).
    assert (j ∈ jobs (sys_worker s)) as Hjw' by (rewrite Ej; by right).
    rewrite lookup_delete_ne; [by apply Hj|]. eapply in_flight_coord_ne; [done|by apply Hj|done].
  - by apply forget_artifact.
  - intros j t [_ Hj']%lookup_delete_Some. by apply Hrt.
  - intros c r [[<- <-]|[Hne Hr]]%lookup_insert_Some.
    + apply record_failure_ok; [done| |].
      * intros r Hr. pose proof (Hre _ r Hr) as (H1 & H2 & H3).
        assert (exhausted r = false) as Hx.
        { destruct (exhausted r); [|done]. by destruct (H3 eq_refl i). }
        split; [|done]. split; [done|]. split; [done|]. by rewrite Hx.
      * intros j [? _]%lookup_delete_Some. done.
    + destruct (Hre c r Hr) as (H1 & H2 & H3). split; [done|]. split; [done|].
      intros Hx j [_ Hc']%lookup_delete_Some. by apply (H3 Hx j).
  - etransitivity; [|exact Hb]. apply occupied_mono; [done|done|]. intros c.
    destruct Hp as [Hwf _], Hp' as [Hwf' _]. cbn in Hwf, Hwf'. rewrite !elem_of_occupied by done. cbn.
    intros [Hst|[j [_ Hc']%lookup_delete_Some]]; [by left|]. right. by exists j.
Qed.

Lemma consume_event_ok s e rest now report :
  settings_in_range -> sys_inv s -> w_results (sys_worker s) = e :: rest ->
  exists s' report', consume_event cfg (with_worker s (with_results (sys_worker s) rest)) now report e =
                       (s', Ok report') /\
    sys_inv s' /\ same_public (sys_frontier s) (sys_frontier s') /\
    event_consumed s s' (event_identity e) rest.
Proof.
  intros Hset Hs Er. destruct e as [a|i e]; [by apply consume_completed_ok|by apply consume_failed_ok].
Qed.

#[global] Instance same_public_preorder : PreOrder same_public.
Proof.
  split; [by intros r|]. intros r1 r2 r3 [A1 A2] [B1 B2]. split; congruence.
Qed.

Lemma consume_loop_ok es : forall s now report,
  settings_in_range -> sys_inv s -> w_results (sys_worker s) = es ->
  exists s' report', consume_loop cfg es s now report = (s', Ok report') /\
    sys_inv s' /\ same_public (sys_frontier s) (sys_frontier s').
Proof.
  induction es as [|e es IH]; intros s now report Hset Hs Er; cbn [consume_loop].
  { rewrite (wi_alive _ _ (si_worker s Hs)). by exists s, report. }
  destruct (consume_event_ok s e es now report Hset Hs Er) as (s1 & report1 & E & Hs1 & Hpub & Hcon & _).
  assert (w_results (sys_worker s1) = es) as Er1 by (by rewrite Hcon).
  rewrite E. destruct (IH s1 now report1 Hset Hs1 Er1) as (s2 & report2 & E2 & Hs2 & Hpub2).
  exists s2, report2. split; [done|]. split; [done|]. by etransitivity.
Qed.

(** ** Admission *)

Lemma seed_fingerprint c : seeds_nonzero -> fingerprint_new (seed_of c) = Ok (seed_of c).
Proof. intros H. unfold fingerprint_new. by rewrite decide_False by apply H. Qed.

(** Reserving a quadrant for preparation. *)
Definition reserved (r : FrontierRuntime) (c : QuadrantCoord) : FrontierRuntime :=
  with_frontier r (rt_state r) (<[c := SlotInFlight (ident c)]> (rt_preparations r)).

(** One admission in full: nothing happens when the quadrant is already in
    flight; a full queue takes the reservation back; otherwise it stays, with a
    job unless the worker still counts an old one as outstanding. *)
Lemma admit_eq s report admitted c :
  seeds_nonzero -> cfg_generator_version cfg <> 0 -> sys_inv s -> state (rt_state (sys_frontier s)) c = Candidate ->
  admit_candidate blake3_keyed cfg s report admitted c =
  match rt_preparations (sys_frontier s) !! c with
  | Some _ => (s, report, AdmissionContinue admitted)
  | None =>
      match try_submit (cfg_worker cfg) (sys_worker s) (ident c) with
      | (w, Submitted) =>
          (with_worker (with_runtime s (reserved (sys_frontier s) c)) w, report_add report 0 0 1 0 0,
           AdmissionContinue (admitted + 1))
      | (w, SubmissionDuplicate) =>
          (with_worker (with_runtime s (reserved (sys_frontier s) c)) w, report, AdmissionContinue (admitted + 1))
      | (w, SubmissionFull) => (with_worker s w, report_add report 0 0 0 1 0, AdmissionBreak)
      | (w, SubmissionClosed) => (with_worker s w, report, AdmissionError RequestQueueClosed)
      end
  end.
Proof.
  intros Hseed Hg0 Hs Hc. unfold admit_candidate. fold (seed_of c). cbv zeta. rewrite seed_fingerprint by done.
  unfold preparation_identity, identity_new. rewrite (si_generator s Hs), decide_False by done.
  cbn [map_err]. fold (ident c). unfold request_preparation.
  rewrite (generator_checked s (ident c) Hs eq_refl). unfold request. change (id_coord (ident c)) with c.
  destruct (rt_preparations (sys_frontier s) !! c) as [sl|] eqn:Esl.
  { destruct sl as [i|a].
    2: { destruct (proj2 (si_prep s Hs) c _ Esl) as [_ Hrank]. cbn in Hrank. rewrite Hc in Hrank. cbn in Hrank. lia. }
    rewrite (si_slots s Hs c i Esl). cbn [slot_identity]. rewrite decide_False by naive_solver.
    by rewrite with_frontier_id, with_runtime_id. }
  rewrite Hc, decide_False by naive_solver. cbn [map_err]. fold (reserved (sys_frontier s) c).
  change (sys_worker (with_runtime s _)) with (sys_worker s).
  assert (cancel_preparation (reserved (sys_frontier s) c) (ident c) = (sys_frontier s, Ok Removed)) as Hcancel.
  { unfold cancel_preparation. unfold validate_preparation_generator, reserved; cbn [rt_generator_version with_frontier].
    rewrite (si_generator s Hs), decide_False by naive_solver.
    unfold cancel, abandon. cbn [rt_preparations with_frontier]. change (id_coord (ident c)) with c.
    rewrite lookup_insert_eq. cbn [slot_identity]. rewrite decide_False by naive_solver. cbn [map_err].
    rewrite delete_insert_id by done. f_equal. by destruct (sys_frontier s). }
  destruct (try_submit _ _ _) as [w []]; [done|done| |]; cbn [sys_frontier with_worker with_runtime];
    rewrite Hcancel; by destruct s.
Qed.

Lemma try_submit_inv w store i w' o :
  worker_inv w store -> i ∉ jobs w -> try_submit (cfg_worker cfg) w i = (w', o) ->
  worker_inv w' store /\
  match o with
  | Submitted => i ∉ w_outstanding w /\ jobs w' ≡ₚ i :: jobs w
  | SubmissionDuplicate => i ∈ w_outstanding w /\ w' = w
  | SubmissionFull =>
      w' = w /\ Z.of_nat (length (w_requests w)) >= request_queue_capacity (cfg_worker cfg)
  | SubmissionClosed => False
  end.
Proof.
  intros Hw Hi H. unfold try_submit in H. destruct (decide (i ∈ w_outstanding w)) as [Hin|Hni].
  { by injection H as <- <-. }
  pose proof Hw as [Hnd Ho Hs Ht Hr Ha]. rewrite Ha in H. cbn [negb] in H.
  destruct (decide _) as [Hfull|Hroom]; injection H as <- <-; [done|].
  match goal with |- worker_inv ?x _ /\ _ => set (w1 := x) end.
  assert (queued w1 ≡ₚ i :: queued w) as Eq by (unfold queued; cbn; solve_Permutation).
  assert (jobs w1 ≡ₚ i :: jobs w) as Ej.
  { unfold jobs. rewrite Eq. change (w_results w1) with (w_results w). done. }
  split; [|done]. split.
  - rewrite Ej. by apply list.NoDup_cons.
  - intros j. change (w_outstanding w1) with ({[ i ]} ∪ w_outstanding w). change (w_sending w1) with (w_sending w).
    rewrite Eq, elem_of_cons, elem_of_union, elem_of_singleton, Ho. naive_solver.
  - intros j Hj. change (w_sending w1) with (w_sending w) in Hj. rewrite Eq, elem_of_cons. intros [->|Hjq].
    + apply Hni, Ho. by right.
    + by apply (Hs j).
  - done.
  - exact Hr.
  - done.
Qed.

Lemma reserve_inv s c :
  sys_inv s -> state (rt_state (sys_frontier s)) c = Candidate ->
  rt_preparations (sys_frontier s) !! c = None ->
  prep_inv (rt_pair (reserved (sys_frontier s) c)) /\
  occupied (reserved (sys_frontier s) c) = occupied (sys_frontier s) + 1.
Proof.
  intros Hs Hc Hn. pose proof (si_prep s Hs) as Hp. pose proof Hp as [Hwf Hsl]. cbn in Hwf, Hsl.
  assert (prep_inv (rt_pair (reserved (sys_frontier s) c))) as Hp'.
  { split; [done|]. cbn. by apply map_Forall_insert_2. }
  split; [done|]. apply (occupied_add _ _ c); [done|done| |].
  - rewrite elem_of_occupied by done. intros [Hst|[i Hi]]; congruence.
  - apply set_eq. intros d. rewrite elem_of_union, elem_of_singleton, !elem_of_occupied by done. cbn.
    split.
    + intros [Hst|[i Hi]]; [by right; left|]. apply lookup_insert_Some in Hi as [[<- _]|[_ Hi]]; [by left|].
      right; right. by exists i.
    + intros [->|[Hst|[i Hi]]]; [right; exists (ident c); by apply lookup_insert_eq|by left|].
      right. exists i. rewrite lookup_insert_ne; [done|]. intros <-. congruence.
Qed.

(** What an admission may change. *)
Definition admission_frame (s s' : Sys) : Prop :=
  rt_state (sys_frontier s') = rt_state (sys_frontier s) /\ sys_retries s' = sys_retries s /\
  sys_retained s' = sys_retained s /\ w_results (sys_worker s') = w_results (sys_worker s).

Lemma admit_inv s report admitted c now s' report' a :
  seeds_nonzero -> cfg_generator_version cfg <> 0 -> sys_inv s ->
  state (rt_state (sys_frontier s)) c = Candidate -> retry_allows s c now = true ->
  occupied (sys_frontier s) < max_prepared_quadrants (cfg_settings cfg) ->
  admit_candidate blake3_keyed cfg s report admitted c = (s', report', a) ->
  sys_inv s' /\ admission_frame s s' /\
  match a with
  | AdmissionContinue admitted' =>
      occupied (sys_frontier s') - occupied (sys_frontier s) = admitted' - admitted /\ admitted <= admitted'
  | AdmissionBreak => sys_frontier s' = sys_frontier s
  | AdmissionError _ => False
  end.
Proof.
  intros Hseed Hg0 Hs Hc Hret Hroom H. rewrite (admit_eq _ _ _ _ Hseed Hg0 Hs Hc) in H.
  destruct (rt_preparations (sys_frontier s) !! c) as [sl|] eqn:Hn.
  { injection H as <- <- <-. split_goals; try done; lia. }
  destruct (try_submit _ _ _) as [w o] eqn:Et.
  assert (ident c ∉ jobs (sys_worker s)) as Hnj by (intros Hj; apply (si_jobs s Hs) in Hj; cbn in Hj; congruence).
  destruct (try_submit_inv _ _ _ _ _ (si_worker s Hs) Hnj Et) as [Hw Ho].
  assert (w_results w = w_results (sys_worker s)) as Hres.
  { unfold try_submit in Et. repeat (destruct (decide _)); [by simplify_eq|..];
      destruct (negb _); by simplify_eq. }
  assert ((forall j, j ∈ jobs w -> j = ident c \/ j ∈ jobs (sys_worker s)) ->
    sys_inv (with_worker (with_runtime s (reserved (sys_frontier s) c)) w)) as Hinv.
  { intros Hjobs. destruct (reserve_inv s c Hs Hc Hn) as [Hp' Hocc].
    split; cbn [sys_frontier sys_worker sys_retained sys_retries with_runtime with_worker]; try done.
    - apply Hs.
    - intros d j Hd. cbn in Hd. apply lookup_insert_Some in Hd as [[<- [= <-]]|[_ Hd]]; [done|by apply (si_slots s Hs)].
    - intros j Hj. unfold reserved; cbn [rt_preparations with_frontier]. destruct (Hjobs j Hj) as [->|Hj']; [by apply lookup_insert_eq|].
      pose proof (si_jobs s Hs j Hj') as Hslot. rewrite lookup_insert_ne; [done|]. intros E. rewrite <- E in Hslot. congruence.
    - apply Hs.
    - intros d r Hr. destruct (si_retries s Hs d r Hr) as (H1 & H2 & H3). split; [done|]. split; [done|].
      intros Hx j. cbn. intros [[<- _]|[_ Hd]]%lookup_insert_Some; [|by apply (H3 Hx j)].
      unfold retry_allows in Hret. by rewrite Hr, Hx in Hret.
    - lia. }
  destruct (reserve_inv s c Hs Hc Hn) as [_ Hocc].
  destruct o; injection H as <- <- <-; cbn [sys_frontier with_worker with_runtime].
  - destruct Ho as [_ Ej]. split; [|split; [done|lia]]. apply Hinv. intros j. rewrite Ej. by intros [->|?]%elem_of_cons; auto.
  - destruct Ho as [_ ->]. split; [|split; [done|lia]]. apply Hinv. auto.
  - destruct Ho as [-> _]. assert (with_worker s (sys_worker s) = s) as -> by (by destruct s). done.
  - done.
Qed.

Lemma admission_loop_ok now candidates : forall s report admitted budget,
  seeds_nonzero -> cfg_generator_version cfg <> 0 -> sys_inv s ->
  Forall (fun c => state (rt_state (sys_frontier s)) c = Candidate) candidates ->
  occupied (sys_frontier s) + (budget - admitted) <= max_prepared_quadrants (cfg_settings cfg) ->
  exists s' report', admission_loop blake3_keyed cfg candidates budget s now report admitted = (s', Ok report') /\
    sys_inv s' /\ admission_frame s s'.
Proof.
  induction candidates as [|c candidates IH]; intros s report admitted budget Hseed Hg0 Hs Hcand Hroom;
    cbn [admission_loop]; [by exists s, report|].
  apply Forall_cons_1 in Hcand as [Hc Hcand].
  destruct (decide (admitted >= budget)) as [|Hlt]; [by exists s, report|].
  destruct (retry_allows s c now) eqn:Hret; [|by apply IH].
  destruct (admit_candidate blake3_keyed cfg s report admitted c) as [[s1 report1] a] eqn:Ha.
  destruct (admit_inv s report admitted c now s1 report1 a Hseed Hg0 Hs Hc Hret ltac:(lia) Ha)
    as (Hs1 & Hframe & Hadm).
  destruct a as [admitted'| |e]; [|by exists s1, report1|done].
  destruct Hadm as [Hocc Hle]. pose proof Hframe as (Ef & Er & Et & Ew).
  destruct (IH s1 report1 admitted' budget Hseed Hg0 Hs1) as (s2 & report2 & E2 & Hs2 & Hframe2).
  - by rewrite Ef.
  - lia.
  - exists s2, report2. split; [done|]. split; [done|].
    destruct Hframe2 as (A & B & C & D). unfold admission_frame. by rewrite A, B, C, D.
Qed.

Lemma candidates_are_candidates f : frontier_wf f -> Forall (fun c => state f c = Candidate) (quadrants_in_state f Candidate).
Proof.
  intros Hwf. apply list.Forall_forall. intros c. unfold quadrants_in_state. rewrite decide_False by done.
  rewrite elem_of_sort_coords. intros ([c' st] & E & Hin)%list_elem_of_fmap. cbn in E. subst c'.
  apply elem_of_map_to_list, map_lookup_filter_Some in Hin as [Hst ->]. unfold state.
  destruct (decide (c ∈ revealed_lookup f)) as [Hr|]; [by rewrite (fw_disjoint f Hwf c Hr) in Hst|]. by rewrite Hst.
Qed.

Lemma schedule_ok s now report :
  seeds_nonzero -> cfg_generator_version cfg <> 0 -> sys_inv s ->
  exists s' report', schedule_candidates blake3_keyed cfg s now report = (s', Ok report') /\
    sys_inv s' /\ admission_frame s s'.
Proof.
  intros Hseed Hg0 Hs. unfold schedule_candidates. cbv zeta.
  destruct (decide _); [by exists s, report|]. destruct (decide _); [by exists s, report|].
  apply admission_loop_ok; [done..| |lia]. apply candidates_are_candidates, (si_prep s Hs).
Qed.

Lemma frame_public s s' : admission_frame s s' -> same_public (sys_frontier s) (sys_frontier s').
Proof. intros (E & _). unfold same_public, rt_revision. by rewrite E. Qed.

Lemma evaluate_ok s now :
  settings_in_range -> seeds_nonzero -> cfg_generator_version cfg <> 0 -> sys_inv s ->
  exists s' report, evaluate blake3_keyed cfg s now = (s', Ok report) /\ sys_inv s' /\
    same_public (sys_frontier s) (sys_frontier s') /\
    rep_prepared_private report = Z.of_nat (prepared_len (sys_frontier s')) /\
    rep_in_flight report = Z.of_nat (preparation_in_flight_len (sys_frontier s')).
Proof.
  intros Hset Hseed Hg0 Hs. unfold evaluate, consume_results.
  destruct (consume_loop_ok _ s now report_default Hset Hs eq_refl) as (s1 & r1 & -> & Hs1 & Hp1).
  destruct (schedule_ok s1 now r1 Hseed Hg0 Hs1) as (s2 & r2 & -> & Hs2 & Hf2).
  eexists _, _. split; [done|]. split; [done|]. split; [|done].
  etransitivity; [done|]. by apply frame_public.
Qed.

(** ** The whole system *)

Lemma worker_step_store w store w' store' :
  worker_step blake3_hash blake3_keyed cfg (w, store) (w', store') ->
  store' = store \/ exists i t a, i ∈ jobs w /\ store' = <[i := t]> store /\
    execute blake3_hash (cfg_quadrant_size_mm cfg) (terrain_world_seed_v1 blake3_keyed (cfg_universe_seed cfg))
      (cfg_biome_ids cfg) i = Ok (t, a).
Proof.
  intros H. remember (w, store) as x eqn:Ex. remember (w', store') as y eqn:Ey.
  destruct H as [v st i rest Ha' Hsend Hreq Hlt|v st i before after artifact a Htasks Hexec
    |v st i before after e Htasks Hexec|v st i before after Htasks|v st i before after r Ha' Hsend Htasks Hlt
    |v st i Ha' Hsend]; injection Ex as -> ->; injection Ey as <- <-; try (by left).
  right. exists i, artifact, a. split; [|done]. unfold jobs. rewrite (queued_middle w _ _ _ _ Htasks). set_solver.
Qed.

Lemma sys_worker_step_inv s w store :
  sys_inv s -> worker_step blake3_hash blake3_keyed cfg (sys_worker s, sys_retained s) (w, store) ->
  sys_inv (with_retained (with_worker s w) store).
Proof.
  intros Hs H. destruct (worker_step_inv _ _ _ _ (si_worker s Hs) H) as [Hw Ej].
  apply worker_step_store in H as Hst. destruct Hs as [Hp Hg Hsl Hj _ Hrt Hre Hb].
  split; cbn [sys_frontier sys_worker sys_retained sys_retries with_worker with_retained]; try done.
  - intros i Hi. apply Hj. by rewrite <- Ej.
  - intros i t Hi. destruct Hst as [->|(j & t' & b & Hj' & -> & Hex)]; [by apply Hrt|].
    apply lookup_insert_Some in Hi as [[<- <-]|[_ Hi]]; [|by apply Hrt]. split; [|by exists b].
    by apply (Hsl _ _ (Hj j Hj')).
Qed.

Lemma commit_sys_inv s u resolver f r :
  sys_inv s -> commit_reveal (sys_frontier s) u resolver = (f, r) -> sys_inv (with_runtime s f).
Proof.
  intros [Hp Hg Hsl Hj Hw Hrt Hre Hb] H. pose proof (prep_inv_step_runtime _ _ Hp (rt_commit _ _ _ _ _ H)) as Hp'.
  unfold commit_reveal in H. destruct (commit_authoritative_reveal _ _ _) as [f' o] eqn:E. injection H as <- <-.
  split; cbn [sys_frontier sys_worker sys_retained sys_retries with_runtime]; try done.
  etransitivity; [|exact Hb]. apply occupied_mono; [done|done|]. intros c.
  destruct Hp as [Hwf _], Hp' as [Hwf' _]. cbn in Hwf, Hwf'. rewrite !elem_of_occupied by done. cbn.
  intros [Hst|Hi]; [left|by right].
  apply commit_cases in E as [(-> & _)|(f1 & t & l & _ & _ & _ & Ht & Hwf1 & Hd)]; [done| |done].
  apply derive_cases in Hd as [(-> & _)|(l' & _ & _ & _ & _ & _ & _ & _ & Hst')]; [| |done].
  - destruct (state_after _ _ _ _ _ c Hwf Ht) as (E & _). rewrite E in Hst. by destruct (decide _).
  - rewrite Hst' in Hst. destruct (decide (c ∈ l')); [done|].
    destruct (state_after _ _ _ _ _ c Hwf Ht) as (E & _). rewrite E in Hst. by destruct (decide _).
Qed.

Lemma sys_step_inv s s' :
  settings_in_range -> seeds_nonzero -> cfg_generator_version cfg <> 0 ->
  sys_inv s -> sys_step blake3_hash blake3_keyed cfg s s' -> sys_inv s'.
Proof.
  intros Hset Hseed Hg0 Hs [w store H|e rest now report s1 r Er H|now report s1 r H|u resolver f r H].
  - by apply sys_worker_step_inv.
  - destruct (consume_event_ok s e rest now report Hset Hs Er) as (s2 & r2 & E & Hs2 & _).
    rewrite E in H. by injection H as <- <-.
  - destruct (schedule_ok s now report Hseed Hg0 Hs) as (s2 & r2 & E & Hs2 & _).
    rewrite E in H. by injection H as <- <-.
  - by eapply commit_sys_inv.
Qed.

Lemma sys_steps_inv s s' :
  settings_in_range -> seeds_nonzero -> cfg_generator_version cfg <> 0 ->
  sys_inv s -> rtc (sys_step blake3_hash blake3_keyed cfg) s s' -> sys_inv s'.
Proof.
  intros Hset Hseed Hg0 Hs H. induction H as [s|s s1 s2 Hstep _ IH]; [done|]. apply IH. by eapply sys_step_inv.
Qed.

Definition sys_init (r : FrontierRuntime) : Sys :=
  {| sys_frontier := r; sys_retries := ∅; sys_worker := worker_init; sys_retained := ∅ |}.

(** A runtime whose worker has nothing to do yet. *)
Lemma idle_sys_inv r :
  prep_inv (rt_pair r) -> rt_generator_version r = cfg_generator_version cfg ->
  (forall c i, rt_preparations r !! c <> Some (SlotInFlight i)) ->
  occupied r <= max_prepared_quadrants (cfg_settings cfg) -> sys_inv (sys_init r).
Proof.
  intros Hp Hg Hidle Hocc. split; cbn [sys_frontier sys_worker sys_retained sys_retries sys_init]; try done.
  - intros c i Hc. by destruct (Hidle c i).
  - intros i Hi. by apply not_elem_of_nil in Hi.
  - split; cbn; [apply base.NoDup_nil_2| |done|constructor| |done].
    + intros i. unfold queued; cbn. set_solver.
    + intros a Ha. by apply not_elem_of_nil in Ha.
Qed.

(** A new runtime has prepared nothing. *)
Lemma runtime_new_unprepared min w h f rev gen size r :
  coord_ok min -> 0 <= w -> 0 <= h -> rectangular min w h = Ok f -> 0 <= rev < 2 ^ 64 ->
  runtime_new f rev gen size = Ok r -> rt_generator_version r = gen /\ forall c, state (rt_state r) c <> Prepared.
Proof.
  intros Hmin Hw Hh Hf Hrev Hr. unfold runtime_new in Hr. apply bind_Ok in Hr as (f0 & H0 & Hr). apply map_err_Ok in H0.
  pose proof (from_initial_wf _ _ _ _ _ _ Hmin Hw Hh Hf Hrev H0) as Hwf0.
  destruct (derive_candidate_frontier f0) as [f1 d] eqn:Ed.
  apply bind_Ok in Hr as (l & Hd & Hr). apply bind_Ok in Hr as (_ & _ & [= <-]). split; [done|]. cbn.
  assert (forall c, state f0 c <> Prepared) as Hn0.
  { unfold from_initial in H0. destruct (decide _); [done|]. injection H0 as <-. intros c. unfold state. cbn.
    destruct (decide _); [done|]. by rewrite lookup_empty. }
  intros c. apply derive_cases in Ed as [(-> & _)|(l' & _ & _ & _ & _ & _ & _ & _ & Hst)]; [done| |done].
  rewrite Hst. by destruct (decide (c ∈ l')).
Qed.

Lemma sys_init_inv min w h f rev size r :
  coord_ok min -> 0 <= w -> 0 <= h -> rectangular min w h = Ok f -> 0 <= rev < 2 ^ 64 ->
  runtime_new f rev (cfg_generator_version cfg) size = Ok r ->
  0 <= max_prepared_quadrants (cfg_settings cfg) -> sys_inv (sys_init r).
Proof.
  intros Hmin Hw Hh Hf Hrev Hr Hmax.
  destruct (runtime_new_ok _ _ _ _ _ _ _ _ Hmin Hw Hh Hf Hrev Hr) as [[Hp _] He]. pose proof Hp as [Hwf _]. cbn in Hwf.
  destruct (runtime_new_unprepared _ _ _ _ _ _ _ _ Hmin Hw Hh Hf Hrev Hr) as [Hg Hnp].
  apply idle_sys_inv; [done|done| |].
  - intros c i. by rewrite He, lookup_empty.
  - rewrite occupied_size by done. assert (occupied_set r = ∅) as ->; [|rewrite size_empty; lia].
    apply set_eq. intros c. rewrite elem_of_occupied by done. rewrite He. setoid_rewrite lookup_empty.
    split; [intros [?|[? ?]]; [by destruct (Hnp c)|done]|set_solver].
Qed.

(** ** Progress of the worker *)

(** The steps left to a task, and to the worker by itself. *)
Definition task_measure (t : Task) : nat := match t.2 with None => 3 | Some _ => 2 end.
Definition worker_measure (w : Worker) : nat :=
  (4 * length (w_requests w) + sum_list_with task_measure (w_tasks w) +
   match w_sending w with None => 0 | Some _ => 1 end)%nat.

Lemma worker_step_measure w store w' store' :
  worker_step blake3_hash blake3_keyed cfg (w, store) (w', store') -> (worker_measure w' < worker_measure w)%nat.
Proof.
  intros H. remember (w, store) as x eqn:Ex. remember (w', store') as y eqn:Ey.
  destruct H as [v st i rest Ha' Hsend Hreq Hlt|v st i before after artifact a Htasks Hexec
    |v st i before after e Htasks Hexec|v st i before after Htasks|v st i before after r Ha' Hsend Htasks Hlt
    |v st i Ha' Hsend]; injection Ex as -> ->; injection Ey as <- <-;
    unfold worker_measure; cbn [w_requests w_tasks w_sending with_tasks];
    rewrite ?Htasks, ?Hreq, ?Hsend, ?sum_list_with_app; cbn; lia.
Qed.

(** A worker with work left is never stuck, except for a full result channel. *)
Lemma worker_can_step w store :
  w_alive w = true -> 0 < max_in_flight (cfg_worker cfg) ->
  Z.of_nat (length (w_results w)) < result_queue_capacity (cfg_worker cfg) ->
  worker_measure w <> 0%nat ->
  exists y, worker_step blake3_hash blake3_keyed cfg (w, store) y.
Proof.
  intros Ha Hmax Hroom Hm. destruct (w_sending w) as [i|] eqn:Es; [eexists; by eapply worker_sent|].
  destruct (w_tasks w) as [|[i [r|]] tasks] eqn:Et.
  - destruct (w_requests w) as [|i rest] eqn:Er.
    { exfalso. apply Hm. unfold worker_measure. by rewrite Er, Et, Es. }
    eexists. eapply worker_receive; [done|done|done|]. rewrite Et. cbn. lia.
  - eexists. by eapply (worker_send _ _ _ w store i []).
  - eexists. by eapply (worker_panicked _ _ _ w store i []).
Qed.

(** ** No reservation is lost

    Between sending an event and removing the identity from the outstanding ones
    the worker holds up a new submission of the same quadrant: [try_submit]
    answers [Duplicate] and the new reservation has no job.  Admission in other
    moments loses nothing. *)

Inductive prompt_step (s : Sys) : Sys -> Prop :=
| prompt_worker w store :
    worker_step blake3_hash blake3_keyed cfg (sys_worker s, sys_retained s) (w, store) ->
    prompt_step s (with_retained (with_worker s w) store)
| prompt_receive e rest now report s' r :
    w_results (sys_worker s) = e :: rest ->
    consume_event cfg (with_worker s (with_results (sys_worker s) rest)) now report e = (s', r) ->
    prompt_step s s'
| prompt_schedule now report s' r :
    w_sending (sys_worker s) = None ->
    schedule_candidates blake3_keyed cfg s now report = (s', r) -> prompt_step s s'
| prompt_reveal u resolver f r :
    commit_reveal (sys_frontier s) u resolver = (f, r) -> prompt_step s (with_runtime s f).

Definition nothing_lost (s : Sys) : Prop :=
  forall c i, rt_preparations (sys_frontier s) !! c = Some (SlotInFlight i) -> i ∈ jobs (sys_worker s).

Lemma prompt_sys_step s s' : prompt_step s s' -> sys_step blake3_hash blake3_keyed cfg s s'.
Proof.
  intros [w store H|e rest now report s1 r Er H|now report s1 r _ H|u resolver f r H];
    [by apply sys_worker_step|by eapply sys_receive|by eapply sys_schedule|by eapply sys_reveal].
Qed.

Lemma candidate_not_outstanding s c :
  sys_inv s -> w_sending (sys_worker s) = None -> rt_preparations (sys_frontier s) !! c = None ->
  ident c ∉ w_outstanding (sys_worker s).
Proof.
  intros Hs Hsend Hn. rewrite (wi_outstanding _ _ (si_worker s Hs)), Hsend. intros [Hq|?]; [|done].
  assert (ident c ∈ jobs (sys_worker s)) as Hj by (unfold jobs; apply elem_of_app; by left).
  apply (si_jobs s Hs) in Hj. cbn in Hj. congruence.
Qed.

Lemma admit_nothing_lost s report admitted c s' report' a :
  seeds_nonzero -> cfg_generator_version cfg <> 0 -> sys_inv s -> w_sending (sys_worker s) = None ->
  state (rt_state (sys_frontier s)) c = Candidate -> nothing_lost s ->
  admit_candidate blake3_keyed cfg s report admitted c = (s', report', a) ->
  nothing_lost s' /\ w_sending (sys_worker s') = None.
Proof.
  intros Hseed Hg0 Hs Hsend Hc Hnl H. rewrite (admit_eq _ _ _ _ Hseed Hg0 Hs Hc) in H.
  destruct (rt_preparations (sys_frontier s) !! c) as [sl|] eqn:Hn; [by injection H as <- <- <-|].
  destruct (try_submit _ _ _) as [w o] eqn:Et.
  assert (ident c ∉ jobs (sys_worker s)) as Hnj by (intros Hj; apply (si_jobs s Hs) in Hj; cbn in Hj; congruence).
  assert (w_sending w = None) as Hws.
  { unfold try_submit in Et. repeat (destruct (decide _)); [by simplify_eq|..];
      destruct (negb _); by simplify_eq. }
  destruct (try_submit_inv _ _ _ _ _ (si_worker s Hs) Hnj Et) as [_ Ho].
  destruct o; injection H as <- <- <-; (split; [|done]).
  - destruct Ho as [_ Ej]. intros d i. cbn. rewrite Ej. intros [[<- [= <-]]|[_ Hd]]%lookup_insert_Some; [by left|].
    right. by eapply Hnl.
  - destruct Ho as [Hin _]. by destruct (candidate_not_outstanding s c Hs Hsend Hn).
  - destruct Ho as [-> _]. exact Hnl.
  - done.
Qed.
Lemma admission_loop_nothing_lost now candidates : forall s report admitted budget s' r,
  seeds_nonzero -> cfg_generator_version cfg <> 0 -> sys_inv s -> w_sending (sys_worker s) = None ->
  Forall (fun c => state (rt_state (sys_frontier s)) c = Candidate) candidates ->
  occupied (sys_frontier s) + (budget - admitted) <= max_prepared_quadrants (cfg_settings cfg) ->
  nothing_lost s -> admission_loop blake3_keyed cfg candidates budget s now report admitted = (s', r) ->
  nothing_lost s'.
Proof.
  induction candidates as [|c candidates IH]; intros s report admitted budget s' r Hseed Hg0 Hs Hsend Hcand Hroom Hnl;
    cbn [admission_loop]; [by intros [= <- <-]|].
  apply Forall_cons_1 in Hcand as [Hc Hcand].
  destruct (decide (admitted >= budget)) as [|Hlt]; [by intros [= <- <-]|].
  destruct (retry_allows s c now) eqn:Hret; [|by apply IH].
  destruct (admit_candidate blake3_keyed cfg s report admitted c) as [[s1 report1] a] eqn:Ha.
  destruct (admit_inv s report admitted c now s1 report1 a Hseed Hg0 Hs Hc Hret ltac:(lia) Ha)
    as (Hs1 & Hframe & Hadm).
  destruct (admit_nothing_lost _ _ _ _ _ _ _ Hseed Hg0 Hs Hsend Hc Hnl Ha) as [Hnl1 Hsend1].
  destruct a as [admitted'| |e]; [|by intros [= <- <-]|done].
  apply IH; [done..| | |done]; [by rewrite (proj1 Hframe)|lia].
Qed.

Lemma prompt_step_nothing_lost s s' :
  settings_in_range -> seeds_nonzero -> cfg_generator_version cfg <> 0 ->
  sys_inv s -> nothing_lost s -> prompt_step s s' -> nothing_lost s'.
Proof.
  intros Hset Hseed Hg0 Hs Hnl [w store H|e rest now report s1 r Er H|now report s1 r Hsend H|u resolver f r H].
  - destruct (worker_step_inv _ _ _ _ (si_worker s Hs) H) as [_ Ej]. intros c i Hc. cbn. rewrite Ej. by eapply Hnl.
  - destruct (consume_event_ok s e rest now report Hset Hs Er) as (s2 & r2 & E & Hs2 & _ & Hw & Hsl).
    rewrite E in H. injection H as <- <-. intros c i Hc. destruct (Hsl c i Hc) as [Hc0 Hne].
    apply Hnl in Hc0. destruct (pop_event _ _ _ _ (si_worker s Hs) Er) as [_ Ej]. rewrite Ej in Hc0.
    apply elem_of_cons in Hc0 as [->|Hc0]; [done|]. by rewrite Hw.
  - unfold schedule_candidates in H. cbv zeta in H. destruct (decide _); [by injection H as <- <-|].
    destruct (decide _); [by injection H as <- <-|].
    eapply admission_loop_nothing_lost in H; [done|done..| | |done]; [|lia].
    apply candidates_are_candidates, (si_prep s Hs).
  - unfold commit_reveal in H. destruct (commit_authoritative_reveal _ _ _). injection H as <- <-. exact Hnl.
Qed.

Lemma prompt_steps_sys s s' : rtc prompt_step s s' -> rtc (sys_step blake3_hash blake3_keyed cfg) s s'.
Proof. intros H. induction H as [s|s s1 s2 H _ IH]; [done|]. by eapply rtc_l, IH; apply prompt_sys_step. Qed.

Lemma prompt_steps_nothing_lost s s' :
  settings_in_range -> seeds_nonzero -> cfg_generator_version cfg <> 0 ->
  sys_inv s -> nothing_lost s -> rtc prompt_step s s' -> nothing_lost s'.
Proof.
  intros Hset Hseed Hg0 Hs Hnl H. induction H as [s|s s1 s2 Hstep _ IH]; [done|].
  apply IH; [by eapply sys_step_inv, prompt_sys_step|by eapply prompt_step_nothing_lost].
Qed.

(** ** Progress of admission *)

Lemma admission_loop_submitted_mono now candidates : forall s report admitted budget s' report',
  admission_loop blake3_keyed cfg candidates budget s now report admitted = (s', Ok report') ->
  rep_submitted report <= rep_submitted report'.
Proof.
  induction candidates as [|c candidates IH]; intros s report admitted budget s' report'; cbn [admission_loop];
    [by intros [= _ <-]|].
  destruct (decide _); [by intros [= _ <-]|]. destruct (retry_allows s c now); [|apply IH].
  destruct (admit_candidate blake3_keyed cfg s report admitted c) as [[s1 report1] a] eqn:Ha.
  assert (rep_submitted report <= rep_submitted report1) as Hle.
  { unfold admit_candidate in Ha. repeat (case_match; simplify_eq/=); lia. }
  destruct a; [|by intros [= _ <-]|done]. intros H%IH. lia.
Qed.

(** The quadrants the loop may submit. *)
Definition admissible (s : Sys) (now : Z) (c : QuadrantCoord) : Prop :=
  rt_preparations (sys_frontier s) !! c = None /\ retry_allows s c now = true.

Lemma admission_loop_progress now candidates : forall s report admitted budget s' report',
  seeds_nonzero -> cfg_generator_version cfg <> 0 -> sys_inv s -> w_sending (sys_worker s) = None ->
  Forall (fun c => state (rt_state (sys_frontier s)) c = Candidate) candidates ->
  Z.of_nat (length (w_requests (sys_worker s))) < request_queue_capacity (cfg_worker cfg) ->
  admitted < budget -> Exists (admissible s now) candidates ->
  admission_loop blake3_keyed cfg candidates budget s now report admitted = (s', Ok report') ->
  rep_submitted report < rep_submitted report'.
Proof.
  induction candidates as [|c candidates IH]; intros s report admitted budget s' report' Hseed Hg0 Hs Hsend Hcand
    Hroom Hlt Hex H; [by apply Exists_nil in Hex|].
  apply Forall_cons_1 in Hcand as [Hc Hcand]. cbn [admission_loop] in H.
  destruct (decide (admitted >= budget)); [lia|].
  destruct (retry_allows s c now) eqn:Hret.
  2: { apply Exists_cons in Hex as [[_ Hx]|Hex]; [congruence|]. by eapply IH. }
  destruct (admit_candidate blake3_keyed cfg s report admitted c) as [[s1 report1] a] eqn:Ha.
  rewrite (admit_eq _ _ _ _ Hseed Hg0 Hs Hc) in Ha.
  destruct (rt_preparations (sys_frontier s) !! c) as [sl|] eqn:Hn.
  { injection Ha as <- <- <-. apply Exists_cons in Hex as [[Hx _]|Hex]; [congruence|]. by eapply IH. }
  unfold try_submit in Ha. rewrite decide_False in Ha by (by apply candidate_not_outstanding).
  rewrite (wi_alive _ _ (si_worker s Hs)) in Ha. cbn [negb] in Ha. rewrite decide_False in Ha by lia.
  injection Ha as <- <- <-. apply admission_loop_submitted_mono in H. cbn in H. lia.
Qed.

End Safety.

Section Theorems.
Context (blake3_hash : list Z -> list Z) (blake3_keyed : list Z -> list Z -> list Z) (cfg : SchedulerConfig).


(** C12: preparation never stalls.  As long as the scheduler does not admit_candidate in the
    moment between the sending of an event and the removal of its identity, every
    reservation has a job at the worker; a worker with work left can step unless
    its result channel is full, and can step only finitely often by itself; and
    whenever a candidate without a reservation may be tried, the budget is not
    used up and the request queue has room, an admission round submits a job. *)
Theorem preparation_progress (min : QuadrantCoord) (w h rev size : Z) (f : InitialFrontier)
  (r : FrontierRuntime) (s : Sys) :
  coord_ok min -> 0 <= w -> 0 <= h -> rectangular min w h = Ok f -> 0 <= rev < 2 ^ 64 ->
  runtime_new f rev (cfg_generator_version cfg) size = Ok r ->
  cfg_generator_version cfg <> 0 -> settings_in_range cfg -> 0 <= max_prepared_quadrants (cfg_settings cfg) ->
  0 < max_submissions_per_tick (cfg_settings cfg) -> 0 < max_in_flight (cfg_worker cfg) ->
  seeds_nonzero blake3_keyed cfg ->
  rtc (prompt_step blake3_hash blake3_keyed cfg) (sys_init r) s ->
  (forall c i, rt_preparations (sys_frontier s) !! c = Some (SlotInFlight i) -> i ∈ jobs (sys_worker s)) /\
  (Z.of_nat (length (w_results (sys_worker s))) < result_queue_capacity (cfg_worker cfg) ->
     worker_measure (sys_worker s) <> 0%nat ->
     exists y, worker_step blake3_hash blake3_keyed cfg (sys_worker s, sys_retained s) y) /\
  (forall w' store, worker_step blake3_hash blake3_keyed cfg (sys_worker s, sys_retained s) (w', store) ->
     (worker_measure w' < worker_measure (sys_worker s))%nat) /\
  (forall now report c, w_sending (sys_worker s) = None ->
     occupied (sys_frontier s) < max_prepared_quadrants (cfg_settings cfg) ->
     Z.of_nat (length (w_requests (sys_worker s))) < request_queue_capacity (cfg_worker cfg) ->
     c ∈ candidate_quadrants (sys_frontier s) -> rt_preparations (sys_frontier s) !! c = None ->
     retry_allows s c now = true ->
     exists s' report', schedule_candidates blake3_keyed cfg s now report = (s', Ok report') /\
       rep_submitted report < rep_submitted report').
Proof.
  intros Hmin Hw Hh Hf Hrev Hr Hg0 Hset Hmax Hsub Hfl Hseed Hsteps.
  pose proof (sys_init_inv blake3_hash blake3_keyed cfg _ _ _ _ _ _ _ Hmin Hw Hh Hf Hrev Hr Hmax) as H0.
  pose proof (sys_steps_inv _ _ _ _ _ Hset Hseed Hg0 H0 (prompt_steps_sys _ _ _ _ _ Hsteps)) as Hs.
  split; [|split; [|split]].
  - eapply (prompt_steps_nothing_lost blake3_hash blake3_keyed cfg _ s Hset Hseed Hg0 H0); [|done].
    intros c i Hc. cbn in Hc. destruct (runtime_new_ok _ _ _ _ _ _ _ _ Hmin Hw Hh Hf Hrev Hr) as [_ He].
    by rewrite He, lookup_empty in Hc.
  - intros Hroom Hm. apply worker_can_step; [|done..]. apply (si_worker _ _ _ s Hs).
  - intros w' store. by apply worker_step_measure.
  - intros now report c Hsend Hocc Hroom Hc Hn Hret.
    destruct (schedule_ok blake3_hash blake3_keyed cfg s now report Hseed Hg0 Hs) as (s' & report' & E & _).
    exists s', report'. split; [done|]. unfold schedule_candidates in E. cbv zeta in E.
    rewrite decide_False in E by lia. rewrite decide_False in E by lia.
    eapply (admission_loop_progress blake3_hash) in E; [done|done..| |done|lia|].
    + apply candidates_are_candidates, (si_prep _ _ _ s Hs).
    + apply list.Exists_exists. by exists c.
Qed.
End Theorems.

(** ** Examples: a frontier of one quadrant, with functions that stand in for
    BLAKE3. *)

Definition stand_in (bytes : list Z) : list Z := 1 :: bytes.
Definition stand_in_keyed (_ bytes : list Z) : list Z := 1 :: bytes.

Definition example_config : SchedulerConfig := {|
  cfg_settings := {| evaluation_interval := 5; max_submissions_per_tick := 1; max_prepared_quadrants := 2;
                     retry_backoff := 10; max_retry_attempts := 3 |};
  cfg_worker := {| request_queue_capacity := 4; result_queue_capacity := 4; max_in_flight := 1 |};
  cfg_universe_seed := [5]; cfg_quadrant_size_mm := 64000; cfg_generator_version := 1; cfg_biome_ids := [] |}.

Definition one_quadrant : InitialFrontier :=
  {| min_coord := mk_coord 0 0; max_coord := mk_coord 0 0; width := 1; height := 1;
     initial_quadrants := [mk_coord 0 0] |}.

Definition example_runtime : FrontierRuntime :=
  match runtime_new one_quadrant 5 1 64000 with
  | Ok r => r
  | Err _ => {| rt_state := mk_frontier 0 [] ∅ ∅; rt_preparations := ∅; rt_generator_version := 0;
                rt_quadrant_size_mm := 0 |}
  end.

Lemma example_runtime_new : runtime_new one_quadrant 5 1 64000 = Ok example_runtime.
Proof. unfold example_runtime. destruct (runtime_new _ _ _ _) eqn:E; [done|]. by vm_compute in E. Qed.

Lemma example_seeds : seeds_nonzero stand_in_keyed example_config.
Proof. intros c H. by apply Forall_cons_1 in H as [? _]. Qed.

Abbreviation example_step := (sys_step stand_in stand_in_keyed example_config).
Abbreviation example_schedule s now := (fst (schedule_candidates stand_in_keyed example_config s now report_default)).

(** After the first admission. *)
Definition example_admitted : Sys := example_schedule (sys_init example_runtime) 0.


Lemma preparation_progress_witness :
  jobs (sys_worker example_admitted) = [ident stand_in_keyed example_config (mk_coord 0 (-1))] /\
  exists y, worker_step stand_in stand_in_keyed example_config
              (sys_worker example_admitted, sys_retained example_admitted) y.
Proof.
  split; [vm_compute; reflexivity|].
  destruct (preparation_progress stand_in stand_in_keyed example_config (mk_coord 0 0) 1 1 5 64000 one_quadrant
    example_runtime example_admitted) as (_ & H & _); [split; vm_compute; split; congruence|lia|lia|reflexivity|lia|
    exact example_runtime_new|discriminate|split; vm_compute; congruence|vm_compute; congruence|reflexivity|reflexivity|
    exact example_seeds|exact (rtc_once _ _ (prompt_schedule _ _ _ (sys_init example_runtime) 0 report_default _ _ eq_refl (surjective_pairing _)))|].
  apply H; [vm_compute; reflexivity|vm_compute; discriminate].
Defined.

(** *** The lost reservation

    The worker sends the failure of a quadrant and is held up before it removes
    the identity; the scheduler consumes the failure and, after the backoff,
    admits the quadrant again: its submission is a duplicate.  Once the worker
    goes on, the quadrant is in flight for ever, with no job. *)
Definition lost_identity : Identity := ident stand_in_keyed example_config (mk_coord 0 (-1)).
Definition lost_worker (tasks : list Task) (sending : option Identity) (results : list PreparationWorkerEvent) : Worker :=
  {| w_requests := []; w_tasks := tasks; w_sending := sending; w_results := results;
     w_outstanding := {[ lost_identity ]}; w_alive := true |}.
Definition lost_request : Worker :=
  {| w_requests := [lost_identity]; w_tasks := []; w_sending := None; w_results := [];
     w_outstanding := {[ lost_identity ]}; w_alive := true |}.
Definition failure : PreparationWorkerEvent := WorkerFailed lost_identity ExecutionPanicked.

Definition lost_1 : Sys := with_retained (with_worker example_admitted (lost_worker [(lost_identity, None)] None [])) ∅.
Definition lost_2 : Sys :=
  with_retained (with_worker lost_1 (lost_worker [(lost_identity, Some (Err ExecutionPanicked))] None [])) ∅.
Definition lost_3 : Sys := with_retained (with_worker lost_2 (lost_worker [] (Some lost_identity) [failure])) ∅.
Definition lost_4 : Sys :=
  fst (consume_event example_config (with_worker lost_3 (with_results (sys_worker lost_3) [])) 0 report_default failure).
Definition lost_5 : Sys := example_schedule lost_4 10.
Definition lost_6 : Sys :=
  let w := sys_worker lost_5 in
  with_retained (with_worker lost_5
    {| w_requests := w_requests w; w_tasks := w_tasks w; w_sending := None; w_results := w_results w;
       w_outstanding := w_outstanding w ∖ {[ lost_identity ]}; w_alive := true |}) ∅.

Lemma worker_step_to w store y s :
  worker_step stand_in stand_in_keyed example_config (w, store) y ->
  sys_worker s = w -> sys_retained s = store -> example_step s (with_retained (with_worker s y.1) y.2).
Proof. intros H <- <-. apply sys_worker_step. by destruct y. Qed.

Lemma lost_run : rtc example_step (sys_init example_runtime) lost_6.
Proof.
  eapply rtc_l; [exact (sys_schedule _ _ _ (sys_init example_runtime) 0 report_default _ _ (surjective_pairing _))|].
  eapply (rtc_l _ _ lost_1).
  { assert (sys_worker example_admitted = lost_request) as Hw by (vm_compute; reflexivity).
    assert (sys_retained example_admitted = ∅) as Hr by (vm_compute; reflexivity).
    exact (worker_step_to _ _ _ example_admitted
      (worker_receive stand_in stand_in_keyed example_config lost_request ∅ lost_identity [] eq_refl eq_refl eq_refl eq_refl)
      Hw Hr). }
  eapply (rtc_l _ _ lost_2).
  { apply (worker_step_to _ _ _ lost_1
      (worker_panicked stand_in stand_in_keyed example_config (sys_worker lost_1) ∅ lost_identity [] [] eq_refl) eq_refl eq_refl). }
  eapply (rtc_l _ _ lost_3).
  { apply (worker_step_to _ _ _ lost_2
      (worker_send stand_in stand_in_keyed example_config (sys_worker lost_2) ∅ lost_identity [] [] (Err ExecutionPanicked) eq_refl eq_refl eq_refl eq_refl) eq_refl eq_refl). }
  eapply (rtc_l _ _ lost_4).
  { exact (sys_receive _ _ _ lost_3 failure [] 0 report_default _ _ eq_refl (surjective_pairing _)). }
  eapply (rtc_l _ _ lost_5).
  { exact (sys_schedule _ _ _ lost_4 10 report_default _ _ (surjective_pairing _)). }
  apply rtc_once.
  assert (w_alive (sys_worker lost_5) = true) as Ha by (vm_compute; reflexivity).
  assert (w_sending (sys_worker lost_5) = Some lost_identity) as Hs by (vm_compute; reflexivity).
  assert (sys_retained lost_5 = ∅) as Hr by (vm_compute; reflexivity).
  exact (worker_step_to _ _ _ lost_5
    (worker_sent stand_in stand_in_keyed example_config (sys_worker lost_5) ∅ lost_identity Ha Hs) eq_refl Hr).
Qed.

Lemma reservation_can_be_lost :
  rtc example_step (sys_init example_runtime) lost_6 /\
  rt_preparations (sys_frontier lost_6) !! mk_coord 0 (-1) = Some (SlotInFlight lost_identity) /\
  jobs (sys_worker lost_6) = [] /\ worker_measure (sys_worker lost_6) = 0%nat.
Proof. split; [exact lost_run|]. split_goals; vm_compute; reflexivity. Qed.
