(* ===== verification/PublicContracts.v ===== *)
(** What the server tells clients about a revealed quadrant
    ([apps/world-server/src/preparation_scheduler.rs],
    [presentation_contracts_with_water_for_revealed], and
    [runtime/frontier_dispatcher.rs]): its terrain, retained or generated anew, the
    environment policy and the water surface, and their wire forms. *)

From S2P Require Import Prelude Bytes Core Contracts Wire Presentation Noise Terrain Hydrology WaterSurface.
From S2P Require Import EnvironmentPolicy Frontier Preparation Runtime Scheduler SchedulerSafety.
Import World Presentation.Terrain Presentation.Environment Presentation.Water.

Abbreviation Coord := Manifest.FrontierQuadrantCoord.

Inductive PublicContractsError :=
| PublicTerrain (e : TerrainIntegrationError)
| PublicPolicy (e : EnvironmentPresentationGenerationError)
| PublicWater (e : WaterSurfacePresentationGenerationError)
| PolicyLatticeDiverged
| WaterLatticeDiverged
| PolicyWaterDiverged.

Section Public.
Context (blake3_hash : list Z -> list Z) (blake3_keyed : list Z -> list Z -> list Z) (cfg : SchedulerConfig).

(** [terrain_world_seed_v1(&self.universe_seed)]. *)
Definition public_world_seed : Z := terrain_world_seed_v1 blake3_keyed (cfg_universe_seed cfg).

(** The test of the search through the retained artifacts. *)
Definition identity_matches (coord : Coord) (i : Identity) : bool :=
  bool_decide (id_generator_version i = cfg_generator_version cfg) &&
  bool_decide (qx (id_coord i) = Manifest.fx coord) && bool_decide (qy (id_coord i) = Manifest.fy coord).

(** [retained] are the entries of the store in the order of its iterator. *)
Fixpoint find_retained (retained : list (Identity * TerrainAuthorityArtifactV1)) (coord : Coord)
  : option TerrainAuthorityArtifactV1 :=
  match retained with
  | [] => None
  | (i, artifact) :: retained' =>
      if identity_matches coord i then Some artifact else find_retained retained' coord
  end.

Definition terrain_authority_for_revealed (retained : list (Identity * TerrainAuthorityArtifactV1)) (coord : Coord)
  : result PublicContractsError TerrainAuthorityContractV1 :=
  match find_retained retained coord with
  | Some artifact => Ok (art_contract artifact)
  | None => map_err PublicTerrain (generate_hydrology_integrated_terrain_authority_v1
              (cfg_quadrant_size_mm cfg) (cfg_generator_version cfg) public_world_seed coord [])
  end.

Definition environment_presentation_policy_v1 (a : TerrainAuthorityArtifactV1) (world_seed : Z)
  : result EnvironmentPresentationGenerationError EnvironmentPresentationPolicyV1 :=
  generate_environment_presentation_policy_v1 blake3_hash world_seed (art_contract a).

Definition presentation_contracts_for_revealed (retained : list (Identity * TerrainAuthorityArtifactV1))
  (coord : Coord)
  : result PublicContractsError (TerrainAuthorityContractV1 * EnvironmentPresentationPolicyV1) :=
  terrain ← terrain_authority_for_revealed retained coord;
  policy ← map_err PublicPolicy
    (environment_presentation_policy_v1 (artifact_from_contract blake3_hash terrain) public_world_seed);
  if decide (policy_quadrant_coord policy <> quadrant_coord terrain \/
             terrain_generator_version policy <> generator_version terrain \/
             policy_control_grid_side policy <> control_grid_side terrain \/
             length (cell_family_masks policy) <> length (cell_flags terrain))
  then Err PolicyLatticeDiverged else Ok (terrain, policy).

Definition presentation_contracts_with_water_for_revealed
  (retained : list (Identity * TerrainAuthorityArtifactV1)) (coord : Coord)
  : result PublicContractsError
      (TerrainAuthorityContractV1 * EnvironmentPresentationPolicyV1 * WaterSurfacePresentationV1) :=
  '(terrain, policy) ← presentation_contracts_for_revealed retained coord;
  water_surface ← map_err PublicWater (generate_water_surface_presentation_v1
    {| hydro_world_seed := public_world_seed; hydro_generator_version := cfg_generator_version cfg |} terrain);
  if decide (water_quadrant_coord water_surface <> quadrant_coord terrain \/
             water_terrain_generator_version water_surface <> generator_version terrain \/
             hydrology_generator_version water_surface <> generator_version terrain \/
             water_control_grid_side water_surface <> control_grid_side terrain \/
             length (samples water_surface) <> length (elevation_samples_mm terrain))
  then Err WaterLatticeDiverged
  else if decide (policy_quadrant_coord policy <> water_quadrant_coord water_surface \/
                  terrain_generator_version policy <> water_terrain_generator_version water_surface \/
                  policy_control_grid_side policy <> water_control_grid_side water_surface)
  then Err PolicyWaterDiverged else Ok (terrain, policy, water_surface).
End Public.

(** ** The wire forms *)

Record EncodedQuadrantContracts := {
  terrain_payload : list Z;
  environment_payload : list Z;
  water_payload : list Z
}.

Inductive SerializeError :=
| SerializeTerrain (e : TerrainAuthorityContractError)
| SerializeEnvironment (e : EnvironmentPresentationWireCodecError)
| SerializeWater (e : WaterSurfacePresentationWireCodecError).

Definition serialize (terrain : TerrainAuthorityContractV1) (environment : EnvironmentPresentationPolicyV1)
  (water : WaterSurfacePresentationV1) : result SerializeError EncodedQuadrantContracts :=
  t ← map_err SerializeTerrain (terrain_encode_wire terrain);
  e ← map_err SerializeEnvironment (environment_encode_wire environment);
  w ← map_err SerializeWater (water_encode_wire water);
  Ok {| terrain_payload := t; environment_payload := e; water_payload := w |}.

Definition message_kinds : Bootstrap.MessageKind * Bootstrap.MessageKind * Bootstrap.MessageKind :=
  (Bootstrap.KTerrainAuthority, Bootstrap.KEnvironmentPresentationPolicy, Bootstrap.KWaterSurfacePresentation).

(** ** The terrain of a quadrant *)

Definition hydrology_settings (gen ws : Z) : HydrologyFieldV1Settings :=
  {| hydro_world_seed := ws; hydro_generator_version := gen |}.

(** The biome a pool gives; the empty pool leaves the generated one. *)
Definition pool_biome (ws : Z) (pool : list Z) (c : Coord) : Z :=
  if decide (pool = []) then derive_quadrant_biome_id ws c else derive_quadrant_biome_from_pool ws c pool.

Definition integrated (size gen ws : Z) (pool : list Z) (c : Coord) : TerrainAuthorityContractV1 :=
  with_biome (carved (hydrology_settings gen ws)
    (generated {| recipe_quadrant_size_mm := size; recipe_generator_version := gen; recipe_world_seed := ws |} c))
    (pool_biome ws pool c).

Lemma carved_with_biome s t b : carved s (with_biome t b) = with_biome (carved s t) b.
Proof. reflexivity. Qed.

Lemma validate_with_biome t b : terrain_validate (with_biome t b) = terrain_validate t.
Proof. reflexivity. Qed.

Lemma matches_with_biome s t b : terrain_matches s (with_biome t b) <-> terrain_matches s t.
Proof. reflexivity. Qed.

Lemma forget_with_biome t b : forget_biome (with_biome t b) = forget_biome t.
Proof. reflexivity. Qed.

Lemma integrate_Ok size gen ws pool c t :
  generate_hydrology_integrated_terrain_authority_v1 size gen ws c pool = Ok t <->
  0 < size /\ gen <> 0 /\ lattice_ok c /\ t = integrated size gen ws pool c.
Proof.
  unfold generate_hydrology_integrated_terrain_authority_v1. set (rs := {| recipe_quadrant_size_mm := size |}).
  fold (hydrology_settings gen ws).
  assert ((if decide (pool = []) then generated rs c
      else with_biome (generated rs c) (derive_quadrant_biome_from_pool ws c pool)) =
    with_biome (generated rs c) (pool_biome ws pool c)) as Ebiome.
  { unfold pool_biome. by destruct (decide (pool = [])). }
  assert (settings_ok rs -> forall t', map_err HydrologyIntegration (apply_hydrology_to_terrain_v1 (hydrology_settings gen ws)
      (with_biome (generated rs c) (pool_biome ws pool c))) = Ok t' <->
    lattice_ok c /\ t' = integrated size gen ws pool c) as Hcarve.
  { intros Hs t'. rewrite map_err_Ok, apply_hydrology_Ok.
    pose proof (generated_valid rs c Hs) as Hv. destruct Hs as [_ Hg]. rewrite carved_with_biome, validate_with_biome.
    fold rs. unfold integrated. fold rs. change (vertices_in_range _ _) with (lattice_ok c).
    split; [by intros (_ & _ & _ & Hl & ->)|]. intros [Hl ->].
    exact (conj Hv (conj Hg (conj eq_refl (conj Hl eq_refl)))). }
  split.
  - intros (t0 & (Hs & Hl & ->)%map_err_Ok%generate_Ok & H)%bind_Ok. cbv zeta in H.
    rewrite Ebiome in H. apply Hcarve in H as [_ ->]; [|done]. by destruct Hs.
  - intros (Hsz & Hg & Hl & ->). rewrite (proj2 (generate_Ok rs c (generated rs c)) (conj (conj Hsz Hg) (conj Hl eq_refl))).
    cbn [map_err mbind result_bind]. rewrite Ebiome. apply Hcarve; [by split|by split].
Qed.

Lemma carved_elevations_Forall (Q : Z -> Prop) s t :
  Forall Q (elevation_samples_mm t) -> (forall w e e', Q e -> carve_elevation w e = Some e' -> Q e') ->
  Forall Q (elevation_samples_mm (carved s t)).
Proof.
  intros Ht HQ. apply list.Forall_forall. intros e (i & Hi)%list_elem_of_lookup_1.
  eapply foldl_update_Forall in Hi; [done|done|]. intros p a b. apply HQ.
Qed.

Lemma carved_flags_Forall (Q : Z -> Prop) s t :
  Forall Q (cell_flags t) -> Q (Z.lor TERRAIN_CELL_WATER TERRAIN_CELL_BLOCKED) ->
  Forall Q (cell_flags (carved s t)).
Proof.
  intros Ht HQ. apply list.Forall_forall. intros e (i & Hi)%list_elem_of_lookup_1.
  eapply foldl_update_Forall in Hi; [done|done|]. intros p a b _. unfold flood_flags.
  destruct (any_corner _ _ _); [by intros [= <-]|done].
Qed.

Lemma carved_fields_ok s t b :
  terrain_fields_ok t -> is_byte b -> terrain_fields_ok (with_biome (carved s t) b).
Proof.
  intros (Hv & Hc & Hs & Hg & Hr & Hside & _ & He & Hf) Hb.
  do 6 (split; [done|]). split; [done|]. split.
  - cbn [with_biome elevation_samples_mm]. apply carved_elevations_Forall; [done|].
    intros w e e' Hin. unfold carve_elevation, carved_ceiling, saturating_i32, clamp_to.
    destruct (water_surface_mm w); [|done]. cbn [mbind option_bind].
    destruct (carve_depth _); [|done]. intros [= <-]. unfold in_i in *. lia.
  - cbn [with_biome cell_flags]. apply carved_flags_Forall; [done|].
    unfold is_byte, in_u. vm_compute. split; congruence.
Qed.

Lemma generated_fields_ok rs c :
  in_i 64 (recipe_quadrant_size_mm rs) -> in_u 32 (recipe_generator_version rs) ->
  Manifest.coord_fields_ok c -> in_u 64 (recipe_world_seed rs) -> terrain_fields_ok (generated rs c).
Proof.
  intros Hs Hg Hc Hw. unfold terrain_fields_ok, generated; cbn [version quadrant_coord quadrant_size_mm
    generator_version recipe_seed control_grid_side biome_id elevation_samples_mm cell_flags].
  split; [split; vm_compute; congruence|]. do 3 (split; [done|]). split_goals.
  - apply mix_xy_u; [lia|]. apply lxor_u; [lia|done|]. apply wrap_u_range. lia.
  - split; vm_compute; congruence.
  - assert (derive_quadrant_biome_id (recipe_world_seed rs) c ∈ DEFAULT_BIOME_IDS) as H by (by apply biome_in_pool).
    unfold DEFAULT_BIOME_IDS in H. rewrite !elem_of_cons, elem_of_nil in H. unfold is_byte, in_u. lia.
  - apply list.Forall_forall. intros e (p & -> & _)%list_elem_of_fmap.
    destruct (authoritative_height_exact (recipe_world_seed rs) (recipe_generator_version rs)
      (Manifest.fx c * 8 + Z.of_nat p.1) (Manifest.fy c * 8 + Z.of_nat p.2)) as [_ H]. unfold in_i. lia.
  - apply list.Forall_forall. intros f (p & -> & _)%list_elem_of_fmap. unfold cell_flags_of.
    destruct (corner_indices 9 p.1 p.2) as [[[i00 i10] i01] i11]. unfold is_byte, in_u.
    match goal with |- 0 <= derive_cell_flags ?a ?b ?d ?e ?f ?g < _ =>
      pose proof (derive_cell_flags_values a b d e f g) end. lia.
Qed.

Section Integrated.
Context (size gen ws : Z) (pool : list Z) (c : Coord).
Context (Hsize : 0 < size < 2 ^ 63) (Hgen : 0 < gen < 2 ^ 32) (Hws : in_u 64 ws) (Hpool : are_bytes pool).
Context (Hlattice : lattice_ok c).
Let t : TerrainAuthorityContractV1 := integrated size gen ws pool c.
Let rs : TerrainRecipeV1Settings :=
  {| recipe_quadrant_size_mm := size; recipe_generator_version := gen; recipe_world_seed := ws |}.

Lemma rs_ok : settings_ok rs.
Proof. split; cbn; lia. Qed.

Lemma integrated_valid : terrain_validate t = Ok tt.
Proof. unfold t, integrated. rewrite validate_with_biome. apply carved_valid, generated_valid, rs_ok. Qed.

Lemma lattice_coord_ok : Manifest.coord_fields_ok c.
Proof. destruct Hlattice as (Hx & _ & Hy & _). unfold Manifest.coord_fields_ok, in_i in *. lia. Qed.

Lemma pool_biome_byte : is_byte (pool_biome ws pool c).
Proof.
  unfold pool_biome. destruct (decide (pool = [])) as [|Hne].
  - assert (derive_quadrant_biome_id ws c ∈ DEFAULT_BIOME_IDS) as H by (by apply biome_in_pool).
    unfold DEFAULT_BIOME_IDS in H. rewrite !elem_of_cons, elem_of_nil in H. unfold is_byte, in_u. lia.
  - exact (proj1 (list.Forall_forall _ _) Hpool _ (biome_in_pool ws c pool Hne)).
Qed.

Lemma integrated_fields_ok : terrain_fields_ok t.
Proof.
  apply carved_fields_ok; [|apply pool_biome_byte]. apply generated_fields_ok.
  - cbn. unfold in_i. lia.
  - cbn. unfold in_u. lia.
  - apply lattice_coord_ok.
  - done.
Qed.

Lemma integrated_matches : terrain_matches (hydrology_settings gen ws) t.
Proof.
  unfold t, integrated. apply matches_with_biome, carved_matches; [apply generated_valid, rs_ok|].
  apply generated_dry, rs_ok.
Qed.

Lemma integrated_water :
  generate_water_surface_presentation_v1 (hydrology_settings gen ws) t =
  Ok (shown_surface (hydrology_settings gen ws) t).
Proof.
  apply generate_water_Ok. split_goals; [exact integrated_valid|cbn; lia|done|exact Hlattice|
    exact integrated_matches|done].
Qed.

Lemma integrated_water_fields_ok : water_fields_ok (shown_surface (hydrology_settings gen ws) t).
Proof.
  unfold water_fields_ok, shown_surface; cbn [water_version water_quadrant_coord
    water_terrain_generator_version hydrology_generator_version water_control_grid_side samples].
  change (quadrant_coord t) with c. change (generator_version t) with gen. change (control_grid_side t) with 9.
  assert (Forall sample_fields_ok (map (fun p => shown (vertex_water (hydrology_settings gen ws) c (side_of t) p))
    (grid_points (side_of t)))) as Hs.
  { apply list.Forall_forall. intros sm (p & -> & _)%list_elem_of_fmap. unfold vertex_water. cbv zeta.
    pose proof (water_surface_in_range (hydrology_settings gen ws) (global_vertex c (side_of t) p).1
      (global_vertex c (side_of t) p).2) as H.
    revert H. generalize (water_at (hydrology_settings gen ws) (global_vertex c (side_of t) p).1
      (global_vertex c (side_of t) p).2) as w. intros w. unfold sample_fields_ok.
    destruct (hydro_kind w) eqn:Ek.
    - intros ->. cbn. unfold in_i. lia.
    - intros (s & Hs & ->). unfold shown, in_i in *; cbn. lia.
    - intros (s & Hs & ->). unfold shown, in_i in *; cbn. lia. }
  pose proof lattice_coord_ok. cbn [hydro_generator_version hydrology_settings].
  unfold in_u in *. split_goals; (done || lia).
Qed.

Context (blake3_hash : list Z -> list Z).
Context (Hhash : forall bs, are_bytes (blake3_hash bs) /\ length (blake3_hash bs) = 32%nat).

Lemma integrated_policy :
  generate_environment_presentation_policy_v1 blake3_hash ws t = Ok (derived_policy blake3_hash ws t).
Proof.
  apply generate_policy_Ok; [apply Hhash|]. split_goals; [exact integrated_valid| |done].
  destruct Hlattice as (Hx & Hx8 & Hy & Hy8). unfold cells_in_range.
  change (control_grid_side t) with 9. change (quadrant_coord t) with c. unfold in_i in *. lia.
Qed.

Lemma derive_mask_u flags m : in_u 16 (derive_allowed_family_mask flags m).
Proof. unfold derive_allowed_family_mask, in_u. repeat case_match; vm_compute; split; congruence. Qed.

Lemma integrated_policy_fields_ok : environment_fields_ok (derived_policy blake3_hash ws t).
Proof.
  unfold environment_fields_ok, derived_policy; cbn [policy_version policy_quadrant_coord terrain_generator_version
    policy_generator_version policy_seed policy_control_grid_side cell_family_masks].
  change (quadrant_coord t) with c. change (generator_version t) with gen. change (control_grid_side t) with 9.
  assert (in_u 64 (derive_environment_policy_seed blake3_hash ws t)) as Hseed.
  { unfold derive_environment_policy_seed, digest_prefix_u64. destruct (Hhash (POLICY_SEED_DOMAIN ++ to_le 8 ws ++
      to_le 4 (generator_version t) ++ to_le 4 LAB_ENVIRONMENT_POLICY_GENERATOR_VERSION ++ to_le 8 (recipe_seed t) ++
      to_le 8 (Manifest.fx (quadrant_coord t)) ++ to_le 8 (Manifest.fy (quadrant_coord t)))) as [Hb Hl].
    apply from_le_slice_range; [done|lia|rewrite Hl; lia|done]. }
  assert (Forall (in_u 16) (map (cell_mask blake3_hash ws t) (grid_points (Z.to_nat (9 - 1))))) as Hm.
  { apply list.Forall_forall. intros m (p & -> & _)%list_elem_of_fmap. apply derive_mask_u. }
  pose proof lattice_coord_ok. change LAB_ENVIRONMENT_POLICY_GENERATOR_VERSION with 1.
  unfold in_u in *. split_goals; (done || lia).
Qed.
End Integrated.

(** ** What is told about a quadrant *)

Section Revealed.
Context (blake3_hash : list Z -> list Z) (blake3_keyed : list Z -> list Z -> list Z) (cfg : SchedulerConfig).

Definition of_fqc (c : Coord) : QuadrantCoord := mk_coord (Manifest.fx c) (Manifest.fy c).

Lemma identity_matches_true c i :
  i = ident blake3_keyed cfg (id_coord i) ->
  identity_matches cfg c i = true <-> i = ident blake3_keyed cfg (of_fqc c).
Proof.
  intros Hi. unfold identity_matches. rewrite !andb_true_iff, !bool_decide_eq_true. split.
  - intros [[_ Hx] Hy]. rewrite Hi. f_equal. unfold of_fqc. rewrite <- Hx, <- Hy. by destruct (id_coord i).
  - intros ->. done.
Qed.

Lemma find_retained_Some c retained a :
  find_retained cfg retained c = Some a -> exists i, (i, a) ∈ retained /\ identity_matches cfg c i = true.
Proof.
  induction retained as [|[i b] retained IH]; cbn; [done|]. destruct (identity_matches cfg c i) eqn:E.
  - intros [= ->]. exists i. split; [by left|done].
  - intros (j & Hj & Hm)%IH. exists j. split; [by right|done].
Qed.

Lemma find_retained_None c retained i a :
  find_retained cfg retained c = None -> (i, a) ∈ retained -> identity_matches cfg c i = false.
Proof.
  induction retained as [|[j b] retained IH]; cbn; [by intros _ ?%elem_of_nil|].
  destruct (identity_matches cfg c j) eqn:E; [done|].
  intros H [[= -> ->]|Hin]%elem_of_cons; [done|by apply IH].
Qed.

(** The order of the store's entries does not matter. *)
Lemma find_retained_lookup c retained (store : Retained) :
  retained ≡ₚ map_to_list store -> (forall i a, store !! i = Some a -> i = ident blake3_keyed cfg (id_coord i)) ->
  find_retained cfg retained c = store !! ident blake3_keyed cfg (of_fqc c).
Proof.
  intros Hperm Hstore. destruct (find_retained cfg retained c) as [a|] eqn:E; symmetry.
  - apply find_retained_Some in E as (i & Hin & Hm). rewrite Hperm, elem_of_map_to_list in Hin.
    apply identity_matches_true in Hm; [by subst|by eapply Hstore].
  - apply eq_None_not_Some. intros [a Ha].
    assert (identity_matches cfg c (ident blake3_keyed cfg (of_fqc c)) = false) as Hf.
    { eapply find_retained_None; [done|]. by rewrite Hperm, elem_of_map_to_list. }
    rewrite (proj2 (identity_matches_true c _ eq_refl) eq_refl) in Hf. done.
Qed.

Definition public_settings_ok : Prop :=
  0 < cfg_quadrant_size_mm cfg < 2 ^ 63 /\ 0 < cfg_generator_version cfg < 2 ^ 32 /\ are_bytes (cfg_biome_ids cfg).

(** BLAKE3 gives 32 bytes. *)
Definition hashes_ok : Prop :=
  (forall bs, are_bytes (blake3_hash bs) /\ length (blake3_hash bs) = 32%nat) /\
  (forall k bs, are_bytes (blake3_keyed k bs) /\ length (blake3_keyed k bs) = 32%nat).

Abbreviation ws := (public_world_seed blake3_keyed cfg).

Lemma public_world_seed_u : hashes_ok -> in_u 64 ws.
Proof.
  intros [_ Hk]. unfold public_world_seed, terrain_world_seed_v1, Seeds.quadrant_seed.
  match goal with |- in_u _ (from_le (slice (blake3_keyed ?k ?m) _ _)) => destruct (Hk k m) as [Hb Hl] end.
  apply from_le_slice_range; [done|lia|rewrite Hl; lia|done].
Qed.

(** The terrain of a quadrant, by whether its artifact is retained. *)
Definition told_terrain (s : Sys) (c : Coord) : TerrainAuthorityContractV1 :=
  integrated (cfg_quadrant_size_mm cfg) (cfg_generator_version cfg) ws
    (match sys_retained s !! ident blake3_keyed cfg (of_fqc c) with Some _ => cfg_biome_ids cfg | None => [] end) c.

Lemma terrain_told s retained c :
  sys_inv blake3_hash blake3_keyed cfg s -> retained ≡ₚ map_to_list (sys_retained s) ->
  public_settings_ok -> lattice_ok c ->
  terrain_authority_for_revealed blake3_keyed cfg retained c = Ok (told_terrain s c).
Proof.
  intros Hs Hperm (Hsize & Hgen & _) Hc. unfold terrain_authority_for_revealed, told_terrain.
  rewrite (find_retained_lookup c retained (sys_retained s) Hperm).
  2: { intros i a Hi. by destruct (si_retained _ _ _ s Hs i a Hi). }
  destruct (sys_retained s !! _) as [a|] eqn:E.
  - destruct (si_retained _ _ _ s Hs _ _ E) as [_ (p & Hp)]. unfold execute in Hp.
    apply bind_Ok in Hp as (t & Ht & Hp). apply map_err_Ok in Ht.
    apply bind_Ok in Hp as (fp & _ & Hp). apply bind_Ok in Hp as (p' & _ & [= <- _]).
    cbn [id_coord ident id_generator_version] in Ht.
    assert (to_fqc (of_fqc c) = c) as Ec by (by destruct c). rewrite Ec in Ht.
    apply integrate_Ok in Ht as (_ & _ & _ & ->). done.
  - apply map_err_Ok, integrate_Ok. split; [lia|]. split; [lia|done].
Qed.

Lemma pool_told_bytes s c :
  public_settings_ok ->
  are_bytes (match sys_retained s !! ident blake3_keyed cfg (of_fqc c) with Some _ => cfg_biome_ids cfg | None => [] end).
Proof. intros (_ & _ & Hp). destruct (sys_retained s !! _); [done|constructor]. Qed.
End Revealed.

Section Told.
Context (blake3_hash : list Z -> list Z) (blake3_keyed : list Z -> list Z -> list Z) (cfg : SchedulerConfig).
Context (Hhash : hashes_ok blake3_hash blake3_keyed) (Hcfg : public_settings_ok cfg).
Abbreviation ws := (public_world_seed blake3_keyed cfg).
Abbreviation size := (cfg_quadrant_size_mm cfg).
Abbreviation gen := (cfg_generator_version cfg).

Lemma contracts_told (retained : list (Identity * TerrainAuthorityArtifactV1)) (pool : list Z) (c : Coord)
  (t := integrated size gen ws pool c) :
  lattice_ok c -> terrain_authority_for_revealed blake3_keyed cfg retained c = Ok t ->
  presentation_contracts_with_water_for_revealed blake3_hash blake3_keyed cfg retained c =
  Ok (t, derived_policy blake3_hash ws t, shown_surface (hydrology_settings gen ws) t).
Proof.
  intros Hc Ht. destruct Hcfg as (Hsize & Hgen & _). destruct Hhash as [Hh _].
  pose proof (public_world_seed_u blake3_hash blake3_keyed cfg Hhash) as Hws.
  pose proof (integrated_policy size gen ws pool c Hsize Hgen Hc blake3_hash Hh) as Hp.
  pose proof (integrated_water size gen ws pool c Hsize Hgen Hc) as Hw.
  pose proof (integrated_valid size gen ws pool c Hsize Hgen) as Hv. fold t in Hp, Hw, Hv.
  destruct (side_facts t Hv) as ((Hs2 & _) & Hside & Hel & Hfl).
  unfold presentation_contracts_with_water_for_revealed, presentation_contracts_for_revealed.
  rewrite Ht. cbn [mbind result_bind].
  assert (environment_presentation_policy_v1 blake3_hash (artifact_from_contract blake3_hash t) ws =
    Ok (derived_policy blake3_hash ws t)) as -> by exact Hp.
  cbn [map_err mbind result_bind]. rewrite decide_False.
  2: { intros [H|[H|[H|H]]]; [by apply H..|]. apply H. cbn [derived_policy cell_family_masks].
    rewrite length_map, length_grid_points, Hfl, Hside. nia. }
  cbn [mbind result_bind]. fold (hydrology_settings gen ws). rewrite Hw. cbn [map_err mbind result_bind].
  rewrite decide_False.
  2: { intros [H|[H|[H|[H|H]]]]; [by apply H..|]. apply H. cbn [shown_surface samples].
    by rewrite length_map, length_grid_points, Hel. }
  rewrite decide_False; [done|]. intros [H|[H|H]]; by apply H.
Qed.

Lemma serialized_told (pool : list Z) (c : Coord) (t := integrated size gen ws pool c) :
  lattice_ok c -> are_bytes pool ->
  exists e, serialize t (derived_policy blake3_hash ws t) (shown_surface (hydrology_settings gen ws) t) = Ok e /\
    terrain_decode_wire (terrain_payload e) = Ok t /\
    environment_decode_wire (environment_payload e) = Ok (derived_policy blake3_hash ws t) /\
    water_decode_wire (water_payload e) = Ok (shown_surface (hydrology_settings gen ws) t).
Proof.
  intros Hc Hpool. destruct Hcfg as (Hsize & Hgen & _). destruct Hhash as [Hh _].
  pose proof (public_world_seed_u blake3_hash blake3_keyed cfg Hhash) as Hws.
  pose proof (integrated_valid size gen ws pool c Hsize Hgen) as Hv. fold t in Hv.
  pose proof (derived_policy_valid blake3_hash (fun bs => proj1 (Hh bs)) ws t Hv) as Hpv.
  assert (water_validate (shown_surface (hydrology_settings gen ws) t) = Ok tt) as Hwv
    by (apply shown_valid; [done|cbn; lia]).
  eexists. split.
  - unfold serialize. rewrite (encode_validated (ValidatedCodec := terrain_codec)), Hv. cbn [map_err mbind result_bind].
    rewrite environment_encode_spec, Hpv. cbn [map_err mbind result_bind].
    rewrite water_encode_spec, Hwv. cbn [map_err mbind result_bind]. reflexivity.
  - cbn [terrain_payload environment_payload water_payload]. split_goals.
    + apply (decode_body (ValidatedCodec := terrain_codec)); [|done].
      by apply integrated_fields_ok.
    + apply (decode_body (ValidatedCodec := environment_codec)); [|done].
      by apply integrated_policy_fields_ok.
    + apply (decode_body (ValidatedCodec := water_codec)); [|done].
      by apply integrated_water_fields_ok.
Qed.
End Told.

(** C13: clients are told the same, consistent world.  In every state the
    preparation of quadrants can reach, and in whatever order the store of
    artifacts is searched, the three contracts of any quadrant on the lattice
    exist, pass the server's own consistency checks, carry the quadrant's
    coordinate and decode on the client to exactly what was encoded; and, apart
    from the biome, the terrain does not depend on whether the quadrant was
    prepared in the background or is generated on demand.  The biome does: it
    comes from the configured pool only for prepared quadrants. *)
Theorem revealed_contracts_consistent (blake3_hash : list Z -> list Z) (blake3_keyed : list Z -> list Z -> list Z)
  (cfg : SchedulerConfig) (min : QuadrantCoord) (w h rev size : Z) (f : InitialFrontier) (r : FrontierRuntime)
  (s : Sys) (retained : list (Identity * TerrainAuthorityArtifactV1)) (c : Coord) :
  coord_ok min -> 0 <= w -> 0 <= h -> rectangular min w h = Ok f -> 0 <= rev < 2 ^ 64 ->
  runtime_new f rev (cfg_generator_version cfg) size = Ok r ->
  settings_in_range cfg -> 0 <= max_prepared_quadrants (cfg_settings cfg) -> seeds_nonzero blake3_keyed cfg ->
  hashes_ok blake3_hash blake3_keyed -> public_settings_ok cfg ->
  rtc (sys_step blake3_hash blake3_keyed cfg) (sys_init r) s ->
  retained ≡ₚ map_to_list (sys_retained s) -> lattice_ok c ->
  let ws := public_world_seed blake3_keyed cfg in
  exists t p wa e,
    presentation_contracts_with_water_for_revealed blake3_hash blake3_keyed cfg retained c = Ok (t, p, wa) /\
    serialize t p wa = Ok e /\ terrain_decode_wire (terrain_payload e) = Ok t /\
    environment_decode_wire (environment_payload e) = Ok p /\ water_decode_wire (water_payload e) = Ok wa /\
    quadrant_coord t = c /\ policy_quadrant_coord p = c /\ water_quadrant_coord wa = c /\
    (exists t0, generate_hydrology_integrated_terrain_authority_v1 (cfg_quadrant_size_mm cfg)
       (cfg_generator_version cfg) ws c [] = Ok t0 /\ forget_biome t = forget_biome t0) /\
    biome_id t = match sys_retained s !! ident blake3_keyed cfg (of_fqc c) with
                 | Some _ => pool_biome ws (cfg_biome_ids cfg) c
                 | None => derive_quadrant_biome_id ws c
                 end.
Proof.
  intros Hmin Hw Hh Hf Hrev Hr Hset Hmax Hseed Hhash Hcfg Hsteps Hperm Hc ws. pose proof Hcfg as (Hsz & Hgen & _).
  pose proof (sys_init_inv blake3_hash blake3_keyed cfg _ _ _ _ _ _ _ Hmin Hw Hh Hf Hrev Hr Hmax) as H0.
  assert (sys_inv blake3_hash blake3_keyed cfg s) as Hs by (eapply sys_steps_inv; [..|exact H0|done]; (done || lia)).
  pose proof (terrain_told blake3_hash blake3_keyed cfg s retained c Hs Hperm Hcfg Hc) as Ht.
  pose proof (pool_told_bytes blake3_keyed cfg s c Hcfg) as Hpool. unfold told_terrain in Ht.
  set (pool := match sys_retained s !! _ with Some _ => _ | None => _ end) in *.
  destruct (serialized_told blake3_hash blake3_keyed cfg Hhash Hcfg pool c Hc Hpool) as (e & He & Hdt & Hde & Hdw).
  pose proof (contracts_told blake3_hash blake3_keyed cfg Hhash Hcfg retained pool c Hc Ht) as Hcon.
  do 4 eexists. do 5 (split; [eassumption|]). do 3 (split; [reflexivity|]). split.
  - eexists. split; [apply integrate_Ok; split; [lia|split; [lia|by split]]|].
    unfold integrated. by rewrite !forget_with_biome.
  - unfold integrated; cbn [with_biome biome_id]. unfold pool. by destruct (sys_retained s !! _).
Qed.

(** ** Example: a quadrant that was never prepared, with a pool of its own. *)

Definition constant_hash (_ : list Z) : list Z := replicate 32 1.
Definition constant_keyed (_ _ : list Z) : list Z := replicate 32 1.

Definition pool_config : SchedulerConfig := {|
  cfg_settings := cfg_settings example_config; cfg_worker := cfg_worker example_config;
  cfg_universe_seed := [5]; cfg_quadrant_size_mm := 64000; cfg_generator_version := 1; cfg_biome_ids := [7] |}.

Lemma constant_hashes_ok : hashes_ok constant_hash constant_keyed.
Proof.
  assert (are_bytes (replicate 32 1) /\ length (replicate 32 1) = 32%nat) as H.
  { split; [|done]. apply Forall_replicate. split; vm_compute; congruence. }
  by split; intros.
Qed.

Lemma revealed_contracts_consistent_witness :
  exists t p wa, presentation_contracts_with_water_for_revealed constant_hash constant_keyed pool_config []
                   (Manifest.mk_fqc 0 0) = Ok (t, p, wa) /\
    quadrant_coord t = Manifest.mk_fqc 0 0 /\ biome_id t = 1 /\ pool_biome 5 (cfg_biome_ids pool_config) (Manifest.mk_fqc 0 0) = 7.
Proof.
  destruct (revealed_contracts_consistent constant_hash constant_keyed pool_config (mk_coord 0 0) 1 1 5 64000
    one_quadrant example_runtime (sys_init example_runtime) [] (Manifest.mk_fqc 0 0))
    as (t & p & wa & e & H & _ & _ & _ & _ & Hq & _ & _ & _ & Hb);
    [split; vm_compute; split; congruence|lia|lia|reflexivity|lia|exact example_runtime_new|
     split; vm_compute; congruence|vm_compute; congruence| |exact constant_hashes_ok| |apply rtc_refl| | |].
  - intros c Hc. by apply Forall_cons_1 in Hc as [? _].
  - unfold public_settings_ok; cbn. split; [lia|split; [lia|]].
    apply list.Forall_cons; split; [split; vm_compute; congruence|constructor].
  - cbn [sys_init sys_retained]. by rewrite map_to_list_empty.
  - unfold lattice_ok, in_i; cbn. lia.
  - exists t, p, wa. split; [exact H|split; [exact Hq|split; [|vm_compute; reflexivity]]].
    rewrite Hb. vm_compute. reflexivity.
Defined.
