(* ===== verification/HydrologyProof.v ===== *)
(** The development aid that moves the initial frontier to where there is water
    ([apps/world-server/src/main.rs], [development_hydrology_proof_frontier]): the
    search of a window of quadrants, and the spawn position in the one selected. *)

From S2P Require Import Prelude Bytes Core Contracts Presentation Noise Terrain Hydrology WaterSurface Frontier Runtime Scheduler PublicContracts.
Import World Presentation.Terrain.

(** ** Keeping the best *)

(** [selected.as_ref().is_none_or(|best| ..)]. *)
Definition keep_better {A} (better : A -> A -> bool) (best : option A) (a : A) : option A :=
  match best with
  | None => Some a
  | Some b => if better a b then Some a else Some b
  end.

Section KeepBetter.
Context {A : Type} (better : A -> A -> bool).
Context (better_irrefl : forall a, better a a = false).
Context (better_trans : forall a b c, better a b = true -> better b c = true -> better a c = true).

Lemma keep_better_spec l : forall best,
  match foldl (keep_better better) best l with
  | None => best = None /\ l = []
  | Some r => (Some r = best \/ r ∈ l) /\ forall a, (Some a = best \/ a ∈ l) -> better a r = false
  end.
Proof.
  induction l as [|x l IH] using rev_ind; intros best; [cbn|rewrite foldl_app; cbn; specialize (IH best)].
  { destruct best as [b|]; [|done]. split; [by left|]. intros a [[= ->]|[]%not_elem_of_nil]. apply better_irrefl. }
  destruct (foldl _ best l) as [r|] eqn:E; cbn.
  - destruct IH as [Hr Hb]. destruct (better x r) eqn:Ex.
    + split; [right; apply elem_of_app; right; by left|]. intros a Ha. destruct (better a x) eqn:Eax; [|done].
      assert (better a r = true) as Har by eauto. destruct Ha as [Ha|[Ha|[Ha|[]%not_elem_of_nil]%elem_of_cons]%elem_of_app].
      * by rewrite (Hb a (or_introl Ha)) in Har.
      * by rewrite (Hb a (or_intror Ha)) in Har.
      * subst a. by rewrite better_irrefl in Eax.
    + split; [destruct Hr; [by left|right; apply elem_of_app; by left]|].
      intros a [Ha|[Ha|[->|[]%not_elem_of_nil]%elem_of_cons]%elem_of_app]; auto.
  - destruct IH as [-> ->]. split; [right; by left|]. intros a [?|[->|[]%not_elem_of_nil]%elem_of_cons]; [done|]. apply better_irrefl.
Qed.
End KeepBetter.

(** A loop that looks at each point, and keeps the best of what it finds. *)
Lemma foldM_keep {E A P} (better : A -> A -> bool) (found : P -> option A) (step : option A -> P -> result E (option A)) ps :
  (forall best p, p ∈ ps -> step best p = Ok (match found p with None => best | Some a => keep_better better best a end)) ->
  forall best, foldM step best ps = Ok (foldl (keep_better better) best (omap found ps)).
Proof.
  induction ps as [|p ps IH]; intros Hstep best; cbn; [done|]. rewrite Hstep by (by left). cbn [mbind result_bind].
  rewrite IH by (intros; apply Hstep; by right). by destruct (found p).
Qed.

(** ** The spawn position *)

Inductive ProofError :=
| NoSemanticCells
| ProofIndex
| SpawnSurfaceOverflow
| NoSafeSpawnCell
| SpawnOverflow (part : string)
| ProofDevelopmentOnly
| ProofOverflow (part : string)
| ProofTerrain (e : TerrainIntegrationError)
| NoProofQuadrant
| ProofRectangle (e : InitialFrontierError).

Record SpawnCell := mk_cell { cell_score : Z; cell_y : Z; cell_x : Z; cell_flag : Z; cell_surface : Z }.

(** [(score, local_y, local_x) < (best_score, best_y, best_x)]. *)
Definition cell_before (a b : SpawnCell) : bool := bool_decide
  (cell_score a < cell_score b \/ cell_score a = cell_score b /\
    (cell_y a < cell_y b \/ cell_y a = cell_y b /\ cell_x a < cell_x b)).

Definition spawn_cell_step (t : TerrainAuthorityContractV1) (cell_side : Z) (selected : option SpawnCell) (p : nat * nat)
  : result ProofError (option SpawnCell) :=
  let local_x := Z.of_nat p.1 in
  let local_y := Z.of_nat p.2 in
  let grid_side := control_grid_side t in
  flags ← ok_or ProofIndex (cell_flags t !! Z.to_nat (local_y * cell_side + local_x));
  if has flags TERRAIN_CELL_WATER || negb (has flags TERRAIN_CELL_WALKABLE) then Ok selected
  else
    let i00 := local_y * grid_side + local_x in
    let i10 := i00 + 1 in
    let i01 := i00 + grid_side in
    let i11 := i01 + 1 in
    e00 ← ok_or ProofIndex (elevation_samples_mm t !! Z.to_nat i00);
    e10 ← ok_or ProofIndex (elevation_samples_mm t !! Z.to_nat i10);
    e01 ← ok_or ProofIndex (elevation_samples_mm t !! Z.to_nat i01);
    e11 ← ok_or ProofIndex (elevation_samples_mm t !! Z.to_nat i11);
    surface ← ok_or SpawnSurfaceOverflow (checked_i 32 (Z.quot (e00 + e10 + e01 + e11) 4));
    Ok (keep_better cell_before selected (mk_cell (Z.abs surface) local_y local_x flags surface)).

(** [development_hydrology_proof_spawn_position]: the position, the flags of the cell and its surface. *)
Definition development_hydrology_proof_spawn_position (t : TerrainAuthorityContractV1)
  : result ProofError (WorldPositionMm * Z * Z) :=
  cell_side ← ok_or NoSemanticCells (checked_u 16 (control_grid_side t - 1));
  _ ← forbid (cell_side = 0) NoSemanticCells;
  selected ← foldM (spawn_cell_step t cell_side) None (grid_points (Z.to_nat cell_side));
  cell ← ok_or NoSafeSpawnCell selected;
  let quadrant_size := quadrant_size_mm t in
  let denominator := cell_side * 2 in
  origin_x ← ok_or (SpawnOverflow "quadrant x") (checked_i 128 (Manifest.fx (quadrant_coord t) * quadrant_size));
  origin_y ← ok_or (SpawnOverflow "quadrant y") (checked_i 128 (Manifest.fy (quadrant_coord t) * quadrant_size));
  scaled_x ← ok_or (SpawnOverflow "local x") (checked_i 128 ((cell_x cell * 2 + 1) * quadrant_size));
  let offset_x := Z.quot scaled_x denominator in
  scaled_y ← ok_or (SpawnOverflow "local y") (checked_i 128 ((cell_y cell * 2 + 1) * quadrant_size));
  let offset_y := Z.quot scaled_y denominator in
  x_mm ← ok_or (SpawnOverflow "global x") (checked_i 64 (origin_x + offset_x));
  y_mm ← ok_or (SpawnOverflow "global y") (checked_i 64 (origin_y + offset_y));
  Ok (mk_pos x_mm y_mm (saturating_i64 (cell_surface cell + 300)), cell_flag cell, cell_surface cell).

(** ** The search *)

Definition DEVELOPMENT_HYDROLOGY_PROOF_SEARCH_RADIUS_QUADRANTS : Z := 16.

Record ProofCandidate := {
  pc_target : QuadrantCoord;
  pc_water_cells : Z;
  pc_dry_walkable_cells : Z;
  pc_visual_balance_cells : Z;
  pc_spawn_position : WorldPositionMm;
  pc_spawn_cell_flags : Z;
  pc_spawn_surface_mm : Z
}.

Definition is_water (flags : Z) : Prop := has flags TERRAIN_CELL_WATER = true.
Definition is_dry_walkable (flags : Z) : Prop := has flags TERRAIN_CELL_WATER = false /\ has flags TERRAIN_CELL_WALKABLE = true.
#[global] Instance is_water_dec flags : Decision (is_water flags) := _.
#[global] Instance is_dry_walkable_dec flags : Decision (is_dry_walkable flags) := _.

Definition count_cells (keep : Z -> Prop) `{forall f, Decision (keep f)} (t : TerrainAuthorityContractV1) : Z :=
  Z.of_nat (length (filter keep (cell_flags t))).

(** The comparison of a candidate with the best so far. *)
Definition candidate_better (c best : ProofCandidate) : bool := bool_decide
  ((pc_visual_balance_cells c > pc_visual_balance_cells best \/
    pc_visual_balance_cells c = pc_visual_balance_cells best /\ pc_water_cells c > pc_water_cells best) \/
   (pc_visual_balance_cells c = pc_visual_balance_cells best /\ pc_water_cells c = pc_water_cells best) /\
   (qy (pc_target c) < qy (pc_target best) \/
    qy (pc_target c) = qy (pc_target best) /\ qx (pc_target c) < qx (pc_target best))).

Record DevelopmentHydrologyProofFrontier := { proof_frontier : InitialFrontier; proof_selected : ProofCandidate }.

Section Search.
Context (blake3_keyed : list Z -> list Z -> list Z).

Definition proof_search_step (quadrant_size_mm generator_version world_seed center_x center_y : Z)
  (selected : option ProofCandidate) (offset : Z * Z) : result ProofError (option ProofCandidate) :=
  quadrant_x ← ok_or (ProofOverflow "quadrant x") (checked_i 64 (center_x + offset.1));
  quadrant_y ← ok_or (ProofOverflow "quadrant y") (checked_i 64 (center_y + offset.2));
  terrain ← map_err ProofTerrain (generate_hydrology_integrated_terrain_authority_v1 quadrant_size_mm generator_version
    world_seed (Manifest.mk_fqc quadrant_x quadrant_y) []);
  let water_cells := count_cells is_water terrain in
  let dry_walkable_cells := count_cells is_dry_walkable terrain in
  if decide (water_cells = 0 \/ dry_walkable_cells = 0) then Ok selected
  else
    match development_hydrology_proof_spawn_position terrain with
    | Err _ => Ok selected
    | Ok (position, flags, surface) =>
        Ok (keep_better candidate_better selected {|
          pc_target := mk_coord quadrant_x quadrant_y; pc_water_cells := water_cells;
          pc_dry_walkable_cells := dry_walkable_cells; pc_visual_balance_cells := Z.min water_cells dry_walkable_cells;
          pc_spawn_position := position; pc_spawn_cell_flags := flags; pc_spawn_surface_mm := surface |})
    end.

(** The two loops, over [offset_y] and then [offset_x]. *)
Definition search_offsets : list (Z * Z) :=
  let side := range_inclusive (- DEVELOPMENT_HYDROLOGY_PROOF_SEARCH_RADIUS_QUADRANTS)
                DEVELOPMENT_HYDROLOGY_PROOF_SEARCH_RADIUS_QUADRANTS in
  offset_y ← side; (fun offset_x => (offset_x, offset_y)) <$> side.

Definition development_hydrology_proof_frontier (development requested : bool) (configured : InitialFrontier)
  (universe_seed : list Z) (quadrant_size_mm generator_version : Z) : result ProofError (option DevelopmentHydrologyProofFrontier) :=
  if negb requested then Ok None else
  _ ← forbid (development = false) ProofDevelopmentOnly;
  let half_width := Z.quot (width configured) 2 in
  let half_height := Z.quot (height configured) 2 in
  center_x ← ok_or (ProofOverflow "center x") (checked_i 64 (qx (min_coord configured) + half_width));
  center_y ← ok_or (ProofOverflow "center y") (checked_i 64 (qy (min_coord configured) + half_height));
  let world_seed := terrain_world_seed_v1 blake3_keyed universe_seed in
  selected ← foldM (proof_search_step quadrant_size_mm generator_version world_seed center_x center_y) None search_offsets;
  best ← ok_or NoProofQuadrant selected;
  min_x ← ok_or (ProofOverflow "min x") (checked_i 64 (qx (pc_target best) - half_width));
  min_y ← ok_or (ProofOverflow "min y") (checked_i 64 (qy (pc_target best) - half_height));
  frontier ← map_err ProofRectangle (rectangular (mk_coord min_x min_y) (width configured) (height configured));
  Ok (Some {| proof_frontier := frontier; proof_selected := best |}).

End Search.

(** ** What the spawn position is *)

(** The mean height of the corners of a cell. *)
Definition cell_surface_mm (t : TerrainAuthorityContractV1) (p : nat * nat) : Z :=
  let side := Z.to_nat (control_grid_side t) in
  let height x y := sample_at (elevation_samples_mm t) (y * side + x)%nat in
  Z.quot (height p.1 p.2 + height (S p.1) p.2 + height p.1 (S p.2) + height (S p.1) (S p.2)) 4.

(** A cell on which a character may be put, as the search records it. *)
Definition spawn_cell (t : TerrainAuthorityContractV1) (p : nat * nat) : option SpawnCell :=
  flags ← cell_flags t !! (p.2 * (Z.to_nat (control_grid_side t) - 1) + p.1)%nat;
  if decide (is_dry_walkable flags)
  then Some (mk_cell (Z.abs (cell_surface_mm t p)) (Z.of_nat p.2) (Z.of_nat p.1) flags (cell_surface_mm t p)) else None.

(** The centre of a cell of a quadrant, along one axis. *)
Definition cell_centre (coord size cells i : Z) : Z := coord * size + (2 * i + 1) * size / (2 * cells).

(** The position, flags and surface are those of the first cell, row by row, whose surface is the nearest to zero. *)
Definition spawn_at (t : TerrainAuthorityContractV1) (r : WorldPositionMm * Z * Z) : Prop :=
  let cells := control_grid_side t - 1 in
  let c := quadrant_coord t in
  exists p cell, p ∈ grid_points (Z.to_nat cells) /\ spawn_cell t p = Some cell /\
    (forall p' cell', p' ∈ grid_points (Z.to_nat cells) -> spawn_cell t p' = Some cell' -> cell_before cell' cell = false) /\
    r = (mk_pos (cell_centre (Manifest.fx c) (quadrant_size_mm t) cells (cell_x cell))
                (cell_centre (Manifest.fy c) (quadrant_size_mm t) cells (cell_y cell)) (cell_surface cell + 300),
         cell_flag cell, cell_surface cell).

Section Spawn.
Context (t : TerrainAuthorityContractV1) (Hvalid : terrain_validate t = Ok tt) (Hfields : terrain_fields_ok t).

Lemma cell_index_lt p : p ∈ grid_points (Z.to_nat (control_grid_side t - 1)) ->
  (p.1 < Z.to_nat (control_grid_side t) - 1)%nat /\ (p.2 < Z.to_nat (control_grid_side t) - 1)%nat.
Proof. destruct p as [x y]. intros [? ?]%elem_of_grid_points. cbn. lia. Qed.

Lemma elevation_at x y : (x < Z.to_nat (control_grid_side t))%nat -> (y < Z.to_nat (control_grid_side t))%nat ->
  elevation_samples_mm t !! (y * Z.to_nat (control_grid_side t) + x)%nat =
    Some (sample_at (elevation_samples_mm t) (y * Z.to_nat (control_grid_side t) + x)%nat) /\
  in_i 32 (sample_at (elevation_samples_mm t) (y * Z.to_nat (control_grid_side t) + x)%nat).
Proof.
  intros Hx Hy. apply terrain_validate_Ok in Hvalid as (_ & _ & _ & Hside & Hlen & _).
  destruct Hfields as (_ & _ & _ & _ & _ & _ & _ & He & _). unfold sample_at.
  destruct (elevation_samples_mm t !! _) as [e|] eqn:E.
  - split; [done|]. cbn. eapply list.Forall_lookup in He; [exact He|exact E].
  - exfalso. apply lookup_ge_None in E. set (side := Z.to_nat (control_grid_side t)) in *.
    replace (control_grid_side t) with (Z.of_nat side) in Hlen by lia.
    assert (length (elevation_samples_mm t) = side * side)%nat by (apply Nat2Z.inj; rewrite Nat2Z.inj_mul; exact Hlen). nia.
Qed.

Lemma cell_surface_range p : p ∈ grid_points (Z.to_nat (control_grid_side t - 1)) -> in_i 32 (cell_surface_mm t p).
Proof.
  intros [Hx Hy]%cell_index_lt. unfold cell_surface_mm.
  pose proof (proj2 (elevation_at p.1 p.2 ltac:(lia) ltac:(lia))). pose proof (proj2 (elevation_at (S p.1) p.2 ltac:(lia) ltac:(lia))).
  pose proof (proj2 (elevation_at p.1 (S p.2) ltac:(lia) ltac:(lia))). pose proof (proj2 (elevation_at (S p.1) (S p.2) ltac:(lia) ltac:(lia))).
  unfold in_i in *. Z.to_euclidean_division_equations. lia.
Qed.

Lemma spawn_cell_step_keeps p selected : p ∈ grid_points (Z.to_nat (control_grid_side t - 1)) ->
  spawn_cell_step t (control_grid_side t - 1) selected p =
  Ok (match spawn_cell t p with None => selected | Some cell => keep_better cell_before selected cell end).
Proof.
  intros Hp. pose proof (cell_surface_range p Hp) as Hs. apply cell_index_lt in Hp as [Hx Hy].
  pose proof Hvalid as (_ & _ & _ & Hside & Hlen & Hflags & _)%terrain_validate_Ok.
  unfold spawn_cell_step, spawn_cell. set (side := Z.to_nat (control_grid_side t)) in *.
  replace (control_grid_side t) with (Z.of_nat side) by lia.
  replace (Z.to_nat (Z.of_nat p.2 * (Z.of_nat side - 1) + Z.of_nat p.1)) with (p.2 * (side - 1) + p.1)%nat by nia.
  destruct (cell_flags t !! _) as [f|] eqn:Ef.
  2: { exfalso. apply lookup_ge_None in Ef. assert (length (cell_flags t) = (side - 1) * (side - 1))%nat by (apply Nat2Z.inj; rewrite Nat2Z.inj_mul, Nat2Z.inj_sub by lia; unfold len in *; rewrite Hflags; subst side; lia). nia. }
  cbn [ok_or mbind result_bind option_bind].
  destruct (decide (is_dry_walkable f)) as [[Ew Ek]|Hd].
  2: { replace (has f TERRAIN_CELL_WATER || negb (has f TERRAIN_CELL_WALKABLE)) with true; [done|].
       unfold is_dry_walkable in Hd. destruct (has f TERRAIN_CELL_WATER), (has f TERRAIN_CELL_WALKABLE); naive_solver. }
  rewrite Ew, Ek. cbn [orb negb].
  replace (Z.to_nat (Z.of_nat p.2 * Z.of_nat side + Z.of_nat p.1)) with (p.2 * side + p.1)%nat by nia.
  replace (Z.to_nat (Z.of_nat p.2 * Z.of_nat side + Z.of_nat p.1 + 1)) with (p.2 * side + S p.1)%nat by nia.
  replace (Z.to_nat (Z.of_nat p.2 * Z.of_nat side + Z.of_nat p.1 + Z.of_nat side)) with (S p.2 * side + p.1)%nat by nia.
  replace (Z.to_nat (Z.of_nat p.2 * Z.of_nat side + Z.of_nat p.1 + Z.of_nat side + 1)) with (S p.2 * side + S p.1)%nat by nia.
  unfold side. rewrite (proj1 (elevation_at p.1 p.2 ltac:(lia) ltac:(lia))), (proj1 (elevation_at (S p.1) p.2 ltac:(lia) ltac:(lia))).
  rewrite (proj1 (elevation_at p.1 (S p.2) ltac:(lia) ltac:(lia))), (proj1 (elevation_at (S p.1) (S p.2) ltac:(lia) ltac:(lia))).
  cbn [ok_or mbind result_bind]. unfold cell_surface_mm in *. cbv zeta in Hs.
  by rewrite checked_i_in by exact Hs.
Qed.

Lemma cell_before_irrefl a : cell_before a a = false.
Proof. unfold cell_before. rewrite bool_decide_eq_false. lia. Qed.

Lemma cell_before_trans a b c : cell_before a b = true -> cell_before b c = true -> cell_before a c = true.
Proof. unfold cell_before. rewrite !bool_decide_eq_true. lia. Qed.

(** The centre of a cell is in the quadrant. *)
Lemma cell_centre_range coord size cells i : 0 < size -> 0 <= i < cells ->
  coord * size <= cell_centre coord size cells i < (coord + 1) * size.
Proof.
  intros Hs Hi. unfold cell_centre. assert (0 <= (2 * i + 1) * size / (2 * cells) < size); [|lia].
  split; [apply Z.div_pos; nia|]. apply Z.div_lt_upper_bound; nia.
Qed.

Lemma cell_centre_div coord size cells i : 0 < size -> 0 <= i < cells -> cell_centre coord size cells i / size = coord.
Proof.
  intros Hs Hi. pose proof (cell_centre_range coord size cells i Hs Hi). symmetry.
  apply (Z.div_unique_pos _ _ _ (cell_centre coord size cells i - coord * size)); lia.
Qed.

Lemma cell_centre_quot coord size cells i : 0 < size -> 0 <= i < cells ->
  coord * size + Z.quot ((i * 2 + 1) * size) (cells * 2) = cell_centre coord size cells i.
Proof. intros Hs Hi. rewrite Z.quot_div_nonneg by nia. unfold cell_centre. do 2 f_equal; lia. Qed.

Lemma spawn_at_quadrant r f s : spawn_at t (r, f, s) ->
  World.quadrant_coord r (quadrant_size_mm t) = mk_coord (Manifest.fx (quadrant_coord t)) (Manifest.fy (quadrant_coord t)).
Proof.
  intros (p & cell & Hp & Hcell & _ & E). apply (f_equal (fun x => x.1.1)) in E. cbn [fst] in E. subst r.
  apply cell_index_lt in Hp as [Hpx Hpy]. pose proof Hvalid as (_ & Hsize & _ & Hside & _)%terrain_validate_Ok.
  assert (cell_x cell = Z.of_nat p.1 /\ cell_y cell = Z.of_nat p.2) as [Ex Ey].
  { unfold spawn_cell in Hcell. destruct (_ !! _); [|done]. cbn [mbind option_bind] in Hcell. case_decide; [|done].
    by injection Hcell as <-. }
  unfold World.quadrant_coord. cbn [px py]. by rewrite !div_euclid_pos, !cell_centre_div by (done || lia).
Qed.

Lemma spawn_at_range r f s : spawn_at t (r, f, s) ->
  Z.abs (px r) <= (Z.abs (Manifest.fx (quadrant_coord t)) + 1) * quadrant_size_mm t /\
  Z.abs (py r) <= (Z.abs (Manifest.fy (quadrant_coord t)) + 1) * quadrant_size_mm t /\ in_i 64 (pz r).
Proof.
  intros (p & cell & Hp & Hcell & _ & E). apply (f_equal (fun x => x.1.1)) in E. cbn [fst] in E. subst r.
  pose proof (cell_surface_range p Hp) as Hsurf. apply cell_index_lt in Hp as [Hpx Hpy].
  pose proof Hvalid as (_ & Hsize & _ & Hside & _)%terrain_validate_Ok.
  assert (cell_x cell = Z.of_nat p.1 /\ cell_y cell = Z.of_nat p.2 /\ cell_surface cell = cell_surface_mm t p) as (Ex & Ey & Es).
  { unfold spawn_cell in Hcell. destruct (_ !! _); [|done]. cbn [mbind option_bind] in Hcell. case_decide; [|done].
    by injection Hcell as <-. }
  cbn [px py pz].
  pose proof (cell_centre_range (Manifest.fx (quadrant_coord t)) (quadrant_size_mm t) (control_grid_side t - 1) (cell_x cell) Hsize ltac:(lia)).
  pose proof (cell_centre_range (Manifest.fy (quadrant_coord t)) (quadrant_size_mm t) (control_grid_side t - 1) (cell_y cell) Hsize ltac:(lia)).
  rewrite Es. unfold in_i in *. split; [nia|]. split; [nia|]. lia.
Qed.

Context (Hfar : let c := quadrant_coord t in
  (Z.abs (Manifest.fx c) + 1) * quadrant_size_mm t < 2 ^ 63 /\ (Z.abs (Manifest.fy c) + 1) * quadrant_size_mm t < 2 ^ 63).

(** Away from the ends of the world, there is a spawn position exactly when there is a cell for it. *)
Lemma proof_spawn_position_spec :
  match development_hydrology_proof_spawn_position t with
  | Ok r => spawn_at t r
  | Err e => e = NoSafeSpawnCell /\ forall p, p ∈ grid_points (Z.to_nat (control_grid_side t - 1)) -> spawn_cell t p = None
  end.
Proof.
  pose proof Hvalid as (_ & Hsize & _ & Hside & _)%terrain_validate_Ok. destruct Hfar as [Hfx Hfy].
  unfold development_hydrology_proof_spawn_position. rewrite checked_u_in by (unfold in_u; lia). cbn [ok_or mbind result_bind].
  unfold forbid. rewrite decide_False by lia.
  rewrite (foldM_keep cell_before (spawn_cell t)) by (intros; by apply spawn_cell_step_keeps). cbn [mbind result_bind].
  pose proof (keep_better_spec cell_before cell_before_irrefl cell_before_trans (omap (spawn_cell t)
    (grid_points (Z.to_nat (control_grid_side t - 1)))) None) as Hbest.
  destruct (foldl _ None _) as [cell|]; cbn [ok_or mbind result_bind].
  - destruct Hbest as [[?|(p & Hp & Hcell)%list_elem_of_omap] Hmin]; [done|].
    assert (0 <= cell_x cell < control_grid_side t - 1 /\ 0 <= cell_y cell < control_grid_side t - 1 /\
      cell_surface cell = cell_surface_mm t p) as (Hx & Hy & Hsurf).
    { apply cell_index_lt in Hp as [? ?]. unfold spawn_cell in Hcell. destruct (_ !! _); [|done]. cbn in Hcell.
      case_decide; [|done]. injection Hcell as <-. cbn. lia. }
    pose proof (cell_surface_range p Hp) as Hsr. unfold in_i in Hsr.
    pose proof (cell_centre_range (Manifest.fx (quadrant_coord t)) _ _ _ Hsize Hx) as Hcx.
    pose proof (cell_centre_range (Manifest.fy (quadrant_coord t)) _ _ _ Hsize Hy) as Hcy.
    assert (quadrant_size_mm t < 2 ^ 63) by nia.
    assert (forall i n, 0 <= i < n -> n <= 64 -> in_i 128 ((i * 2 + 1) * quadrant_size_mm t)) as Hscaled.
    { intros i n Hi Hn. unfold in_i. change (2 ^ (128 - 1)) with (2 ^ 64 * 2 ^ 63). nia. }
    assert (forall a b, - b < a < b -> b <= 2 ^ 63 -> in_i 128 a) as H128.
    { intros a b ? ?. unfold in_i. change (2 ^ (128 - 1)) with (2 ^ 64 * 2 ^ 63). lia. }
    rewrite (checked_i_in 128 (Manifest.fx _ * _)) by (apply (H128 _ (2 ^ 63)); nia). cbn [ok_or mbind result_bind].
    rewrite (checked_i_in 128 (Manifest.fy _ * _)) by (apply (H128 _ (2 ^ 63)); nia). cbn [ok_or mbind result_bind].
    rewrite (checked_i_in 128 ((cell_x _ * _ + _) * _)) by (eapply Hscaled; [done|lia]). cbn [ok_or mbind result_bind].
    rewrite (checked_i_in 128 ((cell_y _ * _ + _) * _)) by (eapply Hscaled; [done|lia]). cbn [ok_or mbind result_bind].
    rewrite !cell_centre_quot by done.
    rewrite (checked_i_in 64 (cell_centre (Manifest.fx _) _ _ _)) by (unfold in_i; nia). cbn [ok_or mbind result_bind].
    rewrite (checked_i_in 64 (cell_centre (Manifest.fy _) _ _ _)) by (unfold in_i; nia). cbn [ok_or mbind result_bind].
    rewrite saturating_i64_id by (unfold in_i; lia).
    exists p, cell. split; [done|]. split; [done|]. split.
    + intros p' cell' Hp' Hc'. apply Hmin. right. apply list_elem_of_omap. by exists p'.
    + done.
  - destruct Hbest as [_ Hnil]. split; [done|]. intros p Hp. destruct (spawn_cell t p) as [cell|] eqn:E; [|done].
    assert (cell ∈ omap (spawn_cell t) (grid_points (Z.to_nat (control_grid_side t - 1)))) as Hin
      by (apply list_elem_of_omap; by exists p). rewrite Hnil in Hin. by apply not_elem_of_nil in Hin.
Qed.

End Spawn.

(** ** What the search selects *)

Lemma rectangular_Ok min w h f : 0 <= w /\ 0 <= h ->
  rectangular min w h = Ok f <-> 1 <= w <= 64 /\ 1 <= h <= 64 /\ in_i 64 (qx min + (w - 1)) /\ in_i 64 (qy min + (h - 1)) /\
  f = {| min_coord := min; max_coord := mk_coord (qx min + (w - 1)) (qy min + (h - 1)); width := w; height := h;
         initial_quadrants := rectangle min w h |}.
Proof.
  intros [Hw Hh]. unfold rectangular. split.
  - intros ([] & Ew%validate_dimension_Ok & ([] & Eh%validate_dimension_Ok & (x & Ex%ok_or_Ok & (y & Ey%ok_or_Ok & [= <-])%bind_Ok)%bind_Ok)%bind_Ok)%bind_Ok;
      [|lia..]. apply checked_i_Some in Ex as [-> ?]. apply checked_i_Some in Ey as [-> ?]. unfold MAX_INITIAL_FRONTIER_AXIS in *. naive_solver.
  - intros (Ew & Eh & Hx & Hy & ->). rewrite (proj2 (validate_dimension_Ok "width" w tt Hw)) by (unfold MAX_INITIAL_FRONTIER_AXIS; lia).
    rewrite (proj2 (validate_dimension_Ok "height" h tt Hh)) by (unfold MAX_INITIAL_FRONTIER_AXIS; lia). cbn [mbind result_bind].
    by rewrite !checked_i_in by done.
Qed.

Section SearchCorrect.
Context (blake3_keyed : list Z -> list Z -> list Z) (Hhash : forall k bs, are_bytes (blake3_keyed k bs) /\ length (blake3_keyed k bs) = 32%nat).
Context (universe_seed : list Z) (size gen : Z) (Hsize : 0 < size) (Hgen : 0 < gen < 2 ^ 32).

Abbreviation ws := (terrain_world_seed_v1 blake3_keyed universe_seed).

Lemma world_seed_u : in_u 64 ws.
Proof.
  unfold terrain_world_seed_v1, Seeds.quadrant_seed.
  match goal with |- in_u _ (from_le (slice (blake3_keyed ?k ?m) _ _)) => destruct (Hhash k m) as [Hb Hl] end.
  apply from_le_slice_range; [done|lia|rewrite Hl; lia|done].
Qed.

(** The terrain of a quadrant, and its cells with water and without. *)
Definition terrain_at (c : QuadrantCoord) : TerrainAuthorityContractV1 := integrated size gen ws [] (to_fqc c).
Definition water_at (c : QuadrantCoord) : Z := count_cells is_water (terrain_at c).
Definition dry_at (c : QuadrantCoord) : Z := count_cells is_dry_walkable (terrain_at c).

Lemma terrain_at_size c : quadrant_size_mm (terrain_at c) = size.
Proof. reflexivity. Qed.

Lemma terrain_at_coord c : Presentation.Terrain.quadrant_coord (terrain_at c) = to_fqc c.
Proof. reflexivity. Qed.

(** A quadrant is far enough from the ends of the world for its terrain and for the positions in it. *)
Definition near (c : QuadrantCoord) : Prop :=
  Z.abs (qx c) <= 2 ^ 59 /\ Z.abs (qy c) <= 2 ^ 59 /\ (Z.abs (qx c) + 1) * size <= 2 ^ 61 /\ (Z.abs (qy c) + 1) * size <= 2 ^ 61.

Lemma near_lattice c : near c -> lattice_ok (to_fqc c).
Proof. intros (? & ? & _). unfold lattice_ok, in_i; cbn. lia. Qed.

Lemma near_size c : near c -> size < 2 ^ 63.
Proof. intros (_ & _ & ? & _). nia. Qed.

Lemma terrain_at_valid c : near c -> terrain_validate (terrain_at c) = Ok tt.
Proof. intros Hc. pose proof (near_size c Hc). apply integrated_valid; [lia|done]. Qed.

Lemma terrain_at_fields c : near c -> terrain_fields_ok (terrain_at c).
Proof.
  intros Hc. pose proof (near_size c Hc). apply integrated_fields_ok; [lia|done|apply world_seed_u|constructor|by apply near_lattice].
Qed.

(** A quadrant with water and with dry ground, as the search records it. *)
Definition proof_candidate (c : QuadrantCoord) : option ProofCandidate :=
  if decide (water_at c = 0 \/ dry_at c = 0) then None
  else match development_hydrology_proof_spawn_position (terrain_at c) with
       | Err _ => None
       | Ok (position, flags, surface) => Some {|
           pc_target := c; pc_water_cells := water_at c; pc_dry_walkable_cells := dry_at c;
           pc_visual_balance_cells := Z.min (water_at c) (dry_at c);
           pc_spawn_position := position; pc_spawn_cell_flags := flags; pc_spawn_surface_mm := surface |}
       end.

Lemma spawn_cell_exists t : terrain_validate t = Ok tt -> count_cells is_dry_walkable t <> 0 ->
  exists p, p ∈ grid_points (Z.to_nat (control_grid_side t - 1)) /\ is_Some (spawn_cell t p).
Proof.
  intros (_ & _ & _ & Hside & _ & Hflags & _)%terrain_validate_Ok Hne. unfold count_cells in Hne.
  destruct (filter is_dry_walkable (cell_flags t)) as [|f l] eqn:E; [done|].
  assert (f ∈ filter is_dry_walkable (cell_flags t)) as [Hdry [i Hi]%list_elem_of_lookup]%list_elem_of_filter by (rewrite E; by left).
  pose proof (lookup_lt_Some _ _ _ Hi) as Hlt. set (n := (Z.to_nat (control_grid_side t) - 1)%nat).
  assert (length (cell_flags t) = n * n)%nat as Hlen.
  { apply Nat2Z.inj. rewrite Nat2Z.inj_mul. unfold len in Hflags. rewrite Hflags. subst n. lia. }
  assert (n <> 0)%nat by (subst n; lia). exists (i mod n, i / n)%nat. split.
  - apply elem_of_grid_points. replace (Z.to_nat (control_grid_side t - 1)) with n by lia.
    split; [by apply Nat.mod_upper_bound|]. apply Nat.Div0.div_lt_upper_bound; lia.
  - unfold spawn_cell. cbn [fst snd]. fold n. replace (i / n * n + i mod n)%nat with i by (rewrite (Nat.div_mod_eq i n) at 1; lia).
    rewrite Hi. cbn. rewrite decide_True by done. by eexists.
Qed.

Lemma terrain_at_far c : near c -> let q := Presentation.Terrain.quadrant_coord (terrain_at c) in
  (Z.abs (Manifest.fx q) + 1) * quadrant_size_mm (terrain_at c) < 2 ^ 63 /\
  (Z.abs (Manifest.fy q) + 1) * quadrant_size_mm (terrain_at c) < 2 ^ 63.
Proof. intros (_ & _ & ? & ?). cbn. lia. Qed.

(** What a candidate is. *)
Definition candidate_says (c : QuadrantCoord) (p : ProofCandidate) : Prop :=
  water_at c <> 0 /\ dry_at c <> 0 /\ pc_target p = c /\ pc_water_cells p = water_at c /\ pc_dry_walkable_cells p = dry_at c /\
  pc_visual_balance_cells p = Z.min (water_at c) (dry_at c) /\
  spawn_at (terrain_at c) (pc_spawn_position p, pc_spawn_cell_flags p, pc_spawn_surface_mm p).

Lemma proof_candidate_spec c : near c ->
  match proof_candidate c with
  | Some p => candidate_says c p
  | None => water_at c = 0 \/ dry_at c = 0
  end.
Proof.
  intros Hc. unfold proof_candidate. case_decide as Hd; [done|].
  pose proof (proof_spawn_position_spec (terrain_at c) (terrain_at_valid c Hc) (terrain_at_fields c Hc) (terrain_at_far c Hc)) as Hs.
  destruct (development_hydrology_proof_spawn_position (terrain_at c)) as [[[pos f] s]|e].
  - unfold candidate_says; cbn. naive_solver.
  - destruct Hs as [_ Hno]. destruct (spawn_cell_exists (terrain_at c) (terrain_at_valid c Hc)) as (p & Hp & [cell Hcell]); [naive_solver|].
    by rewrite Hno in Hcell.
Qed.

Lemma proof_search_step_keeps cx cy selected off : near (mk_coord (cx + off.1) (cy + off.2)) ->
  proof_search_step size gen ws cx cy selected off =
  Ok (match proof_candidate (mk_coord (cx + off.1) (cy + off.2)) with
      | None => selected | Some p => keep_better candidate_better selected p end).
Proof.
  intros Hc. pose proof Hc as (Hx & Hy & _). cbn in Hx, Hy. assert (gen <> 0) as Hg by lia. unfold proof_search_step.
  rewrite !checked_i_in by (unfold in_i; lia). cbn [ok_or mbind result_bind].
  rewrite (proj2 (integrate_Ok size gen ws [] (Manifest.mk_fqc (cx + off.1) (cy + off.2)) (terrain_at (mk_coord (cx + off.1) (cy + off.2))))
    (conj Hsize (conj Hg (conj (near_lattice _ Hc) eq_refl)))).
  cbn [map_err mbind result_bind]. unfold proof_candidate, water_at, dry_at. generalize (terrain_at (mk_coord (cx + off.1) (cy + off.2))).
  intros t. case_decide; [done|]. by destruct (development_hydrology_proof_spawn_position t) as [[[pos f] s]|e].
Qed.

Lemma candidate_better_irrefl a : candidate_better a a = false.
Proof. unfold candidate_better. rewrite bool_decide_eq_false. lia. Qed.

Lemma candidate_better_trans a b c : candidate_better a b = true -> candidate_better b c = true -> candidate_better a c = true.
Proof. unfold candidate_better. rewrite !bool_decide_eq_true. lia. Qed.

(** A quadrant with a better balance of water and dry ground, or the same and more water, or the same and before it. *)
Definition ranks_before (c c' : QuadrantCoord) : Prop :=
  let balance c := Z.min (water_at c) (dry_at c) in
  balance c > balance c' \/ balance c = balance c' /\
    (water_at c > water_at c' \/ water_at c = water_at c' /\ (qy c < qy c' \/ qy c = qy c' /\ qx c < qx c')).

Lemma not_better_ranks p p' c c' : candidate_better p' p = false -> candidate_says c p -> candidate_says c' p' -> ~ ranks_before c' c.
Proof.
  unfold candidate_better, candidate_says, ranks_before. rewrite bool_decide_eq_false.
  intros Hnot (_ & _ & Et & Ew & _ & Eb & _) (_ & _ & Et' & Ew' & _ & Eb' & _). rewrite Et, Et', Ew, Ew', Eb, Eb' in Hnot. cbv zeta.
  generalize dependent (water_at c). generalize dependent (water_at c'). generalize dependent (dry_at c). generalize dependent (dry_at c').
  intros. lia.
Qed.

Lemma elem_of_search_offsets off : off ∈ search_offsets <-> Z.abs off.1 <= 16 /\ Z.abs off.2 <= 16.
Proof.
  unfold search_offsets. rewrite list_elem_of_bind. split.
  - intros (dy & (dx & -> & Hx%elem_of_range)%list_elem_of_fmap & Hy%elem_of_range). unfold DEVELOPMENT_HYDROLOGY_PROOF_SEARCH_RADIUS_QUADRANTS in *. cbn. lia.
  - intros [Hx Hy]. exists off.2. split; [|apply elem_of_range; unfold DEVELOPMENT_HYDROLOGY_PROOF_SEARCH_RADIUS_QUADRANTS; lia].
    apply list_elem_of_fmap. exists off.1. split; [by destruct off|].
    apply elem_of_range. unfold DEVELOPMENT_HYDROLOGY_PROOF_SEARCH_RADIUS_QUADRANTS. lia.
Qed.

Lemma spawn_position_range c r f s : near c -> spawn_at (terrain_at c) (r, f, s) ->
  Z.abs (px r) <= 2 ^ 61 /\ Z.abs (py r) <= 2 ^ 61 /\ in_i 64 (pz r).
Proof.
  intros Hc Hs. apply (spawn_at_range _ (terrain_at_valid c Hc) (terrain_at_fields c Hc)) in Hs.
  rewrite terrain_at_size, terrain_at_coord in Hs. destruct Hc as (_ & _ & Hx & Hy), Hs as (Hsx & Hsy & Hz).
  split; [exact (Z.le_trans _ _ _ Hsx Hx)|]. split; [exact (Z.le_trans _ _ _ Hsy Hy)|exact Hz].
Qed.

Context (min : QuadrantCoord) (w h : Z) (configured : InitialFrontier).
Context (Hconfigured : rectangular min w h = Ok configured).
Context (Hrange : 0 <= w /\ 0 <= h).

(** The quadrant in the middle of the configured frontier, and the window of the search. *)
Definition middle : QuadrantCoord := mk_coord (qx min + w / 2) (qy min + h / 2).
Definition in_window (c : QuadrantCoord) : Prop := Z.abs (qx c - qx middle) <= 16 /\ Z.abs (qy c - qy middle) <= 16.
Context (Hnear : forall c, in_window c -> near c).

(** The selected frontier: the configured rectangle, moved so that its middle is the first of the best quadrants of the
    window, with the spawn position in that quadrant. *)
Definition proof_selection (p : DevelopmentHydrologyProofFrontier) : Prop :=
  let target := pc_target (proof_selected p) in
  in_window target /\ candidate_says target (proof_selected p) /\
  (forall c, in_window c -> water_at c <> 0 -> dry_at c <> 0 -> ~ ranks_before c target) /\
  World.quadrant_coord (pc_spawn_position (proof_selected p)) size = target /\
  rectangular (mk_coord (qx target - w / 2) (qy target - h / 2)) w h = Ok (proof_frontier p) /\
  target ∈ initial_quadrants (proof_frontier p).

Lemma spawn_in_quadrant c r f s : near c -> spawn_at (terrain_at c) (r, f, s) -> World.quadrant_coord r size = c.
Proof.
  intros Hc Hs. apply (spawn_at_quadrant _ (terrain_at_valid c Hc)) in Hs. rewrite terrain_at_size, terrain_at_coord in Hs.
  rewrite Hs. by destruct c.
Qed.

Lemma proof_search : exists best,
  foldM (proof_search_step size gen ws (qx middle) (qy middle)) None search_offsets = Ok best /\
  match best with
  | None => forall c, in_window c -> water_at c = 0 \/ dry_at c = 0
  | Some p => in_window (pc_target p) /\ candidate_says (pc_target p) p /\
      forall c, in_window c -> water_at c <> 0 -> dry_at c <> 0 -> ~ ranks_before c (pc_target p)
  end.
Proof.
  pose proof elem_of_search_offsets as Helem. generalize dependent search_offsets. intros offsets Helem.
  set (at_off off := mk_coord (qx middle + off.1) (qy middle + off.2)).
  assert (forall off, off ∈ offsets -> in_window (at_off off)) as Hoff.
  { intros off [? ?]%Helem. unfold in_window, at_off; cbn. lia. }
  rewrite (foldM_keep candidate_better (fun off => proof_candidate (at_off off)))
    by (intros; by apply proof_search_step_keeps, Hnear, Hoff).
  eexists. split; [reflexivity|].
  pose proof (keep_better_spec candidate_better candidate_better_irrefl candidate_better_trans
    (omap (fun off => proof_candidate (at_off off)) offsets) None) as Hbest.
  assert (forall c, in_window c -> exists off, off ∈ offsets /\ at_off off = c) as Hsurj.
  { intros [x y] [Hx Hy]. exists (x - qx middle, y - qy middle). split; [exact (proj2 (Helem (_, _)) (conj Hx Hy))|].
    unfold at_off. cbn. f_equal; lia. }
  assert (forall c, in_window c -> match proof_candidate c with
    | Some p => p ∈ omap (fun off => proof_candidate (at_off off)) offsets | None => True end) as Hall.
  { intros c Hc. destruct (proof_candidate c) as [p|] eqn:E; [|done]. destruct (Hsurj c Hc) as (off & Hin & Hat).
    apply list_elem_of_omap. exists off. by rewrite Hat. }
  destruct (foldl _ None _) as [p|].
  - destruct Hbest as [[Hno|Hfound] Hmax]; [discriminate Hno|].
    apply list_elem_of_omap in Hfound as (off & Hin & Hp).
    pose proof (proof_candidate_spec (at_off off) (Hnear _ (Hoff off Hin))) as Hs. rewrite Hp in Hs.
    pose proof Hs as (_ & _ & Et & Ew & _ & Eb & _). rewrite Et. split; [exact (Hoff off Hin)|]. split; [exact Hs|].
    intros c Hc Hw Hd. pose proof (proof_candidate_spec c (Hnear c Hc)) as Hs'. specialize (Hall c Hc).
    destruct (proof_candidate c) as [p'|]; [|destruct Hs'; contradiction].
    pose proof (Hmax p' (or_intror Hall)) as Hnot. eapply not_better_ranks; [exact Hnot|exact Hs|exact Hs'].
  - destruct Hbest as [_ Hnil]. intros c Hc. pose proof (proof_candidate_spec c (Hnear c Hc)) as Hs. specialize (Hall c Hc).
    destruct (proof_candidate c) as [p'|]; [|exact Hs]. rewrite Hnil in Hall. apply not_elem_of_nil in Hall. contradiction.
Qed.

(** What the development aid gives when it is asked for. *)
Lemma proof_frontier_spec :
  match development_hydrology_proof_frontier blake3_keyed true true configured universe_seed size gen with
  | Ok (Some p) => proof_selection p
  | Ok None => False
  | Err e => e = NoProofQuadrant /\ forall c, in_window c -> water_at c = 0 \/ dry_at c = 0
  end.
Proof.
  pose proof (proj1 (rectangular_Ok _ _ _ _ Hrange) Hconfigured) as (Hw & Hh & _ & _ & Ef).
  assert (0 <= w / 2 <= 32 /\ 0 <= h / 2 <= 32 /\ w / 2 <= w - 1 /\ h / 2 <= h - 1) as Hhalf by (clear - Hw Hh; Z.to_euclidean_division_equations; lia).
  unfold development_hydrology_proof_frontier. cbn [negb]. unfold forbid. rewrite decide_False by done. cbn [mbind result_bind].
  subst configured. cbn [min_coord width height]. rewrite !Z.quot_div_nonneg by lia.
  assert (in_window middle) as Hmid by (unfold in_window; lia). destruct (Hnear _ Hmid) as (Hx & Hy & _). cbn in Hx, Hy.
  rewrite !checked_i_in by (unfold in_i; lia). cbn [ok_or mbind result_bind].
  destruct proof_search as (best & Hsearch & Hbest). unfold middle in Hsearch. cbn [qx qy] in Hsearch.
  rewrite Hsearch. cbn [mbind result_bind]. destruct best as [p|]; cbn [ok_or mbind result_bind]; [|done].
  destruct Hbest as (Hin & Hsays & Hmax). destruct (Hnear _ Hin) as (Htx & Hty & _).
  rewrite !checked_i_in by (unfold in_i; lia). cbn [ok_or mbind result_bind].
  assert (in_i 64 (qx (pc_target p) - w / 2 + (w - 1)) /\ in_i 64 (qy (pc_target p) - h / 2 + (h - 1))) as [Hcx Hcy]
    by (unfold in_i; lia).
  rewrite (proj2 (rectangular_Ok (mk_coord (qx (pc_target p) - w / 2) (qy (pc_target p) - h / 2)) w h _ Hrange)
    (conj Hw (conj Hh (conj Hcx (conj Hcy eq_refl))))).
  cbn [map_err mbind result_bind]. split; [exact Hin|]. split; [exact Hsays|]. split; [exact Hmax|].
  cbn [proof_selected proof_frontier initial_quadrants].
  split; [eapply spawn_in_quadrant; [by apply Hnear|apply Hsays]|]. split.
  - apply (rectangular_Ok _ _ _ _ Hrange). exact (conj Hw (conj Hh (conj Hcx (conj Hcy eq_refl)))).
  - apply elem_of_rectangle. cbn [qx qy]. lia.
Qed.
End SearchCorrect.

(** The development aid that moves the initial frontier to water.  It does nothing unless it is asked for, and is
    refused outside the development environment.  Otherwise, away from the ends of the world: of the 33 by 33 quadrants
    around the middle of the configured frontier it finds the best - the largest number of cells with and without water,
    whichever is smaller, then the most water, then the first row by row -, moves the rectangle so that this quadrant is in
    it, and spawns at the centre of a dry, walkable cell of that quadrant with the surface nearest to zero; it fails only
    when no quadrant of the window has both water and dry walkable ground. *)
Theorem proof_frontier_best blake3_keyed universe_seed size gen min w h configured :
  (forall k bs, are_bytes (blake3_keyed k bs) /\ length (blake3_keyed k bs) = 32%nat) -> 0 < size -> 0 < gen < 2 ^ 32 ->
  rectangular min w h = Ok configured -> 0 <= w /\ 0 <= h -> (forall c, in_window min w h c -> near size c) ->
  match development_hydrology_proof_frontier blake3_keyed true true configured universe_seed size gen with
  | Ok (Some p) => proof_selection blake3_keyed universe_seed size gen min w h p
  | Ok None => False
  | Err e => e = NoProofQuadrant /\ forall c, in_window min w h c ->
      water_at blake3_keyed universe_seed size gen c = 0 \/ dry_at blake3_keyed universe_seed size gen c = 0
  end /\
  forall development, development_hydrology_proof_frontier blake3_keyed development false configured universe_seed size gen = Ok None /\
    development_hydrology_proof_frontier blake3_keyed false true configured universe_seed size gen = Err ProofDevelopmentOnly.
Proof. intros. split; [by apply proof_frontier_spec|]. by intros []. Qed.

(** The shipped frontier and world. *)
Lemma shipped_window c : in_window (mk_coord (-1) (-1)) 4 4 c -> near 64000 c.
Proof. unfold in_window, near, middle. cbn [qx qy]. change (4 / 2) with 2. lia. Qed.

Definition shipped_frontier : InitialFrontier :=
  {| min_coord := mk_coord (-1) (-1); max_coord := mk_coord 2 2; width := 4; height := 4;
     initial_quadrants := rectangle (mk_coord (-1) (-1)) 4 4 |}.

Lemma proof_frontier_best_witness :
  development_hydrology_proof_frontier constant_keyed true true shipped_frontier [1] 64000 1 <> Ok None /\
  development_hydrology_proof_frontier constant_keyed false true shipped_frontier [1] 64000 1 = Err ProofDevelopmentOnly.
Proof.
  destruct (proof_frontier_best constant_keyed [1] 64000 1 (mk_coord (-1) (-1)) 4 4 shipped_frontier (proj2 constant_hashes_ok)
    eq_refl (conj eq_refl eq_refl) eq_refl) as [Hs Hd]; [split; lia|exact shipped_window|].
  split; [|exact (proj2 (Hd true))]. intros E. rewrite E in Hs. exact Hs.
Defined.
