(* ===== verification/Session.v ===== *)
(** Session crate ([crates/session/src]): the phases of one session
    ([state.rs], [intent.rs]), the registry of live sessions with its replay
    window ([registry.rs]) and the bounded ingress towards the simulation
    ([ingress.rs]). *)

From S2P Require Import Prelude Core.
Import Replay.

(** ** One session *)

Inductive SessionPhase := PProtocolAdmitted | PAuthenticated | PCharacterBound | PWorldActive | PClosing.

#[global] Instance SessionPhase_eq_dec : EqDecision SessionPhase.
Proof. solve_decision. Defined.

Record WorldBinding := { wb_account_id : Z; wb_character_id : Z; wb_zone_id : Z }.

Inductive SessionState :=
| ProtocolAdmitted
| Authenticated (account_id : Z)
| CharacterBound (account_id character_id zone_id : Z)
| WorldActive (account_id character_id zone_id : Z)
| Closing.

#[global] Instance SessionState_eq_dec : EqDecision SessionState.
Proof. solve_decision. Defined.

Definition state_phase (s : SessionState) : SessionPhase :=
  match s with
  | ProtocolAdmitted => PProtocolAdmitted
  | Authenticated _ => PAuthenticated
  | CharacterBound _ _ _ => PCharacterBound
  | WorldActive _ _ _ => PWorldActive
  | Closing => PClosing
  end.

Definition state_world_binding (s : SessionState) : option WorldBinding :=
  match s with
  | CharacterBound a c z | WorldActive a c z =>
      Some {| wb_account_id := a; wb_character_id := c; wb_zone_id := z |}
  | ProtocolAdmitted | Authenticated _ | Closing => None
  end.

Record AuthoritativeSession := mk_session {
  session_id : Z;
  connection_id : Z;
  session_state : SessionState
}.

Inductive SessionStateError :=
| UnassignedIdentity (name : string)
| InvalidSessionTransition (from : SessionPhase) (action : string).

Inductive SessionAuthorityError := NotWorldActive (phase : SessionPhase).

Inductive IntentPayload := Move (axis_x axis_y : Z).

Record AuthorizedIntent := {
  ai_session_id : Z;
  ai_account_id : Z;
  ai_character_id : Z;
  ai_zone_id : Z;
  ai_sequence : Z;
  ai_payload : IntentPayload
}.

Definition require_nonzero (name : string) (value : Z) : result SessionStateError unit :=
  if decide (value = 0) then Err (UnassignedIdentity name) else Ok tt.

Definition session_new (sid cid : Z) : result SessionStateError AuthoritativeSession :=
  _ ← require_nonzero "session_id" sid;
  _ ← require_nonzero "connection_id" cid;
  Ok (mk_session sid cid ProtocolAdmitted).

Definition phase (s : AuthoritativeSession) : SessionPhase := state_phase (session_state s).
Definition world_binding (s : AuthoritativeSession) : option WorldBinding :=
  state_world_binding (session_state s).

Definition set_state (s : AuthoritativeSession) (st : SessionState) : AuthoritativeSession :=
  mk_session (session_id s) (connection_id s) st.

(** A mutating method of the session: the session after the call and its
    result. *)
Abbreviation SessionM A := (AuthoritativeSession * result SessionStateError A)%type.

Definition authenticate (s : AuthoritativeSession) (account_id : Z) : SessionM unit :=
  match require_nonzero "account_id" account_id with
  | Err e => (s, Err e)
  | Ok _ =>
      if decide (session_state s <> ProtocolAdmitted)
      then (s, Err (InvalidSessionTransition (phase s) "authenticate"))
      else (set_state s (Authenticated account_id), Ok tt)
  end.

Definition bind_character (s : AuthoritativeSession) (character_id zone_id : Z) : SessionM unit :=
  match require_nonzero "character_id" character_id with
  | Err e => (s, Err e)
  | Ok _ =>
      match require_nonzero "zone_id" zone_id with
      | Err e => (s, Err e)
      | Ok _ =>
          match session_state s with
          | Authenticated account_id =>
              (set_state s (CharacterBound account_id character_id zone_id), Ok tt)
          | _ => (s, Err (InvalidSessionTransition (phase s) "bind_character"))
          end
      end
  end.

Definition activate_world (s : AuthoritativeSession) : SessionM unit :=
  match session_state s with
  | CharacterBound a c z => (set_state s (WorldActive a c z), Ok tt)
  | _ => (s, Err (InvalidSessionTransition (phase s) "activate_world"))
  end.

Definition begin_closing (s : AuthoritativeSession) : AuthoritativeSession := set_state s Closing.

Definition authorize_intent (s : AuthoritativeSession) (sequence : Z) (payload : IntentPayload)
  : result SessionAuthorityError AuthorizedIntent :=
  match session_state s with
  | WorldActive a c z =>
      Ok {| ai_session_id := session_id s; ai_account_id := a; ai_character_id := c;
            ai_zone_id := z; ai_sequence := sequence; ai_payload := payload |}
  | _ => Err (NotWorldActive (phase s))
  end.

(** ** The registry *)

Record LiveSession := mk_live { live_session : AuthoritativeSession; replay : ReplayWindow }.

Record LiveSessionRegistry := mk_registry {
  by_session : gmap Z LiveSession;
  by_connection : gmap Z Z
}.

Definition empty_registry : LiveSessionRegistry := mk_registry ∅ ∅.

Inductive SessionRegistryError :=
| DuplicateSession (sid : Z)
| DuplicateConnection (cid : Z)
| UnknownConnection (cid : Z)
| InconsistentIndex (cid sid : Z)
| RegistryState (e : SessionStateError).

Inductive IntentSequenceError :=
| SeqRegistry (e : SessionRegistryError)
| SeqAuthority (e : SessionAuthorityError)
| SeqDuplicate (sequence : Z)
| SeqOutOfOrder (sequence : Z) (highest : option Z)
| SeqTooOld (sequence : Z) (highest : option Z).

Definition is_world_active_session (R : LiveSessionRegistry) (sid : Z) : bool :=
  match by_session R !! sid with
  | Some live => bool_decide (phase (live_session live) = PWorldActive)
  | None => false
  end.

Definition session_id_for_connection (R : LiveSessionRegistry) (cid : Z)
  : result SessionRegistryError Z :=
  ok_or (UnknownConnection cid) (by_connection R !! cid).

Definition live_for_connection (R : LiveSessionRegistry) (cid : Z)
  : result SessionRegistryError LiveSession :=
  sid ← session_id_for_connection R cid;
  ok_or (InconsistentIndex cid sid) (by_session R !! sid).

Definition register (R : LiveSessionRegistry) (sid cid : Z)
  : LiveSessionRegistry * result SessionRegistryError unit :=
  if decide (is_Some (by_session R !! sid)) then (R, Err (DuplicateSession sid))
  else if decide (is_Some (by_connection R !! cid)) then (R, Err (DuplicateConnection cid))
  else
    match session_new sid cid with
    | Err e => (R, Err (RegistryState e))
    | Ok s =>
        (mk_registry (<[sid := mk_live s empty_window]> (by_session R))
                     (<[cid := sid]> (by_connection R)), Ok tt)
    end.

Definition remove_by_connection (R : LiveSessionRegistry) (cid : Z)
  : LiveSessionRegistry * result SessionRegistryError Z :=
  match session_id_for_connection R cid with
  | Err e => (R, Err e)
  | Ok sid =>
      if decide (by_session R !! sid = None) then (R, Err (InconsistentIndex cid sid))
      else (mk_registry (delete sid (by_session R)) (delete cid (by_connection R)), Ok sid)
  end.

(** [live_for_connection_mut]: run a method on the live session of a connection
    and write the session back. *)
Definition with_live {E A} (R : LiveSessionRegistry) (cid : Z) (lift : SessionRegistryError -> E)
    (f : LiveSession -> LiveSession * result E A) : LiveSessionRegistry * result E A :=
  match session_id_for_connection R cid with
  | Err e => (R, Err (lift e))
  | Ok sid =>
      match by_session R !! sid with
      | None => (R, Err (lift (InconsistentIndex cid sid)))
      | Some live =>
          let '(live', r) := f live in
          (mk_registry (<[sid := live']> (by_session R)) (by_connection R), r)
      end
  end.

(** Lift a method of the session to the live session. *)
Definition on_session {A} (f : AuthoritativeSession -> SessionM A) (live : LiveSession)
  : LiveSession * result SessionRegistryError A :=
  let '(s, r) := f (live_session live) in (mk_live s (replay live), map_err RegistryState r).

Definition reg_authenticate R cid account_id :=
  with_live R cid id (on_session (fun s => authenticate s account_id)).

Definition reg_bind_character R cid character_id zone_id :=
  with_live R cid id (on_session (fun s => bind_character s character_id zone_id)).

Definition reg_activate_world R cid := with_live R cid id (on_session activate_world).

Definition reg_begin_closing R cid :=
  with_live R cid id (on_session (fun s => (begin_closing s, Ok tt))).

Definition phase_for_connection R cid : result SessionRegistryError SessionPhase :=
  live ← live_for_connection R cid; Ok (phase (live_session live)).

Definition world_binding_for_connection R cid : result SessionRegistryError (option WorldBinding) :=
  live ← live_for_connection R cid; Ok (world_binding (live_session live)).

(** The part of [authorize_from_connection] that works on the live session. *)
Definition authorize_live (sequence : Z) (payload : IntentPayload) (live : LiveSession)
  : LiveSession * result IntentSequenceError AuthorizedIntent :=
  match authorize_intent (live_session live) sequence payload with
  | Err e => (live, Err (SeqAuthority e))
  | Ok authorized =>
      let highest_before := highest (replay live) in
      let '(w, d) := observe (replay live) sequence in
      (mk_live (live_session live) w,
       match d with
       | AcceptedNewHighest => Ok authorized
       | AcceptedOutOfOrder => Err (SeqOutOfOrder sequence highest_before)
       | RejectedDuplicate => Err (SeqDuplicate sequence)
       | RejectedTooOld => Err (SeqTooOld sequence highest_before)
       end)
  end.

Definition authorize_from_connection R cid sequence payload
  : LiveSessionRegistry * result IntentSequenceError AuthorizedIntent :=
  with_live R cid SeqRegistry (authorize_live sequence payload).

(** ** Facts about one session *)

Definition phase_rank (p : SessionPhase) : Z :=
  match p with
  | PProtocolAdmitted => 0 | PAuthenticated => 1 | PCharacterBound => 2 | PWorldActive => 3
  | PClosing => 4
  end.

Inductive SessionCall :=
| CallAuthenticate (account_id : Z)
| CallBindCharacter (character_id zone_id : Z)
| CallActivateWorld
| CallBeginClosing.

Definition session_call (s : AuthoritativeSession) (c : SessionCall) : SessionM unit :=
  match c with
  | CallAuthenticate a => authenticate s a
  | CallBindCharacter c z => bind_character s c z
  | CallActivateWorld => activate_world s
  | CallBeginClosing => (begin_closing s, Ok tt)
  end.

(** Every identity a session carries is assigned. *)
Definition session_state_ok (st : SessionState) : Prop :=
  match st with
  | ProtocolAdmitted | Closing => True
  | Authenticated a => a <> 0
  | CharacterBound a c z | WorldActive a c z => a <> 0 /\ c <> 0 /\ z <> 0
  end.

Lemma require_nonzero_Ok n v u : require_nonzero n v = Ok u <-> v <> 0.
Proof. unfold require_nonzero. destruct u. case_decide; naive_solver. Qed.

Lemma session_new_Ok sid cid s :
  session_new sid cid = Ok s <-> sid <> 0 /\ cid <> 0 /\ s = mk_session sid cid ProtocolAdmitted.
Proof. unfold session_new, require_nonzero. repeat (case_decide; cbn); naive_solver. Qed.

(** What a call that succeeds does to the state. *)
Definition call_effect (st : SessionState) (c : SessionCall) : option SessionState :=
  match c, st with
  | CallAuthenticate a, ProtocolAdmitted => if decide (a = 0) then None else Some (Authenticated a)
  | CallBindCharacter ch z, Authenticated a =>
      if decide (ch = 0 \/ z = 0) then None else Some (CharacterBound a ch z)
  | CallActivateWorld, CharacterBound a ch z => Some (WorldActive a ch z)
  | CallBeginClosing, _ => Some Closing
  | _, _ => None
  end.

Lemma session_call_effect s c s' r :
  session_call s c = (s', r) ->
  match call_effect (session_state s) c with
  | Some st => s' = set_state s st /\ r = Ok tt
  | None => s' = s /\ is_ok r = false
  end.
Proof.
  destruct s as [sid cid st], c as [a|ch z| |]; cbn.
  - unfold authenticate, require_nonzero; cbn. destruct (decide (a = 0)) as [->|Ha]; cbn.
    + intros [= <- <-]. destruct st; cbn; done.
    + destruct st; cbn; intros [= <- <-]; done.
  - unfold bind_character, require_nonzero; cbn.
    destruct (decide (ch = 0)) as [->|Hc]; [|destruct (decide (z = 0)) as [->|Hz]]; cbn.
    1,2: intros [= <- <-]; destruct st; cbn; try done; rewrite decide_True by auto; done.
    destruct st; cbn; intros [= <- <-]; try done. rewrite decide_False by tauto. done.
  - unfold activate_world; cbn. destruct st; intros [= <- <-]; done.
  - intros [= <- <-]. done.
Qed.



(** ** Registry operations as a transition system *)

Inductive RegistryOp :=
| OpRegister (sid cid : Z)
| OpRemove (cid : Z)
| OpCall (cid : Z) (c : SessionCall)
| OpAuthorize (cid sequence : Z) (payload : IntentPayload).

(** The state after an operation and the intent it authorised, if any. *)
Definition reg_call (R : LiveSessionRegistry) (cid : Z) (c : SessionCall)
  : LiveSessionRegistry * result SessionRegistryError unit :=
  match c with
  | CallAuthenticate a => reg_authenticate R cid a
  | CallBindCharacter ch z => reg_bind_character R cid ch z
  | CallActivateWorld => reg_activate_world R cid
  | CallBeginClosing => reg_begin_closing R cid
  end.

Definition reg_exec (R : LiveSessionRegistry) (op : RegistryOp)
  : LiveSessionRegistry * option AuthorizedIntent :=
  match op with
  | OpRegister sid cid => (fst (register R sid cid), None)
  | OpRemove cid => (fst (remove_by_connection R cid), None)
  | OpCall cid c => (fst (reg_call R cid c), None)
  | OpAuthorize cid q p =>
      let '(R', r) := authorize_from_connection R cid q p in
      (R', match r with Ok i => Some i | Err _ => None end)
  end.

Fixpoint reg_run (R : LiveSessionRegistry) (ops : list RegistryOp)
  : LiveSessionRegistry * list AuthorizedIntent :=
  match ops with
  | [] => (R, [])
  | op :: ops' =>
      let '(R1, o) := reg_exec R op in
      let '(R2, l) := reg_run R1 ops' in
      (R2, match o with Some i => i :: l | None => l end)
  end.

(** The two indexes are inverse to each other. *)
Record reg_wf (R : LiveSessionRegistry) : Prop := {
  rw_conn : forall cid sid, by_connection R !! cid = Some sid ->
    exists live, by_session R !! sid = Some live /\ connection_id (live_session live) = cid;
  rw_sess : forall sid live, by_session R !! sid = Some live ->
    by_connection R !! connection_id (live_session live) = Some sid /\
    session_id (live_session live) = sid /\ sid <> 0 /\
    connection_id (live_session live) <> 0 /\
    session_state_ok (session_state (live_session live))
}.

Lemma reg_call_with_live R cid c :
  reg_call R cid c = with_live R cid id (on_session (fun s => session_call s c)).
Proof. by destruct c. Qed.

(** Every way an operation on the live session of a connection can end. *)
Lemma with_live_cases {E A} R cid lift (f : LiveSession -> LiveSession * result E A) R' r :
  with_live R cid lift f = (R', r) ->
  (R' = R /\ exists e, r = Err (lift e) /\
     (e = UnknownConnection cid /\ by_connection R !! cid = None \/
      exists sid, e = InconsistentIndex cid sid /\ by_connection R !! cid = Some sid /\
                  by_session R !! sid = None)) \/
  (exists sid live live', by_connection R !! cid = Some sid /\ by_session R !! sid = Some live /\
     f live = (live', r) /\ R' = mk_registry (<[sid := live']> (by_session R)) (by_connection R)).
Proof.
  unfold with_live, session_id_for_connection.
  destruct (by_connection R !! cid) as [sid|] eqn:Ec; cbn.
  - destruct (by_session R !! sid) as [live|] eqn:Es.
    + destruct (f live) as [live' r'] eqn:Ef. intros [= <- <-]. right. by exists sid, live, live'.
    + intros [= <- <-]. left. split; [done|]. eexists. split; [done|]. right. eauto.
  - intros [= <- <-]. left. split; [done|]. eexists. split; [done|]. by left.
Qed.

(** Writing back a live session that keeps its identities keeps the indexes. *)
Lemma reg_wf_update R sid live live' :
  reg_wf R -> by_session R !! sid = Some live ->
  session_id (live_session live') = session_id (live_session live) ->
  connection_id (live_session live') = connection_id (live_session live) ->
  session_state_ok (session_state (live_session live')) ->
  reg_wf (mk_registry (<[sid := live']> (by_session R)) (by_connection R)).
Proof.
  intros [Hc Hs] Hl Hsid Hcid Hok. destruct (Hs sid live Hl) as (H1 & H2 & H3 & H4 & H5). split; cbn.
  - intros cid sid' Hx. destruct (Hc cid sid' Hx) as (l & El & Ecl).
    destruct (decide (sid' = sid)) as [->|Hne].
    + exists live'. rewrite lookup_insert_eq. split; [done|]. simplify_eq. congruence.
    + exists l. by rewrite lookup_insert_ne.
  - intros sid' l. rewrite lookup_insert_Some. intros [[<- <-]|[Hne El]]; [|by apply Hs].
    rewrite Hcid, Hsid. done.
Qed.

Lemma session_call_ids s c :
  session_id (fst (session_call s c)) = session_id s /\
  connection_id (fst (session_call s c)) = connection_id s /\
  (session_state_ok (session_state s) -> session_state_ok (session_state (fst (session_call s c)))).
Proof.
  destruct (session_call s c) as [s' r] eqn:E. pose proof (session_call_effect _ _ _ _ E) as Heff.
  destruct (call_effect _ _) as [st|] eqn:Ec; destruct Heff as [-> _]; [|done].
  cbn. split_goals; [done|done|]. destruct s as [sid cid st0], c, st0; cbn in *;
    repeat case_decide; simplify_eq; cbn; naive_solver.
Qed.

Lemma reg_exec_wf R op : reg_wf R -> reg_wf (fst (reg_exec R op)).
Proof.
  intros Hwf. pose proof Hwf as [Hc Hs]. destruct op as [sid cid|cid|cid c|cid q p]; cbn [reg_exec fst].
  - unfold register. destruct (decide _) as [|H1]; [done|]. destruct (decide _) as [|H2]; [done|].
    destruct (session_new sid cid) as [s|e] eqn:En; [|done].
    apply session_new_Ok in En as (Hsid & Hcid & ->).
    apply eq_None_not_Some in H1, H2. split; cbn.
    + intros c x. rewrite lookup_insert_Some. intros [[<- <-]|[Hne Hx]].
      * exists (mk_live (mk_session sid cid ProtocolAdmitted) empty_window). by rewrite lookup_insert_eq.
      * destruct (Hc c x Hx) as (l & El & Ecl). exists l. rewrite lookup_insert_ne; [done|congruence].
    + intros x l. rewrite lookup_insert_Some. intros [[<- <-]|[Hne Hl]].
      * rewrite lookup_insert_eq. done.
      * destruct (Hs x l Hl) as (E1 & ?). rewrite lookup_insert_ne; [done|congruence].
  - unfold remove_by_connection, session_id_for_connection.
    destruct (by_connection R !! cid) as [sid|] eqn:Ec; cbn; [|done].
    destruct (decide _); [done|]. cbn. destruct (Hc cid sid Ec) as (l0 & El0 & Ecl0). split; cbn.
    + intros c x [Hne Hx]%lookup_delete_Some. destruct (Hc c x Hx) as (l & El & Ecl).
      exists l. rewrite lookup_delete_ne; [done|]. intros <-. congruence.
    + intros x l [Hne Hl]%lookup_delete_Some. destruct (Hs x l Hl) as (E1 & ?).
      rewrite lookup_delete_ne; [done|]. intros Heq. congruence.
  - rewrite reg_call_with_live. destruct (with_live _ _ _ _) as [R' r] eqn:E. cbn.
    apply with_live_cases in E as [(-> & _)|(sid & live & live' & E1 & E2 & E3 & ->)]; [done|].
    unfold on_session in E3. pose proof (session_call_ids (live_session live) c) as (I1 & I2 & I3).
    destruct (session_call (live_session live) c) as [s2 r2]. injection E3 as <- _. cbn in *.
    eapply reg_wf_update; [done|exact E2|done|done|]. apply I3. by apply (Hs sid live).
  - destruct (authorize_from_connection R cid q p) as [R' r] eqn:E. cbn.
    unfold authorize_from_connection in E.
    apply with_live_cases in E as [(-> & _)|(sid & live & live' & E1 & E2 & E3 & ->)]; [done|].
    unfold authorize_live in E3. destruct (authorize_intent _ _ _);
      [destruct (observe (replay live) q)|]; injection E3 as <- _;
      (eapply reg_wf_update; [done|exact E2|done|done|by apply (Hs sid live)]).
Qed.

Lemma reg_wf_empty : reg_wf empty_registry.
Proof. split; cbn; intros ? ?; by rewrite lookup_empty. Qed.

Lemma reg_run_wf ops R : reg_wf R -> reg_wf (fst (reg_run R ops)).
Proof.
  revert R. induction ops as [|op ops IH]; intros R Hwf; [done|]. cbn.
  pose proof (reg_exec_wf R op Hwf) as H1. destruct (reg_exec R op) as [R1 o]. cbn in H1.
  specialize (IH R1 H1). by destruct (reg_run R1 ops).
Qed.

(** After any sequence of operations on an initially empty registry, the
    session and connection indexes are inverse bijections over sessions with
    assigned identities, so the InconsistentIndex error is unreachable: an
    operation on a connection either finds its one live session or reports the
    connection as unknown. *)
Theorem registry_index_consistent (ops : list RegistryOp) :
  let R := fst (reg_run empty_registry ops) in
  reg_wf R /\
  (forall cid sid sid', by_connection R !! cid = Some sid -> by_connection R !! cid = Some sid' -> sid = sid') /\
  (forall cid cid' sid, by_connection R !! cid = Some sid -> by_connection R !! cid' = Some sid -> cid = cid') /\
  (forall cid sid c, snd (reg_call R cid c) <> Err (InconsistentIndex cid sid)) /\
  (forall cid sid, live_for_connection R cid <> Err (InconsistentIndex cid sid)) /\
  (forall cid sid q p, snd (authorize_from_connection R cid q p) <> Err (SeqRegistry (InconsistentIndex cid sid))) /\
  (forall cid sid, snd (remove_by_connection R cid) <> Err (InconsistentIndex cid sid)).
Proof.
  intros R. assert (reg_wf R) as Hwf by apply reg_run_wf, reg_wf_empty.
  pose proof Hwf as [Hc Hs]. split_goals; [done|congruence| | | | |].
  - intros cid cid' sid H1 H2. destruct (Hc _ _ H1) as (l1 & E1 & <-), (Hc _ _ H2) as (l2 & E2 & <-).
    congruence.
  - intros cid sid c. rewrite reg_call_with_live. destruct (with_live _ _ _ _) as [R' r] eqn:E. cbn.
    apply with_live_cases in E as [(_ & e & -> & [[-> _]|(s & -> & H1 & H2)])|(s & l & l' & E1 & E2 & E3 & _)].
    + done.
    + destruct (Hc _ _ H1) as (l & El & _). congruence.
    + unfold on_session in E3. destruct (session_call _ _) as [s2 [u|e]]; injection E3 as _ <-; done.
  - intros cid sid. unfold live_for_connection, session_id_for_connection.
    destruct (by_connection R !! cid) as [s|] eqn:E; cbn; [|done].
    destruct (Hc _ _ E) as (l & -> & _). done.
  - intros cid sid q p. destruct (authorize_from_connection R cid q p) as [R' r] eqn:E. cbn.
    unfold authorize_from_connection in E.
    apply with_live_cases in E as [(_ & e & -> & [[-> _]|(s & -> & H1 & H2)])|(s & l & l' & E1 & E2 & E3 & _)].
    + done.
    + destruct (Hc _ _ H1) as (l & El & _). congruence.
    + unfold authorize_live in E3. destruct (authorize_intent _ _ _);
        [destruct (observe _ _) as [w []]|]; injection E3 as _ <-; done.
  - intros cid sid. unfold remove_by_connection, session_id_for_connection.
    destruct (by_connection R !! cid) as [s|] eqn:E; cbn; [|done].
    destruct (decide _) as [Hn|]; [|done]. destruct (Hc _ _ E) as (l & El & _). congruence.
Qed.

(** *** Monotone intent sequences *)

Definition highest_lt (o : option Z) (q : Z) : Prop :=
  match o with None => True | Some h => h < q end.

Lemma observe_highest w q :
  (snd (observe w q) = AcceptedNewHighest ->
     highest_lt (highest w) q /\ highest (fst (observe w q)) = Some q) /\
  (snd (observe w q) <> AcceptedNewHighest -> highest (fst (observe w q)) = highest w).
Proof.
  unfold observe. destruct (highest w) as [h|] eqn:Hh; [|split; cbn; done].
  destruct (decide (q > h)); [split; cbn; [intros; split; [lia|done]|done]|].
  destruct (decide (h - q >= WINDOW_BITS)); [split; done|].
  destruct (decide (Z.land _ _ <> 0)); split; done.
Qed.

(** What one operation does to the session [sid], unless it removes it. *)
Lemma reg_exec_session R op sid live :
  reg_wf R -> by_session R !! sid = Some live ->
  op <> OpRemove (connection_id (live_session live)) ->
  exists live', by_session (fst (reg_exec R op)) !! sid = Some live' /\
    connection_id (live_session live') = connection_id (live_session live) /\
    match snd (reg_exec R op) with
    | Some i => ai_session_id i = sid /\ highest_lt (highest (replay live)) (ai_sequence i) /\
                highest (replay live') = Some (ai_sequence i) \/
                ai_session_id i <> sid /\ highest (replay live') = highest (replay live)
    | None => highest (replay live') = highest (replay live)
    end.
Proof.
  intros Hwf Hl Hop. pose proof Hwf as [Hc Hs]. destruct (Hs sid live Hl) as (H1 & H2 & _).
  destruct op as [sid' cid|cid|cid c|cid q p]; cbn [reg_exec fst snd].
  - unfold register. destruct (decide _) as [|N1]; [by exists live|].
    destruct (decide _) as [|N2]; [by exists live|].
    destruct (session_new sid' cid); [|by exists live]. exists live. cbn.
    rewrite lookup_insert_ne; [done|]. intros ->. apply N1. eauto.
  - exists live. split; [|done]. unfold remove_by_connection, session_id_for_connection.
    destruct (by_connection R !! cid) as [s|] eqn:E; cbn; [|done].
    destruct (decide _); [done|]. cbn. rewrite lookup_delete_ne; [done|].
    intros ->. destruct (Hc cid sid E) as (l & El & Ecl). congruence.
  - rewrite reg_call_with_live. destruct (with_live _ _ _ _) as [R' r] eqn:E. cbn.
    apply with_live_cases in E as [(-> & _)|(s & l & l' & E1 & E2 & E3 & ->)]; [by exists live|].
    cbn. unfold on_session in E3. pose proof (session_call_ids (live_session l) c) as (I1 & I2 & _).
    destruct (session_call (live_session l) c) as [s2 r2]. injection E3 as <- _. cbn in *.
    destruct (decide (s = sid)) as [->|Hne].
    + simplify_eq. eexists. rewrite lookup_insert_eq. split; [done|]. done.
    + exists live. by rewrite lookup_insert_ne.
  - destruct (authorize_from_connection R cid q p) as [R' r] eqn:E. cbn.
    unfold authorize_from_connection in E.
    apply with_live_cases in E as [(-> & e & -> & _)|(s & l & l' & E1 & E2 & E3 & ->)]; [by exists live|].
    destruct (Hs s l E2) as (_ & Hsl & _).
    unfold authorize_live in E3. pose proof (observe_highest (replay l) q) as [O1 O2].
    destruct (authorize_intent _ _ _) as [i|e] eqn:Ea.
    + assert (ai_session_id i = s /\ ai_sequence i = q) as [Hi Hq].
      { unfold authorize_intent in Ea. destruct (session_state (live_session l)); try done.
        injection Ea as <-. done. }
      destruct (observe (replay l) q) as [w d] eqn:Eo. injection E3 as <- <-. cbn in *.
      destruct (decide (s = sid)) as [->|Hne].
      * simplify_eq. eexists. rewrite lookup_insert_eq. split; [done|]. cbn. split; [done|].
        destruct d; cbn; [|by apply O2..]. destruct (O1 eq_refl). left. done.
      * exists live. rewrite lookup_insert_ne by done. split; [done|]. split; [done|].
        destruct d; cbn; [|done..]. right. split; [congruence|done].
    + injection E3 as <- <-. cbn. destruct (decide (s = sid)) as [->|Hne].
      * simplify_eq. eexists. rewrite lookup_insert_eq. done.
      * exists live. by rewrite lookup_insert_ne.
Qed.

(** C19: while a session stays registered, the sequence numbers of the intents
    authorised for it are strictly increasing and above everything its replay
    window had seen, whatever else happens in the registry: other sessions,
    rejected, duplicated or reordered intents in between. *)
Theorem authorized_sequences_increase (ops : list RegistryOp) (R : LiveSessionRegistry)
    (sid : Z) (live : LiveSession) :
  reg_wf R -> by_session R !! sid = Some live ->
  OpRemove (connection_id (live_session live)) ∉ ops ->
  let mine := filter (fun i => ai_session_id i = sid) (snd (reg_run R ops)) in
  StronglySorted Z.lt (map ai_sequence mine) /\
  Forall (fun i => highest_lt (highest (replay live)) (ai_sequence i)) mine.
Proof.
  revert R live. induction ops as [|op ops IH]; intros R live Hwf Hl Hop; cbn; [split; constructor|].
  apply not_elem_of_cons in Hop as [Hop Hops].
  destruct (reg_exec_session R op sid live Hwf Hl ltac:(congruence)) as (live' & Hl' & Hcid & Ho).
  pose proof (reg_exec_wf R op Hwf) as Hwf'.
  destruct (reg_exec R op) as [R1 o]. cbn in *. rewrite <- Hcid in Hops.
  specialize (IH R1 live' Hwf' Hl' Hops). cbn in IH.
  destruct (reg_run R1 ops) as [R2 l]. cbn in *. destruct IH as [IH1 IH2].
  destruct o as [i|]; [|by rewrite Ho in IH2].
  rewrite list.filter_cons. destruct Ho as [(Hi & Hlt & Hh)|(Hi & Hh)].
  - rewrite decide_True by done. rewrite Hh in IH2. cbn in IH2. split.
    + cbn. constructor; [done|]. apply Forall_map. done.
    + constructor; [done|]. eapply Forall_impl; [|exact IH2]. cbn. intros j Hj.
      unfold highest_lt in *. destruct (highest (replay live)); [lia|done].
  - rewrite decide_False by done. by rewrite Hh in IH2.
Qed.

Section RegistryWitness.
Let ops : list RegistryOp :=
  [OpCall 20 (CallAuthenticate 5); OpCall 20 (CallBindCharacter 6 7); OpCall 20 CallActivateWorld;
   OpAuthorize 20 4 (Move 1 2); OpAuthorize 20 9 (Move 1 2); OpAuthorize 20 9 (Move 0 0);
   OpAuthorize 20 8 (Move 0 0); OpAuthorize 20 12 (Move 3 3)].
Let R1 := fst (reg_exec empty_registry (OpRegister 10 20)).

Lemma authorized_sequences_increase_witness :
  map ai_sequence (snd (reg_run R1 ops)) = [4; 9; 12] /\
  StronglySorted Z.lt (map ai_sequence (filter (fun i => ai_session_id i = 10) (snd (reg_run R1 ops)))).
Proof.
  split; [vm_compute; reflexivity|].
  refine (proj1 (authorized_sequences_increase ops R1 10
    (mk_live (mk_session 10 20 ProtocolAdmitted) empty_window) _ _ _)).
  - apply reg_exec_wf, reg_wf_empty.
  - vm_compute. reflexivity.
  - cbn. unfold ops. repeat (apply not_elem_of_cons; split; [discriminate|]). apply not_elem_of_nil.
Defined.
End RegistryWitness.

(** ** The ingress towards the simulation

    The channel is tokio's [mpsc]; the ingress relies on it only through the
    documented behaviour of [try_send]: it appends the value or leaves the
    channel as it was. *)

Inductive TrySendError := Full | Closed.

Class MpscSender (Q A : Type) := {
  contents : Q -> list A;
  try_send : Q -> A -> Q * option TrySendError;
  try_send_ok : forall q a q', try_send q a = (q', None) -> contents q' = contents q ++ [a];
  try_send_err : forall q a q' e, try_send q a = (q', Some e) -> q' = q
}.

(** A concrete bounded queue: capacity, open flag and elements. *)
Program Definition bounded_queue {A} : MpscSender (nat * bool * list A) A := {|
  contents q := snd q;
  try_send q a :=
    let '(cap, open, l) := q in
    if open : bool then
      if decide (length l < cap)%nat then ((cap, open, l ++ [a]), None) else (q, Some Full)
    else (q, Some Closed)
|}.
Next Obligation. intros A [[cap []] l] a q'; cbn; [case_decide|]; intros; by simplify_eq. Qed.
Next Obligation. intros A [[cap []] l] a q' e; cbn; [case_decide|]; intros; by simplify_eq. Qed.

Inductive IntentIngressError :=
| IngressSequence (e : IntentSequenceError)
| QueueFull
| QueueClosed.

Inductive IntentIngressConfigError := ZeroCapacity.

Section Ingress.
Context {Q : Type} `{!MpscSender Q AuthorizedIntent}.

Record SessionIntentIngress := mk_ingress { ing_registry : LiveSessionRegistry; authorized_tx : Q }.

(** [bounded], the channel constructor of tokio as an argument. *)
Definition ingress_bounded (channel : Z -> Q) (capacity : Z)
  : result IntentIngressConfigError SessionIntentIngress :=
  if decide (capacity = 0) then Err ZeroCapacity
  else Ok (mk_ingress empty_registry (channel capacity)).

Definition try_ingest_move (I : SessionIntentIngress) (cid sequence axis_x axis_y : Z)
  : SessionIntentIngress * result IntentIngressError unit :=
  let '(R, r) := authorize_from_connection (ing_registry I) cid sequence (Move axis_x axis_y) in
  match r with
  | Err e => (mk_ingress R (authorized_tx I), Err (IngressSequence e))
  | Ok authorized =>
      let '(q, o) := try_send (authorized_tx I) authorized in
      (mk_ingress R q,
       match o with
       | None => Ok tt
       | Some Full => Err QueueFull
       | Some Closed => Err QueueClosed
       end)
  end.

(** The ingress delivers only what the server authorised: after a move
    the queue has grown by exactly one intent, carrying the identities the
    server bound to that connection and the client's sequence and axes, or it
    is unchanged and an error is reported; a sequence number whose intent was
    dropped because the queue was full or closed is spent all the same, so
    retrying it is reported as a duplicate. *)
Theorem ingest_move_authoritative (I I' : SessionIntentIngress) (cid q x y : Z)
    (r : result IntentIngressError unit) :
  try_ingest_move I cid q x y = (I', r) ->
  (forall u, r = Ok u -> exists live sid i b,
     by_connection (ing_registry I) !! cid = Some sid /\
     by_session (ing_registry I) !! sid = Some live /\
     phase (live_session live) = PWorldActive /\ world_binding (live_session live) = Some b /\
     contents (authorized_tx I') = contents (authorized_tx I) ++ [i] /\
     i = {| ai_session_id := session_id (live_session live); ai_account_id := wb_account_id b;
            ai_character_id := wb_character_id b; ai_zone_id := wb_zone_id b;
            ai_sequence := q; ai_payload := Move x y |}) /\
  (is_ok r = false -> authorized_tx I' = authorized_tx I) /\
  (r = Err QueueFull \/ r = Err QueueClosed ->
     snd (try_ingest_move I' cid q x y) = Err (IngressSequence (SeqDuplicate q))).
Proof.
  intros H. unfold try_ingest_move in H.
  destruct (authorize_from_connection _ _ _ _) as [R a] eqn:Ea.
  unfold authorize_from_connection in Ea.
  apply with_live_cases in Ea as [(-> & e & -> & _)|(sid & live & live' & E1 & E2 & E3 & ->)].
  { injection H as <- <-. split_goals; [done|done|]. intros [|]; done. }
  unfold authorize_live in E3. destruct (authorize_intent _ _ _) as [i|e] eqn:Ei.
  2: { injection E3 as <- <-. injection H as <- <-. split_goals; [done|done|]. intros [|]; done. }
  destruct (observe (replay live) q) as [w d] eqn:Eo. injection E3 as <- <-.
  destruct d; try (injection H as <- <-; split_goals; [done|done|]; intros [|]; done).
  destruct (try_send (authorized_tx I) i) as [tx o] eqn:Et. injection H as <- <-.
  split_goals.
  - intros u Hr. destruct o as [[]|]; try done. apply try_send_ok in Et.
    unfold authorize_intent in Ei. destruct (session_state (live_session live)) as [| | |ac ch z|] eqn:Est;
      try done. injection Ei as <-.
    exists live, sid. eexists _, {| wb_account_id := ac; wb_character_id := ch; wb_zone_id := z |}.
    unfold phase, world_binding. rewrite Est. split_goals; done.
  - destruct o as [[]|]; cbn; intros Hk; [by eapply try_send_err..|done].
  - intros Hr. unfold try_ingest_move, authorize_from_connection, with_live, session_id_for_connection.
    cbn. rewrite E1. cbn. rewrite lookup_insert_eq. unfold authorize_live. cbn.
    rewrite Ei. cbn.
    assert (snd (observe w q) = RejectedDuplicate) as Hdup.
    { clear -Eo. unfold observe in Eo. destruct (highest (replay live)) as [h|] eqn:Hh.
      - destruct (decide (q > h)).
        + injection Eo as <-. unfold observe; cbn. rewrite decide_False by lia. rewrite Z.sub_diag.
          unfold WINDOW_BITS. rewrite (decide_False (P := 0 >= 64)) by lia.
          rewrite decide_True; [done|]. apply land_mask_testbit; [lia|].
          case_decide; [done|]. rewrite Z.lor_spec. by rewrite orb_true_r.
        + destruct (decide (_ >= _)); [done|]. destruct (decide (_ <> 0)); done.
      - injection Eo as <-. unfold observe; cbn. rewrite decide_False by lia. rewrite Z.sub_diag. done. }
    destruct (observe w q) as [w' d']. cbn in *. by subst d'.
Qed.
End Ingress.

Lemma ingest_move_authoritative_witness :
  let R := fst (reg_run empty_registry
    [OpRegister 10 20; OpCall 20 (CallAuthenticate 5); OpCall 20 (CallBindCharacter 6 7);
     OpCall 20 CallActivateWorld]) in
  let I := mk_ingress R (1%nat, true, []) in
  let inst := bounded_queue in
  let I1 := fst (try_ingest_move I 20 1 100 (-100)) in
  let I2 := fst (try_ingest_move I1 20 2 0 0) in
  length (contents (authorized_tx I1)) = 1%nat /\ authorized_tx I2 = authorized_tx I1 /\
  snd (try_ingest_move I2 20 2 0 0) = Err (IngressSequence (SeqDuplicate 2)).
Proof.
  cbn zeta. split; [vm_compute; reflexivity|].
  pose (inst := @bounded_queue AuthorizedIntent).
  match goal with |- authorized_tx (fst (try_ingest_move ?I 20 2 0 0)) = _ /\ _ =>
    destruct (@ingest_move_authoritative _ inst I _ 20 2 0 0 _ (surjective_pairing _)) as (_ & H1 & H2)
  end.
  split; [apply H1; vm_compute; reflexivity|apply H2; left; vm_compute; reflexivity].
Defined.
