(* ===== verification/Sync.v ===== *)
(** Frontier synchronisation ([apps/world-server/src/frontier_sync.rs]): which
    connection has acknowledged the revision of the frontier it was sent.  The
    world server drops the intents of a connection that is not synced.  The
    theorem characterises the synced connections by the history of calls. *)

From S2P Require Import Prelude.

Inductive FrontierSyncState :=
| Pending (revision : Z)
| Synced (revision : Z).

Definition state_revision (s : FrontierSyncState) : Z :=
  match s with Pending revision | Synced revision => revision end.

Definition state_is_synced (s : FrontierSyncState) : bool :=
  match s with Synced _ => true | Pending _ => false end.

Inductive FrontierAckOutcome :=
| Synchronized (revision : Z)
| Duplicate (revision : Z)
| Stale (expected received : Z).

Inductive FrontierSyncError :=
| ZeroRevision
| DuplicateConnection (connection_id : Z)
| UnknownConnection (connection_id : Z)
| FutureAck (connection_id expected received : Z).

(** [FrontierSyncRegistry], its map [by_connection]. *)
Abbreviation FrontierSyncRegistry := (gmap Z FrontierSyncState).

Definition validate_revision (revision : Z) : result FrontierSyncError unit :=
  if revision =? 0 then Err ZeroRevision else Ok tt.

Definition register_pending (r : FrontierSyncRegistry) (connection_id revision : Z)
  : result FrontierSyncError unit * FrontierSyncRegistry :=
  match validate_revision revision with
  | Err e => (Err e, r)
  | Ok _ =>
      match r !! connection_id with
      | None => (Ok tt, <[connection_id := Pending revision]> r)
      | Some _ => (Err (DuplicateConnection connection_id), r)
      end
  end.

Definition mark_all_pending (r : FrontierSyncRegistry) (revision : Z)
  : result FrontierSyncError Z * FrontierSyncRegistry :=
  match validate_revision revision with
  | Err e => (Err e, r)
  | Ok _ =>
      let r' := (fun _ => Pending revision) <$> r in
      (Ok (Z.of_nat (size r')), r')
  end.

Definition apply_ack (r : FrontierSyncRegistry) (connection_id received : Z)
  : result FrontierSyncError FrontierAckOutcome * FrontierSyncRegistry :=
  match validate_revision received with
  | Err e => (Err e, r)
  | Ok _ =>
      match r !! connection_id with
      | None => (Err (UnknownConnection connection_id), r)
      | Some state =>
          let expected := state_revision state in
          if received <? expected then (Ok (Stale expected received), r)
          else if expected <? received then (Err (FutureAck connection_id expected received), r)
          else
            match state with
            | Pending revision =>
                (Ok (Synchronized revision), <[connection_id := Synced revision]> r)
            | Synced revision => (Ok (Duplicate revision), r)
            end
      end
  end.

Definition is_synced (r : FrontierSyncRegistry) (connection_id : Z) : bool :=
  match r !! connection_id with Some state => state_is_synced state | None => false end.

Definition sync_remove (r : FrontierSyncRegistry) (connection_id : Z)
  : option FrontierSyncState * FrontierSyncRegistry :=
  (r !! connection_id, delete connection_id r).

(** ** Histories of calls *)

Inductive SyncCall :=
| Register (connection_id revision : Z)
| MarkAll (revision : Z)
| Ack (connection_id received : Z)
| Remove (connection_id : Z).

Definition sync_exec (r : FrontierSyncRegistry) (call : SyncCall) : FrontierSyncRegistry :=
  match call with
  | Register c revision => (register_pending r c revision).2
  | MarkAll revision => (mark_all_pending r revision).2
  | Ack c received => (apply_ack r c received).2
  | Remove c => (sync_remove r c).2
  end.

(** The registry after a history of calls, the latest last. *)
Definition sync_run (calls : list SyncCall) : FrontierSyncRegistry := foldl sync_exec ∅ calls.

(** The revision that a connection has to acknowledge. *)
Definition expected (r : FrontierSyncRegistry) (connection_id : Z) : option Z :=
  state_revision <$> r !! connection_id.

(** The calls after which an acknowledgement of [c] no longer counts. *)
Definition resets (c : Z) (call : SyncCall) : Prop :=
  match call with
  | MarkAll revision => revision <> 0
  | Remove c' => c' = c
  | Register _ _ | Ack _ _ => False
  end.

(** What the history says about connection [c] and revision [v]: a revision
    was announced to it, by registration or to all, and nothing since replaced
    it. *)
Fixpoint announced (c : Z) (rev_calls : list SyncCall) : option Z :=
  match rev_calls with
  | [] => None
  | call :: earlier =>
      match announced c earlier, call with
      | None, Register c' v => if decide (c' = c /\ v <> 0) then Some v else None
      | Some u, MarkAll v => Some (if v =? 0 then u else v)
      | Some u, Remove c' => if decide (c' = c) then None else Some u
      | other, _ => other
      end
  end.

(** ** One call *)

Lemma validate_revision_spec v :
  validate_revision v = (if decide (v = 0) then Err ZeroRevision else Ok tt).
Proof. unfold validate_revision. destruct (Z.eqb_spec v 0); by case_decide. Qed.

Ltac sync_cases :=
  unfold expected, is_synced, sync_exec, register_pending, mark_all_pending, apply_ack, sync_remove in *;
  rewrite ?validate_revision_spec in *.

(** Each call acts on the entry of one connection as on the whole registry. *)
Definition entry_exec (c : Z) (o : option FrontierSyncState) (call : SyncCall)
  : option FrontierSyncState :=
  match call, o with
  | Register c' v, None => if decide (c' = c /\ v <> 0) then Some (Pending v) else None
  | MarkAll v, Some s => Some (if decide (v = 0) then s else Pending v)
  | Ack c' v, Some (Pending u) =>
      Some (if decide (c' = c /\ v <> 0 /\ v = u) then Synced u else Pending u)
  | Remove c', Some s => if decide (c' = c) then None else Some s
  | _, _ => o
  end.

Lemma lookup_register r c c' v :
  sync_exec r (Register c' v) !! c = entry_exec c (r !! c) (Register c' v).
Proof.
  sync_cases; cbn. destruct (decide (v = 0)) as [Hv|Hv]; cbn.
  - destruct (r !! c); [done|]. by rewrite decide_False by tauto.
  - destruct (decide (c' = c)) as [->|Hc].
    + destruct (r !! c) eqn:E; cbn; [done|]. by rewrite lookup_insert_eq, decide_True.
    + rewrite decide_False by tauto. destruct (r !! c'); cbn; [by destruct (r !! c)|].
      rewrite lookup_insert_ne by done. by destruct (r !! c).
Qed.

Lemma lookup_mark_all r c v :
  sync_exec r (MarkAll v) !! c = entry_exec c (r !! c) (MarkAll v).
Proof.
  sync_cases; cbn. destruct (decide (v = 0)); cbn; [by destruct (r !! c)|].
  rewrite lookup_fmap. by destruct (r !! c).
Qed.

Lemma lookup_ack r c c' v :
  sync_exec r (Ack c' v) !! c = entry_exec c (r !! c) (Ack c' v).
Proof.
  sync_cases; cbn. destruct (decide (c' = c)) as [->|Hc].
  2: { assert (forall s, <[c' := s]> r !! c = r !! c) as Hne by (intros; by apply lookup_insert_ne).
       transitivity (r !! c); [gen_destruct; by rewrite ?Hne|].
       destruct (r !! c) as [[]|]; [|done..]. by rewrite decide_False by tauto. }
  destruct (decide (v = 0)) as [Hv|Hv]; cbn.
  { destruct (r !! c) as [[]|]; [|done..]. by rewrite decide_False by tauto. }
  destruct (r !! c) as [[u|u]|] eqn:E; cbn; [| |done];
    destruct (Z.ltb_spec v u); cbn; try (rewrite E; by rewrite ?decide_False by lia);
    destruct (Z.ltb_spec u v); cbn; try (rewrite E; by rewrite ?decide_False by lia).
  rewrite lookup_insert_eq, decide_True by lia. done.
Qed.

Lemma lookup_exec r c call : sync_exec r call !! c = entry_exec c (r !! c) call.
Proof.
  destruct call as [c' v|v|c' v|c'];
    [apply lookup_register|apply lookup_mark_all|apply lookup_ack|].
  cbn. rewrite lookup_delete. by case_decide; destruct (r !! c).
Qed.

(** ** Histories *)

Lemma sync_run_snoc calls call : sync_run (calls ++ [call]) = sync_exec (sync_run calls) call.
Proof. apply foldl_snoc. Qed.

Lemma expected_announced c calls : expected (sync_run calls) c = announced c (reverse calls).
Proof.
  induction calls as [|call calls IH] using rev_ind; [done|].
  rewrite sync_run_snoc, reverse_snoc; cbn [announced]. rewrite <- IH.
  unfold expected. rewrite lookup_exec.
  destruct call as [c' v|v|c' v|c'], (sync_run calls !! c) as [[]|]; cbn; try done;
    try (by case_decide); case_decide as Hv; destruct (Z.eqb_spec v 0); done.
Qed.

Lemma synced_exec r c call :
  is_synced (sync_exec r call) c = true <->
  (is_synced r c = true /\ ~ resets c call) \/
  (exists v, call = Ack c v /\ v <> 0 /\ expected r c = Some v).
Proof.
  unfold is_synced, expected. rewrite lookup_exec.
  destruct call as [c' v|v|c' v|c'], (r !! c) as [[u|u]|]; cbn; try case_decide; naive_solver.
Qed.

Lemma synced_run c calls :
  is_synced (sync_run calls) c = true <->
  exists before v after,
    calls = before ++ Ack c v :: after /\ v <> 0 /\
    announced c (reverse before) = Some v /\ Forall (fun call => ~ resets c call) after.
Proof.
  induction calls as [|call calls IH] using rev_ind.
  { split; [done|]. intros (before & v & after & H & _). by destruct before. }
  rewrite sync_run_snoc, synced_exec, IH, expected_announced. split.
  - intros [[(b & v & a & -> & Hv & Hb & Ha) Hr]|(v & -> & Hv & Hb)].
    + exists b, v, (a ++ [call]). rewrite <- app_assoc. split_goals; try done.
      apply Forall_app. by split; [|constructor].
    + by exists calls, v, [].
  - intros (b & v & a & E & Hv & Hb & Ha). destruct a as [|call' a' _] using rev_ind.
    + apply app_inj_tail in E as [-> ->]. right. by exists v.
    + rewrite app_comm_cons, app_assoc in E. apply app_inj_tail in E as [-> ->].
      apply Forall_app in Ha as [Ha Hc]. apply list.Forall_cons in Hc as [Hc _].
      left. split; [|done]. by exists b, v, a'.
Qed.

(** An acknowledgement either synchronises its connection or changes nothing. *)
Lemma apply_ack_cases r c v res r' :
  apply_ack r c v = (res, r') ->
  (res = Ok (Synchronized v) /\ expected r c = Some v /\ is_synced r c = false /\
   r' = <[c := Synced v]> r) \/
  (r' = r /\ forall w, res <> Ok (Synchronized w)).
Proof.
  intros H. sync_cases. destruct (decide (v = 0)); [naive_solver|].
  destruct (r !! c) as [[u|u]|] eqn:E; cbn in H; [| |naive_solver];
    destruct (Z.ltb_spec v u); [naive_solver| |naive_solver|];
    (destruct (Z.ltb_spec u v); [naive_solver|]); simplify_eq; [|naive_solver].
  left. cbn. assert (u = v) as -> by lia. done.
Qed.

(** C20: after any history of calls the revision expected from a connection is
    the one last announced to it, by its registration or to all connections; and
    a connection is synced exactly when it acknowledged that revision and no
    announcement and no removal of the connection came later.  An
    acknowledgement that does not synchronise its connection, whether an error,
    stale or a duplicate, leaves the registry unchanged. *)
Theorem synced_iff_acknowledged :
  (forall calls c, expected (sync_run calls) c = announced c (reverse calls)) /\
  (forall calls c,
     is_synced (sync_run calls) c = true <->
     exists before v after,
       calls = before ++ Ack c v :: after /\ v <> 0 /\
       announced c (reverse before) = Some v /\ Forall (fun call => ~ resets c call) after) /\
  (forall r c v res r',
     apply_ack r c v = (res, r') ->
     (res = Ok (Synchronized v) /\ expected r c = Some v /\ is_synced r c = false /\
      r' = <[c := Synced v]> r) \/
     (r' = r /\ forall w, res <> Ok (Synchronized w))).
Proof.
  split_goals; [|intros; apply synced_run|exact apply_ack_cases].
  intros calls c. apply expected_announced.
Qed.

Lemma synced_iff_acknowledged_witness :
  let calls := [Register 7 1; Ack 7 1; MarkAll 2; Ack 7 1; Ack 7 2; Ack 7 3] in
  is_synced (sync_run calls) 7 = true /\
  is_synced (sync_run [Register 7 1; Ack 7 1; MarkAll 2]) 7 = false /\
  (is_synced (sync_run calls) 7 = true <-> 
   exists before v after,
     calls = before ++ Ack 7 v :: after /\ v <> 0 /\
     announced 7 (reverse before) = Some v /\ Forall (fun call => ~ resets 7 call) after).
Proof.
  intros calls. split_goals; [reflexivity|reflexivity|].
  apply (proj1 (proj2 synced_iff_acknowledged) calls 7).
Defined.
