(* ===== verification/F32.v ===== *)
(** * Single-precision floats

    [f32] of the source is binary32 of IEEE 754: the specification floats of
    the Standard Library at precision 24 and maximal exponent 128, with
    rounding to nearest, ties to even. *)

From Stdlib Require Export Floats.SpecFloat.
From S2P Require Import Prelude.

Module F32.

Definition f32 : Type := spec_float.
Definition add : f32 -> f32 -> f32 := SFadd 24 128.
Definition sub : f32 -> f32 -> f32 := SFsub 24 128.
Definition mul : f32 -> f32 -> f32 := SFmul 24 128.
Definition div : f32 -> f32 -> f32 := SFdiv 24 128.

(** [a > b]; false as soon as one of them is a NaN. *)
Definition gt (a b : f32) : bool := SFltb b a.

(** [n as f32] for an integer, and the nearest float of a decimal [n / 10^k]
    (one rounding, as the compiler's literals). *)
Definition of_Z (n : Z) : f32 := binary_normalize 24 128 n 0 false.
Definition of_decimal (n : Z) (k : Z) : f32 := SFdiv 24 128 (of_Z n) (of_Z (10 ^ k)).

(** [x.floor() as i64]: the largest integer below [x], saturated to the range
    of [i64]; a NaN gives 0. *)
Definition clamp_i64 (x : Z) : Z := Z.max (- 2 ^ 63) (Z.min x (2 ^ 63 - 1)).

Definition floor_as_i64 (x : f32) : Z :=
  match x with
  | S754_nan | S754_zero _ => 0
  | S754_infinity s => if s then - 2 ^ 63 else 2 ^ 63 - 1
  | S754_finite s m e =>
      let v := if s then Z.neg m else Z.pos m in
      clamp_i64 (if decide (0 <= e) then v * 2 ^ e else v / 2 ^ (- e))
  end.

Lemma floor_as_i64_range x : in_i 64 (floor_as_i64 x).
Proof.
  unfold in_i, floor_as_i64, clamp_i64. change (64 - 1) with 63.
  pose proof (pow2_pos 63 ltac:(lia)). destruct x as [| [] | |]; try lia.
Qed.

Example of_decimal_literals :
  of_decimal 35 1 = S754_finite false 14680064 (-22) /\
  of_decimal 6 2 = S754_finite false 16106127 (-28) /\
  of_decimal 3 1 = S754_finite false 10066330 (-25).
Proof. vm_compute. repeat split. Qed.

End F32.
