(* ===== verification/Items.v ===== *)
(** * Items and inventory grids

    [crates/domain/src/items.rs], first half, and [ownership.rs]: the item
    instances, ownership transfer, weapon statistics, and the two-dimensional
    inventory grid ([Grid]) with its invariant. *)

From S2P Require Import Prelude Core F32.
Import World.

(** ** Item instances *)

Inductive Ownership :=
| OwnerCharacter (id : Z)
| OwnerContainer (id : Z)
| OwnerWorld (sector : SectorCoord).

#[global] Instance sector_eq_dec : EqDecision SectorCoord.
Proof. solve_decision. Defined.
#[global] Instance ownership_eq_dec : EqDecision Ownership.
Proof. solve_decision. Defined.

Record DurabilityState := { dur_current : Z; dur_max : Z }.

Record RolledModifier := { modifier_id : Z; tier : Z; rolled_value : F32.f32 }.

Record ItemHistoricalCounters := { kill_count : Z; repair_count : Z; owner_count : Z }.

Record ItemInstance := mk_item {
  item_id : Z;
  definition_id : Z;
  owner : Ownership;
  revision : Z;
  quantity : Z;
  seed : Z;
  durability : DurabilityState;
  enhancement : Z;
  modifiers : list RolledModifier;
  sockets : list (option Z);
  history : ItemHistoricalCounters
}.

Record InventoryDimensions := mk_dims { width : Z; height : Z }.

Inductive GripType := GripNone | MeleeOneHand | MeleeTwoHand | OneHandedPistol | TwoHandedRifle | Shield.

Record WeaponCombatStats := {
  grip : GripType; base_damage : F32.f32; attack_speed : F32.f32;
  range_meters : F32.f32; stamina_cost : F32.f32
}.

Inductive EquipmentSlotKind := Head | Chest | Hands | Legs | Feet | MainHand | OffHand.

Record ItemDefinition := {
  def_id : Z; code_name : string; base_weight_grams : Z; dimensions : InventoryDimensions;
  max_durability : Z; max_stack : Z; combat : option WeaponCombatStats;
  equip_slot : option EquipmentSlotKind
}.

Record ResolvedWeaponStats := {
  r_grip : GripType; effective_damage : F32.f32; r_attack_speed : F32.f32;
  r_range_meters : F32.f32; r_stamina_cost : F32.f32
}.

Definition no_history : ItemHistoricalCounters :=
  {| kill_count := 0; repair_count := 0; owner_count := 0 |}.

Definition new_unique (id definition : Z) (o : Ownership) (s max_dur : Z) : ItemInstance :=
  {| item_id := id; definition_id := definition; owner := o; revision := 1; quantity := 1; seed := s;
     durability := {| dur_current := max_dur; dur_max := max_dur |}; enhancement := 0;
     modifiers := []; sockets := []; history := no_history |}.

Definition new_stackable (id definition : Z) (o : Ownership) (qty : Z) : ItemInstance :=
  {| item_id := id; definition_id := definition; owner := o; revision := 1; quantity := qty; seed := 0;
     durability := {| dur_current := 0; dur_max := 0 |}; enhancement := 0;
     modifiers := []; sockets := []; history := no_history |}.

(** Field updates. *)
Definition set_owner (i : ItemInstance) (o : Ownership) (h : ItemHistoricalCounters) (rev : Z) :=
  {| item_id := item_id i; definition_id := definition_id i; owner := o; revision := rev;
     quantity := quantity i; seed := seed i; durability := durability i; enhancement := enhancement i;
     modifiers := modifiers i; sockets := sockets i; history := h |}.
Definition set_revision (i : ItemInstance) (rev : Z) : ItemInstance :=
  set_owner i (owner i) (history i) rev.
Definition set_quantity (i : ItemInstance) (q : Z) : ItemInstance :=
  {| item_id := item_id i; definition_id := definition_id i; owner := owner i; revision := revision i;
     quantity := q; seed := seed i; durability := durability i; enhancement := enhancement i;
     modifiers := modifiers i; sockets := sockets i; history := history i |}.

Definition bump (i : ItemInstance) : ItemInstance :=
  set_revision i (saturating_add_u 64 (revision i) 1).

Definition transfer_ownership (i : ItemInstance) (new_owner : Ownership) : ItemInstance :=
  if decide (owner i <> new_owner) then
    set_owner i new_owner
      {| kill_count := kill_count (history i); repair_count := repair_count (history i);
         owner_count := saturating_add_u 32 (owner_count (history i)) 1 |}
      (saturating_add_u 64 (revision i) 1)
  else i.

Definition resolve_weapon_stats (i : ItemInstance) (template : ItemDefinition)
  : option ResolvedWeaponStats :=
  c ← combat template;
  let upgrade_mult := F32.add (F32.of_Z 1) (F32.mul (F32.of_Z (enhancement i)) (F32.of_decimal 6 2)) in
  let damage := F32.mul (base_damage c) upgrade_mult in
  let damage := if decide (dur_current (durability i) = 0) then F32.mul damage (F32.of_decimal 30 2)
                else damage in
  let damage := foldl (fun d m => if decide (modifier_id m = 101)
                  then F32.mul d (F32.add (F32.of_Z 1) (F32.div (rolled_value m) (F32.of_Z 100)))
                  else d) damage (modifiers i) in
  Some {| r_grip := grip c; effective_damage := damage; r_attack_speed := attack_speed c;
          r_range_meters := range_meters c; r_stamina_cost := stamina_cost c |}.

(** ** The inventory grid *)

Inductive ItemRotation := Normal | Rotated90.
#[global] Instance rotation_eq_dec : EqDecision ItemRotation.
Proof. solve_decision. Defined.

Definition oriented (d : InventoryDimensions) (r : ItemRotation) : InventoryDimensions :=
  match r with Normal => d | Rotated90 => mk_dims (height d) (width d) end.

Record GridSlotCoord := mk_slot { sx : Z; sy : Z }.

Record GridPlacedItem := mk_placed {
  origin : GridSlotCoord; rotation : ItemRotation; placed_dimensions : InventoryDimensions
}.

Inductive GridPlacementError := OutOfBounds | Collision.

Module Grid.

Record InventoryGrid := mk_grid {
  columns : Z; rows : Z; cells : list (option Z); placements : gmap Z GridPlacedItem
}.

Definition grid_new (c r : Z) : InventoryGrid := mk_grid c r (replicate (Z.to_nat (c * r)) None) ∅.

Definition index_of (g : InventoryGrid) (x y : Z) : option nat :=
  if decide (x >= columns g \/ y >= rows g) then None else Some (Z.to_nat (y * columns g + x)).

(** [self.cells[idx]]; an index that [index_of] computes is in range, see
    [index_of_lt]. *)
Definition cell (g : InventoryGrid) (idx : nat) : option Z := default None (cells g !! idx).
Definition set_cell (g : InventoryGrid) (idx : nat) (v : option Z) : InventoryGrid :=
  mk_grid (columns g) (rows g) (<[idx := v]> (cells g)) (placements g).
Definition set_placements (g : InventoryGrid) (p : gmap Z GridPlacedItem) : InventoryGrid :=
  mk_grid (columns g) (rows g) (cells g) p.

Definition get_placement (g : InventoryGrid) (id : Z) : option GridPlacedItem := placements g !! id.

Definition get_item_at (g : InventoryGrid) (slot : GridSlotCoord) : option Z :=
  idx ← index_of g (sx slot) (sy slot); cell g idx.

(** The cells the nested loops visit, in their order: rows outside, columns
    inside, the sums on [u8]. *)
Definition loop_cells (o : GridSlotCoord) (eff : InventoryDimensions) : list (Z * Z) :=
  dy ← seqZ 0 (height eff); dx ← seqZ 0 (width eff);
  [(wrap_u 8 (sx o + dx), wrap_u 8 (sy o + dy))].

Fixpoint scan_cells (g : InventoryGrid) (ignore_item : option Z) (l : list (Z * Z))
  : result GridPlacementError unit :=
  match l with
  | [] => Ok tt
  | (x, y) :: l =>
      idx ← ok_or OutOfBounds (index_of g x y);
      match cell g idx with
      | Some occupant =>
          if decide (Some occupant <> ignore_item) then Err Collision else scan_cells g ignore_item l
      | None => scan_cells g ignore_item l
      end
  end.

Definition can_place_at (g : InventoryGrid) (o : GridSlotCoord) (base_dimensions : InventoryDimensions)
    (r : ItemRotation) (ignore_item : option Z) : result GridPlacementError unit :=
  let eff := oriented base_dimensions r in
  if decide (saturating_add_u 8 (sx o) (width eff) > columns g \/
             saturating_add_u 8 (sy o) (height eff) > rows g)
  then Err OutOfBounds
  else scan_cells g ignore_item (loop_cells o eff).

Definition fill_cell (id : Z) (g : InventoryGrid) (c : Z * Z) : InventoryGrid :=
  match index_of g c.1 c.2 with Some idx => set_cell g idx (Some id) | None => g end.

Definition place_item (g : InventoryGrid) (id : Z) (o : GridSlotCoord)
    (base_dimensions : InventoryDimensions) (r : ItemRotation)
  : InventoryGrid * result GridPlacementError unit :=
  match can_place_at g o base_dimensions r None with
  | Err e => (g, Err e)
  | Ok _ =>
      let g1 := foldl (fill_cell id) g (loop_cells o (oriented base_dimensions r)) in
      (set_placements g1 (<[id := mk_placed o r base_dimensions]> (placements g1)), Ok tt)
  end.

Definition clear_cell (id : Z) (g : InventoryGrid) (c : Z * Z) : InventoryGrid :=
  match index_of g c.1 c.2 with
  | Some idx => if decide (cell g idx = Some id) then set_cell g idx None else g
  | None => g
  end.

Definition remove_item (g : InventoryGrid) (id : Z) : InventoryGrid * bool :=
  match placements g !! id with
  | None => (g, false)
  | Some p =>
      let g1 := set_placements g (delete id (placements g)) in
      (foldl (clear_cell id) g1 (loop_cells (origin p) (oriented (placed_dimensions p) (rotation p))), true)
  end.

Definition rotate_or_move (g : InventoryGrid) (id : Z) (new_origin : GridSlotCoord)
    (new_rotation : ItemRotation) : InventoryGrid * result GridPlacementError unit :=
  match ok_or OutOfBounds (placements g !! id) with
  | Err e => (g, Err e)
  | Ok p =>
      match can_place_at g new_origin (placed_dimensions p) new_rotation (Some id) with
      | Err e => (g, Err e)
      | Ok _ => place_item (remove_item g id).1 id new_origin (placed_dimensions p) new_rotation
      end
  end.

(** ** Cells and rectangles *)

Definition slot_ok (o : GridSlotCoord) : Prop := in_u 8 (sx o) /\ in_u 8 (sy o).
Definition dims_ok (d : InventoryDimensions) : Prop := in_u 8 (width d) /\ in_u 8 (height d).
Definition in_grid (g : InventoryGrid) (x y : Z) : Prop := 0 <= x < columns g /\ 0 <= y < rows g.
Definition cell_at (g : InventoryGrid) (x y : Z) : option Z := get_item_at g (mk_slot x y).

(** The rectangle of an item: its origin and its oriented dimensions. *)
Definition covers (o : GridSlotCoord) (eff : InventoryDimensions) (x y : Z) : Prop :=
  sx o <= x < sx o + width eff /\ sy o <= y < sy o + height eff.

Definition placed_covers (p : GridPlacedItem) : Z -> Z -> Prop :=
  covers (origin p) (oriented (placed_dimensions p) (rotation p)).

#[global] Instance in_grid_dec g x y : Decision (in_grid g x y).
Proof. unfold in_grid. apply _. Defined.

Definition shape (g : InventoryGrid) : Prop :=
  in_u 8 (columns g) /\ in_u 8 (rows g) /\ length (cells g) = Z.to_nat (columns g * rows g).

Definition same_shape (g g' : InventoryGrid) : Prop :=
  columns g' = columns g /\ rows g' = rows g /\ length (cells g') = length (cells g).

Lemma same_shape_shape g g' : same_shape g g' -> shape g -> shape g'.
Proof. intros (E1 & E2 & E3) H. unfold shape. rewrite E1, E2, E3. exact H. Qed.

Lemma same_shape_in_grid g g' x y : same_shape g g' -> in_grid g' x y <-> in_grid g x y.
Proof. intros (E1 & E2 & _). unfold in_grid. by rewrite E1, E2. Qed.

Lemma oriented_ok d r : dims_ok d -> dims_ok (oriented d r).
Proof. intros [??]. destruct r; split; done. Qed.

Lemma index_of_in g x y : in_grid g x y -> index_of g x y = Some (Z.to_nat (y * columns g + x)).
Proof. intros [??]. unfold index_of. rewrite decide_False by lia. done. Qed.

Lemma index_of_Some g x y i : 0 <= x -> 0 <= y ->
  index_of g x y = Some i <-> in_grid g x y /\ i = Z.to_nat (y * columns g + x).
Proof.
  intros Hx Hy. split; [|by intros [? ->]; apply index_of_in].
  unfold index_of. case_decide; [done|]. intros [= <-]. split; [split; lia|done].
Qed.

(** The index of a cell of the grid is in the range of the vector. *)
Lemma index_of_lt g x y : shape g -> in_grid g x y ->
  (Z.to_nat (y * columns g + x) < length (cells g))%nat.
Proof. intros (_ & _ & ->) [??]. apply Z2Nat.inj_lt; nia. Qed.

Lemma index_inj g x y x' y' : in_grid g x y -> in_grid g x' y' ->
  Z.to_nat (y * columns g + x) = Z.to_nat (y' * columns g + x') -> x = x' /\ y = y'.
Proof.
  intros [??] [??] E. apply Z2Nat.inj in E; [|nia..].
  assert (y = y') as ->; [|lia]. nia.
Qed.

Lemma cell_at_in g x y : in_grid g x y -> cell_at g x y = cell g (Z.to_nat (y * columns g + x)).
Proof. intros H. unfold cell_at, get_item_at. cbn [sx sy]. by rewrite index_of_in. Qed.

Lemma cell_set_cell g x y x' y' v : shape g -> in_grid g x y -> in_grid g x' y' ->
  cell_at (set_cell g (Z.to_nat (y * columns g + x)) v) x' y' =
  if decide ((x', y') = (x, y)) then v else cell_at g x' y'.
Proof.
  intros Hs H H'. rewrite !cell_at_in by done. unfold cell. cbn.
  case_decide as E; [simplify_eq; by rewrite list_lookup_insert_eq by (by apply index_of_lt)|].
  rewrite list_lookup_insert_ne; [done|]. intros Ei. apply index_inj in Ei as []; naive_solver.
Qed.

Lemma set_cell_shape g i v : same_shape g (set_cell g i v).
Proof. unfold same_shape. split_goals; [done..|apply length_insert]. Qed.

Lemma fill_cell_shape id g c : same_shape g (fill_cell id g c).
Proof. unfold fill_cell. destruct (index_of _ _ _); [apply set_cell_shape|done]. Qed.

Lemma clear_cell_shape id g c : same_shape g (clear_cell id g c).
Proof. unfold clear_cell. destruct (index_of _ _ _); [case_decide; [apply set_cell_shape|]|]; done. Qed.

Lemma same_shape_trans g1 g2 g3 : same_shape g1 g2 -> same_shape g2 g3 -> same_shape g1 g3.
Proof. unfold same_shape. intuition congruence. Qed.

Definition nonneg (c : Z * Z) : Prop := 0 <= c.1 /\ 0 <= c.2.

Section Folds.
Context (f : Z -> InventoryGrid -> Z * Z -> InventoryGrid).
Context (f_shape : forall id g c, same_shape g (f id g c)).
Context (f_placements : forall id g c, placements (f id g c) = placements g).

Lemma foldl_shape id l g : same_shape g (foldl (f id) g l) /\ placements (foldl (f id) g l) = placements g.
Proof using f_shape f_placements.
  revert g. induction l as [|c l IH]; intros g; [done|]. cbn.
  destruct (IH (f id g c)) as [H1 H2]. split; [by eapply same_shape_trans|]. by rewrite H2.
Qed.
End Folds.

Lemma fill_placements id g c : placements (fill_cell id g c) = placements g.
Proof. unfold fill_cell. by destruct (index_of _ _ _). Qed.
Lemma clear_placements id g c : placements (clear_cell id g c) = placements g.
Proof. unfold clear_cell. destruct (index_of _ _ _); [case_decide|]; done. Qed.

Lemma fill_cell_at id g c x y : shape g -> nonneg c -> in_grid g x y ->
  cell_at (fill_cell id g c) x y = if decide ((x, y) = c) then Some id else cell_at g x y.
Proof.
  intros Hs [Hc1 Hc2] Hg. destruct c as [cx cy]. unfold fill_cell. cbn in *.
  destruct (index_of g cx cy) eqn:E.
  - apply index_of_Some in E as [? ->]; [|done..]. by apply cell_set_cell.
  - rewrite decide_False; [done|]. intros [= <- <-]. by rewrite index_of_in in E.
Qed.

Lemma clear_cell_at id g c x y : shape g -> nonneg c -> in_grid g x y ->
  cell_at (clear_cell id g c) x y =
  if decide ((x, y) = c /\ cell_at g x y = Some id) then None else cell_at g x y.
Proof.
  intros Hs [Hc1 Hc2] Hg. destruct c as [cx cy]. unfold clear_cell. cbn in *.
  destruct (index_of g cx cy) eqn:E.
  - apply index_of_Some in E as [? ->]; [|done..]. rewrite <- cell_at_in by done.
    destruct (decide (cell_at g cx cy = Some id)).
    + rewrite cell_set_cell by done. repeat case_decide; naive_solver.
    + rewrite decide_False; [done|]. intros [[= -> ->] ?]. done.
  - rewrite decide_False; [done|]. intros [[= <- <-] _]. by rewrite index_of_in in E.
Qed.

Lemma fill_all id l g x y : shape g -> Forall nonneg l -> in_grid g x y ->
  cell_at (foldl (fill_cell id) g l) x y = if decide ((x, y) ∈ l) then Some id else cell_at g x y.
Proof.
  revert g. induction l as [|c l IH]; intros g Hs Hl H; cbn.
  { rewrite decide_False; [done|]. apply not_elem_of_nil. }
  apply Forall_cons_1 in Hl as [Hc Hl]. pose proof (fill_cell_shape id g c) as Hsh.
  rewrite IH; [|by eapply same_shape_shape|done|by eapply same_shape_in_grid].
  rewrite fill_cell_at by done. repeat case_decide; set_solver.
Qed.

Lemma clear_all id l g x y : shape g -> Forall nonneg l -> in_grid g x y ->
  cell_at (foldl (clear_cell id) g l) x y =
  if decide ((x, y) ∈ l /\ cell_at g x y = Some id) then None else cell_at g x y.
Proof.
  revert g. induction l as [|c l IH]; intros g Hs Hl H; cbn.
  { rewrite decide_False; [done|]. intros [[]%not_elem_of_nil _]. }
  apply Forall_cons_1 in Hl as [Hc Hl]. pose proof (clear_cell_shape id g c) as Hsh.
  rewrite IH; [|by eapply same_shape_shape|done|by eapply same_shape_in_grid].
  rewrite clear_cell_at by done. repeat case_decide; set_solver.
Qed.

(** ** The loops of the placement routines *)

Lemma elem_loop_cells o eff c :
  c ∈ loop_cells o eff <->
  exists dx dy, 0 <= dx < width eff /\ 0 <= dy < height eff /\
    c = (wrap_u 8 (sx o + dx), wrap_u 8 (sy o + dy)).
Proof.
  unfold loop_cells. rewrite list_elem_of_bind. setoid_rewrite list_elem_of_bind.
  setoid_rewrite list_elem_of_singleton. setoid_rewrite elem_of_seqZ.
  split; [intros (dy & (dx & -> & Hx) & Hy)|intros (dx & dy & ? & ? & ->)].
  - exists dx, dy. split_goals; [lia..|done].
  - exists dy. split; [|lia]. exists dx. split; [done|lia].
Qed.

Lemma loop_cells_nonneg o eff : Forall nonneg (loop_cells o eff).
Proof.
  apply list.Forall_forall. intros c (dx & dy & _ & _ & ->)%elem_loop_cells.
  split; apply (wrap_u_range 8); lia.
Qed.

(** No sum wraps when the rectangle is inside a grid: the loops visit exactly
    the rectangle. *)
Lemma loop_cells_covers o eff x y : slot_ok o ->
  (forall x y, covers o eff x y -> x < 256 /\ y < 256) ->
  (x, y) ∈ loop_cells o eff <-> covers o eff x y.
Proof.
  intros [Hx Hy] Hc. rewrite elem_loop_cells. unfold in_u in *. split.
  - intros (dx & dy & Hdx & Hdy & [= -> ->]).
    assert (covers o eff (sx o + dx) (sy o + dy)) as H by (unfold covers; lia).
    destruct (Hc _ _ H). rewrite !wrap_u_small by (unfold in_u; lia). done.
  - intros H. destruct (Hc _ _ H), H. exists (x - sx o), (y - sy o). split_goals; [lia..|].
    rewrite !wrap_u_small by (unfold in_u; lia). f_equal; lia.
Qed.

(** A wrapped sum would already have left the grid at column or row 255. *)
Lemma loop_cells_in_grid g o eff : shape g -> slot_ok o ->
  (forall x y, (x, y) ∈ loop_cells o eff -> in_grid g x y) ->
  forall x y, covers o eff x y -> in_grid g x y.
Proof.
  intros (Hc & Hr & _) [Hx Hy] H x y [Cx Cy]. unfold in_u in *.
  assert (forall a b, covers o eff a b -> a < 256 -> b < 256 -> in_grid g a b) as H'.
  { intros a b [] ??. apply H, elem_loop_cells. exists (a - sx o), (b - sy o).
    split_goals; [lia..|]. rewrite !wrap_u_small by (unfold in_u; lia). f_equal; lia. }
  destruct (decide (x < 256)), (decide (y < 256)).
  - apply H'; [done|lia..].
  - destruct (H' (sx o) 255) as [_ ?]; [split; lia|lia..].
  - destruct (H' 255 (sy o)) as [? _]; [split; lia|lia..].
  - destruct (H' 255 255) as [? _]; [split; lia|lia..].
Qed.

Lemma scan_Ok g ig l : Forall nonneg l ->
  scan_cells g ig l = Ok tt <->
  forall x y, (x, y) ∈ l -> in_grid g x y /\ (cell_at g x y = None \/ cell_at g x y = ig).
Proof.
  induction l as [|[x y] l IH]; intros Hl; cbn.
  { split; [|done]. intros _ x y []%not_elem_of_nil. }
  apply Forall_cons_1 in Hl as [[Hx Hy] Hl]. cbn in *. specialize (IH Hl).
  setoid_rewrite list.elem_of_cons.
  destruct (index_of g x y) as [i|] eqn:E; cbn.
  - apply index_of_Some in E as [Hg ->]; [|done..]. rewrite <- cell_at_in by done.
    destruct (cell_at g x y) as [occ|] eqn:Ec.
    + destruct (decide (Some occ <> ig)) as [Hne|He]; [split; [done|]|].
      * intros H. destruct (H x y) as [_ []]; [by left|congruence..].
      * apply dec_stable in He. rewrite IH. split; [|naive_solver].
        intros H a b [[= -> ->]|?]; [|by apply H]. split; [done|]. right. congruence.
    + rewrite IH. split; [|naive_solver]. intros H a b [[= -> ->]|?]; [|by apply H]. naive_solver.
  - split; [done|]. intros H. destruct (H x y) as [Hg _]; [by left|]. by rewrite index_of_in in E.
Qed.

(** [can_place_at] in terms of the rectangle; the first test is implied by the
    second unless the rectangle is empty. *)
Definition fits (g : InventoryGrid) (o : GridSlotCoord) (eff : InventoryDimensions) : Prop :=
  saturating_add_u 8 (sx o) (width eff) <= columns g /\
  saturating_add_u 8 (sy o) (height eff) <= rows g.

Lemma can_place_Ok g o d r ig : shape g -> slot_ok o ->
  can_place_at g o d r ig = Ok tt <->
  fits g o (oriented d r) /\
  forall x y, covers o (oriented d r) x y ->
    in_grid g x y /\ (cell_at g x y = None \/ cell_at g x y = ig).
Proof.
  intros Hs Ho. unfold can_place_at, fits. set (eff := oriented d r).
  assert (shape g) as (Hc & Hr & _) by done. unfold in_u in Hc, Hr.
  case_decide; [split; [done|lia]|]. rewrite scan_Ok by apply loop_cells_nonneg. split.
  - intros H'. pose proof (loop_cells_in_grid g o eff Hs Ho (fun x y E => proj1 (H' x y E))) as Hin.
    split; [lia|]. intros x y Hxy. apply H', loop_cells_covers; [done| |done].
    intros a b Hab. apply Hin in Hab as [??]. lia.
  - intros [_ H'] x y Hxy. apply H'. apply loop_cells_covers in Hxy; [done|done|].
    intros a b Hab. apply H' in Hab as [[??] _]. lia.
Qed.

Lemma loop_cells_in g o eff : shape g -> slot_ok o ->
  (forall x y, covers o eff x y -> in_grid g x y) ->
  forall x y, (x, y) ∈ loop_cells o eff <-> covers o eff x y.
Proof.
  intros (Hc & Hr & _) Ho H x y. unfold in_u in *. apply loop_cells_covers; [done|].
  intros a b Hab. apply H in Hab as [??]. lia.
Qed.

(** ** The invariant: the occupancy matrix and the placements agree *)

Record grid_wf (g : InventoryGrid) : Prop := {
  wf_shape : shape g;
  wf_placed : forall id p, placements g !! id = Some p ->
    slot_ok (origin p) /\ dims_ok (placed_dimensions p) /\
    forall x y, placed_covers p x y -> in_grid g x y;
  wf_cells : forall x y id, in_grid g x y ->
    cell_at g x y = Some id <-> exists p, placements g !! id = Some p /\ placed_covers p x y
}.

Lemma grid_new_wf c r : in_u 8 c -> in_u 8 r -> grid_wf (grid_new c r).
Proof.
  intros Hc Hr. split; [|done|].
  - unfold shape, grid_new. cbn. by rewrite length_replicate.
  - intros x y id H. rewrite cell_at_in by done. unfold cell.
    assert (shape (grid_new c r)) as Hs by (split_and!; [done..|cbn; by rewrite length_replicate]).
    pose proof (index_of_lt _ _ _ Hs H) as Hlt. cbn in *. rewrite length_replicate in Hlt.
    rewrite lookup_replicate_2 by done. cbn. setoid_rewrite lookup_empty. naive_solver.
Qed.

(** What the three operations return, cell by cell. *)
Lemma place_item_cells g id o d r g' : shape g -> slot_ok o ->
  place_item g id o d r = (g', Ok tt) ->
  same_shape g g' /\ placements g' = <[id := mk_placed o r d]> (placements g) /\
  (forall x y, covers o (oriented d r) x y -> in_grid g x y /\ cell_at g x y = None) /\
  forall x y, in_grid g x y ->
    (covers o (oriented d r) x y -> cell_at g' x y = Some id) /\
    (~ covers o (oriented d r) x y -> cell_at g' x y = cell_at g x y).
Proof.
  intros Hs Ho H. unfold place_item in H. destruct (can_place_at g o d r None) as [[]|] eqn:E; [|done].
  apply can_place_Ok in E as [Hf Hfree]; [|done..]. injection H as <-.
  destruct (foldl_shape fill_cell fill_cell_shape fill_placements id (loop_cells o (oriented d r)) g)
    as [Hsh Hp].
  split_goals; [done|cbn; by rewrite Hp|intros x y Hc; destruct (Hfree x y Hc) as [? []]; done|].
  intros x y Hg.
  change (cell_at _ x y) with (cell_at (foldl (fill_cell id) g (loop_cells o (oriented d r))) x y) at 1 2.
  rewrite fill_all by (done || apply loop_cells_nonneg).
  pose proof (loop_cells_in g o _ Hs Ho (fun x y Hc => proj1 (Hfree x y Hc)) x y) as Hl.
  case_decide; split; tauto.
Qed.

Lemma place_item_ok_iff g id o d r :
  snd (place_item g id o d r) = Ok tt <-> can_place_at g o d r None = Ok tt.
Proof. unfold place_item. by destruct (can_place_at g o d r None) as [[]|]. Qed.

Lemma place_item_err g id o d r e g' : place_item g id o d r = (g', Err e) -> g' = g.
Proof. unfold place_item. destruct (can_place_at _ _ _ _ _); intros; by simplify_eq. Qed.

Lemma remove_item_cells g id p : grid_wf g -> placements g !! id = Some p ->
  let g' := (remove_item g id).1 in
  same_shape g g' /\ placements g' = delete id (placements g) /\ (remove_item g id).2 = true /\
  forall x y, in_grid g x y ->
    (placed_covers p x y -> cell_at g' x y = None) /\
    (~ placed_covers p x y -> cell_at g' x y = cell_at g x y).
Proof.
  intros Hwf Hp. unfold remove_item. rewrite Hp. cbn.
  destruct (wf_placed g Hwf id p Hp) as (Ho & Hd & Hin). pose proof (wf_shape g Hwf) as Hs.
  set (g1 := set_placements g (delete id (placements g))).
  destruct (foldl_shape clear_cell clear_cell_shape clear_placements id
    (loop_cells (origin p) (oriented (placed_dimensions p) (rotation p))) g1) as [Hsh Hpl].
  split_goals; [done|done|done|]. intros x y Hg.
  rewrite (clear_all id _ g1) by (done || apply loop_cells_nonneg).
  change (cell_at g1 x y) with (cell_at g x y).
  pose proof (loop_cells_in g (origin p) _ Hs Ho Hin x y) as Hl.
  pose proof (wf_cells g Hwf x y id Hg) as Hc. unfold placed_covers in *.
  case_decide as Hd'; split; [done|tauto| |done]. intros Hcov. destruct Hd'. split; [by apply Hl|].
  apply Hc. by exists p.
Qed.

Lemma placed_covers_mk o r d x y : placed_covers (mk_placed o r d) x y <-> covers o (oriented d r) x y.
Proof. done. Qed.

#[global] Instance covers_dec o eff x y : Decision (covers o eff x y).
Proof. unfold covers. apply _. Defined.
#[global] Instance placed_covers_dec p x y : Decision (placed_covers p x y).
Proof. unfold placed_covers. apply _. Defined.

Lemma place_item_wf g id o d r g' res : grid_wf g -> placements g !! id = None ->
  slot_ok o -> dims_ok d -> place_item g id o d r = (g', res) -> grid_wf g'.
Proof.
  intros Hwf Hfresh Ho Hd H. destruct res as [[]|e]; [|by apply place_item_err in H as ->].
  destruct (place_item_cells g id o d r g' (wf_shape g Hwf) Ho H) as (Hsh & Hp & Hin & Hcells).
  split.
  - eapply same_shape_shape; [done|apply Hwf].
  - intros id' p. rewrite Hp. intros [[<- <-]|[Hne Hl]]%lookup_insert_Some.
    + cbn. split_goals; [done..|]. intros x y Hc. rewrite same_shape_in_grid by done.
      by apply (Hin x y).
    + destruct (wf_placed g Hwf id' p Hl) as (? & ? & Hc). split_goals; [done..|].
      intros x y Hxy. rewrite same_shape_in_grid by done. by apply Hc.
  - intros x y id' Hg. rewrite same_shape_in_grid in Hg by done.
    destruct (Hcells x y Hg) as [Hc1 Hc2]. rewrite Hp. pose proof (wf_cells g Hwf x y id' Hg) as Hw.
    destruct (decide (covers o (oriented d r) x y)) as [Hc|Hc].
    + rewrite Hc1 by done. apply (Hin x y) in Hc as Hc'. destruct Hc' as [_ Hn]. split.
      * intros [= ->]. exists (mk_placed o r d). by rewrite lookup_insert_eq.
      * intros (p & [[<- <-]|[Hne Hl]]%lookup_insert_Some & Hpc); [done|].
        rewrite Hn in Hw. destruct Hw as [_ Hw]. discriminate Hw. by exists p.
    + rewrite Hc2 by done. rewrite Hw. split; intros (p & Hl & Hpc).
      * exists p. split; [|done]. apply lookup_insert_Some. right. split; [|done]. by intros <-; rewrite Hfresh in Hl.
      * apply lookup_insert_Some in Hl as [[<- <-]|[_ Hl]]; [done|by exists p].
Qed.

Lemma remove_item_wf g id : grid_wf g -> grid_wf (remove_item g id).1.
Proof.
  intros Hwf. destruct (placements g !! id) as [p|] eqn:Hp; [|unfold remove_item; by rewrite Hp].
  destruct (remove_item_cells g id p Hwf Hp) as (Hsh & Hpl & _ & Hcells).
  set (g' := (remove_item g id).1) in *. split.
  - eapply same_shape_shape; [done|apply Hwf].
  - intros id' p'. rewrite Hpl. intros [_ Hl]%lookup_delete_Some.
    destruct (wf_placed g Hwf id' p' Hl) as (? & ? & Hc). split_goals; [done..|].
    intros x y Hxy. rewrite same_shape_in_grid by done. by apply Hc.
  - intros x y id' Hg. rewrite same_shape_in_grid in Hg by done.
    destruct (Hcells x y Hg) as [Hc1 Hc2]. rewrite Hpl. pose proof (wf_cells g Hwf x y) as Hw.
    destruct (decide (placed_covers p x y)) as [Hc|Hc].
    + rewrite Hc1 by done. split; [done|]. intros (p' & [Hne Hl]%lookup_delete_Some & Hpc).
      assert (cell_at g x y = Some id) as E1 by (apply Hw; [done|by exists p]).
      assert (cell_at g x y = Some id') as E2 by (apply Hw; [done|by exists p']). congruence.
    + rewrite Hc2, Hw by done. split; intros (p' & Hl & Hpc); exists p'; (split; [|done]).
      * apply lookup_delete_Some. split; [|done]. intros <-. congruence.
      * by apply lookup_delete_Some in Hl as [_ Hl].
Qed.

(** After the check of [rotate_or_move], the removal and the placement cannot
    fail. *)
Lemma rotate_or_move_place g id p o r : grid_wf g -> placements g !! id = Some p -> slot_ok o ->
  can_place_at g o (placed_dimensions p) r (Some id) = Ok tt <->
  can_place_at (remove_item g id).1 o (placed_dimensions p) r None = Ok tt.
Proof.
  intros Hwf Hp Ho. pose proof (wf_shape g Hwf) as Hs.
  destruct (remove_item_cells g id p Hwf Hp) as (Hsh & _ & _ & Hcells).
  rewrite !can_place_Ok by (done || by eapply same_shape_shape).
  unfold fits. destruct Hsh as (E1 & E2 & E3). rewrite E1, E2.
  apply and_iff_compat_l. split; intros H x y Hc; specialize (H x y Hc);
    rewrite ?(same_shape_in_grid g (remove_item g id).1 x y (conj E1 (conj E2 E3))) in *;
    destruct H as [Hg H]; (split; [done|]); destruct (Hcells x y Hg) as [H1 H2];
    pose proof (wf_cells g Hwf x y id Hg) as Hw.
  - left. destruct (decide (placed_covers p x y)); [by apply H1|]. rewrite H2 by done.
    destruct H as [H|H]; [done|]. apply Hw in H as (p' & ? & ?). by simplify_eq.
  - destruct (decide (placed_covers p x y)); [right; apply Hw; by exists p|].
    rewrite H2 in H by done. left. by destruct H.
Qed.

Lemma rotate_or_move_ok g id o r g' : grid_wf g -> slot_ok o ->
  rotate_or_move g id o r = (g', Ok tt) ->
  exists p, placements g !! id = Some p /\
    can_place_at g o (placed_dimensions p) r (Some id) = Ok tt /\
    place_item (remove_item g id).1 id o (placed_dimensions p) r = (g', Ok tt).
Proof.
  intros Hwf Ho H. unfold rotate_or_move in H. destruct (placements g !! id) as [p|] eqn:Hp; [|done].
  cbn in H. destruct (can_place_at g o _ r _) as [[]|] eqn:E; [|done]. by exists p.
Qed.

Lemma rotate_or_move_wf g id o r g' res : grid_wf g -> slot_ok o ->
  rotate_or_move g id o r = (g', res) -> grid_wf g' /\ (is_ok res = false -> g' = g).
Proof.
  intros Hwf Ho H. unfold rotate_or_move in H. destruct (placements g !! id) as [p|] eqn:Hp; cbn in H.
  2: by simplify_eq.
  destruct (can_place_at g o _ r _) as [[]|] eqn:E; [|by simplify_eq].
  apply rotate_or_move_place in E; [|done..]. apply place_item_ok_iff with (id := id) in E.
  rewrite H in E. cbn in E. subst res. split; [|done].
  eapply (place_item_wf (remove_item g id).1); [by apply remove_item_wf| |done| |exact H].
  - destruct (remove_item_cells g id p Hwf Hp) as (_ & -> & _). apply lookup_delete_eq.
  - by apply (wf_placed g Hwf id p).
Qed.

(** The histories of a grid: items are placed under fresh identifiers, removed,
    rotated or moved, with any arguments and any outcome. *)
Inductive grid_step (g : InventoryGrid) : InventoryGrid -> Prop :=
| grid_place id o d r : placements g !! id = None -> slot_ok o -> dims_ok d ->
    grid_step g (place_item g id o d r).1
| grid_remove id : grid_step g (remove_item g id).1
| grid_move id o r : slot_ok o -> grid_step g (rotate_or_move g id o r).1.

Lemma grid_reachable_wf g0 g : grid_wf g0 -> rtc grid_step g0 g -> grid_wf g.
Proof.
  intros Hwf H. induction H as [|g1 g2 g3 Hst _ IH]; [done|]. apply IH. clear IH.
  destruct Hst as [id o d r Hf Ho Hd|id|id o r Ho].
  - by eapply (place_item_wf g1 id o d r _ _); [| | | |apply surjective_pairing].
  - by apply remove_item_wf.
  - by eapply (rotate_or_move_wf g1 id o r _ _); [| |apply surjective_pairing].
Qed.

(** In every grid reachable from an empty one by placing fresh items,
    removing, rotating and moving them, successfully or not, the occupancy
    matrix and the placement table agree: every item lies within the grid, no
    two items share a cell, and the matrix shows an item in exactly the cells
    of its rectangle. *)
Theorem grid_no_overlap (c r : Z) (g : InventoryGrid) :
  in_u 8 c -> in_u 8 r -> rtc grid_step (grid_new c r) g ->
  (forall id p x y, placements g !! id = Some p -> placed_covers p x y ->
     0 <= x < c /\ 0 <= y < r) /\
  (forall id id' p p' x y, placements g !! id = Some p -> placements g !! id' = Some p' ->
     placed_covers p x y -> placed_covers p' x y -> id = id') /\
  (forall x y id, 0 <= x < c -> 0 <= y < r ->
     get_item_at g (mk_slot x y) = Some id <->
     exists p, placements g !! id = Some p /\ placed_covers p x y).
Proof.
  intros Hc Hr H. pose proof (grid_reachable_wf _ _ (grid_new_wf c r Hc Hr) H) as Hwf.
  assert (columns g = c /\ rows g = r) as [Ec Er].
  { clear Hwf. remember (grid_new c r) as g0. assert (columns g0 = c /\ rows g0 = r) as E by by subst.
    clear Heqg0. induction H as [|g1 g2 g3 Hst _ IH]; [done|]. apply IH. clear IH.
    assert (same_shape g1 g2) as (-> & -> & _); [|done].
    assert (forall g id, same_shape g (remove_item g id).1) as Hrem.
    { intros g id. unfold remove_item. destruct (placements g !! id); [|done]. cbn.
      by apply (foldl_shape clear_cell clear_cell_shape clear_placements id _ (set_placements g _)). }
    assert (forall g id o d r, same_shape g (place_item g id o d r).1) as Hpl.
    { intros g id o d r'. unfold place_item. destruct (can_place_at _ _ _ _ _); [|done]. cbn.
      by apply (foldl_shape fill_cell fill_cell_shape fill_placements id). }
    destruct Hst; [apply Hpl|apply Hrem|]. unfold rotate_or_move.
    destruct (placements g1 !! id); cbn; [|done].
    destruct (can_place_at _ _ _ _ _); [|done]. eapply same_shape_trans; [apply Hrem|apply Hpl]. }
  assert (forall x y, in_grid g x y <-> 0 <= x < c /\ 0 <= y < r) as Hin
    by (intros; unfold in_grid; by rewrite Ec, Er).
  split_goals.
  - intros id p x y Hp Hcov. apply Hin. by eapply wf_placed.
  - intros id id' p p' x y Hp Hp' Hcov Hcov'.
    assert (in_grid g x y) as Hg by by eapply wf_placed.
    assert (cell_at g x y = Some id) as E1 by (apply (wf_cells g Hwf); [done|by exists p]).
    assert (cell_at g x y = Some id') as E2 by (apply (wf_cells g Hwf); [done|by exists p']). congruence.
  - intros x y id Hx Hy. apply (wf_cells g Hwf). by apply Hin.
Qed.

Section GridWitness.
Let rifle := mk_dims 1 3.
Let pistol := mk_dims 2 1.
Let g1 := (place_item (grid_new 4 4) 10 (mk_slot 0 0) rifle Normal).1.
Let g2 := (place_item g1 20 (mk_slot 0 1) pistol Normal).1.
Let g3 := (place_item g2 20 (mk_slot 1 0) pistol Normal).1.
Let g4 := (rotate_or_move g3 10 (mk_slot 1 2) Rotated90).1.

Lemma grid_no_overlap_witness :
  rtc grid_step (grid_new 4 4) g4 /\
  map (fun x => get_item_at g4 (mk_slot x 2)) [0; 1; 2; 3] = [None; Some 10; Some 10; Some 10] /\
  get_item_at g4 (mk_slot 2 0) = Some 20 /\ get_item_at g4 (mk_slot 0 0) = None /\
  exists p, placements g4 !! 10 = Some p /\ placed_covers p 3 2.
Proof.
  assert (rtc grid_step (grid_new 4 4) g4) as H.
  { eapply rtc_l; [apply (grid_place _ 10 (mk_slot 0 0) rifle Normal)|]; [done|done|done|].
    eapply rtc_l; [apply (grid_place _ 20 (mk_slot 0 1) pistol Normal)|]; [done|done|done|].
    eapply rtc_l; [apply (grid_place _ 20 (mk_slot 1 0) pistol Normal)|]; [done|done|done|].
    eapply rtc_l; [apply (grid_move _ 10 (mk_slot 1 2) Rotated90)|]; done. }
  split; [done|]. split; [vm_compute; reflexivity|]. split; [vm_compute; reflexivity|].
  split; [vm_compute; reflexivity|].
  apply (proj2 (proj2 (grid_no_overlap 4 4 g4 ltac:(done) ltac:(done) H)) 3 2 10); [lia..|].
  vm_compute. reflexivity.
Defined.
End GridWitness.

Lemma grid_ext g g' : shape g -> same_shape g g' -> placements g = placements g' ->
  (forall x y, in_grid g x y -> cell_at g' x y = cell_at g x y) -> g' = g.
Proof.
  intros Hs Hsh Hp H. destruct Hsh as (E1 & E2 & E3), Hs as (Hc & Hr & Hl).
  destruct g as [c r cs ps], g' as [c' r' cs' ps']. cbn in *. subst c' r' ps'. f_equal.
  apply list_eq. intros i. destruct (decide (i < length cs)%nat) as [Hi|Hi].
  2: { rewrite !lookup_ge_None_2; [done|lia..]. }
  unfold in_u in *. assert (0 < c) by nia.
  assert (in_grid (mk_grid c r cs ps) (Z.of_nat i mod c) (Z.of_nat i / c)) as Hg.
  { split; cbn; [apply Z.mod_pos_bound; lia|]. split; [apply Z.div_pos; lia|].
    apply Z.div_lt_upper_bound; nia. }
  specialize (H _ _ Hg). rewrite !cell_at_in in H by done. unfold cell in H. cbn in H.
  replace (Z.to_nat (Z.of_nat i / c * c + Z.of_nat i mod c)) with i in H
    by (rewrite Z.mul_comm, <- Z.div_mod by lia; lia).
  destruct (lookup_lt_is_Some_2 cs i Hi) as [a Ha], (lookup_lt_is_Some_2 cs' i ltac:(lia)) as [b Hb].
  rewrite Ha, Hb in *. cbn in H. by subst.
Qed.

Lemma can_place_inside g o d r ig : shape g -> slot_ok o -> dims_ok d -> 0 < width d -> 0 < height d ->
  let eff := oriented d r in
  can_place_at g o d r ig = Ok tt <->
  (sx o + width eff <= columns g /\ sy o + height eff <= rows g) /\
  forall x y, covers o eff x y -> cell_at g x y = None \/ cell_at g x y = ig.
Proof.
  intros Hs Ho Hd Hw Hh eff. rewrite can_place_Ok by done. subst eff.
  assert (0 < width (oriented d r) /\ 0 < height (oriented d r)) as [Hw' Hh'] by by destruct r.
  destruct Ho as [Hx Hy], Hs as (Hc & Hr & _). unfold fits, saturating_add_u, in_u, in_grid in *.
  split; intros [H1 H2].
  - split; [|intros x y Hcov; by apply H2].
    destruct (H2 (sx o + width (oriented d r) - 1) (sy o + height (oriented d r) - 1)) as [? _];
      unfold covers; lia.
  - split; [lia|]. intros x y Hcov. split; [unfold covers in Hcov; lia|by apply H2].
Qed.

Lemma place_remove g id o d r g' : grid_wf g -> placements g !! id = None -> slot_ok o -> dims_ok d ->
  place_item g id o d r = (g', Ok tt) -> remove_item g' id = (g, true).
Proof.
  intros Hwf Hf Ho Hd H. pose proof (place_item_wf _ _ _ _ _ _ _ Hwf Hf Ho Hd H) as Hwf'.
  destruct (place_item_cells _ _ _ _ _ _ (wf_shape g Hwf) Ho H) as (Hsh & Hp & Hin & Hc).
  assert (placements g' !! id = Some (mk_placed o r d)) as Hl by (rewrite Hp; apply lookup_insert_eq).
  destruct (remove_item_cells g' id _ Hwf' Hl) as (Hsh2 & Hp2 & Hb & Hc2).
  destruct (remove_item g' id) as [g2 b]. cbn in *. subst b. f_equal.
  apply grid_ext; [apply Hwf|by eapply same_shape_trans| |].
  - rewrite Hp2, Hp. by rewrite delete_insert_id.
  - intros x y Hg. destruct (Hc x y Hg) as [H1 H2].
    destruct (Hc2 x y) as [H3 H4]; [by apply (same_shape_in_grid g g')|].
    destruct (decide (covers o (oriented d r) x y)) as [Hcov|Hcov].
    + rewrite H3 by done. symmetry. by apply Hin.
    + rewrite H4, H2 by done. done.
Qed.

(** What the operations of a consistent grid do, cell by cell.  Placing
    succeeds exactly when the rectangle is inside the grid and free; it then
    fills that rectangle with the item and changes no other cell, and removing
    the item gives back the very same grid.  Moving or rotating an item
    succeeds exactly when the item is known and its new rectangle is inside the
    grid and free but for the item itself; it then occupies that rectangle, has
    left every other cell, and no other item has moved.  A failed operation
    leaves the grid as it was, so an item is never lost between the removal and
    the placement of a move. *)
Theorem grid_operations_correct (g : InventoryGrid) (id : Z) (o : GridSlotCoord)
    (d : InventoryDimensions) (r : ItemRotation) :
  grid_wf g -> slot_ok o -> dims_ok d -> 0 < width d -> 0 < height d ->
  let inside eff := sx o + width eff <= columns g /\ sy o + height eff <= rows g in
  (placements g !! id = None ->
   let '(g', res) := place_item g id o d r in
   (res = Ok tt <-> inside (oriented d r) /\
      forall x y, covers o (oriented d r) x y -> cell_at g x y = None) /\
   (is_ok res = false -> g' = g) /\
   (res = Ok tt ->
      placements g' = <[id := mk_placed o r d]> (placements g) /\
      (forall x y, in_grid g x y ->
         cell_at g' x y = if decide (covers o (oriented d r) x y) then Some id else cell_at g x y) /\
      remove_item g' id = (g, true))) /\
  (forall p, placements g !! id = Some p -> placed_dimensions p = d ->
   let '(g', res) := rotate_or_move g id o r in
   (res = Ok tt <-> inside (oriented d r) /\
      forall x y, covers o (oriented d r) x y -> cell_at g x y = None \/ cell_at g x y = Some id) /\
   (is_ok res = false -> g' = g) /\
   (res = Ok tt -> placements g' = <[id := mk_placed o r d]> (placements g) /\
      forall x y, in_grid g x y ->
        cell_at g' x y = if decide (covers o (oriented d r) x y) then Some id
                         else if decide (cell_at g x y = Some id) then None else cell_at g x y)) /\
  (placements g !! id = None -> rotate_or_move g id o r = (g, Err OutOfBounds) /\
   remove_item g id = (g, false)).
Proof.
  intros Hwf Ho Hd Hw Hh inside. pose proof (wf_shape g Hwf) as Hs. split_goals.
  - intros Hf. destruct (place_item g id o d r) as [g' res] eqn:H. split_goals.
    + pose proof (place_item_ok_iff g id o d r) as Hiff. rewrite H in Hiff. cbn in Hiff.
      rewrite Hiff, can_place_inside by done. subst inside. cbn. naive_solver.
    + destruct res; [done|]. intros _. by apply place_item_err in H.
    + intros ->. destruct (place_item_cells _ _ _ _ _ _ Hs Ho H) as (_ & Hp & _ & Hc).
      split_goals; [done| |by eapply place_remove].
      intros x y Hg. destruct (Hc x y Hg). case_decide; auto.
  - intros p Hp <-. destruct (rotate_or_move g id o r) as [g' res] eqn:H.
    destruct (rotate_or_move_wf _ _ _ _ _ _ Hwf Ho H) as [_ Herr]. split_goals; [|done|].
    + subst inside. cbv beta. rewrite <- (can_place_inside g o (placed_dimensions p) r (Some id)) by done.
      split; [intros ->; by destruct (rotate_or_move_ok _ _ _ _ _ Hwf Ho H) as (? & ? & ? & _); simplify_eq|].
      intros E. pose proof E as E'. apply rotate_or_move_place in E'; [|done..].
      apply place_item_ok_iff with (id := id) in E'. unfold rotate_or_move in H.
      rewrite Hp in H. cbn in H. rewrite E in H. by rewrite H in E'.
    + intros ->. destruct (rotate_or_move_ok _ _ _ _ _ Hwf Ho H) as (p' & Hp' & _ & Hpl).
      simplify_eq. destruct (remove_item_cells g id p Hwf Hp) as (Hsh & Hpr & _ & Hcr).
      destruct (place_item_cells (remove_item g id).1 id _ _ _ _ ltac:(by eapply same_shape_shape) Ho Hpl)
        as (_ & -> & _ & Hc).
      rewrite Hpr, insert_delete_eq. split; [done|]. intros x y Hg.
      destruct (Hc x y) as [H1 H2]; [by apply (same_shape_in_grid g)|].
      case_decide as Hcov; [auto|]. rewrite H2 by done. destruct (Hcr x y Hg) as [H3 H4].
      pose proof (wf_cells g Hwf x y id Hg) as Hcell.
      destruct (decide (placed_covers p x y)) as [Hpc|Hpc].
      * rewrite decide_True by (apply Hcell; by exists p). auto.
      * rewrite decide_False; [auto|]. rewrite Hcell. intros (p' & ? & ?). by simplify_eq.
  - intros Hn. unfold rotate_or_move, remove_item. by rewrite Hn.
Qed.

Lemma grid_operations_correct_witness :
  let g := (place_item (grid_new 5 4) 10 (mk_slot 0 0) (mk_dims 1 3) Normal).1 in
  grid_wf g /\ snd (place_item g 20 (mk_slot 1 0) (mk_dims 3 2) Rotated90) = Ok tt /\
  ~ snd (place_item g 20 (mk_slot 0 2) (mk_dims 3 2) Rotated90) = Ok tt.
Proof.
  intros g. assert (grid_wf g) as Hwf.
  { eapply (place_item_wf (grid_new 5 4)); [by apply grid_new_wf|done| | |apply surjective_pairing]; done. }
  split; [done|].
  pose proof (proj1 (grid_operations_correct g 20 (mk_slot 1 0) (mk_dims 3 2) Rotated90 Hwf
    ltac:(done) ltac:(done) ltac:(done) ltac:(done)) ltac:(vm_compute; reflexivity)) as H1.
  pose proof (proj1 (grid_operations_correct g 20 (mk_slot 0 2) (mk_dims 3 2) Rotated90 Hwf
    ltac:(done) ltac:(done) ltac:(done) ltac:(done)) ltac:(vm_compute; reflexivity)) as H2.
  split.
  - destruct (place_item g 20 (mk_slot 1 0) _ _) as [g' res]. apply H1. split; [vm_compute; done|].
    intros x y [Hx Hy]. cbn in Hx, Hy.
    assert (x = 1 \/ x = 2) as [-> | ->] by lia; assert (y = 0 \/ y = 1 \/ y = 2) as [->|[->| ->]] by lia;
      vm_compute; reflexivity.
  - destruct (place_item g 20 (mk_slot 0 2) _ _) as [g' res]. intros Hr. apply H2 in Hr as [[_ Hb] _].
    vm_compute in Hb. by destruct Hb.
Defined.

End Grid.
