(* ===== verification/Config.v ===== *)
(** The configuration of the world server ([crates/config/src/lib.rs]) and its
    validation.  Reading the file and parsing TOML are outside; a [str] is the list of
    its characters. *)

From S2P Require Import Prelude.

(** ** Strings *)

(** A Rust string as its Unicode scalar values. *)
Abbreviation str := (list Z).

(** [char::is_whitespace]: the Unicode property White_Space. *)
Definition is_whitespace (c : Z) : bool :=
  bool_decide (9 <= c <= 13 \/ 8192 <= c <= 8202 \/ c ∈ [32; 133; 160; 5760; 8232; 8233; 8239; 8287; 12288]).

Fixpoint trim_start (s : str) : str :=
  match s with c :: s' => if is_whitespace c then trim_start s' else s | [] => [] end.
Definition trim (s : str) : str := reverse (trim_start (reverse (trim_start s))).

(** [eq_ignore_ascii_case]. *)
Definition to_ascii_lowercase (c : Z) : Z := if decide (65 <= c <= 90) then c + 32 else c.
Definition eq_ignore_ascii_case (a b : str) : bool :=
  bool_decide (map to_ascii_lowercase a = map to_ascii_lowercase b).

(** The characters of a literal of the source. *)
Definition str_of (s : string) : str := map (fun a => Z.of_nat (Ascii.nat_of_ascii a)) (String.list_ascii_of_string s).

(** The bytes of a string, in UTF-8. *)
Definition utf8_char (c : Z) : list Z :=
  if decide (c < 128) then [c]
  else if decide (c < 2048) then [192 + c / 64; 128 + c mod 64]
  else if decide (c < 65536) then [224 + c / 4096; 128 + (c / 64) mod 64; 128 + c mod 64]
  else [240 + c / 262144; 128 + (c / 4096) mod 64; 128 + (c / 64) mod 64; 128 + c mod 64].
Definition as_bytes (s : str) : list Z := s ≫= utf8_char.

(** ** The sections *)

Record ServerSection := {
  srv_environment : str;
  srv_instance_name : str
}.

Record InitialFrontierSection := {
  init_min_x : Z;
  init_min_y : Z;
  init_width : Z;
  init_height : Z
}.

Record UniverseSection := {
  uni_id : Z;
  uni_seed : str;
  uni_generator_version : Z;
  uni_quadrant_size_mm : Z;
  uni_initial_frontier : InitialFrontierSection
}.

Record SimulationSection := {
  sim_tick_rate_hz : Z;
  sim_zone_command_capacity : Z;
  sim_movement_snapshot_capacity : Z;
  sim_sector_size_meters : Z;
  sim_correction_absorb_max_mm : Z;
  sim_correction_smooth_max_mm : Z;
  sim_correction_hard_snap_threshold_mm : Z;
  sim_correction_smooth_duration_ms : Z;
  sim_correction_rapid_duration_ms : Z
}.

Record PreparationSection := {
  prep_request_queue_capacity : Z;
  prep_result_queue_capacity : Z;
  prep_max_in_flight : Z;
  prep_scheduler_interval_ms : Z;
  prep_max_submissions_per_tick : Z;
  prep_max_prepared_quadrants : Z;
  prep_retry_backoff_ms : Z;
  prep_max_retry_attempts : Z
}.

Record NetworkSection := {
  net_bind_address : str;
  net_certificate_der_path : str;
  net_private_key_der_path : str;
  net_max_connections : Z;
  net_session_event_capacity : Z;
  net_frontier_ack_retry_interval_ms : Z;
  net_frontier_ack_timeout_ms : Z;
  net_frontier_ack_max_retries : Z;
  net_max_datagram_bytes : Z;
  net_max_control_frame_bytes : Z;
  net_max_bidi_streams : Z;
  net_max_uni_streams : Z;
  net_handshake_timeout_ms : Z;
  net_rejection_close_grace_ms : Z;
  net_idle_timeout_ms : Z;
  net_datagram_receive_buffer_bytes : Z;
  net_datagram_send_buffer_bytes : Z;
  net_minimum_client_build : Z
}.

Record PersistenceSection := {
  pers_enabled : bool;
  pers_connection_string : str
}.

Record CacheSection := {
  cache_character_capacity : Z;
  cache_gamedata_versions : Z
}.

Record ServerConfig := {
  sec_server : ServerSection;
  sec_universe : UniverseSection;
  sec_simulation : SimulationSection;
  sec_preparation : PreparationSection;
  sec_network : NetworkSection;
  sec_persistence : PersistenceSection;
  sec_cache : CacheSection
}.

(** ** Validation *)

(** The setting a message names. *)
Inductive ConfigError := InvalidSetting (setting : string).

Definition validate_universe (s : UniverseSection) : result ConfigError unit :=
  _ ← forbid (trim (uni_seed s) = []) (InvalidSetting "universe.seed");
  _ ← forbid (uni_quadrant_size_mm s <= 0) (InvalidSetting "universe.quadrant_size_mm");
  _ ← forbid (init_width (uni_initial_frontier s) = 0) (InvalidSetting "universe.initial_frontier.width");
  forbid (init_height (uni_initial_frontier s) = 0) (InvalidSetting "universe.initial_frontier.height").

Definition validate_simulation (s : SimulationSection) : result ConfigError unit :=
  _ ← forbid (~ 1 <= sim_tick_rate_hz s <= 240) (InvalidSetting "simulation.tick_rate_hz");
  _ ← forbid (sim_zone_command_capacity s = 0) (InvalidSetting "simulation.zone_command_capacity");
  _ ← forbid (sim_movement_snapshot_capacity s = 0) (InvalidSetting "simulation.movement_snapshot_capacity");
  _ ← forbid (sim_correction_absorb_max_mm s >= sim_correction_smooth_max_mm s \/
              sim_correction_smooth_max_mm s >= sim_correction_hard_snap_threshold_mm s) (InvalidSetting "simulation correction thresholds");
  _ ← forbid (sim_correction_smooth_duration_ms s = 0) (InvalidSetting "simulation.correction_smooth_duration_ms");
  forbid (sim_correction_rapid_duration_ms s = 0) (InvalidSetting "simulation.correction_rapid_duration_ms").

Definition validate_preparation (s : PreparationSection) : result ConfigError unit :=
  _ ← forbid (prep_request_queue_capacity s = 0) (InvalidSetting "preparation.request_queue_capacity");
  _ ← forbid (prep_result_queue_capacity s = 0) (InvalidSetting "preparation.result_queue_capacity");
  _ ← forbid (prep_max_in_flight s = 0) (InvalidSetting "preparation.max_in_flight");
  _ ← forbid (~ 10 <= prep_scheduler_interval_ms s <= 60000) (InvalidSetting "preparation.scheduler_interval_ms");
  _ ← forbid (prep_max_submissions_per_tick s = 0) (InvalidSetting "preparation.max_submissions_per_tick");
  _ ← forbid (prep_max_prepared_quadrants s = 0) (InvalidSetting "preparation.max_prepared_quadrants");
  _ ← forbid (~ 10 <= prep_retry_backoff_ms s <= 300000) (InvalidSetting "preparation.retry_backoff_ms");
  forbid (~ 1 <= prep_max_retry_attempts s <= 32) (InvalidSetting "preparation.max_retry_attempts").

Definition validate_network (s : NetworkSection) : result ConfigError unit :=
  _ ← forbid (trim (net_bind_address s) = []) (InvalidSetting "network.bind_address");
  _ ← forbid (trim (net_certificate_der_path s) = [] \/ trim (net_private_key_der_path s) = [])
        (InvalidSetting "network TLS certificate/key paths");
  _ ← forbid (net_max_connections s = 0) (InvalidSetting "network.max_connections");
  _ ← forbid (net_session_event_capacity s = 0) (InvalidSetting "network.session_event_capacity");
  _ ← forbid (~ 100 <= net_frontier_ack_retry_interval_ms s <= 60000) (InvalidSetting "network.frontier_ack_retry_interval_ms");
  _ ← forbid (~ 500 <= net_frontier_ack_timeout_ms s <= 300000) (InvalidSetting "network.frontier_ack_timeout_ms");
  _ ← forbid (net_frontier_ack_timeout_ms s <= net_frontier_ack_retry_interval_ms s)
        (InvalidSetting "network.frontier_ack_timeout_ms against retry interval");
  _ ← forbid (~ 1 <= net_frontier_ack_max_retries s <= 32) (InvalidSetting "network.frontier_ack_max_retries");
  _ ← forbid (net_max_datagram_bytes s < 512 \/ net_max_datagram_bytes s > 65507) (InvalidSetting "network.max_datagram_bytes");
  _ ← forbid (~ 64 <= net_max_control_frame_bytes s <= 65535) (InvalidSetting "network.max_control_frame_bytes");
  _ ← forbid (net_max_bidi_streams s = 0) (InvalidSetting "network.max_bidi_streams");
  _ ← forbid (~ 100 <= net_handshake_timeout_ms s <= 300000) (InvalidSetting "network.handshake_timeout_ms");
  _ ← forbid (~ 100 <= net_rejection_close_grace_ms s <= 10000) (InvalidSetting "network.rejection_close_grace_ms");
  _ ← forbid (~ 1000 <= net_idle_timeout_ms s <= 3600000) (InvalidSetting "network.idle_timeout_ms");
  _ ← forbid (net_datagram_receive_buffer_bytes s < net_max_datagram_bytes s)
        (InvalidSetting "network.datagram_receive_buffer_bytes");
  forbid (net_datagram_send_buffer_bytes s < net_max_datagram_bytes s) (InvalidSetting "network.datagram_send_buffer_bytes").

(** [ServerConfig::validate]. *)
Definition config_validate (c : ServerConfig) : result ConfigError unit :=
  _ ← validate_universe (sec_universe c);
  _ ← validate_simulation (sec_simulation c);
  _ ← validate_preparation (sec_preparation c);
  validate_network (sec_network c).

(** ** What is accepted *)

Lemma trim_start_nil s : trim_start s = [] <-> Forall (fun c => is_whitespace c = true) s.
Proof.
  induction s as [|c s IH]; cbn; [done|]. destruct (is_whitespace c) eqn:E; rewrite list.Forall_cons.
  - rewrite IH. tauto.
  - split; [done|]. intros [H _]. congruence.
Qed.

(** A string is blank after trimming when it has nothing but white space. *)
Lemma trim_nil s : trim s = [] <-> Forall (fun c => is_whitespace c = true) s.
Proof.
  unfold trim. assert (forall l : str, reverse l = [] <-> l = []) as Hrev.
  { intros l. split; [|intros ->; done]. intros H. rewrite <- (reverse_involutive l), H. done. }
  rewrite Hrev, trim_start_nil, Forall_reverse. split.
  - intros H%trim_start_nil. induction s as [|c s IH]; [constructor|]. cbn in H. destruct (is_whitespace c) eqn:E.
    + constructor; [done|by apply IH].
    + cbn in H. by rewrite E in H.
  - intros H%trim_start_nil. rewrite H. constructor.
Qed.

(** The ranges of the types of the fields. *)

Definition universe_fields (s : UniverseSection) : Prop :=
    in_u 64 (uni_id s) /\ in_u 32 (uni_generator_version s) /\ in_i 64 (uni_quadrant_size_mm s).
Definition frontier_fields (s : InitialFrontierSection) : Prop :=
    in_i 64 (init_min_x s) /\ in_i 64 (init_min_y s) /\ in_u 16 (init_width s) /\ in_u 16 (init_height s).
Definition simulation_fields (s : SimulationSection) : Prop :=
    in_u 32 (sim_tick_rate_hz s) /\ in_u 64 (sim_zone_command_capacity s) /\
    in_u 64 (sim_movement_snapshot_capacity s) /\ in_u 32 (sim_sector_size_meters s) /\
    in_u 32 (sim_correction_absorb_max_mm s) /\ in_u 32 (sim_correction_smooth_max_mm s) /\
    in_u 32 (sim_correction_hard_snap_threshold_mm s) /\ in_u 32 (sim_correction_smooth_duration_ms s) /\
    in_u 32 (sim_correction_rapid_duration_ms s).
Definition preparation_fields (s : PreparationSection) : Prop :=
    in_u 64 (prep_request_queue_capacity s) /\ in_u 64 (prep_result_queue_capacity s) /\
    in_u 64 (prep_max_in_flight s) /\ in_u 64 (prep_scheduler_interval_ms s) /\
    in_u 64 (prep_max_submissions_per_tick s) /\ in_u 64 (prep_max_prepared_quadrants s) /\
    in_u 64 (prep_retry_backoff_ms s) /\ in_u 32 (prep_max_retry_attempts s).
Definition network_fields (s : NetworkSection) : Prop :=
    in_u 64 (net_max_connections s) /\ in_u 64 (net_session_event_capacity s) /\
    in_u 64 (net_frontier_ack_retry_interval_ms s) /\ in_u 64 (net_frontier_ack_timeout_ms s) /\
    in_u 32 (net_frontier_ack_max_retries s) /\ in_u 64 (net_max_datagram_bytes s) /\
    in_u 64 (net_max_control_frame_bytes s) /\ in_u 32 (net_max_bidi_streams s) /\
    in_u 32 (net_max_uni_streams s) /\ in_u 64 (net_handshake_timeout_ms s) /\
    in_u 64 (net_rejection_close_grace_ms s) /\ in_u 64 (net_idle_timeout_ms s) /\
    in_u 64 (net_datagram_receive_buffer_bytes s) /\ in_u 64 (net_datagram_send_buffer_bytes s) /\
    in_u 32 (net_minimum_client_build s).

(** What validation accepts in each section. *)
Record universe_ok (s : UniverseSection) : Prop := {
  co_seed : trim (uni_seed s) <> [];
  co_quadrant_size : 0 < uni_quadrant_size_mm s;
  co_width : 0 < init_width (uni_initial_frontier s);
  co_height : 0 < init_height (uni_initial_frontier s)
}.

Record simulation_ok (s : SimulationSection) : Prop := {
  co_tick_rate : 1 <= sim_tick_rate_hz s <= 240;
  co_zone_commands : 0 < sim_zone_command_capacity s;
  co_snapshots : 0 < sim_movement_snapshot_capacity s;
  co_correction : sim_correction_absorb_max_mm s < sim_correction_smooth_max_mm s < sim_correction_hard_snap_threshold_mm s;
  co_durations : 0 < sim_correction_smooth_duration_ms s /\ 0 < sim_correction_rapid_duration_ms s
}.

Record preparation_ok (s : PreparationSection) : Prop := {
  co_queues : 0 < prep_request_queue_capacity s /\ 0 < prep_result_queue_capacity s /\ 0 < prep_max_in_flight s;
  co_submissions : 0 < prep_max_submissions_per_tick s;
  co_prepared : 0 < prep_max_prepared_quadrants s;
  co_interval : 10 <= prep_scheduler_interval_ms s <= 60000;
  co_backoff : 10 <= prep_retry_backoff_ms s <= 300000;
  co_attempts : 1 <= prep_max_retry_attempts s <= 32
}.

Record network_ok (s : NetworkSection) : Prop := {
  co_bind : trim (net_bind_address s) <> [];
  co_tls : trim (net_certificate_der_path s) <> [] /\ trim (net_private_key_der_path s) <> [];
  co_connections : 0 < net_max_connections s;
  co_events : 0 < net_session_event_capacity s;
  co_ack : 100 <= net_frontier_ack_retry_interval_ms s < net_frontier_ack_timeout_ms s;
  co_ack_max : net_frontier_ack_retry_interval_ms s <= 60000 /\ 500 <= net_frontier_ack_timeout_ms s <= 300000;
  co_ack_retries : 1 <= net_frontier_ack_max_retries s <= 32;
  co_datagram : 512 <= net_max_datagram_bytes s <= 65507;
  co_control : 64 <= net_max_control_frame_bytes s <= 65535;
  co_bidi : 0 < net_max_bidi_streams s;
  co_handshake : 100 <= net_handshake_timeout_ms s <= 300000;
  co_grace : 100 <= net_rejection_close_grace_ms s <= 10000;
  co_idle : 1000 <= net_idle_timeout_ms s <= 3600000;
  co_buffers : net_max_datagram_bytes s <= net_datagram_receive_buffer_bytes s /\ net_max_datagram_bytes s <= net_datagram_send_buffer_bytes s
}.

Ltac unguard := repeat match goal with
  | H : (_ ← forbid _ _; _) = Ok _ |- _ => apply bind_Ok in H as ([] & ?%forbid_Ok & H)
  | H : forbid _ _ = Ok _ |- _ => apply forbid_Ok in H
  end.

Ltac guards := split;
  [intros H; unguard; unfold in_u, in_i in *; split; first [assumption|lia|tauto]
  |intros []; repeat first [apply bind_Ok; exists tt; split|apply forbid_Ok]; first [assumption|lia|tauto]].

Lemma validate_universe_Ok s : frontier_fields (uni_initial_frontier s) -> validate_universe s = Ok tt <-> universe_ok s.
Proof. intros Hf. unfold validate_universe, frontier_fields in *. guards. Qed.

Lemma validate_simulation_Ok s : simulation_fields s -> validate_simulation s = Ok tt <-> simulation_ok s.
Proof. intros Hf. unfold validate_simulation, simulation_fields in *. guards. Qed.

Lemma validate_preparation_Ok s : preparation_fields s -> validate_preparation s = Ok tt <-> preparation_ok s.
Proof. intros Hf. unfold validate_preparation, preparation_fields in *. guards. Qed.

Lemma validate_network_Ok s : network_fields s -> validate_network s = Ok tt <-> network_ok s.
Proof. intros Hf. unfold validate_network, network_fields in *. guards. Qed.

Definition config_fields (c : ServerConfig) : Prop :=
  universe_fields (sec_universe c) /\ frontier_fields (uni_initial_frontier (sec_universe c)) /\
  simulation_fields (sec_simulation c) /\ preparation_fields (sec_preparation c) /\ network_fields (sec_network c).

Definition config_ok (c : ServerConfig) : Prop :=
  universe_ok (sec_universe c) /\ simulation_ok (sec_simulation c) /\ preparation_ok (sec_preparation c) /\ network_ok (sec_network c).

(** Validation decides exactly this, on values of the fields' types. *)
Lemma config_validate_Ok c : config_fields c -> config_validate c = Ok tt <-> config_ok c.
Proof.
  intros (Hu & Hf & Hs & Hp & Hn). unfold config_ok.
  rewrite <- (validate_universe_Ok _ Hf), <- (validate_simulation_Ok _ Hs), <- (validate_preparation_Ok _ Hp), <- (validate_network_Ok _ Hn).
  unfold config_validate. split.
  - by intros ([] & ? & ([] & ? & ([] & ? & ?)%bind_Ok)%bind_Ok)%bind_Ok.
  - intros (? & ? & ? & ?). by do 3 (apply bind_Ok; exists tt; split; [done|]).
Qed.
