(* ===== verification/GameData.v ===== *)
(** The definitions of the game ([crates/gamedata/src]): the schemas of the files
    ([schemas.rs]), loading and validating them ([loader.rs]), the manifest ([lib.rs])
    and the binary table of items ([items.rs]).  Reading files, parsing YAML and bincode
    are given by parameters. *)

From S2P Require Import Prelude F32 Items Config.

(** [f64] is binary64. *)
Definition f64 : Type := spec_float.
Definition f64_zero : f64 := S754_zero false.

(** ** Schemas *)

Record MovementSpeedsConfig := {
  msc_speed_mm_per_second : Z;
  msc_sprint_speed_mm_per_second : Z
}.

Record MovementPhysicsConfig := {
  mpc_input_timeout_ticks : Z;
  mpc_character_radius_mm : Z
}.

Record MovementConfig := {
  mc_speeds : MovementSpeedsConfig;
  mc_physics : MovementPhysicsConfig
}.

Record EncumbranceThreshold := {
  et_trigger_percentage : F32.f32;
  et_speed_multiplier : F32.f32;
  et_stamina_drain_multiplier : F32.f32
}.

Record EncumbranceBaseCapacity := {
  ebc_starting_max_weight_kg : F32.f32;
  ebc_bonus_weight_per_strength_point : F32.f32
}.

Record EncumbranceConfig := {
  ec_base_capacity : EncumbranceBaseCapacity;
  ec_thresholds : list EncumbranceThreshold
}.

Record UniverseDimensions := {
  ud_total_universe_extent_km : Z;
  ud_quadrant_side_length_cm : f64
}.

Record UniverseStreaming := {
  us_client_reveal_radius_quadrants : Z;
  us_server_prep_margin_quadrants : Z;
  us_quadrant_cache_timeout_ms : Z
}.

Record UniverseConfig := {
  uc_dimensions : UniverseDimensions;
  uc_streaming : UniverseStreaming
}.

Record AbyssMemoryThresholds := {
  amt_max_score_cap : F32.f32;
  amt_passive_decay_per_hour : F32.f32
}.

Record AbyssMemoryWeights := {
  amw_violence_per_kill : F32.f32;
  amw_nature_deforestation_per_tree : F32.f32;
  amw_waste_per_abandoned_resource : F32.f32;
  amw_preservation_per_action : F32.f32
}.

Record AbyssMemoryConfig := {
  amc_thresholds : AbyssMemoryThresholds;
  amc_weights : AbyssMemoryWeights
}.

Record CreatureBodyProfile := {
  cbp_base_scale : F32.f32;
  cbp_scale_variance : F32.f32
}.

Record CreatureNaturalDefenses := {
  cnd_base_armor : F32.f32;
  cnd_poison_resistance_pct : F32.f32;
  cnd_fire_resistance_pct : F32.f32
}.

Record CreatureLocomotion := {
  cl_walk_speed_cm_s : F32.f32;
  cl_run_speed_cm_s : F32.f32
}.

Record CreatureSenses := {
  cs_vision_range_meters : F32.f32;
  cs_hearing_range_meters : F32.f32
}.

Record CreatureSpeciesDefinition := {
  csd_id : str;
  csd_name : str;
  csd_creature_type : str;
  csd_body : CreatureBodyProfile;
  csd_natural_defenses : CreatureNaturalDefenses;
  csd_locomotion : CreatureLocomotion;
  csd_senses : CreatureSenses;
  csd_allowed_archetypes : list str
}.

Record SpeciesDatabaseConfig := {
  sdc_species : list CreatureSpeciesDefinition
}.

Record CombatRankDefinition := {
  crd_id : str;
  crd_name : str;
  crd_health_multiplier : F32.f32;
  crd_damage_multiplier : F32.f32;
  crd_armor_multiplier : F32.f32;
  crd_trait_budget : Z;
  crd_reward_multiplier : F32.f32
}.

Record CombatRanksConfig := {
  crc_combat_ranks : list CombatRankDefinition
}.

Record CharacterCreationConfig := {
  ccc_starting_attribute_points : Z;
  ccc_max_qualities_allowed : Z;
  ccc_max_defects_allowed : Z;
  ccc_base_attribute_minimum : Z;
  ccc_base_attribute_maximum : Z
}.

Record StrengthScaling := {
  ss_attack_power_min_per_point : F32.f32;
  ss_attack_power_max_per_point : F32.f32;
  ss_carry_weight_bonus_kg : F32.f32
}.

Record DefenseScaling := {
  ds_damage_reduction_pct_per_point : F32.f32;
  ds_flat_armor_per_point : F32.f32
}.

Record AgilityScaling := {
  as_move_speed_bonus_per_point : F32.f32;
  as_attack_speed_bonus_pct : F32.f32
}.

Record VitalityScaling := {
  vs_health_points_per_point : F32.f32;
  vs_health_regen_per_second : F32.f32
}.

Record IntelligenceScaling := {
  is_energy_points_per_point : F32.f32;
  is_energy_regen_bonus_pct : F32.f32
}.

Record AttributesConfig := {
  ac_strength : StrengthScaling;
  ac_defense : DefenseScaling;
  ac_agility : AgilityScaling;
  ac_vitality : VitalityScaling;
  ac_intelligence : IntelligenceScaling
}.

Record ResetTier := {
  rt_reset_min : Z;
  rt_reset_max : Z;
  rt_required_level : Z;
  rt_bonus_attribute_points : Z;
  rt_bonus_skill_points : Z
}.

Record ResetGeneral := {
  rg_max_resets_allowed : Z;
  rg_require_unequip_items : bool;
  rg_retain_sub_skills : bool;
  rg_retain_discovered_quadrants : bool
}.

Record ResetConfig := {
  rc_general : ResetGeneral;
  rc_tiers : list ResetTier
}.

Record ResourceDropEntry := {
  rde_item_id : str;
  rde_min_quantity : Z;
  rde_max_quantity : Z;
  rde_drop_chance_pct : F32.f32
}.

Record ResourceDefinition := {
  rd_id : str;
  rd_name : str;
  rd_resource_type_id : Z;
  rd_max_health : Z;
  rd_required_tool_type : str;
  rd_minimum_tool_tier : Z;
  rd_base_xp_reward : F32.f32;
  rd_drops : list ResourceDropEntry
}.

Record GatheringConfig := {
  gc_resources : list ResourceDefinition
}.

Record EnvironmentalModifier := {
  em_effect_id : str;
  em_interval_seconds : Z;
  em_attribute_impact : str;
  em_value_change : Z
}.

Record AdvancedMobSpawnRule := {
  amsr_mob_id : str;
  amsr_weight : Z;
  amsr_min_level : Z;
  amsr_max_level : Z;
  amsr_active_time_range : (Z * Z);
  amsr_quadrant_density_cap : Z
}.

Record BiomeAdvancedConfig := {
  bac_biome_id : str;
  bac_numeric_id : Z;
  bac_display_name : str;
  bac_description : str;
  bac_allowed_terrains : list str;
  bac_structural_features : list str;
  bac_base_temperature : F32.f32;
  bac_weather_types : list str;
  bac_ambient_sounds : list str;
  bac_environmental_modifiers : list EnvironmentalModifier;
  bac_possible_mobs : list AdvancedMobSpawnRule
}.

Record BiomeDatabaseConfig := {
  bdc_biomes : gmap str BiomeAdvancedConfig
}.

(** ** The registry *)

Record GameDataRegistry := {
  content_hash : str;
  movement : MovementConfig;
  encumbrance : EncumbranceConfig;
  universe : UniverseConfig;
  abyss_memory : AbyssMemoryConfig;
  species : SpeciesDatabaseConfig;
  combat_ranks : CombatRanksConfig;
  character_creation : CharacterCreationConfig;
  attributes : AttributesConfig;
  reset_rules : ResetConfig;
  gathering : GatheringConfig;
  biomes : BiomeDatabaseConfig
}.

Inductive GameDataError :=
| FileUnreadable (path : string)
| FileSyntax (path : string)
| ZeroMovementSpeed
| NoQuadrantSide
| NoEncumbranceThreshold
| ZeroStartingPoints
| NoCombatRank
| NoResource
| NoBiome
| ZeroBiomeId (name : str)
| DuplicateBiomeId (numeric_id : Z) (name : str).

(** The loop over the map of biomes, which comes in some order. *)
Fixpoint check_biomes (l : list (str * BiomeAdvancedConfig)) (seen : gset Z) : result GameDataError unit :=
  match l with
  | [] => Ok tt
  | (name, config) :: l' =>
      _ ← forbid (bac_numeric_id config = 0) (ZeroBiomeId name);
      _ ← forbid (bac_numeric_id config ∈ seen) (DuplicateBiomeId (bac_numeric_id config) name);
      check_biomes l' ({[ bac_numeric_id config ]} ∪ seen)
  end.

(** [GameDataRegistry::validate]; [order] is the order of the hash map. *)
Definition registry_validate (order : list (str * BiomeAdvancedConfig)) (r : GameDataRegistry) : result GameDataError unit :=
  _ ← forbid (msc_speed_mm_per_second (mc_speeds (movement r)) = 0) ZeroMovementSpeed;
  _ ← forbid (SFleb (ud_quadrant_side_length_cm (uc_dimensions (universe r))) f64_zero = true) NoQuadrantSide;
  _ ← forbid (ec_thresholds (encumbrance r) = []) NoEncumbranceThreshold;
  _ ← forbid (ccc_starting_attribute_points (character_creation r) = 0) ZeroStartingPoints;
  _ ← forbid (crc_combat_ranks (combat_ranks r) = []) NoCombatRank;
  _ ← forbid (gc_resources (gathering r) = []) NoResource;
  _ ← forbid (bdc_biomes (biomes r) = ∅) NoBiome;
  check_biomes order ∅.

(** [serde_yaml::from_str] at the types of the registry. *)
Record Parsers := {
  parse_movement : str -> option MovementConfig;
  parse_encumbrance : str -> option EncumbranceConfig;
  parse_universe : str -> option UniverseConfig;
  parse_abyss_memory : str -> option AbyssMemoryConfig;
  parse_species : str -> option SpeciesDatabaseConfig;
  parse_combat_ranks : str -> option CombatRanksConfig;
  parse_character_creation : str -> option CharacterCreationConfig;
  parse_attributes : str -> option AttributesConfig;
  parse_reset_rules : str -> option ResetConfig;
  parse_gathering : str -> option GatheringConfig;
  parse_biomes : str -> option BiomeDatabaseConfig
}.

Section Load.
(** The files below the directory, the hash function and its text form. *)
Context (files : string -> option str) (blake3_hash : list Z -> list Z) (to_hex : list Z -> str) (yaml : Parsers).

(** One of the eleven blocks: read, hash, parse. *)
Definition load_file {A} (path : string) (parse : str -> option A) (hashed : list Z) : result GameDataError (A * list Z) :=
  raw ← ok_or (FileUnreadable path) (files path);
  a ← ok_or (FileSyntax path) (parse raw);
  Ok (a, hashed ++ as_bytes raw).

(** [load_from_directory] up to the validation. *)
Definition load_files : result GameDataError GameDataRegistry :=
  '(movement, h) ← load_file "character/movement.yaml" (parse_movement yaml) [];
  '(encumbrance, h) ← load_file "character/encumbrance.yaml" (parse_encumbrance yaml) h;
  '(universe, h) ← load_file "world/universe.yaml" (parse_universe yaml) h;
  '(abyss, h) ← load_file "world/abyss_memory.yaml" (parse_abyss_memory yaml) h;
  '(species, h) ← load_file "creatures/species.yaml" (parse_species yaml) h;
  '(ranks, h) ← load_file "creatures/combat_ranks.yaml" (parse_combat_ranks yaml) h;
  '(creation, h) ← load_file "character/creation.yaml" (parse_character_creation yaml) h;
  '(attributes, h) ← load_file "character/attributes.yaml" (parse_attributes yaml) h;
  '(reset, h) ← load_file "character/reset.yaml" (parse_reset_rules yaml) h;
  '(gathering, h) ← load_file "gathering/resources.yaml" (parse_gathering yaml) h;
  '(biomes, h) ← load_file "world/biomes.yaml" (parse_biomes yaml) h;
  Ok {| content_hash := to_hex (blake3_hash h); movement := movement; encumbrance := encumbrance; universe := universe;
        abyss_memory := abyss; species := species; combat_ranks := ranks; character_creation := creation;
        attributes := attributes; reset_rules := reset; gathering := gathering; biomes := biomes |}.

Definition load_from_directory (order : GameDataRegistry -> list (str * BiomeAdvancedConfig)) : result GameDataError GameDataRegistry :=
  r ← load_files; _ ← registry_validate (order r) r; Ok r.

End Load.

(** ** The manifest *)

Record GameDataManifest := { schema_version : Z; content_version : str; universe_generator_version : Z }.

Inductive ManifestError := ManifestUnreadable | ManifestSyntax | ZeroSchemaVersion | EmptyContentVersion | ZeroGeneratorVersion.

Definition load_manifest (source : option str) (parse : str -> option GameDataManifest) : result ManifestError GameDataManifest :=
  raw ← ok_or ManifestUnreadable source;
  m ← ok_or ManifestSyntax (parse raw);
  _ ← forbid (schema_version m = 0) ZeroSchemaVersion;
  _ ← forbid (trim (content_version m) = []) EmptyContentVersion;
  _ ← forbid (universe_generator_version m = 0) ZeroGeneratorVersion;
  Ok m.

(** ** The table of items *)

(** [RawItemDefinition] of the compiler ([apps/gamedata-compiler/src/main.rs]). *)
Record RawDimensions := { raw_width : Z; raw_height : Z }.
Record RawItemDefinition := {
  raw_id : Z;
  raw_code_name : string;
  raw_base_weight_grams : Z;
  raw_dimensions : RawDimensions;
  raw_max_durability : Z;
  raw_combat : option WeaponCombatStats
}.
Record RawItemFile := { raw_session : Z; raw_category : str; raw_items : list RawItemDefinition }.

Inductive CompileError := ItemFileUnreadable (path : str) | ItemFileSyntax (path : str) | DuplicateItemId (id : Z) (path : str).

Definition compile_item (raw : RawItemDefinition) : ItemDefinition := {|
  def_id := raw_id raw; code_name := raw_code_name raw; base_weight_grams := raw_base_weight_grams raw;
  dimensions := mk_dims (raw_width (raw_dimensions raw)) (raw_height (raw_dimensions raw));
  max_durability := raw_max_durability raw; max_stack := 1; combat := raw_combat raw; equip_slot := None |}.

(** The loop over the items of a file, with what was compiled before. *)
Fixpoint compile_items (path : str) (items : list RawItemDefinition) (compiled : list ItemDefinition) (seen : gset Z)
  : result CompileError (list ItemDefinition * gset Z) :=
  match items with
  | [] => Ok (compiled, seen)
  | raw :: items' =>
      _ ← forbid (raw_id raw ∈ seen) (DuplicateItemId (raw_id raw) path);
      compile_items path items' (compiled ++ [compile_item raw]) ({[ raw_id raw ]} ∪ seen)
  end.

Definition parse_and_validate_file (read : str -> option str) (parse : str -> option RawItemFile) (path : str)
  (compiled : list ItemDefinition) (seen : gset Z) : result CompileError (list ItemDefinition * gset Z) :=
  content ← ok_or (ItemFileUnreadable path) (read path);
  file ← ok_or (ItemFileSyntax path) (parse content);
  compile_items path (raw_items file) compiled seen.

(** The walk over the files of the directory. *)
Fixpoint compile_files (read : str -> option str) (parse : str -> option RawItemFile) (paths : list str)
  (compiled : list ItemDefinition) (seen : gset Z) : result CompileError (list ItemDefinition * gset Z) :=
  match paths with
  | [] => Ok (compiled, seen)
  | path :: paths' =>
      '(compiled, seen) ← parse_and_validate_file read parse path compiled seen;
      compile_files read parse paths' compiled seen
  end.

(** [ItemRegistry]. *)
Abbreviation ItemRegistry := (gmap Z ItemDefinition).

Definition registry_of (items : list ItemDefinition) : ItemRegistry :=
  foldl (fun m item => <[def_id item := item]> m) ∅ items.

Definition load_from_binary (buffer : option (list Z)) (deserialize : list Z -> option (list ItemDefinition))
  : option ItemRegistry :=
  bytes ← buffer; items ← deserialize bytes; Some (registry_of items).

Definition registry_get (r : ItemRegistry) (id : Z) : option ItemDefinition := r !! id.

(** ** What is accepted *)

Lemma check_biomes_Ok l : forall seen, check_biomes l seen = Ok tt <->
  Forall (fun b => bac_numeric_id b.2 <> 0 /\ bac_numeric_id b.2 ∉ seen) l /\ NoDup (map (fun b => bac_numeric_id b.2) l).
Proof.
  induction l as [|[name config] l IH]; intros seen; cbn [check_biomes map].
  { split; [intros _; split; constructor|done]. }
  rewrite list.Forall_cons, list.NoDup_cons. cbn [snd]. split.
  - intros ([] & H0%forbid_Ok & ([] & Hs%forbid_Ok & H)%bind_Ok)%bind_Ok. apply IH in H as [Hall Hnd]. split; [split; [done|]|split; [|done]].
    + eapply list.Forall_impl; [exact Hall|]. cbn. set_solver.
    + intros (b & E & Hb)%list_elem_of_fmap. eapply list.Forall_forall in Hall; [|exact Hb]. cbn in *. set_solver.
  - intros [[[H0 Hs] Hall] [Hni Hnd]]. apply bind_Ok. exists tt. split; [by apply forbid_Ok|].
    apply bind_Ok. exists tt. split; [by apply forbid_Ok|]. apply IH. split; [|done].
    apply list.Forall_forall. intros b Hb. eapply list.Forall_forall in Hall as [? ?]; [|exact Hb]. split; [done|].
    intros [E%elem_of_singleton|?]%elem_of_union; [|done]. destruct Hni. rewrite <- E. by apply (list_elem_of_fmap_2 (fun b => bac_numeric_id b.2)).
Qed.

(** What validation accepts, whatever the order of the hash map. *)
Record registry_ok (r : GameDataRegistry) : Prop := {
  gd_speed : msc_speed_mm_per_second (mc_speeds (movement r)) <> 0;
  gd_side : SFleb (ud_quadrant_side_length_cm (uc_dimensions (universe r))) f64_zero = false;
  gd_thresholds : ec_thresholds (encumbrance r) <> [];
  gd_points : ccc_starting_attribute_points (character_creation r) <> 0;
  gd_ranks : crc_combat_ranks (combat_ranks r) <> [];
  gd_resources : gc_resources (gathering r) <> [];
  gd_biomes : bdc_biomes (biomes r) <> ∅;
  gd_biome_ids : forall name config, bdc_biomes (biomes r) !! name = Some config -> bac_numeric_id config <> 0;
  gd_biome_ids_differ : forall n n' c c', bdc_biomes (biomes r) !! n = Some c -> bdc_biomes (biomes r) !! n' = Some c' ->
    bac_numeric_id c = bac_numeric_id c' -> n = n'
}.

Definition biome_order (r : GameDataRegistry) (order : list (str * BiomeAdvancedConfig)) : Prop :=
  order ≡ₚ map_to_list (bdc_biomes (biomes r)).

Lemma biome_order_elem r order : biome_order r order -> forall n c, (n, c) ∈ order <-> bdc_biomes (biomes r) !! n = Some c.
Proof. intros Ho n c. rewrite Ho. apply elem_of_map_to_list. Qed.

Lemma biome_ids_differ r order : biome_order r order -> NoDup (map (fun b => bac_numeric_id b.2) order) <->
  (forall n n' c c', bdc_biomes (biomes r) !! n = Some c -> bdc_biomes (biomes r) !! n' = Some c' ->
     bac_numeric_id c = bac_numeric_id c' -> n = n').
Proof.
  intros Ho. pose proof (biome_order_elem r order Ho) as Hin.
  assert (NoDup (map fst order)) as Hnd.
  { apply NoDup_ListNoDup. eapply Permutation_NoDup; [apply Permutation_map, Permutation_sym; exact Ho|]. apply NoDup_ListNoDup, NoDup_fst_map_to_list. }
  split.
  - intros Hids n n' c c' En En' E. apply Hin, list_elem_of_lookup in En as [i Ei]. apply Hin, list_elem_of_lookup in En' as [j Ej].
    assert (i = j) as <-.
    { eapply (list.NoDup_lookup _ _ _ (bac_numeric_id c) Hids); rewrite list_lookup_fmap; [by rewrite Ei|rewrite Ej; cbn; by rewrite E]. }
    rewrite Ei in Ej. by injection Ej.
  - intros Hdiff. apply list.NoDup_alt. intros i j x Ei Ej. rewrite list_lookup_fmap in Ei, Ej.
    destruct (order !! i) as [[n c]|] eqn:En; [|done]. destruct (order !! j) as [[n' c']|] eqn:En'; [|done].
    injection Ei as <-. injection Ej as E. cbn in E.
    assert (n = n') as <- by (eapply Hdiff; [apply Hin; by eapply list_elem_of_lookup_2|apply Hin; by eapply list_elem_of_lookup_2|done]).
    eapply (list.NoDup_lookup _ _ _ n Hnd); rewrite list_lookup_fmap; [by rewrite En|by rewrite En'].
Qed.

Lemma registry_validate_Ok r order : biome_order r order -> registry_validate order r = Ok tt <-> registry_ok r.
Proof.
  intros Ho. pose proof (biome_order_elem r order Ho) as Hin. unfold registry_validate.
  split.
  - intros ([] & ?%forbid_Ok & ([] & Hside%forbid_Ok & ([] & ?%forbid_Ok & ([] & ?%forbid_Ok & ([] & ?%forbid_Ok &
      ([] & ?%forbid_Ok & ([] & ?%forbid_Ok & H)%bind_Ok)%bind_Ok)%bind_Ok)%bind_Ok)%bind_Ok)%bind_Ok)%bind_Ok.
    apply check_biomes_Ok in H as [Hall Hd]. pose proof (proj1 (biome_ids_differ r order Ho) Hd). split; try done.
    + by destruct (SFleb _ _).
    + intros n c E. apply Hin in E. eapply list.Forall_forall in Hall as [? _]; [|exact E]. done.
  - intros []. do 7 (apply bind_Ok; exists tt; split; [apply forbid_Ok; try done; by rewrite gd_side0|]).
    apply check_biomes_Ok. split; [|by apply (biome_ids_differ r order Ho)].
    apply list.Forall_forall. intros [n c] Hb. split; [by eapply gd_biome_ids0, Hin|set_solver].
Qed.

(** ** The items *)

Lemma compile_items_Ok path items : forall compiled seen compiled' seen', compile_items path items compiled seen = Ok (compiled', seen') ->
  (forall id, id ∈ seen <-> id ∈ map def_id compiled) -> NoDup (map def_id compiled) ->
  compiled' = compiled ++ map compile_item items /\ (forall id, id ∈ seen' <-> id ∈ map def_id compiled') /\ NoDup (map def_id compiled').
Proof.
  induction items as [|raw items IH]; intros compiled seen compiled' seen' E Hseen Hnd; cbn in E.
  - injection E as <- <-. by rewrite app_nil_r.
  - apply bind_Ok in E as ([] & Hnew%forbid_Ok & E). apply IH in E as (-> & Hs & Hnd').
    + split; [by rewrite <- app_assoc|done].
    + intros id. rewrite map_app, elem_of_union, elem_of_app, Hseen. cbn. set_solver.
    + rewrite map_app. apply list.NoDup_app. split; [done|]. split; [|apply list.NoDup_singleton]. cbn. set_solver.
Qed.

Lemma registry_of_spec items : NoDup (map def_id items) ->
  forall id item, registry_of items !! id = Some item <-> item ∈ items /\ def_id item = id.
Proof.
  unfold registry_of. induction items as [|x items IH] using rev_ind; intros Hnd id item.
  - cbn. rewrite lookup_empty. split; [done|]. intros [[]%not_elem_of_nil _].
  - rewrite map_app in Hnd. apply list.NoDup_app in Hnd as (Hnd & Hdisj & _). rewrite foldl_app. cbn.
    rewrite lookup_insert_Some, elem_of_app, list_elem_of_singleton, (IH Hnd). split.
    + intros [[<- <-]|[Hne [? ?]]]; [split; [by right|done]|split; [by left|done]].
    + intros [[Hin| ->] <-]; [|by left]. right. split; [|done]. intros E.
      apply (Hdisj (def_id item)); [by apply list_elem_of_fmap_2|cbn; rewrite <- E; by left].
Qed.

Lemma compile_files_Ok read parse paths : forall compiled seen compiled' seen',
  compile_files read parse paths compiled seen = Ok (compiled', seen') ->
  (forall id, id ∈ seen <-> id ∈ map def_id compiled) -> NoDup (map def_id compiled) ->
  NoDup (map def_id compiled') /\
  forall item, item ∈ compiled' <-> item ∈ compiled \/ exists path content file raw,
    path ∈ paths /\ read path = Some content /\ parse content = Some file /\ raw ∈ raw_items file /\ item = compile_item raw.
Proof.
  induction paths as [|path paths IH]; intros compiled seen compiled' seen' E Hseen Hnd; cbn in E.
  - injection E as <- <-. split; [done|]. intros item. split; [by left|]. intros [?|(p & c & f & raw & []%not_elem_of_nil & _)]; done.
  - apply bind_Ok in E as ([comp1 seen1] & E1 & E).
    apply bind_Ok in E1 as (content & Er & E1). apply bind_Ok in E1 as (file & Ep & E1).
    destruct (read path) as [content'|] eqn:Erd; [|done]. injection Er as ->.
    destruct (parse content) as [file'|] eqn:Epa; [|done]. injection Ep as ->.
    destruct (compile_items_Ok _ _ _ _ _ _ E1 Hseen Hnd) as (-> & Hseen1 & Hnd1).
    destruct (IH _ _ _ _ E Hseen1 Hnd1) as [Hnd' Hin]. split; [done|]. intros item. rewrite Hin, elem_of_app. split.
    + intros [[?|(raw & -> & Hraw)%list_elem_of_fmap]|(p & c & f & raw & Hp & ?)].
      * by left.
      * right. exists path, content, file, raw. by repeat split; [left|..].
      * right. exists p, c, f, raw. by split; [right|].
    + intros [?|(p & c & f & raw & Hp & Ec & Ef & Hraw & ->)]; [by left; left|]. apply elem_of_cons in Hp as [->|Hp].
      * left. right. assert (f = file) as -> by congruence. by apply list_elem_of_fmap_2.
      * right. by exists p, c, f, raw.
Qed.

(** The table of items the game reads is what its source files define: when the compiler accepts the files and the
    game loads the bytes it wrote (bincode reads back what it serialised), looking up an identifier gives an item exactly
    when one of the files defines it, and no identifier is defined twice. *)
Theorem items_compiled read parse paths (serialize : list ItemDefinition -> list Z) deserialize items seen :
  compile_files read parse paths [] ∅ = Ok (items, seen) -> deserialize (serialize items) = Some items ->
  NoDup (map def_id items) /\
  exists r, load_from_binary (Some (serialize items)) deserialize = Some r /\
    forall id item, registry_get r id = Some item <-> exists path content file raw,
      path ∈ paths /\ read path = Some content /\ parse content = Some file /\ raw ∈ raw_items file /\
      raw_id raw = id /\ item = compile_item raw.
Proof.
  intros E Hbin. destruct (compile_files_Ok read parse paths [] ∅ items seen E) as [Hnd Hin]; [set_solver|constructor|].
  split; [done|]. exists (registry_of items). unfold load_from_binary. cbn. rewrite Hbin. split; [done|].
  intros id item. unfold registry_get. rewrite registry_of_spec, Hin by done. split.
  - intros [[[]%not_elem_of_nil|(p & c & f & raw & Hp & Hc & Hf & Hraw & ->)] <-]. by exists p, c, f, raw.
  - intros (p & c & f & raw & Hp & Hc & Hf & Hraw & <- & ->). split; [right; by exists p, c, f, raw|done].
Qed.

(** ** Loading *)

Section Loaded.
Context (files : string -> option str) (blake3_hash : list Z -> list Z) (to_hex : list Z -> str) (yaml : Parsers).

(** The files in the order in which they are read. *)
Definition game_files : list string :=
  ["character/movement.yaml"; "character/encumbrance.yaml"; "world/universe.yaml"; "world/abyss_memory.yaml";
   "creatures/species.yaml"; "creatures/combat_ranks.yaml"; "character/creation.yaml"; "character/attributes.yaml";
   "character/reset.yaml"; "gathering/resources.yaml"; "world/biomes.yaml"]%string.

(** [a] is what the file at [path] says. *)
Definition file_says {A} (path : string) (parse : str -> option A) (a : A) : Prop :=
  exists raw, files path = Some raw /\ parse raw = Some a.

(** A registry as the files of the directory define it. *)
Record registry_says (r : GameDataRegistry) : Prop := {
  says_movement : file_says "character/movement.yaml" (parse_movement yaml) (movement r);
  says_encumbrance : file_says "character/encumbrance.yaml" (parse_encumbrance yaml) (encumbrance r);
  says_universe : file_says "world/universe.yaml" (parse_universe yaml) (universe r);
  says_abyss_memory : file_says "world/abyss_memory.yaml" (parse_abyss_memory yaml) (abyss_memory r);
  says_species : file_says "creatures/species.yaml" (parse_species yaml) (species r);
  says_combat_ranks : file_says "creatures/combat_ranks.yaml" (parse_combat_ranks yaml) (combat_ranks r);
  says_creation : file_says "character/creation.yaml" (parse_character_creation yaml) (character_creation r);
  says_attributes : file_says "character/attributes.yaml" (parse_attributes yaml) (attributes r);
  says_reset : file_says "character/reset.yaml" (parse_reset_rules yaml) (reset_rules r);
  says_gathering : file_says "gathering/resources.yaml" (parse_gathering yaml) (gathering r);
  says_biomes : file_says "world/biomes.yaml" (parse_biomes yaml) (biomes r);
  says_hash : content_hash r = to_hex (blake3_hash (concat (map (fun p => from_option as_bytes [] (files p)) game_files)))
}.

Lemma load_file_Ok {A} path (parse : str -> option A) h a h' : load_file files path parse h = Ok (a, h') <->
  file_says path parse a /\ h' = h ++ from_option as_bytes [] (files path).
Proof.
  unfold load_file, file_says. destruct (files path) as [raw|]; cbn; [|naive_solver].
  destruct (parse raw) as [a'|] eqn:E; cbn; naive_solver.
Qed.

Lemma load_files_Ok r : load_files files blake3_hash to_hex yaml = Ok r <-> registry_says r.
Proof.
  split.
  - unfold load_files. intros E.
    repeat (apply bind_Ok in E as ([? ?] & [? ->]%load_file_Ok & E)). injection E as <-.
    split; cbn; try done. by rewrite app_nil_r, <- !app_assoc.
  - intros []. unfold load_files. destruct r as [h mv en un ab sp ra cr att re ga bi]. cbn in *.
    do 11 (apply bind_Ok; eexists (_, _); split; [apply load_file_Ok; split; [eassumption|reflexivity]|]; cbn beta iota).
    subst h. cbn. by rewrite app_nil_r, <- !app_assoc.
Qed.

End Loaded.

(** C31: loading the game data succeeds exactly with a registry that the eleven files define, part by part, that carries
    the hash of their bytes in the order of reading, and that satisfies every rule of the validation; the order in which
    the hash map of biomes is walked does not matter. *)
Theorem game_data_loaded files blake3_hash to_hex yaml order r :
  (forall r', biome_order r' (order r')) ->
  load_from_directory files blake3_hash to_hex yaml order = Ok r <->
  registry_says files blake3_hash to_hex yaml r /\ registry_ok r.
Proof.
  intros Ho. unfold load_from_directory. split.
  - intros (r' & Hr & ([] & Hv & [= <-])%bind_Ok)%bind_Ok.
    split; [by apply load_files_Ok|by apply (registry_validate_Ok _ _ (Ho r'))].
  - intros [Hs Hok]. apply bind_Ok. exists r. split; [by apply load_files_Ok|]. apply bind_Ok. exists tt.
    split; [by apply (registry_validate_Ok _ _ (Ho r))|done].
Qed.

(** ** The shipped files *)

(** The content of the shipped files that the validation and the server look at. *)
Definition f32_of (n k : Z) : F32.f32 := F32.of_decimal n k.
Definition shipped_biome (id : string) (n : Z) : BiomeAdvancedConfig := {|
  bac_biome_id := str_of id; bac_numeric_id := n; bac_display_name := str_of id; bac_description := [];
  bac_allowed_terrains := []; bac_structural_features := []; bac_base_temperature := f32_of 18 0; bac_weather_types := [];
  bac_ambient_sounds := []; bac_environmental_modifiers := []; bac_possible_mobs := [] |}.

Definition shipped_registry : GameDataRegistry := {|
  content_hash := [];
  movement := {| mc_speeds := {| msc_speed_mm_per_second := 4500; msc_sprint_speed_mm_per_second := 7000 |};
                 mc_physics := {| mpc_input_timeout_ticks := 5; mpc_character_radius_mm := 250 |} |};
  encumbrance := {| ec_base_capacity := {| ebc_starting_max_weight_kg := f32_of 50 0; ebc_bonus_weight_per_strength_point := f32_of 25 1 |};
                    ec_thresholds := [{| et_trigger_percentage := f32_of 60 2; et_speed_multiplier := f32_of 90 2;
                                         et_stamina_drain_multiplier := f32_of 110 2 |}] |};
  universe := {| uc_dimensions := {| ud_total_universe_extent_km := 9000000000; ud_quadrant_side_length_cm := binary_normalize 53 1024 81920 0 false |};
                 uc_streaming := {| us_client_reveal_radius_quadrants := 1; us_server_prep_margin_quadrants := 2; us_quadrant_cache_timeout_ms := 60000 |} |};
  abyss_memory := {| amc_thresholds := {| amt_max_score_cap := f32_of 100 0; amt_passive_decay_per_hour := f32_of 1 0 |};
                     amc_weights := {| amw_violence_per_kill := f32_of 1 0; amw_nature_deforestation_per_tree := f32_of 1 0;
                                       amw_waste_per_abandoned_resource := f32_of 1 0; amw_preservation_per_action := f32_of 1 0 |} |};
  species := {| sdc_species := [] |};
  combat_ranks := {| crc_combat_ranks := [{| crd_id := str_of "common"; crd_name := str_of "common"; crd_health_multiplier := f32_of 1 0;
                       crd_damage_multiplier := f32_of 1 0; crd_armor_multiplier := f32_of 1 0; crd_trait_budget := 0;
                       crd_reward_multiplier := f32_of 1 0 |}] |};
  character_creation := {| ccc_starting_attribute_points := 20; ccc_max_qualities_allowed := 2; ccc_max_defects_allowed := 2;
                           ccc_base_attribute_minimum := 1; ccc_base_attribute_maximum := 10 |};
  attributes := {| ac_strength := {| ss_attack_power_min_per_point := f32_of 1 0; ss_attack_power_max_per_point := f32_of 1 0;
                                     ss_carry_weight_bonus_kg := f32_of 25 1 |};
                   ac_defense := {| ds_damage_reduction_pct_per_point := f32_of 1 0; ds_flat_armor_per_point := f32_of 1 0 |};
                   ac_agility := {| as_move_speed_bonus_per_point := f32_of 1 0; as_attack_speed_bonus_pct := f32_of 1 0 |};
                   ac_vitality := {| vs_health_points_per_point := f32_of 1 0; vs_health_regen_per_second := f32_of 1 0 |};
                   ac_intelligence := {| is_energy_points_per_point := f32_of 1 0; is_energy_regen_bonus_pct := f32_of 1 0 |} |};
  reset_rules := {| rc_general := {| rg_max_resets_allowed := 10; rg_require_unequip_items := true; rg_retain_sub_skills := true;
                                     rg_retain_discovered_quadrants := true |}; rc_tiers := [] |};
  gathering := {| gc_resources := [{| rd_id := str_of "rock_granite_basic"; rd_name := str_of "Rocha de Granito"; rd_resource_type_id := 2936143873;
                    rd_max_health := 20; rd_required_tool_type := str_of "PICKAXE"; rd_minimum_tool_tier := 1;
                    rd_base_xp_reward := f32_of 15 0; rd_drops := [] |}] |};
  biomes := {| bdc_biomes := <[str_of "temperate_forest" := shipped_biome "temperate_forest" 1]>
                              (<[str_of "wasteland_industrial" := shipped_biome "wasteland_industrial" 2]> ∅) |} |}.

(** A parser that reads the shipped registry from any text. *)
Definition shipped_parsers : Parsers := let r := shipped_registry in {|
  parse_movement _ := Some (movement r); parse_encumbrance _ := Some (encumbrance r); parse_universe _ := Some (universe r);
  parse_abyss_memory _ := Some (abyss_memory r); parse_species _ := Some (species r); parse_combat_ranks _ := Some (combat_ranks r);
  parse_character_creation _ := Some (character_creation r); parse_attributes _ := Some (attributes r);
  parse_reset_rules _ := Some (reset_rules r); parse_gathering _ := Some (gathering r); parse_biomes _ := Some (biomes r) |}.

Definition walk_biomes (r : GameDataRegistry) : list (str * BiomeAdvancedConfig) := map_to_list (bdc_biomes (biomes r)).

Lemma shipped_registry_loads :
  load_from_directory (fun _ => Some []) (fun l => l) (fun l => l) shipped_parsers walk_biomes = Ok shipped_registry.
Proof. vm_compute. reflexivity. Qed.

Lemma game_data_loaded_witness :
  registry_says (fun _ => Some []) (fun l => l) (fun l => l) shipped_parsers shipped_registry /\ registry_ok shipped_registry.
Proof. apply (game_data_loaded _ _ _ _ walk_biomes); [intros r; unfold biome_order, walk_biomes; done|apply shipped_registry_loads]. Defined.

(** Two items of the shipped table. *)
Definition shipped_items : list RawItemDefinition :=
  [{| raw_id := 1001; raw_code_name := "pipe_iron_rusty"; raw_base_weight_grams := 1800;
      raw_dimensions := {| raw_width := 1; raw_height := 3 |}; raw_max_durability := 120; raw_combat := None |};
   {| raw_id := 1002; raw_code_name := "pistol_salvaged_9mm"; raw_base_weight_grams := 950;
      raw_dimensions := {| raw_width := 1; raw_height := 2 |}; raw_max_durability := 200; raw_combat := None |}].

Lemma items_compiled_witness :
  exists r, load_from_binary (Some [1001; 1002]) (fun _ => Some (map compile_item shipped_items)) = Some r /\
    forall id item, registry_get r id = Some item <-> exists path content file raw,
      path ∈ [[] : str] /\ Some ([] : str) = Some content /\
      Some {| raw_session := 1; raw_category := str_of "weapons"; raw_items := shipped_items |} = Some file /\
      raw ∈ raw_items file /\ raw_id raw = id /\ item = compile_item raw.
Proof.
  apply (items_compiled (fun _ => Some []) (fun _ => Some {| raw_session := 1; raw_category := str_of "weapons"; raw_items := shipped_items |})
    [[]] (map def_id) (fun _ => Some (map compile_item shipped_items)) (map compile_item shipped_items) {[ 1002; 1001 ]}).
  - vm_compute. reflexivity.
  - reflexivity.
Defined.

(** A repeated identifier is refused. *)
Example duplicate_item_refused :
  compile_items [] (shipped_items ++ shipped_items) [] ∅ = Err (DuplicateItemId 1001 []).
Proof. vm_compute. reflexivity. Qed.
