(* ===== verification/Cache.v ===== *)
(** The cache with a bound and a time to live ([crates/cache/src/lib.rs]), and the list
    of recently used entries it implements.  Time is a number; the map's order of
    iteration is a parameter. *)

From S2P Require Import Prelude.

Section Cache.
Context {K V : Type} `{Countable K}.

Record Entry := mk_entry { value : V; touched_at : Z }.
Record BoundedTtlCache := mk_cache { entries : gmap K Entry; capacity : Z; ttl : Z }.

Definition cache_new (capacity ttl : Z) : BoundedTtlCache := mk_cache ∅ capacity ttl.

Definition with_entries (c : BoundedTtlCache) (m : gmap K Entry) : BoundedTtlCache := mk_cache m (capacity c) (ttl c).

(** [now.duration_since(t)], which saturates at zero. *)
Definition duration_since (now t : Z) : Z := Z.max 0 (now - t).

Definition prune_expired (now : Z) (c : BoundedTtlCache) : BoundedTtlCache :=
  with_entries c (filter (fun p => duration_since now (touched_at p.2) <= ttl c) (entries c)).

(** [min_by_key]: the first of the entries with the smallest key. *)
Definition min_by_touched (l : list (K * Entry)) : option (K * Entry) :=
  foldl (fun best p => match best with
    | None => Some p
    | Some b => if decide (touched_at p.2 < touched_at b.2) then Some p else Some b
    end) None l.

(** [order] lists the entries as the hash map does. *)
Definition evict_oldest (order : gmap K Entry -> list (K * Entry)) (c : BoundedTtlCache) : BoundedTtlCache :=
  match min_by_touched (order (entries c)) with
  | None => c
  | Some (key, _) => with_entries c (delete key (entries c))
  end.

(** [now] is the first reading of the clock, in [prune_expired], and [now'] the second. *)
Definition insert (order : gmap K Entry -> list (K * Entry)) (now now' : Z) (key : K) (v : V) (c : BoundedTtlCache) : BoundedTtlCache :=
  let c := prune_expired now c in
  if decide (capacity c = 0) then c
  else
    let c := if decide (Z.of_nat (size (entries c)) >= capacity c /\ entries c !! key = None) then evict_oldest order c else c in
    with_entries c (<[key := mk_entry v now']> (entries c)).

Definition get (now now' : Z) (key : K) (c : BoundedTtlCache) : BoundedTtlCache * option V :=
  let c := prune_expired now c in
  match entries c !! key with
  | None => (c, None)
  | Some entry => (with_entries c (<[key := mk_entry (value entry) now']> (entries c)), Some (value entry))
  end.

(** ** The list of recently used entries *)

(** The latest first. *)
Abbreviation Recent := (list (K * Entry)).

Definition recent_prune (ttl now : Z) (l : Recent) : Recent := filter (fun p => duration_since now (touched_at p.2) <= ttl) l.
Definition recent_without (key : K) (l : Recent) : Recent := filter (fun p => p.1 <> key) l.
Definition recent_find (key : K) (l : Recent) : option Entry := snd <$> head (filter (fun p => p.1 = key) l).

(** A new entry comes first; the last one goes when there is no room. *)
Definition recent_insert (capacity ttl now now' : Z) (key : K) (v : V) (l : Recent) : Recent :=
  let l := recent_prune ttl now l in
  if decide (capacity = 0) then l
  else
    let l := if decide (Z.of_nat (length l) >= capacity /\ recent_find key l = None) then removelast l else l in
    (key, mk_entry v now') :: recent_without key l.

Definition recent_get (ttl now now' : Z) (key : K) (l : Recent) : Recent * option V :=
  let l := recent_prune ttl now l in
  match recent_find key l with
  | None => (l, None)
  | Some entry => ((key, mk_entry (value entry) now') :: recent_without key l, Some (value entry))
  end.

(** ** The cache implements the list *)

Record implements (c : BoundedTtlCache) (l : Recent) (clock : Z) : Prop := {
  im_entries : forall k e, entries c !! k = Some e <-> (k, e) ∈ l;
  im_keys : NoDup l.*1;
  im_recent : StronglySorted (fun p q : K * Entry => touched_at q.2 < touched_at p.2) l;
  im_clock : Forall (fun p => touched_at p.2 <= clock) l;
  im_bound : Z.of_nat (length l) <= capacity c
}.

Lemma recent_filter (P : K * Entry -> Prop) `{forall p, Decision (P p)} l :
  StronglySorted (fun p q : K * Entry => touched_at q.2 < touched_at p.2) l ->
  StronglySorted (fun p q : K * Entry => touched_at q.2 < touched_at p.2) (filter P l).
Proof.
  induction 1 as [|p l _ IH Hp]; [constructor|]. rewrite list.filter_cons. case_decide; [|done]. constructor; [done|].
  apply list.Forall_forall. intros q [_ Hq]%list_elem_of_filter. by eapply list.Forall_forall in Hp.
Qed.

Lemma NoDup_keys_filter (P : K * Entry -> Prop) `{forall p, Decision (P p)} (l : Recent) : NoDup l.*1 -> NoDup (filter P l).*1.
Proof.
  induction l as [|p l IH]; [done|]. rewrite fmap_cons, list.NoDup_cons. intros [Hp Hl]. rewrite list.filter_cons. case_decide; [|auto].
  rewrite fmap_cons. apply list.NoDup_cons. split; [|auto]. intros (q & E & [_ Hq]%list_elem_of_filter)%list_elem_of_fmap. apply Hp. rewrite E.
  by apply (list_elem_of_fmap_2 fst).
Qed.

Lemma clock_filter (P : K * Entry -> Prop) `{forall p, Decision (P p)} (l : Recent) (clock : Z) :
  Forall (fun p => touched_at p.2 <= clock) l -> Forall (fun p => touched_at p.2 <= clock) (filter P l).
Proof. rewrite !list.Forall_forall. intros Hl p [_ Hp]%list_elem_of_filter. by apply Hl. Qed.

Lemma clock_later (l : Recent) (clock clock' : Z) : clock <= clock' ->
  Forall (fun p => touched_at p.2 <= clock) l -> Forall (fun p => touched_at p.2 <= clock') l.
Proof. intros Hc Hl. eapply list.Forall_impl; [exact Hl|]. cbn. lia. Qed.

Lemma implements_size c l clock : implements c l clock -> size (entries c) = length l.
Proof.
  intros []. assert (entries c = list_to_map l) as ->.
  { apply map_eq. intros k. apply option_eq. intros e. rewrite im_entries0. by apply elem_of_list_to_map. }
  by apply map_size_list_to_map.
Qed.

Lemma recent_find_spec k l e : NoDup l.*1 -> recent_find k l = Some e <-> (k, e) ∈ l.
Proof.
  intros Hnd. unfold recent_find. induction l as [|[k' e'] l IH]; [split; [done|by intros []%not_elem_of_nil]|].
  cbn in Hnd. apply list.NoDup_cons in Hnd as [Hk Hnd]. rewrite list.filter_cons. cbn [fst]. case_decide as Ek.
  - subst k'. cbn. rewrite elem_of_cons. split; [intros [= <-]; by left|]. intros [[= <-]|Hin]; [done|].
    destruct Hk. by apply (list_elem_of_fmap_2 fst _ (k, e)).
  - rewrite (IH Hnd), elem_of_cons. split; [by right|]. intros [[= ? _]|?]; [congruence|done].
Qed.

Lemma implements_find c l clock k : implements c l clock -> entries c !! k = recent_find k l.
Proof. intros []. apply option_eq. intros e. by rewrite im_entries0, recent_find_spec. Qed.

Lemma implements_prune c l clock now : implements c l clock ->
  implements (prune_expired now c) (recent_prune (ttl c) now l) clock.
Proof.
  intros []. unfold recent_prune. split; cbn.
  - intros k e. rewrite map_lookup_filter_Some, list_elem_of_filter, im_entries0. cbn. tauto.
  - by apply NoDup_keys_filter.
  - by apply recent_filter.
  - by apply clock_filter.
  - pose proof (length_filter (fun p : K * Entry => duration_since now (touched_at p.2) <= ttl c) l). lia.
Qed.

(** A new first entry. *)
Lemma implements_touch c l clock k e : implements c l clock -> clock < touched_at e ->
  Z.of_nat (length (recent_without k l)) + 1 <= capacity c ->
  implements (with_entries c (<[k := e]> (entries c))) ((k, e) :: recent_without k l) (touched_at e).
Proof.
  intros [] Ht Hroom. split; cbn.
  - intros k' e'. rewrite lookup_insert_Some, elem_of_cons. unfold recent_without. rewrite list_elem_of_filter. cbn. rewrite im_entries0. naive_solver.
  - apply list.NoDup_cons. split; [|by apply NoDup_keys_filter]. intros (q & E & [Hq _]%list_elem_of_filter)%list_elem_of_fmap. by destruct Hq.
  - constructor; [by apply recent_filter|]. apply list.Forall_forall. intros q [_ Hq]%list_elem_of_filter.
    eapply list.Forall_forall in im_clock0; [|exact Hq]. cbn in *. lia.
  - constructor; [cbn; lia|]. apply clock_filter. eapply clock_later; [|exact im_clock0]. lia.
  - lia.
Qed.

Lemma min_by_touched_spec (l : list (K * Entry)) : forall best,
  match foldl (fun best p => match best with
    | None => Some p | Some b => if decide (touched_at p.2 < touched_at b.2) then Some p else Some b end) best l with
  | None => best = None /\ l = []
  | Some r => (best = Some r \/ r ∈ l) /\ forall p, best = Some p \/ p ∈ l -> touched_at r.2 <= touched_at p.2
  end.
Proof.
  induction l as [|x l IH]; intros best; cbn.
  { destruct best as [b|]; [|done]. split; [by left|]. intros p [[= ->]|[]%not_elem_of_nil]. lia. }
  match goal with |- context [foldl ?f ?b l] => specialize (IH b); destruct (foldl f b l) as [r|] end.
  - destruct IH as [Hr Hmin]. destruct best as [b|].
    + case_decide as Hlt.
      * split; [destruct Hr as [[= <-]|]; [right; by left|right; by right]|]. intros p [[= <-]|[->|Hp]%elem_of_cons]; auto.
        specialize (Hmin x (or_introl eq_refl)). lia.
      * split; [destruct Hr as [[= <-]|]; [by left|right; by right]|]. intros p [[= <-]|[->|Hp]%elem_of_cons]; auto.
        specialize (Hmin b (or_introl eq_refl)). lia.
    + split; [destruct Hr as [[= <-]|]; [right; by left|right; by right]|]. intros p [?|[->|Hp]%elem_of_cons]; [done|auto..].
  - destruct IH as [Hb _]. destruct best as [b|]; [|done]. by case_decide.
Qed.

Lemma sorted_last (l : Recent) q : StronglySorted (fun p q : K * Entry => touched_at q.2 < touched_at p.2) (l ++ [q]) ->
  Forall (fun p => touched_at q.2 < touched_at p.2) l /\ StronglySorted (fun p q : K * Entry => touched_at q.2 < touched_at p.2) l.
Proof.
  induction l as [|p l IH]; cbn; [split; constructor|]. inversion 1 as [|p' l' Hs Hp]; subst. destruct (IH Hs) as [H1 H2].
  apply Forall_app in Hp as [Hp Hq]. apply list.Forall_cons in Hq as [Hq _]. split; by constructor.
Qed.

Context (order : gmap K Entry -> list (K * Entry)) (order_ok : forall m, order m ≡ₚ map_to_list m).

(** The oldest entry is the last of the list. *)
Lemma implements_evict c l clock : implements c l clock -> implements (evict_oldest order c) (removelast l) clock.
Proof.
  intros Himp. pose proof Himp as []. unfold evict_oldest.
  assert (forall p, p ∈ order (entries c) <-> p ∈ l) as Horder.
  { intros [k e]. rewrite order_ok, elem_of_map_to_list. apply im_entries0. }
  pose proof (min_by_touched_spec (order (entries c)) None) as Hmin. unfold min_by_touched.
  destruct (foldl _ None (order (entries c))) as [[k e]|].
  - destruct Hmin as [[?|Hin] Hmin]; [done|]. apply Horder in Hin.
    destruct (exists_last (l := l)) as (l1 & q & ->); [by intros ->; apply not_elem_of_nil in Hin|].
    rewrite removelast_last. destruct (sorted_last _ _ im_recent0) as [Hq Hs].
    assert (q = (k, e)) as ->.
    { apply elem_of_app in Hin as [Hin|Hin]; [|by apply list_elem_of_singleton in Hin].
      eapply list.Forall_forall in Hq; [|exact Hin].
      assert (touched_at e <= touched_at q.2) by (apply (Hmin q); right; apply Horder, elem_of_app; right; by left). cbn in Hq. lia. }
    rewrite fmap_app in im_keys0. apply list.NoDup_app in im_keys0 as (Hnd & Hdisj & _).
    apply Forall_app in im_clock0 as [Hc _]. split; cbn; try done.
    + intros k' e'. rewrite lookup_delete_Some, im_entries0, elem_of_app, list_elem_of_singleton. split.
      * intros [Hne [?|[= -> _]]]; [done|by destruct Hne].
      * intros Hin'. split; [|by left]. intros ->. apply (Hdisj k'); [by apply (list_elem_of_fmap_2 fst _ (k', e'))|by left].
    + rewrite length_app in im_bound0. lia.
  - destruct Hmin as [_ Hnil]. assert (l = []) as ->; [|done]. destruct l as [|p l]; [done|].
    assert (p ∈ order (entries c)) as Hp by (apply Horder; by left). rewrite Hnil in Hp. by apply not_elem_of_nil in Hp.
Qed.

Lemma length_removelast_le (l : Recent) : (length (removelast l) = length l - 1)%nat.
Proof. destruct l as [|p l] using rev_ind; [done|]. rewrite removelast_last, length_app. cbn. lia. Qed.

(** An entry for the key frees a place. *)
Lemma length_without (l : Recent) k : NoDup l.*1 -> recent_find k l <> None -> (length (recent_without k l) + 1 <= length l)%nat.
Proof.
  intros Hnd Hf. destruct (recent_find k l) as [e|] eqn:E; [|done]. apply recent_find_spec in E; [|done].
  clear Hnd Hf. unfold recent_without. induction l as [|p l IH]; [by apply not_elem_of_nil in E|]. rewrite list.filter_cons.
  pose proof (length_filter (fun q : K * Entry => q.1 <> k) l). apply elem_of_cons in E as [<-|E].
  - rewrite decide_False by (intros Hk; by apply Hk). cbn. lia.
  - specialize (IH E). case_decide; cbn; lia.
Qed.

Lemma implements_insert c l clock now now' k v : implements c l clock -> 0 <= capacity c -> clock < now' ->
  implements (insert order now now' k v c) (recent_insert (capacity c) (ttl c) now now' k v l) now'.
Proof.
  intros Himp Hcap Hclock. apply (implements_prune _ _ _ now) in Himp. unfold insert, recent_insert.
  set (c1 := prune_expired now c) in *. set (l1 := recent_prune (ttl c) now l) in *. change (capacity c1) with (capacity c).
  case_decide as H0.
  { destruct Himp. split; try done. eapply clock_later; [|exact im_clock0]. lia. }
  rewrite (implements_size _ _ _ Himp), (implements_find _ _ _ k Himp). case_decide as Hfull.
  - pose proof (implements_evict _ _ _ Himp) as He. eapply (implements_touch _ _ clock k (mk_entry v now') He); [done|].
    pose proof (length_filter (fun q : K * Entry => q.1 <> k) (removelast l1)). unfold recent_without. rewrite length_removelast_le in *.
    assert (capacity (evict_oldest order c1) = capacity c) as -> by (unfold evict_oldest; by destruct (min_by_touched _) as [[? ?]|]).
    destruct Himp. change (capacity c1) with (capacity c) in im_bound0. lia.
  - eapply (implements_touch _ _ clock k (mk_entry v now') Himp); [done|]. change (capacity c1) with (capacity c).
    destruct (recent_find k l1) as [e|] eqn:Ef.
    + pose proof (length_without l1 k (im_keys _ _ _ Himp)) as Hlen. rewrite Ef in Hlen. specialize (Hlen ltac:(done)).
      destruct Himp. change (capacity c1) with (capacity c) in im_bound0. lia.
    + pose proof (length_filter (fun q : K * Entry => q.1 <> k) l1). unfold recent_without.
      assert (Z.of_nat (length l1) < capacity c) by (destruct (decide (Z.of_nat (length l1) >= capacity c)); [by destruct Hfull|lia]). lia.
Qed.

Lemma implements_get c l clock now now' k : implements c l clock -> clock < now' ->
  (get now now' k c).2 = (recent_get (ttl c) now now' k l).2 /\
  implements (get now now' k c).1 (recent_get (ttl c) now now' k l).1 now'.
Proof.
  intros Himp Hclock. apply (implements_prune _ _ _ now) in Himp. unfold get, recent_get.
  set (c1 := prune_expired now c) in *. set (l1 := recent_prune (ttl c) now l) in *.
  rewrite (implements_find _ _ _ k Himp). destruct (recent_find k l1) as [e|] eqn:Ef; cbn [fst snd].
  - split; [done|]. eapply (implements_touch _ _ clock k (mk_entry (value e) now') Himp); [done|].
    pose proof (length_without l1 k (im_keys _ _ _ Himp)) as Hlen. rewrite Ef in Hlen. specialize (Hlen ltac:(done)).
    destruct Himp. lia.
  - split; [done|]. destruct Himp. split; try done. eapply clock_later; [|exact im_clock0]. lia.
Qed.

(** ** Runs *)

Inductive Operation := OpInsert (now now' : Z) (key : K) (v : V) | OpGet (now now' : Z) (key : K) | OpPrune (now : Z).

Definition cache_step (c : BoundedTtlCache) (o : Operation) : BoundedTtlCache * option V :=
  match o with
  | OpInsert now now' k v => (insert order now now' k v c, None)
  | OpGet now now' k => get now now' k c
  | OpPrune now => (prune_expired now c, None)
  end.
Definition recent_step (capacity ttl : Z) (l : Recent) (o : Operation) : Recent * option V :=
  match o with
  | OpInsert now now' k v => (recent_insert capacity ttl now now' k v l, None)
  | OpGet now now' k => recent_get ttl now now' k l
  | OpPrune now => (recent_prune ttl now l, None)
  end.

Fixpoint run_steps {S : Type} (step : S -> Operation -> S * option V) (s : S) (os : list Operation) : S * list (option V) :=
  match os with
  | [] => (s, [])
  | o :: os => let '(s1, answer) := step s o in let '(s2, answers) := run_steps step s1 os in (s2, answer :: answers)
  end.

(** The clock advances between operations that touch entries. *)
Fixpoint clock_advances (clock : Z) (os : list Operation) : Prop :=
  match os with
  | [] => True
  | OpInsert now now' _ _ :: os | OpGet now now' _ :: os => clock <= now <= now' /\ clock < now' /\ clock_advances now' os
  | OpPrune now :: os => clock <= now /\ clock_advances clock os
  end.

Lemma cache_step_keeps c o : capacity (cache_step c o).1 = capacity c /\ ttl (cache_step c o).1 = ttl c.
Proof.
  destruct o as [now now' k v|now now' k|now]; cbn; [|unfold get; by destruct (_ !! _)|done].
  unfold insert. case_decide; [done|]. case_decide; [|done]. unfold evict_oldest. by destruct (min_by_touched _) as [[? ?]|].
Qed.

Lemma run_keeps os : forall c, capacity (run_steps cache_step c os).1 = capacity c /\ ttl (run_steps cache_step c os).1 = ttl c.
Proof.
  induction os as [|o os IH]; intros c; cbn [run_steps]; [done|]. destruct (cache_step_keeps c o) as [Ecap Ettl].
  destruct (cache_step c o) as [c1 a1]. specialize (IH c1). destruct (run_steps cache_step c1 os) as [c2 as2]. cbn in *.
  destruct IH. split; congruence.
Qed.

Lemma runs_agree os : forall c l clock, implements c l clock -> 0 <= capacity c -> clock_advances clock os ->
  (run_steps cache_step c os).2 = (run_steps (recent_step (capacity c) (ttl c)) l os).2 /\
  exists clock', implements (run_steps cache_step c os).1 (run_steps (recent_step (capacity c) (ttl c)) l os).1 clock'.
Proof.
  induction os as [|o os IH]; intros c l clock Himp Hcap Hclock; cbn [run_steps]; [split; [done|by exists clock]|].
  destruct (cache_step_keeps c o) as [Ecap Ettl].
  assert (exists clock1, (cache_step c o).2 = (recent_step (capacity c) (ttl c) l o).2 /\
    implements (cache_step c o).1 (recent_step (capacity c) (ttl c) l o).1 clock1 /\ clock_advances clock1 os) as (clock1 & Eans & Himp1 & Hadv).
  { destruct o as [now now' k v|now now' k|now]; cbn in Hclock |- *.
    - exists now'. split; [done|]. split; [eapply implements_insert; [done..|tauto]|tauto].
    - exists now'. destruct (implements_get c l clock now now' k Himp) as [? ?]; [tauto|]. split; [done|]. split; [done|tauto].
    - exists clock. split; [done|]. split; [by apply implements_prune|tauto]. }
  destruct (cache_step c o) as [c1 a1], (recent_step (capacity c) (ttl c) l o) as [l1 a1']. cbn [fst snd] in *. subst a1'.
  destruct (IH c1 l1 clock1 Himp1 ltac:(lia) Hadv) as [E2 H2]. rewrite Ecap, Ettl in E2, H2.
  destruct (run_steps cache_step c1 os) as [c2 as2], (run_steps (recent_step (capacity c) (ttl c)) l1 os) as [l2 as2']. cbn [fst snd] in *.
  split; [by rewrite E2|exact H2].
Qed.

Lemma cache_new_implements cap t clock : 0 <= cap -> implements (cache_new cap t) [] clock.
Proof.
  intros Hc. split; cbn; [|constructor..|lia]. intros k e. rewrite lookup_empty. split; [done|]. by intros []%not_elem_of_nil.
Qed.

Lemma insert_then_get c l clock now now' key v now1 now2 : implements c l clock -> 0 < capacity c -> clock <= now <= now' -> clock < now' ->
  now' <= now1 <= now2 -> now' < now2 ->
  (get now1 now2 key (insert order now now' key v c)).2 = if decide (now1 - now' <= ttl c) then Some v else None.
Proof.
  intros Himp Hcap Hnow Hnow' H1 H2.
  destruct (implements_get _ _ now' now1 now2 key (implements_insert c l clock now now' key v Himp ltac:(lia) Hnow') H2) as [E _].
  destruct (cache_step_keeps c (OpInsert now now' key v)) as [Ecap Ettl]. cbn in Ecap, Ettl. rewrite E, Ettl. clear E.
  unfold recent_get, recent_insert. rewrite decide_False by lia.
  set (rest := recent_without key _). unfold recent_prune. rewrite list.filter_cons. cbn [snd touched_at].
  assert (duration_since now1 now' = now1 - now') as -> by (unfold duration_since; lia). case_decide.
  - unfold recent_find. rewrite list.filter_cons. cbn [fst]. by rewrite decide_True.
  - unfold recent_find. destruct (filter _ (filter _ rest)) as [|p l'] eqn:Ef; [done|]. exfalso.
    assert (p ∈ p :: l') as Hp by (by left). rewrite <- Ef in Hp. unfold rest, recent_without in Hp.
    rewrite !list_elem_of_filter in Hp. tauto.
Qed.

(** C39: the bounded cache is a list of recently used entries.  Started empty, and whatever insertions, reads and
    prunings follow at an advancing clock, it answers each read as the list does: the entry read or inserted comes
    first, an entry left longer than the time to live is gone, and a new key that finds the list full displaces the
    last one, in whatever order the hash map iterates.  It never holds more entries than its capacity, and a value
    just inserted is read back until the time to live has passed. *)
Theorem cache_refines_recent_list cap t clock (os : list Operation) (Hcap : 0 <= cap) (Hclock : clock_advances clock os) :
  let c := (run_steps cache_step (cache_new cap t) os).1 in
  (run_steps cache_step (cache_new cap t) os).2 = (run_steps (recent_step cap t) [] os).2 /\
  (forall k e, entries c !! k = Some e <-> (k, e) ∈ (run_steps (recent_step cap t) [] os).1) /\
  Z.of_nat (size (entries c)) <= cap /\
  exists last_reading, forall now now' now1 now2 key v, 0 < cap -> last_reading <= now <= now' -> last_reading < now' -> now' <= now1 <= now2 -> now' < now2 ->
    (get now1 now2 key (insert order now now' key v c)).2 = if decide (now1 - now' <= t) then Some v else None.
Proof.
  destruct (runs_agree os (cache_new cap t) [] clock (cache_new_implements _ _ _ Hcap) Hcap Hclock) as [E [clock' Himp]].
  cbn [cache_new capacity ttl] in *. destruct (run_keeps os (cache_new cap t)) as [Ecap Ettl]. cbn in Ecap, Ettl.
  split; [exact E|]. split; [exact (im_entries _ _ _ Himp)|]. split.
  - pose proof (im_bound _ _ _ Himp) as Hb. rewrite Ecap in Hb. by rewrite (implements_size _ _ _ Himp).
  - exists clock'. intros. rewrite (insert_then_get _ _ clock' now now' key v now1 now2 Himp) by (rewrite ?Ecap; lia). by rewrite Ettl.
Qed.

End Cache.

Arguments Operation : clear implicits.

(** Two places: reading [1] saves it from the arrival of [3], which displaces [2]; at 30 all have expired. *)
Definition sample_operations : list (Operation Z Z) :=
  [OpInsert 0 1 1 10; OpInsert 2 3 2 20; OpGet 4 5 1; OpInsert 6 7 3 30; OpGet 8 9 2; OpGet 10 11 1; OpPrune 12; OpGet 30 31 1].

Lemma cache_refines_recent_list_witness :
  (run_steps (cache_step map_to_list) (cache_new 2 15) sample_operations).2 = [None; None; Some 10; None; None; Some 10; None; None].
Proof.
  pose proof (cache_refines_recent_list map_to_list (fun m => reflexivity _) 2 15 0 sample_operations ltac:(lia) ltac:(cbn; lia)) as [E _].
  rewrite E. by vm_compute.
Defined.
