(* ===== verification/Bags.v ===== *)
(** * Dropped bags and equipment slots

    The second half of [crates/domain/src/items.rs]: the bags on the ground,
    their index by quadrant and their expiry ([Bags]), and the equipment of a
    character ([Equipment]). *)

From S2P Require Import Prelude Core F32 Items.

Module Bags.

Record DroppedBagEntity := mk_bag {
  bag_id : Z;
  original_owner : Z;
  quadrant_x : Z;
  quadrant_y : Z;
  world_x : F32.f32;
  world_y : F32.f32;
  spawned_at_tick : Z;
  decay_after_ticks : Z;
  bag_items : list ItemInstance
}.

Definition bag_new (id o : Z) (quadrant : Z * Z) (world_pos : F32.f32 * F32.f32)
    (current_tick ttl_ticks : Z) (inventory_items : list ItemInstance) : DroppedBagEntity :=
  mk_bag id o quadrant.1 quadrant.2 world_pos.1 world_pos.2 current_tick ttl_ticks inventory_items.

Definition set_items (b : DroppedBagEntity) (l : list ItemInstance) : DroppedBagEntity :=
  mk_bag (bag_id b) (original_owner b) (quadrant_x b) (quadrant_y b) (world_x b) (world_y b)
    (spawned_at_tick b) (decay_after_ticks b) l.

Definition is_expired (b : DroppedBagEntity) (current_tick : Z) : bool :=
  bool_decide (saturating_sub_u current_tick (spawned_at_tick b) >= decay_after_ticks b).

(** [iter().position(...)] and [Vec::swap_remove]. *)
Fixpoint position {A} (p : A -> bool) (l : list A) : option nat :=
  match l with
  | [] => None
  | a :: l => if p a then Some 0%nat else S <$> position p l
  end.

Definition swap_remove {A} (l : list A) (i : nat) : list A :=
  match list.last l with
  | Some z => take (length l - 1) (<[i := z]> l)
  | None => l
  end.

Definition take_item (b : DroppedBagEntity) (id : Z) : DroppedBagEntity * option ItemInstance :=
  match position (fun i => bool_decide (item_id i = id)) (bag_items b) with
  | None => (b, None)
  | Some index => (set_items b (swap_remove (bag_items b) index), bag_items b !! index)
  end.

Definition quadrant_of (b : DroppedBagEntity) : Z * Z := (quadrant_x b, quadrant_y b).

Record DroppedBagManager := mk_manager {
  bags : gmap Z DroppedBagEntity;
  spatial_grid : gmap (Z * Z) (list Z)
}.

Definition empty_manager : DroppedBagManager := mk_manager ∅ ∅.

Definition spawn_bag (m : DroppedBagManager) (b : DroppedBagEntity) : DroppedBagManager :=
  mk_manager (<[bag_id b := b]> (bags m))
    (<[quadrant_of b := default [] (spatial_grid m !! quadrant_of b) ++ [bag_id b]]> (spatial_grid m)).

Definition get_bag (m : DroppedBagManager) (id : Z) : option DroppedBagEntity := bags m !! id.

(** What a caller of [get_bag_mut] writes back. *)
Definition put_bag (m : DroppedBagManager) (id : Z) (b : DroppedBagEntity) : DroppedBagManager :=
  mk_manager (<[id := b]> (bags m)) (spatial_grid m).

Definition get_bags_in_quadrant (m : DroppedBagManager) (quadrant : Z * Z) : list DroppedBagEntity :=
  match spatial_grid m !! quadrant with
  | Some ids => omap (fun id => bags m !! id) ids
  | None => []
  end.

(** The removal of one expired bag from the storage and from the index. *)
Definition decay_one (m : DroppedBagManager) (id : Z) : DroppedBagManager :=
  match bags m !! id with
  | None => m
  | Some removed =>
      let coord := quadrant_of removed in
      mk_manager (delete id (bags m))
        (match spatial_grid m !! coord with
         | None => spatial_grid m
         | Some l =>
             let l' := filter (fun b_id => b_id <> id) l in
             match l' with
             | [] => delete coord (spatial_grid m)
             | _ => <[coord := l']> (spatial_grid m)
             end
         end)
  end.

(** [order] is the order in which the hash map hands out its keys: any
    enumeration of them. *)
Definition tick_decay (order : list Z) (m : DroppedBagManager) (current_tick : Z)
  : DroppedBagManager * list Z :=
  let expired_ids :=
    filter (fun id => from_option (fun b => is_expired b current_tick) false (bags m !! id) = true)
      order in
  (foldl decay_one m expired_ids, expired_ids).

(** ** List facts *)

Lemma position_Some {A} (p : A -> bool) l i :
  position p l = Some i -> exists a, l !! i = Some a /\ p a = true.
Proof.
  revert i. induction l as [|a l IH]; intros i H; cbn in H; [done|].
  destruct (p a) eqn:E; [injection H as <-; by exists a|].
  destruct (position p l) as [j|]; [|done]. injection H as <-. by apply IH.
Qed.

Lemma position_None {A} (p : A -> bool) l : position p l = None <-> Forall (fun a => p a = false) l.
Proof.
  induction l as [|a l IH]; cbn; [split; [constructor|done]|].
  rewrite list.Forall_cons, <- IH. destruct (p a), (position p l); cbn; naive_solver.
Qed.

Lemma swap_remove_perm {A} (l : list A) i x : l !! i = Some x -> l ≡ₚ x :: swap_remove l i.
Proof.
  intros H. unfold swap_remove. destruct l as [|z l' _] using rev_ind; [done|].
  rewrite last_snoc, length_app. cbn. replace (length l' + 1 - 1)%nat with (length l') by lia.
  destruct (decide (i < length l')%nat) as [Hi|Hi].
  - rewrite lookup_app_l in H by done. rewrite insert_app_l by done.
    rewrite take_app_length' by (symmetry; apply length_insert).
    rewrite insert_take_drop by done. rewrite <- (take_drop_middle l' i x H) at 1.
    rewrite <- (Permutation_middle (take i l')), <- (Permutation_middle (take i l')). cbn.
    constructor. rewrite (Permutation_app_comm _ [z]). done.
  - assert (i = length l') as -> by (apply lookup_lt_Some in H; rewrite length_app in H; cbn in H; lia).
    rewrite list_lookup_middle in H by done. injection H as <-.
    replace (<[length l':=z]> (l' ++ [z])) with (l' ++ [z])
      by (rewrite <- (Nat.add_0_r (length l')), insert_app_r; done).
    rewrite take_app_length. rewrite (Permutation_app_comm l' [z]). done.
Qed.

(** ** The invariant of the bag manager *)

Definition indexed (m : DroppedBagManager) (q : Z * Z) : list Z := default [] (spatial_grid m !! q).

Record manager_wf (m : DroppedBagManager) : Prop := {
  mw_ids : forall id b, bags m !! id = Some b -> bag_id b = id;
  mw_index : forall q id, id ∈ indexed m q <-> exists b, bags m !! id = Some b /\ quadrant_of b = q;
  mw_lists : forall q l, spatial_grid m !! q = Some l -> NoDup l /\ l <> []
}.

Lemma empty_manager_wf : manager_wf empty_manager.
Proof.
  split; [done| |done]. intros q id. unfold indexed, empty_manager. cbn. rewrite lookup_empty. cbn.
  split; [intros []%not_elem_of_nil|intros (b & ? & _); done].
Qed.

Lemma indexed_nodup m q : manager_wf m -> NoDup (indexed m q).
Proof.
  intros Hwf. unfold indexed. destruct (spatial_grid m !! q) eqn:E; [by eapply mw_lists|apply NoDup_nil_2].
Qed.

Lemma spawn_bag_wf m b : manager_wf m -> bags m !! bag_id b = None -> manager_wf (spawn_bag m b).
Proof.
  intros Hwf Hf. split.
  - intros id b'. cbn. intros [[<- <-]|[_ ?]]%lookup_insert_Some; [done|by eapply mw_ids].
  - intros q id. unfold indexed, spawn_bag. cbn.
    setoid_rewrite lookup_insert_Some. destruct (decide (quadrant_of b = q)) as [<-|Hq].
    + rewrite lookup_insert_eq. cbn. rewrite elem_of_app, list_elem_of_singleton.
      change (default [] _) with (indexed m (quadrant_of b)). rewrite (mw_index m Hwf). split.
      * intros [(b' & Hl & Hq)| ->]; [|exists b; split; [by left|done]].
        exists b'. split; [right; split; [|done]|done]. intros <-. congruence.
      * intros (b' & [[Hk _]|[Hk Hl]] & Hq); [by right|left; by exists b'].
    + rewrite lookup_insert_ne by done. change (default [] _) with (indexed m q).
      rewrite (mw_index m Hwf). split.
      * intros (b' & Hl & <-). exists b'. split; [right; split; [|done]|done]. intros <-. congruence.
      * intros (b' & [[_ <-]|[? ?]] & ?); [done|by exists b'].
  - intros q l. cbn. intros [[<- <-]|[_ ?]]%lookup_insert_Some; [|by eapply mw_lists].
    split; [|by destruct (default [] _)]. apply list.NoDup_app.
    split_goals; [by apply indexed_nodup| |apply NoDup_singleton].
    intros id Hin ->%list_elem_of_singleton. apply (mw_index m Hwf) in Hin as (b' & ? & _). congruence.
Qed.

(** Saving a bag back with other contents. *)
Lemma put_bag_wf m id b b' : manager_wf m -> bags m !! id = Some b ->
  bag_id b' = bag_id b -> quadrant_of b' = quadrant_of b -> manager_wf (put_bag m id b').
Proof.
  intros Hwf Hl Hid Hq. split.
  - intros k c. cbn. intros [[<- <-]|[_ ?]]%lookup_insert_Some; [|by eapply mw_ids].
    rewrite Hid. by eapply mw_ids.
  - intros q k. change (indexed (put_bag m id b') q) with (indexed m q). rewrite (mw_index m Hwf). cbn.
    setoid_rewrite lookup_insert_Some. split.
    + intros (c & Hc & <-). destruct (decide (id = k)) as [<-|Hne].
      * assert (c = b) as -> by congruence. exists b'. split; [by left|done].
      * exists c. split; [by right|done].
    + intros (c & [[-> <-]|[Hne Hc]] & <-); [exists b; split; congruence|by exists c].
  - intros q l. apply (mw_lists m Hwf).
Qed.

Lemma decay_one_bags m id : bags (decay_one m id) = delete id (bags m).
Proof.
  unfold decay_one. destruct (bags m !! id) eqn:E; [done|]. by rewrite delete_id.
Qed.

Lemma decay_one_indexed m id b q : bags m !! id = Some b ->
  indexed (decay_one m id) q =
  if decide (q = quadrant_of b) then filter (fun k => k <> id) (indexed m q) else indexed m q.
Proof.
  intros Hb. unfold decay_one, indexed. rewrite Hb. cbn. case_decide as Hq; [subst q|].
  - destruct (spatial_grid m !! quadrant_of b) as [l|] eqn:El; [|by rewrite El].
    cbn. destruct (filter _ l) eqn:Ef; [by rewrite lookup_delete_eq|by rewrite lookup_insert_eq].
  - destruct (spatial_grid m !! quadrant_of b) as [l|] eqn:El; [|done].
    destruct (filter _ l); [by rewrite lookup_delete_ne|by rewrite lookup_insert_ne].
Qed.

Lemma decay_one_wf m id : manager_wf m -> manager_wf (decay_one m id).
Proof.
  intros Hwf. destruct (bags m !! id) as [b|] eqn:Hb; [|unfold decay_one; by rewrite Hb]. split.
  - intros k c. rewrite decay_one_bags. intros [_ ?]%lookup_delete_Some. by eapply mw_ids.
  - intros q k. rewrite (decay_one_indexed m id b q Hb), decay_one_bags.
    setoid_rewrite lookup_delete_Some. pose proof (mw_index m Hwf q k) as Hi.
    case_decide as Hq; rewrite ?list_elem_of_filter, Hi.
    { split; [intros (? & c & ? & ?); by exists c|intros (c & [? ?] & ?)].
      split; [done|by exists c]. }
    split; [|intros (c & [_ ?] & ?); by exists c]. intros (c & Hc & <-). exists c. split; [|done]. split; [|done].
    intros <-. congruence.
  - intros q l. unfold decay_one. rewrite Hb. cbn.
    destruct (spatial_grid m !! quadrant_of b) as [l0|] eqn:El; [|by apply mw_lists].
    destruct (mw_lists m Hwf _ _ El) as [Hnd _].
    destruct (filter _ l0) as [|z l1] eqn:Ef.
    + intros [_ ?]%lookup_delete_Some. by eapply mw_lists.
    + intros [[_ <-]|[_ ?]]%lookup_insert_Some; [|by eapply mw_lists].
      split; [|done]. rewrite <- Ef. by apply list.NoDup_filter.
Qed.

Lemma decay_all ids m : manager_wf m ->
  manager_wf (foldl decay_one m ids) /\
  forall id, bags (foldl decay_one m ids) !! id = if decide (id ∈ ids) then None else bags m !! id.
Proof.
  revert m. induction ids as [|k ids IH]; intros m Hwf; cbn.
  { split; [done|]. intros id. rewrite decide_False; [done|apply not_elem_of_nil]. }
  destruct (IH (decay_one m k) (decay_one_wf m k Hwf)) as [H1 H2]. split; [done|].
  intros id. rewrite H2, decay_one_bags.
  destruct (decide (id = k)) as [->|Hne].
  - rewrite lookup_delete_eq. rewrite (decide_True (P := k ∈ k :: ids)) by set_solver. by case_decide.
  - rewrite lookup_delete_ne by done. repeat case_decide; set_solver.
Qed.

(** The collector removes exactly the bags whose time to live has elapsed,
    in whatever order the hash map is traversed: it returns each of their
    identifiers once, keeps every other bag untouched, and leaves the index by
    quadrant consistent with the storage. *)
Theorem tick_decay_correct (order : list Z) (m m' : DroppedBagManager) (current_tick : Z)
    (expired : list Z) :
  manager_wf m -> NoDup order -> (forall id, id ∈ order <-> is_Some (bags m !! id)) ->
  tick_decay order m current_tick = (m', expired) ->
  NoDup expired /\
  (forall id, id ∈ expired <->
     exists b, bags m !! id = Some b /\ decay_after_ticks b <= Z.max 0 (current_tick - spawned_at_tick b)) /\
  (forall id, bags m' !! id = if decide (id ∈ expired) then None else bags m !! id) /\
  manager_wf m'.
Proof.
  intros Hwf Hnd Hord H. unfold tick_decay in H. injection H as <- <-.
  set (ids := filter _ order). split; [by apply list.NoDup_filter|]. split.
  - intros id. unfold ids. rewrite list_elem_of_filter, Hord. unfold is_expired, saturating_sub_u.
    destruct (bags m !! id) as [b|]; cbn; [|naive_solver]. rewrite bool_decide_eq_true.
    split; [intros [? _]; exists b; split; [done|lia]|intros (c & [= <-] & ?); split; [lia|done]].
  - by destruct (decay_all ids m Hwf).
Qed.

Lemma tick_decay_correct_witness :
  let bag id q tick := bag_new id 10 q (F32.of_Z 210, F32.of_Z 315) tick 50 [] in
  let m := spawn_bag (spawn_bag empty_manager (bag 1 (2, 3) 100)) (bag 2 (2, 3) 120) in
  let '(m', expired) := tick_decay [2; 1] m 150 in
  manager_wf m' /\ expired = [1] /\ indexed m' (2, 3) = [2].
Proof.
  cbn zeta.
  match goal with |- context [tick_decay _ ?m _] => set (m0 := m) end.
  assert (manager_wf m0) as Hwf by (repeat apply spawn_bag_wf; [apply empty_manager_wf|reflexivity..]).
  destruct (tick_decay [2; 1] m0 150) as [m' ex] eqn:E.
  destruct (tick_decay_correct [2; 1] m0 m' 150 ex Hwf) as (_ & _ & _ & H); [| |exact E|].
  - repeat constructor; set_solver.
  - intros id. unfold m0, spawn_bag. cbn. rewrite !lookup_insert_is_Some'. 
    rewrite !list.elem_of_cons, list.elem_of_nil. rewrite lookup_empty. unfold is_Some. naive_solver.
  - split; [done|]. vm_compute in E. injection E as <- <-. split; reflexivity.
Defined.

(** The histories of the manager: fresh bags appear, contents are edited through
    [get_bag_mut], the collector runs. *)
Inductive manager_step (m : DroppedBagManager) : DroppedBagManager -> Prop :=
| manager_spawn b : bags m !! bag_id b = None -> manager_step m (spawn_bag m b)
| manager_edit id b l : get_bag m id = Some b -> manager_step m (put_bag m id (set_items b l))
| manager_decay order t : NoDup order -> (forall id, id ∈ order <-> is_Some (bags m !! id)) ->
    manager_step m (tick_decay order m t).1.

Lemma manager_reachable_wf m : rtc manager_step empty_manager m -> manager_wf m.
Proof.
  intros H. pose proof empty_manager_wf as Hwf. induction H as [|m1 m2 m3 Hst _ IH]; [done|].
  apply IH. clear IH. destruct Hst as [b Hf|id b l Hb|order t Hnd Ho].
  - by apply spawn_bag_wf.
  - by eapply put_bag_wf.
  - by apply decay_all.
Qed.

(** However bags appear, are looted and expire, the query by quadrant
    returns exactly the live bags of that quadrant, each once, and a quadrant
    without bags keeps no entry in the index. *)
Theorem bags_in_quadrant_exact (m : DroppedBagManager) (q : Z * Z) :
  rtc manager_step empty_manager m ->
  NoDup (map bag_id (get_bags_in_quadrant m q)) /\
  (forall b, b ∈ get_bags_in_quadrant m q <-> bags m !! bag_id b = Some b /\ quadrant_of b = q) /\
  (get_bags_in_quadrant m q = [] <-> spatial_grid m !! q = None).
Proof.
  intros H. apply manager_reachable_wf in H as Hwf.
  assert (get_bags_in_quadrant m q = omap (fun id => bags m !! id) (indexed m q)) as E
    by (unfold get_bags_in_quadrant, indexed; by destruct (spatial_grid m !! q)).
  assert (map bag_id (get_bags_in_quadrant m q) = indexed m q) as Eids.
  { rewrite E. clear E. assert (forall id, id ∈ indexed m q -> is_Some (bags m !! id)) as Hs
      by (intros id (b & ? & _)%(mw_index m Hwf); by exists b).
    induction (indexed m q) as [|id l IH]; [done|]. cbn.
    destruct (Hs id) as [b Hb]; [by left|]. rewrite Hb. cbn. f_equal; [by eapply mw_ids|].
    apply IH. intros k Hk. apply Hs. by right. }
  split_goals.
  - rewrite Eids. by apply indexed_nodup.
  - intros b. rewrite E, list_elem_of_omap. split.
    + intros (id & Hin & Hb). pose proof (mw_ids m Hwf id b Hb) as ->.
      apply (mw_index m Hwf) in Hin as (b' & Hb' & Hq). rewrite Hb in Hb'. by simplify_eq.
    + intros [Hb Hq]. exists (bag_id b). split; [|done]. apply (mw_index m Hwf). by exists b.
  - unfold indexed in *. destruct (spatial_grid m !! q) as [l|] eqn:El; cbn in *.
    + destruct (mw_lists m Hwf q l El) as [_ Hne]. split; [|done]. intros Hn.
      rewrite Hn in Eids. by destruct Hne.
    + split; [done|]. intros _. by rewrite E.
Qed.

Lemma bags_in_quadrant_exact_witness :
  let m := spawn_bag empty_manager (bag_new 7 10 (2, 3) (F32.of_Z 1, F32.of_Z 2) 100 50 []) in
  map bag_id (get_bags_in_quadrant m (2, 3)) = [7] /\ get_bags_in_quadrant m (0, 0) = [].
Proof.
  intros m. assert (rtc manager_step empty_manager m) as H by (apply rtc_once, manager_spawn; reflexivity).
  split; [vm_compute; reflexivity|]. apply (bags_in_quadrant_exact m (0, 0) H). reflexivity.
Defined.

End Bags.

(** ** Equipment *)

#[global] Instance slot_kind_eq_dec : EqDecision EquipmentSlotKind.
Proof. solve_decision. Defined.

#[global] Program Instance slot_kind_countable : Countable EquipmentSlotKind :=
  inj_countable' (fun s : EquipmentSlotKind => match s with
    | Head => 0 | Chest => 1 | Hands => 2 | Legs => 3 | Feet => 4 | MainHand => 5 | OffHand => 6 end)
  (fun n : Z => if decide (n = 0) then Head else if decide (n = 1) then Chest
    else if decide (n = 2) then Hands else if decide (n = 3) then Legs
    else if decide (n = 4) then Feet else if decide (n = 5) then MainHand else OffHand) _.
Next Obligation. intros []; reflexivity. Qed.

Module Equipment.

Record CharacterEquipment := mk_equipment { slots : gmap EquipmentSlotKind ItemInstance }.

Definition equipment_new : CharacterEquipment := mk_equipment ∅.
Definition get_equipped (e : CharacterEquipment) (s : EquipmentSlotKind) : option ItemInstance :=
  slots e !! s.
Definition equip_item (e : CharacterEquipment) (s : EquipmentSlotKind) (i : ItemInstance)
  : CharacterEquipment * option ItemInstance := (mk_equipment (<[s := i]> (slots e)), slots e !! s).
Definition unequip_item (e : CharacterEquipment) (s : EquipmentSlotKind)
  : CharacterEquipment * option ItemInstance := (mk_equipment (delete s (slots e)), slots e !! s).

Record CharacterInventoryState := {
  inv_grid : Grid.InventoryGrid;
  inv_equipment : CharacterEquipment;
  inv_items : gmap Z ItemInstance
}.

Definition inventory_new (columns rows : Z) : CharacterInventoryState :=
  {| inv_grid := Grid.grid_new columns rows; inv_equipment := equipment_new; inv_items := ∅ |}.

End Equipment.
