(* ===== verification/Loot.v ===== *)
(** * The loot service

    [crates/simulation/src/loot.rs] with the requests and results of
    [crates/contracts/src/inventory.rs]: looting and inspecting bags, moving,
    merging, splitting and dropping items, equipping and unequipping.  A
    handler takes the parts of the world it borrows mutably and returns them
    with its result. *)

From S2P Require Import Prelude Core F32 Items Bags.
Import World Grid Bags.Bags Equipment.

(** ** Requests and results *)

Record RequestOpenBag := { open_bag_id : Z }.
Record BagContentsSnapshot := { snap_bag_id : Z; snap_items : list ItemInstance }.

Record RequestLootItem := {
  loot_bag_id : Z; loot_item_id : Z; loot_slot : GridSlotCoord; loot_rotation : ItemRotation;
  loot_revision : Z
}.
Record RequestMoveOrRotateItem := {
  move_item_id : Z; move_slot : GridSlotCoord; move_rotation : ItemRotation; move_revision : Z
}.
Record RequestMergeStack := {
  merge_source_id : Z; merge_target_id : Z; merge_source_revision : Z; merge_target_revision : Z
}.
Record RequestSplitStack := {
  split_source_id : Z; split_quantity : Z; split_slot : GridSlotCoord; split_rotation : ItemRotation;
  split_revision : Z
}.
Record RequestDropItem := { drop_item_id : Z; drop_revision : Z }.
Record RequestEquipItem := { equip_item_id : Z; equip_slot_kind : EquipmentSlotKind; equip_revision : Z }.
Record RequestUnequipItem := {
  unequip_source : EquipmentSlotKind; unequip_slot : GridSlotCoord; unequip_rotation : ItemRotation;
  unequip_revision : Z
}.

Inductive OpenBagResult := OpenSuccess (s : BagContentsSnapshot) | OpenBagNotFound | OpenOutOfRange.

Inductive LootResult :=
| LootSuccess (item : ItemInstance) | LootBagNotFound | LootItemNotFound | LootOutOfRange
| LootInventoryFull | LootConcurrencyConflict.

Inductive InventoryActionResult :=
| ActionSuccess | ItemNotFound | InvalidPlacement | StackLimitExceeded | InvalidSplitQuantity
| IncompatibleItems | IncompatibleSlot | SlotAlreadyOccupied | ConcurrencyConflict.

Inductive DropResult :=
| DropSuccess (bag : Z) (dropped_item : ItemInstance) | DropItemNotFound | DropConcurrencyConflict.

(** ** The handlers *)

Definition MAX_INTERACTION_DISTANCE_METERS : F32.f32 := F32.of_decimal 35 1.

Definition out_of_range (b : DroppedBagEntity) (player_pos : F32.f32 * F32.f32) : bool :=
  let dx := F32.sub (world_x b) player_pos.1 in
  let dy := F32.sub (world_y b) player_pos.2 in
  let dist_sq := F32.add (F32.mul dx dx) (F32.mul dy dy) in
  let max_dist_sq := F32.mul MAX_INTERACTION_DISTANCE_METERS MAX_INTERACTION_DISTANCE_METERS in
  F32.gt dist_sq max_dist_sq.

Definition handle_open_bag_request (m : DroppedBagManager) (request : RequestOpenBag)
    (player_pos : F32.f32 * F32.f32) : OpenBagResult :=
  match get_bag m (open_bag_id request) with
  | None => OpenBagNotFound
  | Some bag =>
      if out_of_range bag player_pos then OpenOutOfRange
      else OpenSuccess {| snap_bag_id := bag_id bag; snap_items := bag_items bag |}
  end.

Definition is_err {E A} (r : result E A) : bool := negb (is_ok r).

Definition handle_loot_request (m : DroppedBagManager) (g : InventoryGrid) (request : RequestLootItem)
    (player_id : Z) (player_pos : F32.f32 * F32.f32) (get_dimensions : Z -> option InventoryDimensions)
  : DroppedBagManager * InventoryGrid * LootResult :=
  match get_bag m (loot_bag_id request) with
  | None => (m, g, LootBagNotFound)
  | Some bag =>
      if out_of_range bag player_pos then (m, g, LootOutOfRange) else
      match position (fun i => bool_decide (item_id i = loot_item_id request)) (bag_items bag) with
      | None => (m, g, LootItemNotFound)
      | Some item_idx =>
          match bag_items bag !! item_idx with
          | None => (m, g, LootItemNotFound) (* out of range: excluded by [position_Some] *)
          | Some found =>
              if decide (revision found <> loot_revision request) then (m, g, LootConcurrencyConflict) else
              match get_dimensions (definition_id found) with
              | None => (m, g, LootItemNotFound)
              | Some dims =>
                  if is_err (can_place_at g (loot_slot request) dims (loot_rotation request) None)
                  then (m, g, LootInventoryFull)
                  else
                    let m' := put_bag m (loot_bag_id request)
                                (set_items bag (swap_remove (bag_items bag) item_idx)) in
                    let g' := (place_item g (item_id found) (loot_slot request) dims
                                (loot_rotation request)).1 in
                    (m', g', LootSuccess (transfer_ownership found (OwnerCharacter player_id)))
              end
          end
      end
  end.

Definition handle_move_or_rotate_item (g : InventoryGrid) (item : ItemInstance)
    (request : RequestMoveOrRotateItem) : InventoryGrid * ItemInstance * InventoryActionResult :=
  if decide (item_id item <> move_item_id request) then (g, item, ItemNotFound) else
  if decide (revision item <> move_revision request) then (g, item, ConcurrencyConflict) else
  let '(g', r) := rotate_or_move g (item_id item) (move_slot request) (move_rotation request) in
  if is_err r then (g', item, InvalidPlacement) else (g', bump item, ActionSuccess).

Definition handle_merge_stack (g : InventoryGrid) (source target : ItemInstance) (max_stack_size : Z)
    (request : RequestMergeStack)
  : InventoryGrid * ItemInstance * ItemInstance * result InventoryActionResult bool :=
  if decide (item_id source <> merge_source_id request \/ item_id target <> merge_target_id request)
  then (g, source, target, Err ItemNotFound) else
  if decide (revision source <> merge_source_revision request \/
             revision target <> merge_target_revision request)
  then (g, source, target, Err ConcurrencyConflict) else
  if decide (definition_id source <> definition_id target)
  then (g, source, target, Err IncompatibleItems) else
  if decide (quantity target >= max_stack_size) then (g, source, target, Err StackLimitExceeded) else
  let available_space := wrap_u 32 (max_stack_size - quantity target) in
  let transfer_amount := Z.min (quantity source) available_space in
  let source' := bump (set_quantity source (wrap_u 32 (quantity source - transfer_amount))) in
  let target' := bump (set_quantity target (wrap_u 32 (quantity target + transfer_amount))) in
  if decide (quantity source' = 0)
  then ((remove_item g (item_id source')).1, source', target', Ok true)
  else (g, source', target', Ok false).

Definition handle_split_stack (g : InventoryGrid) (source : ItemInstance) (request : RequestSplitStack)
    (new_item_id : Z) (get_dimensions : Z -> option InventoryDimensions)
  : InventoryGrid * ItemInstance * result InventoryActionResult ItemInstance :=
  if decide (item_id source <> split_source_id request) then (g, source, Err ItemNotFound) else
  if decide (revision source <> split_revision request) then (g, source, Err ConcurrencyConflict) else
  if decide (split_quantity request = 0 \/ split_quantity request >= quantity source)
  then (g, source, Err InvalidSplitQuantity) else
  match get_dimensions (definition_id source) with
  | None => (g, source, Err ItemNotFound)
  | Some dims =>
      if is_err (can_place_at g (split_slot request) dims (split_rotation request) None)
      then (g, source, Err InvalidPlacement)
      else
        let new_stack := new_stackable new_item_id (definition_id source) (owner source)
                           (split_quantity request) in
        let g' := (place_item g (item_id new_stack) (split_slot request) dims (split_rotation request)).1 in
        let source' := bump (set_quantity source (wrap_u 32 (quantity source - split_quantity request))) in
        (g', source', Ok (set_revision new_stack 1))
  end.

Definition handle_drop_item (m : DroppedBagManager) (g : InventoryGrid) (item : ItemInstance)
    (request : RequestDropItem) (player_id : Z) (player_pos : F32.f32 * F32.f32)
    (current_tick decay_ticks next_bag_id : Z)
  : DroppedBagManager * InventoryGrid * ItemInstance * DropResult :=
  if decide (item_id item <> drop_item_id request) then (m, g, item, DropItemNotFound) else
  if decide (revision item <> drop_revision request) then (m, g, item, DropConcurrencyConflict) else
  let g' := (remove_item g (item_id item)).1 in
  let sx := F32.floor_as_i64 (F32.div player_pos.1 (F32.of_Z 64)) in
  let sy := F32.floor_as_i64 (F32.div player_pos.2 (F32.of_Z 64)) in
  let item' := transfer_ownership item (OwnerWorld {| sector_x := sx; sector_y := sy |}) in
  let new_bag := bag_new next_bag_id player_id (wrap_i 32 sx, wrap_i 32 sy) player_pos
                   current_tick decay_ticks [item'] in
  (spawn_bag m new_bag, g', item', DropSuccess next_bag_id item').

Definition handle_equip_item (g : InventoryGrid) (e : CharacterEquipment) (item : ItemInstance)
    (request : RequestEquipItem) (get_allowed_slot : Z -> option EquipmentSlotKind)
  : InventoryGrid * CharacterEquipment * ItemInstance * InventoryActionResult :=
  if decide (item_id item <> equip_item_id request) then (g, e, item, ItemNotFound) else
  if decide (revision item <> equip_revision request) then (g, e, item, ConcurrencyConflict) else
  match get_allowed_slot (definition_id item) with
  | None => (g, e, item, IncompatibleSlot)
  | Some allowed_slot =>
      if decide (allowed_slot <> equip_slot_kind request) then (g, e, item, IncompatibleSlot) else
      if decide (is_Some (get_equipped e (equip_slot_kind request)))
      then (g, e, item, SlotAlreadyOccupied) else
      let g' := (remove_item g (item_id item)).1 in
      let item' := bump item in
      (g', (equip_item e (equip_slot_kind request) item').1, item', ActionSuccess)
  end.

Definition handle_unequip_item (g : InventoryGrid) (e : CharacterEquipment)
    (request : RequestUnequipItem) (get_dimensions : Z -> option InventoryDimensions)
  : InventoryGrid * CharacterEquipment * result InventoryActionResult ItemInstance :=
  match get_equipped e (unequip_source request) with
  | None => (g, e, Err ItemNotFound)
  | Some item =>
      if decide (revision item <> unequip_revision request) then (g, e, Err ConcurrencyConflict) else
      match get_dimensions (definition_id item) with
      | None => (g, e, Err ItemNotFound)
      | Some dims =>
          if is_err (can_place_at g (unequip_slot request) dims (unequip_rotation request) None)
          then (g, e, Err InvalidPlacement)
          else
            let e' := (unequip_item e (unequip_source request)).1 in
            let g' := (place_item g (item_id item) (unequip_slot request) dims
                        (unequip_rotation request)).1 in
            (g', e', Ok (bump item))
      end
  end.

(** ** Facts about the handlers *)

Lemma is_err_false {E} (r : result E unit) : is_err r = false <-> r = Ok tt.
Proof. destruct r as [[]|]; cbn; split; done. Qed.

Lemma transfer_ownership_owner i o : owner (transfer_ownership i o) = o.
Proof. unfold transfer_ownership. case_decide as H; done. Qed.

Lemma transfer_ownership_id i o : item_id (transfer_ownership i o) = item_id i.
Proof. unfold transfer_ownership. by case_decide. Qed.

Lemma place_after_check g id o d r : grid_wf g -> placements g !! id = None -> slot_ok o -> dims_ok d ->
  is_err (can_place_at g o d r None) = false ->
  exists g', place_item g id o d r = (g', Ok tt) /\ grid_wf g' /\
    placements g' = <[id := mk_placed o r d]> (placements g).
Proof.
  intros Hwf Hf Ho Hd H. apply is_err_false in H.
  apply place_item_ok_iff with (id := id) in H as H'.
  destruct (place_item g id o d r) as [g' res] eqn:E. cbn in H'. subst res. exists g'.
  split; [done|]. split; [by eapply place_item_wf|].
  by destruct (place_item_cells g id o d r g' (wf_shape g Hwf) Ho E) as (_ & ? & _).
Qed.

Definition dims_source_ok (get_dimensions : Z -> option InventoryDimensions) : Prop :=
  forall k d, get_dimensions k = Some d -> dims_ok d.

Local Ltac refused := match goal with H : _ = (_, _, _) |- _ => injection H as <- <- <-; split; reflexivity end.


Section LootWitness.
Let medkit := new_unique 999 1001 (OwnerCharacter 101) 12345 120.
Let ammo := new_stackable 1000 1002 (OwnerCharacter 101) 30.
Let bag := bag_new 500 101 (4, -2) (F32.of_Z 150, F32.of_Z (-320)) 1000 600 [medkit; ammo].
Let m := spawn_bag empty_manager bag.
Let req := {| loot_bag_id := 500; loot_item_id := 999; loot_slot := mk_slot 1 1;
              loot_rotation := Rotated90; loot_revision := 1 |}.
Let dims (_ : Z) := Some (mk_dims 1 2).
Let near := (F32.of_Z 152, F32.of_Z (-318)).

End LootWitness.

Lemma remove_item_placements g id : grid_wf g -> placements (remove_item g id).1 = delete id (placements g).
Proof.
  intros Hwf. destruct (placements g !! id) as [p|] eqn:E.
  - by destruct (remove_item_cells g id p Hwf E) as (_ & ? & _).
  - unfold remove_item. rewrite E. cbn. by rewrite delete_id.
Qed.

Definition stack_ok (i : ItemInstance) : Prop := in_u 32 (quantity i).

(** Merging and splitting stacks conserve the number of items.  A merge
    moves as much as the target's stack limit allows, never overflows, and
    takes the source off the grid exactly when it is used up; a split creates a
    second non-empty stack of the same kind and owner under the new identifier
    and on the requested cells; a refused request changes nothing. *)
Theorem stacks_conserve_quantity (g : InventoryGrid) (source target : ItemInstance) (max_stack_size : Z)
    (mreq : RequestMergeStack) (sreq : RequestSplitStack) (new_id : Z)
    (get_dimensions : Z -> option InventoryDimensions) :
  grid_wf g -> stack_ok source -> stack_ok target -> in_u 32 max_stack_size ->
  in_u 32 (split_quantity sreq) -> slot_ok (split_slot sreq) -> dims_source_ok get_dimensions ->
  placements g !! new_id = None ->
  (let '(g', source', target', res) := handle_merge_stack g source target max_stack_size mreq in
   quantity source' + quantity target' = quantity source + quantity target /\
   stack_ok source' /\ stack_ok target' /\ grid_wf g' /\
   match res with
   | Ok consumed =>
       definition_id source = definition_id target /\
       quantity target' = Z.min max_stack_size (quantity target + quantity source) /\
       (consumed = true <-> quantity source' = 0) /\
       (consumed = false -> g' = g) /\
       (consumed = true -> placements g' = delete (item_id source) (placements g))
   | Err _ => g' = g /\ source' = source /\ target' = target
   end) /\
  (let '(g', source', res) := handle_split_stack g source sreq new_id get_dimensions in
   match res with
   | Ok new =>
       quantity source' + quantity new = quantity source /\
       0 < quantity source' /\ 0 < quantity new /\ item_id new = new_id /\
       definition_id new = definition_id source /\ owner new = owner source /\ grid_wf g' /\
       exists dims, get_dimensions (definition_id source) = Some dims /\
         placements g' = <[new_id := mk_placed (split_slot sreq) (split_rotation sreq) dims]> (placements g)
   | Err _ => g' = g /\ source' = source
   end).
Proof.
  intros Hwf Hs Ht Hm Hq Ho Hd Hf. unfold stack_ok, in_u in *. split.
  - unfold handle_merge_stack. repeat case_decide; cbn in *; try (split_goals; done || lia).
    all: rewrite (wrap_u_small 32 (max_stack_size - _)) in * by (unfold in_u; lia).
    all: rewrite (wrap_u_small 32 (quantity source - _)) in * by (unfold in_u; lia).
    all: rewrite (wrap_u_small 32 (quantity target + _)) in * by (unfold in_u; lia).
    + split_goals; try lia; try done; [by apply remove_item_wf|].
      intros _. by apply remove_item_placements.
    + split_goals; try lia; done.
  - unfold handle_split_stack. repeat case_decide; try done.
    destruct (get_dimensions (definition_id source)) as [dims|] eqn:Ed; [|done].
    destruct (is_err _) eqn:Ec; [done|]. cbn.
    destruct (place_after_check g new_id _ dims _ Hwf Hf Ho (Hd _ _ Ed) Ec) as (g1 & Hpl & Hwf1 & Hps).
    rewrite Hpl. cbn. rewrite wrap_u_small by (unfold in_u; lia).
    split_goals; try lia; try done. by exists dims.
Qed.

Lemma stacks_conserve_quantity_witness :
  let src := new_stackable 1 7 (OwnerCharacter 5) 20 in
  let tgt := new_stackable 2 7 (OwnerCharacter 5) 25 in
  let g := (place_item (grid_new 4 4) 1 (mk_slot 0 0) (mk_dims 1 1) Normal).1 in
  let mreq := {| merge_source_id := 1; merge_target_id := 2; merge_source_revision := 1;
                 merge_target_revision := 1 |} in
  let sreq := {| split_source_id := 1; split_quantity := 8; split_slot := mk_slot 2 2;
                 split_rotation := Normal; split_revision := 1 |} in
  let dims (_ : Z) := Some (mk_dims 1 1) in
  let '(_, src', tgt', r) := handle_merge_stack g src tgt 30 mreq in
  let '(_, src2, r2) := handle_split_stack g src sreq 3 dims in
  r = Ok false /\ quantity src' = 15 /\ quantity tgt' = 30 /\
  quantity src' + quantity tgt' = quantity src + quantity tgt /\
  exists new, r2 = Ok new /\ quantity src2 + quantity new = quantity src /\ quantity src2 = 12.
Proof.
  intros src tgt g mreq sreq dims.
  assert (grid_wf g) as Hwf.
  { eapply (place_item_wf (grid_new 4 4)); [by apply grid_new_wf|done| | |apply surjective_pairing]; done. }
  destruct (stacks_conserve_quantity g src tgt 30 mreq sreq 3 dims) as [H1 H2];
    [done|done|done|done|done|done|by intros k d [= <-]|done|].
  destruct (handle_merge_stack g src tgt 30 mreq) as [[[g1 src'] tgt'] r] eqn:E1.
  destruct (handle_split_stack g src sreq 3 dims) as [[g2 src2] r2] eqn:E2.
  destruct H1 as [H1 _]. vm_compute in E1. vm_compute in E2. injection E1 as <- <- <- <-.
  injection E2 as <- <- <-. split; [done|]. split; [done|]. split; [done|]. split; [exact H1|].
  eexists. split; [done|]. split; [exact (proj1 H2)|done].
Defined.

Lemma remove_place_back g id p : grid_wf g -> placements g !! id = Some p ->
  place_item (remove_item g id).1 id (origin p) (placed_dimensions p) (rotation p) = (g, Ok tt) /\
  is_err (can_place_at (remove_item g id).1 (origin p) (placed_dimensions p) (rotation p) None) = false
  \/ ~ fits g (origin p) (oriented (placed_dimensions p) (rotation p)).
Proof.
  intros Hwf Hp. destruct (wf_placed g Hwf id p Hp) as (Ho & Hd & Hin).
  destruct (decide (saturating_add_u 8 (sx (origin p)) (width (oriented (placed_dimensions p) (rotation p)))
    <= columns g /\ saturating_add_u 8 (sy (origin p)) (height (oriented (placed_dimensions p) (rotation p)))
    <= rows g)) as [Hfit|Hfit]; [left|by right].
  assert (can_place_at g (origin p) (placed_dimensions p) (rotation p) (Some id) = Ok tt) as Hc.
  { apply can_place_Ok; [apply Hwf|done|]. split; [done|]. intros x y Hcov. split; [by apply Hin|].
    right. apply (wf_cells g Hwf); [by apply Hin|by exists p]. }
  apply (rotate_or_move_place g id p) in Hc; [|done..].
  split; [|by apply is_err_false].
  destruct (remove_item_cells g id p Hwf Hp) as (Hsh & Hpr & _ & Hcr).
  apply place_item_ok_iff with (id := id) in Hc.
  destruct (place_item _ _ _ _ _) as [g' res] eqn:Hpl. cbn in Hc. subst res. f_equal.
  pose proof (wf_shape g Hwf) as Hs.
  destruct (place_item_cells (remove_item g id).1 id _ _ _ _ ltac:(by eapply same_shape_shape) Ho Hpl)
    as (Hsh2 & Hpp & _ & Hcp).
  apply grid_ext; [done|by eapply same_shape_trans| |].
  - rewrite Hpp, Hpr, insert_delete_eq. symmetry. apply insert_id. by destruct p.
  - intros x y Hg. destruct (Hcp x y) as [H1 H2]; [by apply (same_shape_in_grid g)|].
    destruct (Hcr x y Hg) as [H3 H4].
    destruct (decide (placed_covers p x y)) as [Hcov|Hcov].
    + rewrite H1 by done. symmetry. apply (wf_cells g Hwf); [done|by exists p].
    + by rewrite H2, H4.
Qed.

(** Equipping takes an item off the grid into its slot, only the slot its
    definition allows and only when that slot is empty; a refused request
    changes nothing.  Unequipping it again to where it lay gives back the very
    same grid and equipment, and the item with its revision advanced twice. *)
Theorem equip_unequip_roundtrip (g : InventoryGrid) (e : CharacterEquipment) (item : ItemInstance)
    (p : GridPlacedItem) (request : RequestEquipItem)
    (get_allowed_slot : Z -> option EquipmentSlotKind)
    (get_dimensions : Z -> option InventoryDimensions) :
  grid_wf g -> placements g !! item_id item = Some p ->
  get_dimensions (definition_id item) = Some (placed_dimensions p) ->
  fits g (origin p) (oriented (placed_dimensions p) (rotation p)) ->
  let '(g', e', item', res) := handle_equip_item g e item request get_allowed_slot in
  (res = ActionSuccess <->
     item_id item = equip_item_id request /\ revision item = equip_revision request /\
     get_allowed_slot (definition_id item) = Some (equip_slot_kind request) /\
     slots e !! equip_slot_kind request = None) /\
  (res <> ActionSuccess -> g' = g /\ e' = e /\ item' = item) /\
  (res = ActionSuccess ->
     placements g' = delete (item_id item) (placements g) /\ grid_wf g' /\
     slots e' = <[equip_slot_kind request := item']> (slots e) /\ item' = bump item /\
     handle_unequip_item g' e'
       {| unequip_source := equip_slot_kind request; unequip_slot := origin p;
          unequip_rotation := rotation p; unequip_revision := revision item' |} get_dimensions
     = (g, e, Ok (bump (bump item)))).
Proof.
  intros Hwf Hp Hdim Hfit. unfold handle_equip_item.
  destruct (decide (item_id item <> _)) as [|H1]; [split_goals; [split; [done|tauto]|done|done]|].
  destruct (decide (revision item <> _)) as [|H2]; [split_goals; [split; [done|tauto]|done|done]|].
  apply dec_stable in H1, H2.
  destruct (get_allowed_slot (definition_id item)) as [s|];
    [|split_goals; [split; [done|intros (_ & _ & ? & _); done]|done|done]].
  destruct (decide (s <> _)) as [|H3];
    [split_goals; [split; [done|intros (_ & _ & ? & _); simplify_eq]|done|done]|].
  apply dec_stable in H3. subst s. unfold get_equipped.
  destruct (decide (is_Some _)) as [Hocc|Hfree].
  { split_goals; [split; [done|intros (_ & _ & _ & Hn); rewrite Hn in Hocc; by destruct Hocc]|done|done]. }
  apply eq_None_not_Some in Hfree. cbn [fst snd].
  split_goals; [done|done|]. intros _.
  split_goals; [by apply remove_item_placements|by apply remove_item_wf|done|done|].
  unfold handle_unequip_item, get_equipped. cbn. rewrite lookup_insert_eq, decide_False by tauto.
  change (definition_id (bump item)) with (definition_id item). rewrite Hdim.
  destruct (remove_place_back g (item_id item) p Hwf Hp) as [[Hpl ->]|]; [|done].
  change (item_id (bump item)) with (item_id item). rewrite Hpl. cbn.
  rewrite delete_insert_eq, delete_id by done. by destruct e.
Qed.

Lemma equip_unequip_roundtrip_witness :
  let pipe := new_unique 1 1001 (OwnerCharacter 5) 42 120 in
  let g := (place_item (grid_new 4 4) 1 (mk_slot 0 1) (mk_dims 1 3) Rotated90).1 in
  let req := {| equip_item_id := 1; equip_slot_kind := MainHand; equip_revision := 1 |} in
  let allowed (_ : Z) := Some MainHand in
  let dims (_ : Z) := Some (mk_dims 1 3) in
  let '(g', e', pipe', r) := handle_equip_item g equipment_new pipe req allowed in
  r = ActionSuccess /\ get_item_at g' (mk_slot 1 1) = None /\
  handle_unequip_item g' e' {| unequip_source := MainHand; unequip_slot := mk_slot 0 1;
    unequip_rotation := Rotated90; unequip_revision := 2 |} dims = (g, equipment_new, Ok (bump pipe')).
Proof.
  intros pipe g req allowed dims.
  assert (grid_wf g) as Hwf.
  { eapply (place_item_wf (grid_new 4 4)); [by apply grid_new_wf|done| | |apply surjective_pairing]; done. }
  pose proof (equip_unequip_roundtrip g equipment_new pipe (mk_placed (mk_slot 0 1) Rotated90 (mk_dims 1 3))
    req allowed dims Hwf eq_refl eq_refl ltac:(split; vm_compute; discriminate)) as H.
  destruct (handle_equip_item g equipment_new pipe req allowed) as [[[g' e'] pipe'] r] eqn:E.
  destruct H as (_ & _ & H).
  assert (r = ActionSuccess) as Hr by (vm_compute in E; injection E as _ _ _ <-; reflexivity).
  destruct (H Hr) as (_ & _ & _ & Hi & Hu). subst pipe'. split; [exact Hr|]. split; [|exact Hu].
  vm_compute in E. injection E as <- _ _. vm_compute. reflexivity.
Defined.

(** Dropping an item takes it off the player's grid and puts it, now
    owned by the world, alone into a new bag at the player's position that the
    index lists under its quadrant, for exactly the requested time to live; a
    refused request changes nothing. *)
Theorem drop_moves_item_to_bag (m m' : DroppedBagManager) (g g' : InventoryGrid)
    (item item' : ItemInstance) (request : RequestDropItem) (player_id : Z)
    (player_pos : F32.f32 * F32.f32) (tick ttl next_bag_id : Z) (res : DropResult) :
  grid_wf g -> manager_wf m -> bags m !! next_bag_id = None -> 0 <= tick -> 0 < ttl ->
  handle_drop_item m g item request player_id player_pos tick ttl next_bag_id = (m', g', item', res) ->
  (res = DropSuccess next_bag_id item' <->
     item_id item = drop_item_id request /\ revision item = drop_revision request) /\
  ((forall b i, res <> DropSuccess b i) -> m' = m /\ g' = g /\ item' = item) /\
  (forall b i, res = DropSuccess b i ->
     manager_wf m' /\ grid_wf g' /\ placements g' = delete (item_id item) (placements g) /\
     item_id item' = item_id item /\ quantity item' = quantity item /\
     (exists s, owner item' = OwnerWorld s) /\
     exists bag, bags m' = <[next_bag_id := bag]> (bags m) /\ bag_items bag = [item'] /\
       bag_id bag = next_bag_id /\ bag ∈ get_bags_in_quadrant m' (quadrant_of bag) /\
       in_i 32 (quadrant_x bag) /\ in_i 32 (quadrant_y bag) /\
       (forall t, tick <= t -> is_expired bag t = true <-> tick + ttl <= t)).
Proof.
  intros Hwf Hm Hf Ht Httl H. unfold handle_drop_item in H.
  destruct (decide (item_id item <> _)) as [|H1].
  { injection H as <- <- <- <-. split_goals; [split; [done|tauto]|done|done]. }
  destruct (decide (revision item <> _)) as [|H2].
  { injection H as <- <- <- <-. split_goals; [split; [done|tauto]|done|done]. }
  apply dec_stable in H1, H2. injection H as <- <- <- <-.
  split_goals; [done|intros Hno; by destruct (Hno next_bag_id (transfer_ownership item
    (OwnerWorld {| sector_x := F32.floor_as_i64 (F32.div player_pos.1 (F32.of_Z 64));
                   sector_y := F32.floor_as_i64 (F32.div player_pos.2 (F32.of_Z 64)) |})))|].
  intros _ _ _. match goal with |- context [spawn_bag m ?b] => set (bag := b) end.
  split_goals; [by apply spawn_bag_wf|by apply remove_item_wf|by apply remove_item_placements
    |apply transfer_ownership_id|unfold transfer_ownership; by case_decide
    |eexists; apply transfer_ownership_owner|].
  exists bag. split_goals; [done|done|done| |apply (wrap_i_range 32); lia|apply (wrap_i_range 32); lia|].
  - unfold get_bags_in_quadrant, spawn_bag. cbn. rewrite lookup_insert_eq.
    rewrite omap_app. cbn. rewrite lookup_insert_eq. apply elem_of_app. right. by left.
  - intros t Htt. unfold is_expired, saturating_sub_u. rewrite bool_decide_eq_true. cbn. lia.
Qed.

Lemma drop_moves_item_to_bag_witness :
  let pipe := new_unique 1 1001 (OwnerCharacter 5) 42 120 in
  let g := (place_item (grid_new 4 4) 1 (mk_slot 0 1) (mk_dims 1 3) Rotated90).1 in
  let req := {| drop_item_id := 1; drop_revision := 1 |} in
  let '(m', g', pipe', r) := handle_drop_item empty_manager g pipe req 5
    (F32.of_Z 130, F32.of_Z (-1)) 1000 600 77 in
  r = DropSuccess 77 pipe' /\ grid_wf g' /\ owner pipe' = OwnerWorld {| sector_x := 2; sector_y := -1 |} /\
  map bag_id (get_bags_in_quadrant m' (2, -1)) = [77].
Proof.
  intros pipe g req.
  assert (grid_wf g) as Hwf.
  { eapply (place_item_wf (grid_new 4 4)); [by apply grid_new_wf|done| | |apply surjective_pairing]; done. }
  destruct (handle_drop_item _ _ _ _ _ _ _ _ _) as [[[m' g'] pipe'] r] eqn:E.
  pose proof (drop_moves_item_to_bag _ _ _ _ _ _ req 5 _ 1000 600 77 _ Hwf empty_manager_wf eq_refl
    ltac:(lia) ltac:(lia) E) as (H1 & _ & H3).
  assert (r = DropSuccess 77 pipe') as Hr by (apply H1; split; reflexivity).
  split; [exact Hr|]. split; [by destruct (H3 _ _ Hr) as (_ & ? & _)|].
  vm_compute in E. injection E as <- _ <- _. split; vm_compute; reflexivity.
Defined.
