(* ===== verification/Containers.v ===== *)
(** * The container tree

    [crates/domain/src/containers.rs]: containers nested in a tree, stacks with
    a position in their container's grid, weight, merging, splitting, sorting,
    dropping and depositing.  The sources return static strings as errors; they
    are the constructors of [ContainerError] here, one per message. *)

From S2P Require Import Prelude F32.

(** ** Data *)

Inductive ItemCategory := General | Herb | Ore | Gem | EquipmentItem | Hazardous.
#[global] Instance item_category_eq_dec : EqDecision ItemCategory.
Proof. solve_decision. Defined.

Definition category_bits (c : ItemCategory) : Z :=
  match c with
  | General => Z.shiftl 1 0 | Herb => Z.shiftl 1 1 | Ore => Z.shiftl 1 2
  | Gem => Z.shiftl 1 3 | EquipmentItem => Z.shiftl 1 4 | Hazardous => Z.shiftl 1 5
  end.

(** [ItemCategoryFilter]: a mask of 32 bits. *)
Definition FILTER_ANY : Z := u_max 32.
Definition filter_only (c : ItemCategory) : Z := category_bits c.
Definition filter_allow (f : Z) (c : ItemCategory) : Z := Z.lor f (category_bits c).
Definition filter_allows (f : Z) (c : ItemCategory) : bool :=
  bool_decide (Z.land f (category_bits c) <> 0).

Inductive EncumbranceTier := Light | Medium | Heavy | Overburdened.

Inductive ContainerAffix :=
| WeightReduction (percent : Z)
| FoodPreservation (factor : F32.f32)
| Fireproof.

Inductive ContainerContent :=
| ContentEmpty
| ContentGrid (columns rows : Z)
| ContentSlots (capacity : Z).

Record StoredItem := mk_stored {
  st_id : Z;
  st_definition_id : Z;
  category : ItemCategory;
  unit_weight_grams : Z;
  st_quantity : Z;
  max_stack : Z;
  width : Z;
  height : Z;
  st_x : Z;
  st_y : Z;
  rotated : bool
}.

Definition stored_new (id def : Z) (c : ItemCategory) (unit qty stack w h : Z) : StoredItem :=
  mk_stored id def c unit qty stack w h 0 0 false.

(** Field updates. *)
Definition with_quantity (i : StoredItem) (q : Z) : StoredItem :=
  mk_stored (st_id i) (st_definition_id i) (category i) (unit_weight_grams i) q (max_stack i)
    (width i) (height i) (st_x i) (st_y i) (rotated i).
Definition with_position (i : StoredItem) (x y : Z) (r : bool) : StoredItem :=
  mk_stored (st_id i) (st_definition_id i) (category i) (unit_weight_grams i) (st_quantity i)
    (max_stack i) (width i) (height i) x y r.

Definition total_weight_grams (i : StoredItem) : Z :=
  saturating_mul_u 32 (unit_weight_grams i) (st_quantity i).
Definition area (i : StoredItem) : Z := wrap_u 16 (width i * height i).
Definition effective_width (i : StoredItem) : Z := if rotated i then height i else width i.
Definition effective_height (i : StoredItem) : Z := if rotated i then width i else height i.

Definition collides_with (a b : StoredItem) : bool :=
  bool_decide (st_x a < wrap_u 8 (st_x b + effective_width b) /\
               wrap_u 8 (st_x a + effective_width a) > st_x b /\
               st_y a < wrap_u 8 (st_y b + effective_height b) /\
               wrap_u 8 (st_y a + effective_height a) > st_y b).

Record ContainerInstance := mk_container {
  cid : Z;
  parent_container : option Z;
  allowed_tags : Z;
  content : ContainerContent;
  items : list StoredItem;
  base_weight_grams : Z;
  affixes : list ContainerAffix;
  nesting_allowed : bool
}.

Definition new_grid (id columns rows base : Z) : ContainerInstance :=
  mk_container id None FILTER_ANY (ContentGrid columns rows) [] base [] true.

Definition new_specialized (id columns rows base : Z) (allowed_category : ItemCategory) : ContainerInstance :=
  mk_container id None (filter_only allowed_category) (ContentGrid columns rows) [] base [] false.

Definition with_items (c : ContainerInstance) (l : list StoredItem) : ContainerInstance :=
  mk_container (cid c) (parent_container c) (allowed_tags c) (content c) l (base_weight_grams c)
    (affixes c) (nesting_allowed c).
Definition with_parent (c : ContainerInstance) (p : option Z) : ContainerInstance :=
  mk_container (cid c) p (allowed_tags c) (content c) (items c) (base_weight_grams c)
    (affixes c) (nesting_allowed c).
Definition add_affix (c : ContainerInstance) (a : ContainerAffix) : ContainerInstance :=
  mk_container (cid c) (parent_container c) (allowed_tags c) (content c) (items c)
    (base_weight_grams c) (affixes c ++ [a]) (nesting_allowed c).

Definition total_weight_reduction_percent (c : ContainerInstance) : Z :=
  Z.min (foldl (fun total a => match a with
                  | WeightReduction percent => wrap_u 16 (total + percent)
                  | _ => total end) 0 (affixes c)) 100.

Definition is_fireproof (c : ContainerInstance) : bool :=
  existsb (fun a => match a with Fireproof => true | _ => false end) (affixes c).

Record CharacterContainerTree := mk_tree {
  root_id : option Z;
  containers : gmap Z ContainerInstance
}.

Definition tree_new : CharacterContainerTree := mk_tree None ∅.
Definition set_root (t : CharacterContainerTree) (root : ContainerInstance) : CharacterContainerTree :=
  mk_tree (Some (cid root)) (<[cid root := root]> (containers t)).
Definition add_container (t : CharacterContainerTree) (c : ContainerInstance) : CharacterContainerTree :=
  mk_tree (root_id t) (<[cid c := c]> (containers t)).
Definition put (t : CharacterContainerTree) (id : Z) (c : ContainerInstance) : CharacterContainerTree :=
  mk_tree (root_id t) (<[id := c]> (containers t)).

Inductive ContainerError :=
| WouldCreateCycle | TargetContainerNotFound | NestingNotAllowed | MaxDepthReached | BagToMoveNotFound
| ContainerNotFound | ItemNotAllowedHere | BurnsOrdinaryBag | QuickInsertOnlyGrid | NoSpace
| SplitOnlyGrid | SourceItemNotFound | SplitZero | SplitTooMuch | NoSpaceForSplit
| SortOnlyGrid | SortFailed | ItemNotInContainer | SameContainer | SourceContainerNotFound
| NoRootContainer.

(** ** Nesting

    The loops follow the parent links; [fuel] bounds the number of steps and
    [None] says that it was not enough.  One step per container suffices when
    the links form no cycle ([climb_total]). *)

Definition parent_of (t : CharacterContainerTree) (id : Z) : option Z :=
  c ← containers t !! id; parent_container c.

Fixpoint climb_to (fuel : nat) (t : CharacterContainerTree) (moving : Z) (current_parent : option Z)
  : option bool :=
  match current_parent with
  | None => Some false
  | Some parent_id =>
      match fuel with
      | O => None
      | S fuel => if decide (parent_id = moving) then Some true
                  else climb_to fuel t moving (parent_of t parent_id)
      end
  end.

Definition would_create_cycle (fuel : nat) (t : CharacterContainerTree) (moving target : Z) : option bool :=
  if decide (moving = target) then Some true else climb_to fuel t moving (parent_of t target).

Fixpoint get_depth (fuel : nat) (t : CharacterContainerTree) (id : Z) : option Z :=
  match parent_of t id with
  | None => Some 0
  | Some parent_id =>
      match fuel with
      | O => None
      | S fuel => depth ← get_depth fuel t parent_id; Some (wrap_u 32 (depth + 1))
      end
  end.

Definition attach_to_parent (fuel : nat) (t : CharacterContainerTree) (bag_to_move target_parent max_depth : Z)
  : option (CharacterContainerTree * result ContainerError unit) :=
  cycle ← would_create_cycle fuel t bag_to_move target_parent;
  if cycle : bool then Some (t, Err WouldCreateCycle) else
  match containers t !! target_parent with
  | None => Some (t, Err TargetContainerNotFound)
  | Some parent =>
      if negb (nesting_allowed parent) then Some (t, Err NestingNotAllowed) else
      parent_depth ← get_depth fuel t target_parent;
      if decide (wrap_u 32 (parent_depth + 1) > max_depth) then Some (t, Err MaxDepthReached) else
      match containers t !! bag_to_move with
      | Some bag => Some (put t bag_to_move (with_parent bag (Some target_parent)), Ok tt)
      | None => Some (t, Err BagToMoveNotFound)
      end
  end.

(** ** Weight

    [values] is the order in which the hash map hands out the containers: any
    enumeration of them. *)

Fixpoint children_weight (weigh : Z -> option (result ContainerError Z)) (id : Z)
    (values : list ContainerInstance) (child_bags_weight : Z) : option (result ContainerError Z) :=
  match values with
  | [] => Some (Ok child_bags_weight)
  | child :: values =>
      if decide (parent_container child = Some id) then
        r ← weigh (cid child);
        match r with
        | Err e => Some (Err e)
        | Ok w => children_weight weigh id values (saturating_add_u 32 child_bags_weight w)
        end
      else children_weight weigh id values child_bags_weight
  end.

Definition direct_items_weight (c : ContainerInstance) : Z :=
  foldl (fun s i => wrap_u 32 (s + total_weight_grams i)) 0 (items c).

Definition final_weight (c : ContainerInstance) (child_bags_weight : Z) : Z :=
  let total_content_weight := saturating_add_u 32 (direct_items_weight c) child_bags_weight in
  let reduction_percent := total_weight_reduction_percent c in
  let discount := wrap_u 32 (wrap_u 64 (total_content_weight * reduction_percent) / 100) in
  let final_content_weight := saturating_sub_u total_content_weight discount in
  saturating_add_u 32 (base_weight_grams c) final_content_weight.

Fixpoint calculate_container_weight (fuel : nat) (values : list ContainerInstance)
    (t : CharacterContainerTree) (id : Z) : option (result ContainerError Z) :=
  match fuel with
  | O => None
  | S fuel =>
      match containers t !! id with
      | None => Some (Err ContainerNotFound)
      | Some container =>
          r ← children_weight (calculate_container_weight fuel values t) id values 0;
          match r with
          | Err e => Some (Err e)
          | Ok child_bags_weight => Some (Ok (final_weight container child_bags_weight))
          end
      end
  end.

Definition calculate_total_weight (fuel : nat) (values : list ContainerInstance)
    (t : CharacterContainerTree) : option (result ContainerError Z) :=
  match root_id t with
  | Some root => calculate_container_weight fuel values t root
  | None => Some (Ok 0)
  end.

Definition tier_of (current_weight max_capacity_grams : Z) : EncumbranceTier :=
  if decide (max_capacity_grams = 0) then Overburdened else
  let percentage := wrap_u 64 (current_weight * 100) / max_capacity_grams in
  if decide (percentage <= 50) then Light
  else if decide (percentage <= 80) then Medium
  else if decide (percentage <= 100) then Heavy
  else Overburdened.

Definition get_encumbrance_tier (fuel : nat) (values : list ContainerInstance)
    (t : CharacterContainerTree) (max_capacity_grams : Z) : option EncumbranceTier :=
  r ← calculate_total_weight fuel values t;
  let current_weight := match r with Ok w => w | Err _ => 0 end in
  Some (tier_of current_weight max_capacity_grams).

(** ** Placement *)

(** The candidate of the search at one position and orientation. *)
Definition candidate (w h x y : Z) (r : bool) : StoredItem := mk_stored 0 0 General 0 1 1 w h x y r.

Definition position_free (columns rows : Z) (existing_items : list StoredItem) (c : StoredItem) : bool :=
  bool_decide (wrap_u 8 (st_x c + effective_width c) <= columns /\
               wrap_u 8 (st_y c + effective_height c) <= rows) &&
  negb (existsb (collides_with c) existing_items).

Definition try_position (columns rows : Z) (existing_items : list StoredItem) (w h : Z)
    (allow_rotation : bool) (x y : Z) : option (Z * Z * bool) :=
  if position_free columns rows existing_items (candidate w h x y false) then Some (x, y, false)
  else if allow_rotation && bool_decide (w <> h) &&
          position_free columns rows existing_items (candidate w h x y true)
  then Some (x, y, true) else None.

(** The first success of a loop with early return. *)
Fixpoint find_map {A B} (f : A -> option B) (l : list A) : option B :=
  match l with
  | [] => None
  | a :: l => match f a with Some b => Some b | None => find_map f l end
  end.

Definition find_free_slot (columns rows : Z) (existing_items : list StoredItem) (w h : Z)
    (allow_rotation : bool) : option (Z * Z * bool) :=
  find_map (fun y => find_map (fun x => try_position columns rows existing_items w h allow_rotation x y)
                              (seqZ 0 columns)) (seqZ 0 rows).

(** The merge loop of [quick_insert]: the stacks after it, what is left of the
    item, and the stack that took the last of it if the loop returned early. *)
Fixpoint merge_into (l : list StoredItem) (item : StoredItem)
  : list StoredItem * StoredItem * option StoredItem :=
  match l with
  | [] => ([], item, None)
  | existing :: rest =>
      if decide (st_definition_id existing = st_definition_id item /\
                 st_quantity existing < max_stack existing) then
        let available_space := wrap_u 32 (max_stack existing - st_quantity existing) in
        let amount_to_add := Z.min (st_quantity item) available_space in
        let existing' := with_quantity existing (wrap_u 32 (st_quantity existing + amount_to_add)) in
        let item' := with_quantity item (wrap_u 32 (st_quantity item - amount_to_add)) in
        if decide (st_quantity item' = 0) then (existing' :: rest, item', Some existing')
        else let '(rest', item'', r) := merge_into rest item' in (existing' :: rest', item'', r)
      else let '(rest', item', r) := merge_into rest item in (existing :: rest', item', r)
  end.

Definition quick_insert (t : CharacterContainerTree) (container_id : Z) (item : StoredItem)
    (allow_rotation : bool) : CharacterContainerTree * result ContainerError StoredItem :=
  match containers t !! container_id with
  | None => (t, Err TargetContainerNotFound)
  | Some container =>
      if negb (filter_allows (allowed_tags container) (category item)) then (t, Err ItemNotAllowedHere) else
      if bool_decide (category item = Hazardous) && negb (is_fireproof container)
      then (t, Err BurnsOrdinaryBag) else
      let '(l, item1, merged) :=
        if decide (max_stack item > 1) then merge_into (items container) item
        else (items container, item, None) in
      match merged with
      | Some existing => (put t container_id (with_items container l), Ok existing)
      | None =>
          let t1 := put t container_id (with_items container l) in
          match content container with
          | ContentGrid columns rows =>
              match find_free_slot columns rows l (width item1) (height item1) allow_rotation with
              | Some (found_x, found_y, is_rotated) =>
                  let item2 := with_position item1 found_x found_y is_rotated in
                  (put t container_id (with_items container (l ++ [item2])), Ok item2)
              | None => (t1, Err NoSpace)
              end
          | _ => (t1, Err QuickInsertOnlyGrid)
          end
      end
  end.

Fixpoint position {A} (p : A -> bool) (l : list A) : option nat :=
  match l with
  | [] => None
  | a :: l => if p a then Some 0%nat else S <$> position p l
  end.

Definition split_stack (t : CharacterContainerTree) (container_id source_item_id amount_to_split new_item_id : Z)
  : CharacterContainerTree * result ContainerError StoredItem :=
  match containers t !! container_id with
  | None => (t, Err ContainerNotFound)
  | Some container =>
      match content container with
      | ContentGrid columns rows =>
          match position (fun i => bool_decide (st_id i = source_item_id)) (items container) with
          | None => (t, Err SourceItemNotFound)
          | Some item_idx =>
              match items container !! item_idx with
              | None => (t, Err SourceItemNotFound) (* out of range: excluded by [position_lookup] *)
              | Some original_item =>
                  if decide (amount_to_split = 0) then (t, Err SplitZero) else
                  if decide (amount_to_split >= st_quantity original_item) then (t, Err SplitTooMuch) else
                  let new_item := stored_new new_item_id (st_definition_id original_item)
                    (category original_item) (unit_weight_grams original_item) amount_to_split
                    (max_stack original_item) (width original_item) (height original_item) in
                  let l := <[item_idx := with_quantity original_item
                              (wrap_u 32 (st_quantity original_item - amount_to_split))]> (items container) in
                  match find_free_slot columns rows l (width new_item) (height new_item) true with
                  | Some (fx, fy, r) =>
                      let new_item' := with_position new_item fx fy r in
                      (put t container_id (with_items container (l ++ [new_item'])), Ok new_item')
                  | None =>
                      let l' := alter (fun i => with_quantity i (wrap_u 32 (st_quantity i + amount_to_split)))
                                  item_idx l in
                      (put t container_id (with_items container l'), Err NoSpaceForSplit)
                  end
              end
          end
      | _ => (t, Err SplitOnlyGrid)
      end
  end.

(** ** Sorting, dropping, depositing *)

(** The comparison of [auto_sort]: by area, category and definition, each from
    the greatest down. *)
Definition sort_cmp (a b : StoredItem) : comparison :=
  match area b ?= area a with
  | Eq => match category_bits (category b) ?= category_bits (category a) with
          | Eq => st_definition_id b ?= st_definition_id a
          | c => c
          end
  | c => c
  end.

(** [sort_by] is stable and its comparison is a total preorder, so that its
    result is the one of the insertion sort. *)
Fixpoint insert_sorted (a : StoredItem) (l : list StoredItem) : list StoredItem :=
  match l with
  | [] => [a]
  | b :: l => match sort_cmp a b with Gt => b :: insert_sorted a l | _ => a :: b :: l end
  end.
Definition sort_items (l : list StoredItem) : list StoredItem := foldr insert_sorted [] l.

Fixpoint place_all (columns rows : Z) (placed todo : list StoredItem) : list StoredItem * result ContainerError unit :=
  match todo with
  | [] => (placed, Ok tt)
  | item :: todo =>
      match find_free_slot columns rows placed (width item) (height item) true with
      | Some (fx, fy, r) => place_all columns rows (placed ++ [with_position item fx fy r]) todo
      | None => (placed, Err SortFailed)
      end
  end.

Definition auto_sort (t : CharacterContainerTree) (container_id : Z)
  : CharacterContainerTree * result ContainerError unit :=
  match containers t !! container_id with
  | None => (t, Err ContainerNotFound)
  | Some container =>
      match content container with
      | ContentGrid columns rows =>
          let '(l, r) := place_all columns rows [] (sort_items (items container)) in
          (put t container_id (with_items container l), r)
      | _ => (t, Err SortOnlyGrid)
      end
  end.

Definition drop_item (t : CharacterContainerTree) (container_id item_id : Z)
  : CharacterContainerTree * result ContainerError StoredItem :=
  match containers t !! container_id with
  | None => (t, Err ContainerNotFound)
  | Some container =>
      match position (fun i => bool_decide (st_id i = item_id)) (items container) with
      | None => (t, Err ItemNotInContainer)
      | Some idx =>
          match items container !! idx with
          | None => (t, Err ItemNotInContainer) (* out of range: excluded by [position_lookup] *)
          | Some removed => (put t container_id (with_items container (delete idx (items container))), Ok removed)
          end
      end
  end.

Definition destroy_item (t : CharacterContainerTree) (container_id item_id : Z)
  : CharacterContainerTree * result ContainerError unit :=
  let '(t', r) := drop_item t container_id item_id in
  (t', match r with Ok _ => Ok tt | Err e => Err e end).

Fixpoint deposit_loop (t : CharacterContainerTree) (source_id target_id : Z) (ids : list Z)
    (transferred_count : Z) : CharacterContainerTree * Z :=
  match ids with
  | [] => (t, transferred_count)
  | item_id :: ids =>
      match drop_item t source_id item_id with
      | (t1, Err _) => deposit_loop t1 source_id target_id ids transferred_count
      | (t1, Ok removed_item) =>
          match quick_insert t1 target_id removed_item true with
          | (t2, Ok _) => deposit_loop t2 source_id target_id ids (transferred_count + 1)
          | (t2, Err _) =>
              match containers t2 !! source_id with
              | Some source => (put t2 source_id (with_items source (items source ++ [removed_item])),
                                transferred_count)
              | None => (t2, transferred_count) (* excluded: [drop_item] found the source *)
              end
          end
      end
  end.

Definition deposit_matching (t : CharacterContainerTree) (source_id target_id : Z)
  : CharacterContainerTree * result ContainerError Z :=
  if decide (source_id = target_id) then (t, Err SameContainer) else
  match containers t !! target_id with
  | None => (t, Err TargetContainerNotFound)
  | Some target =>
      let target_definitions := map st_definition_id (items target) in
      match containers t !! source_id with
      | None => (t, Err SourceContainerNotFound)
      | Some source =>
          let matching_item_ids := map st_id
            (filter (fun i => st_definition_id i ∈ target_definitions) (items source)) in
          let '(t', n) := deposit_loop t source_id target_id matching_item_ids 0 in
          (t', Ok n)
      end
  end.

(** ** Nesting: the loops terminate on trees and the tree stays a tree *)

Definition climb (t : CharacterContainerTree) (c p : Z) : Prop := parent_of t c = Some p.
Definition acyclic (t : CharacterContainerTree) : Prop := forall c, ~ tc (climb t) c c.

Lemma climb_dom t c p : climb t c p -> c ∈ dom (containers t).
Proof.
  unfold climb, parent_of. intros H. apply elem_of_dom. destruct (containers t !! c); [by eexists|done].
Qed.

(** An induction that walks up the links: every step leaves a container that it
    will not meet again, so it is shorter than the number of containers. *)
Lemma climb_ind t (P : nat -> Z -> Prop) : acyclic t ->
  (forall n c, (forall p, climb t c p -> exists n', n = S n' /\ P n' p) -> P n c) ->
  forall n c, (size (containers t) <= n)%nat -> P n c.
Proof.
  intros Hac Hstep n0 c Hn0.
  assert (forall n (X : gset Z) c, (size X <= n)%nat -> (forall a, rtc (climb t) c a -> a ∈ dom (containers t) -> a ∈ X) ->
    P n c) as H.
  { intros n. induction n as [|n IH]; intros X c' Hsz HX; apply Hstep; intros p Hp.
    - exfalso. assert (c' ∈ X) as Hin by (apply HX; [done|by eapply climb_dom]).
      assert (size X = 0%nat) as Hz by lia. apply size_empty_inv in Hz. set_solver.
    - exists n. split; [done|]. assert (c' ∈ X) as Hin by (apply HX; [done|by eapply climb_dom]).
      apply (IH (X ∖ {[c']})).
      + rewrite size_difference by set_solver. rewrite size_singleton. lia.
      + intros a Ha Hd. apply elem_of_difference. split; [apply HX; [by eapply rtc_l|done]|].
        intros ->%elem_of_singleton. apply (Hac c'). by eapply tc_rtc_r; [apply tc_once|]. }
  apply (H _ (dom (containers t))); [by rewrite size_dom|done].
Qed.

Lemma climb_to_spec t moving : acyclic t -> forall fuel c, (size (containers t) <= fuel)%nat ->
  exists b, climb_to fuel t moving (parent_of t c) = Some b /\ (b = true <-> tc (climb t) c moving).
Proof.
  intros Hac. apply climb_ind; [done|]. intros n c IH. destruct (parent_of t c) as [p|] eqn:Hp.
  - destruct (IH p Hp) as (n' & -> & b & Hb & Hbt). cbn. case_decide as Hm.
    + exists true. split; [done|]. split; [|done]. intros _. subst. by apply tc_once.
    + exists b. split; [done|]. rewrite Hbt. split; [by apply tc_l|].
      intros H. inversion H as [? ? H1|? y ? H1 H2]; subst; unfold climb in H1; congruence.
  - exists false. split; [by destruct n|]. split; [done|].
    intros H. inversion H as [? ? H1|? y ? H1 H2]; subst; unfold climb in H1; congruence.
Qed.

Lemma would_create_cycle_spec t fuel moving target : acyclic t -> (size (containers t) <= fuel)%nat ->
  exists b, would_create_cycle fuel t moving target = Some b /\ (b = true <-> rtc (climb t) target moving).
Proof.
  intros Hac Hf. unfold would_create_cycle. case_decide as Hm.
  - subst. exists true. split; [done|]. split; [|done]. done.
  - destruct (climb_to_spec t moving Hac fuel target Hf) as (b & -> & Hb). exists b. split; [done|].
    rewrite Hb. split; [apply tc_rtc|]. intros [->|?]%rtc_tc; done.
Qed.

Lemma get_depth_spec t : acyclic t -> forall fuel c, (size (containers t) <= fuel)%nat ->
  exists d : nat, (d <= size (containers t))%nat /\
    (Z.of_nat (size (containers t)) < 2 ^ 32 -> get_depth fuel t c = Some (Z.of_nat d)) /\
    get_depth fuel t c <> None /\
    exists r, nsteps (climb t) d c r /\ parent_of t r = None.
Proof.
  intros Hac fuel c Hf.
  assert (forall n c, (size (containers t) <= n)%nat -> exists d : nat, (d <= n)%nat /\
    exists r, nsteps (climb t) d c r /\ parent_of t r = None) as Hd.
  { clear fuel c Hf. apply climb_ind; [done|]. intros n c IH. destruct (parent_of t c) as [p|] eqn:Hp.
    - destruct (IH p Hp) as (n' & -> & d & Hd & r & Hr & Hn). exists (S d). split; [lia|].
      exists r. split; [by eapply nsteps_l|done].
    - exists 0%nat. split; [lia|]. exists c. split; [constructor|done]. }
  destruct (Hd _ c ltac:(reflexivity)) as (d & Hdn & r & Hr & Hn). exists d. split; [done|].
  assert (forall fuel c, (size (containers t) <= fuel)%nat -> get_depth fuel t c <> None) as Htot.
  { clear -Hac. apply climb_ind; [done|]. intros n c IH. destruct (parent_of t c) as [p|] eqn:Hp.
    - destruct (IH p Hp) as (n' & -> & H). cbn. rewrite Hp. by destruct (get_depth n' t p).
    - by destruct n; cbn; rewrite Hp. }
  split; [|split; [by apply Htot|by exists r]].
  intros Hsz. specialize (Htot fuel c Hf). clear Hd Hf. revert fuel Htot.
  assert (Z.of_nat d < 2 ^ 32) as Hlt by lia. clear Hdn.
  induction Hr as [x|d x y z H1 H2 IH]; intros fuel Htot.
  - destruct fuel; cbn; by rewrite Hn.
  - unfold climb in H1. destruct fuel as [|fuel]; cbn in *; rewrite H1 in *; [done|].
    rewrite IH; [|done|lia|by intros E; rewrite E in Htot]. cbn. f_equal.
    rewrite wrap_u_small by (unfold in_u; lia). lia.
Qed.

Lemma climb_put t bag b target c p : containers t !! bag = Some b ->
  climb (put t bag (with_parent b (Some target))) c p <->
  if decide (c = bag) then p = target else climb t c p.
Proof.
  intros Hb. unfold climb, parent_of, put. cbn. case_decide as Hc.
  - subst. rewrite lookup_insert_eq. cbn. split; congruence.
  - by rewrite lookup_insert_ne.
Qed.

Lemma attach_acyclic t bag b target : acyclic t -> containers t !! bag = Some b ->
  ~ rtc (climb t) target bag -> acyclic (put t bag (with_parent b (Some target))).
Proof.
  intros Hac Hb Hno c Hc. set (t' := put t bag (with_parent b (Some target))) in *.
  assert (forall x p, climb t' x p -> x = bag /\ p = target \/ x <> bag /\ climb t x p) as Hstep.
  { intros x p Hx. apply (climb_put t bag b target x p Hb) in Hx. case_decide; tauto. }
  assert (forall x y, tc (climb t') x y -> tc (climb t) x y \/ rtc (climb t) target y) as H1.
  { intros x y H. induction H as [x y H|x y z H _ IH].
    - apply Hstep in H as [[-> ->]|[_ H]]; [by right|left; by apply tc_once].
    - apply Hstep in H as [[-> ->]|[_ H]]; destruct IH as [IH|IH]; try (by right).
      + right. by apply tc_rtc.
      + left. by eapply tc_l. }
  assert (forall x y, tc (climb t') x y -> rtc (climb t) target x -> tc (climb t) x y) as H2.
  { intros x y H. induction H as [x y H|x y z H _ IH]; intros Hr;
      apply Hstep in H as [[-> ->]|[_ H]]; try done.
    - by apply tc_once.
    - eapply tc_l; [done|]. apply IH. by eapply rtc_r. }
  destruct (H1 c c Hc) as [H|H]; [by apply (Hac c)|]. apply (Hac c). by apply H2.
Qed.

(** Attaching a bag always terminates on a tree and keeps it a tree.  It is
    refused as a cycle exactly when the bag is the target or one of the
    containers around it; on success the bag hangs below the target at a depth
    within the limit and no other container has changed; otherwise the tree is
    as before.  The loops need no more steps than there are containers. *)
Theorem attach_to_parent_correct (fuel : nat) (t : CharacterContainerTree) (bag target max_depth : Z) :
  acyclic t -> (size (containers t) <= fuel)%nat -> Z.of_nat (size (containers t)) < 2 ^ 32 - 1 ->
  exists t' r, attach_to_parent fuel t bag target max_depth = Some (t', r) /\ acyclic t' /\
    (r = Err WouldCreateCycle <-> rtc (climb t) target bag) /\
    (is_ok r = false -> t' = t) /\
    (r = Ok tt ->
       parent_of t' bag = Some target /\ dom (containers t') = dom (containers t) /\
       (forall c, c <> bag -> containers t' !! c = containers t !! c) /\
       (forall c, items <$> containers t' !! c = items <$> containers t !! c) /\
       exists d root, nsteps (climb t) d target root /\ parent_of t root = None /\
         Z.of_nat d + 1 <= max_depth).
Proof.
  intros Hac Hf Hsz. unfold attach_to_parent.
  destruct (would_create_cycle_spec t fuel bag target Hac Hf) as (cyc & -> & Hcyc). cbn.
  destruct cyc.
  { exists t, (Err WouldCreateCycle). split_goals; [done|done| |done|done]. tauto. }
  assert (~ rtc (climb t) target bag) as Hno by (intros H; by apply Hcyc in H).
  destruct (containers t !! target) as [parent|] eqn:Ep.
  2: { exists t, (Err TargetContainerNotFound). split_goals; done. }
  destruct (nesting_allowed parent); cbn.
  2: { exists t, (Err NestingNotAllowed). split_goals; done. }
  destruct (get_depth_spec t Hac fuel target Hf) as (d & Hd & Hdep & _ & root & Hr & Hn).
  rewrite Hdep by lia. cbn. rewrite wrap_u_small by (unfold in_u; lia).
  destruct (decide (Z.of_nat d + 1 > max_depth)).
  { exists t, (Err MaxDepthReached). split_goals; done. }
  destruct (containers t !! bag) as [b|] eqn:Eb.
  2: { exists t, (Err BagToMoveNotFound). split_goals; done. }
  exists (put t bag (with_parent b (Some target))), (Ok tt).
  split_goals; [done|by apply attach_acyclic|done|done|]. intros _. split_goals.
  - unfold parent_of, put. cbn. by rewrite lookup_insert_eq.
  - cbn. rewrite dom_insert_L. apply elem_of_dom_2 in Eb. set_solver.
  - intros c Hc. cbn. by rewrite lookup_insert_ne.
  - intros c. cbn. destruct (decide (c = bag)) as [->|]; [|by rewrite lookup_insert_ne].
    by rewrite lookup_insert_eq, Eb.
  - exists d, root. split_goals; [done..|lia].
Qed.

Section TreeWitness.
Let bag n p := with_parent (new_grid n 4 4 500) p.
Let t := add_container (add_container (set_root tree_new (new_grid 1 10 6 0)) (bag 2 (Some 1))) (bag 3 None).

Lemma witness_tree_acyclic : acyclic t.
Proof.
  assert (forall c p, climb t c p -> c = 2 /\ p = 1) as H.
  { intros c p. unfold climb, parent_of, t, add_container, set_root. cbn.
    destruct (decide (c = 3)) as [->|]; [rewrite lookup_insert_eq; done|].
    rewrite lookup_insert_ne by done.
    destruct (decide (c = 2)) as [->|]; [rewrite lookup_insert_eq; cbn; by intros [= <-]|].
    rewrite lookup_insert_ne by done.
    destruct (decide (c = 1)) as [->|]; [rewrite lookup_insert_eq; done|].
    by rewrite lookup_insert_ne. }
  intros c Hc. inversion Hc as [? ? H1|? y ? H1 H2]; subst; apply H in H1; [lia|].
  destruct H1 as [-> ->]. inversion H2 as [? ? H3|? z ? H3 H4]; subst; apply H in H3; lia.
Qed.

Lemma attach_to_parent_correct_witness :
  exists t', attach_to_parent 3 t 3 2 2 = Some (t', Ok tt) /\ acyclic t' /\
    attach_to_parent 3 t 1 2 2 = Some (t, Err WouldCreateCycle) /\
    attach_to_parent 3 t 3 2 1 = Some (t, Err MaxDepthReached).
Proof.
  destruct (attach_to_parent_correct 3 t 3 2 2 witness_tree_acyclic) as (t' & r & E & Hac & _);
    [vm_compute; lia|vm_compute; reflexivity|].
  assert (r = Ok tt) as Hr by (vm_compute in E; injection E as _ <-; reflexivity). subst r.
  exists t'. split; [exact E|]. split; [exact Hac|].
  split; vm_compute; reflexivity.
Defined.
End TreeWitness.

(** The depth of the containers nested in the bag does not count: a bag that
    holds another one is accepted where only one more level is allowed, and its
    content ends up below the limit. *)
Section SubtreeDepth.
Let bag n p := with_parent (new_grid n 4 4 500) p.
Let t := add_container (add_container (set_root tree_new (new_grid 1 10 6 0)) (bag 2 None)) (bag 3 (Some 2)).

Theorem attach_ignores_subtree_depth :
  exists t', attach_to_parent 3 t 2 1 1 = Some (t', Ok tt) /\ get_depth 3 t' 3 = Some 2.
Proof. eexists. split; [vm_compute; reflexivity|vm_compute; reflexivity]. Qed.
End SubtreeDepth.

(** ** Weight: termination and independence of the map's order *)

Definition enumerates (values : list ContainerInstance) (t : CharacterContainerTree) : Prop :=
  values ≡ₚ (map_to_list (containers t)).*2.

Lemma enumerates_self t : enumerates ((map_to_list (containers t)).*2) t.
Proof. unfold enumerates. reflexivity. Qed.

Definition child_containers (t : CharacterContainerTree) (id : Z) : list ContainerInstance :=
  filter (fun c => parent_container c = Some id) ((map_to_list (containers t)).*2).

Definition sum_weights (weight : Z -> Z) (l : list ContainerInstance) : Z :=
  foldr (fun c s => weight (cid c) + s) 0 l.

(** A container is stored under its own identifier, as [add_container] and
    [set_root] do; weights are unsigned. *)
Definition keyed (t : CharacterContainerTree) : Prop :=
  forall id c, containers t !! id = Some c -> cid c = id /\ in_u 32 (base_weight_grams c).

Lemma elem_values t values c : enumerates values t -> keyed t ->
  c ∈ values <-> containers t !! cid c = Some c.
Proof.
  intros He Hk. rewrite He. split.
  - intros ([id c'] & Hc & Hin)%list_elem_of_fmap. cbn in Hc. subst c'.
    apply elem_of_map_to_list in Hin. by destruct (Hk id c Hin) as [-> _].
  - intros H. apply list_elem_of_fmap. exists (cid c, c). split; [done|]. by apply elem_of_map_to_list.
Qed.

Lemma child_climb t id c : keyed t -> c ∈ child_containers t id ->
  containers t !! cid c = Some c /\ climb t (cid c) id.
Proof.
  intros Hk [Hp Hin]%list_elem_of_filter. apply (elem_values t _ c) in Hin; [|apply enumerates_self|done].
  split; [exact Hin|]. unfold climb, parent_of. rewrite Hin. exact Hp.
Qed.

Lemma sum_weights_nonneg weight l : (forall c, c ∈ l -> 0 <= weight (cid c)) -> 0 <= sum_weights weight l.
Proof.
  unfold sum_weights. induction l as [|c l IH]; intros H; cbn [foldr]; [lia|].
  apply Z.add_nonneg_nonneg; [apply H; by left|]. apply IH. intros c' Hc'. apply H. by right.
Qed.

Lemma sum_weights_perm weight l l' : l ≡ₚ l' -> sum_weights weight l = sum_weights weight l'.
Proof. unfold sum_weights. induction 1; cbn [foldr]; lia. Qed.

Lemma children_weight_spec weigh weight id values acc :
  (forall c, c ∈ values -> parent_container c = Some id ->
     weigh (cid c) = Some (Ok (weight (cid c))) /\ 0 <= weight (cid c)) ->
  in_u 32 acc ->
  children_weight weigh id values acc =
  Some (Ok (Z.min (acc + sum_weights weight (filter (fun c => parent_container c = Some id) values)) (u_max 32))).
Proof.
  unfold u_max, in_u. revert acc. induction values as [|c values IH]; intros acc H Hacc; cbn [children_weight].
  { cbn. f_equal. f_equal. lia. }
  assert (forall c, c ∈ values -> parent_container c = Some id ->
     weigh (cid c) = Some (Ok (weight (cid c))) /\ 0 <= weight (cid c)) as H' by (intros; apply H; [by right|done]).
  rewrite list.filter_cons. destruct (decide (parent_container c = Some id)) as [Hp|Hp]; [|by apply IH].
  destruct (H c ltac:(by left) Hp) as [-> Hw]. cbn.
  unfold saturating_add_u, u_max. rewrite IH; [|done|lia].
  assert (0 <= sum_weights weight (filter (fun c => parent_container c = Some id) values)).
  { apply sum_weights_nonneg. intros c' [Hc' Hin]%list_elem_of_filter. by apply H'. }
  change (foldr _ 0 ?l) with (sum_weights weight l). f_equal. f_equal. lia.
Qed.

Lemma final_weight_bounds c w : in_u 32 (base_weight_grams c) ->
  in_u 32 (final_weight c w) /\ base_weight_grams c <= final_weight c w.
Proof.
  unfold final_weight, saturating_add_u, saturating_sub_u, u_max, in_u. intros [? ?]. lia.
Qed.

Lemma calculate_container_weight_S m values t id :
  calculate_container_weight (S m) values t id =
  match containers t !! id with
  | None => Some (Err ContainerNotFound)
  | Some c => r ← children_weight (calculate_container_weight m values t) id values 0;
              match r with Err e => Some (Err e) | Ok w => Some (Ok (final_weight c w)) end
  end.
Proof. done. Qed.

(** Walking down to the children, as [climb_ind] walks up. *)
Lemma descend_ind t (P : nat -> Z -> Prop) : acyclic t ->
  (forall n id, is_Some (containers t !! id) ->
     (forall child, is_Some (containers t !! child) -> climb t child id -> exists n', n = S n' /\ P n' child) ->
     P n id) ->
  forall n id, (size (containers t) <= n)%nat -> is_Some (containers t !! id) -> P n id.
Proof.
  intros Hac Hstep n0 id Hn0 Hid.
  assert (forall n (X : gset Z) id, (size X <= n)%nat -> is_Some (containers t !! id) ->
    (forall a, rtc (climb t) a id -> a ∈ dom (containers t) -> a ∈ X) -> P n id) as H.
  { intros n. induction n as [|n IH]; intros X id' Hsz Hs HX; apply Hstep; try done; intros ch Hch Hcl.
    - exfalso. assert (id' ∈ X) as Hin by (apply HX; [done|by apply elem_of_dom]).
      assert (size X = 0%nat) as Hz by lia. apply size_empty_inv in Hz. set_solver.
    - exists n. split; [done|]. assert (id' ∈ X) as Hin by (apply HX; [done|by apply elem_of_dom]).
      apply (IH (X ∖ {[id']})); [|done|].
      + rewrite size_difference by set_solver. rewrite size_singleton. lia.
      + intros a Ha Hd. apply elem_of_difference. split; [apply HX; [by eapply rtc_r|done]|].
        intros ->%elem_of_singleton. apply (Hac id'). by eapply tc_rtc_l; [|apply tc_once]. }
  apply (H _ (dom (containers t))); [by rewrite size_dom|done|done].
Qed.

Lemma weight_exists t : acyclic t -> keyed t -> forall n id, (size (containers t) <= n)%nat ->
  is_Some (containers t !! id) ->
  exists w, 0 <= w /\ forall m values, (S n <= m)%nat -> enumerates values t ->
    calculate_container_weight m values t id = Some (Ok w).
Proof.
  intros Hac Hk. apply descend_ind; [done|]. intros n id [c Hc] IH.
  set (vals0 := (map_to_list (containers t)).*2).
  set (weight := fun k => match calculate_container_weight n vals0 t k with Some (Ok w) => w | _ => 0 end).
  exists (final_weight c (Z.min (sum_weights weight (child_containers t id)) (u_max 32))).
  split. { destruct (Hk id c Hc) as [_ Hb]. pose proof (final_weight_bounds c
    (Z.min (sum_weights weight (child_containers t id)) (u_max 32)) Hb) as [[? _] _]. done. }
  intros m values Hm Hv. destruct m as [|m]; [lia|]. cbn. rewrite Hc.
  rewrite (children_weight_spec _ weight); [| |unfold in_u; lia].
  - cbn. rewrite (sum_weights_perm weight _ (child_containers t id)); [done|].
    unfold child_containers. by rewrite Hv.
  - intros ch Hin Hp. apply (elem_values t values ch Hv Hk) in Hin as Hl.
    destruct (IH (cid ch)) as (n' & -> & w & Hw0 & Hw); [by exists ch|unfold climb, parent_of; rewrite Hl; exact Hp|].
    unfold weight. rewrite (Hw (S n') vals0) by (lia || apply enumerates_self || done). rewrite Hw by (lia || apply enumerates_self || done). done.
Qed.

Lemma container_weight_correct_aux t : acyclic t -> keyed t -> forall fuel values id c,
  (size (containers t) < fuel)%nat -> enumerates values t -> containers t !! id = Some c ->
  exists w, calculate_container_weight fuel values t id = Some (Ok w) /\ in_u 32 w.
Proof.
  intros Hac Hk fuel values id c Hf Hv Hc.
  destruct (weight_exists t Hac Hk _ id ltac:(reflexivity) ltac:(by exists c)) as (w & _ & Hw).
  exists w. split; [by apply Hw|].
  pose proof (Hw fuel values ltac:(lia) Hv) as H. destruct fuel as [|fuel]; [lia|].
  rewrite calculate_container_weight_S, Hc in H.
  destruct (children_weight _ _ _ _) as [[x|]|]; cbn in H; [|done..]. injection H as <-.
  destruct (Hk id c Hc). by apply final_weight_bounds.
Qed.

(** ** The weight as a sum *)

(** The weights of the items, each at most 2^32 - 1, added up. *)
Definition items_weight (c : ContainerInstance) : Z :=
  foldr (fun i sum => Z.min (unit_weight_grams i * st_quantity i) (2 ^ 32 - 1) + sum) 0 (items c).
(** The percentages of the reducing affixes, added up. *)
Definition reduction (c : ContainerInstance) : Z :=
  foldr (fun a sum => match a with WeightReduction percent => percent | _ => 0 end + sum) 0 (affixes c).

Lemma fold_wrap {A} (w : Z) (f : A -> Z) l : 0 <= w -> forall acc,
  foldl (fun s a => wrap_u w (s + f a)) (wrap_u w acc) l = wrap_u w (acc + foldr (fun a s => f a + s) 0 l).
Proof.
  intros Hw. unfold wrap_u. pose proof (pow2_pos w Hw). induction l as [|a l IH]; intros acc; cbn; [f_equal; lia|].
  rewrite Z.add_mod_idemp_l by lia. rewrite IH. f_equal. lia.
Qed.

Lemma direct_items_weight_sum c : direct_items_weight c = items_weight c mod 2 ^ 32.
Proof. unfold direct_items_weight. change 0 with (wrap_u 32 0) at 1. by rewrite fold_wrap. Qed.

Lemma reduction_percent_sum c : total_weight_reduction_percent c = Z.min (reduction c mod 2 ^ 16) 100.
Proof.
  set (f := fun a => match a with WeightReduction percent => percent | _ => 0 end).
  assert (forall l acc, foldl (fun total a => match a with
                  | WeightReduction percent => wrap_u 16 (total + percent)
                  | _ => total end) (wrap_u 16 acc) l = foldl (fun s a => wrap_u 16 (s + f a)) (wrap_u 16 acc) l) as H.
  { induction l as [|a l IH]; intros acc; cbn; [done|].
    assert (wrap_u 16 (wrap_u 16 acc + 0) = wrap_u 16 acc) as Hw by (rewrite Z.add_0_r; apply Z.mod_mod; lia).
    destruct a; cbn; rewrite ?Hw; apply IH. }
  specialize (H (affixes c) 0). rewrite fold_wrap in H by lia.
  unfold total_weight_reduction_percent. f_equal. exact H.
Qed.

Lemma final_weight_sum c children : 0 <= children ->
  let content := Z.min (items_weight c mod 2 ^ 32 + children) (2 ^ 32 - 1) in
  let percent := Z.min (reduction c mod 2 ^ 16) 100 in
  final_weight c (Z.min children (u_max 32)) = Z.min (base_weight_grams c + (content - content * percent / 100)) (2 ^ 32 - 1).
Proof.
  intros Hc content percent. unfold final_weight. rewrite direct_items_weight_sum, reduction_percent_sum. fold percent.
  pose proof (Z.mod_pos_bound (items_weight c) (2 ^ 32) ltac:(lia)) as Hi. pose proof (Z.mod_pos_bound (reduction c) (2 ^ 16) ltac:(lia)).
  assert (saturating_add_u 32 (items_weight c mod 2 ^ 32) (Z.min children (u_max 32)) = content) as ->.
  { unfold saturating_add_u, u_max, content. lia. }
  assert (0 <= content < 2 ^ 32) as Hcon by (unfold content; lia). assert (0 <= percent <= 100) as Hp by (unfold percent; lia).
  clearbody content percent. rewrite (wrap_u_small 64) by (unfold in_u; nia).
  assert (0 <= content * percent / 100 <= content) as Hd by (Z.to_euclidean_division_equations; nia).
  rewrite wrap_u_small by (unfold in_u; lia). unfold saturating_add_u, saturating_sub_u, u_max. lia.
Qed.

(** C37: on a tree the weight of a container is computed, it does not depend on
    the order in which the hash map is traversed, and it is the container's own
    weight plus its content less the discount, but at most 2^32 - 1.  The content is
    the sum of the weights of the items in it, each at most 2^32 - 1, plus that of the
    weights of the containers in it, and at most 2^32 - 1; the sum over the items is
    taken modulo 2^32, so that it is exact as long as the items weigh less than 2^32
    grams together, and items beyond that weigh nothing.  The discount is the sum of the percentages
    of the affixes, modulo 2^16 and at most 100, of the content, rounded down.  The recursion is at most
    one level deeper than the number of containers. *)
Theorem container_weight_correct (t : CharacterContainerTree) :
  acyclic t -> keyed t ->
  exists weight : Z -> Z, forall id c, containers t !! id = Some c ->
    (forall fuel values, (size (containers t) < fuel)%nat -> enumerates values t ->
       calculate_container_weight fuel values t id = Some (Ok (weight id))) /\
    (let content := Z.min (items_weight c mod 2 ^ 32 + sum_weights weight (child_containers t id)) (2 ^ 32 - 1) in
     let percent := Z.min (reduction c mod 2 ^ 16) 100 in
     weight id = Z.min (base_weight_grams c + (content - content * percent / 100)) (2 ^ 32 - 1)) /\
    in_u 32 (weight id) /\ base_weight_grams c <= weight id.
Proof.
  intros Hac Hk. set (vals0 := (map_to_list (containers t)).*2).
  set (weight := fun k => match calculate_container_weight (S (size (containers t))) vals0 t k with
                          | Some (Ok w) => w | _ => 0 end).
  assert (forall id, is_Some (containers t !! id) -> 0 <= weight id /\ forall m values,
    (S (size (containers t)) <= m)%nat -> enumerates values t ->
    calculate_container_weight m values t id = Some (Ok (weight id))) as Hw.
  { intros id Hs. destruct (weight_exists t Hac Hk _ id ltac:(reflexivity) Hs) as (w & Hw0 & Hw).
    unfold weight. rewrite (Hw (S (size (containers t))) vals0) by (lia || apply enumerates_self). done. }
  exists weight. intros id c Hc. destruct (Hw id ltac:(by exists c)) as [H0 H1].
  split; [intros; apply H1; [lia|done]|].
  assert (weight id = final_weight c (Z.min (sum_weights weight (child_containers t id)) (u_max 32))) as Heq.
  { assert (forall x y : Z, Some (Ok (E := ContainerError) x) = Some (Ok y) -> x = y) as inj by congruence.
    apply inj. rewrite <- (H1 (S (S (size (containers t)))) vals0) by (lia || apply enumerates_self || done).
    rewrite calculate_container_weight_S, Hc. rewrite (children_weight_spec _ weight);
      [done| |unfold in_u; lia].
    intros ch Hin Hp. apply (elem_values t vals0 ch) in Hin as Hl; [|apply enumerates_self|done].
    destruct (Hw (cid ch) ltac:(by exists ch)) as [? H2]. rewrite H2 by (lia || apply enumerates_self || done). done. }
  assert (0 <= sum_weights weight (child_containers t id)) as Hsum.
  { apply sum_weights_nonneg. intros ch [Hch _]%child_climb; [|done]. by apply (Hw (cid ch)). }
  split; [by rewrite Heq, final_weight_sum|]. rewrite Heq. destruct (Hk id c Hc). by apply final_weight_bounds.
Qed.

(** Two items of 2^31 grams each weigh nothing together. *)
Example items_weight_wraps :
  direct_items_weight (with_items (new_grid 1 10 6 50) [stored_new 8 500 Ore (2 ^ 31) 1 20 1 1; stored_new 9 500 Ore (2 ^ 31) 1 20 1 1]) = 0.
Proof. vm_compute. reflexivity. Qed.

Section WeightWitness.
Let stone := stored_new 9 500 Ore 100 3 20 1 1.
Let pouch := add_affix (with_items (with_parent (new_grid 2 4 4 500) (Some 1)) [stone]) (WeightReduction 20).
Let t := add_container (set_root tree_new (new_grid 1 10 6 50)) pouch.

Lemma container_weight_correct_witness :
  calculate_container_weight 3 [pouch; new_grid 1 10 6 50] t 1 = Some (Ok 790) /\
  exists weight, weight 1 = 790 /\ weight 2 = 740.
Proof.
  split; [vm_compute; reflexivity|].
  assert (forall id c, containers t !! id = Some c -> id = 2 /\ c = pouch \/ id = 1 /\ c = new_grid 1 10 6 50) as Hl.
  { intros id c. unfold t, add_container, set_root. cbn.
    intros [[<- <-]|[_ [[<- <-]|[_ ?]]%lookup_insert_Some]]%lookup_insert_Some; [by left|by right|done]. }
  assert (acyclic t) as Hac.
  { assert (forall c p, climb t c p -> c = 2 /\ p = 1) as H.
    { intros c p Hc. unfold climb, parent_of in Hc. destruct (containers t !! c) eqn:E; [|done].
      apply Hl in E as [[-> ->]|[-> ->]]; [|done]. injection Hc as <-. done. }
    intros c Hc. inversion Hc as [? ? H1|? y ? H1 H2]; subst; apply H in H1; [lia|].
    destruct H1 as [-> ->]. inversion H2 as [? ? H3|? z ? H3 H4]; subst; apply H in H3; lia. }
  assert (keyed t) as Hk by (intros id c [[-> ->]|[-> ->]]%Hl; done).
  destruct (container_weight_correct t Hac Hk) as (weight & Hw). exists weight.
  destruct (Hw 1 (new_grid 1 10 6 50) eq_refl) as (H1 & _).
  destruct (Hw 2 pouch eq_refl) as (H2 & _).
  specialize (H1 3%nat _ ltac:(vm_compute; lia) (enumerates_self t)).
  specialize (H2 3%nat _ ltac:(vm_compute; lia) (enumerates_self t)).
  vm_compute in H1, H2. split; congruence.
Defined.
End WeightWitness.

(** ** Geometry *)

Definition covers (i : StoredItem) (px py : Z) : Prop :=
  st_x i <= px < st_x i + effective_width i /\ st_y i <= py < st_y i + effective_height i.

(** An item inside a grid, and a size for which no sum of the search wraps. *)
Definition inside (columns rows : Z) (i : StoredItem) : Prop :=
  0 <= st_x i /\ 0 <= st_y i /\
  st_x i + effective_width i <= columns /\ st_y i + effective_height i <= rows.
Definition size_ok (columns rows w h : Z) : Prop :=
  0 < w /\ 0 < h /\ Z.max columns rows + Z.max w h <= 256.
Definition item_size_ok (columns rows : Z) (i : StoredItem) : Prop :=
  size_ok columns rows (width i) (height i).
Definition disjoint_items (a b : StoredItem) : Prop := forall px py, ~ (covers a px py /\ covers b px py).

Lemma effective_pos columns rows i : item_size_ok columns rows i ->
  0 < effective_width i <= Z.max (width i) (height i) /\ 0 < effective_height i <= Z.max (width i) (height i).
Proof. unfold item_size_ok, size_ok, effective_width, effective_height. destruct (rotated i); lia. Qed.

Lemma collides_spec columns rows a b : in_u 8 columns -> in_u 8 rows ->
  item_size_ok columns rows a -> item_size_ok columns rows b ->
  inside columns rows a -> inside columns rows b ->
  collides_with a b = false <-> disjoint_items a b.
Proof.
  intros Hc Hr Ha Hb (Ax & Ay & Aw & Ah) (Bx & By & Bw & Bh).
  apply effective_pos in Ha as [Ha1 Ha2]. apply effective_pos in Hb as [Hb1 Hb2].
  unfold collides_with, in_u in *. rewrite !wrap_u_small by (unfold in_u; lia).
  rewrite bool_decide_eq_false. unfold disjoint_items, covers. split.
  - intros H px py [[? ?] [? ?]]. apply H. lia.
  - intros H Hcol. apply (H (Z.max (st_x a) (st_x b)) (Z.max (st_y a) (st_y b))). lia.
Qed.

Lemma find_map_Some {A B} (f : A -> option B) l b :
  find_map f l = Some b -> exists a, a ∈ l /\ f a = Some b.
Proof.
  induction l as [|a l IH]; cbn; [done|]. destruct (f a) eqn:E; intros H.
  - injection H as ->. exists a. split; [by left|done].
  - destruct (IH H) as (a' & ? & ?). exists a'. split; [by right|done].
Qed.

Lemma find_map_None {A B} (f : A -> option B) l : find_map f l = None -> forall a, a ∈ l -> f a = None.
Proof.
  induction l as [|a l IH]; cbn; intros H x Hx; [by apply not_elem_of_nil in Hx|].
  destruct (f a) eqn:E; [done|]. apply list.elem_of_cons in Hx as [->|Hx]; [done|by apply IH].
Qed.

Lemma position_free_spec columns rows l w h x y r : in_u 8 columns -> in_u 8 rows ->
  size_ok columns rows w h -> 0 <= x < columns -> 0 <= y < rows ->
  Forall (item_size_ok columns rows) l -> Forall (inside columns rows) l ->
  position_free columns rows l (candidate w h x y r) = true <->
  inside columns rows (candidate w h x y r) /\ Forall (disjoint_items (candidate w h x y r)) l.
Proof.
  intros Hc Hr Hs Hx Hy Hl1 Hl2. unfold position_free.
  assert (item_size_ok columns rows (candidate w h x y r)) as Hsz by done.
  pose proof (effective_pos _ _ _ Hsz) as [Hw Hh]. unfold item_size_ok, size_ok, in_u in *. cbn in *.
  rewrite andb_true_iff, bool_decide_eq_true, !wrap_u_small by (unfold in_u; lia).
  rewrite negb_true_iff.
  assert (forall c, inside columns rows c -> item_size_ok columns rows c ->
    existsb (collides_with c) l = false <-> Forall (disjoint_items c) l) as He.
  { intros c Hin Hsc. induction l as [|b l IH]; cbn; [split; [constructor|done]|].
    apply Forall_cons_1 in Hl1 as [Hb1 Hl1], Hl2 as [Hb2 Hl2].
    rewrite orb_false_iff, list.Forall_cons, IH by done.
    by rewrite (collides_spec columns rows) by done. }
  split.
  - intros [Hb Hex]. assert (inside columns rows (candidate w h x y r)) as Hin by (unfold inside; cbn; lia).
    split; [done|]. by apply He.
  - intros [Hin Hd]. split; [unfold inside in Hin; cbn in Hin; lia|]. by apply He.
Qed.

Lemma collides_point columns rows a b : in_u 8 columns -> in_u 8 rows ->
  item_size_ok columns rows a -> item_size_ok columns rows b ->
  inside columns rows a -> inside columns rows b ->
  collides_with a b = true -> exists px py, covers a px py /\ covers b px py.
Proof.
  intros Hc Hr Ha Hb (Ax & Ay & Aw & Ah) (Bx & By & Bw & Bh).
  apply effective_pos in Ha as [Ha1 Ha2]. apply effective_pos in Hb as [Hb1 Hb2].
  unfold collides_with, in_u in *. rewrite !wrap_u_small by (unfold in_u; lia).
  rewrite bool_decide_eq_true. intros H.
  exists (Z.max (st_x a) (st_x b)), (Z.max (st_y a) (st_y b)). unfold covers. lia.
Qed.

Lemma position_taken columns rows l w h x y r : in_u 8 columns -> in_u 8 rows ->
  size_ok columns rows w h -> Forall (item_size_ok columns rows) l -> Forall (inside columns rows) l ->
  inside columns rows (candidate w h x y r) ->
  position_free columns rows l (candidate w h x y r) = false ->
  exists i, i ∈ l /\ exists px py, covers (candidate w h x y r) px py /\ covers i px py.
Proof.
  intros Hc Hr Hs Hl1 Hl2 Hin. unfold position_free.
  assert (item_size_ok columns rows (candidate w h x y r)) as Hsz by done.
  pose proof (effective_pos _ _ _ Hsz) as [Hw Hh]. pose proof Hin as (Ix & Iy & Iw & Ih).
  unfold item_size_ok, size_ok, in_u in *. cbn [st_x st_y candidate] in *.
  rewrite bool_decide_eq_true_2 by (rewrite !wrap_u_small by (unfold in_u; lia); lia).
  intros Hcol%negb_false_iff%existsb_exists. destruct Hcol as (i & Hi & Hcol).
  apply list_elem_of_In in Hi. exists i. split; [done|].
  rewrite list.Forall_forall in Hl1, Hl2. by apply (collides_point columns rows); auto; apply Hl1.
Qed.

(** The search for a free slot is sound and complete: a slot it returns
    lies inside the grid, overlaps none of the stored items, and is rotated
    only if that was allowed; and when it returns nothing, every position of the
    grid, in every allowed orientation, leaves the grid or overlaps an item.
    The sizes are such that no coordinate passes 255. *)
Theorem find_free_slot_correct (columns rows w h : Z) (l : list StoredItem) (allow_rotation : bool) :
  in_u 8 columns -> in_u 8 rows -> size_ok columns rows w h ->
  Forall (item_size_ok columns rows) l -> Forall (inside columns rows) l ->
  match find_free_slot columns rows l w h allow_rotation with
  | Some (x, y, r) =>
      inside columns rows (candidate w h x y r) /\
      (forall i, i ∈ l -> disjoint_items (candidate w h x y r) i) /\
      (r = true -> allow_rotation = true /\ w <> h)
  | None => forall x y r, (r = true -> allow_rotation = true) ->
      inside columns rows (candidate w h x y r) ->
      exists i, i ∈ l /\ exists px py, covers (candidate w h x y r) px py /\ covers i px py
  end.
Proof.
  intros Hc Hr Hs Hl1 Hl2. destruct (find_free_slot columns rows l w h allow_rotation) as [[[x y] r]|] eqn:E;
    unfold find_free_slot in E.
  - apply find_map_Some in E as (y' & Hy & E). apply find_map_Some in E as (x' & Hx & E).
    apply elem_of_seqZ in Hx, Hy. unfold try_position in E.
    destruct (position_free _ _ _ (candidate w h x' y' false)) eqn:E1.
    + injection E as <- <- <-. apply position_free_spec in E1 as [H1 H2]; [|done..|lia|lia|done|done].
      split; [done|]. split; [|done]. intros i Hi. rewrite list.Forall_forall in H2. by apply H2.
    + destruct allow_rotation; cbn in E; [|done].
      destruct (bool_decide (w <> h)) eqn:Ewh; cbn in E; [|done]. apply bool_decide_eq_true in Ewh.
      destruct (position_free _ _ _ (candidate w h x' y' true)) eqn:E2; [|done].
      injection E as <- <- <-. apply position_free_spec in E2 as [H1 H2]; [|done..|lia|lia|done|done].
      split; [done|]. split; [|done]. intros i Hi. rewrite list.Forall_forall in H2. by apply H2.
  - intros x y r Hrot Hin.
    assert (item_size_ok columns rows (candidate w h x y r)) as Hsz by done.
    pose proof (effective_pos _ _ _ Hsz) as [Hw Hh]. pose proof Hin as (Ix & Iy & Iw & Ih).
    cbn [st_x st_y candidate] in *.
    pose proof (find_map_None _ _ E y ltac:(apply elem_of_seqZ; lia)) as E1.
    pose proof (find_map_None _ _ E1 x ltac:(apply elem_of_seqZ; lia)) as E2.
    unfold try_position in E2.
    destruct (position_free _ _ _ (candidate w h x y false)) eqn:F1; [done|].
    destruct r; [|by apply (position_taken columns rows)].
    rewrite Hrot in E2 by done. cbn in E2. destruct (decide (w = h)) as [->|Hne].
    + destruct (position_taken columns rows l h h x y false) as (i & Hi & px & py & H1 & H2); try done.
      exists i. split; [done|]. by exists px, py.
    + rewrite bool_decide_eq_true_2 in E2 by done. cbn in E2.
      destruct (position_free _ _ _ (candidate w h x y true)) eqn:F2; [done|].
      by apply (position_taken columns rows).
Qed.

Lemma find_free_slot_correct_witness :
  let a := with_position (stored_new 1 500 Ore 100 3 20 2 2) 0 0 false in
  let b := with_position (stored_new 2 501 Herb 100 3 20 1 2) 2 0 true in
  find_free_slot 4 3 [a; b] 1 3 true = Some (0, 2, true) /\
  find_free_slot 4 3 [a; b] 3 2 true = None /\
  exists i, i ∈ [a; b] /\ exists px py, covers (candidate 3 2 2 0 true) px py /\ covers i px py.
Proof.
  intros a b. split; [vm_compute; reflexivity|]. split; [vm_compute; reflexivity|].
  assert (Forall (item_size_ok 4 3) [a; b]) as H1
    by (rewrite !list.Forall_cons, list.Forall_nil; unfold item_size_ok, size_ok; cbn; lia).
  assert (Forall (inside 4 3) [a; b]) as H2
    by (rewrite !list.Forall_cons, list.Forall_nil; unfold inside, effective_width, effective_height; cbn; lia).
  pose proof (find_free_slot_correct 4 3 3 2 [a; b] true ltac:(done) ltac:(done) ltac:(done) H1 H2) as H.
  assert (find_free_slot 4 3 [a; b] 3 2 true = None) as E by (vm_compute; reflexivity).
  rewrite E in H. apply (H 2 0 true); [intros _; reflexivity|]. unfold inside. vm_compute. repeat split; discriminate.
Defined.
