(* ===== verification/Stacks.v ===== *)
(** * Stacks in containers: conservation

    What the stack operations of [crates/domain/src/containers.rs], defined in
    [Containers], do to the quantities and the positions of the stored items:
    quick insertion, splitting, sorting, and depositing. *)

From S2P Require Import Prelude Containers.

(** ** Quantities and well-formed grids *)

(** The number of items of one kind in a list of stacks. *)
Definition total (d : Z) (l : list StoredItem) : Z :=
  foldr (fun i s => (if decide (st_definition_id i = d) then st_quantity i else 0) + s) 0 l.

Lemma total_cons d i l :
  total d (i :: l) = (if decide (st_definition_id i = d) then st_quantity i else 0) + total d l.
Proof. done. Qed.

Lemma total_app d l l' : total d (l ++ l') = total d l + total d l'.
Proof. unfold total. induction l as [|i l IH]; cbn [foldr app]; [done|lia]. Qed.

Lemma total_perm d l l' : l ≡ₚ l' -> total d l = total d l'.
Proof. unfold total. induction 1; cbn [foldr]; lia. Qed.

Lemma total_insert d l k i i' : l !! k = Some i -> st_definition_id i' = st_definition_id i ->
  total d (<[k := i']> l) =
  total d l + (if decide (st_definition_id i = d) then st_quantity i' - st_quantity i else 0).
Proof.
  revert k. unfold total. induction l as [|j l IH]; intros k Hk Hd; [done|].
  destruct k as [|k]; cbn in Hk.
  - injection Hk as ->. cbn. rewrite Hd. case_decide; lia.
  - change (<[S k := i']> (j :: l)) with (j :: <[k := i']> l). cbn [foldr].
    rewrite (IH k) by done. repeat case_decide; lia.
Qed.

(** The stack's geometry, which the merge loop does not touch. *)
Definition same_place (i j : StoredItem) : Prop :=
  st_id i = st_id j /\ st_definition_id i = st_definition_id j /\ width i = width j /\ height i = height j /\
  st_x i = st_x j /\ st_y i = st_y j /\ rotated i = rotated j /\ max_stack i = max_stack j.

Lemma same_place_refl i : same_place i i.
Proof. unfold same_place. split_goals; done. Qed.

Lemma same_place_covers i j px py : same_place i j -> covers i px py <-> covers j px py.
Proof.
  intros (_ & _ & Hw & Hh & Hx & Hy & Hr & _). unfold covers, effective_width, effective_height.
  by rewrite Hw, Hh, Hx, Hy, Hr.
Qed.

Lemma same_place_inside c r i j : same_place i j -> inside c r i <-> inside c r j.
Proof.
  intros (_ & _ & Hw & Hh & Hx & Hy & Hr & _). unfold inside, effective_width, effective_height.
  by rewrite Hw, Hh, Hx, Hy, Hr.
Qed.

Definition quantity_ok (i : StoredItem) : Prop :=
  0 <= st_quantity i < 2 ^ 32 /\ 0 <= max_stack i < 2 ^ 32.

(** Every item is inside the grid, no two share a cell, and the quantities are
    unsigned 32-bit numbers. *)
Record stock_wf (columns rows : Z) (l : list StoredItem) : Prop := {
  sw_columns : in_u 8 columns;
  sw_rows : in_u 8 rows;
  sw_sizes : Forall (item_size_ok columns rows) l;
  sw_inside : Forall (inside columns rows) l;
  sw_disjoint : ForallOrdPairs disjoint_items l;
  sw_quantities : Forall quantity_ok l
}.

Lemma disjoint_sym a b : disjoint_items a b -> disjoint_items b a.
Proof. intros H px py [? ?]. by apply (H px py). Qed.

Lemma ForallOrdPairs_snoc {A} (R : A -> A -> Prop) l a :
  ForallOrdPairs R l -> Forall (fun x => R x a) l -> ForallOrdPairs R (l ++ [a]).
Proof.
  induction 1 as [|x l Hx Hl IH]; intros Ha; cbn.
  - constructor; constructor.
  - apply Forall_cons_1 in Ha as [Hxa Ha]. constructor; [|by apply IH].
    apply Forall_app. split; [done|by constructor].
Qed.

(** Adding an item at a free slot keeps the grid well-formed. *)
Lemma stock_wf_snoc columns rows l i x y r allow :
  stock_wf columns rows l -> item_size_ok columns rows i -> quantity_ok i ->
  find_free_slot columns rows l (width i) (height i) allow = Some (x, y, r) ->
  stock_wf columns rows (l ++ [with_position i x y r]).
Proof.
  intros [Hc Hr Hs Hin Hd Hq] Hsi Hqi Hf.
  pose proof (find_free_slot_correct columns rows (width i) (height i) l allow Hc Hr Hsi Hs Hin) as H.
  rewrite Hf in H. destruct H as (H1 & H2 & _). split; try done.
  - apply Forall_app. split; [done|]. by constructor.
  - apply Forall_app. split; [done|]. by constructor.
  - apply ForallOrdPairs_snoc; [done|]. apply list.Forall_forall. intros j Hj.
    apply disjoint_sym. exact (H2 j Hj).
  - apply Forall_app. split; [done|]. by constructor.
Qed.

(** ** The merge loop *)

Lemma with_quantity_same i q : same_place (with_quantity i q) i.
Proof. unfold same_place. split_goals; done. Qed.

Lemma merge_into_spec l item l' item' r :
  Forall quantity_ok l -> quantity_ok item -> merge_into l item = (l', item', r) ->
  exists moved, 0 <= moved <= st_quantity item /\
    item' = with_quantity item (st_quantity item - moved) /\
    (forall d, total d l' = total d l + if decide (st_definition_id item = d) then moved else 0) /\
    Forall2 same_place l' l /\ Forall quantity_ok l' /\
    (is_Some r -> moved = st_quantity item) /\ (forall i, r = Some i -> i ∈ l').
Proof.
  revert item l' r. induction l as [|e l IH]; intros item l' r Hl Hi H; cbn [merge_into] in H.
  { injection H as <- <- <-. exists 0. unfold quantity_ok in Hi.
    split_goals; try lia; try done; [by destruct item; unfold with_quantity; cbn; rewrite Z.sub_0_r|
      intros d; case_decide; lia]. }
  apply Forall_cons_1 in Hl as [He Hl].
  destruct (decide (st_definition_id e = st_definition_id item /\ st_quantity e < max_stack e)) as [[Hd Hlt]|_].
  2: { destruct (merge_into l item) as [[l1 item1] r1] eqn:E. injection H as <- <- <-.
       destruct (IH item l1 r1 Hl Hi E) as (mv & Hmv & -> & Ht & Hp & Hq & Hr1 & Hr2). exists mv.
       split_goals; [lia|lia|done| | | |done| ].
       - intros d. rewrite !total_cons, Ht. lia.
       - constructor; [apply same_place_refl|done].
       - by constructor.
       - intros i Hri. right. by apply Hr2. }
  set (amount := Z.min (st_quantity item) (wrap_u 32 (max_stack e - st_quantity e))) in H.
  unfold quantity_ok in He, Hi.
  assert (amount = Z.min (st_quantity item) (max_stack e - st_quantity e)) as Ha
    by (unfold amount; rewrite wrap_u_small; [done|unfold in_u; lia]).
  clearbody amount. rewrite !wrap_u_small in H by (unfold in_u; lia).
  assert (quantity_ok (with_quantity e (st_quantity e + amount))) as He' by (unfold quantity_ok; cbn; lia).
  destruct (decide (st_quantity (with_quantity item (st_quantity item - amount)) = 0)) as [Hz|Hz]; cbn in Hz.
  - injection H as <- <- <-. exists amount. split_goals; try lia; try done.
    + intros d. rewrite !total_cons. cbn [st_definition_id with_quantity st_quantity]. rewrite Hd. case_decide; lia.
    + constructor; [apply with_quantity_same|]. clear. induction l; constructor; [apply same_place_refl|done].
    + by constructor.
    + intros i [= <-]. by left.
  - destruct (merge_into l _) as [[l1 item1] r1] eqn:E. injection H as <- <- <-.
    destruct (IH (with_quantity item (st_quantity item - amount)) l1 r1 Hl ltac:(unfold quantity_ok; cbn; lia) E)
      as (mv & Hmv & -> & Ht & Hp & Hq & Hr1 & Hr2). cbn in Hmv, Ht, Hr1.
    exists (amount + mv). split_goals; try lia.
    + unfold with_quantity. cbn. f_equal. lia.
    + intros d. specialize (Ht d). rewrite !total_cons. cbn [st_definition_id with_quantity st_quantity].
      rewrite Hd, Ht. case_decide; lia.
    + constructor; [apply with_quantity_same|done].
    + by constructor.
    + intros Hs. specialize (Hr1 Hs). lia.
    + intros i Hri. right. by apply Hr2.
Qed.

Lemma same_place_list columns rows l l' : Forall2 same_place l' l -> stock_wf columns rows l ->
  Forall quantity_ok l' -> stock_wf columns rows l'.
Proof.
  intros Hp [Hc Hr Hs Hin Hd Hq] Hq'. split; try done.
  - clear -Hp Hs. induction Hp as [|i j l' l Hij _ IH]; [constructor|].
    apply Forall_cons_1 in Hs as [Hj Hs]. constructor; [|by apply IH].
    destruct Hij as (_ & _ & Hw & Hh & _). unfold item_size_ok in *. by rewrite Hw, Hh.
  - clear -Hp Hin. induction Hp as [|i j l' l Hij _ IH]; [constructor|].
    apply Forall_cons_1 in Hin as [Hj Hin]. constructor; [|by apply IH].
    by apply (same_place_inside _ _ i j).
  - clear -Hp Hd. induction Hp as [|i j l' l Hij Hp IH]; [constructor|].
    inversion Hd as [|? ? Hj Hd']; subst. constructor; [|by apply IH]. clear -Hp Hij Hj.
    induction Hp as [|a b l' l Hab _ IH]; [constructor|].
    apply Forall_cons_1 in Hj as [Hjb Hj]. constructor; [|by apply IH].
    intros px py [H1 H2]. apply (Hjb px py). split; [by apply (same_place_covers i j)|].
    by apply (same_place_covers a b).
Qed.

(** ** Quick insertion *)

Lemma with_items_id c : with_items c (items c) = c.
Proof. by destruct c. Qed.

Lemma put_same t id c : containers t !! id = Some c ->
  containers t = <[id := with_items c (items c)]> (containers t).
Proof. intros H. rewrite with_items_id. by rewrite insert_id. Qed.

(** The first phase of the insertion: nothing for unstackable items, the merge
    loop for the others. *)
Lemma merge_phase columns rows l0 item : stock_wf columns rows l0 -> quantity_ok item ->
  exists l item1 merged moved,
    (if decide (max_stack item > 1) then merge_into l0 item else (l0, item, None)) = (l, item1, merged) /\
    0 <= moved <= st_quantity item /\ item1 = with_quantity item (st_quantity item - moved) /\
    (forall d, total d l = total d l0 + if decide (st_definition_id item = d) then moved else 0) /\
    stock_wf columns rows l /\ (is_Some merged -> moved = st_quantity item) /\
    (forall i, merged = Some i -> i ∈ l).
Proof.
  intros Hwf Hq. case_decide.
  - destruct (merge_into l0 item) as [[l item1] merged] eqn:E.
    destruct (merge_into_spec _ _ _ _ _ (sw_quantities _ _ _ Hwf) Hq E) as (mv & H1 & H2 & H3 & H4 & H5 & H6 & H7).
    exists l, item1, merged, mv. split; [done|]. split; [done|]. split; [done|]. split; [done|].
    split; [by eapply same_place_list|done].
  - exists l0, item, None, 0. destruct Hq as [Hq _]. split; [done|]. split; [lia|].
    split; [destruct item; unfold with_quantity; cbn; by rewrite Z.sub_0_r|].
    split; [intros d; destruct (decide (st_definition_id item = d)); lia|].
    split; [done|]. split; [by intros []|done].
Qed.

(** Quick insertion into a grid keeps the grid well-formed, items inside
    and disjoint, whatever happens.  When it succeeds the container holds
    exactly the inserted quantity more of that kind of item, its filter admits
    the item, and a hazardous item went into a fireproof container.  When it
    fails, nothing of the item is in the container, except that after
    [NoSpace] the part that fitted on existing stacks stays there. *)
Theorem quick_insert_correct (t t' : CharacterContainerTree) (id columns rows : Z)
    (c : ContainerInstance) (item : StoredItem) (allow : bool) (r : result ContainerError StoredItem) :
  containers t !! id = Some c -> content c = ContentGrid columns rows ->
  stock_wf columns rows (items c) -> item_size_ok columns rows item -> quantity_ok item ->
  quick_insert t id item allow = (t', r) ->
  exists l moved, containers t' = <[id := with_items c l]> (containers t) /\ root_id t' = root_id t /\
    stock_wf columns rows l /\
    (forall d, total d l = total d (items c) + if decide (st_definition_id item = d) then moved else 0) /\
    match r with
    | Ok stored => stored ∈ l /\ moved = st_quantity item /\
        filter_allows (allowed_tags c) (category item) = true /\
        (category item = Hazardous -> is_fireproof c = true)
    | Err e => 0 <= moved <= st_quantity item /\ (e <> NoSpace -> t' = t /\ l = items c /\ moved = 0)
    end.
Proof.
  intros Hc Hg Hwf Hsz Hq H. unfold quick_insert in H. rewrite Hc in H.
  assert (0 <= st_quantity item) as Hq0 by apply Hq.
  assert (forall e, (t, Err e) = (t', r) -> exists l moved,
    containers t' = <[id := with_items c l]> (containers t) /\ root_id t' = root_id t /\
    stock_wf columns rows l /\
    (forall d, total d l = total d (items c) + if decide (st_definition_id item = d) then moved else 0) /\
    match r with Ok stored => stored ∈ l /\ moved = st_quantity item /\
        filter_allows (allowed_tags c) (category item) = true /\
        (category item = Hazardous -> is_fireproof c = true)
    | Err e => 0 <= moved <= st_quantity item /\ (e <> NoSpace -> t' = t /\ l = items c /\ moved = 0) end)
    as Hrefused.
  { intros e [= <- <-]. exists (items c), 0. split_goals; [by apply put_same|done|done| |lia|lia|done].
    intros d. destruct (decide (st_definition_id item = d)); lia. }
  destruct (filter_allows _ _) eqn:Hal; cbn in H; [|by eapply Hrefused].
  destruct (bool_decide (category item = Hazardous) && negb (is_fireproof c)) eqn:Hhz; [by eapply Hrefused|].
  assert (category item = Hazardous -> is_fireproof c = true) as Hfire.
  { intros E. apply andb_false_iff in Hhz as [Hf|Hf]; [by apply bool_decide_eq_false in Hf|].
    by apply negb_false_iff in Hf. }
  clear Hrefused Hhz.
  destruct (merge_phase columns rows (items c) item Hwf Hq)
    as (l & item1 & merged & moved & E & Hmv & -> & Ht & Hwfl & Hm1 & Hm2).
  rewrite E in H. destruct merged as [existing|].
  - injection H as <- <-. exists l, moved. specialize (Hm1 ltac:(by eexists)).
    split_goals; try done. by apply Hm2.
  - rewrite Hg in H. cbn [width height with_quantity] in H.
    set (item1 := with_quantity item (st_quantity item - moved)) in *.
    destruct (find_free_slot columns rows l (width item) (height item) allow) as [[[x y] rot]|] eqn:Ef.
    + injection H as <- <-. exists (l ++ [with_position item1 x y rot]), (st_quantity item).
      split_goals; try done.
      * apply (stock_wf_snoc _ _ l item1 x y rot allow); [done|done| |done].
        destruct Hq. unfold quantity_ok, item1. cbn. lia.
      * intros d. rewrite total_app, Ht, total_cons. cbn. destruct (decide (st_definition_id item = d)); lia.
      * apply elem_of_app. right. by left.
    + injection H as <- <-. exists l, moved. split_goals; try done; lia.
Qed.

Section QuickInsertWitness.
Let herb n q := stored_new n 501 Herb 10 q 20 1 1.
Let pouch := with_items (new_specialized 2 2 1 500 Herb) [with_quantity (herb 1 0) 15].
Let t := add_container tree_new pouch.

Lemma quick_insert_correct_witness :
  exists l moved, snd (quick_insert t 2 (herb 7 12) true) = Ok (with_position (herb 7 7) 1 0 false) /\
    stock_wf 2 1 l /\ total 501 l = 27 /\ moved = 12 /\
    snd (quick_insert t 2 (stored_new 8 500 Ore 10 1 20 1 1) true) = Err ItemNotAllowedHere.
Proof.
  assert (stock_wf 2 1 (items pouch)) as Hwf.
  { split; [done|done| | | |]; cbn.
    - apply list.Forall_singleton. unfold item_size_ok, size_ok. cbn. lia.
    - apply list.Forall_singleton. unfold inside. cbn. lia.
    - constructor; constructor.
    - apply list.Forall_singleton. unfold quantity_ok. cbn. lia. }
  assert (snd (quick_insert t 2 (herb 7 12) true) = Ok (with_position (herb 7 7) 1 0 false)) as Er
    by (vm_compute; reflexivity).
  destruct (quick_insert_correct t (fst (quick_insert t 2 (herb 7 12) true)) 2 2 1 pouch (herb 7 12) true
    (Ok (with_position (herb 7 7) 1 0 false))) as (l & moved & _ & _ & Hl & Ht & _ & Hm & _).
  - reflexivity.
  - reflexivity.
  - exact Hwf.
  - unfold item_size_ok, size_ok. cbn. lia.
  - unfold quantity_ok. cbn. lia.
  - rewrite <- Er. apply surjective_pairing.
  - exists l, moved. split; [exact Er|]. split; [exact Hl|]. split; [|split; [exact Hm|vm_compute; reflexivity]].
    rewrite Ht, Hm. reflexivity.
Defined.
End QuickInsertWitness.

(** ** Splitting *)

Lemma position_lookup {A} (p : A -> bool) l i :
  position p l = Some i -> exists a, l !! i = Some a /\ p a = true.
Proof.
  revert i. induction l as [|a l IH]; intros i H; cbn in H; [done|].
  destruct (p a) eqn:E; [injection H as <-; by exists a|].
  destruct (position p l) as [j|]; [|done]. injection H as <-. by apply IH.
Qed.

Lemma Forall2_same_insert l i (x y : StoredItem) : l !! i = Some x -> same_place y x ->
  Forall2 same_place (<[i := y]> l) l.
Proof.
  revert i. induction l as [|a l IH]; intros [|i] H Hs; cbn in H; try done.
  - injection H as ->. constructor; [done|]. clear. induction l; constructor; [apply same_place_refl|done].
  - change (<[S i := y]> (a :: l)) with (a :: <[i := y]> l). constructor; [apply same_place_refl|by apply IH].
Qed.

(** Splitting a stack in a grid creates a stack of exactly the requested
    size at a free place, leaves the rest, never nothing, in the source, and
    keeps the number of items of every kind and the grid's invariant; a refused
    split, also one refused after the source was already reduced, changes
    nothing at all. *)
Theorem split_stack_correct (t t' : CharacterContainerTree) (id columns rows source amount new_id : Z)
    (c : ContainerInstance) (r : result ContainerError StoredItem) :
  containers t !! id = Some c -> content c = ContentGrid columns rows ->
  stock_wf columns rows (items c) -> 0 <= amount < 2 ^ 32 ->
  split_stack t id source amount new_id = (t', r) ->
  match r with
  | Ok new => exists k original l, items c !! k = Some original /\ st_id original = source /\
      l = <[k := with_quantity original (st_quantity original - amount)]> (items c) ++ [new] /\
      containers t' = <[id := with_items c l]> (containers t) /\
      0 < st_quantity original - amount /\ st_quantity new = amount /\ 0 < amount /\ st_id new = new_id /\
      st_definition_id new = st_definition_id original /\
      stock_wf columns rows l /\ (forall d, total d l = total d (items c))
  | Err _ => t' = t
  end.
Proof.
  intros Hc Hg Hwf Ham H. unfold split_stack in H. rewrite Hc, Hg in H.
  destruct (position _ _) as [k|] eqn:Ep; [|by simplify_eq].
  apply position_lookup in Ep as (o & Hk & Hid). rewrite Hk in H. apply bool_decide_eq_true in Hid.
  destruct (decide (amount = 0)); [by simplify_eq|].
  destruct (decide (amount >= st_quantity o)); [by simplify_eq|].
  pose proof (list.Forall_lookup_1 _ _ _ _ (sw_quantities _ _ _ Hwf) Hk) as [Ho Hmax].
  pose proof (list.Forall_lookup_1 _ _ _ _ (sw_sizes _ _ _ Hwf) Hk) as Hsz.
  rewrite wrap_u_small in H by (unfold in_u; lia).
  set (o' := with_quantity o (st_quantity o - amount)) in *.
  set (l := <[k := o']> (items c)) in *. cbn [width height stored_new] in H.
  assert (Forall quantity_ok l) as Hql.
  { apply list.Forall_insert; [apply Hwf|]. unfold quantity_ok, o'. cbn. lia. }
  assert (stock_wf columns rows l) as Hwfl.
  { eapply same_place_list; [|done|done]. by apply (Forall2_same_insert _ _ o). }
  destruct (find_free_slot columns rows l (width o) (height o) true) as [[[x y] rot]|] eqn:Ef.
  - injection H as <- <-. exists k, o. eexists. split_goals; try done.
    + lia.
    + lia.
    + apply (stock_wf_snoc _ _ l (stored_new new_id (st_definition_id o) (category o) (unit_weight_grams o)
        amount (max_stack o) (width o) (height o)) x y rot true); [done|exact Hsz|unfold quantity_ok; cbn; lia|done].
    + intros d. rewrite total_app, total_cons. unfold l.
      rewrite (total_insert d (items c) k o) by done. cbn.
      destruct (decide (st_definition_id o = d)); lia.
  - injection H as <- <-. unfold put. destruct t as [root cs]. cbn in *. f_equal.
    rewrite insert_id; [done|]. rewrite Hc. f_equal. symmetry. rewrite <- (with_items_id c) at 2. f_equal.
    apply list_eq. intros j. destruct (decide (j = k)) as [->|Hne].
    + rewrite list_lookup_alter_eq. unfold l. rewrite list_lookup_insert_eq by (by eapply lookup_lt_Some).
      cbn. rewrite Hk. f_equal. unfold o', with_quantity. cbn. rewrite wrap_u_small by (unfold in_u; lia).
      destruct o. cbn. f_equal. lia.
    + rewrite list_lookup_alter_ne by done. unfold l. by rewrite list_lookup_insert_ne.
Qed.

Section SplitWitness.
Let stack := stored_new 1 500 Ore 100 20 20 1 2.
Let c := with_items (new_grid 2 2 2 0) [stack].
Let t := add_container tree_new c.

Lemma split_stack_correct_witness :
  exists t' new l, split_stack t 2 1 8 5 = (t', Ok new) /\ containers t' = <[2 := with_items c l]> (containers t) /\
    stock_wf 2 2 l /\ total 500 l = 20 /\ st_quantity new = 8 /\ st_x new = 1.
Proof.
  assert (stock_wf 2 2 (items c)) as Hwf.
  { split; [done|done| | | |]; cbn.
    - apply list.Forall_singleton. unfold item_size_ok, size_ok. cbn. lia.
    - apply list.Forall_singleton. unfold inside. cbn. lia.
    - constructor; constructor.
    - apply list.Forall_singleton. unfold quantity_ok. cbn. lia. }
  destruct (split_stack t 2 1 8 5) as [t' r] eqn:E.
  pose proof (split_stack_correct t t' 2 2 2 1 8 5 c r eq_refl eq_refl Hwf ltac:(lia) E) as H.
  assert (r = Ok (with_position (stored_new 5 500 Ore 100 8 20 1 2) 1 0 false)) as Hr
    by (vm_compute in E; injection E as _ <-; reflexivity).
  subst r. destruct H as (k & o & l & _ & _ & _ & H1 & _ & H2 & _ & _ & _ & H3 & H4).
  exists t', (with_position (stored_new 5 500 Ore 100 8 20 1 2) 1 0 false), l. split; [reflexivity|]. split; [exact H1|]. split; [exact H3|].
  split; [rewrite H4; reflexivity|split; [exact H2|reflexivity]].
Defined.
End SplitWitness.

(** ** Sorting *)

(** A stored item without its position. *)
Definition unplaced (i : StoredItem) : StoredItem := with_position i 0 0 false.

Lemma sort_cmp_total a b : sort_cmp a b = Gt -> sort_cmp b a = Lt.
Proof.
  unfold sort_cmp. rewrite (Z.compare_antisym (area b)), (Z.compare_antisym (category_bits (category b))),
    (Z.compare_antisym (st_definition_id b)).
  destruct (area b ?= area a), (category_bits _ ?= _), (st_definition_id b ?= _); done.
Qed.

(** The order of the sort, as a triple compared from the greatest down. *)
Definition sort_le (a b : StoredItem) : Prop :=
  area b < area a \/ area b = area a /\
    (category_bits (category b) < category_bits (category a) \/
     category_bits (category b) = category_bits (category a) /\ st_definition_id b <= st_definition_id a).

Lemma sort_cmp_le a b : sort_cmp a b <> Gt <-> sort_le a b.
Proof.
  unfold sort_cmp, sort_le.
  destruct (Z.compare_spec (area b) (area a)),
    (Z.compare_spec (category_bits (category b)) (category_bits (category a))),
    (Z.compare_spec (st_definition_id b) (st_definition_id a)); split; intros; try done; lia.
Qed.

Lemma sort_le_trans a b c : sort_le a b -> sort_le b c -> sort_le a c.
Proof. unfold sort_le. lia. Qed.

Lemma insert_sorted_perm a l : insert_sorted a l ≡ₚ a :: l.
Proof.
  induction l as [|b l IH]; cbn; [done|]. destruct (sort_cmp a b); [done|done|].
  rewrite IH. apply perm_swap.
Qed.

Lemma insert_sorted_sorted a l : StronglySorted sort_le l -> StronglySorted sort_le (insert_sorted a l).
Proof.
  induction 1 as [|b l Hl IH Hb]; cbn; [repeat constructor|].
  destruct (sort_cmp a b) eqn:E.
  1, 2: assert (sort_le a b) as Hab by (apply sort_cmp_le; by rewrite E);
    constructor; [by constructor|]; constructor; [done|];
    eapply Forall_impl; [|exact Hb]; intros c Hc; by eapply sort_le_trans.
  constructor; [done|]. rewrite insert_sorted_perm. constructor; [|done].
  apply sort_cmp_le. apply sort_cmp_total in E. by rewrite E.
Qed.

Lemma sort_items_spec l : sort_items l ≡ₚ l /\ StronglySorted sort_le (sort_items l).
Proof.
  induction l as [|a l [IH1 IH2]]; cbn; [split; constructor|]. split.
  - by rewrite insert_sorted_perm, IH1.
  - by apply insert_sorted_sorted.
Qed.

Lemma place_all_spec columns rows placed todo l r : stock_wf columns rows placed ->
  Forall (item_size_ok columns rows) todo -> Forall quantity_ok todo ->
  place_all columns rows placed todo = (l, r) ->
  stock_wf columns rows l /\
  exists k, map unplaced l = map unplaced placed ++ map unplaced (take k todo) /\
    (r = Ok tt -> k = length todo) /\ (is_ok r = false -> (k < length todo)%nat).
Proof.
  revert placed. induction todo as [|i todo IH]; intros placed Hwf Hs Hq H; cbn in H.
  { injection H as <- <-. split; [done|]. exists 0%nat. split; [cbn; by rewrite app_nil_r|done]. }
  apply Forall_cons_1 in Hs as [Hi Hs], Hq as [Hqi Hq].
  destruct (find_free_slot columns rows placed (width i) (height i) true) as [[[x y] rot]|] eqn:Ef.
  - apply IH in H; [|by eapply stock_wf_snoc|done|done]. destruct H as (Hl & k & Hk & H1 & H2).
    split; [done|]. exists (S k). rewrite Hk, map_app, <- app_assoc. split; [done|]. cbn.
    split; [intros Hr; by rewrite H1|intros Hr; specialize (H2 Hr); lia].
  - injection H as <- <-. split; [done|]. exists 0%nat. split; [cbn; by rewrite app_nil_r|].
    split; [done|]. intros _. cbn. lia.
Qed.

(** A successful sort of a grid keeps exactly the same items, laid out
    from the largest to the smallest, by category and then by definition, all
    inside the grid and disjoint; when it reports the failure, fewer items are
    in the container than before. *)
Theorem auto_sort_correct (t t' : CharacterContainerTree) (id columns rows : Z)
    (c : ContainerInstance) (r : result ContainerError unit) :
  containers t !! id = Some c -> content c = ContentGrid columns rows ->
  stock_wf columns rows (items c) -> auto_sort t id = (t', r) ->
  exists l, containers t' = <[id := with_items c l]> (containers t) /\ stock_wf columns rows l /\
    StronglySorted sort_le l /\
    (r = Ok tt -> map unplaced l ≡ₚ map unplaced (items c)) /\
    (is_ok r = false -> (length l < length (items c))%nat).
Proof.
  intros Hc Hg Hwf H. unfold auto_sort in H. rewrite Hc, Hg in H.
  destruct (sort_items_spec (items c)) as [Hp Hsort].
  destruct (place_all columns rows [] (sort_items (items c))) as [l r'] eqn:E. injection H as <- <-.
  assert (stock_wf columns rows []) as Hnil by (destruct Hwf; split; (done || constructor)).
  apply place_all_spec in E as (Hl & k & Hk & H1 & H2); [|done|rewrite Hp; apply Hwf..].
  exists l. split_goals; [done|done| | |].
  - assert (StronglySorted sort_le (map unplaced l)) as Hs.
    { rewrite Hk. cbn. rewrite <- (take_drop k (sort_items (items c))) in Hsort.
      clear -Hsort. revert Hsort. generalize (take k (sort_items (items c))), (drop k (sort_items (items c))).
      intros l1 l2. induction l1 as [|a l1 IH]; intros H; [constructor|]. cbn in *.
      inversion H as [|? ? Hs Ha]; subst. constructor; [by apply IH|].
      apply Forall_app in Ha as [Ha _]. apply Forall_map. exact Ha. }
    clear -Hs. induction l as [|a l IH]; [constructor|]. cbn in Hs. inversion Hs as [|? ? Hs' Ha]; subst.
    constructor; [by apply IH|]. rewrite List.Forall_map in Ha. exact Ha.
  - intros Hr. rewrite Hk, (H1 Hr). cbn. rewrite firstn_all. by rewrite Hp.
  - intros Hr. specialize (H2 Hr). apply (f_equal length) in Hk. rewrite Hp in H2.
    rewrite length_app, !length_map, length_take in Hk. cbn in Hk. lia.
Qed.

Section SortWitness.
Let a := stored_new 1 500 Ore 100 1 1 1 1.
Let b := with_position (stored_new 2 501 Herb 100 1 1 2 1) 0 1 false.
Let c := with_items (new_grid 2 2 2 0) [a; b].
Let t := add_container tree_new c.

Lemma auto_sort_correct_witness :
  exists t' l, auto_sort t 2 = (t', Ok tt) /\ containers t' = <[2 := with_items c l]> (containers t) /\
    stock_wf 2 2 l /\ map unplaced l ≡ₚ map unplaced [a; b].
Proof.
  assert (stock_wf 2 2 (items c)) as Hwf.
  { split; [done|done| | | |]; cbn.
    - rewrite !list.Forall_cons, list.Forall_nil. unfold item_size_ok, size_ok. cbn. lia.
    - rewrite !list.Forall_cons, list.Forall_nil. unfold inside, effective_width, effective_height. cbn. lia.
    - constructor; [|constructor; constructor]. apply list.Forall_singleton.
      intros px py. unfold covers, effective_width, effective_height. cbn. lia.
    - rewrite !list.Forall_cons, list.Forall_nil. unfold quantity_ok. cbn. lia. }
  destruct (auto_sort t 2) as [t' r] eqn:E.
  assert (r = Ok tt) as Hr by (vm_compute in E; injection E as _ <-; reflexivity). subst r.
  destruct (auto_sort_correct t t' 2 2 2 c (Ok tt) eq_refl eq_refl Hwf E) as (l & H1 & H2 & _ & H3 & _).
  exists t', l. split; [reflexivity|]. split; [exact H1|]. split; [exact H2|]. exact (H3 eq_refl).
Defined.
End SortWitness.

(** ** What the modelling shows *)

(** A sort can fail on a grid whose items fit: the largest item goes first and
    takes the room the other one needs.  The items not yet placed are gone. *)
Section SortLoses.
Let square := with_position (stored_new 1 500 Ore 100 1 1 2 2) 0 0 false.
Let plate := with_position (stored_new 2 501 Herb 100 1 1 3 2) 2 0 true.
Let c := with_items (new_grid 2 4 3 0) [square; plate].
Let t := add_container tree_new c.

Theorem auto_sort_loses_items :
  snd (auto_sort t 2) = Err SortFailed /\
  option_map (fun c => map st_id (items c)) (containers (fst (auto_sort t 2)) !! 2) = Some [2].
Proof. split; vm_compute; reflexivity. Qed.
End SortLoses.

(** A deposit whose insertion fails after topping up a stack gives the whole
    item back to the source: 13 stones become 18. *)
Section DepositDuplicates.
Let stone n q := stored_new n 500 Ore 100 q 10 1 1.
Let source := with_items (new_grid 1 4 4 0) [stone 7 8].
Let target := with_items (new_grid 2 1 1 0) [stone 8 5].
Let t := add_container (add_container tree_new source) target.

Theorem deposit_matching_duplicates :
  let '(t', r) := deposit_matching t 1 2 in
  r = Ok 0 /\
  option_map (fun c => total 500 (items c)) (containers t !! 1) = Some 8 /\
  option_map (fun c => total 500 (items c)) (containers t !! 2) = Some 5 /\
  option_map (fun c => total 500 (items c)) (containers t' !! 1) = Some 8 /\
  option_map (fun c => total 500 (items c)) (containers t' !! 2) = Some 10.
Proof. vm_compute. repeat split. Qed.
End DepositDuplicates.

(** Past the sizes of [size_ok] the sums of the search wrap: an item 255 cells
    wide is placed at column 1 of a grid of 10 columns. *)
Theorem find_free_slot_wraps : find_free_slot 10 6 [] 255 1 false = Some (1, 0, false).
Proof. vm_compute. reflexivity. Qed.
