(* ===== verification/Encumbrance.v ===== *)
(** * Encumbrance

    [crates/simulation/src/encumbrance.rs]: the weight carried by a character,
    its tier, and what the tier does to sprinting, dodging and speed. *)

From S2P Require Import Prelude F32 Containers.

Record CharacterContainersComponent := mk_component {
  tree : CharacterContainerTree;
  max_capacity_grams : Z
}.

Definition character_capacity_capacity_or_default (capacity : Z) : Z :=
  if decide (capacity = 0) then 30000 else capacity.

Definition default_starting (character_capacity_grams : Z) : CharacterContainersComponent :=
  mk_component (set_root tree_new (new_grid 1 10 6 0))
    (character_capacity_capacity_or_default character_capacity_grams).

Record MovementEncumbranceEffect := mk_effect {
  tier : EncumbranceTier;
  speed_multiplier : F32.f32;
  can_sprint : bool;
  can_dodge : bool
}.

Definition from_tier (t : EncumbranceTier) : MovementEncumbranceEffect :=
  match t with
  | Light => mk_effect t (F32.of_Z 1) true true
  | Medium => mk_effect t (F32.of_decimal 9 1) true true
  | Heavy => mk_effect t (F32.of_decimal 6 1) false true
  | Overburdened => mk_effect t (F32.of_decimal 25 2) false false
  end.

Definition apply_to_speed (e : MovementEncumbranceEffect) (base_speed_mm_per_sec : F32.f32) : F32.f32 :=
  F32.mul base_speed_mm_per_sec (speed_multiplier e).

(** Weighing takes the fuel and the map order of [Containers]. *)
Definition current_tier (fuel : nat) (values : list ContainerInstance) (c : CharacterContainersComponent)
  : option EncumbranceTier := get_encumbrance_tier fuel values (tree c) (max_capacity_grams c).

Definition evaluate_movement_effects fuel values c : option MovementEncumbranceEffect :=
  t ← current_tier fuel values c; Some (from_tier t).

(** [values] enumerates the containers after the insertion. *)
Definition pickup_item (fuel : nat) (values : CharacterContainerTree -> list ContainerInstance)
    (c : CharacterContainersComponent) (item : StoredItem)
  : option (CharacterContainersComponent * result ContainerError MovementEncumbranceEffect) :=
  match root_id (tree c) with
  | None => Some (c, Err NoRootContainer)
  | Some target_container =>
      let '(t, r) := quick_insert (tree c) target_container item true in
      let c' := mk_component t (max_capacity_grams c) in
      match r with
      | Err e => Some (c', Err e)
      | Ok _ => e ← evaluate_movement_effects fuel (values t) c'; Some (c', Ok e)
      end
  end.

Record CharacterMovementInput := { wants_to_sprint : bool; wants_to_dodge : bool }.
Record CalculatedMovementTick := {
  effective_speed_mm_per_sec : F32.f32; is_sprinting : bool; dodge_allowed : bool
}.

Definition process_movement_tick (fuel : nat) (values : list ContainerInstance)
    (containers : CharacterContainersComponent) (input : CharacterMovementInput)
    (base_walk_speed_mm_per_sec sprint_bonus_multiplier : F32.f32) : option CalculatedMovementTick :=
  effect ← evaluate_movement_effects fuel values containers;
  let sprinting := wants_to_sprint input && can_sprint effect in
  let speed_before_encumbrance :=
    if sprinting then F32.mul base_walk_speed_mm_per_sec sprint_bonus_multiplier
    else base_walk_speed_mm_per_sec in
  Some {| effective_speed_mm_per_sec := apply_to_speed effect speed_before_encumbrance;
          is_sprinting := sprinting;
          dodge_allowed := wants_to_dodge input && can_dodge effect |}.

Lemma tier_of_bands w cap : in_u 32 w -> 0 < cap < 2 ^ 32 ->
  match tier_of w cap with
  | Light => 100 * w < 51 * cap
  | Medium => 51 * cap <= 100 * w < 81 * cap
  | Heavy => 81 * cap <= 100 * w < 101 * cap
  | Overburdened => 101 * cap <= 100 * w
  end.
Proof.
  intros Hw Hc. unfold tier_of, in_u in *. rewrite decide_False by lia.
  rewrite wrap_u_small by (unfold in_u; lia).
  pose proof (Z.div_mod (w * 100) cap ltac:(lia)). pose proof (Z.mod_pos_bound (w * 100) cap ltac:(lia)).
  set (q := w * 100 / cap) in *. repeat case_decide; nia.
Qed.

(** A movement tick is always computed on a tree with a root container,
    and only the carried weight decides what it allows: below 51 percent of the
    capacity the character moves freely, below 81 percent at nine tenths of his
    speed, below 101 percent he can no longer sprint, and from there on neither
    sprint nor dodge; the speed is the walking speed, with the sprint bonus
    exactly when he sprints, times the multiplier of the band. *)
Theorem movement_tick_correct (fuel : nat) (values : list ContainerInstance)
    (c : CharacterContainersComponent) (input : CharacterMovementInput) (walk bonus : F32.f32) (root : Z)
    (b : ContainerInstance) :
  acyclic (tree c) -> keyed (tree c) -> (size (containers (tree c)) < fuel)%nat ->
  enumerates values (tree c) -> root_id (tree c) = Some root -> containers (tree c) !! root = Some b ->
  0 < max_capacity_grams c < 2 ^ 32 ->
  exists w m, calculate_total_weight fuel values (tree c) = Some (Ok w) /\ in_u 32 w /\
    process_movement_tick fuel values c input walk bonus = Some m /\
    let cap := max_capacity_grams c in
    is_sprinting m = wants_to_sprint input && bool_decide (100 * w < 81 * cap) /\
    dodge_allowed m = wants_to_dodge input && bool_decide (100 * w < 101 * cap) /\
    effective_speed_mm_per_sec m =
      F32.mul (if is_sprinting m then F32.mul walk bonus else walk)
        (if bool_decide (100 * w < 51 * cap) then F32.of_Z 1
         else if bool_decide (100 * w < 81 * cap) then F32.of_decimal 9 1
         else if bool_decide (100 * w < 101 * cap) then F32.of_decimal 6 1
         else F32.of_decimal 25 2).
Proof.
  intros Hac Hk Hf Hv Hr Hb Hcap.
  destruct (container_weight_correct_aux (tree c) Hac Hk fuel values root b Hf Hv Hb) as (w & Hw & Hwr).
  assert (calculate_total_weight fuel values (tree c) = Some (Ok w)) as Ht
    by (unfold calculate_total_weight; by rewrite Hr).
  exists w. eexists. split; [done|]. split; [done|].
  unfold process_movement_tick, evaluate_movement_effects, current_tier, get_encumbrance_tier.
  rewrite Ht. split; [reflexivity|].
  pose proof (tier_of_bands w (max_capacity_grams c) Hwr Hcap) as Hband. cbn.
  destruct (tier_of w (max_capacity_grams c)); cbn in *;
    rewrite ?andb_true_r, ?andb_false_r;
    repeat match goal with |- context [bool_decide ?P] =>
      first [rewrite (bool_decide_eq_true_2 P) by lia | rewrite (bool_decide_eq_false_2 P) by lia] end;
    rewrite ?andb_true_r, ?andb_false_r; done.
Qed.

Section TickWitness.
Let stones := stored_new 1 500 Ore 1000 25 50 1 1.
Let root := with_items (new_grid 1 10 6 0) [stones].
Let c := mk_component (set_root tree_new root) 30000.
Let input := {| wants_to_sprint := true; wants_to_dodge := true |}.

Lemma movement_tick_correct_witness :
  exists m, process_movement_tick 2 [root] c input (F32.of_Z 5000) (F32.of_decimal 15 1) = Some m /\
    is_sprinting m = false /\ dodge_allowed m = true /\
    effective_speed_mm_per_sec m = F32.of_Z 3000.
Proof.
  assert (forall id b, containers (tree c) !! id = Some b -> id = 1 /\ b = root) as Hl.
  { intros id b. unfold c, set_root. cbn. intros [[<- <-]|[_ ?]]%lookup_insert_Some; done. }
  assert (acyclic (tree c)) as Hac.
  { assert (forall x y, ~ climb (tree c) x y) as H.
    { intros x y H. unfold climb, parent_of in H. destruct (containers (tree c) !! x) eqn:E; [|done].
      apply Hl in E as [_ ->]. done. }
    intros x Hx. inversion Hx as [? ? H1|? ? ? H1 _]; subst; by apply H in H1. }
  assert (keyed (tree c)) as Hk by (intros id b [-> ->]%Hl; done).
  destruct (movement_tick_correct 2 [root] c input (F32.of_Z 5000) (F32.of_decimal 15 1) 1 root Hac Hk)
    as (w & m & Hw & _ & Hm & H1 & H2 & H3).
  - vm_compute. lia.
  - unfold enumerates, c, set_root. cbn. rewrite map_to_list_insert by done.
    rewrite map_to_list_empty. done.
  - reflexivity.
  - reflexivity.
  - cbn. lia.
  - exists m. split; [exact Hm|].
    assert (w = 25000) as Hw' by (vm_compute in Hw; congruence). subst w.
    assert (is_sprinting m = false) as S1 by (rewrite H1; vm_compute; reflexivity).
    rewrite S1 in H3. split; [exact S1|]. split; [rewrite H2; vm_compute; reflexivity|].
    rewrite H3. vm_compute. reflexivity.
Defined.
End TickWitness.

(** The tier is taken from the percentage rounded down: a load just above the
    capacity still counts as heavy, not as overburdened. *)
Theorem overburdened_needs_101_percent : tier_of 30299 30000 = Heavy /\ tier_of 30300 30000 = Overburdened.
Proof. split; vm_compute; reflexivity. Qed.
