(* ===== verification/Movement.v ===== *)
(** * Character movement

    [crates/simulation/src/movement.rs]: integer integration of analogue input,
    the part of a millimetre left over carried to the next tick, with an
    integer square root to keep diagonal input within the unit disc. *)

From S2P Require Import Prelude.

Definition MOVEMENT_AXIS_SCALE : Z := 32767.

Record MovementInput := mk_input { axis_x : Z; axis_y : Z }.
Definition ZERO : MovementInput := mk_input 0 0.

Definition from_axes (x y : Z) : option MovementInput :=
  if decide (x = - 2 ^ 15 \/ y = - 2 ^ 15) then None else Some (mk_input x y).

Definition is_zero (i : MovementInput) : bool := bool_decide (axis_x i = 0 /\ axis_y i = 0).

(** The messages of the source's errors. *)
Inductive MovementError :=
| ZeroSpeed | ZeroInputTimeout | ZeroRadius | ZeroTickRate | DenominatorOverflow
| NumeratorOverflowX | RemainderOverflowX | NumeratorOverflowY | RemainderOverflowY.

Record CharacterMovementSettings := mk_settings {
  speed_mm_per_second : Z;
  input_timeout_ticks : Z;
  character_radius_mm : Z
}.

Definition settings_new (speed timeout radius : Z) : result MovementError CharacterMovementSettings :=
  if decide (speed = 0) then Err ZeroSpeed
  else if decide (timeout = 0) then Err ZeroInputTimeout
  else if decide (radius = 0) then Err ZeroRadius
  else Ok (mk_settings speed timeout radius).

Record MovementRemainder := mk_rem { rem_x : Z; rem_y : Z }.
Record MovementDeltaMm := mk_delta { delta_x : Z; delta_y : Z }.

Record MovementRules := mk_rules {
  rule_speed : Z;
  denominator : Z;
  rule_input_timeout_ticks : Z;
  rule_radius_mm : Z
}.

Definition rules_new (settings : CharacterMovementSettings) (tick_rate_hz : Z)
  : result MovementError MovementRules :=
  if decide (tick_rate_hz = 0) then Err ZeroTickRate else
  denom ← ok_or DenominatorOverflow (checked_i 64 (MOVEMENT_AXIS_SCALE * tick_rate_hz));
  Ok (mk_rules (speed_mm_per_second settings) denom (input_timeout_ticks settings)
        (character_radius_mm settings)).

(** The Newton iteration on [w]-bit integers; [None] says that the fuel was not
    enough. *)
Fixpoint newton (w : Z) (fuel : nat) (value current next : Z) : option Z :=
  if decide (next < current) then
    match fuel with
    | O => None
    | S fuel =>
        let current := next in
        newton w fuel value current (wrap_u w (current + value / current) / 2)
    end
  else Some current.

(** Sixty-five steps suffice for 64 bits, see [integer_sqrt_floor_spec]. *)
Definition NEWTON_FUEL : nat := 65.

Definition integer_sqrt_floor (value : Z) : option Z :=
  if decide (value < 2) then Some value
  else newton 64 NEWTON_FUEL value value ((value + 1) / 2).

Definition integer_sqrt_ceil (value : Z) : option Z :=
  fl ← integer_sqrt_floor value;
  if decide (wrap_u 64 (fl * fl) = value) then Some fl else Some (wrap_u 64 (fl + 1)).

Definition normalized_axes (input : MovementInput) : option (Z * Z) :=
  let x := axis_x input in
  let y := axis_y input in
  let magnitude_squared := wrap_u 64 (wrap_i 64 (wrap_i 64 (x * x) + wrap_i 64 (y * y))) in
  let scale_squared := wrap_u 64 (wrap_i 64 (MOVEMENT_AXIS_SCALE * MOVEMENT_AXIS_SCALE)) in
  if decide (magnitude_squared <= scale_squared) then Some (x, y) else
  m ← integer_sqrt_ceil magnitude_squared;
  let magnitude := wrap_i 64 m in
  Some (Z.quot (wrap_i 64 (x * MOVEMENT_AXIS_SCALE)) magnitude,
        Z.quot (wrap_i 64 (y * MOVEMENT_AXIS_SCALE)) magnitude).

Definition integrate (rules : MovementRules) (input : MovementInput) (remainder : MovementRemainder)
  : option (result MovementError (MovementDeltaMm * MovementRemainder)) :=
  axes ← normalized_axes input;
  Some (
    nx ← ok_or NumeratorOverflowX (checked_i 64 (rule_speed rules * axes.1));
    numerator_x ← ok_or RemainderOverflowX (checked_i 64 (rem_x remainder + nx));
    ny ← ok_or NumeratorOverflowY (checked_i 64 (rule_speed rules * axes.2));
    numerator_y ← ok_or RemainderOverflowY (checked_i 64 (rem_y remainder + ny));
    Ok (mk_delta (Z.quot numerator_x (denominator rules)) (Z.quot numerator_y (denominator rules)),
        mk_rem (Z.rem numerator_x (denominator rules)) (Z.rem numerator_y (denominator rules)))).

(** ** The integer square root *)

Lemma newton_step value c : 0 < c -> 0 <= value ->
  let s := Z.sqrt value in
  s <= (c + value / c) / 2 /\ (s < c -> (c + value / c) / 2 - s <= (c - s) / 2).
Proof.
  intros Hc Hv s. pose proof (Z.sqrt_spec value Hv) as [Hs1 Hs2]. pose proof (Z.sqrt_nonneg value).
  fold s in Hs1, Hs2, H. unfold Z.succ in *.
  pose proof (Z.div_mod value c ltac:(lia)). pose proof (Z.mod_pos_bound value c Hc).
  set (q := value / c) in *. split.
  - apply Z.div_le_lower_bound; [lia|].
    assert (2 * s - c <= q).
    { apply Z.div_le_lower_bound; [lia|]. pose proof (Z.square_nonneg (s - c)). nia. }
    lia.
  - intros Hsc. assert (q <= s) by (apply Z.lt_succ_r; apply Z.div_lt_upper_bound; nia).
    assert ((c + q) / 2 <= (c + s) / 2) by (apply Z.div_le_mono; lia).
    assert ((c + s) / 2 = (c - s) / 2 + s)
      by (replace (c + s) with (c - s + s * 2) by lia; apply Z.div_add; lia).
    lia.
Qed.

Lemma newton_no_wrap w value c : 3 <= w -> 1 < value < 2 ^ w -> Z.sqrt value <= c < value -> 0 < c ->
  in_u w (c + value / c).
Proof.
  intros Hw Hv [Hs Hc] H0. unfold in_u.
  assert (8 <= 2 ^ w) as Hm by (change 8 with (2 ^ 3); apply Z.pow_le_mono_r; lia).
  revert Hm Hv. generalize (2 ^ w). intros m Hm Hv.
  pose proof (Z.div_mod value c ltac:(lia)) as H. pose proof (Z.mod_pos_bound value c H0) as H1.
  assert (0 < value / c) as Hq by (apply Z.div_str_pos; lia). revert H H1 Hq. generalize (value / c).
  intros q Hdiv Hmod Hq. destruct (decide (c = 1)) as [->|Hc1].
  - pose proof (Z.sqrt_spec value ltac:(lia)) as [_ Hs2]. pose proof (Z.sqrt_nonneg value). unfold Z.succ in Hs2.
    assert (Z.sqrt value = 0 \/ Z.sqrt value = 1) as [E|E] by lia; rewrite E in Hs2; lia.
  - destruct (decide (q = 1)) as [->|Hq1]; [lia|]. assert (0 <= (c - 2) * (q - 2)) by (apply Z.mul_nonneg_nonneg; lia). lia.
Qed.

Lemma newton_correct w value : 3 <= w -> 1 < value < 2 ^ w -> forall fuel c,
  0 < c <= value -> Z.sqrt value <= c -> c - Z.sqrt value < 2 ^ Z.of_nat fuel ->
  newton w (S fuel) value c ((c + value / c) / 2) = Some (Z.sqrt value).
Proof.
  intros Hw Hv. set (s := Z.sqrt value). assert (0 < s) as Hs0 by (apply Z.sqrt_pos; lia).
  induction fuel as [|fuel IH]; intros c Hc Hs Hd;
    destruct (newton_step value c ltac:(lia) ltac:(lia)) as [Hn1 Hn2]; fold s in Hn1, Hn2.
  - assert (c = s) as -> by (cbn in Hd; lia). cbn. by rewrite decide_False by lia.
  - destruct (decide (c = s)) as [->|Hne]; [cbn; by rewrite decide_False by lia|].
    specialize (Hn2 ltac:(lia)). set (n := (c + value / c) / 2) in *.
    assert ((c - s) / 2 < c - s) by (apply Z.div_lt_upper_bound; lia).
    assert ((c - s) / 2 < 2 ^ Z.of_nat fuel).
    { apply Z.div_lt_upper_bound; [lia|]. rewrite Nat2Z.inj_succ, Z.pow_succ_r in Hd by lia. lia. }
    change (newton w (S (S fuel)) value c n) with
      (if decide (n < c) then newton w (S fuel) value n (wrap_u w (n + value / n) / 2) else Some c).
    rewrite decide_True by lia. rewrite wrap_u_small by (apply newton_no_wrap; lia).
    apply IH; lia.
Qed.

(** The iteration as the source starts it. *)
Lemma newton_start (fuel : nat) value : 3 <= Z.of_nat fuel -> 1 < value < 2 ^ Z.of_nat fuel ->
  newton (Z.of_nat fuel) (S fuel) value value ((value + 1) / 2) = Some (Z.sqrt value).
Proof.
  intros Hf Hv. replace ((value + 1) / 2) with ((value + value / value) / 2) by (rewrite Z.div_same by lia; done).
  apply newton_correct; [lia|lia|lia|apply Z.sqrt_le_lin; lia|]. pose proof (Z.sqrt_nonneg value). lia.
Qed.

Lemma integer_sqrt_floor_spec value : in_u 64 value -> integer_sqrt_floor value = Some (Z.sqrt value).
Proof.
  intros [Hv1 Hv2]. unfold integer_sqrt_floor. case_decide.
  - assert (value = 0 \/ value = 1) as [-> | ->] by lia; done.
  - apply (newton_start 64); cbn; lia.
Qed.

Lemma integer_sqrt_ceil_spec value : in_u 64 value ->
  exists m, integer_sqrt_ceil value = Some m /\ 0 <= m <= 2 ^ 32 /\ value <= m * m /\
    (0 < m -> (m - 1) * (m - 1) < value).
Proof.
  intros Hv. unfold integer_sqrt_ceil. rewrite integer_sqrt_floor_spec by done. cbn.
  destruct Hv as [Hv1 Hv2]. pose proof (Z.sqrt_spec value Hv1) as [Hs1 Hs2]. pose proof (Z.sqrt_nonneg value).
  set (s := Z.sqrt value) in *. unfold Z.succ in *. assert (s < 2 ^ 32) by nia.
  rewrite (wrap_u_small 64 (s * s)) by (unfold in_u; lia). case_decide.
  - exists s. split; [done|]. split; [lia|]. split; [lia|]. intros. nia.
  - rewrite wrap_u_small by (unfold in_u; lia). exists (s + 1). split; [done|]. split; [lia|].
    split; [lia|]. intros _. replace (s + 1 - 1) with s by lia. lia.
Qed.

(** ** Normalisation *)

Definition input_ok (i : MovementInput) : Prop := Z.abs (axis_x i) <= 32767 /\ Z.abs (axis_y i) <= 32767.

Lemma from_axes_ok x y i : in_i 16 x -> in_i 16 y -> from_axes x y = Some i -> input_ok i.
Proof.
  unfold from_axes, in_i, input_ok. intros Hx Hy. change (2 ^ (16 - 1)) with 32768 in *.
  change (2 ^ 15) with 32768. case_decide as H; [done|]. intros [= <-]. cbn. lia.
Qed.

(** One scaled axis: the magnitude bounds of the truncating division. *)
Lemma scaled_axis x m : 32767 <= m -> let q := Z.quot (x * 32767) m in
  Z.abs q * m <= Z.abs x * 32767 < (Z.abs q + 1) * m /\ Z.abs q <= Z.abs x /\ 0 <= q * x.
Proof.
  intros Hm q. assert (Z.abs q = Z.abs x * 32767 / m) as Ha.
  { unfold q. rewrite <- Z.quot_abs by lia. rewrite Z.abs_mul, (Z.abs_eq m), (Z.abs_eq 32767) by lia.
    apply Z.quot_div_nonneg; lia. }
  pose proof (Z.div_mod (Z.abs x * 32767) m ltac:(lia)).
  pose proof (Z.mod_pos_bound (Z.abs x * 32767) m ltac:(lia)). rewrite <- Ha in *.
  split; [lia|]. split; [nia|]. unfold q.
  destruct (decide (0 <= x)).
  - apply Z.mul_nonneg_nonneg; [apply Z.quot_pos; lia|done].
  - apply Z.mul_nonpos_nonpos; [|lia].
    replace (x * 32767) with (- (- x * 32767)) by lia. rewrite Z.quot_opp_l by lia.
    pose proof (Z.quot_pos (- x * 32767) m ltac:(lia) ltac:(lia)). lia.
Qed.

Lemma normalized_axes_spec input : input_ok input ->
  let x := axis_x input in let y := axis_y input in
  (x * x + y * y <= 32767 * 32767 -> normalized_axes input = Some (x, y)) /\
  (32767 * 32767 < x * x + y * y -> exists m, 32767 < m /\ x * x + y * y <= m * m /\
     (m - 1) * (m - 1) < x * x + y * y /\
     normalized_axes input = Some (Z.quot (x * 32767) m, Z.quot (y * 32767) m)).
Proof.
  intros [Hx Hy] x y. fold x in Hx. fold y in Hy. unfold normalized_axes. fold x y.
  unfold MOVEMENT_AXIS_SCALE.
  assert (0 <= x * x <= 32767 * 32767 /\ 0 <= y * y <= 32767 * 32767) as [Hxx Hyy] by nia.
  rewrite (wrap_i_small 64 (x * x)), (wrap_i_small 64 (y * y)), (wrap_i_small 64 (32767 * 32767)),
    (wrap_i_small 64 (x * 32767)), (wrap_i_small 64 (y * 32767)) by (unfold in_i; lia).
  rewrite (wrap_i_small 64 (x * x + y * y)) by (unfold in_i; lia).
  rewrite !(wrap_u_small 64) by (unfold in_u; lia).
  split; intros H; [by rewrite decide_True by lia|]. rewrite decide_False by lia.
  destruct (integer_sqrt_ceil_spec (x * x + y * y)) as (m & -> & Hm & H1 & H2); [unfold in_u; lia|].
  exists m. assert (32767 < m) by nia. split_goals; [done|done|apply H2; lia|]. cbn.
  by rewrite (wrap_i_small 64 m) by (unfold in_i; lia).
Qed.

(** The magnitude of two scaled axes, all non-negative. *)
Lemma disc_bounds X Y a b m :
  0 <= X -> 0 <= Y -> 0 <= a -> 0 <= b -> 32767 < m ->
  X * X + Y * Y <= m * m -> (m - 1) * (m - 1) < X * X + Y * Y ->
  a * m <= X * 32767 < (a + 1) * m -> b * m <= Y * 32767 < (b + 1) * m ->
  a * a + b * b <= 32767 * 32767 /\ 32764 * 32764 < a * a + b * b.
Proof.
  intros HX HY Ha Hb Hm Hv1 Hv2 [Ha1 Ha2] [Hb1 Hb2].
  assert (0 < m * m) as Hmm by nia.
  assert (a * a + b * b <= 32767 * 32767) as Hup.
  { apply (Z.mul_le_mono_pos_r _ _ (m * m)); [done|].
    assert (a * m * (a * m) <= X * 32767 * (X * 32767)) by (apply Z.mul_le_mono_nonneg; nia).
    assert (b * m * (b * m) <= Y * 32767 * (Y * 32767)) by (apply Z.mul_le_mono_nonneg; nia). nia. }
  split; [done|].
  assert (32766 * 32766 < (a + 1) * (a + 1) + (b + 1) * (b + 1)) as Hlow.
  { apply (Z.mul_lt_mono_pos_r (m * m)); [done|].
    assert (X * 32767 * (X * 32767) <= (a + 1) * m * ((a + 1) * m)) by (apply Z.mul_le_mono_nonneg; nia).
    assert (Y * 32767 * (Y * 32767) <= (b + 1) * m * ((b + 1) * m)) by (apply Z.mul_le_mono_nonneg; nia).
    assert (32766 * m * (32766 * m) <= 32767 * (m - 1) * (32767 * (m - 1)))
      by (apply Z.mul_le_mono_nonneg; nia).
    nia. }
  assert (a + b <= 46340); [|lia].
  destruct (decide (a + b <= 46340)) as [|Hab]; [done|].
  assert (46341 * 46341 <= (a + b) * (a + b)) by (apply Z.mul_le_mono_nonneg; lia).
  pose proof (Z.square_nonneg (a - b)). lia.
Qed.

(** The axes that drive the integration never leave the unit disc.  For
    every valid input the normalisation terminates within its fuel and gives
    axes of magnitude at most full scale, pointing into the same quadrant and no
    longer than the input on either axis; inputs inside the disc are unchanged
    and those outside it keep all but three units of full scale. *)
Theorem normalized_axes_unit_disc (input : MovementInput) :
  input_ok input ->
  exists x y, normalized_axes input = Some (x, y) /\
    x * x + y * y <= MOVEMENT_AXIS_SCALE * MOVEMENT_AXIS_SCALE /\
    Z.abs x <= Z.abs (axis_x input) /\ Z.abs y <= Z.abs (axis_y input) /\
    0 <= x * axis_x input /\ 0 <= y * axis_y input /\
    (axis_x input * axis_x input + axis_y input * axis_y input
       <= MOVEMENT_AXIS_SCALE * MOVEMENT_AXIS_SCALE -> x = axis_x input /\ y = axis_y input) /\
    (MOVEMENT_AXIS_SCALE * MOVEMENT_AXIS_SCALE
       < axis_x input * axis_x input + axis_y input * axis_y input ->
     (MOVEMENT_AXIS_SCALE - 3) * (MOVEMENT_AXIS_SCALE - 3) < x * x + y * y).
Proof.
  intros Hin. destruct (normalized_axes_spec input Hin) as [H1 H2]. unfold MOVEMENT_AXIS_SCALE.
  destruct (decide (axis_x input * axis_x input + axis_y input * axis_y input <= 32767 * 32767)) as [Hle|Hgt].
  - exists (axis_x input), (axis_y input). rewrite H1 by done. split_goals; try nia; done.
  - destruct (H2 ltac:(lia)) as (m & Hm & Hm1 & Hm2 & E). rewrite E. eexists _, _. split; [done|].
    destruct (scaled_axis (axis_x input) m ltac:(lia)) as (Ax & Bx & Cx).
    destruct (scaled_axis (axis_y input) m ltac:(lia)) as (Ay & By & Cy).
    rewrite <- (Z.abs_square (axis_x input)), <- (Z.abs_square (axis_y input)) in *.
    revert Ax Bx Cx Ay By Cy. generalize (Z.quot (axis_x input * 32767) m), (Z.quot (axis_y input * 32767) m).
    intros x y Ax Bx Cx Ay By Cy. rewrite <- (Z.abs_square x), <- (Z.abs_square y).
    destruct Hin as [Hix Hiy].
    destruct (disc_bounds (Z.abs (axis_x input)) (Z.abs (axis_y input)) (Z.abs x) (Z.abs y) m) as [D1 D2];
      try lia.
Qed.

Lemma normalized_axes_unit_disc_witness :
  input_ok (mk_input 32767 (-32767)) /\
  exists x y, normalized_axes (mk_input 32767 (-32767)) = Some (x, y) /\
    x * x + y * y <= MOVEMENT_AXIS_SCALE * MOVEMENT_AXIS_SCALE /\ x = 23169 /\ y = -23169.
Proof.
  assert (input_ok (mk_input 32767 (-32767))) as H by (unfold input_ok; cbn; lia). split; [exact H|].
  destruct (normalized_axes_unit_disc _ H) as (x & y & E & Hd & _). exists x, y.
  split; [exact E|]. split; [exact Hd|]. vm_compute in E. injection E as <- <-. split; reflexivity.
Defined.

(** ** Integration over many ticks *)

Fixpoint integrate_all (rules : MovementRules) (inputs : list MovementInput) (remainder : MovementRemainder)
  : option (result MovementError (list MovementDeltaMm * MovementRemainder)) :=
  match inputs with
  | [] => Some (Ok ([], remainder))
  | i :: inputs =>
      r ← integrate rules i remainder;
      match r with
      | Err e => Some (Err e)
      | Ok (d, remainder') =>
          r' ← integrate_all rules inputs remainder';
          Some (match r' with Err e => Err e | Ok (ds, last) => Ok (d :: ds, last) end)
      end
  end.

Definition sum_by {A} (f : A -> Z) (l : list A) : Z := foldr (fun a s => f a + s) 0 l.

Definition rules_ok (rules : MovementRules) : Prop :=
  0 <= rule_speed rules < 2 ^ 32 /\ 0 < denominator rules <= 32767 * 2 ^ 32.

Definition remainder_ok (rules : MovementRules) (r : MovementRemainder) : Prop :=
  Z.abs (rem_x r) < denominator rules /\ Z.abs (rem_y r) < denominator rules.

Lemma rules_new_ok settings hz rules : in_u 32 (speed_mm_per_second settings) -> in_u 32 hz ->
  rules_new settings hz = Ok rules ->
  rules_ok rules /\ rule_speed rules = speed_mm_per_second settings /\
  denominator rules = MOVEMENT_AXIS_SCALE * hz.
Proof.
  unfold rules_new, rules_ok, MOVEMENT_AXIS_SCALE, in_u. intros Hs Hz. case_decide as H0; [done|].
  rewrite checked_i_in by (unfold in_i; lia). cbn. intros [= <-]. cbn. lia.
Qed.

Lemma quot_rem_bounds n d : 0 < d ->
  d * Z.quot n d + Z.rem n d = n /\ Z.abs (Z.rem n d) < d /\ 0 <= Z.rem n d * n.
Proof.
  intros Hd. split; [symmetry; apply Z.quot_rem'|]. split.
  - pose proof (Z.rem_bound_abs n d ltac:(lia)). lia.
  - apply Z.rem_sign_mul. lia.
Qed.

Lemma normalized_axes_bounded input : input_ok input ->
  exists ax ay, normalized_axes input = Some (ax, ay) /\ Z.abs ax <= 32767 /\ Z.abs ay <= 32767.
Proof.
  intros Hin. destruct (normalized_axes_spec input Hin) as [N1 N2]. destruct Hin as [Hix Hiy].
  destruct (decide (axis_x input * axis_x input + axis_y input * axis_y input <= 32767 * 32767)) as [H|H].
  - exists (axis_x input), (axis_y input). by rewrite N1.
  - destruct (N2 ltac:(lia)) as (m & Hm & _ & _ & ->). eexists _, _. split; [done|].
    destruct (scaled_axis (axis_x input) m ltac:(lia)) as (_ & ? & _).
    destruct (scaled_axis (axis_y input) m ltac:(lia)) as (_ & ? & _). lia.
Qed.

Lemma integrate_spec rules input remainder : rules_ok rules -> input_ok input -> remainder_ok rules remainder ->
  exists ax ay d r', normalized_axes input = Some (ax, ay) /\
    integrate rules input remainder = Some (Ok (d, r')) /\ remainder_ok rules r' /\
    denominator rules * delta_x d + rem_x r' = rem_x remainder + rule_speed rules * ax /\
    denominator rules * delta_y d + rem_y r' = rem_y remainder + rule_speed rules * ay.
Proof.
  intros [Hs Hd] Hin [Hrx Hry].
  destruct (normalized_axes_bounded input Hin) as (ax & ay & E & Hax & Hay).
  exists ax, ay. unfold integrate. rewrite E. cbn.
  assert (Z.abs (rule_speed rules * ax) < 2 ^ 47) by (rewrite Z.abs_mul; nia).
  assert (Z.abs (rule_speed rules * ay) < 2 ^ 47) by (rewrite Z.abs_mul; nia).
  rewrite (checked_i_in 64 (rule_speed rules * ax)), (checked_i_in 64 (rule_speed rules * ay))
    by (unfold in_i; lia). cbn.
  rewrite (checked_i_in 64 (rem_x remainder + _)), (checked_i_in 64 (rem_y remainder + _))
    by (unfold in_i; lia). cbn.
  eexists _, _. split; [done|]. split; [done|].
  destruct (quot_rem_bounds (rem_x remainder + rule_speed rules * ax) (denominator rules)) as (? & ? & _); [lia|].
  destruct (quot_rem_bounds (rem_y remainder + rule_speed rules * ay) (denominator rules)) as (? & ? & _); [lia|].
  unfold remainder_ok. cbn. lia.
Qed.

(** Every tick adds exactly its share, but for what the remainder carries. *)
Lemma integrate_all_exact rules inputs : rules_ok rules -> Forall input_ok inputs ->
  forall r0, remainder_ok rules r0 -> exists axes deltas r,
    map normalized_axes inputs = map Some axes /\
    integrate_all rules inputs r0 = Some (Ok (deltas, r)) /\ length deltas = length inputs /\
    remainder_ok rules r /\
    denominator rules * sum_by delta_x deltas + rem_x r = rem_x r0 + rule_speed rules * sum_by fst axes /\
    denominator rules * sum_by delta_y deltas + rem_y r = rem_y r0 + rule_speed rules * sum_by snd axes.
Proof.
  intros Hok. induction 1 as [|i inputs Hi _ IH]; intros r0 Hr0.
  - exists [], [], r0. cbn. split_goals; try done; lia.
  - destruct (integrate_spec rules i r0 Hok Hi Hr0) as (ax & ay & d & r1 & E1 & E2 & Hr1 & Hx & Hy).
    destruct (IH r1 Hr1) as (axes & ds & r & E3 & E4 & E5 & Hr & Hx' & Hy').
    exists ((ax, ay) :: axes), (d :: ds), r. cbn [map integrate_all]. rewrite E1, E2, E3. cbn. rewrite E4. cbn.
    split_goals; try done; [by rewrite E5|unfold sum_by in *; lia..].
Qed.

(** Integration is exact.  With valid settings and inputs no tick ever
    overflows or fails, the carried remainder stays below a millimetre, and
    after any number of ticks the distance travelled on each axis differs from
    speed times the normalised input, integrated over time, by less than one
    millimetre: rounding never accumulates. *)
Theorem integration_exact (settings : CharacterMovementSettings) (hz : Z) (rules : MovementRules)
    (inputs : list MovementInput) :
  in_u 32 (speed_mm_per_second settings) -> in_u 32 hz -> rules_new settings hz = Ok rules ->
  Forall input_ok inputs ->
  exists axes deltas r, map normalized_axes inputs = map Some axes /\
    integrate_all rules inputs (mk_rem 0 0) = Some (Ok (deltas, r)) /\
    length deltas = length inputs /\ remainder_ok rules r /\
    Z.abs (MOVEMENT_AXIS_SCALE * hz * sum_by delta_x deltas
           - speed_mm_per_second settings * sum_by fst axes) < MOVEMENT_AXIS_SCALE * hz /\
    Z.abs (MOVEMENT_AXIS_SCALE * hz * sum_by delta_y deltas
           - speed_mm_per_second settings * sum_by snd axes) < MOVEMENT_AXIS_SCALE * hz.
Proof.
  intros Hs Hz Hr Hin. destruct (rules_new_ok _ _ _ Hs Hz Hr) as (Hok & Hsp & Hden).
  destruct (integrate_all_exact rules inputs Hok Hin (mk_rem 0 0)) as (axes & ds & r & H1 & H2 & H3 & H4 & H5 & H6).
  { unfold remainder_ok, rules_ok in *. cbn. lia. }
  exists axes, ds, r. rewrite <- Hden, <- Hsp. destruct H4 as [H4 H4']. cbn in H5, H6.
  split_goals; try done; lia.
Qed.

Lemma integration_exact_witness :
  exists rules deltas r, rules_new (mk_settings 5000 5 250) 20 = Ok rules /\
    integrate_all rules (replicate 20 (mk_input 32767 0)) (mk_rem 0 0) = Some (Ok (deltas, r)) /\
    length deltas = 20%nat /\ sum_by delta_x deltas = 5000 /\ remainder_ok rules r.
Proof.
  exists (mk_rules 5000 655340 5 250).
  assert (rules_new (mk_settings 5000 5 250) 20 = Ok (mk_rules 5000 655340 5 250)) as Hr by reflexivity.
  destruct (integration_exact (mk_settings 5000 5 250) 20 (mk_rules 5000 655340 5 250) (replicate 20 (mk_input 32767 0)))
    as (axes & ds & r & _ & E & Hl & Hrem & _); [done|done|exact Hr| |].
  - apply Forall_replicate. unfold input_ok. cbn. lia.
  - exists ds, r. split; [exact Hr|]. split; [exact E|]. split; [exact Hl|]. split; [|exact Hrem].
    vm_compute in E. injection E as <- _. reflexivity.
Defined.
