(* ===== verification/Traversal.v ===== *)
(** * Traversal of static blockers

    [crates/simulation/src/traversal.rs]: axis-aligned blockers, widened by the
    character's radius, stop a horizontal move, first along X and then along Y. *)

From S2P Require Import Prelude Core Movement.
Import World.

Record StaticTraversalBlocker := mk_blocker {
  min_x_mm : Z; max_x_mm : Z; min_y_mm : Z; max_y_mm : Z
}.

(** The messages of the source's errors. *)
Inductive TraversalError :=
| InvalidBlockerX | InvalidBlockerY | InvalidRadius | ExpandedOverflow | OverlapsBlocker
| CandidateOverflowX | CandidateOverflowY | DeltaOverflowX | DeltaOverflowY.

Definition blocker_new (x0 x1 y0 y1 : Z) : result TraversalError StaticTraversalBlocker :=
  if decide (x0 >= x1) then Err InvalidBlockerX
  else if decide (y0 >= y1) then Err InvalidBlockerY
  else Ok (mk_blocker x0 x1 y0 y1).

Record TraversalWorld := mk_traversal { static_blockers : list StaticTraversalBlocker }.

Definition add_static_blocker (w : TraversalWorld) (b : StaticTraversalBlocker) : TraversalWorld :=
  mk_traversal (static_blockers w ++ [b]).

Record ExpandedBlocker := mk_expanded { min_x : Z; max_x : Z; min_y : Z; max_y : Z }.

Definition validate_radius (radius_mm : Z) : result TraversalError unit :=
  if decide (radius_mm <= 0) then Err InvalidRadius else Ok tt.

Definition expanded_new (b : StaticTraversalBlocker) (radius_mm : Z) : result TraversalError ExpandedBlocker :=
  _ ← validate_radius radius_mm;
  x0 ← ok_or ExpandedOverflow (checked_i 64 (min_x_mm b - radius_mm));
  x1 ← ok_or ExpandedOverflow (checked_i 64 (max_x_mm b + radius_mm));
  y0 ← ok_or ExpandedOverflow (checked_i 64 (min_y_mm b - radius_mm));
  y1 ← ok_or ExpandedOverflow (checked_i 64 (max_y_mm b + radius_mm));
  Ok (mk_expanded x0 x1 y0 y1).

Definition contains_x_strict (e : ExpandedBlocker) (x : Z) : bool := bool_decide (x > min_x e /\ x < max_x e).
Definition contains_y_strict (e : ExpandedBlocker) (y : Z) : bool := bool_decide (y > min_y e /\ y < max_y e).
Definition contains_strict (e : ExpandedBlocker) (x y : Z) : bool :=
  contains_x_strict e x && contains_y_strict e y.

Fixpoint check_blockers (l : list StaticTraversalBlocker) (x y radius : Z) : result TraversalError unit :=
  match l with
  | [] => Ok tt
  | b :: l =>
      expanded ← expanded_new b radius;
      if contains_strict expanded x y then Err OverlapsBlocker else check_blockers l x y radius
  end.

Definition validate_placement (w : TraversalWorld) (p : WorldPositionMm) (radius : Z) : result TraversalError unit :=
  _ ← validate_radius radius; check_blockers (static_blockers w) (px p) (py p) radius.

Fixpoint resolve_x_loop (l : list StaticTraversalBlocker) (current_x desired_x y radius resolved : Z)
  : result TraversalError Z :=
  match l with
  | [] => Ok resolved
  | b :: l =>
      expanded ← expanded_new b radius;
      if negb (contains_y_strict expanded y) then resolve_x_loop l current_x desired_x y radius resolved
      else
        let resolved :=
          if decide (desired_x > current_x /\ current_x <= min_x expanded /\ desired_x > min_x expanded)
          then Z.min resolved (min_x expanded)
          else if decide (desired_x < current_x /\ current_x >= max_x expanded /\ desired_x < max_x expanded)
          then Z.max resolved (max_x expanded) else resolved in
        resolve_x_loop l current_x desired_x y radius resolved
  end.

Definition resolve_x (w : TraversalWorld) (current_x desired_x y radius : Z) : result TraversalError Z :=
  resolve_x_loop (static_blockers w) current_x desired_x y radius desired_x.

Fixpoint resolve_y_loop (l : list StaticTraversalBlocker) (current_y desired_y x radius resolved : Z)
  : result TraversalError Z :=
  match l with
  | [] => Ok resolved
  | b :: l =>
      expanded ← expanded_new b radius;
      if negb (contains_x_strict expanded x) then resolve_y_loop l current_y desired_y x radius resolved
      else
        let resolved :=
          if decide (desired_y > current_y /\ current_y <= min_y expanded /\ desired_y > min_y expanded)
          then Z.min resolved (min_y expanded)
          else if decide (desired_y < current_y /\ current_y >= max_y expanded /\ desired_y < max_y expanded)
          then Z.max resolved (max_y expanded) else resolved in
        resolve_y_loop l current_y desired_y x radius resolved
  end.

Definition resolve_y (w : TraversalWorld) (current_y desired_y x radius : Z) : result TraversalError Z :=
  resolve_y_loop (static_blockers w) current_y desired_y x radius desired_y.

Record TraversalResolution := mk_resolution {
  position : WorldPositionMm; desired : MovementDeltaMm; actual : MovementDeltaMm;
  constrained_x : bool; constrained_y : bool
}.

Definition resolve_horizontal (w : TraversalWorld) (p : WorldPositionMm) (d : MovementDeltaMm) (radius : Z)
  : result TraversalError TraversalResolution :=
  _ ← validate_placement w p radius;
  desired_x ← ok_or CandidateOverflowX (checked_i 64 (px p + delta_x d));
  resolved_x ← resolve_x w (px p) desired_x (py p) radius;
  desired_y ← ok_or CandidateOverflowY (checked_i 64 (py p + delta_y d));
  resolved_y ← resolve_y w (py p) desired_y resolved_x radius;
  let resolved := mk_pos resolved_x resolved_y (pz p) in
  _ ← validate_placement w resolved radius;
  ax ← ok_or DeltaOverflowX (checked_i 64 (resolved_x - px p));
  ay ← ok_or DeltaOverflowY (checked_i 64 (resolved_y - py p));
  Ok (mk_resolution resolved d (mk_delta ax ay)
        (bool_decide (ax <> delta_x d)) (bool_decide (ay <> delta_y d))).

(** ** The expanded blockers *)

Definition expand (radius : Z) (b : StaticTraversalBlocker) : ExpandedBlocker :=
  mk_expanded (min_x_mm b - radius) (max_x_mm b + radius) (min_y_mm b - radius) (max_y_mm b + radius).

(** A blocker whose widened bounds are 64-bit numbers. *)
Definition blocker_fits (radius : Z) (b : StaticTraversalBlocker) : Prop :=
  in_i 64 (min_x_mm b - radius) /\ in_i 64 (max_x_mm b + radius) /\
  in_i 64 (min_y_mm b - radius) /\ in_i 64 (max_y_mm b + radius).

Lemma expanded_new_ok radius b : 0 < radius -> blocker_fits radius b ->
  expanded_new b radius = Ok (expand radius b).
Proof.
  intros Hr (H1 & H2 & H3 & H4). unfold expanded_new, validate_radius. rewrite decide_False by lia. cbn.
  by rewrite !checked_i_in by done.
Qed.

Definition free (radius : Z) (l : list StaticTraversalBlocker) (x y : Z) : Prop :=
  Forall (fun b => contains_strict (expand radius b) x y = false) l.

Lemma check_blockers_ok radius l x y : 0 < radius -> Forall (blocker_fits radius) l ->
  check_blockers l x y radius = Ok tt <-> free radius l x y.
Proof.
  intros Hr Hl. unfold free. induction Hl as [|b l Hb _ IH]; cbn; [split; [constructor|done]|].
  rewrite expanded_new_ok by done. cbn. rewrite list.Forall_cons, <- IH.
  destruct (contains_strict _ _ _); naive_solver.
Qed.

Lemma validate_placement_ok radius w p : 0 < radius -> Forall (blocker_fits radius) (static_blockers w) ->
  validate_placement w p radius = Ok tt <-> free radius (static_blockers w) (px p) (py p).
Proof.
  intros Hr Hl. unfold validate_placement, validate_radius. rewrite decide_False by lia. cbn.
  by apply check_blockers_ok.
Qed.

(** ** One axis

    Both loops clamp the target against the intervals [(lo, hi)] of the blockers
    whose other side contains the fixed coordinate. *)

Definition clamp (c t r lo hi : Z) : Z :=
  if decide (t > c /\ c <= lo /\ t > lo) then Z.min r lo
  else if decide (t < c /\ c >= hi /\ t < hi) then Z.max r hi else r.

Definition clamp_all (c t : Z) (l : list (Z * Z)) (r : Z) : Z :=
  foldl (fun r i => clamp c t r i.1 i.2) r l.

Definition band_x radius l y : list (Z * Z) :=
  (fun b => (min_x (expand radius b), max_x (expand radius b))) <$>
  filter (fun b => contains_y_strict (expand radius b) y = true) l.
Definition band_y radius l x : list (Z * Z) :=
  (fun b => (min_y (expand radius b), max_y (expand radius b))) <$>
  filter (fun b => contains_x_strict (expand radius b) x = true) l.

Lemma resolve_x_loop_eq radius l c t y r : 0 < radius -> Forall (blocker_fits radius) l ->
  resolve_x_loop l c t y radius r = Ok (clamp_all c t (band_x radius l y) r).
Proof.
  intros Hr Hl. revert r. induction Hl as [|b l Hb _ IH]; intros r; cbn [resolve_x_loop]; [done|].
  rewrite expanded_new_ok by done. unfold mbind, result_bind. unfold band_x. rewrite list.filter_cons.
  destruct (contains_y_strict (expand radius b) y); cbn [negb].
  - rewrite (decide_True (P := true = true)) by done. by rewrite IH.
  - rewrite (decide_False (P := false = true)) by done. by rewrite IH.
Qed.

Lemma resolve_y_loop_eq radius l c t x r : 0 < radius -> Forall (blocker_fits radius) l ->
  resolve_y_loop l c t x radius r = Ok (clamp_all c t (band_y radius l x) r).
Proof.
  intros Hr Hl. revert r. induction Hl as [|b l Hb _ IH]; intros r; cbn [resolve_y_loop]; [done|].
  rewrite expanded_new_ok by done. unfold mbind, result_bind. unfold band_y. rewrite list.filter_cons.
  destruct (contains_x_strict (expand radius b) x); cbn [negb].
  - rewrite (decide_True (P := true = true)) by done. by rewrite IH.
  - rewrite (decide_False (P := false = true)) by done. by rewrite IH.
Qed.

Lemma clamp_all_right c t l r : c < t -> c <= r <= t ->
  let r' := clamp_all c t l r in
  c <= r' <= r /\ (forall i, i ∈ l -> c <= i.1 < t -> r' <= i.1) /\
  (r' <> r -> exists i, i ∈ l /\ r' = i.1).
Proof.
  intros Hct. revert r. induction l as [|j l IH]; intros r Hr.
  { cbn. split; [lia|]. split; [intros i []%not_elem_of_nil|done]. }
  change (clamp_all c t (j :: l) r) with (clamp_all c t l (clamp c t r j.1 j.2)).
  assert (clamp c t r j.1 j.2 = if decide (c <= j.1 < t) then Z.min r j.1 else r) as E.
  { unfold clamp. repeat case_decide; lia. }
  rewrite E. clear E. case_decide as Hj.
  - destruct (IH (Z.min r j.1) ltac:(lia)) as (H1 & H2 & H3). cbn zeta in *. split; [lia|]. split.
    + intros i [->|Hi]%list.elem_of_cons Hb; [lia|by apply H2].
    + intros Hne. destruct (decide (clamp_all c t l (Z.min r j.1) = Z.min r j.1)) as [E|E].
      * exists j. split; [by left|lia].
      * destruct (H3 E) as (i & ? & ?). exists i. split; [by right|done].
  - destruct (IH r Hr) as (H1 & H2 & H3). split; [done|]. split.
    + intros i [->|Hi]%list.elem_of_cons Hb; [done|by apply H2].
    + intros Hne. destruct (H3 Hne) as (i & ? & ?). exists i. split; [by right|done].
Qed.

Lemma clamp_all_left c t l r : t < c -> t <= r <= c ->
  let r' := clamp_all c t l r in
  r <= r' <= c /\ (forall i, i ∈ l -> t < i.2 <= c -> i.2 <= r') /\
  (r' <> r -> exists i, i ∈ l /\ r' = i.2).
Proof.
  intros Hct. revert r. induction l as [|j l IH]; intros r Hr.
  { cbn. split; [lia|]. split; [intros i []%not_elem_of_nil|done]. }
  change (clamp_all c t (j :: l) r) with (clamp_all c t l (clamp c t r j.1 j.2)).
  assert (clamp c t r j.1 j.2 = if decide (t < j.2 <= c) then Z.max r j.2 else r) as E.
  { unfold clamp. repeat case_decide; lia. }
  rewrite E. clear E. case_decide as Hj.
  - destruct (IH (Z.max r j.2) ltac:(lia)) as (H1 & H2 & H3). cbn zeta in *. split; [lia|]. split.
    + intros i [->|Hi]%list.elem_of_cons Hb; [lia|by apply H2].
    + intros Hne. destruct (decide (clamp_all c t l (Z.max r j.2) = Z.max r j.2)) as [E|E].
      * exists j. split; [by left|lia].
      * destruct (H3 E) as (i & ? & ?). exists i. split; [by right|done].
  - destruct (IH r Hr) as (H1 & H2 & H3). split; [done|]. split.
    + intros i [->|Hi]%list.elem_of_cons Hb; [done|by apply H2].
    + intros Hne. destruct (H3 Hne) as (i & ? & ?). exists i. split; [by right|done].
Qed.

Lemma clamp_all_stay c l r : clamp_all c c l r = r.
Proof.
  revert r. induction l as [|j l IH]; intros r; [done|].
  change (clamp_all c c (j :: l) r) with (clamp_all c c l (clamp c c r j.1 j.2)). rewrite IH.
  unfold clamp. repeat case_decide; lia.
Qed.

(** The clamped target lies between the start and the target, the way to it
    enters none of the intervals, and it falls short of the target only at the
    edge of one of them. *)
Lemma clamp_all_spec c t l : (forall i, i ∈ l -> ~ (i.1 < c < i.2)) ->
  let r := clamp_all c t l t in
  (c <= r <= t \/ t <= r <= c) /\
  (forall i s, i ∈ l -> c <= s <= r \/ r <= s <= c -> ~ (i.1 < s < i.2)) /\
  (r <> t -> exists i, i ∈ l /\ (r = i.1 \/ r = i.2)).
Proof.
  intros Hout r. destruct (Z.lt_total c t) as [Hct|[->|Hct]].
  - destruct (clamp_all_right c t l t Hct ltac:(lia)) as (H1 & H2 & H3). fold r in H1, H2, H3.
    split; [lia|]. split.
    + intros i s Hi Hs Hin. specialize (Hout i Hi). specialize (H2 i Hi). lia.
    + intros Hne. destruct (H3 Hne) as (i & ? & ?). exists i. auto.
  - unfold r. rewrite clamp_all_stay. split; [lia|]. split; [|done].
    intros i s Hi Hs. replace s with t by lia. by apply Hout.
  - destruct (clamp_all_left c t l t Hct ltac:(lia)) as (H1 & H2 & H3). fold r in H1, H2, H3.
    split; [lia|]. split.
    + intros i s Hi Hs Hin. specialize (Hout i Hi). specialize (H2 i Hi). lia.
    + intros Hne. destruct (H3 Hne) as (i & ? & ?). exists i. auto.
Qed.

Lemma contains_split e x y : contains_strict e x y = false <->
  ~ (min_x e < x < max_x e /\ min_y e < y < max_y e).
Proof.
  unfold contains_strict, contains_x_strict, contains_y_strict.
  rewrite andb_false_iff, !bool_decide_eq_false. split; [lia|]. intros H.
  destruct (decide (x > min_x e /\ x < max_x e)); [right|left]; lia.
Qed.

Lemma axis_x_spec radius l c t y : free radius l c y ->
  let r := clamp_all c t (band_x radius l y) t in
  (c <= r <= t \/ t <= r <= c) /\
  (forall s, c <= s <= r \/ r <= s <= c -> free radius l s y) /\
  (r <> t -> exists b, b ∈ l /\ (r = min_x_mm b - radius \/ r = max_x_mm b + radius)).
Proof.
  unfold free. intros Hf. rewrite list.Forall_forall in Hf.
  destruct (clamp_all_spec c t (band_x radius l y)) as (H1 & H2 & H3).
  { intros i (b & -> & [Hy Hb]%list_elem_of_filter)%list_elem_of_fmap. cbn.
    specialize (Hf b Hb). apply contains_split in Hf. apply bool_decide_eq_true in Hy. cbn in *. lia. }
  split; [done|]. split.
  - intros s Hs. apply list.Forall_forall. intros b Hb. apply contains_split. intros [Hx Hy].
    apply (H2 (min_x (expand radius b), max_x (expand radius b)) s); [|done|done].
    apply list_elem_of_fmap. exists b. split; [done|]. apply list_elem_of_filter. split; [|done].
    apply bool_decide_eq_true. lia.
  - intros Hne. destruct (H3 Hne) as (i & (b & -> & [_ Hb]%list_elem_of_filter)%list_elem_of_fmap & Hi).
    by exists b.
Qed.

Lemma axis_y_spec radius l x c t : free radius l x c ->
  let r := clamp_all c t (band_y radius l x) t in
  (c <= r <= t \/ t <= r <= c) /\
  (forall s, c <= s <= r \/ r <= s <= c -> free radius l x s) /\
  (r <> t -> exists b, b ∈ l /\ (r = min_y_mm b - radius \/ r = max_y_mm b + radius)).
Proof.
  unfold free. intros Hf. rewrite list.Forall_forall in Hf.
  destruct (clamp_all_spec c t (band_y radius l x)) as (H1 & H2 & H3).
  { intros i (b & -> & [Hx Hb]%list_elem_of_filter)%list_elem_of_fmap. cbn.
    specialize (Hf b Hb). apply contains_split in Hf. apply bool_decide_eq_true in Hx. cbn in *. lia. }
  split; [done|]. split.
  - intros s Hs. apply list.Forall_forall. intros b Hb. apply contains_split. intros [Hx Hy].
    apply (H2 (min_y (expand radius b), max_y (expand radius b)) s); [|done|done].
    apply list_elem_of_fmap. exists b. split; [done|]. apply list_elem_of_filter. split; [|done].
    apply bool_decide_eq_true. lia.
  - intros Hne. destruct (H3 Hne) as (i & (b & -> & [_ Hb]%list_elem_of_filter)%list_elem_of_fmap & Hi).
    by exists b.
Qed.

Lemma resolve_horizontal_spec (w : TraversalWorld) (p : WorldPositionMm) (d : MovementDeltaMm) (radius : Z) :
  0 < radius -> Forall (blocker_fits radius) (static_blockers w) -> pos_ok p ->
  in_i 64 (delta_x d) -> in_i 64 (delta_y d) ->
  in_i 64 (px p + delta_x d) -> in_i 64 (py p + delta_y d) ->
  free radius (static_blockers w) (px p) (py p) ->
  exists res, resolve_horizontal w p d radius = Ok res /\
    let q := position res in
    pz q = pz p /\ px q = px p + delta_x (actual res) /\ py q = py p + delta_y (actual res) /\
    (0 <= delta_x (actual res) <= delta_x d \/ delta_x d <= delta_x (actual res) <= 0) /\
    (0 <= delta_y (actual res) <= delta_y d \/ delta_y d <= delta_y (actual res) <= 0) /\
    (forall s, px p <= s <= px q \/ px q <= s <= px p -> free radius (static_blockers w) s (py p)) /\
    (forall s, py p <= s <= py q \/ py q <= s <= py p -> free radius (static_blockers w) (px q) s) /\
    (constrained_x res = true <-> delta_x (actual res) <> delta_x d) /\
    (constrained_y res = true <-> delta_y (actual res) <> delta_y d) /\
    (constrained_x res = true -> exists b, b ∈ static_blockers w /\
       (px q = min_x_mm b - radius \/ px q = max_x_mm b + radius)) /\
    (constrained_y res = true -> exists b, b ∈ static_blockers w /\
       (py q = min_y_mm b - radius \/ py q = max_y_mm b + radius)).
Proof.
  intros Hr Hl (Hpx & Hpy & Hpz) Hdx Hdy Htx Hty Hfree. unfold resolve_horizontal.
  rewrite (proj2 (validate_placement_ok radius w p Hr Hl)) by done.
  set (l := static_blockers w) in *. unfold resolve_x, resolve_y. fold l.
  destruct (axis_x_spec radius l (px p) (px p + delta_x d) (py p) Hfree) as (X1 & X2 & X3).
  set (rx := clamp_all (px p) (px p + delta_x d) (band_x radius l (py p)) (px p + delta_x d)) in *.
  assert (free radius l rx (py p)) as Hfree2 by (apply X2; lia).
  destruct (axis_y_spec radius l rx (py p) (py p + delta_y d) Hfree2) as (Y1 & Y2 & Y3).
  set (ry := clamp_all (py p) (py p + delta_y d) (band_y radius l rx) (py p + delta_y d)) in *.
  assert (free radius l rx ry) as Hfree3 by (apply Y2; lia).
  unfold mbind, result_bind. rewrite checked_i_in by done. cbn [ok_or].
  rewrite resolve_x_loop_eq by done. fold rx. rewrite checked_i_in by done. cbn [ok_or].
  rewrite resolve_y_loop_eq by done. fold ry.
  rewrite (proj2 (validate_placement_ok radius w (mk_pos rx ry (pz p)) Hr Hl)) by done.
  unfold in_i in *. rewrite !checked_i_in by (unfold in_i; lia). cbn [ok_or].
  eexists. split; [done|]. cbn. rewrite !bool_decide_eq_true.
  split_goals; try done; try lia.
  - intros Hne. apply X3. lia.
  - intros Hne. apply Y3. lia.
Qed.

(** C38: a move through static blockers is always resolved, never tunnels and
    never ends inside one.  From a free position, with a positive radius, and a
    target and widened blockers that 64 bits can hold, the resolution succeeds; every point of the way it takes, first
    along X and then along Y, is free of every blocker widened by the
    character's radius; on each axis it goes towards the target and not past
    it, at unchanged height; it reports the distance really covered, and an
    axis is constrained only if the character stopped at the edge of a
    blocker. *)
Theorem traversal_never_penetrates (w : TraversalWorld) (p : WorldPositionMm) (d : MovementDeltaMm) (radius : Z) :
  0 < radius -> Forall (blocker_fits radius) (static_blockers w) -> pos_ok p ->
  in_i 64 (delta_x d) -> in_i 64 (delta_y d) ->
  in_i 64 (px p + delta_x d) -> in_i 64 (py p + delta_y d) ->
  free radius (static_blockers w) (px p) (py p) ->
  exists res, resolve_horizontal w p d radius = Ok res /\
    let q := position res in
    pz q = pz p /\ px q = px p + delta_x (actual res) /\ py q = py p + delta_y (actual res) /\
    (0 <= delta_x (actual res) <= delta_x d \/ delta_x d <= delta_x (actual res) <= 0) /\
    (0 <= delta_y (actual res) <= delta_y d \/ delta_y d <= delta_y (actual res) <= 0) /\
    (forall s, px p <= s <= px q \/ px q <= s <= px p -> free radius (static_blockers w) s (py p)) /\
    (forall s, py p <= s <= py q \/ py q <= s <= py p -> free radius (static_blockers w) (px q) s) /\
    (constrained_x res = true <-> delta_x (actual res) <> delta_x d) /\
    (constrained_y res = true <-> delta_y (actual res) <> delta_y d) /\
    (constrained_x res = true -> exists b, b ∈ static_blockers w /\
       (px q = min_x_mm b - radius \/ px q = max_x_mm b + radius)) /\
    (constrained_y res = true -> exists b, b ∈ static_blockers w /\
       (py q = min_y_mm b - radius \/ py q = max_y_mm b + radius)).
Proof. apply resolve_horizontal_spec. Qed.

Lemma traversal_never_penetrates_witness :
  let w := add_static_blocker (mk_traversal []) (mk_blocker 1000 2000 (-500) 500) in
  let p := mk_pos 0 0 7 in
  exists res, resolve_horizontal w p (mk_delta 5000 300) 250 = Ok res /\
    position res = mk_pos 750 300 7 /\ constrained_x res = true /\ constrained_y res = false /\
    free 250 (static_blockers w) 750 0.
Proof.
  intros w p.
  assert (Forall (blocker_fits 250) (static_blockers w)) as Hl.
  { apply list.Forall_singleton. unfold blocker_fits, in_i. cbn. lia. }
  destruct (traversal_never_penetrates w p (mk_delta 5000 300) 250) as (res & E & H);
    [lia|exact Hl|unfold pos_ok, in_i; cbn; lia|unfold in_i; cbn; lia..| |].
  - apply list.Forall_singleton. vm_compute. reflexivity.
  - exists res. split; [exact E|]. destruct H as (_ & _ & _ & _ & _ & H & _).
    assert (position res = mk_pos 750 300 7 /\ constrained_x res = true /\ constrained_y res = false)
      as (E1 & E2 & E3) by (vm_compute in E; injection E as <-; repeat split; reflexivity).
    rewrite E1 in H. split; [exact E1|]. split; [exact E2|]. split; [exact E3|].
    apply (H 750). cbn. lia.
Defined.
