(* ===== verification/Character.v ===== *)
(** * The state of a character

    [crates/simulation/src/character.rs]: one character that owns his input, his
    containers and his place.  The zone keeps its characters in the components of
    [Ecs] instead, and the module is compiled with [allow(dead_code)]. *)

From S2P Require Import Prelude F32 Core Movement Traversal Containers Encumbrance.
Import World.

(** [x.round() as i64]: the nearest integer, ties away from zero. *)
Definition round_as_i64 (x : F32.f32) : Z :=
  match x with
  | S754_nan | S754_zero _ => 0
  | S754_infinity s => if s then - 2 ^ 63 else 2 ^ 63 - 1
  | S754_finite s m e =>
      let magnitude := if decide (0 <= e) then Z.pos m * 2 ^ e else (2 * Z.pos m + 2 ^ (- e)) / 2 ^ (- e + 1) in
      F32.clamp_i64 (if s then - magnitude else magnitude)
  end.

Inductive CharacterError :=
  | UnassignedCharacterId | NonMonotonicSequence | StaleReceiveTick | TickNotAfter
  | NoReceiveTick | ReceiveTickAhead | NoSequence | IntegrateError (e : MovementError) | TraversalFailed (e : TraversalError).

Record CharacterStepOutcome := mk_outcome { traversal : TraversalResolution; expired_sequence : option Z }.

Record CharacterState := mk_character {
  character_id : Z;
  at_position : WorldPositionMm;
  movement_input : MovementInput;
  last_input_sequence : option Z;
  last_input_tick : option Z;
  movement_remainder : MovementRemainder;
  last_simulated_tick : Z;
  containers : CharacterContainersComponent
}.

Definition spawn (character_id : Z) (position : WorldPositionMm) (spawn_tick : Z) : result CharacterError CharacterState :=
  if decide (character_id = 0) then Err UnassignedCharacterId
  else Ok (mk_character character_id position ZERO None None (mk_rem 0 0) spawn_tick (default_starting 30000)).

Definition active_movement_sequence (s : CharacterState) : option Z :=
  if is_zero (movement_input s) then None else last_input_sequence s.

Definition with_containers (s : CharacterState) (c : CharacterContainersComponent) : CharacterState :=
  mk_character (character_id s) (at_position s) (movement_input s) (last_input_sequence s) (last_input_tick s)
    (movement_remainder s) (last_simulated_tick s) c.

Definition apply_movement_input (s : CharacterState) (sequence : Z) (input : MovementInput) (received_tick : Z)
  : CharacterState * result CharacterError unit :=
  if match last_input_sequence s with Some previous => bool_decide (sequence <= previous) | None => false end
  then (s, Err NonMonotonicSequence)
  else if decide (received_tick < last_simulated_tick s) then (s, Err StaleReceiveTick)
  else (mk_character (character_id s) (at_position s) input (Some sequence) (Some received_tick)
          (if is_zero input then mk_rem 0 0 else movement_remainder s) (last_simulated_tick s) (containers s), Ok tt).

Definition expire_stale_input (s : CharacterState) (tick : Z) (rules : MovementRules)
  : CharacterState * result CharacterError (option Z) :=
  if is_zero (movement_input s) then (s, Ok None)
  else match last_input_tick s with
  | None => (s, Err NoReceiveTick)
  | Some received_tick =>
      match checked_u 64 (tick - received_tick) with
      | None => (s, Err ReceiveTickAhead)
      | Some age_ticks =>
          if decide (age_ticks < rule_input_timeout_ticks rules) then (s, Ok None)
          else match last_input_sequence s with
          | None => (s, Err NoSequence)
          | Some sequence =>
              (mk_character (character_id s) (at_position s) ZERO (last_input_sequence s) (last_input_tick s)
                 (mk_rem 0 0) (last_simulated_tick s) (containers s), Ok (Some sequence))
          end
      end
  end.

Definition weighted (speed_multiplier : F32.f32) (d : Z) : Z := round_as_i64 (F32.mul (F32.of_Z d) speed_multiplier).

(** [fuel] and [values] are those of the weighing; [None] says the fuel was not enough.  An error leaves what was
    written before it. *)
Definition simulate_tick (fuel : nat) (values : list ContainerInstance) (s : CharacterState) (tick : Z) (rules : MovementRules)
    (resolve_traversal : WorldPositionMm -> MovementDeltaMm -> result TraversalError TraversalResolution)
  : option (CharacterState * result CharacterError CharacterStepOutcome) :=
  if decide (tick <= last_simulated_tick s) then Some (s, Err TickNotAfter)
  else
    let '(s, expired) := expire_stale_input s tick rules in
    match expired with
    | Err e => Some (s, Err e)
    | Ok expired_sequence =>
        integrated ← integrate rules (movement_input s) (movement_remainder s);
        match integrated with
        | Err e => Some (s, Err (IntegrateError e))
        | Ok (desired_delta, remainder) =>
            let s := mk_character (character_id s) (at_position s) (movement_input s) (last_input_sequence s) (last_input_tick s)
              remainder (last_simulated_tick s) (containers s) in
            effects ← evaluate_movement_effects fuel values (containers s);
            let weighted_delta := mk_delta (weighted (speed_multiplier effects) (delta_x desired_delta))
              (weighted (speed_multiplier effects) (delta_y desired_delta)) in
            match resolve_traversal (at_position s) weighted_delta with
            | Err e => Some (s, Err (TraversalFailed e))
            | Ok traversal =>
                Some (mk_character (character_id s) (Traversal.position traversal) (movement_input s) (last_input_sequence s)
                        (last_input_tick s) (movement_remainder s) tick (containers s),
                      Ok (mk_outcome traversal expired_sequence))
            end
        end
    end.

(** ** What holds of every state *)

Record character_ok (rules : MovementRules) (s : CharacterState) : Prop := {
  co_id : character_id s <> 0;
  co_input : input_ok (movement_input s);
  co_remainder : remainder_ok rules (movement_remainder s);
  co_still : is_zero (movement_input s) = true -> movement_remainder s = mk_rem 0 0;
  co_received : is_zero (movement_input s) = false ->
    exists sequence received, last_input_sequence s = Some sequence /\ last_input_tick s = Some received /\ in_u 64 received
}.

(** A tree that can be weighed. *)
Record carried_ok (fuel : nat) (values : list ContainerInstance) (c : CharacterContainersComponent) : Prop := {
  ca_acyclic : acyclic (tree c);
  ca_keyed : keyed (tree c);
  ca_fuel : (size (Containers.containers (tree c)) < fuel)%nat;
  ca_values : enumerates values (tree c);
  ca_root : exists root b, root_id (tree c) = Some root /\ Containers.containers (tree c) !! root = Some b
}.

Lemma effects_defined fuel values c : carried_ok fuel values c -> exists t, evaluate_movement_effects fuel values c = Some (from_tier t).
Proof.
  intros [Hac Hk Hf Hv (root & b & Hr & Hb)].
  destruct (container_weight_correct_aux (tree c) Hac Hk fuel values root b Hf Hv Hb) as (w & Hw & _).
  unfold evaluate_movement_effects, current_tier, get_encumbrance_tier, calculate_total_weight. rewrite Hr, Hw. by eexists.
Qed.

(** Up to a metre a tick, no load lengthens a step, and the lightest leaves it as it is. *)
Definition small_steps : list Z := map (fun n => Z.of_nat n - 1000) (seq 0 2001).

Lemma small_steps_all d : Z.abs d <= 1000 -> d ∈ small_steps.
Proof.
  intros Hd. apply list_elem_of_fmap. exists (Z.to_nat (d + 1000)). rewrite Z2Nat.id by lia. split; [lia|].
  apply elem_of_seq. lia.
Qed.

(** The part of the speed left by a load, in percent, and a distance scaled to it: rounded to the nearest
    millimetre, halves away from zero. *)
Definition load_percent (t : EncumbranceTier) : Z :=
  match t with Light => 100 | Medium => 90 | Heavy => 60 | Overburdened => 25 end.
Definition scaled (t : EncumbranceTier) (d : Z) : Z := Z.sgn d * ((2 * (Z.abs d * load_percent t) + 100) / 200).

Definition weighted_fine (t : EncumbranceTier) (d : Z) : bool :=
  bool_decide (weighted (speed_multiplier (from_tier t)) d = scaled t d).

Lemma weighted_fine_all : forallb (fun t => forallb (weighted_fine t) small_steps) [Light; Medium; Heavy; Overburdened] = true.
Proof. by vm_compute. Qed.

Lemma weighted_spec t d : Z.abs d <= 1000 -> weighted (speed_multiplier (from_tier t)) d = scaled t d.
Proof.
  intros Hd. pose proof weighted_fine_all as H. rewrite forallb_forall in H.
  assert (In t [Light; Medium; Heavy; Overburdened]) as Ht by (destruct t; cbn; tauto). specialize (H t Ht). rewrite forallb_forall in H.
  specialize (H d). rewrite <- list_elem_of_In in H. specialize (H (small_steps_all d Hd)).
  by apply bool_decide_eq_true in H.
Qed.

Lemma scaled_shorter t d : Z.abs (scaled t d) <= Z.abs d /\ 0 <= scaled t d * d /\ (t = Light -> scaled t d = d).
Proof.
  unfold scaled. set (m := (2 * (Z.abs d * load_percent t) + 100) / 200).
  assert (0 <= m <= Z.abs d) as Hm by (unfold m; destruct t; cbn [load_percent]; Z.to_euclidean_division_equations; lia).
  assert (t = Light -> m = Z.abs d) as Hl by (intros ->; unfold m; cbn [load_percent]; Z.to_euclidean_division_equations; lia).
  clearbody m. destruct (Z.sgn_spec d) as [[? ->]|[[? ->]|[? ->]]]; split_goals; try lia; try nia; intros Ht; specialize (Hl Ht); lia.
Qed.

Lemma integrate_still rules : rules_ok rules -> integrate rules ZERO (mk_rem 0 0) = Some (Ok (mk_delta 0 0, mk_rem 0 0)).
Proof.
  intros _. unfold integrate. change (normalized_axes ZERO) with (Some (0, 0)). cbn. by rewrite !Z.mul_0_r.
Qed.

Lemma is_zero_ZERO i : is_zero i = true -> i = ZERO.
Proof. destruct i as [x y]. unfold is_zero. intros [? ?]%bool_decide_eq_true. cbn in *. by subst. Qed.

(** The input of the last message is out of date at a tick. *)
Definition stale (rules : MovementRules) (s : CharacterState) (tick : Z) : bool :=
  negb (is_zero (movement_input s)) && match last_input_tick s with Some t => bool_decide (rule_input_timeout_ticks rules <= tick - t) | None => false end.

Definition input_at (rules : MovementRules) (s : CharacterState) (tick : Z) : MovementInput := if stale rules s tick then ZERO else movement_input s.
Definition remainder_at (rules : MovementRules) (s : CharacterState) (tick : Z) : MovementRemainder :=
  if stale rules s tick then mk_rem 0 0 else movement_remainder s.

(** The input was received after the tick. *)
Definition ahead (s : CharacterState) (tick : Z) : bool :=
  negb (is_zero (movement_input s)) && match last_input_tick s with Some t => bool_decide (tick < t) | None => false end.

Lemma expire_stale_input_spec rules s tick : character_ok rules s -> in_u 64 tick ->
  expire_stale_input s tick rules =
    if ahead s tick then (s, Err ReceiveTickAhead)
    else (mk_character (character_id s) (at_position s) (input_at rules s tick) (last_input_sequence s) (last_input_tick s)
            (remainder_at rules s tick) (last_simulated_tick s) (containers s),
          Ok (if stale rules s tick then last_input_sequence s else None)).
Proof.
  intros [] Htick. unfold expire_stale_input, input_at, remainder_at, stale, ahead. destruct (is_zero (movement_input s)) eqn:Hz; cbn.
  { by destruct s. }
  destruct co_received0 as (q & t & Eq & Et & Ht); [done|]. rewrite Eq, Et. unfold in_u in *. case_bool_decide.
  - unfold checked_u, in_u. by rewrite decide_False by lia.
  - rewrite checked_u_in by (unfold in_u; lia). case_decide.
    + rewrite bool_decide_eq_false_2 by lia. destruct s; cbn in *; by subst.
    + rewrite bool_decide_eq_true_2 by lia. done.
Qed.

(** ** Runs of one character *)

Inductive CharacterOperation :=
  | Apply (sequence : Z) (input : MovementInput) (received_tick : Z)
  | Simulate (fuel : nat) (values : list ContainerInstance) (tick : Z)
      (resolve_traversal : WorldPositionMm -> MovementDeltaMm -> result TraversalError TraversalResolution)
  | Carry (c : CharacterContainersComponent).

Inductive character_step (rules : MovementRules) (s : CharacterState) : CharacterOperation -> CharacterState -> Prop :=
  | step_apply sequence input received_tick : input_ok input -> in_u 64 received_tick ->
      character_step rules s (Apply sequence input received_tick) (apply_movement_input s sequence input received_tick).1
  | step_simulate fuel values tick resolve s' r : carried_ok fuel values (containers s) -> in_u 64 tick ->
      simulate_tick fuel values s tick rules resolve = Some (s', r) ->
      character_step rules s (Simulate fuel values tick resolve) s'
  | step_carry c : character_step rules s (Carry c) (with_containers s c).

Inductive character_reached (rules : MovementRules) : CharacterState -> Prop :=
  | reached_spawn id position tick s : in_u 64 tick -> spawn id position tick = Ok s -> character_reached rules s
  | reached_step s o s' : character_reached rules s -> character_step rules s o s' -> character_reached rules s'.

(** The tick of a state: what was asked of the resolver, and what is kept. *)
Definition moved (rules : MovementRules) (s : CharacterState) (tick : Z) (place : WorldPositionMm) (remainder : MovementRemainder)
    (simulated : Z) : CharacterState :=
  mk_character (character_id s) place (input_at rules s tick) (last_input_sequence s) (last_input_tick s) remainder simulated (containers s).

Lemma input_at_ok rules s tick : character_ok rules s -> rules_ok rules ->
  input_ok (input_at rules s tick) /\ remainder_ok rules (remainder_at rules s tick) /\
  (is_zero (input_at rules s tick) = true -> input_at rules s tick = ZERO /\ remainder_at rules s tick = mk_rem 0 0).
Proof.
  intros [] [_ Hd]. unfold input_at, remainder_at. destruct (stale rules s tick).
  - split; [split; done|]. split; [split; cbn; lia|done].
  - split; [done|]. split; [done|]. intros Hz. split; [by apply is_zero_ZERO|auto].
Qed.

Lemma weighted_zero t : weighted (speed_multiplier (from_tier t)) 0 = 0.
Proof. by destruct t. Qed.

Lemma simulate_tick_spec rules fuel values s tick resolve : character_ok rules s -> rules_ok rules -> in_u 64 tick ->
  carried_ok fuel values (containers s) ->
  if decide (tick <= last_simulated_tick s) then simulate_tick fuel values s tick rules resolve = Some (s, Err TickNotAfter)
  else if ahead s tick then simulate_tick fuel values s tick rules resolve = Some (s, Err ReceiveTickAhead)
  else exists t desired remainder,
    evaluate_movement_effects fuel values (containers s) = Some (from_tier t) /\
    integrate rules (input_at rules s tick) (remainder_at rules s tick) = Some (Ok (desired, remainder)) /\
    remainder_ok rules remainder /\
    (is_zero (input_at rules s tick) = true -> desired = mk_delta 0 0 /\ remainder = mk_rem 0 0) /\
    simulate_tick fuel values s tick rules resolve = Some
      match resolve (at_position s) (mk_delta (weighted (speed_multiplier (from_tier t)) (delta_x desired))
              (weighted (speed_multiplier (from_tier t)) (delta_y desired))) with
      | Ok r => (moved rules s tick (Traversal.position r) remainder tick,
                 Ok (mk_outcome r (if stale rules s tick then last_input_sequence s else None)))
      | Err e => (moved rules s tick (at_position s) remainder (last_simulated_tick s), Err (TraversalFailed e))
      end.
Proof.
  intros Hok Hrules Htick Hca. unfold simulate_tick. case_decide as Hlast; [done|].
  rewrite (expire_stale_input_spec rules s tick Hok Htick). destruct (ahead s tick) eqn:Ha; [done|]. cbn [character_id at_position movement_input movement_remainder last_input_sequence last_input_tick last_simulated_tick containers].
  destruct (effects_defined fuel values _ Hca) as [t Et]. destruct (input_at_ok rules s tick Hok Hrules) as (Hin & Hrem & Hzero).
  destruct (integrate_spec rules _ _ Hrules Hin Hrem) as (ax & ay & desired & remainder & _ & Ei & Hrem' & _).
  exists t, desired, remainder. rewrite Ei, Et. split; [done|]. split; [done|]. split; [done|]. split.
  - intros Hz. destruct (Hzero Hz) as [E1 E2]. rewrite E1, E2, (integrate_still rules Hrules) in Ei. by injection Ei as <- <-.
  - cbn. by destruct (resolve _ _).
Qed.

Lemma spawn_ok rules id place tick s : rules_ok rules -> spawn id place tick = Ok s -> character_ok rules s.
Proof.
  intros [_ Hd]. unfold spawn. case_decide; [done|]. intros [= <-]. split; cbn; try done. split; cbn; lia.
Qed.

Lemma apply_ok rules s sequence input received : rules_ok rules -> character_ok rules s -> input_ok input -> in_u 64 received ->
  character_ok rules (apply_movement_input s sequence input received).1.
Proof.
  intros [_ Hd] Hok Hin Hrec. unfold apply_movement_input. destruct (match last_input_sequence s with Some _ => _ | None => _ end); [done|].
  case_decide; [done|]. destruct Hok. split; cbn; try done.
  - destruct (is_zero input); [split; cbn; lia|done].
  - by intros ->.
  - intros _. by exists sequence, received.
Qed.

Lemma moved_ok rules s tick place remainder simulated : character_ok rules s -> rules_ok rules -> remainder_ok rules remainder ->
  (is_zero (input_at rules s tick) = true -> remainder = mk_rem 0 0) ->
  character_ok rules (moved rules s tick place remainder simulated).
Proof.
  intros Hok Hrules Hrem Hz. destruct (input_at_ok rules s tick Hok Hrules) as (Hin & _). destruct Hok. split; cbn; try done.
  unfold input_at. destruct (stale rules s tick); [done|done].
Qed.

Lemma step_ok rules s o s' : rules_ok rules -> character_step rules s o s' -> character_ok rules s -> character_ok rules s'.
Proof.
  intros Hrules Hstep Hok. destruct Hstep as [sequence input received Hin Hrec|fuel values tick resolve s' r Hca Htick E|c].
  - by apply apply_ok.
  - pose proof (simulate_tick_spec rules fuel values s tick resolve Hok Hrules Htick Hca) as H.
    case_decide; [by assert (s' = s) as -> by congruence|]. destruct (ahead s tick); [by assert (s' = s) as -> by congruence|].
    destruct H as (t & desired & remainder & _ & _ & Hrem & Hz & E'). rewrite E' in E. injection E as E.
    destruct (resolve _ _); injection E as <- _; (apply moved_ok; [done..|]; intros Hs; by apply Hz).
  - destruct Hok. by split.
Qed.

Lemma reached_ok rules s : rules_ok rules -> character_reached rules s -> character_ok rules s.
Proof. intros Hrules. induction 1 as [id p t s _ E|s o s' _ IH Hs]; [by eapply spawn_ok|by eapply step_ok]. Qed.

(** C40: a character moves only by inputs that are in order and in time.  In every state he reaches, an input is
    stored exactly when its sequence number exceeds the last one and it was not received before the last simulated
    tick; else he is left as he was.  A tick that is not after the last one, or before the input was received, is
    refused and changes nothing.  Every other tick asks the resolver for the step of the input, none at all once the
    input has been standing for the time-out, whose sequence number is then reported and which is cleared.  The step
    is the integrated one with either axis multiplied, in [f32], by the factor of the load; on axes of at most a metre
    that is exactly 100, 90, 60 or 25 percent of it for a light, medium, heavy or excessive load, to the nearest
    millimetre, so that no load lengthens or turns it and a light one leaves it alone.  He goes where the resolver
    says, or stays, his clock too, when it fails.  The other errors of the code never occur. *)
Theorem character_moves_in_time (rules : MovementRules) (s : CharacterState) (Hrules : rules_ok rules) (Hs : character_reached rules s) :
  (forall sequence input received,
    let answer := apply_movement_input s sequence input received in
    let in_order := forall previous, last_input_sequence s = Some previous -> previous < sequence in
    (~ in_order -> answer = (s, Err NonMonotonicSequence)) /\
    (in_order -> received < last_simulated_tick s -> answer = (s, Err StaleReceiveTick)) /\
    (in_order -> last_simulated_tick s <= received -> answer =
      (mk_character (character_id s) (at_position s) input (Some sequence) (Some received)
         (if is_zero input then mk_rem 0 0 else movement_remainder s) (last_simulated_tick s) (containers s), Ok tt))) /\
  (forall fuel values tick resolve, carried_ok fuel values (containers s) -> in_u 64 tick ->
    if decide (tick <= last_simulated_tick s) then simulate_tick fuel values s tick rules resolve = Some (s, Err TickNotAfter)
    else if ahead s tick then simulate_tick fuel values s tick rules resolve = Some (s, Err ReceiveTickAhead)
    else exists t desired remainder,
      let step := mk_delta (weighted (speed_multiplier (from_tier t)) (delta_x desired))
        (weighted (speed_multiplier (from_tier t)) (delta_y desired)) in
      evaluate_movement_effects fuel values (containers s) = Some (from_tier t) /\
      integrate rules (input_at rules s tick) (remainder_at rules s tick) = Some (Ok (desired, remainder)) /\
      (is_zero (input_at rules s tick) = true -> step = mk_delta 0 0) /\
      (Z.abs (delta_x desired) <= 1000 -> Z.abs (delta_y desired) <= 1000 ->
        step = mk_delta (scaled t (delta_x desired)) (scaled t (delta_y desired)) /\
        Z.abs (delta_x step) <= Z.abs (delta_x desired) /\ Z.abs (delta_y step) <= Z.abs (delta_y desired) /\
        0 <= delta_x step * delta_x desired /\ 0 <= delta_y step * delta_y desired /\ (t = Light -> step = desired)) /\
      match resolve (at_position s) step with
      | Ok r => simulate_tick fuel values s tick rules resolve =
          Some (moved rules s tick (Traversal.position r) remainder tick,
                Ok (mk_outcome r (if stale rules s tick then last_input_sequence s else None)))
      | Err e => simulate_tick fuel values s tick rules resolve =
          Some (moved rules s tick (at_position s) remainder (last_simulated_tick s), Err (TraversalFailed e))
      end).
Proof.
  pose proof (reached_ok rules s Hrules Hs) as Hok. split.
  - intros sequence input received answer in_order. subst answer in_order. unfold apply_movement_input.
    destruct (last_input_sequence s) as [previous|].
    + case_bool_decide.
      * split; [done|]. split; intros Ho; specialize (Ho previous eq_refl); lia.
      * split; [intros Ho; destruct Ho; intros p [= <-]; lia|]. case_decide; (split; [intros; try done; lia|intros; try done; lia]).
    + split; [by intros []|]. case_decide; (split; [intros; try done; lia|intros; try done; lia]).
  - intros fuel values tick resolve Hca Htick. pose proof (simulate_tick_spec rules fuel values s tick resolve Hok Hrules Htick Hca) as H.
    case_decide; [done|]. destruct (ahead s tick); [done|]. destruct H as (t & desired & remainder & Et & Ei & _ & Hz & E).
    exists t, desired, remainder. intros step. split; [done|]. split; [done|]. split; [|split].
    + intros Hzero. unfold step. destruct (Hz Hzero) as [-> _]. cbn [delta_x delta_y]. by rewrite weighted_zero.
    + intros Hx Hy. unfold step. rewrite (weighted_spec t _ Hx), (weighted_spec t _ Hy). cbn [delta_x delta_y].
      destruct (scaled_shorter t (delta_x desired)) as (? & ? & Lx). destruct (scaled_shorter t (delta_y desired)) as (? & ? & Ly).
      repeat (split; [done|]). intros Ht. rewrite (Lx Ht), (Ly Ht). by destruct desired.
    + rewrite E. by destruct (resolve _ _).
Qed.

Section CharacterWitness.
Let rules := mk_rules 4000 (32767 * 20) 2 250.
Let walking := mk_input 32767 0.
Let free (p : WorldPositionMm) (d : MovementDeltaMm) : result TraversalError TraversalResolution :=
  Ok (mk_resolution (mk_pos (px p + delta_x d) (py p + delta_y d) (pz p)) d d false false).
Let root := new_grid 1 10 6 0.
Let born := mk_character 7 (mk_pos 0 0 0) ZERO None None (mk_rem 0 0) 0 (default_starting 30000).

Lemma starting_carried : carried_ok 2 [root] (default_starting 30000).
Proof.
  assert (forall id b, Containers.containers (tree (default_starting 30000)) !! id = Some b -> id = 1 /\ b = root) as Hl.
  { intros id b. unfold default_starting, set_root. cbn. by intros [[<- <-]|[_ ?]]%lookup_insert_Some. }
  split.
  - assert (forall x y, ~ climb (tree (default_starting 30000)) x y) as H.
    { intros x y. unfold climb, parent_of. destruct (Containers.containers _ !! x) eqn:E; [|done]. by apply Hl in E as [_ ->]. }
    intros x Hx. inversion Hx as [? ? H1|? ? ? H1 _]; subst; by apply H in H1.
  - by intros id b [-> ->]%Hl.
  - vm_compute. lia.
  - unfold enumerates, default_starting, set_root. cbn. rewrite map_to_list_insert by done. by rewrite map_to_list_empty.
  - exists 1, root. split; reflexivity.
Qed.

(** The input received at tick 0 is walked at tick 1, 200 millimetres, and has expired at tick 2. *)
Lemma character_moves_in_time_witness :
  let s := (apply_movement_input born 1 walking 0).1 in
  exists s1 s2, simulate_tick 2 [root] s 1 rules free = Some s1 /\ at_position s1.1 = mk_pos 200 0 0 /\
    simulate_tick 2 [root] s1.1 2 rules free = Some s2 /\ at_position s2.1 = mk_pos 200 0 0 /\ movement_input s2.1 = ZERO.
Proof.
  intros s. assert (rules_ok rules) as Hrules by (split; cbn; lia).
  assert (character_reached rules s) as Hs.
  { eapply (reached_step rules born (Apply 1 walking 0)); [apply (reached_spawn rules 7 (mk_pos 0 0 0) 0); [unfold in_u; lia|reflexivity]|].
    apply step_apply; [split; cbn; lia|unfold in_u; lia]. }
  pose proof (character_moves_in_time rules s Hrules Hs) as [_ H1]. specialize (H1 2%nat [root] 1 free starting_carried ltac:(unfold in_u; lia)).
  change (ahead s 1) with false in H1. rewrite decide_False in H1 by (change (last_simulated_tick s) with 0; lia). destruct H1 as (t & d & r & step & _).
  eexists _, _. split; [vm_compute; reflexivity|]. split; [reflexivity|]. split; [vm_compute; reflexivity|]. split; reflexivity.
Defined.
End CharacterWitness.
