(* ===== verification/Ecs.v ===== *)
(** The entity store of a zone: the interface of the third-party [hecs::World] that
    [crates/simulation/src/zone.rs] and [systems.rs] use, and its documented
    behaviour.  An entity is live or not, a live one has a set of components, and a
    query yields every live entity with the components it asks for exactly once, in
    an order the store chooses. *)

From S2P Require Import Prelude.

(** [C] is the set of components an entity may carry, each present or absent. *)
Class Ecs (C Entity W : Type) := {
  ecs_new : W;
  ecs_get : W -> Entity -> option C;
  ecs_spawn : W -> C -> W * Entity;
  ecs_put : W -> Entity -> C -> W;
  ecs_despawn : W -> Entity -> option W;
  ecs_query : W -> (C -> bool) -> list Entity;
  ecs_to_bits : Entity -> Z
}.

Class EcsLaws (C Entity W : Type) `{!Ecs C Entity W} `{!EqDecision Entity} : Prop := {
  get_new : forall e, ecs_get ecs_new e = None;
  spawn_fresh : forall w c, ecs_get w (ecs_spawn w c).2 = None;
  get_spawn : forall w c e, ecs_get (ecs_spawn w c).1 e = if decide (e = (ecs_spawn w c).2) then Some c else ecs_get w e;
  get_put : forall w e c e', is_Some (ecs_get w e) ->
    ecs_get (ecs_put w e c) e' = if decide (e' = e) then Some c else ecs_get w e';
  despawn_none : forall w e, ecs_despawn w e = None <-> ecs_get w e = None;
  get_despawn : forall w e w' e', ecs_despawn w e = Some w' ->
    ecs_get w' e' = if decide (e' = e) then None else ecs_get w e';
  query_nodup : forall w p, NoDup (ecs_query w p);
  elem_query : forall w p e, e ∈ ecs_query w p <-> exists c, ecs_get w e = Some c /\ p c = true
}.

Section Operations.
Context {C Entity W : Type} `{!Ecs C Entity W} `{!EqDecision Entity} `{!EcsLaws C Entity W}.

(** [insert_one], [remove_one] and writing through [get::<&mut T>], which fail on an
    entity that is not live. *)
Definition ecs_update (w : W) (e : Entity) (f : C -> C) : option W :=
  match ecs_get w e with
  | Some c => Some (ecs_put w e (f c))
  | None => None
  end.

(** [let _ = world.insert_one(..)]: the failure is ignored. *)
Definition ecs_try_update (w : W) (e : Entity) (f : C -> C) : W := default w (ecs_update w e f).
Definition ecs_try_despawn (w : W) (e : Entity) : W := default w (ecs_despawn w e).

Lemma get_try_update w e f e' :
  ecs_get (ecs_try_update w e f) e' = if decide (e' = e) then f <$> ecs_get w e else ecs_get w e'.
Proof.
  unfold ecs_try_update, ecs_update. destruct (ecs_get w e) as [c|] eqn:E; cbn.
  - by rewrite get_put by done.
  - by destruct (decide (e' = e)) as [->|].
Qed.

Lemma get_try_despawn w e e' :
  ecs_get (ecs_try_despawn w e) e' = if decide (e' = e) then None else ecs_get w e'.
Proof.
  unfold ecs_try_despawn. destruct (ecs_despawn w e) as [w'|] eqn:E; cbn.
  - by apply get_despawn.
  - apply despawn_none in E. by destruct (decide (e' = e)) as [->|].
Qed.

Lemma get_try_update_all f l : NoDup l -> forall w e,
  ecs_get (foldl (fun w e => ecs_try_update w e f) w l) e =
  if decide (e ∈ l) then f <$> ecs_get w e else ecs_get w e.
Proof.
  induction 1 as [|x l Hx _ IH]; intros w e; cbn [foldl]; [by rewrite decide_False by apply not_elem_of_nil|].
  rewrite IH, get_try_update. destruct (decide (e = x)) as [->|Hne].
  - rewrite decide_False by done. by rewrite decide_True by by left.
  - destruct (decide (e ∈ l)); [by rewrite decide_True by by right|].
    rewrite decide_False; [done|]. by intros [|]%elem_of_cons.
Qed.

Lemma get_try_despawn_all l : forall w e,
  ecs_get (foldl ecs_try_despawn w l) e = if decide (e ∈ l) then None else ecs_get w e.
Proof.
  induction l as [|x l IH]; intros w e; cbn [foldl]; [by rewrite decide_False by apply not_elem_of_nil|].
  rewrite IH, get_try_despawn. destruct (decide (e ∈ l)); [by rewrite decide_True by by right|].
  destruct (decide (e = x)) as [->|]; [by rewrite decide_True by by left|].
  rewrite decide_False; [done|]. by intros [|]%elem_of_cons.
Qed.
End Operations.

(** A store that satisfies the interface: a map from handles to components and the
    next handle. *)
Record MapWorld (C : Type) := { mw_next : N; mw_live : gmap N C }.
Arguments mw_next {C}. Arguments mw_live {C}.

Definition map_fresh {C} (w : MapWorld C) : N :=
  fold_right N.max (mw_next w) (map (fun p => N.succ p.1) (map_to_list (mw_live w))).

Definition map_ecs C : Ecs C N (MapWorld C) := {|
  ecs_new := {| mw_next := 0; mw_live := ∅ |};
  ecs_get w e := mw_live w !! e;
  ecs_spawn w c :=
    let e := map_fresh w in
    ({| mw_next := N.succ e; mw_live := <[e := c]> (mw_live w) |}, e);
  ecs_put w e c := {| mw_next := mw_next w; mw_live := <[e := c]> (mw_live w) |};
  ecs_despawn w e :=
    match mw_live w !! e with
    | Some _ => Some {| mw_next := mw_next w; mw_live := delete e (mw_live w) |}
    | None => None
    end;
  ecs_query w p := map fst (filter (fun q => p q.2 = true) (map_to_list (mw_live w)));
  ecs_to_bits e := Z.of_N e
|}.

Lemma map_fresh_None {C} (w : MapWorld C) : mw_live w !! map_fresh w = None.
Proof.
  apply eq_None_not_Some. intros [c Hc]. apply elem_of_map_to_list in Hc.
  assert (forall l, (map_fresh w, c) ∈ l ->
    (map_fresh w < fold_right N.max (mw_next w) (map (fun p : N * C => N.succ p.1) l))%N) as H.
  { induction l as [|x l IH]; [intros []%not_elem_of_nil|].
    intros [<-|Hin]%elem_of_cons; cbn; [lia|]. specialize (IH Hin). lia. }
  specialize (H _ Hc). fold (map_fresh w) in H. lia.
Qed.

#[local] Existing Instance map_ecs.

Lemma map_ecs_laws C : EcsLaws C N (MapWorld C).
Proof.
  split; cbn.
  - intros e. apply lookup_empty.
  - intros w c. apply map_fresh_None.
  - intros w c e. destruct (decide (e = map_fresh w)) as [->|Hne];
      [by rewrite lookup_insert_eq|by rewrite lookup_insert_ne by done].
  - intros w e c e' _. destruct (decide (e' = e)) as [->|Hne];
      [by rewrite lookup_insert_eq|by rewrite lookup_insert_ne by done].
  - intros w e. by destruct (mw_live w !! e).
  - intros w e w' e' H. destruct (mw_live w !! e); [|done]. injection H as <-. cbn.
    destruct (decide (e' = e)) as [->|Hne]; [by rewrite lookup_delete_eq|by rewrite lookup_delete_ne by done].
  - intros w p. apply (NoDup_fmap_fst (filter _ _)).
    + intros e c1 c2 [_ H1]%list_elem_of_filter [_ H2]%list_elem_of_filter.
      apply elem_of_map_to_list in H1, H2. congruence.
    + apply list.NoDup_filter, NoDup_map_to_list.
  - intros w p e. rewrite list_elem_of_fmap. split.
    + intros ([e' c] & -> & [Hp Hin]%list_elem_of_filter). exists c. by apply elem_of_map_to_list in Hin.
    + intros (c & Hc & Hp). exists (e, c). split; [done|]. apply list_elem_of_filter.
      split; [done|]. by apply elem_of_map_to_list.
Qed.
