(* ===== verification/Zone.v ===== *)
(** The simulation zone: [crates/simulation/src/zone.rs], [systems.rs],
    [components.rs], [snapshot.rs] and [bootstrap.rs].  A zone owns the entities of
    its characters and rocks, takes commands one at a time, and advances by ticks
    that move characters, mine rocks and work off inventory requests. *)

From S2P Require Import Prelude Core F32 Items Bags Loot Movement Traversal Ecs.
Import World Grid Bags.Bags Equipment.

(** ** Components *)

Record RockNode := mk_rock { health : Z; max_health : Z }.
Definition rock_new (h : Z) : RockNode := mk_rock h h.

Record MineIntentComponent := mk_mine { miner : Z; power : Z }.

(** The component types an entity may carry; [Player] and [Dirty] are tags. *)
Record Components := mk_components {
  c_identity : option Z;
  c_position : option WorldPositionMm;
  c_remainder : option MovementRemainder;
  c_player : bool;
  c_dirty : bool;
  c_inventory : option CharacterInventoryState;
  c_move : option MovementInput;
  c_rock : option RockNode;
  c_mine : option MineIntentComponent
}.

Definition no_components : Components := mk_components None None None false false None None None None.

(** Replacing one component. *)
Definition set_position (p : WorldPositionMm) (c : Components) : Components :=
  mk_components (c_identity c) (Some p) (c_remainder c) (c_player c) (c_dirty c) (c_inventory c) (c_move c) (c_rock c) (c_mine c).
Definition set_remainder (r : MovementRemainder) (c : Components) : Components :=
  mk_components (c_identity c) (c_position c) (Some r) (c_player c) (c_dirty c) (c_inventory c) (c_move c) (c_rock c) (c_mine c).
Definition set_dirty (b : bool) (c : Components) : Components :=
  mk_components (c_identity c) (c_position c) (c_remainder c) (c_player c) b (c_inventory c) (c_move c) (c_rock c) (c_mine c).
Definition set_inventory (i : CharacterInventoryState) (c : Components) : Components :=
  mk_components (c_identity c) (c_position c) (c_remainder c) (c_player c) (c_dirty c) (Some i) (c_move c) (c_rock c) (c_mine c).
Definition set_move (m : MovementInput) (c : Components) : Components :=
  mk_components (c_identity c) (c_position c) (c_remainder c) (c_player c) (c_dirty c) (c_inventory c) (Some m) (c_rock c) (c_mine c).
Definition set_rock (r : RockNode) (c : Components) : Components :=
  mk_components (c_identity c) (c_position c) (c_remainder c) (c_player c) (c_dirty c) (c_inventory c) (c_move c) (Some r) (c_mine c).
Definition set_mine (m : option MineIntentComponent) (c : Components) : Components :=
  mk_components (c_identity c) (c_position c) (c_remainder c) (c_player c) (c_dirty c) (c_inventory c) (c_move c) (c_rock c) m.

(** What [SpawnCharacter] and [SpawnRock] spawn. *)
Definition character_bundle (character_id : Z) (p : WorldPositionMm) (inventory : CharacterInventoryState) : Components :=
  mk_components (Some character_id) (Some p) (Some (mk_rem 0 0)) true true (Some inventory) None None None.
Definition rock_bundle (p : WorldPositionMm) (h : Z) : Components :=
  mk_components None (Some p) None false false None None (Some (rock_new h)) None.

Record SpatialUpdate := { update_identity : Z; update_position : WorldPositionMm }.
Record RockDestroyedEvent := { resource_id : Z; rock_position : WorldPositionMm; b_active : bool }.

Record MovementSnapshot := mk_snapshot {
  snapshot_character_id : Z;
  server_tick : Z;
  snapshot_position : WorldPositionMm;
  last_processed_input_sequence : option Z;
  active_movement_sequence : option Z
}.

(** ** Commands, requests and events *)

Inductive PlayerInventoryIntent :=
| IntentLoot (req : RequestLootItem)
| IntentMoveOrRotate (req : RequestMoveOrRotateItem)
| IntentMerge (req : RequestMergeStack)
| IntentSplit (request : RequestSplitStack) (new_item_id : Z)
| IntentDrop (req : RequestDropItem)
| IntentEquip (req : RequestEquipItem)
| IntentUnequip (req : RequestUnequipItem).

Inductive InventoryEvent :=
| LootProcessed (player_id : Z) (result : LootResult)
| ActionProcessed (player_id : Z) (result : InventoryActionResult)
| DropProcessed (player_id : Z) (result : DropResult).

(** A responder is the sender of a one-shot channel, here its name. *)
Inductive ZoneCommand :=
| SpawnCharacter (character_id : Z) (position : WorldPositionMm) (inventory : CharacterInventoryState) (inventory_revision : Z)
| DespawnCharacter (character_id : Z) (responder : option Z)
| SnapshotInventory (character_id : Z) (responder : Z)
| ZoneMoveIntent (character_id sequence : Z) (input : MovementInput)
| SpawnRock (position : WorldPositionMm) (rock_health : Z)
| ZoneMineIntent (character_id mine_power : Z)
| InventoryIntent (character_id : Z) (intent : PlayerInventoryIntent).

Inductive ZoneError :=
| ZeroZoneTickRate
| ZoneMovement (e : MovementError)
| ZoneTraversal (e : TraversalError)
| ZoneFuel
| DuplicateSpawn (character_id : Z)
| UnknownCharacter (character_id : Z)
| NoSuchEntity
| TickOverflow.

Section Systems.
Context {Entity W : Type} `{!Ecs Components Entity W} `{!EqDecision Entity}.

(** ** Movement ([movement_tick_system]) *)

(** The body of the loop: the components of one entity after the tick, and whether
    its position has changed. *)
Definition move_entity (traversal : TraversalWorld) (rules : MovementRules) (c : Components)
  : result ZoneError (Components * bool) :=
  match c_position c, c_move c with
  | Some pos, Some intent =>
      let temp_remainder := default (mk_rem 0 0) (c_remainder c) in
      match integrate rules intent temp_remainder with
      | None => Err ZoneFuel
      | Some (Err e) => Err (ZoneMovement e)
      | Some (Ok (delta, temp_remainder')) =>
          let c1 := match c_remainder c with Some _ => set_remainder temp_remainder' c | None => c end in
          if decide (delta_x delta <> 0 \/ delta_y delta <> 0) then
            resolution ← map_err ZoneTraversal (resolve_horizontal traversal pos delta (rule_radius_mm rules));
            if decide (Traversal.position resolution <> pos)
            then Ok (set_position (Traversal.position resolution) c1, true)
            else Ok (c1, false)
          else Ok (c1, false)
      end
  | _, _ => Ok (c, false)
  end.

Fixpoint move_entities (traversal : TraversalWorld) (rules : MovementRules) (w : W) (l modified : list Entity)
  : result ZoneError (W * list Entity) :=
  match l with
  | [] => Ok (w, modified)
  | entity :: l' =>
      match ecs_get w entity with
      | None => move_entities traversal rules w l' modified (* the query yields live entities *)
      | Some c =>
          r ← move_entity traversal rules c;
          move_entities traversal rules (ecs_put w entity r.1) l'
            (if r.2 : bool then modified ++ [entity] else modified)
      end
  end.

(** The query of positions with a movement intent. *)
Definition moving (c : Components) : bool := bool_decide (is_Some (c_position c)) && bool_decide (is_Some (c_move c)).

Definition movement_tick_system (w : W) (traversal : TraversalWorld) (rules : MovementRules) : result ZoneError W :=
  r ← move_entities traversal rules w (ecs_query w moving) [];
  Ok (foldl (fun w entity => ecs_try_update w entity (set_dirty true)) r.1 r.2).

(** ** Mining ([mining_tick_system]) *)

Definition mining (c : Components) : bool := bool_decide (is_Some (c_position c)) && bool_decide (is_Some (c_mine c)).
Definition rocky (c : Components) : bool := bool_decide (is_Some (c_position c)) && bool_decide (is_Some (c_rock c)).

Record Rock := mk_target { rock_entity : Entity; rock_resource_id : Z; rock_pos : WorldPositionMm; rock_health : Z }.

Definition collect_miners (w : W) : list (Entity * WorldPositionMm * Z) :=
  omap (fun e => c ← ecs_get w e; p ← c_position c; i ← c_mine c; Some (e, p, power i)) (ecs_query w mining).

Definition collect_rocks (w : W) : list Rock :=
  omap (fun e => c ← ecs_get w e; p ← c_position c; r ← c_rock c;
                 Some (mk_target e (wrap_u 32 (ecs_to_bits e)) p (health r))) (ecs_query w rocky).

Definition distance_sq (rock miner : WorldPositionMm) : Z :=
  let dx := wrap_i 64 (px rock - px miner) in
  let dy := wrap_i 64 (py rock - py miner) in
  wrap_i 128 (wrap_i 128 (dx * dx) + wrap_i 128 (dy * dy)).

(** The nearest rock within reach, the first of several at the same distance. *)
Definition closest_rock (max_reach_sq : Z) (miner_pos : WorldPositionMm) (rocks : list Rock) : option (Rock * Z) :=
  foldl (fun closest rock =>
           let dist_sq := distance_sq (rock_pos rock) miner_pos in
           if decide (dist_sq <= max_reach_sq) then
             match closest with
             | Some (_, best_dist) => if decide (dist_sq < best_dist) then Some (rock, dist_sq) else closest
             | None => Some (rock, dist_sq)
             end
           else closest)
    None rocks.

Record MiningOutcome := mk_mining {
  damages : list (Entity * Z);
  destroyed : list RockDestroyedEvent;
  rocks_to_despawn : list Entity
}.

Definition mine_one (max_reach_sq : Z) (rocks : list Rock) (o : MiningOutcome) (i : Entity * WorldPositionMm * Z)
  : MiningOutcome :=
  let '(_, miner_pos, p) := i in
  match closest_rock max_reach_sq miner_pos rocks with
  | None => o
  | Some (target, _) =>
      let damages' := damages o ++ [(rock_entity target, p)] in
      if decide (rock_health target <= p) then
        mk_mining damages'
          (destroyed o ++ [{| resource_id := rock_resource_id target; rock_position := rock_pos target; b_active := false |}])
          (rocks_to_despawn o ++ [rock_entity target])
      else mk_mining damages' (destroyed o) (rocks_to_despawn o)
  end.

(** [world.get::<&mut RockNode>(target)], which fails without the component. *)
Definition apply_damage (w : W) (d : Entity * Z) : W :=
  match c ← ecs_get w d.1; r ← c_rock c; Some (set_rock (mk_rock (saturating_sub_u (health r) d.2) (max_health r)) c) with
  | Some c' => ecs_put w d.1 c'
  | None => w
  end.

Definition mining_tick_system (w : W) (reach_distance_mm : Z) : W * list RockDestroyedEvent :=
  let reach := Z.min (Z.max (reach_distance_mm + 1500) (- 2 ^ 63)) (2 ^ 63 - 1) in
  let max_reach_sq := wrap_i 128 (reach * reach) in
  let intents := collect_miners w in
  match intents with
  | [] => (w, [])
  | _ =>
      let o := foldl (mine_one max_reach_sq (collect_rocks w)) (mk_mining [] [] []) intents in
      let w1 := foldl apply_damage w (damages o) in
      let w2 := foldl (fun w e => ecs_try_update w e (set_mine None)) w1 (map (fun i => i.1.1) intents) in
      (foldl ecs_try_despawn w2 (rocks_to_despawn o), destroyed o)
  end.

(** ** The tick of the simulation *)

Definition changed (c : Components) : bool :=
  bool_decide (is_Some (c_identity c)) && bool_decide (is_Some (c_position c)) && c_dirty c.

Definition collect_updates (w : W) : list SpatialUpdate :=
  omap (fun e => c ← ecs_get w e; i ← c_identity c; p ← c_position c;
                 Some {| update_identity := i; update_position := p |}) (ecs_query w changed).

Definition simulation_tick (w : W) (traversal : TraversalWorld) (rules : MovementRules)
  : result ZoneError (W * list SpatialUpdate * list RockDestroyedEvent) :=
  w1 ← movement_tick_system w traversal rules;
  let '(w2, destroyed_rocks) := mining_tick_system w1 (rule_radius_mm rules) in
  let updates := collect_updates w2 in
  let w3 := foldl (fun w e => ecs_try_update w e (set_dirty false)) w2 (ecs_query w2 changed) in
  Ok (w3, updates, destroyed_rocks).

(** ** The zone *)

Record ZoneRuntime := mk_zone {
  zone_id : Z;
  tick_rate_hz : Z;
  movement_snapshots : bool;
  gameplay_events : bool;
  tick : Z;
  movement_rules : MovementRules;
  traversal_world : TraversalWorld;
  world : W;
  entity_map : gmap Z Entity;
  last_processed_inputs : gmap Z Z;
  dropped_bags : DroppedBagManager;
  pending_inventory_intents : list (Z * PlayerInventoryIntent);
  next_bag_id : Z;
  inventory_revisions : gmap Z Z
}.

Definition zone_new (id hz : Z) (settings : CharacterMovementSettings) (traversal : TraversalWorld)
  : result ZoneError ZoneRuntime :=
  if decide (hz = 0) then Err ZeroZoneTickRate else
  rules ← map_err ZoneMovement (rules_new settings hz);
  Ok (mk_zone id hz false false 0 rules traversal ecs_new ∅ ∅ empty_manager [] 0 ∅).

Definition with_movement_snapshots (z : ZoneRuntime) : ZoneRuntime :=
  mk_zone (zone_id z) (tick_rate_hz z) true (gameplay_events z) (tick z) (movement_rules z) (traversal_world z) (world z)
    (entity_map z) (last_processed_inputs z) (dropped_bags z) (pending_inventory_intents z) (next_bag_id z) (inventory_revisions z).
Definition with_gameplay_events (z : ZoneRuntime) : ZoneRuntime :=
  mk_zone (zone_id z) (tick_rate_hz z) (movement_snapshots z) true (tick z) (movement_rules z) (traversal_world z) (world z)
    (entity_map z) (last_processed_inputs z) (dropped_bags z) (pending_inventory_intents z) (next_bag_id z) (inventory_revisions z).

(** The zone with other characters: its entities, their handles and their last
    inputs and inventory revisions. *)
Definition set_characters (z : ZoneRuntime) (w : W) (m : gmap Z Entity) (l revs : gmap Z Z) : ZoneRuntime :=
  mk_zone (zone_id z) (tick_rate_hz z) (movement_snapshots z) (gameplay_events z) (tick z) (movement_rules z) (traversal_world z) w
    m l (dropped_bags z) (pending_inventory_intents z) (next_bag_id z) revs.
Definition set_world (z : ZoneRuntime) (w : W) : ZoneRuntime :=
  set_characters z w (entity_map z) (last_processed_inputs z) (inventory_revisions z).
Definition set_tick (z : ZoneRuntime) (t : Z) : ZoneRuntime :=
  mk_zone (zone_id z) (tick_rate_hz z) (movement_snapshots z) (gameplay_events z) t (movement_rules z) (traversal_world z) (world z)
    (entity_map z) (last_processed_inputs z) (dropped_bags z) (pending_inventory_intents z) (next_bag_id z) (inventory_revisions z).
Definition set_pending (z : ZoneRuntime) (l : list (Z * PlayerInventoryIntent)) : ZoneRuntime :=
  mk_zone (zone_id z) (tick_rate_hz z) (movement_snapshots z) (gameplay_events z) (tick z) (movement_rules z) (traversal_world z) (world z)
    (entity_map z) (last_processed_inputs z) (dropped_bags z) l (next_bag_id z) (inventory_revisions z).
Definition set_bags (z : ZoneRuntime) (m : DroppedBagManager) (n : Z) : ZoneRuntime :=
  mk_zone (zone_id z) (tick_rate_hz z) (movement_snapshots z) (gameplay_events z) (tick z) (movement_rules z) (traversal_world z) (world z)
    (entity_map z) (last_processed_inputs z) m (pending_inventory_intents z) n (inventory_revisions z).

(** The inventory of an entity, or a new one ([unwrap_or]-like [else]). *)
Definition inventory_or_new (w : W) (e : Entity) : CharacterInventoryState :=
  default (inventory_new 10 6) (ecs_get w e ≫= c_inventory).

Definition get_character_inventory (z : ZoneRuntime) (character_id : Z) : option (CharacterInventoryState * Z) :=
  e ← entity_map z !! character_id;
  inventory ← ecs_get (world z) e ≫= c_inventory;
  Some (inventory, default 1 (inventory_revisions z !! character_id)).

(** A reply is handed to a responder; its one-shot channel takes the first. *)
Abbreviation Reply := (Z * (CharacterInventoryState * Z))%type.

Definition zone_accept (z : ZoneRuntime) (command : ZoneCommand) : result ZoneError (ZoneRuntime * list Reply) :=
  match command with
  | SpawnCharacter character_id position inventory inventory_revision =>
      _ ← map_err ZoneTraversal (validate_placement (traversal_world z) position (rule_radius_mm (movement_rules z)));
      match entity_map z !! character_id with
      | None =>
          let '(w, entity) := ecs_spawn (world z) (character_bundle character_id position inventory) in
          Ok (set_characters z w (<[character_id := entity]> (entity_map z)) (last_processed_inputs z)
                (<[character_id := inventory_revision]> (inventory_revisions z)), [])
      | Some _ => Err (DuplicateSpawn character_id)
      end
  | DespawnCharacter character_id responder =>
      match entity_map z !! character_id with
      | None => Err (UnknownCharacter character_id)
      | Some entity =>
          let revision := default 0 (inventory_revisions z !! character_id) in
          let inventory_state := inventory_or_new (world z) entity in
          w ← ok_or NoSuchEntity (ecs_despawn (world z) entity);
          Ok (set_characters z w (delete character_id (entity_map z)) (delete character_id (last_processed_inputs z))
                (delete character_id (inventory_revisions z)),
              match responder with Some r => [(r, (inventory_state, revision))] | None => [] end)
      end
  | SnapshotInventory character_id responder =>
      match entity_map z !! character_id with
      | None => Ok (z, [])
      | Some entity =>
          Ok (z, [(responder, (inventory_or_new (world z) entity, default 0 (inventory_revisions z !! character_id)))])
      end
  | ZoneMoveIntent character_id sequence input =>
      entity ← ok_or (UnknownCharacter character_id) (entity_map z !! character_id);
      w ← ok_or NoSuchEntity (ecs_update (world z) entity (set_move input));
      Ok (set_characters z w (entity_map z) (<[character_id := sequence]> (last_processed_inputs z)) (inventory_revisions z), [])
  | SpawnRock position h =>
      Ok (set_world z (ecs_spawn (world z) (rock_bundle position h)).1, [])
  | ZoneMineIntent character_id p =>
      entity ← ok_or (UnknownCharacter character_id) (entity_map z !! character_id);
      w ← ok_or NoSuchEntity (ecs_update (world z) entity (set_mine (Some (mk_mine character_id p))));
      Ok (set_world z w, [])
  | InventoryIntent character_id intent =>
      Ok (set_pending z (pending_inventory_intents z ++ [(character_id, intent)]), [])
  end.

(** ** Inventory requests *)

Section Inventory.
Context (get_dimensions : Z -> option InventoryDimensions) (get_allowed_slot : Z -> option EquipmentSlotKind).

Definition with_grid_items (inv : CharacterInventoryState) (g : InventoryGrid) (items : gmap Z ItemInstance)
  : CharacterInventoryState := {| inv_grid := g; inv_equipment := inv_equipment inv; inv_items := items |}.

Definition process_merge (inv : CharacterInventoryState) (req : RequestMergeStack)
  : CharacterInventoryState * InventoryActionResult :=
  let items := inv_items inv in
  match items !! merge_source_id req with
  | None => (inv, ItemNotFound)
  | Some source =>
      let removed := delete (merge_source_id req) items in
      match removed !! merge_target_id req with
      | None => (with_grid_items inv (inv_grid inv) (<[item_id source := source]> removed), ItemNotFound)
      | Some target =>
          let '(g, source', target', merge_res) := handle_merge_stack (inv_grid inv) source target 100 req in
          let items' := <[merge_target_id req := target']> removed in
          match merge_res with
          | Ok true => (with_grid_items inv g items', ActionSuccess)
          | Ok false => (with_grid_items inv g (<[item_id source' := source']> items'), ActionSuccess)
          | Err err => (with_grid_items inv g (<[item_id source' := source']> items'), err)
          end
      end
  end.

(** One request of a character: his inventory, the bags of the zone and the number
    of the last bag, after it, with the event it raises. *)
Definition process_intent (player_id : Z) (player_pos : F32.f32 * F32.f32) (current_tick : Z)
    (bags : DroppedBagManager) (next_bag : Z) (inv : CharacterInventoryState) (intent : PlayerInventoryIntent)
  : CharacterInventoryState * DroppedBagManager * Z * InventoryEvent :=
  let g := inv_grid inv in
  let equipment := inv_equipment inv in
  let items := inv_items inv in
  match intent with
  | IntentLoot req =>
      let '(bags', g', result) := handle_loot_request bags g req player_id player_pos get_dimensions in
      let items' := match result with LootSuccess item => <[item_id item := item]> items | _ => items end in
      (with_grid_items inv g' items', bags', next_bag, LootProcessed player_id result)
  | IntentMoveOrRotate req =>
      match items !! move_item_id req with
      | Some item =>
          let '(g', item', result) := handle_move_or_rotate_item g item req in
          (with_grid_items inv g' (<[move_item_id req := item']> items), bags, next_bag, ActionProcessed player_id result)
      | None => (inv, bags, next_bag, ActionProcessed player_id ItemNotFound)
      end
  | IntentMerge req =>
      let '(inv', result) := process_merge inv req in (inv', bags, next_bag, ActionProcessed player_id result)
  | IntentSplit request new_item_id =>
      match items !! split_source_id request with
      | Some source =>
          let '(g', source', split_res) := handle_split_stack g source request new_item_id get_dimensions in
          let items' := <[split_source_id request := source']> items in
          match split_res with
          | Ok new_item =>
              (with_grid_items inv g' (<[item_id new_item := new_item]> items'), bags, next_bag, ActionProcessed player_id ActionSuccess)
          | Err err => (with_grid_items inv g' items', bags, next_bag, ActionProcessed player_id err)
          end
      | None => (inv, bags, next_bag, ActionProcessed player_id ItemNotFound)
      end
  | IntentDrop req =>
      match items !! drop_item_id req with
      | Some item =>
          let next_bag' := saturating_add_u 64 next_bag 1 in
          let '(bags', g', item', drop_res) :=
            handle_drop_item bags g item req player_id player_pos current_tick 600 next_bag' in
          let removed := delete (drop_item_id req) items in
          let items' := match drop_res with DropSuccess _ _ => removed | _ => <[item_id item' := item']> removed end in
          (with_grid_items inv g' items', bags', next_bag', DropProcessed player_id drop_res)
      | None => (inv, bags, next_bag, DropProcessed player_id DropItemNotFound)
      end
  | IntentEquip req =>
      match items !! equip_item_id req with
      | Some item =>
          let '(g', equipment', item', result) := handle_equip_item g equipment item req get_allowed_slot in
          ({| inv_grid := g'; inv_equipment := equipment'; inv_items := <[equip_item_id req := item']> items |},
           bags, next_bag, ActionProcessed player_id result)
      | None => (inv, bags, next_bag, ActionProcessed player_id ItemNotFound)
      end
  | IntentUnequip req =>
      let '(g', equipment', unequip_res) := handle_unequip_item g equipment req get_dimensions in
      match unequip_res with
      | Ok item =>
          ({| inv_grid := g'; inv_equipment := equipment'; inv_items := <[item_id item := item]> items |},
           bags, next_bag, ActionProcessed player_id ActionSuccess)
      | Err err =>
          ({| inv_grid := g'; inv_equipment := equipment'; inv_items := items |}, bags, next_bag, ActionProcessed player_id err)
      end
  end.

(** [pos.0.x() as f32 / 1000.0]. *)
Definition metres (p : WorldPositionMm) : F32.f32 * F32.f32 :=
  (F32.div (F32.of_Z (px p)) (F32.of_Z 1000), F32.div (F32.of_Z (py p)) (F32.of_Z 1000)).

(** The body of the loop; a request of a character that is not here, or has no
    position or inventory, is dropped. *)
Definition process_one (st : ZoneRuntime * list InventoryEvent) (request : Z * PlayerInventoryIntent)
  : ZoneRuntime * list InventoryEvent :=
  let '(z, events) := st in
  let '(player_id, intent) := request in
  match e ← entity_map z !! player_id; c ← ecs_get (world z) e; p ← c_position c; i ← c_inventory c; Some (e, c, p, i) with
  | None => st
  | Some (e, c, p, i) =>
      let '(i', bags', next_bag', event) :=
        process_intent player_id (metres p) (tick z) (dropped_bags z) (next_bag_id z) i intent in
      (set_bags (set_world z (ecs_put (world z) e (set_inventory i' c))) bags' next_bag', events ++ [event])
  end.

(** [order] is the order in which the hash map of bags hands out its keys. *)
Definition process_inventory_intents (order : list Z) (z : ZoneRuntime) : ZoneRuntime * list InventoryEvent :=
  let '(bags, _) := tick_decay order (dropped_bags z) (tick z) in
  let intents := pending_inventory_intents z in
  foldl process_one (set_pending (set_bags z bags (next_bag_id z)) [], []) intents.
End Inventory.

(** What a tick hands to its two channels, as far as they have room. *)
Record StepOutput := mk_output { out_snapshots : list MovementSnapshot; out_events : list RockDestroyedEvent }.

Definition snapshot_of (z : ZoneRuntime) (u : SpatialUpdate) : MovementSnapshot :=
  let last_seq := last_processed_inputs z !! update_identity u in
  mk_snapshot (update_identity u) (tick z) (update_position u) last_seq last_seq.

Definition zone_step (order : list Z) (z : ZoneRuntime) : result ZoneError (ZoneRuntime * StepOutput) :=
  t ← ok_or TickOverflow (checked_u 64 (tick z + 1));
  let z1 := set_tick z t in
  '(w, spatial_updates, destroyed_rocks) ← simulation_tick (world z1) (traversal_world z1) (movement_rules z1);
  let '(z2, _) := process_inventory_intents (fun _ => None) (fun _ => None) order (set_world z1 w) in
  Ok (z2, mk_output (if movement_snapshots z2 then map (snapshot_of z2) spatial_updates else [])
                    (if gameplay_events z2 then destroyed_rocks else [])).

End Systems.
Arguments ZoneRuntime : clear implicits.
Arguments Rock : clear implicits.
Arguments MiningOutcome : clear implicits.

(** ** Restoring bags ([bootstrap.rs]) *)

Definition restore_bag (saved_at_tick server_boot_tick : Z) (st : DroppedBagManager * Z) (b : DroppedBagEntity)
  : DroppedBagManager * Z :=
  let '(manager, restored_count) := st in
  let elapsed_ticks_offline := saturating_sub_u server_boot_tick saved_at_tick in
  let total_elapsed := saturating_add_u 64 (saturating_sub_u saved_at_tick (spawned_at_tick b)) elapsed_ticks_offline in
  if decide (total_elapsed < decay_after_ticks b) then
    let b' := mk_bag (bag_id b) (original_owner b) (quadrant_x b) (quadrant_y b) (world_x b) (world_y b)
                server_boot_tick (saturating_sub_u (decay_after_ticks b) total_elapsed) (bag_items b) in
    (spawn_bag manager b', restored_count + 1)
  else st.

Definition restore_world_bags (manager : DroppedBagManager) (saved_at_tick : Z) (snapshot_bags : list DroppedBagEntity)
    (server_boot_tick : Z) : DroppedBagManager * Z :=
  foldl (restore_bag saved_at_tick server_boot_tick) (manager, 0) snapshot_bags.
