(* ===== verification/ZoneMovement.v ===== *)
(** The movement system of a zone ([crates/simulation/src/systems.rs]): what a tick
    does to every entity, whatever the order in which the query hands them out, and
    that it never fails on a well-formed zone. *)

From S2P Require Import Prelude Core Movement Traversal Ecs Zone.
Import World.

(** No character moves farther than this in a tick, on either axis. *)
Definition MAX_STEP : Z := 2 ^ 33.

Definition ground_ok (rules : MovementRules) (traversal : TraversalWorld) : Prop :=
  rules_ok rules /\ 32767 <= denominator rules /\ 0 < rule_radius_mm rules < 2 ^ 62 /\
  Forall (blocker_fits (rule_radius_mm rules)) (static_blockers traversal).

Definition standing (rules : MovementRules) (traversal : TraversalWorld) (p : WorldPositionMm) : Prop :=
  pos_ok p /\ free (rule_radius_mm rules) (static_blockers traversal) (px p) (py p).

Definition within (B : Z) (p : WorldPositionMm) : Prop := Z.abs (px p) <= B /\ Z.abs (py p) <= B.

Lemma validate_standing rules traversal p : ground_ok rules traversal -> pos_ok p ->
  validate_placement traversal p (rule_radius_mm rules) = Ok tt <-> standing rules traversal p.
Proof.
  intros (_ & _ & Hr & Hb) Hp. rewrite validate_placement_ok by (done || lia). unfold standing. tauto.
Qed.

(** The distance of a tick: exact but for less than a millimetre, which is carried. *)
Definition integrated (rules : MovementRules) (m : MovementInput) (r : MovementRemainder)
    (d : MovementDeltaMm) (r' : MovementRemainder) : Prop :=
  exists ax ay, normalized_axes m = Some (ax, ay) /\
    denominator rules * delta_x d + rem_x r' = rem_x r + rule_speed rules * ax /\
    denominator rules * delta_y d + rem_y r' = rem_y r + rule_speed rules * ay.

Lemma delta_bound D r r' s a d : 32767 <= D -> Z.abs r < D -> Z.abs r' < D -> 0 <= s < 2 ^ 32 ->
  Z.abs a <= 32767 -> D * d + r' = r + s * a -> Z.abs d < MAX_STEP.
Proof.
  unfold MAX_STEP. intros HD Hr Hr' Hs Ha E.
  assert (Z.abs (s * a) <= 2 ^ 32 * 32767) by (rewrite Z.abs_mul; nia).
  assert (D * Z.abs d < D * 2 ^ 33) by (rewrite <- (Z.abs_eq D) at 1 by lia; rewrite <- Z.abs_mul; nia).
  nia.
Qed.

Lemma integrate_total rules m r : rules_ok rules -> 32767 <= denominator rules -> input_ok m -> remainder_ok rules r ->
  exists d r', integrate rules m r = Some (Ok (d, r')) /\ integrated rules m r d r' /\ remainder_ok rules r' /\
    Z.abs (delta_x d) < MAX_STEP /\ Z.abs (delta_y d) < MAX_STEP.
Proof.
  intros Hru Hd Hm Hr. destruct (integrate_spec rules m r Hru Hm Hr) as (ax & ay & d & r' & E & Ei & Hr' & Ex & Ey).
  exists d, r'. destruct (normalized_axes_bounded m Hm) as (ax' & ay' & E' & Hax & Hay).
  rewrite E in E'. injection E' as <- <-. destruct Hru as [Hs _], Hr as [Hrx Hry], Hr' as [Hrx' Hry'].
  split_goals; [done|by exists ax, ay|done|exact (delta_bound _ _ _ _ _ _ Hd Hrx Hrx' Hs Hax Ex)|exact (delta_bound _ _ _ _ _ _ Hd Hry Hry' Hs Hay Ey)].
Qed.

Lemma resolve_standing rules traversal p d B : ground_ok rules traversal -> standing rules traversal p ->
  Z.abs (delta_x d) < MAX_STEP -> Z.abs (delta_y d) < MAX_STEP -> within B p -> B + MAX_STEP < 2 ^ 63 ->
  exists res, resolve_horizontal traversal p d (rule_radius_mm rules) = Ok res /\
    standing rules traversal (Traversal.position res) /\ within (B + MAX_STEP) (Traversal.position res) /\
    (delta_x d = 0 -> delta_y d = 0 -> Traversal.position res = p).
Proof.
  unfold MAX_STEP, within. intros (_ & _ & Hr & Hb) [Hp Hf] Hx Hy [Bx By] HB.
  destruct (resolve_horizontal_spec traversal p d (rule_radius_mm rules)) as
    (res & E & Ez & Ex & Ey & Sx & Sy & Fx & Fy & _); try done; try (unfold in_i; lia).
  exists res. destruct Hp as (H1 & H2 & H3).
  assert (pos_ok (Traversal.position res)) as Hpos by (unfold pos_ok, in_i in *; rewrite Ez; lia).
  split_goals; [done| |lia|lia|].
  - split; [done|]. apply Fy. lia.
  - intros Zx Zy. destruct p as [x y z], (Traversal.position res) as [x' y' z']. cbn in *. f_equal; lia.
Qed.

(** What a tick makes of an entity; only one with a movement intent changes. *)
Definition moved (traversal : TraversalWorld) (rules : MovementRules) (c : Components) : Components :=
  match move_entity traversal rules c with
  | Ok (c', true) => set_dirty true c'
  | Ok (c', false) => c'
  | Err _ => c
  end.

Lemma move_entity_spec rules traversal c p m r B : ground_ok rules traversal ->
  c_position c = Some p -> c_move c = Some m -> c_remainder c = Some r ->
  standing rules traversal p -> input_ok m -> remainder_ok rules r -> within B p -> B + MAX_STEP < 2 ^ 63 ->
  exists d r' res, integrated rules m r d r' /\ remainder_ok rules r' /\
    resolve_horizontal traversal p d (rule_radius_mm rules) = Ok res /\
    standing rules traversal (Traversal.position res) /\ within (B + MAX_STEP) (Traversal.position res) /\
    move_entity traversal rules c =
      Ok (set_position (Traversal.position res) (set_remainder r' c), bool_decide (Traversal.position res <> p)).
Proof.
  intros Hg Ep Em Er Hp Hm Hr HB HB'. pose proof Hg as (Hru & Hd & _ & _).
  destruct (integrate_total rules m r Hru Hd Hm Hr) as (d & r' & Ei & Hi & Hr' & Hx & Hy).
  destruct (resolve_standing rules traversal p d B Hg Hp Hx Hy HB HB') as (res & Eres & Hs & Hw & H0).
  exists d, r', res. split_goals; [done|done|done|done|done|].
  unfold move_entity. rewrite Ep, Em, Er. change (default (mk_rem 0 0) (Some r)) with r. rewrite Ei.
  assert (forall q, c_position c = Some q -> set_position q (set_remainder r' c) = set_remainder r' c) as Hsame
    by (intros q; destruct c; cbn; by intros ->).
  destruct (decide (delta_x d <> 0 \/ delta_y d <> 0)) as [|Hz].
  - rewrite Eres. cbn. destruct (decide (Traversal.position res <> p)) as [Hne|He].
    + by rewrite bool_decide_eq_true_2.
    + apply dec_stable in He. by rewrite bool_decide_eq_false_2, He, Hsame by (rewrite ?He; tauto || done).
  - rewrite H0 by lia. by rewrite bool_decide_eq_false_2, Hsame by (tauto || done).
Qed.

Section Tick.
Context {Entity W : Type} `{!Ecs Components Entity W} `{!EqDecision Entity} `{!EcsLaws Components Entity W}.
Context (traversal : TraversalWorld) (rules : MovementRules).

Definition movable (c : Components) : Prop := exists r, move_entity traversal rules c = Ok r.

(** Whether an entity's position changes. *)
Definition relocates (w : W) (e : Entity) : bool :=
  match ecs_get w e with
  | Some c => match move_entity traversal rules c with Ok (_, b) => b | Err _ => false end
  | None => false
  end.

Lemma relocates_put w e c e' : is_Some (ecs_get w e) -> e' <> e -> relocates (ecs_put w e c) e' = relocates w e'.
Proof. intros H Hne. unfold relocates. by rewrite get_put, decide_False. Qed.

Lemma filter_relocates w w' (l : list Entity) : (forall e, e ∈ l -> relocates w' e = relocates w e) ->
  filter (fun e => relocates w' e = true) l = filter (fun e => relocates w e = true) l.
Proof.
  induction l as [|e l IH]; intros H; [done|]. rewrite !filter_cons, IH by (intros; apply H; by right).
  specialize (H e ltac:(by left)). repeat case_decide; congruence.
Qed.

Lemma move_entities_spec l : NoDup l -> forall w modified,
  (forall e, e ∈ l -> exists c, ecs_get w e = Some c /\ movable c) ->
  exists w', move_entities traversal rules w l modified =
      Ok (w', modified ++ filter (fun e => relocates w e = true) l) /\
    forall e, ecs_get w' e =
      if decide (e ∈ l) then c ← ecs_get w e; match move_entity traversal rules c with Ok r => Some r.1 | Err _ => Some c end
      else ecs_get w e.
Proof.
  induction 1 as [|x l Hx Hl IH]; intros w modified Hall; cbn [move_entities].
  - exists w. split; [by rewrite app_nil_r|]. intros e. by rewrite decide_False by apply not_elem_of_nil.
  - destruct (Hall x ltac:(by left)) as (c & Ec & r & Er). rewrite Ec, Er. cbn [mbind result_bind].
    destruct (IH (ecs_put w x r.1) (if r.2 : bool then modified ++ [x] else modified)) as (w' & E & Hw').
    { intros e He. rewrite get_put by (by rewrite Ec). rewrite decide_False by (by intros ->).
      apply Hall. by right. }
    exists w'. rewrite E. split.
    + rewrite (filter_relocates w) by (intros e He; apply relocates_put; [by rewrite Ec|by intros ->]).
      rewrite filter_cons.
      assert (relocates w x = r.2) as Hr by (unfold relocates; rewrite Ec, Er; by destruct r).
      destruct (decide (relocates w x = true)) as [Hd|Hd]; rewrite Hr in Hd.
      * by rewrite Hd, <- app_assoc.
      * by destruct r.2.
    + intros e. rewrite Hw', get_put by (by rewrite Ec). destruct (decide (e = x)) as [->|Hne].
      * rewrite decide_False by done. rewrite decide_True by by left. rewrite Ec. cbn. by rewrite Er.
      * destruct (decide (e ∈ l)); [by rewrite decide_True by by right|].
        rewrite decide_False; [done|]. by intros [|]%elem_of_cons.
Qed.

(** Every entity takes its own step, in whatever order the query visits them. *)
Lemma movement_tick_get w : (forall e c, ecs_get w e = Some c -> movable c) ->
  exists w', movement_tick_system w traversal rules = Ok w' /\
    forall e, ecs_get w' e = moved traversal rules <$> ecs_get w e.
Proof.
  intros Hall. unfold movement_tick_system.
  destruct (move_entities_spec (ecs_query w moving) (query_nodup w moving) w []) as (w' & E & Hw').
  { intros e (c & Ec & _)%elem_query. exists c. eauto. }
  rewrite E. cbn. eexists. split; [done|]. intros e.
  rewrite get_try_update_all by (apply list.NoDup_filter, query_nodup). rewrite Hw'. clear E Hw'.
  destruct (ecs_get w e) as [c|] eqn:Ec; cbn [fmap option_fmap option_map mbind option_bind];
    [|by repeat case_decide].
  destruct (Hall e c Ec) as [[c' b] Er]. unfold moved. rewrite Er.
  destruct (decide (e ∈ ecs_query w moving)) as [Hin|Hnot].
  - destruct b.
    + rewrite decide_True; [done|]. apply list_elem_of_filter. unfold relocates. by rewrite Ec, Er.
    + rewrite decide_False; [done|]. unfold relocates. rewrite list_elem_of_filter, Ec, Er. by intros [].
  - rewrite decide_False by (rewrite list_elem_of_filter; tauto).
    assert (moving c = false) as Hm.
    { destruct (moving c) eqn:Em; [|done]. destruct Hnot. apply elem_query. by exists c. }
    unfold move_entity, moving in *. destruct (c_position c), (c_move c); cbn in Hm; try done; by simplify_eq.
Qed.
End Tick.
