(* ===== verification/ZoneMining.v ===== *)
(** The mining system of a zone ([crates/simulation/src/systems.rs]): which rock a
    miner hits, what the hits of a tick do to the rocks, and that nothing else is
    touched. *)

From S2P Require Import Prelude Core Movement Traversal Ecs Zone.
Import World.

Lemma saturating_sub_all l : Forall (fun p => 0 <= p) l -> forall h, 0 <= h ->
  foldl saturating_sub_u h l = Z.max 0 (h - foldr Z.add 0 l).
Proof.
  induction 1 as [|p l Hp Hl IH]; intros h Hh; cbn; [lia|].
  rewrite IH by (unfold saturating_sub_u; lia). unfold saturating_sub_u.
  assert (0 <= foldr Z.add 0 l) by (clear IH; induction Hl; cbn; lia). lia.
Qed.

Section Mining.
Context {Entity W : Type} `{!Ecs Components Entity W} `{!EqDecision Entity} `{!EcsLaws Components Entity W}.

Lemma elem_rocks w r : r ∈ collect_rocks w <-> exists c k, ecs_get w (rock_entity r) = Some c /\
  c_position c = Some (rock_pos r) /\ c_rock c = Some k /\ rock_health r = health k /\
  rock_resource_id r = wrap_u 32 (ecs_to_bits (rock_entity r)).
Proof.
  unfold collect_rocks. rewrite list_elem_of_omap. split.
  - intros (e & _ & H). destruct (ecs_get w e) as [c|] eqn:Ec; [|done]. cbn in H.
    destruct (c_position c) as [p|] eqn:Ep, (c_rock c) as [k|] eqn:Ek; try done. injection H as <-. cbn. by exists c, k.
  - intros (c & k & Ec & Ep & Ek & Hh & Hid). exists (rock_entity r). split.
    + apply elem_query. exists c. split; [done|]. unfold rocky. by rewrite Ep, Ek.
    + rewrite Ec. cbn. rewrite Ep. cbn. rewrite Ek. cbn. f_equal. destruct r; cbn in *. congruence.
Qed.

Lemma elem_miners w e p i : (e, p, i) ∈ collect_miners w <->
  exists c m, ecs_get w e = Some c /\ c_position c = Some p /\ c_mine c = Some m /\ power m = i.
Proof.
  unfold collect_miners. rewrite list_elem_of_omap. split.
  - intros (e' & _ & H). destruct (ecs_get w e') as [c|] eqn:Ec; [|done]. cbn in H.
    destruct (c_position c) as [q|] eqn:Ep, (c_mine c) as [m|] eqn:Em; try done. injection H as <- <- <-. by exists c, m.
  - intros (c & m & Ec & Ep & Em & <-). exists e. split.
    + apply elem_query. exists c. split; [done|]. unfold mining. by rewrite Ep, Em.
    + rewrite Ec. cbn. rewrite Ep. cbn. by rewrite Em.
Qed.

Lemma miners_nodup w : NoDup (map (fun i : Entity * WorldPositionMm * Z => i.1.1) (collect_miners w)).
Proof.
  unfold collect_miners. pose proof (query_nodup w mining) as Hn.
  assert (forall l : list Entity, NoDup l -> NoDup (map (fun i : Entity * WorldPositionMm * Z => i.1.1)
    (omap (fun e => c ← ecs_get w e; p ← c_position c; i ← c_mine c; Some (e, p, power i)) l)) /\
    forall e, e ∈ map (fun i : Entity * WorldPositionMm * Z => i.1.1)
      (omap (fun e => c ← ecs_get w e; p ← c_position c; i ← c_mine c; Some (e, p, power i)) l) -> e ∈ l) as H.
  { induction 1 as [|e l He Hl [IH1 IH2]]; cbn; [split; [constructor|done]|].
    destruct (c ← ecs_get w e; p ← c_position c; i ← c_mine c; Some (e, p, power i)) as [[[e' p] i]|] eqn:E.
    - assert (e' = e) as -> by (clear -E; destruct (ecs_get w e) as [c|]; [|done]; cbn in E; destruct (c_position c); [|done];
        cbn in E; destruct (c_mine c); [|done]; by injection E). cbn. split.
      + constructor; [|done]. intros Hin. by apply He, IH2.
      + intros x [->|Hx]%elem_of_cons; [by left|right; by apply IH2].
    - split; [done|]. intros x Hx. right. by apply IH2. }
  by apply H.
Qed.

(** ** The target of a miner *)

Definition in_reach (max_reach_sq : Z) (p : WorldPositionMm) (r : Rock Entity) : Prop :=
  distance_sq (rock_pos r) p <= max_reach_sq.

Definition nearest (max_reach_sq : Z) (p : WorldPositionMm) (rocks : list (Rock Entity)) (r : Rock Entity) : Prop :=
  r ∈ rocks /\ in_reach max_reach_sq p r /\
  forall r', r' ∈ rocks -> in_reach max_reach_sq p r' -> distance_sq (rock_pos r) p <= distance_sq (rock_pos r') p.

Lemma closest_rock_spec m p (rocks : list (Rock Entity)) :
  match closest_rock m p rocks with
  | Some (r, d) => nearest m p rocks r /\ d = distance_sq (rock_pos r) p
  | None => forall r, r ∈ rocks -> ~ in_reach m p r
  end.
Proof.
  unfold closest_rock, nearest, in_reach. induction rocks as [|x l IH] using rev_ind; [by intros r []%not_elem_of_nil|].
  rewrite foldl_app. cbn. destruct (foldl _ None l) as [[r d]|].
  - destruct IH as [(Hin & Hre & Hmin) ->]. case_decide as Hx; [case_decide as Hlt|].
    + split; [|done]. split_goals; [apply elem_of_app; right; by left|done|].
      intros r' [H|H%list_elem_of_singleton]%elem_of_app Hr'; [specialize (Hmin r' H Hr'); lia|subst; lia].
    + split; [|done]. split_goals; [apply elem_of_app; by left|done|].
      intros r' [H|H%list_elem_of_singleton]%elem_of_app Hr'; [by apply Hmin|subst; lia].
    + split; [|done]. split_goals; [apply elem_of_app; by left|done|].
      intros r' [H|H%list_elem_of_singleton]%elem_of_app Hr'; [by apply Hmin|by subst].
  - case_decide as Hx.
    + split; [|done]. split_goals; [apply elem_of_app; right; by left|done|].
      intros r' [H|H%list_elem_of_singleton]%elem_of_app Hr'; [by destruct (IH r' H)|by subst].
    + intros r' [H|H%list_elem_of_singleton]%elem_of_app; [by apply IH|by subst].
Qed.

Definition target (m : Z) (rocks : list (Rock Entity)) (p : WorldPositionMm) : option (Rock Entity) := fst <$> closest_rock m p rocks.

Lemma target_nearest m rocks p r : target m rocks p = Some r -> nearest m p rocks r.
Proof.
  unfold target. pose proof (closest_rock_spec m p rocks) as H. destruct (closest_rock m p rocks) as [[r' d]|]; [|done].
  intros [= <-]. tauto.
Qed.

Lemma target_none m rocks p : target m rocks p = None <-> forall r, r ∈ rocks -> ~ in_reach m p r.
Proof.
  unfold target. pose proof (closest_rock_spec m p rocks) as H. destruct (closest_rock m p rocks) as [[r' d]|]; [|done].
  split; [done|]. intros Hn. destruct H as [(Hin & Hre & _) _]. by destruct (Hn r' Hin).
Qed.

(** ** The hits of a tick *)

Abbreviation Miner := (Entity * WorldPositionMm * Z)%type.

(** The hits: the rock each miner hits and how hard, in the order of the miners. *)
Definition hits (m : Z) (rocks : list (Rock Entity)) (miners : list Miner) : list (Rock Entity * Z) :=
  omap (fun i : Miner => r ← target m rocks i.1.2; Some (r, i.2)) miners.

Definition lethal (h : Rock Entity * Z) : Prop := rock_health h.1 <= h.2.
#[global] Instance lethal_dec h : Decision (lethal h).
Proof. unfold lethal. apply _. Defined.

Definition destruction_of (r : Rock Entity) : RockDestroyedEvent :=
  {| resource_id := rock_resource_id r; rock_position := rock_pos r; b_active := false |}.

Lemma mine_all m rocks miners o :
  foldl (mine_one m rocks) o miners =
  mk_mining (damages o ++ map (fun h => (rock_entity h.1, h.2)) (hits m rocks miners))
    (destroyed o ++ map (fun h => destruction_of h.1) (filter lethal (hits m rocks miners)))
    (rocks_to_despawn o ++ map (fun h => rock_entity h.1) (filter lethal (hits m rocks miners))).
Proof.
  revert o. induction miners as [|[[e p] i] l IH]; intros o; cbn [foldl].
  - cbn. rewrite !app_nil_r. by destruct o.
  - rewrite IH. clear IH. unfold hits at 4 5 6. cbn [omap list_omap]. fold (hits m rocks l). unfold mine_one, target. cbn [fst snd].
    destruct (closest_rock m p rocks) as [[r d]|]; cbn [fmap option_fmap option_map mbind option_bind fst]; [|done].
    rewrite filter_cons.
    destruct (decide (lethal (r, i))) as [H|H]; [rewrite (decide_True (P := rock_health r <= i)) by exact H
      |rewrite (decide_False (P := rock_health r <= i)) by exact H]; cbn; by rewrite <- !app_assoc.
Qed.

Definition powers_on (e : Entity) (l : list (Entity * Z)) : list Z := map snd (filter (fun d => d.1 = e) l).

Lemma apply_damages l : forall (w : W) e,
  ecs_get (foldl apply_damage w l) e =
  (fun c => match c_rock c with
            | Some k => set_rock (mk_rock (foldl saturating_sub_u (health k) (powers_on e l)) (max_health k)) c
            | None => c end) <$> ecs_get w e.
Proof.
  induction l as [|[x d] l IH]; intros w e; cbn [foldl].
  - destruct (ecs_get w e) as [c|]; cbn; [|done]. destruct c as [? ? ? ? ? ? ? [[]|] ?]; done.
  - rewrite IH. unfold apply_damage, powers_on. cbn [fst snd]. rewrite filter_cons. cbn [fst].
    destruct (ecs_get w x) as [c|] eqn:Ec; [cbn; destruct (c_rock c) as [k|] eqn:Ek; cbn|cbn].
    + rewrite get_put by (by rewrite Ec). destruct (decide (e = x)) as [->|Hne].
      * rewrite Ec. cbn. rewrite Ek. by rewrite decide_True.
      * by rewrite (decide_False (P := x = e)) by congruence.
    + destruct (decide (x = e)) as [->|]; [|done]. rewrite Ec. cbn. by rewrite Ek.
    + destruct (decide (x = e)) as [->|]; [|done]. by rewrite Ec.
Qed.

Definition reach_sq (reach_distance_mm : Z) : Z :=
  let reach := Z.min (Z.max (reach_distance_mm + 1500) (- 2 ^ 63)) (2 ^ 63 - 1) in wrap_i 128 (reach * reach).

(** The hits of the tick on [w]. *)
Definition tick_hits (w : W) (reach : Z) : list (Rock Entity * Z) := hits (reach_sq reach) (collect_rocks w) (collect_miners w).

Definition hits_on (e : Entity) (l : list (Rock Entity * Z)) : list Z := map snd (filter (fun h => rock_entity h.1 = e) l).

Lemma powers_hits e l : powers_on e (map (fun h : Rock Entity * Z => (rock_entity h.1, h.2)) l) = hits_on e l.
Proof.
  unfold powers_on, hits_on. induction l as [|h l IH]; [done|]. cbn [map]. rewrite !filter_cons. cbn [fst].
  case_decide; cbn; by rewrite ?IH.
Qed.

(** What the hits make of the components of an entity. *)
Definition mined (l : list (Rock Entity * Z)) (e : Entity) (c : Components) : Components :=
  let c1 := match c_rock c with
            | Some k => set_rock (mk_rock (foldl saturating_sub_u (health k) (hits_on e l)) (max_health k)) c
            | None => c end in
  if mining c then set_mine None c1 else c1.

Lemma mining_tick_get w reach :
  let '(w', events) := mining_tick_system w reach in
  events = map (fun h => destruction_of h.1) (filter lethal (tick_hits w reach)) /\
  forall e, ecs_get w' e =
    if decide (e ∈ map (fun h => rock_entity h.1) (filter lethal (tick_hits w reach))) then None
    else mined (tick_hits w reach) e <$> ecs_get w e.
Proof.
  unfold mining_tick_system. fold (reach_sq reach). destruct (collect_miners w) as [|i l] eqn:E.
  - unfold tick_hits. rewrite E. cbn. split; [done|]. intros e.
    rewrite decide_False by apply not_elem_of_nil. destruct (ecs_get w e) as [c|] eqn:Ec; [|done]. cbn. f_equal.
    unfold mined. cbn. destruct (mining c) eqn:Em.
    + unfold mining in Em. apply andb_prop in Em as [[p Ep]%bool_decide_eq_true [m Em]%bool_decide_eq_true].
      assert ((e, p, power m) ∈ collect_miners w) as Hin by (apply elem_miners; by exists c, m).
      rewrite E in Hin. by apply not_elem_of_nil in Hin.
    + destruct c as [? ? ? ? ? ? ? [[]|] ?]; done.
  - rewrite <- E. clear i l E. rewrite mine_all. cbn. fold (tick_hits w reach). split; [done|]. intros e.
    rewrite get_try_despawn_all. case_decide as Hd; [done|]. clear Hd.
    rewrite get_try_update_all by apply miners_nodup. rewrite apply_damages, powers_hits.
    unfold mined. destruct (ecs_get w e) as [c|] eqn:Ec; cbn; [|by case_decide].
    case_decide as Hin; destruct (mining c) eqn:Em; try done.
    + apply list_elem_of_fmap in Hin as ([[e' p] q] & He & Hin). cbn in He. subst e'.
      apply elem_miners in Hin as (c' & m & Ec' & Ep & Emn & _). rewrite Ec in Ec'. injection Ec' as <-.
      unfold mining in Em. by rewrite Ep, Emn in Em.
    + destruct Hin. unfold mining in Em. apply andb_prop in Em as [[p Ep]%bool_decide_eq_true [m Emn]%bool_decide_eq_true].
      apply list_elem_of_fmap. exists (e, p, power m). split; [done|]. apply elem_miners. by exists c, m.
Qed.
End Mining.
