(* ===== verification/ZoneInventory.v ===== *)
(** The inventory requests of a zone ([process_inventory_intents] of
    [crates/simulation/src/zone.rs]), as a tick works them off: without item
    definitions, so that of the seven requests only moves, merges and drops can
    succeed.  Inventories stay well formed and no item is made or lost. *)

From S2P Require Import Prelude Core F32 Items Bags Loot Movement Traversal Ecs Zone.
Import World Grid Bags.Bags Equipment.

(** ** Sums over maps *)

Definition map_total {A} (f : A -> Z) (m : gmap Z A) : Z := map_fold (fun _ a s => f a + s) 0 m.

Section Totals.
Context {A : Type} (f : A -> Z).

Lemma map_total_empty : map_total f ∅ = 0.
Proof. apply map_fold_empty. Qed.

Lemma map_total_delete m k a : m !! k = Some a -> map_total f m = f a + map_total f (delete k m).
Proof. intros H. unfold map_total. rewrite (map_fold_delete_L (fun _ a s => f a + s) 0 k a m); [done|intros; lia|done]. Qed.

Lemma map_total_insert m k a : m !! k = None -> map_total f (<[k := a]> m) = f a + map_total f m.
Proof. intros H. unfold map_total. rewrite (map_fold_insert_L (fun _ a s => f a + s)); [done|intros; lia|done]. Qed.

Lemma map_total_update m k a b : m !! k = Some a -> map_total f (<[k := b]> m) + f a = map_total f m + f b.
Proof.
  intros H. rewrite (map_total_delete m k a H), <- insert_delete_eq.
  rewrite map_total_insert by apply lookup_delete_eq. lia.
Qed.
End Totals.

Lemma map_total_ext {A} (f g : A -> Z) m : (forall k a, m !! k = Some a -> f a = g a) -> map_total f m = map_total g m.
Proof.
  induction m as [|k a m Hk IH] using map_ind; intros H; [done|]. rewrite !map_total_insert by done.
  rewrite (H k a) by apply lookup_insert_eq. rewrite IH; [done|]. intros k' a' Hk'. apply (H k').
  rewrite lookup_insert_ne; [done|]. intros <-. congruence.
Qed.

(** Two functions that differ at one key only. *)
Lemma map_total_change {A} (f g : A -> Z) m k a : m !! k = Some a ->
  (forall k' a', k' <> k -> m !! k' = Some a' -> f a' = g a') ->
  map_total g m + f a = map_total f m + g a.
Proof.
  intros Hk H. rewrite !(map_total_delete _ m k a Hk).
  rewrite (map_total_ext f g (delete k m)); [lia|]. intros k' a' [Hne Hl]%lookup_delete_Some. by apply (H k').
Qed.

Lemma map_total_split {A} (f : A -> Z) (P : Z -> A -> bool) m :
  map_total f m = map_total f (filter (fun p => P p.1 p.2 = true) m) + map_total f (filter (fun p => P p.1 p.2 = false) m).
Proof.
  induction m as [|k a m Hk IH] using map_ind; [by rewrite !map_filter_empty, !map_total_empty|].
  rewrite map_total_insert by done. rewrite IH.
  destruct (P k a) eqn:E.
  - rewrite map_filter_insert_True by done. rewrite map_filter_insert_False by (cbn; congruence).
    rewrite map_total_insert by (apply map_lookup_filter_None; by left). rewrite delete_id by done. lia.
  - rewrite (map_filter_insert_False (fun p => P p.1 p.2 = true)) by (cbn; congruence). rewrite map_filter_insert_True by done.
    rewrite (map_total_insert _ (filter _ m)) by (apply map_lookup_filter_None; by left). rewrite delete_id by done. lia.
Qed.

(** ** Inventories *)

Record inventory_ok (inv : CharacterInventoryState) : Prop := {
  io_grid : grid_wf (inv_grid inv);
  io_items : forall k i, inv_items inv !! k = Some i -> item_id i = k /\ stack_ok i;
  io_placed : forall k, is_Some (placements (inv_grid inv) !! k) -> is_Some (inv_items inv !! k)
}.

Lemma inventory_new_ok c r : in_u 8 c -> in_u 8 r -> inventory_ok (inventory_new c r).
Proof.
  intros Hc Hr. split; cbn.
  - by apply grid_new_wf.
  - intros k i H. by rewrite lookup_empty in H.
  - intros k [p H]. by rewrite lookup_empty in H.
Qed.

Section Limit.
Context (limit : Z) (limit_ok : limit < 2 ^ 64).

(** The bags, with room for as many new ones as there are requests waiting: their
    numbers stay within [limit]. *)
Record bags_ok (m : DroppedBagManager) (next room : Z) : Prop := {
  bo_wf : manager_wf m;
  bo_ids : forall id b, bags m !! id = Some b -> id <= next;
  bo_next : 0 <= next /\ next + room <= limit
}.

Lemma bags_ok_room m next room room' : room' <= room -> bags_ok m next room -> bags_ok m next room'.
Proof. intros Hr [Hw Hi Hn]. split; [done|done|lia]. Qed.

Definition intent_ok (intent : PlayerInventoryIntent) : Prop :=
  match intent with
  | IntentLoot req => slot_ok (loot_slot req)
  | IntentMoveOrRotate req => slot_ok (move_slot req)
  | IntentSplit req _ => slot_ok (split_slot req)
  | IntentUnequip req => slot_ok (unequip_slot req)
  | _ => True
  end.

(** The effects a request of a tick can have. *)
Inductive effect (inv : CharacterInventoryState) (m : DroppedBagManager) (next : Z)
  : CharacterInventoryState -> DroppedBagManager -> Z -> Prop :=
| effect_none next' : next <= next' <= next + 1 -> effect inv m next inv m next'
| effect_move g k i : inv_items inv !! k = Some i -> grid_wf g ->
    (forall k', is_Some (placements g !! k') -> is_Some (placements (inv_grid inv) !! k')) ->
    effect inv m next (with_grid_items inv g (<[k := bump i]> (inv_items inv))) m next
| effect_merge s t source target a : s <> t ->
    inv_items inv !! s = Some source -> inv_items inv !! t = Some target ->
    definition_id source = definition_id target -> 0 <= a <= quantity source -> quantity target + a < 2 ^ 32 ->
    effect inv m next
      (with_grid_items inv (if decide (quantity source - a = 0) then (remove_item (inv_grid inv) s).1 else inv_grid inv)
        (if decide (quantity source - a = 0)
         then <[t := bump (set_quantity target (quantity target + a))]> (delete s (inv_items inv))
         else <[s := bump (set_quantity source (quantity source - a))]>
                (<[t := bump (set_quantity target (quantity target + a))]> (delete s (inv_items inv))))) m next
| effect_drop k i b o : inv_items inv !! k = Some i -> bag_id b = next + 1 -> bag_items b = [transfer_ownership i o] ->
    effect inv m next (with_grid_items inv (remove_item (inv_grid inv) k).1 (delete k (inv_items inv)))
      (spawn_bag m b) (next + 1).

Abbreviation no_dims := (fun _ : Z => @None InventoryDimensions).
Abbreviation no_slot := (fun _ : Z => @None EquipmentSlotKind).

Lemma with_items_same inv : with_grid_items inv (inv_grid inv) (inv_items inv) = inv.
Proof. by destruct inv. Qed.

Lemma loot_refused m g req pid pos : exists r, handle_loot_request m g req pid pos no_dims = (m, g, r) /\
  forall i, r <> LootSuccess i.
Proof.
  unfold handle_loot_request. repeat case_match; simplify_eq; eexists; by split.
Qed.

Lemma move_effect inv m next req item : inventory_ok inv -> slot_ok (move_slot req) ->
  inv_items inv !! move_item_id req = Some item ->
  let '(g', item', r) := handle_move_or_rotate_item (inv_grid inv) item req in
  effect inv m next (with_grid_items inv g' (<[move_item_id req := item']> (inv_items inv))) m next.
Proof.
  intros Hok Hs Hi. unfold handle_move_or_rotate_item. pose proof (io_grid inv Hok) as Hg.
  assert (effect inv m next (with_grid_items inv (inv_grid inv) (<[move_item_id req := item]> (inv_items inv))) m next) as Hnone.
  { rewrite insert_id, with_items_same by done. apply effect_none. lia. }
  case_decide; [done|]. case_decide; [done|].
  destruct (rotate_or_move (inv_grid inv) (item_id item) (move_slot req) (move_rotation req)) as [g' r] eqn:E.
  destruct (rotate_or_move_wf _ _ _ _ _ _ Hg Hs E) as [Hg' Hsame].
  destruct r as [[]|e]; cbn.
  - apply effect_move; [done..|]. apply rotate_or_move_ok in E as (p & Hp & _ & Hpl); [|done..].
    apply place_item_cells in Hpl as (_ & -> & _); [|apply remove_item_wf, Hg|done].
    rewrite remove_item_placements by done. intros k'.
    rewrite lookup_insert_is_Some', lookup_delete_is_Some. intros [<-|[_ ?]]; [by rewrite Hp|done].
  - by rewrite (Hsame eq_refl).
Qed.

Lemma handle_merge_cases g source target req : stack_ok source -> stack_ok target ->
  (exists e, handle_merge_stack g source target 100 req = (g, source, target, Err e)) \/
  exists a, definition_id source = definition_id target /\ 0 <= a <= quantity source /\ quantity target + a < 2 ^ 32 /\
    handle_merge_stack g source target 100 req =
      (if decide (quantity source - a = 0) then (remove_item g (item_id source)).1 else g,
       bump (set_quantity source (quantity source - a)), bump (set_quantity target (quantity target + a)),
       Ok (bool_decide (quantity source - a = 0))).
Proof.
  unfold stack_ok, in_u. intros Hqs Hqt. unfold handle_merge_stack.
  destruct (decide (item_id source <> _ \/ _)); [left; by eexists|].
  destruct (decide (revision source <> _ \/ _)); [left; by eexists|].
  destruct (decide (definition_id source <> _)) as [|Hdef]; [left; by eexists|]. apply dec_stable in Hdef.
  destruct (decide (quantity target >= 100)); [left; by eexists|]. right. cbv zeta.
  rewrite (wrap_u_small 32 (100 - _)) by (unfold in_u; lia).
  exists (Z.min (quantity source) (100 - quantity target)).
  set (a := Z.min (quantity source) (100 - quantity target)).
  rewrite (wrap_u_small 32 (quantity source - a)), (wrap_u_small 32 (quantity target + a)) by (unfold in_u; lia).
  split_goals; [done|lia|lia|lia|].
  change (quantity (bump (set_quantity source (quantity source - a)))) with (quantity source - a).
  change (item_id (bump (set_quantity source (quantity source - a)))) with (item_id source).
  destruct (decide (quantity source - a = 0)); [by rewrite bool_decide_eq_true_2|by rewrite bool_decide_eq_false_2].
Qed.

Lemma merge_effect inv m next req : inventory_ok inv ->
  effect inv m next (process_merge inv req).1 m next.
Proof.
  intros Hok. unfold process_merge.
  destruct (inv_items inv !! merge_source_id req) as [source|] eqn:Es; [|apply effect_none; lia].
  destruct (io_items inv Hok _ _ Es) as [Hids Hqs].
  destruct (delete (merge_source_id req) (inv_items inv) !! merge_target_id req) as [target|] eqn:Et; cbn [fst].
  2: { rewrite Hids, insert_delete_id, with_items_same by done. apply effect_none; lia. }
  apply lookup_delete_Some in Et as [Hne Et]. destruct (io_items inv Hok _ _ Et) as [Hidt Hqt].
  destruct (handle_merge_cases (inv_grid inv) source target req Hqs Hqt) as [[e ->]|(a & Hdef & Ha & Hq & ->)].
  - cbn [fst]. rewrite Hids, (insert_id (delete _ _)) by (by rewrite lookup_delete_ne).
    rewrite insert_delete_id, with_items_same by done. apply effect_none; lia.
  - pose proof (effect_merge inv m next _ _ source target a Hne Es Et Hdef Ha Hq) as Heff.
    rewrite Hids. change (item_id (bump (set_quantity source (quantity source - a)))) with (item_id source). rewrite Hids.
    destruct (decide (quantity source - a = 0)) as [Hz|Hz];
      [by rewrite bool_decide_eq_true_2|by rewrite bool_decide_eq_false_2].
Qed.

Lemma split_refused g source req new_id : exists e, handle_split_stack g source req new_id no_dims = (g, source, Err e).
Proof. unfold handle_split_stack. repeat case_match; simplify_eq; by eexists. Qed.

Lemma equip_refused g e item req : exists r, handle_equip_item g e item req no_slot = (g, e, item, r).
Proof. unfold handle_equip_item. repeat case_match; simplify_eq; by eexists. Qed.

Lemma unequip_refused g e req : exists r, handle_unequip_item g e req no_dims = (g, e, Err r).
Proof. unfold handle_unequip_item. repeat case_match; simplify_eq; by eexists. Qed.

Lemma process_intent_effect pid pos t inv m next room intent : inventory_ok inv -> bags_ok m next room -> 1 <= room ->
  intent_ok intent ->
  let '(inv', m', next', _) := process_intent no_dims no_slot pid pos t m next inv intent in effect inv m next inv' m' next'.
Proof.
  intros Hok Hb Hroom Hi. assert (effect inv m next inv m next) as Hnone by (apply effect_none; lia).
  destruct intent as [req|req|req|req new|req|req|req]; cbn [process_intent intent_ok] in *.
  - destruct (loot_refused m (inv_grid inv) req pid pos) as (r & -> & Hr).
    assert (match r with LootSuccess item => <[item_id item := item]> (inv_items inv) | _ => inv_items inv end = inv_items inv)
      as -> by (destruct r; try done; by destruct (Hr item)). by rewrite with_items_same.
  - destruct (inv_items inv !! move_item_id req) as [item|] eqn:E; [|done].
    pose proof (move_effect inv m next req item Hok Hi E) as H.
    by destruct (handle_move_or_rotate_item _ _ _) as [[g' item'] r].
  - pose proof (merge_effect inv m next req Hok) as H. by destruct (process_merge inv req).
  - destruct (inv_items inv !! split_source_id req) as [source|] eqn:E; [|done].
    destruct (split_refused (inv_grid inv) source req new) as (e & ->). by rewrite insert_id, with_items_same.
  - destruct (inv_items inv !! drop_item_id req) as [item|] eqn:E; [|done].
    destruct (io_items inv Hok _ _ E) as [Hid _]. destruct (bo_next _ _ _ Hb) as [Hn1 Hn2].
    unfold saturating_add_u. rewrite Z.min_l by (unfold u_max; lia). unfold handle_drop_item.
    case_decide; [|case_decide].
    1,2: rewrite Hid, insert_delete_id, with_items_same by done; apply effect_none; lia.
    rewrite Hid. by eapply effect_drop.
  - destruct (inv_items inv !! equip_item_id req) as [item|] eqn:E; [|done].
    destruct (equip_refused (inv_grid inv) (inv_equipment inv) item req) as (r & ->).
    rewrite insert_id by done. by destruct inv.
  - destruct (unequip_refused (inv_grid inv) (inv_equipment inv) req) as (r & ->). by destruct inv.
Qed.

(** ** What the effects preserve *)

Lemma transfer_ownership_quantity i o : quantity (transfer_ownership i o) = quantity i.
Proof. unfold transfer_ownership. by case_decide. Qed.

Lemma transfer_ownership_definition i o : definition_id (transfer_ownership i o) = definition_id i.
Proof. unfold transfer_ownership. by case_decide. Qed.

Lemma effect_ok inv m next room inv' m' next' : inventory_ok inv -> bags_ok m next room -> 1 <= room ->
  effect inv m next inv' m' next' -> inventory_ok inv' /\ bags_ok m' next' (room - 1) /\ inv_equipment inv' = inv_equipment inv.
Proof.
  intros [Hg Hit Hpl] [Hw Hid Hn] Hroom H.
  destruct H as [next' Hn'|g k i Hk Hg' Hp|s t source target a Hne Hs Ht Hd Ha Hq|k i b o Hk Hb1 Hb2]; cbn.
  - split_goals; [done| |done]. split; [done| |lia]. intros id b E. specialize (Hid id b E). lia.
  - split_goals; [|split; [done|done|lia]|done]. split; cbn; [done| |].
    + intros k' i' [[<- <-]|[_ ?]]%lookup_insert_Some; [by apply (Hit k i)|by apply Hit].
    + intros k' [p E]. apply lookup_insert_is_Some'. right. apply Hpl, Hp. by exists p.
  - destruct (Hit s source Hs) as [Ids Hqs], (Hit t target Ht) as [Idt Hqt]. unfold stack_ok, in_u in *.
    split_goals; [|split; [done|done|lia]|done]. case_decide as Hz; split; cbn.
    + by apply remove_item_wf.
    + intros k i [[<- <-]|[_ [_ ?]%lookup_delete_Some]]%lookup_insert_Some; [|by apply Hit].
      cbn. unfold stack_ok, in_u. cbn. lia.
    + intros k. rewrite remove_item_placements by done. intros [Hk ?]%lookup_delete_is_Some.
      rewrite lookup_insert_is_Some', lookup_delete_is_Some. right. split; [done|by apply Hpl].
    + done.
    + intros k i [[<- <-]|[_ [[<- <-]|[_ [_ ?]%lookup_delete_Some]]%lookup_insert_Some]]%lookup_insert_Some;
        [| |by apply Hit]; cbn; unfold stack_ok, in_u; cbn; lia.
    + intros k ?. rewrite !lookup_insert_is_Some', lookup_delete_is_Some.
      destruct (decide (s = k)); [by left|]. right. right. split; [done|by apply Hpl].
  - split_goals; [split; cbn| |done].
    + by apply remove_item_wf.
    + intros k' i' [_ ?]%lookup_delete_Some. by apply Hit.
    + intros k'. rewrite remove_item_placements by done. rewrite !lookup_delete_is_Some. intros [? ?]. split; [done|by apply Hpl].
    + assert (bags m !! bag_id b = None) as Hf.
      { destruct (bags m !! bag_id b) eqn:E; [|done]. specialize (Hid _ _ E). lia. }
      split; [by apply spawn_bag_wf| |lia]. intros id b'. cbn.
      intros [[<- _]|[_ E]]%lookup_insert_Some; [lia|]. specialize (Hid _ _ E). lia.
Qed.

(** A quantity summed over the items of the inventories and of the bags.  [R] is
    equality, for what is conserved, or "at most", for what may only decrease. *)
Record measure (f : ItemInstance -> Z) (R : Z -> Z -> Prop) : Prop := {
  R_refl : forall a, R a a;
  R_shift : forall a b c, R a b -> R (a + c) (b + c);
  f_bump : forall i, f (bump i) = f i;
  f_transfer : forall i o, f (transfer_ownership i o) = f i;
  f_merge : forall source target a, definition_id source = definition_id target ->
    R ((if decide (quantity source - a = 0) then 0 else f (set_quantity source (quantity source - a)))
       + f (set_quantity target (quantity target + a))) (f source + f target)
}.

Section Measure.
Context (f : ItemInstance -> Z).

Definition items_total (inv : CharacterInventoryState) : Z := map_total f (inv_items inv).
Definition bag_total (b : DroppedBagEntity) : Z := foldr Z.add 0 (map f (bag_items b)).
Definition bags_total (m : DroppedBagManager) : Z := map_total bag_total (bags m).

Lemma effect_total R inv m next room inv' m' next' : measure f R -> bags_ok m next room -> effect inv m next inv' m' next' ->
  R (items_total inv' + bags_total m') (items_total inv + bags_total m).
Proof.
  intros [HRr HRs Hfb Hft Hfm] [_ Hid Hn] H. unfold items_total.
  destruct H as [next' Hn'|g k i Hk Hg' Hp|s t source target a Hne Hs Ht Hd Ha Hq|k i b o Hk Hb1 Hb2]; cbn.
  - apply HRr.
  - apply (HRs _ _ (bags_total m)).
    pose proof (map_total_update f (inv_items inv) k i (bump i) Hk) as E. rewrite Hfb in E.
    assert (map_total f (<[k:=bump i]> (inv_items inv)) = map_total f (inv_items inv)) as -> by lia. apply HRr.
  - apply (HRs _ _ (bags_total m)).
    assert (delete s (inv_items inv) !! t = Some target) as Ht' by (by rewrite lookup_delete_ne).
    pose proof (map_total_update f (delete s (inv_items inv)) t target (bump (set_quantity target (quantity target + a))) Ht') as E.
    rewrite Hfb in E. rewrite (map_total_delete f (inv_items inv) s source Hs).
    pose proof (Hfm source target a Hd) as HR.
    assert (forall x y, R (x + f (set_quantity target (quantity target + a))) (f source + f target) ->
      y = x + map_total f (<[t := bump (set_quantity target (quantity target + a))]> (delete s (inv_items inv))) ->
      R y (f source + map_total f (delete s (inv_items inv)))) as Hfin.
    { intros x y Hx ->. replace (x + map_total f (<[t:=bump (set_quantity target (quantity target + a))]> (delete s (inv_items inv))))
        with (x + f (set_quantity target (quantity target + a)) + (map_total f (delete s (inv_items inv)) - f target)) by lia.
      replace (f source + map_total f (delete s (inv_items inv)))
        with (f source + f target + (map_total f (delete s (inv_items inv)) - f target)) by lia. by apply HRs. }
    case_decide as Hz; (eapply Hfin; [exact HR|]); [done|].
    rewrite map_total_insert; [by rewrite Hfb|].
    rewrite lookup_insert_ne by done. apply lookup_delete_eq.
  - rewrite (map_total_delete f (inv_items inv) k i Hk). unfold bags_total, spawn_bag. cbn.
    rewrite map_total_insert.
    + unfold bag_total at 1. rewrite Hb2. cbn. rewrite Hft.
      match goal with |- R ?x ?y => replace x with y by lia end. apply HRr.
    + destruct (bags m !! bag_id b) eqn:E; [|done]. specialize (Hid _ _ E). lia.
Qed.
End Measure.

(** ** The requests of a tick *)

Section Requests.
Context {Entity W : Type} `{!Ecs Components Entity W} `{!EqDecision Entity} `{!EcsLaws Components Entity W}.

Abbreviation Zone := (ZoneRuntime Entity W).

(** Every character is an entity of its own with a sound inventory. *)
Record inventories_ok (z : Zone) : Prop := {
  ic_distinct : forall cid cid' e, entity_map z !! cid = Some e -> entity_map z !! cid' = Some e -> cid = cid';
  ic_inventory : forall cid e, entity_map z !! cid = Some e ->
    exists c inv, ecs_get (world z) e = Some c /\ c_inventory c = Some inv /\ inventory_ok inv
}.

(** Only the inventory of the entity may have changed. *)
Definition inventory_only (c c' : Components) : Prop :=
  c' = c \/ exists i i', c_inventory c = Some i /\ c' = set_inventory i' c /\ inv_equipment i' = inv_equipment i.

Lemma inventory_only_trans c1 c2 c3 : inventory_only c1 c2 -> inventory_only c2 c3 -> inventory_only c1 c3.
Proof.
  intros [->|(i & i' & Hi & -> & E)] [->|(j & j' & Hj & -> & E')]; [by left|right; by exists j, j'|right; by exists i, i'|].
  right. exists i, j'. cbn in Hj. injection Hj as <-. split; [done|]. split; [by destruct c1|congruence].
Qed.

Definition same_but_inventories (w w' : W) : Prop :=
  forall e, match ecs_get w e, ecs_get w' e with
            | Some c, Some c' => inventory_only c c'
            | None, None => True
            | _, _ => False
            end.

Lemma same_refl w : same_but_inventories w w.
Proof. intros e. destruct (ecs_get w e); [by left|done]. Qed.

Lemma same_trans w1 w2 w3 : same_but_inventories w1 w2 -> same_but_inventories w2 w3 -> same_but_inventories w1 w3.
Proof.
  intros H1 H2 e. specialize (H1 e). specialize (H2 e).
  destruct (ecs_get w1 e), (ecs_get w2 e), (ecs_get w3 e); try done. by eapply inventory_only_trans.
Qed.

Section ZoneMeasure.
Context (f : ItemInstance -> Z).
Definition inventory_total (w : W) (e : Entity) : Z := items_total f (inventory_or_new w e).
(** The sum over the inventories of the characters and over the bags. *)
Definition zone_total (z : Zone) : Z := map_total (inventory_total (world z)) (entity_map z) + bags_total f (dropped_bags z).
End ZoneMeasure.

(** One request: the zone but for one inventory and the bags stays as it is. *)
Lemma process_one_spec z events pid intent room : inventories_ok z -> bags_ok (dropped_bags z) (next_bag_id z) room -> 1 <= room ->
  intent_ok intent ->
  exists w b n events', process_one no_dims no_slot (z, events) (pid, intent) = (set_bags (set_world z w) b n, events') /\
    inventories_ok (set_bags (set_world z w) b n) /\ bags_ok b n (room - 1) /\ same_but_inventories (world z) w /\
    forall f R, measure f R -> R (zone_total f (set_bags (set_world z w) b n)) (zone_total f z).
Proof.
  intros Hz Hb Hroom Hi. unfold process_one.
  assert (forall evs : list InventoryEvent, exists w b n events', (z, evs) = (set_bags (set_world z w) b n, events') /\
    inventories_ok (set_bags (set_world z w) b n) /\ bags_ok b n (room - 1) /\ same_but_inventories (world z) w /\
    forall f R, measure f R -> R (zone_total f (set_bags (set_world z w) b n)) (zone_total f z)) as Hskip.
  { intros evs. exists (world z), (dropped_bags z), (next_bag_id z), evs.
    assert (set_bags (set_world z (world z)) (dropped_bags z) (next_bag_id z) = z) as -> by (by destruct z).
    split_goals; [done|done|eapply bags_ok_room; [|done]; lia|apply same_refl|]. intros f R HR. apply HR. }
  destruct (entity_map z !! pid) as [e|] eqn:Ee; [|apply Hskip]. cbn [mbind option_bind].
  destruct (ic_inventory z Hz pid e Ee) as (c & inv & Ec & Einv & Hinv). rewrite Ec. cbn [mbind option_bind].
  destruct (c_position c) as [p|] eqn:Ep; [|apply Hskip]. cbn [mbind option_bind]. rewrite Einv. cbn [mbind option_bind].
  pose proof (process_intent_effect pid (metres p) (tick z) inv (dropped_bags z) (next_bag_id z) room intent Hinv Hb Hroom Hi) as H.
  destruct (process_intent _ _ _ _ _ _ _ _ _) as [[[inv' b] n] ev].
  destruct (effect_ok _ _ _ _ _ _ _ Hinv Hb Hroom H) as (Hinv' & Hb' & Heq).
  assert (forall e', ecs_get (ecs_put (world z) e (set_inventory inv' c)) e' =
    if decide (e' = e) then Some (set_inventory inv' c) else ecs_get (world z) e') as Hget
    by (intros e'; by rewrite get_put by (by rewrite Ec)).
  eexists _, b, n, _. split; [done|]. split_goals; [|done| |].
  - split; cbn; [apply (ic_distinct z Hz)|]. intros cid e' Ee'. rewrite Hget. case_decide as He; [subst e'|].
    + by exists (set_inventory inv' c), inv'.
    + by apply (ic_inventory z Hz cid).
  - intros e'. rewrite Hget. case_decide as He; [subst e'|].
    + rewrite Ec. right. by exists inv, inv'.
    + destruct (ecs_get (world z) e'); [by left|done].
  - intros f R HR. pose proof (effect_total f R _ _ _ _ _ _ _ HR Hb H) as Ht. unfold zone_total. cbn.
    set (w' := ecs_put (world z) e (set_inventory inv' c)) in *.
    assert (inventory_total f (world z) e = items_total f inv) as E1
      by (unfold inventory_total, inventory_or_new; rewrite Ec; cbn; by rewrite Einv).
    assert (inventory_total f w' e = items_total f inv') as E2
      by (unfold inventory_total, inventory_or_new; rewrite Hget, decide_True by done; done).
    pose proof (map_total_change (inventory_total f (world z)) (inventory_total f w') (entity_map z) pid e Ee) as E.
    rewrite E1, E2 in E.
    assert (map_total (inventory_total f w') (entity_map z) + items_total f inv =
            map_total (inventory_total f (world z)) (entity_map z) + items_total f inv') as E'.
    { apply E. intros k e' Hk He'. unfold inventory_total, inventory_or_new. rewrite Hget, decide_False; [done|].
      intros ->. by apply Hk, (ic_distinct z Hz _ _ e). }
    replace (map_total (inventory_total f w') (entity_map z) + bags_total f b)
      with (items_total f inv' + bags_total f b + (map_total (inventory_total f (world z)) (entity_map z) - items_total f inv)) by lia.
    replace (map_total (inventory_total f (world z)) (entity_map z) + bags_total f (dropped_bags z))
      with (items_total f inv + bags_total f (dropped_bags z) + (map_total (inventory_total f (world z)) (entity_map z) - items_total f inv)) by lia.
    by apply (R_shift f R HR).
Qed.
Lemma process_all intents : forall z events room, inventories_ok z -> bags_ok (dropped_bags z) (next_bag_id z) room ->
  Z.of_nat (length intents) <= room -> Forall (fun r => intent_ok r.2) intents ->
  exists w b n events', foldl (process_one no_dims no_slot) (z, events) intents = (set_bags (set_world z w) b n, events') /\
    inventories_ok (set_bags (set_world z w) b n) /\ bags_ok b n (room - Z.of_nat (length intents)) /\ same_but_inventories (world z) w /\
    forall f R, measure f R -> (forall a b c, R a b -> R b c -> R a c) ->
      R (zone_total f (set_bags (set_world z w) b n)) (zone_total f z).
Proof.
  induction intents as [|[pid intent] l IH]; intros z events room Hz Hb Hroom Hall; cbn [foldl].
  - exists (world z), (dropped_bags z), (next_bag_id z), events.
    assert (set_bags (set_world z (world z)) (dropped_bags z) (next_bag_id z) = z) as -> by (by destruct z).
    split_goals; [done|done|eapply bags_ok_room; [|done]; cbn; lia|apply same_refl|]. intros f R HR _. apply HR.
  - apply list.Forall_cons in Hall as [Hi Hall]. cbn [length] in Hroom.
    destruct (process_one_spec z events pid intent room Hz Hb ltac:(lia) Hi) as (w & b & n & ev & E & Hz' & Hb' & Hs & Hm).
    rewrite E. destruct (IH (set_bags (set_world z w) b n) ev (room - 1) Hz' Hb' ltac:(lia) Hall)
      as (w' & b' & n' & ev' & E' & Hz'' & Hb'' & Hs' & Hm').
    rewrite E'. exists w', b', n', ev'. split; [done|].
    split_goals; [done|eapply bags_ok_room; [|done]; cbn [length]; lia|by eapply same_trans|].
    intros f R HR HT. exact (HT _ _ _ (Hm' f R HR HT) (Hm f R HR)).
Qed.

(** The bags that outlive the tick [t]. *)
Definition unexpired (t : Z) (m : gmap Z DroppedBagEntity) : gmap Z DroppedBagEntity :=
  filter (fun p => negb (is_expired p.2 t) = true) m.
Definition expired (t : Z) (m : gmap Z DroppedBagEntity) : gmap Z DroppedBagEntity :=
  filter (fun p => negb (is_expired p.2 t) = false) m.

Lemma decay_spec order m t : manager_wf m -> (forall id, id ∈ order <-> is_Some (bags m !! id)) ->
  let m' := (tick_decay order m t).1 in manager_wf m' /\ bags m' = unexpired t (bags m).
Proof.
  intros Hw Hord. unfold tick_decay. cbn [fst]. set (ids := filter _ order).
  destruct (decay_all ids m Hw) as [Hw' Hl]. split; [done|]. apply map_eq. intros id. rewrite Hl.
  unfold unexpired. rewrite map_lookup_filter. unfold ids.
  case_decide as Hin; rewrite list_elem_of_filter, Hord in Hin; destruct (bags m !! id) as [b|] eqn:E; cbn in *; try done.
  - by rewrite option_guard_False by (destruct Hin as [-> _]; done).
  - rewrite option_guard_True; [done|]. destruct (is_expired b t) eqn:Ex; [|done]. destruct Hin. by split.
Qed.

Lemma process_inventory_spec order (z : Zone) room : inventories_ok z ->
  bags_ok (dropped_bags z) (next_bag_id z) (Z.of_nat (length (pending_inventory_intents z)) + room) -> 0 <= room ->
  (forall id, id ∈ order <-> is_Some (bags (dropped_bags z) !! id)) ->
  Forall (fun r => intent_ok r.2) (pending_inventory_intents z) ->
  exists w b n events, process_inventory_intents no_dims no_slot order z = (set_pending (set_bags (set_world z w) b n) [], events) /\
    inventories_ok (set_bags (set_world z w) b n) /\ bags_ok b n room /\ same_but_inventories (world z) w /\
    forall f R, measure f R -> (forall a b c, R a b -> R b c -> R a c) ->
      R (zone_total f (set_bags (set_world z w) b n) + map_total (bag_total f) (expired (tick z) (bags (dropped_bags z)))) (zone_total f z).
Proof.
  intros Hz Hb Hroom Hord Hall. unfold process_inventory_intents.
  destruct (decay_spec order (dropped_bags z) (tick z) (bo_wf _ _ _ Hb) Hord) as [Hw' Hbags].
  destruct (tick_decay order (dropped_bags z) (tick z)) as [m' ids]. cbn [fst] in *.
  set (z1 := set_pending (set_bags z m' (next_bag_id z)) []).
  assert (inventories_ok z1) as Hz1 by (by split; apply Hz).
  assert (bags_ok (dropped_bags z1) (next_bag_id z1) (Z.of_nat (length (pending_inventory_intents z)) + room)) as Hb1.
  { split; [done| |apply Hb]. intros id b. cbn. rewrite Hbags. intros [E _]%map_lookup_filter_Some. by eapply (bo_ids _ _ _ Hb). }
  destruct (process_all (pending_inventory_intents z) z1 [] _ Hz1 Hb1 ltac:(lia) Hall)
    as (w & b & n & ev & E & Hz2 & Hb2 & Hs & Hm).
  rewrite E. exists w, b, n, ev. split; [done|]. split_goals; [|eapply bags_ok_room; [|done]; lia|done|].
  - by split; apply Hz2.
  - intros f R HR HT. specialize (Hm f R HR HT).
    assert (zone_total f z = zone_total f z1 + map_total (bag_total f) (expired (tick z) (bags (dropped_bags z)))) as ->.
    { unfold zone_total, bags_total. cbn. rewrite Hbags.
      rewrite (map_total_split (bag_total f) (fun _ b => negb (is_expired b (tick z))) (bags (dropped_bags z))).
      unfold unexpired, expired. lia. }
    by apply (R_shift f R HR).
Qed.
End Requests.
End Limit.

(** ** The two measures: quantities and identities *)

Definition quantity_of (d : Z) (i : ItemInstance) : Z := if decide (definition_id i = d) then quantity i else 0.
Definition occurs (id : Z) (i : ItemInstance) : Z := if decide (item_id i = id) then 1 else 0.

Lemma quantity_measure d : measure (quantity_of d) eq.
Proof.
  unfold quantity_of. split.
  - done.
  - by intros a b c ->.
  - by intros i.
  - intros i o. by rewrite transfer_ownership_quantity, transfer_ownership_definition.
  - intros source target a E. cbn. rewrite E. repeat case_decide; lia.
Qed.

Lemma occurs_measure id : measure (occurs id) Z.le.
Proof.
  unfold occurs. split.
  - intros a. lia.
  - intros a b c. lia.
  - by intros i.
  - intros i o. by rewrite transfer_ownership_id.
  - intros source target a E. cbn. repeat case_decide; lia.
Qed.
