(* ===== verification/ZoneSafety.v ===== *)
(** The zone as a whole ([crates/simulation/src/zone.rs]): its invariant, which
    commands it accepts, and its tick.  A zone of age [n] has taken [n] commands and
    ticks; up to the age of [MAX_AGE] nothing can overflow. *)

From S2P Require Import Prelude Core F32 Items Bags Loot Movement Traversal Ecs Zone ZoneMovement ZoneMining ZoneInventory.
Import World Grid Bags.Bags Equipment.

(** 2^28 events: at 20 ticks a second, 155 days. *)
Definition MAX_AGE : Z := 2 ^ 28.
(** Characters appear this far from the origin at most, in millimetres. *)
Definition MAX_SPAWN : Z := 2 ^ 61.
Definition reach_at (n : Z) : Z := MAX_SPAWN + n * MAX_STEP.

Record character_ok (rules : MovementRules) (traversal : TraversalWorld) (n cid : Z) (c : Components) : Prop := {
  co_identity : c_identity c = Some cid;
  co_position : exists p, c_position c = Some p /\ standing rules traversal p /\ within (reach_at n) p;
  co_remainder : exists r, c_remainder c = Some r /\ remainder_ok rules r;
  co_player : c_player c = true;
  co_move : forall m, c_move c = Some m -> input_ok m;
  co_mine : forall m, c_mine c = Some m -> miner m = cid /\ in_u 32 (power m);
  co_rock : c_rock c = None
}.

Record rock_ok (c : Components) : Prop := {
  ro_identity : c_identity c = None;
  ro_position : exists p, c_position c = Some p /\ pos_ok p;
  ro_rock : exists k, c_rock c = Some k /\ 0 <= health k <= max_health k /\ max_health k < 2 ^ 32;
  ro_rest : c_move c = None /\ c_mine c = None /\ c_inventory c = None /\ c_dirty c = false
}.

Section Zone.
Context {Entity W : Type} `{!Ecs Components Entity W} `{!EqDecision Entity} `{!EcsLaws Components Entity W}.

Abbreviation Zone := (ZoneRuntime Entity W).

Record zone_wf (n : Z) (z : Zone) : Prop := {
  zw_ground : ground_ok (movement_rules z) (traversal_world z);
  zw_age : 0 <= tick z <= n /\ next_bag_id z + Z.of_nat (length (pending_inventory_intents z)) <= n;
  zw_characters : forall cid e, entity_map z !! cid = Some e ->
    exists c, ecs_get (world z) e = Some c /\ character_ok (movement_rules z) (traversal_world z) n cid c;
  zw_entities : forall e c, ecs_get (world z) e = Some c ->
    (exists cid, c_identity c = Some cid /\ entity_map z !! cid = Some e) \/ rock_ok c;
  zw_inventories : inventories_ok z;
  zw_last : forall cid s, last_processed_inputs z !! cid = Some s -> is_Some (entity_map z !! cid);
  zw_revisions : forall cid, is_Some (inventory_revisions z !! cid) <-> is_Some (entity_map z !! cid);
  zw_bags : manager_wf (dropped_bags z) /\ 0 <= next_bag_id z /\
    forall id b, bags (dropped_bags z) !! id = Some b -> id <= next_bag_id z;
  zw_pending : Forall (fun r => intent_ok r.2) (pending_inventory_intents z)
}.

Lemma reach_at_mono n n' p : n <= n' -> within (reach_at n) p -> within (reach_at n') p.
Proof. unfold within, reach_at, MAX_STEP. lia. Qed.

Lemma character_ok_mono rules traversal n n' cid c : n <= n' -> character_ok rules traversal n cid c ->
  character_ok rules traversal n' cid c.
Proof.
  intros Hn [? (p & ? & ? & ?) ? ? ? ? ?]. split; try done. exists p. split_goals; [done|done|by eapply reach_at_mono].
Qed.

Lemma zone_new_wf id hz settings traversal z : in_u 32 (speed_mm_per_second settings) -> in_u 32 hz ->
  0 < character_radius_mm settings < 2 ^ 62 ->
  Forall (blocker_fits (character_radius_mm settings)) (static_blockers traversal) ->
  zone_new id hz settings traversal = Ok z -> zone_wf 0 z.
Proof.
  intros Hs Hz Hr Hb. unfold zone_new. case_decide as H0; [done|].
  destruct (rules_new settings hz) as [rules|] eqn:E; [|done]. cbn. intros [= <-].
  destruct (rules_new_ok _ _ _ Hs Hz E) as (Hok & Hsp & Hden).
  assert (rule_radius_mm rules = character_radius_mm settings) as Erad.
  { unfold rules_new in E. case_decide; [done|]. apply bind_Ok in E as (d & _ & [= <-]). done. }
  assert (32767 <= denominator rules) as Hd by (rewrite Hden; unfold MOVEMENT_AXIS_SCALE; unfold in_u in Hz; lia).
  split; cbn.
  - split; [done|]. split; [done|]. rewrite Erad. by split.
  - lia.
  - intros cid e H. by rewrite lookup_empty in H.
  - intros e c H. by rewrite get_new in H.
  - split; cbn; intros cid; [intros ? e H|intros e H]; by rewrite lookup_empty in H.
  - intros cid s H. by rewrite lookup_empty in H.
  - intros cid. by rewrite !lookup_empty.
  - split; [apply empty_manager_wf|]. split; [done|]. intros i b H. by rewrite lookup_empty in H.
  - constructor.
Qed.

(** ** Commands *)

Definition command_ok (command : ZoneCommand) : Prop :=
  match command with
  | SpawnCharacter _ p inventory _ => pos_ok p /\ within MAX_SPAWN p /\ inventory_ok inventory
  | ZoneMoveIntent _ _ input => input_ok input
  | SpawnRock p h => pos_ok p /\ in_u 32 h
  | ZoneMineIntent _ p => in_u 32 p
  | InventoryIntent _ intent => intent_ok intent
  | _ => True
  end.

(** The commands a zone takes; the others stop it with an error. *)
Definition accepts (z : Zone) (command : ZoneCommand) : Prop :=
  match command with
  | SpawnCharacter cid p _ _ => standing (movement_rules z) (traversal_world z) p /\ entity_map z !! cid = None
  | DespawnCharacter cid _ | ZoneMoveIntent cid _ _ | ZoneMineIntent cid _ => is_Some (entity_map z !! cid)
  | _ => True
  end.

(** The error of a command that is not taken. *)
Definition rejection (z : Zone) (command : ZoneCommand) (e : ZoneError) : Prop :=
  match command with
  | SpawnCharacter cid p _ _ =>
      (exists t, e = ZoneTraversal t /\ ~ standing (movement_rules z) (traversal_world z) p) \/
      (e = DuplicateSpawn cid /\ standing (movement_rules z) (traversal_world z) p /\ is_Some (entity_map z !! cid))
  | DespawnCharacter cid _ | ZoneMoveIntent cid _ _ | ZoneMineIntent cid _ =>
      e = UnknownCharacter cid /\ entity_map z !! cid = None
  | _ => False
  end.

(** Changing the components of one character. *)
Lemma update_wf n z cid e f w : zone_wf n z -> entity_map z !! cid = Some e -> ecs_update (world z) e f = Some w ->
  (forall c, character_ok (movement_rules z) (traversal_world z) n cid c ->
    character_ok (movement_rules z) (traversal_world z) n cid (f c) /\ c_inventory (f c) = c_inventory c) ->
  forall l, (forall cid' s, l !! cid' = Some s -> is_Some (entity_map z !! cid')) ->
  zone_wf (n + 1) (set_characters z w (entity_map z) l (inventory_revisions z)).
Proof.
  intros Hz He Hw Hf l Hl. destruct (zw_characters n z Hz cid e He) as (c & Ec & Hc).
  destruct (Hf c Hc) as [Hfc Hinv]. unfold ecs_update in Hw. rewrite Ec in Hw. injection Hw as <-.
  assert (forall e', ecs_get (ecs_put (world z) e (f c)) e' = if decide (e' = e) then Some (f c) else ecs_get (world z) e') as Hget
    by (intros e'; by rewrite get_put by (by rewrite Ec)).
  split; cbn.
  - apply Hz.
  - pose proof (zw_age n z Hz). lia.
  - intros cid' e' He'. rewrite Hget. case_decide as Heq; [subst e'|].
    + exists (f c). split; [done|]. assert (cid' = cid) as -> by (by eapply (ic_distinct z (zw_inventories n z Hz))).
      eapply character_ok_mono; [|done]. lia.
    + destruct (zw_characters n z Hz cid' e' He') as (c' & ? & ?). exists c'. split; [done|].
      eapply character_ok_mono; [|done]. lia.
  - intros e' c'. rewrite Hget. case_decide as Heq; [subst e'; intros [= <-]|apply (zw_entities n z Hz)].
    left. exists cid. split; [apply Hfc|done].
  - split; cbn; [apply (zw_inventories n z Hz)|]. intros cid' e' He'. rewrite Hget.
    destruct (ic_inventory z (zw_inventories n z Hz) cid' e' He') as (c' & inv & Ec' & Einv & Hi).
    case_decide as Heq; [subst e'|by exists c', inv]. exists (f c), inv. split; [done|]. split; [|done]. congruence.
  - done.
  - apply (zw_revisions n z Hz).
  - apply (zw_bags n z Hz).
  - apply (zw_pending n z Hz).
Qed.

Lemma update_character n z cid e f : zone_wf n z -> entity_map z !! cid = Some e -> is_Some (ecs_update (world z) e f).
Proof. intros Hz He. destruct (zw_characters n z Hz cid e He) as (c & Ec & _). unfold ecs_update. by rewrite Ec. Qed.

Lemma spawn_wf n z cid p inventory rev : zone_wf n z -> standing (movement_rules z) (traversal_world z) p ->
  within MAX_SPAWN p -> inventory_ok inventory -> entity_map z !! cid = None -> 0 <= n ->
  let '(w, e) := ecs_spawn (world z) (character_bundle cid p inventory) in
  zone_wf (n + 1) (set_characters z w (<[cid := e]> (entity_map z)) (last_processed_inputs z) (<[cid := rev]> (inventory_revisions z))).
Proof.
  intros Hz Hp Hw Hi Hnone Hn. pose proof (spawn_fresh (world z) (character_bundle cid p inventory)) as Hfresh.
  pose proof (get_spawn (world z) (character_bundle cid p inventory)) as Hget.
  destruct (ecs_spawn (world z) (character_bundle cid p inventory)) as [w e]. cbn [fst snd] in *.
  assert (forall cid' e', entity_map z !! cid' = Some e' -> e' <> e) as Hne.
  { intros cid' e' He' ->. destruct (zw_characters n z Hz _ _ He') as (c & Ec & _). congruence. }
  destruct (zw_ground n z Hz) as ((_ & Hd & _) & _).
  split; cbn.
  - apply Hz.
  - pose proof (zw_age n z Hz). lia.
  - intros cid' e' [[<- <-]|[Hc He']]%lookup_insert_Some; rewrite Hget.
    + rewrite decide_True by done. eexists. split; [done|]. split; cbn; try done.
      * exists p. split; [done|]. split; [done|]. unfold within, reach_at, MAX_STEP in *. lia.
      * exists (mk_rem 0 0). split; [done|]. unfold remainder_ok. cbn. lia.
    + rewrite decide_False by (by eapply Hne). destruct (zw_characters n z Hz cid' e' He') as (c' & ? & ?).
      exists c'. split; [done|]. eapply character_ok_mono; [|done]. lia.
  - intros e' c'. rewrite Hget. case_decide as Heq; [subst e'; intros [= <-]|].
    + left. exists cid. split; [done|]. apply lookup_insert_eq.
    + intros He'. destruct (zw_entities n z Hz e' c' He') as [(cid' & ? & ?)|]; [left|by right].
      exists cid'. split; [done|]. rewrite lookup_insert_ne; [done|]. intros <-. congruence.
  - split; cbn.
    + intros c1 c2 e' [[<- <-]|[? H1]]%lookup_insert_Some [[<- E]|[? H2]]%lookup_insert_Some; [done| | |].
      * by destruct (Hne _ _ H2).
      * subst. by destruct (Hne _ _ H1).
      * by eapply (ic_distinct z (zw_inventories n z Hz)).
    + intros cid' e' [[<- <-]|[Hc He']]%lookup_insert_Some; rewrite Hget.
      * rewrite decide_True by done. eexists _, inventory. done.
      * rewrite decide_False by (by eapply Hne). by apply (ic_inventory z (zw_inventories n z Hz) cid').
  - intros cid' s Hl. apply lookup_insert_is_Some'. right. by eapply (zw_last n z Hz).
  - intros cid'. rewrite !lookup_insert_is_Some'. by rewrite (zw_revisions n z Hz).
  - apply (zw_bags n z Hz).
  - apply (zw_pending n z Hz).
Qed.

Lemma despawn_wf n z cid e w : zone_wf n z -> entity_map z !! cid = Some e -> ecs_despawn (world z) e = Some w ->
  zone_wf (n + 1) (set_characters z w (delete cid (entity_map z)) (delete cid (last_processed_inputs z))
                     (delete cid (inventory_revisions z))).
Proof.
  intros Hz He Hw. pose proof (fun e' => get_despawn (world z) e w e' Hw) as Hget.
  assert (forall cid' e', cid' <> cid -> entity_map z !! cid' = Some e' -> e' <> e) as Hne.
  { intros cid' e' Hc He' ->. by apply Hc, (ic_distinct z (zw_inventories n z Hz) _ _ e). }
  split; cbn.
  - apply Hz.
  - pose proof (zw_age n z Hz). lia.
  - intros cid' e' [Hc He']%lookup_delete_Some. rewrite Hget, decide_False by (by eapply (Hne cid')).
    destruct (zw_characters n z Hz cid' e' He') as (c' & ? & ?). exists c'. split; [done|].
    eapply character_ok_mono; [|done]. lia.
  - intros e' c'. rewrite Hget. case_decide as Heq; [done|]. intros He'.
    destruct (zw_entities n z Hz e' c' He') as [(cid' & ? & Hm)|]; [left|by right].
    exists cid'. split; [done|]. apply lookup_delete_Some. split; [|done]. intros <-. congruence.
  - split; cbn.
    + intros c1 c2 e' [_ H1]%lookup_delete_Some [_ H2]%lookup_delete_Some.
      by eapply (ic_distinct z (zw_inventories n z Hz)).
    + intros cid' e' [Hc He']%lookup_delete_Some. rewrite Hget, decide_False by (by eapply (Hne cid')).
      by apply (ic_inventory z (zw_inventories n z Hz) cid').
  - intros cid' s [Hc Hl]%lookup_delete_Some. apply lookup_delete_is_Some. split; [done|]. by eapply (zw_last n z Hz).
  - intros cid'. rewrite !lookup_delete_is_Some. by rewrite (zw_revisions n z Hz).
  - apply (zw_bags n z Hz).
  - apply (zw_pending n z Hz).
Qed.

Lemma spawn_rock_wf n z p h : zone_wf n z -> pos_ok p -> in_u 32 h ->
  zone_wf (n + 1) (set_world z (ecs_spawn (world z) (rock_bundle p h)).1).
Proof.
  intros Hz Hp Hh. pose proof (spawn_fresh (world z) (rock_bundle p h)) as Hfresh.
  pose proof (get_spawn (world z) (rock_bundle p h)) as Hget.
  destruct (ecs_spawn (world z) (rock_bundle p h)) as [w e]. cbn [fst snd] in *.
  assert (forall cid' e', entity_map z !! cid' = Some e' -> e' <> e) as Hne.
  { intros cid' e' He' ->. destruct (zw_characters n z Hz _ _ He') as (c & Ec & _). congruence. }
  split; cbn.
  - apply Hz.
  - pose proof (zw_age n z Hz). lia.
  - intros cid' e' He'. rewrite Hget, decide_False by (by eapply Hne).
    destruct (zw_characters n z Hz cid' e' He') as (c' & ? & ?). exists c'. split; [done|].
    eapply character_ok_mono; [|done]. lia.
  - intros e' c'. rewrite Hget. case_decide as Heq; [intros [= <-]|apply (zw_entities n z Hz)].
    right. split; cbn; [done|by exists p| |done]. exists (rock_new h). split; [done|]. unfold in_u in Hh. cbn. lia.
  - split; cbn; [apply (zw_inventories n z Hz)|]. intros cid' e' He'. rewrite Hget, decide_False by (by eapply Hne).
    by apply (ic_inventory z (zw_inventories n z Hz) cid').
  - apply (zw_last n z Hz).
  - apply (zw_revisions n z Hz).
  - apply (zw_bags n z Hz).
  - apply (zw_pending n z Hz).
Qed.

Lemma zone_wf_age n z : zone_wf n z -> zone_wf (n + 1) z.
Proof.
  intros [? ? Hc ? ? ? ? ? ?]. split; try done; [lia|]. intros cid e He. destruct (Hc cid e He) as (c & ? & ?).
  exists c. split; [done|]. eapply character_ok_mono; [|done]. lia.
Qed.

Lemma accept_spec n z command : zone_wf n z -> 0 <= n -> command_ok command ->
  match zone_accept z command with
  | Ok (z', _) => accepts z command /\ zone_wf (n + 1) z'
  | Err e => rejection z command e /\ ~ accepts z command
  end.
Proof.
  intros Hz Hn Hcmd. destruct command as [cid p inv rev|cid r|cid r|cid seq input|p h|cid pw|cid intent]; cbn in *.
  - destruct Hcmd as (Hp & Hw & Hi).
    pose proof (validate_standing (movement_rules z) (traversal_world z) p (zw_ground n z Hz) Hp) as Hv.
    destruct (validate_placement _ _ _) as [[]|t]; cbn.
    + destruct Hv as [Hv _]. specialize (Hv eq_refl). destruct (entity_map z !! cid) as [e|] eqn:Ee.
      * split; [right; by split_goals|]. by intros [_ ?].
      * pose proof (spawn_wf n z cid p inv rev Hz Hv Hw Hi Ee Hn) as H. by destruct (ecs_spawn _ _).
    + assert (~ standing (movement_rules z) (traversal_world z) p) as Hns by (intros H; by apply Hv in H).
      split; [left; by exists t|tauto].
  - destruct (entity_map z !! cid) as [e|] eqn:Ee; [|by split; [|intros []]].
    destruct (zw_characters n z Hz cid e Ee) as (c & Ec & _).
    destruct (ecs_despawn (world z) e) as [w|] eqn:Ed; [|apply despawn_none in Ed; congruence]. cbn.
    split; [done|]. by eapply despawn_wf.
  - destruct (entity_map z !! cid); (split; [done|by apply zone_wf_age]).
  - destruct (entity_map z !! cid) as [e|] eqn:Ee; cbn; [|by split; [|intros []]].
    destruct (update_character n z cid e (set_move input) Hz Ee) as [w Hw]. rewrite Hw. cbn. split; [done|].
    eapply update_wf; [done|done|done| |].
    + intros c Hc. split; [|done]. destruct Hc. split; cbn; try done. by intros m [= <-].
    + intros cid' s [[<- _]|[_ Hl]]%lookup_insert_Some; [by rewrite Ee|by eapply (zw_last n z Hz)].
  - destruct Hcmd as [Hp Hh]. split; [done|]. by apply spawn_rock_wf.
  - destruct (entity_map z !! cid) as [e|] eqn:Ee; cbn; [|by split; [|intros []]].
    destruct (update_character n z cid e (set_mine (Some (mk_mine cid pw))) Hz Ee) as [w Hw]. rewrite Hw. cbn. split; [done|].
    eapply update_wf; [done|done|done| |apply (zw_last n z Hz)].
    intros c Hc. split; [|done]. destruct Hc. split; cbn; try done. by intros m [= <-].
  - split; [done|]. destruct Hz. split; cbn; try done.
    + rewrite length_app. cbn. lia.
    + intros cid' e' He'. destruct (zw_characters0 cid' e' He') as (c' & ? & ?). exists c'. split; [done|].
      eapply character_ok_mono; [|done]. lia.
    + split; apply zw_inventories0.
    + apply list.Forall_app. split; [done|]. by apply list.Forall_singleton.
Qed.
(** ** The tick *)

(** What a tick does to a character but for its inventory: with an intent it moves
    by the integrated distance as far as the blockers let it. *)
Definition ticks_to (rules : MovementRules) (traversal : TraversalWorld) (c c' : Components) : Prop :=
  c_identity c' = c_identity c /\ c_player c' = c_player c /\ c_move c' = c_move c /\ c_rock c' = c_rock c /\
  match c_move c with
  | None => c_position c' = c_position c /\ c_remainder c' = c_remainder c
  | Some m => exists p r d r' res, c_position c = Some p /\ c_remainder c = Some r /\ integrated rules m r d r' /\
      resolve_horizontal traversal p d (rule_radius_mm rules) = Ok res /\
      c_position c' = Some (Traversal.position res) /\ c_remainder c' = Some r'
  end.

Lemma character_moved rules traversal n cid c : ground_ok rules traversal -> character_ok rules traversal n cid c ->
  0 <= n < MAX_AGE ->
  movable traversal rules c /\ character_ok rules traversal (n + 1) cid (moved traversal rules c) /\
  ticks_to rules traversal c (moved traversal rules c) /\
  c_inventory (moved traversal rules c) = c_inventory c /\ c_mine (moved traversal rules c) = c_mine c /\
  (c_dirty (moved traversal rules c) = true <-> c_dirty c = true \/ c_position (moved traversal rules c) <> c_position c).
Proof.
  intros Hg Hc Hn. pose proof (character_ok_mono _ _ n (n + 1) _ _ ltac:(lia) Hc) as Hc'.
  unfold moved, movable, ticks_to. destruct (c_move c) as [m|] eqn:Em.
  - destruct Hc as [Hid (p & Ep & Hp & Hw) (r & Er & Hr) Hpl Hm Hmi Hro].
    destruct (move_entity_spec rules traversal c p m r (reach_at n) Hg Ep Em Er Hp (Hm m Em) Hr Hw)
      as (d & r' & res & Hi & Hr' & Eres & Hs & Hw' & E); [unfold reach_at, MAX_AGE, MAX_SPAWN, MAX_STEP in *; lia|].
    rewrite E. split; [by eexists|].
    assert (within (reach_at (n + 1)) (Traversal.position res)) as Hw1
      by (unfold within, reach_at, MAX_STEP in *; lia).
    case_bool_decide as Hne; cbn; (split_goals; [split; cbn; try done; [by exists (Traversal.position res)|by exists r']
      |done|done|done|done|by exists p, r, d, r', res|done|done|]).
    + rewrite Ep. split; [|done]. intros _. right. congruence.
    + rewrite Ep. rewrite Hne. tauto.
  - assert (move_entity traversal rules c = Ok (c, false)) as -> by (unfold move_entity; rewrite Em; by destruct (c_position c)).
    rewrite Em. split; [by eexists|]. split_goals; try done. tauto.
Qed.

Lemma rock_still rules traversal c : rock_ok c -> movable traversal rules c /\ moved traversal rules c = c.
Proof.
  intros [_ _ _ (Em & _)]. unfold movable, moved.
  assert (move_entity traversal rules c = Ok (c, false)) as -> by (unfold move_entity; rewrite Em; by destruct (c_position c)).
  split; [by eexists|done].
Qed.

(** A character after the movement, the mining and the clean-up of a tick. *)
Definition ticked (rules : MovementRules) (traversal : TraversalWorld) (c : Components) : Components :=
  set_dirty false (set_mine None (moved traversal rules c)).

Lemma elem_updates w u : u ∈ collect_updates w <-> exists e c, ecs_get w e = Some c /\ c_dirty c = true /\
  c_identity c = Some (update_identity u) /\ c_position c = Some (update_position u).
Proof.
  unfold collect_updates. rewrite list_elem_of_omap. split.
  - intros (e & [c [Ec Hch]]%elem_query & H). rewrite Ec in H. cbn in H. unfold changed in Hch.
    destruct (c_identity c) as [i|] eqn:Ei, (c_position c) as [p|] eqn:Ep; try done. injection H as <-.
    exists e, c. split_goals; try done.
  - intros (e & c & Ec & Hd & Ei & Ep). exists e. split.
    + apply elem_query. exists c. split; [done|]. unfold changed. by rewrite Hd, Ei, Ep.
    + rewrite Ec. cbn. rewrite Ei. cbn. rewrite Ep. cbn. by destruct u.
Qed.

Lemma updates_nodup w : (forall e e' c c' i, ecs_get w e = Some c -> ecs_get w e' = Some c' ->
    c_identity c = Some i -> c_identity c' = Some i -> e = e') ->
  NoDup (map update_identity (collect_updates w)).
Proof.
  intros Hinj. unfold collect_updates. pose proof (query_nodup w changed) as Hn.
  assert (forall l : list Entity, NoDup l ->
    NoDup (map update_identity (omap (fun e => c ← ecs_get w e; i ← c_identity c; p ← c_position c;
      Some {| update_identity := i; update_position := p |}) l)) /\
    forall i, i ∈ map update_identity (omap (fun e => c ← ecs_get w e; i ← c_identity c; p ← c_position c;
      Some {| update_identity := i; update_position := p |}) l) -> exists e c, e ∈ l /\ ecs_get w e = Some c /\ c_identity c = Some i)
    as H.
  { induction 1 as [|e l He Hl [IH1 IH2]]; cbn; [split; [constructor|intros i []%not_elem_of_nil]|].
    assert (forall i, i ∈ map update_identity (omap (fun e => c ← ecs_get w e; i ← c_identity c; p ← c_position c;
      Some {| update_identity := i; update_position := p |}) l) -> exists e' c, e' ∈ e :: l /\ ecs_get w e' = Some c /\ c_identity c = Some i)
      as IH2' by (intros i Hi; destruct (IH2 i Hi) as (e' & c & ? & ? & ?); exists e', c; split_goals; [by right|done|done]).
    destruct (ecs_get w e) as [c|] eqn:Ec; [|done]. cbn. destruct (c_identity c) as [i|] eqn:Ei; [|done]. cbn.
    destruct (c_position c) as [p|]; [|done]. cbn. split.
    - constructor; [|done]. intros Hin. destruct (IH2 i Hin) as (e' & c' & Hin' & Ec' & Ei').
      assert (e = e') as -> by (by eapply Hinj). done.
    - intros j [->|Hj]%elem_of_cons; [|by apply IH2']. exists e, c. split_goals; [by left|done|done]. }
  by apply H.
Qed.

Lemma ticked_get n z w1 : zone_wf n z -> 0 <= n < MAX_AGE ->
  (forall e, ecs_get w1 e = moved (traversal_world z) (movement_rules z) <$> ecs_get (world z) e) ->
  forall cid e c, entity_map z !! cid = Some e -> ecs_get (world z) e = Some c ->
    character_ok (movement_rules z) (traversal_world z) n cid c /\
    ecs_get w1 e = Some (moved (traversal_world z) (movement_rules z) c).
Proof.
  intros Hz Hn Hw1 cid e c He Hc. destruct (zw_characters n z Hz cid e He) as (c' & Ec' & Hok).
  rewrite Ec' in Hc. injection Hc as ->. split; [done|]. by rewrite Hw1, Ec'.
Qed.

(** The world between the movement and the mining of a tick, and after both. *)
Lemma simulation_spec n z : zone_wf n z -> 0 <= n < MAX_AGE ->
  exists w1 w updates, let hits := tick_hits w1 (rule_radius_mm (movement_rules z)) in
    (forall e, ecs_get w1 e = moved (traversal_world z) (movement_rules z) <$> ecs_get (world z) e) /\
    simulation_tick (world z) (traversal_world z) (movement_rules z) =
      Ok (w, updates, map (fun h => destruction_of h.1) (filter lethal hits)) /\
    (forall cid e c, entity_map z !! cid = Some e -> ecs_get (world z) e = Some c ->
      ecs_get w e = Some (ticked (movement_rules z) (traversal_world z) c)) /\
    (forall e c, ecs_get (world z) e = Some c -> rock_ok c ->
      ecs_get w e = if decide (e ∈ map (fun h => rock_entity h.1) (filter lethal hits)) then None else Some (mined hits e c)) /\
    (forall e, ecs_get (world z) e = None -> ecs_get w e = None) /\
    NoDup (map update_identity updates) /\
    (forall u, u ∈ updates <-> exists e c, entity_map z !! update_identity u = Some e /\ ecs_get (world z) e = Some c /\
       c_position (moved (traversal_world z) (movement_rules z) c) = Some (update_position u) /\
       c_dirty (moved (traversal_world z) (movement_rules z) c) = true).
Proof.
  intros Hz Hn. pose proof (zw_ground n z Hz) as Hg.
  destruct (movement_tick_get (traversal_world z) (movement_rules z) (world z)) as (w1 & E1 & Hw1).
  { intros e c Ec. destruct (zw_entities n z Hz e c Ec) as [(cid & _ & Hm)|Hr]; [|by apply rock_still].
    destruct (zw_characters n z Hz cid e Hm) as (c' & Ec' & Hok). rewrite Ec in Ec'. injection Ec' as <-.
    by destruct (character_moved _ _ n cid c Hg Hok Hn). }
  pose proof (mining_tick_get w1 (rule_radius_mm (movement_rules z))) as Hmine. exists w1.
  set (hits := tick_hits w1 (rule_radius_mm (movement_rules z))) in *.
  unfold simulation_tick. rewrite E1. cbn [mbind result_bind].
  destruct (mining_tick_system w1 (rule_radius_mm (movement_rules z))) as [w2 events]. destruct Hmine as [-> Hw2].
  assert (forall e, e ∈ map (fun h : Rock Entity * Z => rock_entity h.1) (filter lethal hits) ->
    exists c, ecs_get w1 e = Some c /\ is_Some (c_rock c)) as Hdead.
  { intros e ([r d] & -> & [_ Hh]%list_elem_of_filter)%list_elem_of_fmap. unfold hits, tick_hits, ZoneMining.hits in Hh.
    apply list_elem_of_omap in Hh as ([[e' p] q] & _ & H). cbn in H.
    destruct (target _ _ p) as [r'|] eqn:Et; [|done]. injection H as <- <-.
    apply target_nearest in Et as (Hin & _ & _). apply elem_rocks in Hin as (c & k & Ec & _ & Ek & _). by exists c. }
  assert (forall cid e c, entity_map z !! cid = Some e -> ecs_get (world z) e = Some c ->
    ecs_get w2 e = Some (set_mine None (moved (traversal_world z) (movement_rules z) c))) as Hchar.
  { intros cid e c He Ec. destruct (ticked_get n z w1 Hz Hn Hw1 cid e c He Ec) as [Hok E].
    destruct (character_moved _ _ n cid c Hg Hok Hn) as (_ & Hok' & _).
    rewrite Hw2, decide_False.
    - rewrite E. cbn. f_equal. unfold mined. rewrite (co_rock _ _ _ _ _ Hok'). unfold mining.
      destruct (co_position _ _ _ _ _ Hok') as (p & Ep & _). rewrite Ep. cbn.
      case_bool_decide as Hmi; [done|]. destruct (moved (traversal_world z) (movement_rules z) c) as [? ? ? ? ? ? ? ? [|]]; [|done]. by destruct Hmi.
    - intros Hd%Hdead. destruct Hd as (c' & Ec' & [k Hk]). rewrite E in Ec'. injection Ec' as <-.
      by rewrite (co_rock _ _ _ _ _ Hok') in Hk. }
  assert (forall e c, ecs_get w2 e = Some c -> is_Some (c_identity c) ->
    exists cid c0, entity_map z !! cid = Some e /\ ecs_get (world z) e = Some c0 /\ c = set_mine None (moved (traversal_world z) (movement_rules z) c0) /\
      c_identity c = Some cid) as Hback.
  { intros e c Ec [i Hi]. pose proof (Hw2 e) as H2. rewrite Ec in H2. case_decide; [done|].
    rewrite Hw1 in H2. destruct (ecs_get (world z) e) as [c0|] eqn:E0; [|done]. cbn in H2. injection H2 as ->.
    destruct (zw_entities n z Hz e c0 E0) as [(cid & Hid & Hm)|Hr].
    - exists cid, c0. pose proof (Hchar cid e c0 Hm E0) as H3. rewrite Ec in H3. injection H3 as H3.
      split_goals; [done|done|done|]. rewrite H3. cbn.
      destruct (ticked_get n z w1 Hz Hn Hw1 cid e c0 Hm E0) as [Hok _].
      destruct (character_moved _ _ n cid c0 Hg Hok Hn) as (_ & Hok' & _). apply Hok'.
    - exfalso. destruct (rock_still (movement_rules z) (traversal_world z) c0 Hr) as [_ E]. unfold mined in Hi.
      rewrite E in Hi. destruct Hr as [Hid _ (k & Hk & _) _]. rewrite Hk in Hi.
      by destruct (mining c0); cbn in Hi; rewrite Hid in Hi. }
  eexists _, _. split; [done|]. split; [done|].
  assert (forall e, ecs_get (foldl (fun w e => ecs_try_update w e (set_dirty false)) w2 (ecs_query w2 changed)) e =
    (fun c => if changed c then set_dirty false c else c) <$> ecs_get w2 e) as Hclean.
  { intros e. rewrite get_try_update_all by apply query_nodup. case_decide as Hin.
    - apply elem_query in Hin as (c & Ec & Hc). rewrite Ec. cbn. by rewrite Hc.
    - destruct (ecs_get w2 e) as [c|] eqn:Ec; [|done]. cbn. destruct (changed c) eqn:Hc; [|done].
      destruct Hin. apply elem_query. by exists c. }
  split_goals.
  - intros cid e c He Ec. rewrite Hclean, (Hchar cid e c He Ec). cbn. unfold ticked. f_equal.
    destruct (ticked_get n z w1 Hz Hn Hw1 cid e c He Ec) as [Hok _].
    destruct (character_moved _ _ n cid c Hg Hok Hn) as (_ & Hok' & _). destruct Hok' as [Hid (p & Ep & _) _ _ _ _ _].
    unfold changed. cbn. rewrite Hid, Ep. cbn.
    destruct (moved (traversal_world z) (movement_rules z) c) as [? ? ? ? [] ? ? ? ?]; done.
  - intros e c Ec Hr. rewrite Hclean, Hw2, Hw1, Ec. cbn. destruct (rock_still (movement_rules z) (traversal_world z) c Hr) as [_ E]. rewrite E.
    case_decide; [done|]. cbn. f_equal. unfold changed, mined. destruct Hr as [Hid _ (k & Hk & _) _]. rewrite Hk.
    by destruct (mining c); cbn; rewrite Hid.
  - intros e Ec. rewrite Hclean, Hw2, Hw1, Ec. cbn. by case_decide.
  - apply updates_nodup. intros e e' c c' i Ec Ec' Hi Hi'.
    destruct (Hback e c Ec ltac:(by rewrite Hi)) as (cid & _ & Hm & _ & _ & Hid).
    destruct (Hback e' c' Ec' ltac:(by rewrite Hi')) as (cid' & _ & Hm' & _ & _ & Hid'). congruence.
  - intros u. rewrite elem_updates. split.
    + intros (e & c & Ec & Hd & Hi & Hp). destruct (Hback e c Ec ltac:(by rewrite Hi)) as (cid & c0 & Hm & E0 & -> & Hid).
      assert (cid = update_identity u) as -> by congruence. exists e, c0. by split_goals.
    + intros (e & c & Hm & Ec & Hp & Hd). exists e, (set_mine None (moved (traversal_world z) (movement_rules z) c)).
      split_goals; [by eapply Hchar|done| |done].
      destruct (ticked_get n z w1 Hz Hn Hw1 _ e c Hm Ec) as [Hok _].
      destruct (character_moved _ _ n _ c Hg Hok Hn) as (_ & Hok' & _). apply Hok'.
Qed.
Definition enumerates (order : list Z) (z : Zone) : Prop := forall id, id ∈ order <-> is_Some (bags (dropped_bags z) !! id).

(** A character after a whole tick. *)
Definition character_ticks (z : Zone) (c c' : Components) : Prop :=
  ticks_to (movement_rules z) (traversal_world z) c c' /\ c_dirty c' = false /\ c_mine c' = None /\
  inv_equipment <$> c_inventory c' = inv_equipment <$> c_inventory c.

Lemma ticked_spec n z cid c : zone_wf n z -> character_ok (movement_rules z) (traversal_world z) n cid c -> 0 <= n < MAX_AGE ->
  character_ok (movement_rules z) (traversal_world z) (n + 1) cid (ticked (movement_rules z) (traversal_world z) c) /\
  character_ticks z c (ticked (movement_rules z) (traversal_world z) c) /\
  c_inventory (ticked (movement_rules z) (traversal_world z) c) = c_inventory c /\
  c_position (ticked (movement_rules z) (traversal_world z) c) = c_position (moved (traversal_world z) (movement_rules z) c).
Proof.
  intros Hz Hok Hn. destruct (character_moved _ _ n cid c (zw_ground n z Hz) Hok Hn) as (_ & Hok' & Ht & Hi & _).
  unfold ticked, character_ticks. split; [|split; [|by split]].
  - destruct Hok'. by split.
  - split; [exact Ht|]. split; [done|]. split; [done|]. cbn. by rewrite Hi.
Qed.

Lemma inventory_only_character z n cid c c' c0 : character_ok (movement_rules z) (traversal_world z) n cid c -> character_ticks z c0 c ->
  inventory_only c c' ->
  character_ok (movement_rules z) (traversal_world z) n cid c' /\ character_ticks z c0 c' /\ c_position c' = c_position c.
Proof.
  intros Hok Ht [->|(i & i' & Hi & -> & Heq)]; [done|]. split; [|split; [|done]].
  - destruct Hok. by split.
  - destruct Ht as (H & Hd & Hm & He). split; [exact H|]. split; [done|]. split; [done|]. rewrite <- He, Hi. cbn. by rewrite Heq.
Qed.

(** A rock after a tick, if it still stands. *)
Lemma mined_rock (hits : list (Rock Entity * Z)) e c : rock_ok c -> (forall h, h ∈ hits -> 0 <= h.2) -> rock_ok (mined hits e c).
Proof.
  intros [Hid Hp (k & Hk & Hh & Hmax) (Hm & Hmi & Hinv & Hd)] Hpow. unfold mined, mining. rewrite Hk, Hmi. cbn.
  rewrite andb_false_r. assert (Forall (fun p => 0 <= p) (hits_on e hits)) as Hall.
  { apply list.Forall_forall. intros p (h & -> & [_ Hin]%list_elem_of_filter)%list_elem_of_fmap. by apply Hpow. }
  split; cbn; [done|done| |done]. eexists. split; [done|]. cbn. rewrite saturating_sub_all by (done || lia).
  assert (0 <= foldr Z.add 0 (hits_on e hits)) by (clear -Hall; induction Hall; cbn; lia). lia.
Qed.

Lemma hits_power n z w1 : zone_wf n z ->
  (forall e, ecs_get w1 e = moved (traversal_world z) (movement_rules z) <$> ecs_get (world z) e) -> 0 <= n < MAX_AGE ->
  forall h, h ∈ tick_hits w1 (rule_radius_mm (movement_rules z)) -> 0 <= h.2.
Proof.
  intros Hz Hw1 Hn h Hh. unfold tick_hits, ZoneMining.hits in Hh.
  apply list_elem_of_omap in Hh as ([[e p] q] & Hin & H). cbn in H. destruct (target _ _ p); [|done]. injection H as <-. cbn.
  apply elem_miners in Hin as (c & m & Ec & _ & Em & <-). rewrite Hw1 in Ec.
  destruct (ecs_get (world z) e) as [c0|] eqn:E0; [|done]. injection Ec as <-.
  destruct (zw_entities n z Hz e c0 E0) as [(cid & _ & Hm)|Hr].
  - destruct (ticked_get n z w1 Hz Hn Hw1 cid e c0 Hm E0) as [Hok _].
    destruct (character_moved _ _ n cid c0 (zw_ground n z Hz) Hok Hn) as (_ & Hok' & _).
    destruct (co_mine _ _ _ _ _ Hok' m Em) as [_ ?]. unfold in_u in *. lia.
  - destruct (rock_still (movement_rules z) (traversal_world z) c0 Hr) as [_ E]. rewrite E in Em.
    destruct Hr as [_ _ _ (_ & Hmi & _)]. congruence.
Qed.

(** The whole tick: it never fails, keeps the zone well formed, moves every character
    as [ticks_to] says and leaves the rest of the zone alone. *)
Lemma step_spec n z order : zone_wf n z -> 0 <= n < MAX_AGE -> enumerates order z ->
  exists z' out, zone_step order z = Ok (z', out) /\ zone_wf (n + 1) z' /\ tick z' = tick z + 1 /\
    entity_map z' = entity_map z /\ last_processed_inputs z' = last_processed_inputs z /\
    (forall cid e c, entity_map z !! cid = Some e -> ecs_get (world z) e = Some c ->
      exists c', ecs_get (world z') e = Some c' /\ character_ticks z c c') /\
    NoDup (map snapshot_character_id (out_snapshots out)) /\
    (forall s, s ∈ out_snapshots out <-> movement_snapshots z = true /\ exists cid e c c' p,
      entity_map z !! cid = Some e /\ ecs_get (world z) e = Some c /\ ecs_get (world z') e = Some c' /\
      c_position c' = Some p /\ (c_dirty c = true \/ c_position c <> Some p) /\
      s = mk_snapshot cid (tick z + 1) p (last_processed_inputs z !! cid) (last_processed_inputs z !! cid)) /\
    (forall f R, measure f R -> (forall a b c, R a b -> R b c -> R a c) ->
      R (zone_total f z' + map_total (bag_total f) (expired (tick z + 1) (bags (dropped_bags z)))) (zone_total f z)).
Proof.
  intros Hz Hn Hord. destruct (zw_age n z Hz) as [Ht Hp]. unfold MAX_AGE in Hn.
  destruct (simulation_spec n z Hz Hn) as (w1 & w & updates & Hw1 & Esim & Hchar & Hrock & Hnone & Hnd & Hupd).
  set (hits := tick_hits w1 (rule_radius_mm (movement_rules z))) in *.
  unfold zone_step. rewrite checked_u_in by (unfold in_u; lia). cbn [ok_or mbind result_bind].
  change (world (set_tick z (tick z + 1))) with (world z).
  change (traversal_world (set_tick z (tick z + 1))) with (traversal_world z).
  change (movement_rules (set_tick z (tick z + 1))) with (movement_rules z). rewrite Esim. cbn [mbind result_bind].
  set (z1 := set_world (set_tick z (tick z + 1)) w).
  assert (forall cid e, entity_map z !! cid = Some e -> exists c, ecs_get (world z) e = Some c /\
    character_ok (movement_rules z) (traversal_world z) n cid c) as Hold by apply Hz.
  assert (inventories_ok z1) as Hinv1.
  { split; cbn; [apply (zw_inventories n z Hz)|]. intros cid e He.
    destruct (ic_inventory z (zw_inventories n z Hz) cid e He) as (c & inv & Ec & Ei & Hi).
    rewrite (Hchar cid e c He Ec). eexists _, inv. split; [done|]. split; [|done].
    destruct (Hold cid e He) as (c' & Ec' & Hok). rewrite Ec in Ec'. injection Ec' as <-.
    by destruct (ticked_spec n z cid c Hz Hok Hn) as (_ & _ & -> & _). }
  destruct (zw_bags n z Hz) as (Hbw & Hb0 & Hbi).
  assert (bags_ok n (dropped_bags z1) (next_bag_id z1) (Z.of_nat (length (pending_inventory_intents z1)) + 0)) as Hb1
    by (split; cbn; [done|done|lia]).
  destruct (process_inventory_spec n ltac:(lia) order z1 0 Hinv1 Hb1 ltac:(lia) Hord (zw_pending n z Hz))
    as (w' & b & k & ev & Einv & Hinv2 & [Hbw' Hbi' Hk] & Hsame & Hmeas).
  rewrite Einv. set (z' := set_pending (set_bags (set_world z1 w') b k) []) in *.
  (* the entities after the tick *)
  assert (forall cid e c, entity_map z !! cid = Some e -> ecs_get (world z) e = Some c -> exists c', ecs_get w' e = Some c' /\
    character_ok (movement_rules z) (traversal_world z) (n + 1) cid c' /\ character_ticks z c c' /\
    c_position c' = c_position (moved (traversal_world z) (movement_rules z) c)) as Hfinal.
  { intros cid e c He Ec. destruct (Hold cid e He) as (c0 & Ec0 & Hok). rewrite Ec in Ec0. injection Ec0 as <-.
    destruct (ticked_spec n z cid c Hz Hok Hn) as (Hok' & Ht' & _ & Hpos).
    pose proof (Hsame e) as Hs. cbn in Hs. rewrite (Hchar cid e c He Ec) in Hs.
    destruct (ecs_get w' e) as [c'|]; [|done]. exists c'. split; [done|].
    destruct (inventory_only_character z (n + 1) cid _ c' c Hok' Ht' Hs) as (? & ? & ->). by split_goals. }
  exists z', (mk_output (if movement_snapshots z' then map (snapshot_of z') updates else [])
                (if gameplay_events z' then map (fun h => destruction_of h.1) (filter lethal hits) else [])).
  split; [done|]. split.
  { split; cbn.
    - apply Hz.
    - lia.
    - intros cid e He. destruct (Hold cid e He) as (c & Ec & _). destruct (Hfinal cid e c He Ec) as (c' & ? & ? & _). by exists c'.
    - intros e c' Ec'. pose proof (Hsame e) as Hs. cbn in Hs. rewrite Ec' in Hs.
      destruct (ecs_get w e) as [c1|] eqn:Ec1; [|done].
      destruct (ecs_get (world z) e) as [c|] eqn:Ec; [|by rewrite (Hnone e Ec) in Ec1].
      destruct (zw_entities n z Hz e c Ec) as [(cid & Hid & Hm)|Hr].
      + left. exists cid. split; [|done]. destruct (Hfinal cid e c Hm Ec) as (c2 & Ec2 & Hok & _).
        rewrite Ec' in Ec2. injection Ec2 as <-. apply Hok.
      + right. rewrite (Hrock e c Ec Hr) in Ec1. case_decide; [done|]. injection Ec1 as <-.
        assert (rock_ok (mined hits e c)) as Hr' by (apply mined_rock; [done|]; by eapply hits_power).
        destruct Hs as [->|(i & _ & Hi & _)]; [done|]. destruct Hr' as [_ _ _ (_ & _ & Hi' & _)]. congruence.
    - by split; apply Hinv2.
    - apply (zw_last n z Hz).
    - apply (zw_revisions n z Hz).
    - split; [done|]. split; [lia|]. done.
    - constructor. }
  split_goals; try done.
  - intros cid e c He Ec. destruct (Hfinal cid e c He Ec) as (c' & ? & _ & ? & _). by exists c'.
  - cbn. destruct (movement_snapshots z); [|constructor]. rewrite map_map. exact Hnd.
  - intros s. change (movement_snapshots z') with (movement_snapshots z). cbn [out_snapshots].
    assert (forall u, snapshot_of z' u = mk_snapshot (update_identity u) (tick z + 1) (update_position u)
      (last_processed_inputs z !! update_identity u) (last_processed_inputs z !! update_identity u)) as Hof by done.
    destruct (movement_snapshots z); [|split; [intros []%not_elem_of_nil|by intros []]].
    rewrite list_elem_of_fmap. split.
    + intros (u & -> & Hu). split; [done|]. apply Hupd in Hu as (e & c & He & Ec & Hp' & Hd).
      destruct (Hfinal _ e c He Ec) as (c' & Ec' & _ & _ & Epos). destruct (Hold _ e He) as (c0 & Ec0 & Hok).
      rewrite Ec in Ec0. injection Ec0 as <-.
      destruct (character_moved _ _ n _ c (zw_ground n z Hz) Hok Hn) as (_ & _ & _ & _ & _ & Hdirty).
      exists (update_identity u), e, c, c', (update_position u). rewrite Epos, <- Hp'.
      split_goals; [done|done|done|done| |apply Hof]. apply Hdirty in Hd as [?|?]; [by left|right; by apply not_eq_sym].
    + intros (_ & cid & e & c & c' & p & He & Ec & Ec' & Hp' & Hch & ->).
      destruct (Hfinal _ e c He Ec) as (c1 & Ec1 & _ & _ & Epos).
      change (world z') with w' in Ec'. rewrite Ec' in Ec1. injection Ec1 as <-.
      destruct (Hold _ e He) as (c0 & Ec0 & Hok). rewrite Ec in Ec0. injection Ec0 as <-.
      destruct (character_moved _ _ n _ c (zw_ground n z Hz) Hok Hn) as (_ & _ & _ & _ & _ & Hdirty).
      exists {| update_identity := cid; update_position := p |}. split; [by rewrite Hof|]. apply Hupd. exists e, c. cbn.
      rewrite Epos in Hp'. split_goals; [done|done|done|]. apply Hdirty. destruct Hch as [?|Hne]; [by left|right].
      rewrite Hp'. by apply not_eq_sym.
  - intros f R HR HT. specialize (Hmeas f R HR HT). cbn in Hmeas.
    assert (zone_total f z1 = zone_total f z) as <-; [|exact Hmeas].
    unfold zone_total. cbn. f_equal. apply map_total_ext. intros cid e He. unfold inventory_total, inventory_or_new. f_equal.
    destruct (Hold cid e He) as (c & Ec & Hok). rewrite (Hchar cid e c He Ec), Ec. cbn.
    destruct (ticked_spec n z cid c Hz Hok Hn) as (_ & _ & E & _). unfold ticked in E. cbn in E. by rewrite E.
Qed.
End Zone.
