(* ===== verification/ZoneCorrect.v ===== *)
(** What a zone promises ([crates/simulation/src/zone.rs], [systems.rs],
    [bootstrap.rs]): its invariant and the commands it takes, the outcome of a tick,
    the conservation of items, mining, and the restoration of bags. *)

From S2P Require Import Prelude Core F32 Items Bags Loot Movement Traversal Ecs Zone ZoneMovement ZoneMining ZoneInventory ZoneSafety.
Import World Grid Bags.Bags Equipment.

Section Correct.
Context {Entity W : Type} `{!Ecs Components Entity W} `{!EqDecision Entity} `{!EcsLaws Components Entity W}.

Abbreviation Zone := (ZoneRuntime Entity W).

(** The histories of a zone ([run]): commands and ticks in any order.  The loop ends
    at the first error. *)
Inductive zone_run (z0 : Zone) : Z -> Zone -> Prop :=
| run_start : zone_run z0 0 z0
| run_accept n z command z' replies : zone_run z0 n z -> command_ok command ->
    zone_accept z command = Ok (z', replies) -> zone_run z0 (n + 1) z'
| run_step n z order z' out : zone_run z0 n z -> enumerates order z -> zone_step order z = Ok (z', out) ->
    zone_run z0 (n + 1) z'.

Lemma zone_run_wf z0 n z : zone_wf 0 z0 -> zone_run z0 n z -> 0 <= n /\ (n <= MAX_AGE -> zone_wf n z).
Proof.
  intros H0 H. induction H as [|n z command z' replies _ [Hn IH] Hc E|n z order z' out _ [Hn IH] Ho E].
  - done.
  - split; [lia|]. intros Hle. pose proof (accept_spec n z command (IH ltac:(lia)) Hn Hc) as H. rewrite E in H. tauto.
  - split; [lia|]. intros Hle.
    destruct (step_spec n z order (IH ltac:(lia)) ltac:(lia) Ho) as (z1 & out1 & E1 & Hwf & _).
    rewrite E in E1. injection E1 as <- <-. done.
Qed.

(** A zone as the server starts it. *)
Definition started (z0 : Zone) : Prop :=
  exists id hz settings traversal z, in_u 32 (speed_mm_per_second settings) /\ in_u 32 hz /\
    0 < character_radius_mm settings < 2 ^ 62 /\
    Forall (blocker_fits (character_radius_mm settings)) (static_blockers traversal) /\
    zone_new id hz settings traversal = Ok z /\ z0 = with_gameplay_events (with_movement_snapshots z).

Lemma started_wf z0 : started z0 -> zone_wf 0 z0 /\ movement_snapshots z0 = true /\ gameplay_events z0 = true.
Proof.
  intros (id & hz & settings & traversal & z & Hs & Hh & Hr & Hb & E & ->).
  pose proof (zone_new_wf id hz settings traversal z Hs Hh Hr Hb E) as H. split; [|done].
  destruct H as [? ? ? ? Hi ? ? ? ?]. split; try done. by split; apply Hi.
Qed.

Lemma started_run_wf z0 n z : started z0 -> zone_run z0 n z -> n < MAX_AGE -> 0 <= n < MAX_AGE /\ zone_wf n z.
Proof. intros H0%started_wf Hr Hn. destruct (zone_run_wf z0 n z (proj1 H0) Hr) as [? H]. split; [lia|]. apply H. lia. Qed.

(** C23: a zone is always well formed and never gets stuck.  After any history of
    commands and ticks, every character the zone knows has a live entity of its own
    that carries his identity, a position outside every blocker, a sound remainder
    and a sound inventory; every other entity is a rock; the last inputs and the
    inventory revisions are those of present characters, and bags have numbers the
    zone has already given out.  The next tick succeeds, whatever the order of the
    bags, and the next command succeeds unless it spawns a character that is present
    or inside a blocker, or names one that is absent, and the error says which.  That
    includes a movement whose sequence number is not above the last one, which the
    decision records want to be an internal error, and ticks whose snapshots nobody
    receives any more, where they want the zone to fail; the code does neither. *)
Theorem zone_invariant (z0 z : Zone) (n : Z) :
  started z0 -> zone_run z0 n z -> n < MAX_AGE ->
  (forall cid e, entity_map z !! cid = Some e -> exists c p inv, ecs_get (world z) e = Some c /\
     c_identity c = Some cid /\ c_position c = Some p /\ standing (movement_rules z) (traversal_world z) p /\
     (exists r, c_remainder c = Some r /\ remainder_ok (movement_rules z) r) /\
     c_inventory c = Some inv /\ inventory_ok inv) /\
  (forall cid cid' e, entity_map z !! cid = Some e -> entity_map z !! cid' = Some e -> cid = cid') /\
  (forall e c, ecs_get (world z) e = Some c ->
     (exists cid, c_identity c = Some cid /\ entity_map z !! cid = Some e) \/ rock_ok c) /\
  (forall cid, is_Some (inventory_revisions z !! cid) <-> is_Some (entity_map z !! cid)) /\
  (forall cid, is_Some (last_processed_inputs z !! cid) -> is_Some (entity_map z !! cid)) /\
  (forall id b, bags (dropped_bags z) !! id = Some b -> bag_id b = id /\ id <= next_bag_id z) /\
  (forall order, enumerates order z -> exists z' out, zone_step order z = Ok (z', out)) /\
  (forall command, command_ok command ->
     match zone_accept z command with
     | Ok _ => accepts z command
     | Err e => rejection z command e /\ ~ accepts z command
     end).
Proof.
  intros H0 Hr Hn. destruct (started_run_wf z0 n z H0 Hr Hn) as [Hn' Hz].
  split_goals.
  - intros cid e He. destruct (zw_characters n z Hz cid e He) as (c & Ec & [Hid (p & Ep & Hp & _) Hrem _ _ _ _]).
    destruct (ic_inventory z (zw_inventories n z Hz) cid e He) as (c' & inv & Ec' & Ei & Hi).
    rewrite Ec in Ec'. injection Ec' as <-. by exists c, p, inv.
  - intros cid cid' e. apply (zw_inventories n z Hz).
  - apply (zw_entities n z Hz).
  - apply (zw_revisions n z Hz).
  - intros cid [s Hs]. by eapply (zw_last n z Hz).
  - intros id b E. destruct (zw_bags n z Hz) as (Hw & _ & Hi). split; [by eapply mw_ids|by eapply Hi].
  - intros order Ho. destruct (step_spec n z order Hz Hn' Ho) as (z' & out & E & _). by exists z', out.
  - intros command Hc. pose proof (accept_spec n z command Hz ltac:(lia) Hc) as H.
    destruct (zone_accept z command) as [[z' r]|e]; tauto.
Qed.


(** ** Items *)

Definition total_quantity (d : Z) (z : Zone) : Z := zone_total (quantity_of d) z.
Definition occurrences (id : Z) (z : Zone) : Z := zone_total (occurs id) z.

Lemma inventory_of n (z : Zone) cid e : zone_wf n z -> entity_map z !! cid = Some e ->
  exists inv, get_character_inventory z cid = Some (inv, default 1 (inventory_revisions z !! cid)) /\ inventory_or_new (world z) e = inv.
Proof.
  intros Hz He. destruct (ic_inventory z (zw_inventories n z Hz) cid e He) as (c & inv & Ec & Ei & _). exists inv.
  unfold get_character_inventory, inventory_or_new. rewrite He. cbn. rewrite Ec. cbn. by rewrite Ei.
Qed.

(** A sum over the items, after a character has come or gone. *)
Lemma spawn_total f n (z : Zone) cid p inv rev z' r : zone_wf n z -> zone_accept z (SpawnCharacter cid p inv rev) = Ok (z', r) ->
  zone_total f z' = zone_total f z + items_total f inv.
Proof.
  intros Hz E. cbn in E. destruct (validate_placement _ _ _) as [[]|]; [|done]. cbn in E.
  destruct (entity_map z !! cid) eqn:Ee; [done|].
  pose proof (spawn_fresh (world z) (character_bundle cid p inv)) as Hf.
  pose proof (get_spawn (world z) (character_bundle cid p inv)) as Hg.
  destruct (ecs_spawn _ _) as [w e]. cbn in *. injection E as <- _. unfold zone_total. cbn.
  rewrite map_total_insert by done. unfold inventory_total at 1, inventory_or_new. rewrite Hg, decide_True by done. cbn.
  rewrite (map_total_ext _ (inventory_total f (world z)) (entity_map z)); [lia|].
  intros k e' He'. unfold inventory_total, inventory_or_new. rewrite Hg, decide_False; [done|]. intros ->.
  destruct (zw_characters n z Hz k e He') as (c & Ec & _). congruence.
Qed.

Lemma despawn_total f n (z : Zone) cid r z' replies : zone_wf n z -> zone_accept z (DespawnCharacter cid r) = Ok (z', replies) ->
  exists inv, get_character_inventory z cid = Some (inv, default 1 (inventory_revisions z !! cid)) /\
    zone_total f z = zone_total f z' + items_total f inv /\
    replies = match r with Some k => [(k, (inv, default 0 (inventory_revisions z !! cid)))] | None => [] end.
Proof.
  intros Hz E. cbn in E. destruct (entity_map z !! cid) as [e|] eqn:Ee; [|done].
  destruct (ecs_despawn (world z) e) as [w|] eqn:Ed; [|done]. cbn in E.
  injection E as <- <-. destruct (inventory_of n z cid e Hz Ee) as (inv & Hinv & Hnew). exists inv.
  rewrite Hnew. split; [done|]. split; [|done]. unfold zone_total. cbn.
  rewrite (map_total_delete _ (entity_map z) cid e Ee). unfold inventory_total at 1. rewrite Hnew.
  rewrite (map_total_ext (inventory_total f w) (inventory_total f (world z)) (delete cid (entity_map z))); [lia|].
  intros k e' [Hk He']%lookup_delete_Some. unfold inventory_total, inventory_or_new.
  rewrite (get_despawn (world z) e w e' Ed), decide_False; [done|].
  intros ->. by apply Hk, (ic_distinct z (zw_inventories n z Hz) _ _ e).
Qed.

(** C25: items are neither made nor lost, and never in two places.  In a tick, with
    any inventory requests, the quantity of every kind of item over all inventories
    and bags changes only by what the bags whose time has come held, and no item
    identity becomes more frequent.  A character brings exactly the items of the
    inventory he is spawned with, and takes exactly the items of the inventory that
    is handed to the responder of his removal. *)
Theorem zone_conserves_items (z0 z : Zone) (n d id : Z) :
  started z0 -> zone_run z0 n z -> n < MAX_AGE ->
  (forall order z' out, enumerates order z -> zone_step order z = Ok (z', out) ->
     let gone := expired (tick z + 1) (bags (dropped_bags z)) in
     total_quantity d z' = total_quantity d z - map_total (bag_total (quantity_of d)) gone /\
     occurrences id z' <= occurrences id z - map_total (bag_total (occurs id)) gone) /\
  (forall cid p inv rev z' r, zone_accept z (SpawnCharacter cid p inv rev) = Ok (z', r) ->
     total_quantity d z' = total_quantity d z + items_total (quantity_of d) inv /\
     occurrences id z' = occurrences id z + items_total (occurs id) inv) /\
  (forall cid r z' replies, zone_accept z (DespawnCharacter cid (Some r)) = Ok (z', replies) ->
     exists inv rev, replies = [(r, (inv, rev))] /\
       total_quantity d z = total_quantity d z' + items_total (quantity_of d) inv /\
       occurrences id z = occurrences id z' + items_total (occurs id) inv).
Proof.
  intros H0 Hr Hn. destruct (started_run_wf z0 n z H0 Hr Hn) as [Hn' Hz]. unfold total_quantity, occurrences. split_goals.
  - intros order z' out Ho E. destruct (step_spec n z order Hz Hn' Ho) as (z1 & out1 & E1 & _ & _ & _ & _ & _ & _ & _ & Hm).
    rewrite E in E1. injection E1 as <- <-.
    pose proof (Hm _ _ (quantity_measure d) (@eq_trans Z)) as H1.
    pose proof (Hm _ _ (occurs_measure id) Z.le_trans) as H2. cbn zeta in *. lia.
  - intros cid p inv rev z' r E. split; by eapply spawn_total.
  - intros cid r z' replies E. destruct (despawn_total (quantity_of d) n z cid (Some r) z' replies Hz E) as (inv & Hi & H1 & Hrep).
    destruct (despawn_total (occurs id) n z cid (Some r) z' replies Hz E) as (inv' & Hi' & H2 & _).
    rewrite Hi in Hi'. injection Hi' as <-. by eexists inv, _.
Qed.

(** ** Mining *)

(** What is left of a rock after the hits of a tick. *)
Definition rock_left (hits : list (Rock Entity * Z)) (e : Entity) (k : RockNode) (c : Components) : option Components :=
  if decide (Exists (fun q => health k <= q) (hits_on e hits)) then None
  else Some (set_rock (mk_rock (Z.max 0 (health k - foldr Z.add 0 (hits_on e hits))) (max_health k)) c).

(** Every miner within reach of a rock hits exactly one, a nearest one, with the
    force of his intent, and his intent is used up; a rock loses the sum of the hits,
    down to zero, and disappears, with one event for each such hit, exactly if a
    single hit would have destroyed it at the beginning of the tick; nothing else is
    touched, whatever the order in which miners and rocks are handed out. *)
Theorem mining_correct (w w' : W) (reach : Z) (events : list RockDestroyedEvent) :
  mining_tick_system w reach = (w', events) ->
  (forall e c m, ecs_get w e = Some c -> c_mine c = Some m -> 0 <= power m) ->
  (forall e c k, ecs_get w e = Some c -> c_rock c = Some k -> 0 <= health k) ->
  let rocks := collect_rocks w in
  let hits := tick_hits w reach in
  (forall r, r ∈ rocks <-> exists c k, ecs_get w (rock_entity r) = Some c /\ c_position c = Some (rock_pos r) /\
     c_rock c = Some k /\ rock_health r = health k /\ rock_resource_id r = wrap_u 32 (ecs_to_bits (rock_entity r))) /\
  (forall e c p m, ecs_get w e = Some c -> c_position c = Some p -> c_mine c = Some m ->
     (exists r, nearest (reach_sq reach) p rocks r /\ (r, power m) ∈ hits) \/
     forall r, r ∈ rocks -> ~ in_reach (reach_sq reach) p r) /\
  (forall r q, (r, q) ∈ hits -> exists e c p m, ecs_get w e = Some c /\ c_position c = Some p /\ c_mine c = Some m /\
     power m = q /\ nearest (reach_sq reach) p rocks r) /\
  (forall e c k p, ecs_get w e = Some c -> c_position c = Some p -> c_rock c = Some k -> c_mine c = None ->
     ecs_get w' e = rock_left hits e k c) /\
  (forall e c p, ecs_get w e = Some c -> c_position c = Some p -> c_rock c = None -> ecs_get w' e = Some (set_mine None c)) /\
  (forall e, ecs_get w e = None -> ecs_get w' e = None) /\
  events = map (fun h => destruction_of h.1) (filter lethal hits).
Proof.
  intros E Hpow Hhealth. cbn zeta. pose proof (mining_tick_get w reach) as H. rewrite E in H. destruct H as [-> Hget].
  assert (forall r q, (r, q) ∈ tick_hits w reach -> exists e c p m, ecs_get w e = Some c /\ c_position c = Some p /\ c_mine c = Some m /\
     power m = q /\ nearest (reach_sq reach) p (collect_rocks w) r) as Hback.
  { intros r q Hin. unfold tick_hits, hits in Hin. apply list_elem_of_omap in Hin as ([[e p] q'] & Hin & H). cbn in H.
    destruct (target _ _ p) as [r'|] eqn:Et; [|done]. injection H as -> ->. apply elem_miners in Hin as (c & m & ? & ? & ? & ?).
    exists e, c, p, m. split_goals; try done. by apply target_nearest. }
  split_goals; [apply elem_rocks| |done| | | |done].
  - intros e c p m Ec Ep Em. destruct (target (reach_sq reach) (collect_rocks w) p) as [r|] eqn:Et.
    + left. exists r. split; [by apply target_nearest|]. unfold tick_hits, hits. apply list_elem_of_omap.
      exists (e, p, power m). split; [apply elem_miners; by exists c, m|]. cbn. by rewrite Et.
    + right. by apply target_none.
  - intros e c k p Ec Ep Ek Em. rewrite Hget, Ec. cbn [fmap option_fmap option_map].
    assert (forall q, q ∈ hits_on e (tick_hits w reach) <-> exists r, (r, q) ∈ tick_hits w reach /\ rock_entity r = e) as Hon.
    { intros q. unfold hits_on. rewrite list_elem_of_fmap. split.
      - intros ([r q'] & -> & [He Hin]%list_elem_of_filter). by exists r.
      - intros (r & Hin & He). exists (r, q). split; [done|]. by apply list_elem_of_filter. }
    assert (forall r q, (r, q) ∈ tick_hits w reach -> rock_entity r = e -> rock_health r = health k) as Hh.
    { intros r q (_ & _ & _ & _ & _ & _ & _ & _ & (Hin & _ & _))%Hback <-.
      apply elem_rocks in Hin as (c' & k' & Ec' & _ & Ek' & -> & _). congruence. }
    assert (e ∈ map (fun h : Rock Entity * Z => rock_entity h.1) (filter lethal (tick_hits w reach)) <->
            Exists (fun q => health k <= q) (hits_on e (tick_hits w reach))) as Hiff.
    { rewrite list_elem_of_fmap, list.Exists_exists. split.
      - intros ([r q] & -> & [Hl Hin]%list_elem_of_filter). exists q. split; [apply Hon; by exists r|].
        unfold lethal in Hl. cbn in *. by rewrite (Hh r q Hin eq_refl) in Hl.
      - intros (q & (r & Hin & He)%Hon & Hq). exists (r, q). split; [done|]. apply list_elem_of_filter. split; [|done].
        unfold lethal. cbn. by rewrite (Hh r q Hin He). }
    unfold rock_left. destruct (decide (e ∈ _)) as [Hd|Hd]; [by rewrite decide_True by by apply Hiff|].
    rewrite decide_False by (by rewrite <- Hiff). unfold mined, mining. rewrite Ek, Em. cbn. rewrite andb_false_r.
    rewrite saturating_sub_all; [done| |by eapply Hhealth]. apply list.Forall_forall.
    intros q (r & Hin & _)%Hon. apply Hback in Hin as (e' & c' & p' & m & Ec' & _ & Em' & <- & _). by eapply Hpow.
  - intros e c p Ec Ep Ek. rewrite Hget, Ec. cbn [fmap option_fmap option_map]. rewrite decide_False.
    + unfold mined, mining. rewrite Ek, Ep. cbn. case_bool_decide as Hm; [done|].
      destruct c as [? ? ? ? ? ? ? ? [|]]; [by destruct Hm|done].
    + intros ([r q] & -> & [_ Hin]%list_elem_of_filter)%list_elem_of_fmap. apply Hback in Hin as (_ & _ & _ & _ & _ & _ & _ & _ & (Hin & _ & _)).
      apply elem_rocks in Hin as (c' & k & Ec' & _ & Ek' & _). cbn in Ec. congruence.
  - intros e Ec. rewrite Hget, Ec. by case_decide.
Qed.
End Correct.

(** ** A zone with a wall, a rock and two characters *)

Section Demo.
#[local] Existing Instances map_ecs map_ecs_laws.

Abbreviation MapZone := (ZoneRuntime N (MapWorld Components)).

Definition wall : TraversalWorld := mk_traversal [mk_blocker 650 750 (-2000) 2000].
Definition settings : CharacterMovementSettings := mk_settings 4000 5 250.

Definition demo0 : MapZone :=
  match zone_new 3 20 settings wall with
  | Ok z => with_gameplay_events (with_movement_snapshots z)
  | Err _ => mk_zone 0 0 false false 0 (mk_rules 0 0 0 0) wall ecs_new ∅ ∅ empty_manager [] 0 ∅
  end.

Definition after (z : MapZone) (command : ZoneCommand) : MapZone :=
  match zone_accept z command with Ok (z', _) => z' | Err _ => z end.

(** A stack of ten of the kind [1001] at the corner of the grid. *)
Definition pebbles (id : Z) : ItemInstance := new_stackable id 1001 (OwnerCharacter 7) 10.
Definition pockets : CharacterInventoryState :=
  {| inv_grid := (place_item (grid_new 4 4) 1 (mk_slot 0 0) (mk_dims 1 1) Normal).1;
     inv_equipment := equipment_new; inv_items := {[ 1 := pebbles 1 ]} |}.

Definition spawn_seven : ZoneCommand := SpawnCharacter 7 (mk_pos 0 0 0) pockets 1.
Definition walk_east : ZoneCommand := ZoneMoveIntent 7 9 (mk_input 32767 0).
Definition drop_pebbles : ZoneCommand := InventoryIntent 7 (IntentDrop {| drop_item_id := 1; drop_revision := revision (pebbles 1) |}).
Definition demo1 : MapZone := after demo0 spawn_seven.
Definition demo2 : MapZone := after demo1 walk_east.
Definition demo3 : MapZone := after demo2 drop_pebbles.

Lemma demo_started : started demo0.
Proof.
  unfold started, demo0. destruct (zone_new 3 20 settings wall) as [z|e] eqn:E; [|vm_compute in E; done].
  exists 3, 20, settings, wall, z. split_goals; try done.
  constructor; [|constructor]. unfold blocker_fits, in_i. cbn. lia.
Qed.

Lemma pockets_ok : inventory_ok pockets.
Proof.
  split.
  - assert (grid_wf (grid_new 4 4)) as Hg by (apply grid_new_wf; unfold in_u; lia).
    eapply (place_item_wf (grid_new 4 4)); [done|apply lookup_empty| | |apply surjective_pairing];
      split; unfold in_u; cbn; lia.
  - intros k i. cbn. intros [<- <-]%lookup_singleton_Some. split; [done|]. unfold stack_ok, in_u. cbn. lia.
  - intros k. destruct (decide (k = 1)) as [->|Hne].
    + intros _. cbn. by rewrite lookup_singleton_eq.
    + intros [p Hp]. assert (placements (inv_grid pockets) = {[ 1 := mk_placed (mk_slot 0 0) Normal (mk_dims 1 1) ]}) as E
        by (vm_compute; reflexivity). rewrite E, lookup_singleton_ne in Hp by done. done.
Qed.

Lemma demo_run : zone_run demo0 3 demo3.
Proof.
  apply (run_accept demo0 2 demo2 drop_pebbles demo3 []); [|done|vm_compute; reflexivity].
  apply (run_accept demo0 1 demo1 walk_east demo2 []); [|split; cbn; lia|vm_compute; reflexivity].
  apply (run_accept demo0 0 demo0 spawn_seven demo1 []); [apply run_start| |vm_compute; reflexivity].
  split; [unfold pos_ok, in_i; cbn; lia|]. split; [unfold within, MAX_SPAWN; cbn; lia|apply pockets_ok].
Qed.

Lemma demo_order : enumerates [] demo3.
Proof.
  intros id. assert (bags (dropped_bags demo3) = ∅) as -> by (vm_compute; reflexivity).
  rewrite lookup_empty. split; [intros []%not_elem_of_nil|intros []; done].
Qed.

(** Where the zone does not do what the decision records say: an older sequence number is taken. *)
Example older_sequence_taken :
  last_processed_inputs demo2 !! 7 = Some 9 /\ last_processed_inputs (after demo2 (ZoneMoveIntent 7 3 (mk_input 0 32767))) !! 7 = Some 3.
Proof. split; vm_compute; reflexivity. Qed.

Definition stop_now : ZoneCommand := ZoneMoveIntent 7 10 (mk_input 0 0).
Definition ticked (z : MapZone) : MapZone := match zone_step [] z with Ok (z', _) => z' | Err _ => z end.
Definition carried (z : MapZone) : option MovementRemainder :=
  e ← entity_map z !! 7; c ← ecs_get (world z) e; c_remainder c.

(** An input of zero keeps the fraction that is carried over. *)
Example zero_input_keeps_remainder :
  let z := ticked (after demo1 (ZoneMoveIntent 7 9 (mk_input 100 0))) in
  carried z = Some (mk_rem 400000 0) /\ carried (ticked (after z stop_now)) = Some (mk_rem 400000 0).
Proof. split; vm_compute; reflexivity. Qed.

(** The sequence number of an input of zero is reported as active. *)
Example zero_input_is_active :
  match zone_step [] (after demo1 stop_now) with
  | Ok (_, out) => out_snapshots out = [mk_snapshot 7 1 (mk_pos 0 0 0) (Some 10) (Some 10)]
  | Err _ => False
  end.
Proof. vm_compute. reflexivity. Qed.

Lemma zone_invariant_witness :
  (exists z' out, zone_step [] demo3 = Ok (z', out)) /\ zone_accept demo3 spawn_seven = Err (DuplicateSpawn 7) /\
  exists e, entity_map demo3 !! 7 = Some e.
Proof.
  destruct (zone_invariant demo0 demo3 3 demo_started demo_run ltac:(unfold MAX_AGE; lia))
    as (_ & _ & _ & _ & _ & _ & Hstep & _).
  split; [exact (Hstep [] demo_order)|]. split; [vm_compute; reflexivity|exists 0%N; vm_compute; reflexivity].
Defined.


(** The ten pebbles are in a bag on the ground now. *)
Lemma zone_conserves_items_witness :
  exists z' out, zone_step [] demo3 = Ok (z', out) /\ total_quantity 1001 z' = total_quantity 1001 demo3 - 0 /\
    map_total (bag_total (quantity_of 1001)) (bags (dropped_bags z')) = 10.
Proof.
  destruct (zone_step [] demo3) as [[z' out]|e] eqn:E; [|vm_compute in E; discriminate E].
  destruct (zone_conserves_items demo0 demo3 3 1001 1 demo_started demo_run ltac:(unfold MAX_AGE; lia)) as (H & _).
  destruct (H [] z' out demo_order E) as [H1 _]. exists z', out. split; [reflexivity|]. split.
  - exact H1.
  - vm_compute in E. injection E as <- <-. vm_compute. reflexivity.
Defined.

(** Two characters of mining power 10 beside a rock of health 20. *)
Definition quarry (mine_power : Z) : MapWorld Components :=
  let w1 := (ecs_spawn ecs_new (rock_bundle (mk_pos 500 0 0) 20)).1 in
  let w2 := (ecs_spawn w1 (set_mine (Some (mk_mine 7 mine_power)) (character_bundle 7 (mk_pos 0 0 0) pockets))).1 in
  (ecs_spawn w2 (set_mine (Some (mk_mine 8 mine_power)) (character_bundle 8 (mk_pos 0 100 0) pockets))).1.

(** The rock has lost all its health and still stands: no single hit was enough. *)
Lemma mining_correct_witness :
  let '(w', events) := mining_tick_system (quarry 10) 250 in
  events = [] /\ (c ← ecs_get w' 0%N; c_rock c) = Some (mk_rock 0 20) /\
  events = map (fun h => destruction_of h.1) (filter lethal (tick_hits (quarry 10) 250)).
Proof.
  destruct (mining_tick_system (quarry 10) 250) as [w' events] eqn:E.
  destruct (mining_correct (quarry 10) w' 250 events E) as (_ & _ & _ & _ & _ & _ & Hev).
  - intros e c m Hc Hm. assert (forall l : list (N * Components), (e, c) ∈ l ->
      Forall (fun p => from_option (fun m => 0 <= power m) True (c_mine p.2)) l -> 0 <= power m) as H.
    { intros l Hin Hall. rewrite list.Forall_forall in Hall. specialize (Hall _ Hin). cbn in Hall. by rewrite Hm in Hall. }
    apply (H (map_to_list (mw_live (quarry 10)))); [by apply elem_of_map_to_list|].
    vm_compute. repeat constructor; discriminate.
  - intros e c k Hc Hk. assert (forall l : list (N * Components), (e, c) ∈ l ->
      Forall (fun p => from_option (fun k => 0 <= health k) True (c_rock p.2)) l -> 0 <= health k) as H.
    { intros l Hin Hall. rewrite list.Forall_forall in Hall. specialize (Hall _ Hin). cbn in Hall. by rewrite Hk in Hall. }
    apply (H (map_to_list (mw_live (quarry 10)))); [by apply elem_of_map_to_list|].
    vm_compute. repeat constructor; discriminate.
  - vm_compute in E. injection E as <- <-. split; [reflexivity|]. split; [vm_compute; reflexivity|exact Hev].
Defined.

(** Two blows, each of them enough, report the destruction of the rock twice. *)
Lemma rock_destroyed_twice :
  map resource_id (mining_tick_system (quarry 20) 250).2 = [0; 0].
Proof. vm_compute. reflexivity. Qed.

(** With item definitions, which a tick never has, an item that is equipped can be
    dropped as well: the bag holds it and so does the equipment, and unequipping it
    brings it back into the inventory. *)
Definition hat : ItemInstance := new_unique 1 2002 (OwnerCharacter 7) 42 120.
Definition hat_box : CharacterInventoryState :=
  {| inv_grid := (place_item (grid_new 4 4) 1 (mk_slot 0 0) (mk_dims 1 1) Normal).1;
     inv_equipment := equipment_new; inv_items := {[ 1 := hat ]} |}.

Lemma drop_equipped_duplicates :
  let hats := fun _ : Z => Some (mk_dims 1 1) in
  let heads := fun _ : Z => Some Head in
  let here := metres (mk_pos 0 0 0) in
  let '(inv1, _, _, e1) := process_intent hats heads 7 here 1 empty_manager 0 hat_box
    (IntentEquip {| equip_item_id := 1; equip_slot_kind := Head; equip_revision := revision hat |}) in
  let '(inv2, m2, next2, e2) := process_intent hats heads 7 here 1 empty_manager 0 inv1
    (IntentDrop {| drop_item_id := 1; drop_revision := revision hat + 1 |}) in
  let '(inv3, m3, _, e3) := process_intent hats heads 7 here 1 m2 next2 inv2
    (IntentUnequip {| unequip_source := Head; unequip_slot := mk_slot 1 1; unequip_rotation := Normal; unequip_revision := revision hat + 1 |}) in
  items_total (occurs 1) hat_box = 1 /\ items_total (occurs 1) inv3 = 1 /\ bags_total (occurs 1) m3 = 1.
Proof. vm_compute. repeat split. Qed.
End Demo.

(** ** Restoring bags *)

Definition bag_due (boot saved : Z) (b : DroppedBagEntity) : Z :=
  decay_after_ticks b - Z.max 0 (saved - spawned_at_tick b) - Z.max 0 (boot - saved).

Lemma restore_bag_cases saved boot m count b : in_u 64 saved -> in_u 64 boot -> in_u 64 (spawned_at_tick b) -> in_u 64 (decay_after_ticks b) ->
  (bag_due boot saved b <= 0 /\ restore_bag saved boot (m, count) b = (m, count)) \/
  (0 < bag_due boot saved b /\ exists b', restore_bag saved boot (m, count) b = (spawn_bag m b', count + 1) /\
     bag_id b' = bag_id b /\ quadrant_of b' = quadrant_of b /\ bag_items b' = bag_items b /\
     spawned_at_tick b' = boot /\ decay_after_ticks b' = bag_due boot saved b).
Proof.
  unfold in_u, bag_due. intros Hs Hb Hsp Hd. unfold restore_bag, saturating_sub_u, saturating_add_u, u_max.
  case_decide as H; [right|left; split; [lia|done]].
  split; [lia|]. eexists. split; [done|]. cbn. split_goals; try done. lia.
Qed.

Definition bag_fields_ok (b : DroppedBagEntity) : Prop := in_u 64 (spawned_at_tick b) /\ in_u 64 (decay_after_ticks b).

(** The bags of a snapshot come back with what is left of their time to live: those
    whose time ran out while the server was down do not, every other one is in the
    manager under its number with its contents, and will expire after exactly the
    ticks it had left; the number of restored bags is returned. *)
Theorem restored_bags_correct (m : DroppedBagManager) (saved boot : Z) (l : list DroppedBagEntity) :
  manager_wf m -> in_u 64 saved -> in_u 64 boot -> Forall bag_fields_ok l ->
  NoDup (map bag_id l) -> (forall b, b ∈ l -> bags m !! bag_id b = None) ->
  let '(m', count) := restore_world_bags m saved l boot in
  manager_wf m' /\ count = Z.of_nat (length (filter (fun b => 0 < bag_due boot saved b) l)) /\
  (forall id, id ∉ map bag_id l -> bags m' !! id = bags m !! id) /\
  forall b, b ∈ l ->
    (bag_due boot saved b <= 0 /\ bags m' !! bag_id b = None) \/
    (0 < bag_due boot saved b /\ exists b', bags m' !! bag_id b = Some b' /\ bag_id b' = bag_id b /\
       quadrant_of b' = quadrant_of b /\ bag_items b' = bag_items b /\
       forall t, boot <= t -> is_expired b' t = true <-> boot + bag_due boot saved b <= t).
Proof.
  intros Hm Hs Hb Hl Hnd Hf. unfold restore_world_bags.
  assert (forall m count, manager_wf m -> (forall b, b ∈ l -> bags m !! bag_id b = None) ->
    let '(m', count') := foldl (restore_bag saved boot) (m, count) l in
    manager_wf m' /\ count' = count + Z.of_nat (length (filter (fun b => 0 < bag_due boot saved b) l)) /\
    (forall id, id ∉ map bag_id l -> bags m' !! id = bags m !! id) /\
    forall b, b ∈ l ->
      (bag_due boot saved b <= 0 /\ bags m' !! bag_id b = None) \/
      (0 < bag_due boot saved b /\ exists b', bags m' !! bag_id b = Some b' /\ bag_id b' = bag_id b /\
         quadrant_of b' = quadrant_of b /\ bag_items b' = bag_items b /\
         forall t, boot <= t -> is_expired b' t = true <-> boot + bag_due boot saved b <= t)) as H.
  { clear m Hm Hf. induction Hl as [|b l [Hb1 Hb2] _ IH]; intros m count Hm Hf; cbn [foldl].
    - split_goals; [done|cbn; lia|done|by intros b []%not_elem_of_nil].
    - cbn in Hnd. apply list.NoDup_cons in Hnd as [Hnew Hnd]. specialize (IH Hnd).
      assert (forall b', b' ∈ l -> bag_id b' <> bag_id b) as Hne.
      { intros b' Hin Heq. apply Hnew. rewrite <- Heq. by apply list_elem_of_fmap_2. }
      destruct (restore_bag_cases saved boot m count b Hs Hb Hb1 Hb2) as [[Hdue ->]|(Hdue & b1 & -> & Eid & Eq & Eit & Esp & Ede)].
      + specialize (IH m count Hm ltac:(intros; apply Hf; by right)). destruct (foldl _ (m, count) l) as [m' count'].
        destruct IH as (Hm' & Hc & Hframe & Hall). split_goals.
        * done.
        * rewrite filter_cons, decide_False by lia. done.
        * intros id Hid. apply Hframe. cbn in Hid. set_solver.
        * intros b' [->|Hin]%elem_of_cons; [|by apply Hall]. left. split; [done|].
          rewrite Hframe by done. apply Hf. by left.
      + assert (bags m !! bag_id b1 = None) as Hfresh by (rewrite Eid; apply Hf; by left).
        assert (forall b', b' ∈ l -> bags (spawn_bag m b1) !! bag_id b' = None) as Hf'.
        { intros b' Hin. unfold spawn_bag. cbn. rewrite lookup_insert_ne by (rewrite Eid; by apply not_eq_sym, Hne).
          apply Hf. by right. }
        specialize (IH (spawn_bag m b1) (count + 1) (spawn_bag_wf m b1 Hm Hfresh) Hf').
        destruct (foldl _ _ l) as [m' count']. destruct IH as (Hm' & Hc & Hframe & Hall). split_goals.
        * done.
        * rewrite filter_cons, decide_True by lia. cbn [length]. lia.
        * intros id Hid. cbn in Hid. rewrite Hframe by set_solver. unfold spawn_bag. cbn. apply lookup_insert_ne.
          rewrite Eid. set_solver.
        * intros b' [->|Hin]%elem_of_cons; [|by apply Hall]. right. split; [done|]. exists b1.
          rewrite Hframe by done. unfold spawn_bag. cbn. rewrite <- Eid, lookup_insert_eq. split_goals; try done.
          intros t Ht. unfold is_expired, saturating_sub_u. rewrite Esp, Ede, bool_decide_eq_true. lia. }
  specialize (H m 0 Hm Hf). by destruct (foldl _ (m, 0) l).
Qed.
