(* ===== verification/Egress.v ===== *)
(** The capabilities of a connection ([crates/transport/src/reliable_egress.rs],
    [egress.rs], and the writing half of [frame.rs]): reliable control messages,
    which close the capability for good when one of them fails, and datagrams,
    which may be lost.  What leaves the server is recorded in the order in which
    it leaves. *)

From S2P Require Import Prelude Bytes Contracts Transport Session Bags Zone.
Import Bootstrap Equipment.

(** ** Effects

    Everything the session runtime does to the outside, in order: messages handed
    to the network, failed attempts, closed capabilities, commands taken by the
    queue of a zone, positions handed to the position buffer, saved inventories. *)

Record CharacterPositionUpdate := {
  update_character_id : Z;
  update_x_mm : Z;
  update_y_mm : Z;
  update_z_mm : Z;
  quadrant_x : Z;
  quadrant_y : Z
}.

Inductive Effect :=
| ReliableSent (connection_id : Z) (k : MessageKind) (payload : list Z)
| ReliableFailed (connection_id : Z) (k : MessageKind)
| CapabilityClosed (connection_id : Z)
| DatagramSent (connection_id : Z) (frame : list Z)
| CommandQueued (zone_id : Z) (command : ZoneCommand)
| PositionTracked (update : CharacterPositionUpdate)
| InventorySaved (character_id : Z) (inventory : CharacterInventoryState) (revision : Z).

(** The [failed_closed] flags, which the clones of a capability share, and what has
    happened so far. *)
Record Outside := mk_outside { failed_closed : gset Z; effects : list Effect }.

Definition emit (o : Outside) (e : Effect) : Outside := mk_outside (failed_closed o) (effects o ++ [e]).

(** ** Errors *)

Inductive ReliableEgressConfigError :=
| ZeroChannelCapacity
| ZeroMaximumPayloadBytes
| ZeroSendTimeout.

(** The failures of the network, QUIC's or of a channel. *)
Inductive NetworkError := NetTimedOut | NetOpenStream | NetWrite | NetChannelClosed.

Inductive FrameIoError :=
| FrameCodec (e : BootstrapCodecError)
| FramePayloadTooLarge (actual maximum : Z)
| FrameRead.

Inductive ReliableSendError :=
| SendPayloadTooLarge (actual maximum : Z)
| SendFrame (e : FrameIoError)
| SendNetwork (connection_id : Z) (e : NetworkError)
| SendFailClosed (connection_id : Z).

Inductive ReliableCapabilitySendOutcome :=
| Sent
| UnsupportedProtocolMinor (negotiated required : Z).

(** What the outside answers to, given everything that has happened so far: a write
    to the network, a datagram, a [try_send] to the queue of a zone. *)
Record Environment := {
  env_write : list Effect -> Z -> MessageKind -> option NetworkError;
  env_datagram : list Effect -> Z -> option NetworkError;
  env_zone : list Effect -> Z -> option TrySendError
}.

(** [write_single_frame], up to the writes themselves: the bytes to write. *)
Definition write_single_frame (k : MessageKind) (payload : list Z) (maximum_payload_bytes : Z)
  : result FrameIoError (list Z) :=
  if decide (len payload > maximum_payload_bytes)
  then Err (FramePayloadTooLarge (len payload) maximum_payload_bytes)
  else
    header ← map_err FrameCodec (header_new k (len payload));
    Ok (header_encode header ++ payload).

(** ** The reliable capability *)

Record ReliableConnectionSender := {
  reliable_connection_id : Z;
  negotiated_protocol_minor : Z;
  maximum_payload_bytes : Z;
  send_timeout : Z
}.

Definition reliable_validate_config (maximum_payload_bytes send_timeout : Z) : result ReliableEgressConfigError unit :=
  if decide (maximum_payload_bytes = 0) then Err ZeroMaximumPayloadBytes
  else if decide (send_timeout = 0) then Err ZeroSendTimeout else Ok tt.

Definition reliable_new (connection_id maximum_payload_bytes send_timeout : Z)
  : result ReliableEgressConfigError ReliableConnectionSender :=
  _ ← reliable_validate_config maximum_payload_bytes send_timeout;
  Ok {| reliable_connection_id := connection_id; negotiated_protocol_minor := 0;
        maximum_payload_bytes := maximum_payload_bytes; send_timeout := send_timeout |}.

Definition with_negotiated_protocol_minor (sender : ReliableConnectionSender) (minor : Z) : ReliableConnectionSender :=
  {| reliable_connection_id := reliable_connection_id sender; negotiated_protocol_minor := minor;
     maximum_payload_bytes := maximum_payload_bytes sender; send_timeout := send_timeout sender |}.

Definition supports_protocol_minor (sender : ReliableConnectionSender) (minimum_protocol_minor : Z) : bool :=
  bool_decide (minimum_protocol_minor <= negotiated_protocol_minor sender).

Definition fail_close (o : Outside) (sender : ReliableConnectionSender) : Outside :=
  let cid := reliable_connection_id sender in
  if decide (cid ∈ failed_closed o) then o
  else mk_outside ({[ cid ]} ∪ failed_closed o) (effects o ++ [CapabilityClosed cid]).

Section Send.
Context (env : Environment).

(** [send_attempt] and [send_inner]. *)
Definition send_attempt (o : Outside) (sender : ReliableConnectionSender) (k : MessageKind) (payload : list Z)
  : Outside * result ReliableSendError unit :=
  let cid := reliable_connection_id sender in
  if decide (len payload > maximum_payload_bytes sender) then
    (emit o (ReliableFailed cid k), Err (SendPayloadTooLarge (len payload) (maximum_payload_bytes sender)))
  else
    match write_single_frame k payload (maximum_payload_bytes sender) with
    | Err e => (emit o (ReliableFailed cid k), Err (SendFrame e))
    | Ok _ =>
        match env_write env (effects o) cid k with
        | Some e => (emit o (ReliableFailed cid k), Err (SendNetwork cid e))
        | None => (emit o (ReliableSent cid k payload), Ok tt)
        end
    end.

(** The gate makes the sends of one connection follow each other. *)
Definition reliable_send (o : Outside) (sender : ReliableConnectionSender) (k : MessageKind) (payload : list Z)
  : Outside * result ReliableSendError unit :=
  if decide (reliable_connection_id sender ∈ failed_closed o)
  then (o, Err (SendFailClosed (reliable_connection_id sender)))
  else
    match send_attempt o sender k payload with
    | (o', Ok _) => (o', Ok tt)
    | (o', Err e) => (fail_close o' sender, Err e)
    end.

Definition send_if_supported (o : Outside) (sender : ReliableConnectionSender) (minimum_protocol_minor : Z)
  (k : MessageKind) (payload : list Z) : Outside * result ReliableSendError ReliableCapabilitySendOutcome :=
  if supports_protocol_minor sender minimum_protocol_minor then
    match reliable_send o sender k payload with
    | (o', Ok _) => (o', Ok Sent)
    | (o', Err e) => (o', Err e)
    end
  else (o, Ok (UnsupportedProtocolMinor (negotiated_protocol_minor sender) minimum_protocol_minor)).

(** ** The datagram capability *)

Record RealtimeConnectionSender := { realtime_connection_id : Z; maximum_datagram_bytes : Z }.

Inductive RealtimeSendError :=
| RealtimeFrame (e : Datagram.DatagramFrameError)
| RealtimeTransport (connection_id : Z) (e : NetworkError).

Definition realtime_try_send (o : Outside) (sender : RealtimeConnectionSender) (k : MessageKind) (payload : list Z)
  : Outside * result RealtimeSendError unit :=
  match Datagram.encode_datagram_frame k payload (maximum_datagram_bytes sender) with
  | Err e => (o, Err (RealtimeFrame e))
  | Ok frame =>
      match env_datagram env (effects o) (realtime_connection_id sender) with
      | Some e => (o, Err (RealtimeTransport (realtime_connection_id sender) e))
      | None => (emit o (DatagramSent (realtime_connection_id sender) frame), Ok tt)
      end
  end.

(** ** Facts *)

(** A sequence of messages on one capability, the results in order. *)
Fixpoint send_all (o : Outside) (sender : ReliableConnectionSender) (messages : list (MessageKind * list Z))
  : Outside * list (result ReliableSendError unit) :=
  match messages with
  | [] => (o, [])
  | (k, payload) :: rest =>
      let '(o1, r) := reliable_send o sender k payload in
      let '(o2, rs) := send_all o1 sender rest in (o2, r :: rs)
  end.

(** What has been written to a connection, each message on a stream of its own. *)
Definition delivered (cid : Z) (log : list Effect) : list (MessageKind * list Z) :=
  omap (fun e => match e with
                 | ReliableSent c k payload => if decide (c = cid) then Some (k, payload) else None
                 | _ => None
                 end) log.

Lemma delivered_app cid l k : delivered cid (l ++ k) = delivered cid l ++ delivered cid k.
Proof. apply omap_app. Qed.

(** One send in full. *)
Lemma reliable_send_cases o sender k payload o' r (cid := reliable_connection_id sender) :
  reliable_send o sender k payload = (o', r) ->
  (r = Ok tt /\ cid ∉ failed_closed o /\ failed_closed o' = failed_closed o /\
   len payload <= maximum_payload_bytes sender /\ in_u 16 (len payload) /\
   effects o' = effects o ++ [ReliableSent cid k payload]) \/
  (exists e, r = Err e /\ failed_closed o' = {[ cid ]} ∪ failed_closed o /\
   ((o' = o /\ cid ∈ failed_closed o /\ e = SendFailClosed cid) \/
    cid ∉ failed_closed o /\ effects o' = effects o ++ [ReliableFailed cid k; CapabilityClosed cid])).
Proof.
  unfold reliable_send. fold cid. destruct (decide (cid ∈ failed_closed o)) as [Hin|Hout].
  { intros [= <- <-]. right. eexists. split; [done|]. split; [set_solver|]. by left. }
  assert (forall e : ReliableSendError, (fail_close (emit o (ReliableFailed cid k)) sender, Err e) = (o', r) ->
    exists e', r = Err e' /\ failed_closed o' = {[ cid ]} ∪ failed_closed o /\
      ((o' = o /\ cid ∈ failed_closed o /\ e' = SendFailClosed cid) \/
       cid ∉ failed_closed o /\ effects o' = effects o ++ [ReliableFailed cid k; CapabilityClosed cid])) as Hfail.
  { intros e [= <- <-]. eexists. split; [done|]. unfold fail_close. fold cid. cbn [failed_closed effects emit].
    rewrite decide_False by done. split; [done|]. right. split; [done|]. cbn. by rewrite <- app_assoc. }
  unfold send_attempt. fold cid. destruct (decide (len payload > _)) as [Hbig|Hfits]; [intros H; right; by eapply Hfail|].
  unfold write_single_frame. rewrite decide_False by done.
  destruct (header_new k (len payload)) as [h|e] eqn:Eh; cbn [map_err mbind result_bind];
    [|intros H; right; by eapply Hfail].
  destruct (env_write env (effects o) cid k); [intros H; right; by eapply Hfail|].
  intros [= <- <-]. left. apply Datagram.header_new_Ok in Eh as [Hu _]. split_goals; (done || lia).
Qed.

Lemma send_closed messages : forall o sender, reliable_connection_id sender ∈ failed_closed o ->
  send_all o sender messages = (o, map (fun _ => Err (SendFailClosed (reliable_connection_id sender))) messages).
Proof.
  induction messages as [|[k payload] rest IH]; intros o sender H; cbn [send_all]; [done|].
  unfold reliable_send. rewrite decide_True by done. by rewrite IH.
Qed.
End Send.

(** The theorem below, for the proofs that build on it. *)
Lemma send_all_prefix (env : Environment) (o o' : Outside) (sender : ReliableConnectionSender)
  (messages : list (MessageKind * list Z)) (results : list (result ReliableSendError unit)) :
  let cid := reliable_connection_id sender in
  cid ∉ failed_closed o -> send_all env o sender messages = (o', results) ->
  exists n, delivered cid (effects o') = delivered cid (effects o) ++ take n messages /\
    results = replicate n (Ok tt) ++ drop n results /\
    Forall (fun m => in_u 16 (len m.2) /\ len m.2 <= maximum_payload_bytes sender) (take n messages) /\
    length results = length messages /\
    (cid ∈ failed_closed o' <-> (n < length messages)%nat) /\
    ((n < length messages)%nat -> exists e, results !! n = Some (Err e) /\
       drop (S n) results = replicate (length messages - S n) (Err (SendFailClosed cid))).
Proof.
  intros cid. revert o o' results. induction messages as [|[k payload] rest IH]; intros o o' results Hopen H; cbn [send_all] in H.
  { injection H as <- <-. exists 0%nat. cbn. rewrite app_nil_r. split_goals; [done..|constructor|done|split; [done|lia]|lia]. }
  destruct (reliable_send env o sender k payload) as [o1 r] eqn:E.
  destruct (send_all env o1 sender rest) as [o2 rs] eqn:E2. injection H as <- <-.
  apply reliable_send_cases in E as [(-> & _ & Hf & Hmax & Hu & He)|(e & -> & Hf & Hcase)].
  - destruct (IH o1 o2 rs ltac:(by rewrite Hf) E2) as (n & Hd & Hr & Hall & Hl & Hc & Hlate). exists (S n).
    rewrite Hd, He, delivered_app. cbn [delivered omap list_omap take drop replicate length lookup].
    rewrite decide_True by done. rewrite <- app_assoc. split_goals; [done|cbn; by f_equal|by constructor|lia| |].
    + rewrite Hc. lia.
    + intros Hn. destruct (Hlate ltac:(lia)) as (e & Hx & Hy). exists e. by split.
  - rewrite send_closed in E2 by (fold cid; rewrite Hf; set_solver). injection E2 as <- <-.
    destruct Hcase as [(_ & ? & _)|[_ He]]; [done|]. exists 0%nat. rewrite He, delivered_app. cbn.
    rewrite length_map, Nat.sub_0_r. split_goals; [done|done|constructor|done| |].
    + rewrite Hf. split; [lia|set_solver].
    + intros _. exists e. split; [done|]. fold cid. clear. induction rest as [|? ? IH]; cbn; [done|by f_equal].
Qed.

(** Control messages are written to a client in order and without a gap.  Whatever
    the network does, of a sequence of messages sent on a capability a prefix is
    written, each message whole and with a payload its header can describe;
    exactly those sends succeed; after the first failure the capability is closed
    and every later send is refused without an attempt. *)
Theorem reliable_delivers_prefix (env : Environment) (o o' : Outside) (sender : ReliableConnectionSender)
  (messages : list (MessageKind * list Z)) (results : list (result ReliableSendError unit)) :
  let cid := reliable_connection_id sender in
  cid ∉ failed_closed o -> send_all env o sender messages = (o', results) ->
  exists n, delivered cid (effects o') = delivered cid (effects o) ++ take n messages /\
    results = replicate n (Ok tt) ++ drop n results /\
    Forall (fun m => in_u 16 (len m.2) /\ len m.2 <= maximum_payload_bytes sender) (take n messages) /\
    length results = length messages /\
    (cid ∈ failed_closed o' <-> (n < length messages)%nat) /\
    ((n < length messages)%nat -> exists e, results !! n = Some (Err e) /\
       drop (S n) results = replicate (length messages - S n) (Err (SendFailClosed cid))).
Proof. exact (send_all_prefix env o o' sender messages results). Qed.

(** A network that takes two writes. *)
Definition two_writes : Environment := {|
  env_write := fun log _ _ => if decide (length log < 2)%nat then None else Some NetTimedOut;
  env_datagram := fun _ _ => None;
  env_zone := fun _ _ => None
|}.

Definition example_sender : ReliableConnectionSender :=
  {| reliable_connection_id := 7; negotiated_protocol_minor := 3; maximum_payload_bytes := 4; send_timeout := 1 |}.

Lemma reliable_delivers_prefix_witness :
  let messages := [(KFrontierManifest, [1]); (KTerrainAuthority, [2]); (KTerrainAuthority, [3]); (KTerrainAuthority, [4])] in
  let '(o, results) := send_all two_writes (mk_outside ∅ []) example_sender messages in
  results = [Ok tt; Ok tt; Err (SendNetwork 7 NetTimedOut); Err (SendFailClosed 7)] /\
  exists n, delivered 7 (effects o) = take n messages.
Proof.
  cbn zeta. destruct (send_all _ _ _ _) as [o results] eqn:E. split; [by vm_compute in E; injection E as _ <-|].
  destruct (reliable_delivers_prefix two_writes _ _ example_sender _ _ (not_elem_of_empty 7) E) as (n & Hd & _).
  exists n. exact Hd.
Defined.
