(* ===== verification/Router.v ===== *)
(** Between sessions and zones: the router of zone commands
    ([apps/world-server/src/world_router.rs]) and the bridge that sends a client the
    snapshots of its own character ([snapshot_bridge.rs]). *)

From S2P Require Import Prelude Bytes Core Contracts Snapshots Transport Session Items Bags Movement Zone Egress.
Import World Bootstrap Equipment.

(** ** The world router *)

Inductive WorldRouteOutcome := Routed | DroppedBackpressure.

Inductive RouterError :=
| ZoneRegistered (zone_id : Z)
| UnknownZone (zone_id : Z)
| ControlQueueFull (action : string) (zone_id : Z)
| ControlQueueClosed (action : string) (zone_id : Z)
| CommandQueueClosed (zone_id : Z)
| InvalidAxes (axis_x axis_y : Z).

(** [zones]; the senders are part of the outside. *)
Record WorldRouter := { zones : gset Z }.

Definition register_zone (r : WorldRouter) (zone_id : Z) : WorldRouter * result RouterError unit :=
  if decide (zone_id ∈ zones r) then (r, Err (ZoneRegistered zone_id))
  else ({| zones := {[ zone_id ]} ∪ zones r |}, Ok tt).

Definition sender_for_zone (r : WorldRouter) (zone_id : Z) : result RouterError unit :=
  if decide (zone_id ∈ zones r) then Ok tt else Err (UnknownZone zone_id).

Definition authorized_to_zone_command (intent : AuthorizedIntent) : result RouterError ZoneCommand :=
  let 'Move axis_x axis_y := ai_payload intent in
  input ← ok_or (InvalidAxes axis_x axis_y) (from_axes axis_x axis_y);
  Ok (ZoneMoveIntent (ai_character_id intent) (ai_sequence intent) input).

Section Route.
Context (env : Environment) (r : WorldRouter).

(** [sender.try_send(command)] on the queue of a zone. *)
Definition zone_try_send (o : Outside) (zone_id : Z) (command : ZoneCommand) : Outside * option TrySendError :=
  match env_zone env (effects o) zone_id with
  | Some e => (o, Some e)
  | None => (emit o (CommandQueued zone_id command), None)
  end.

Definition route_control (o : Outside) (zone_id : Z) (command : ZoneCommand) (action : string)
  : Outside * result RouterError unit :=
  match sender_for_zone r zone_id with
  | Err e => (o, Err e)
  | Ok _ =>
      match zone_try_send o zone_id command with
      | (o', None) => (o', Ok tt)
      | (o', Some Full) => (o', Err (ControlQueueFull action zone_id))
      | (o', Some Closed) => (o', Err (ControlQueueClosed action zone_id))
      end
  end.

Definition spawn_character (o : Outside) (zone_id character_id : Z) (position : WorldPositionMm)
  (inventory : CharacterInventoryState) (inventory_revision : Z) : Outside * result RouterError unit :=
  route_control o zone_id (SpawnCharacter character_id position inventory inventory_revision) "spawn character".

Definition despawn_character (o : Outside) (zone_id character_id : Z) (responder : option Z)
  : Outside * result RouterError unit :=
  route_control o zone_id (DespawnCharacter character_id responder) "despawn character".

Definition snapshot_inventory (o : Outside) (zone_id character_id : Z) (responder : Z)
  : Outside * result RouterError unit :=
  route_control o zone_id (SnapshotInventory character_id responder) "snapshot inventory".

Definition send_zone_command (o : Outside) (zone_id : Z) (command : ZoneCommand) : Outside * result RouterError unit :=
  match sender_for_zone r zone_id with
  | Err e => (o, Err e)
  | Ok _ =>
      match zone_try_send o zone_id command with
      | (o', None) | (o', Some Full) => (o', Ok tt)
      | (o', Some Closed) => (o', Err (CommandQueueClosed zone_id))
      end
  end.

Definition route_authorized (o : Outside) (intent : AuthorizedIntent) : Outside * result RouterError WorldRouteOutcome :=
  let zone_id := ai_zone_id intent in
  match sender_for_zone r zone_id with
  | Err e => (o, Err e)
  | Ok _ =>
      match authorized_to_zone_command intent with
      | Err e => (o, Err e)
      | Ok command =>
          match zone_try_send o zone_id command with
          | (o', None) => (o', Ok Routed)
          | (o', Some Full) => (o', Ok DroppedBackpressure)
          | (o', Some Closed) => (o', Err (CommandQueueClosed zone_id))
          end
      end
  end.
End Route.

(** ** The snapshot bridge *)

Inductive SnapshotRouteOutcome := SnapshotSent | DroppedNoRoute | DroppedRealtime.

Inductive BridgeError :=
| DuplicateRealtime (connection_id : Z)
| NoRealtimeCapability (character_id connection_id : Z)
| CharacterRouted (character_id connection_id : Z)
| SnapshotEncoding (e : Datagram.DatagramFrameError).

Record SelfSnapshotBridge := mk_bridge {
  realtime_by_connection : gmap Z RealtimeConnectionSender;
  connection_by_character : gmap Z Z
}.

Definition empty_bridge : SelfSnapshotBridge := mk_bridge ∅ ∅.

Definition register_connection (b : SelfSnapshotBridge) (realtime : RealtimeConnectionSender)
  : SelfSnapshotBridge * result BridgeError unit :=
  let connection_id := realtime_connection_id realtime in
  match realtime_by_connection b !! connection_id with
  | None => (mk_bridge (<[connection_id := realtime]> (realtime_by_connection b)) (connection_by_character b), Ok tt)
  | Some _ => (b, Err (DuplicateRealtime connection_id))
  end.

Definition bridge_bind_character (b : SelfSnapshotBridge) (character_id connection_id : Z)
  : SelfSnapshotBridge * result BridgeError unit :=
  match realtime_by_connection b !! connection_id with
  | None => (b, Err (NoRealtimeCapability character_id connection_id))
  | Some _ =>
      match connection_by_character b !! character_id with
      | None =>
          (mk_bridge (realtime_by_connection b) (<[character_id := connection_id]> (connection_by_character b)), Ok tt)
      | Some connection_id' => (b, Err (CharacterRouted character_id connection_id'))
      end
  end.

Definition connection_id_for_character (b : SelfSnapshotBridge) (character_id : Z) : option Z :=
  connection_by_character b !! character_id.

Definition remove_connection (b : SelfSnapshotBridge) (connection_id : Z) : SelfSnapshotBridge :=
  mk_bridge (delete connection_id (realtime_by_connection b))
    (filter (fun kv => kv.2 <> connection_id) (connection_by_character b)).

Definition snapshot_wire (snapshot : MovementSnapshot) : SnapshotV2.SelfMovementSnapshotV2 := {|
  SnapshotV2.server_tick := server_tick snapshot;
  SnapshotV2.x_mm := px (snapshot_position snapshot);
  SnapshotV2.y_mm := py (snapshot_position snapshot);
  SnapshotV2.z_mm := pz (snapshot_position snapshot);
  SnapshotV2.last_processed_input_sequence := last_processed_input_sequence snapshot;
  SnapshotV2.active_movement_sequence := active_movement_sequence snapshot
|}.

Definition bridge_route (env : Environment) (o : Outside) (b : SelfSnapshotBridge) (snapshot : MovementSnapshot)
  : Outside * result BridgeError SnapshotRouteOutcome :=
  match connection_id_for_character b (snapshot_character_id snapshot) with
  | None => (o, Ok DroppedNoRoute)
  | Some connection_id =>
      match realtime_by_connection b !! connection_id with
      | None => (o, Ok DroppedNoRoute)
      | Some realtime =>
          match realtime_try_send env o realtime KSelfMovementSnapshotV2
                  (SnapshotV2.encode_wire (snapshot_wire snapshot)) with
          | (o', Ok _) => (o', Ok SnapshotSent)
          | (o', Err (RealtimeFrame e)) => (o', Err (SnapshotEncoding e))
          | (o', Err (RealtimeTransport _ _)) => (o', Ok DroppedRealtime)
          end
      end
  end.
