(* ===== verification/System.v ===== *)
(** What the session runtime relies on: the frontier runtime, the preparation
    scheduler and the reveal gate together, and that none of them can fail it, apart
    from a frontier that is full or out of revisions. *)

From S2P Require Import Prelude Bytes Core Contracts Wire Presentation Noise Terrain Hydrology WaterSurface.
From S2P Require Import EnvironmentPolicy Frontier Preparation Runtime Scheduler SchedulerSafety PublicContracts Delivery.
Import World Presentation.Terrain Presentation.Environment Presentation.Water.

(** ** An evaluation of the scheduler, as steps of the frontier runtime *)

Section Steps.
Context (blake3_keyed : list Z -> list Z -> list Z) (cfg : SchedulerConfig).

Abbreviation steps s s' := (rtc runtime_step (sys_frontier s) (sys_frontier s')).

Lemma consume_event_steps s now report e s' r : consume_event cfg s now report e = (s', r) -> steps s s'.
Proof.
  destruct e as [a|i err]; cbn [consume_event].
  - unfold consume_completed. destruct (verify_retained_terrain_artifact s a); [|by intros [= <- _]].
    destruct (complete_preparation (sys_frontier s) a) as [f o] eqn:E.
    intros H. assert (sys_frontier s' = f) as -> by (repeat case_match; by simplify_eq). by eapply rtc_once, rt_complete.
  - unfold consume_failed. cbn [sys_frontier with_retained].
    destruct (fail_preparation (sys_frontier s) i) as [f o] eqn:E.
    intros H. assert (sys_frontier s' = f) as -> by (repeat case_match; by simplify_eq). by eapply rtc_once, rt_fail.
Qed.

Lemma consume_loop_steps es : forall s now report s' r, consume_loop cfg es s now report = (s', r) -> steps s s'.
Proof.
  induction es as [|e es IH]; intros s now report s' r; cbn [consume_loop].
  { destruct (w_alive (sys_worker s)); by intros [= <- _]. }
  destruct (consume_event cfg _ now report e) as [s1 [report1|err]] eqn:E; apply consume_event_steps in E as H1;
    [|by intros [= <- _]]. intros H2%IH. by etransitivity.
Qed.

Lemma admit_candidate_steps s report admitted c s' r a :
  admit_candidate blake3_keyed cfg s report admitted c = (s', r, a) -> steps s s'.
Proof.
  unfold admit_candidate. cbv zeta. destruct (fingerprint_new _); [|by intros [= <- _ _]].
  destruct (preparation_identity _ _ _) as [i|]; [|by intros [= <- _ _]].
  destruct (request_preparation (sys_frontier s) i) as [f o] eqn:E.
  assert (rtc runtime_step (sys_frontier s) f) as H1 by (by eapply rtc_once, rt_request).
  destruct o as [[]|]; [|by intros [= <- _ _]..]. destruct (try_submit _ _ _) as [w []]; [by intros [= <- _ _]..| |].
  all: cbn [sys_frontier with_worker with_runtime]; destruct (cancel_preparation f i) as [f2 o2] eqn:E2.
  all: intros H; assert (sys_frontier s' = f2) as -> by (repeat case_match; by simplify_eq).
  all: etransitivity; [exact H1|]; by eapply rtc_once, rt_cancel.
Qed.

Lemma admission_loop_steps candidates : forall budget s now report admitted s' r,
  admission_loop blake3_keyed cfg candidates budget s now report admitted = (s', r) -> steps s s'.
Proof.
  induction candidates as [|c candidates IH]; intros budget s now report admitted s' r; cbn [admission_loop];
    [by intros [= <- _]|].
  destruct (decide _); [by intros [= <- _]|]. destruct (retry_allows s c now); [|apply IH].
  destruct (admit_candidate _ _ _ _ _ _) as [[s1 report1] a] eqn:E; apply admit_candidate_steps in E as H1.
  destruct a; [|by intros [= <- _]..]. intros H2%IH. by etransitivity.
Qed.

Lemma evaluate_steps s now s' r : evaluate blake3_keyed cfg s now = (s', r) -> steps s s'.
Proof.
  unfold evaluate, consume_results. destruct (consume_loop _ _ _ _ _) as [s1 [report|e]] eqn:E1;
    apply consume_loop_steps in E1; [|by intros [= <- _]].
  unfold schedule_candidates. cbv zeta. destruct (decide _); [by intros [= <- _]|].
  destruct (decide _); [by intros [= <- _]|].
  destruct (admission_loop _ _ _ _ _ _ _ _) as [s2 [report2|e]] eqn:E2; apply admission_loop_steps in E2;
    intros [= <- _]; by etransitivity.
Qed.
End Steps.

(** ** The beginning *)

Lemma runtime_new_revealed min w h f rev gen size r :
  coord_ok min -> 0 <= w -> 0 <= h -> rectangular min w h = Ok f -> 0 <= rev < 2 ^ 64 ->
  runtime_new f rev gen size = Ok r -> revealed_quadrants (rt_state r) = initial_quadrants f.
Proof.
  intros Hmin Hw Hh Hf Hrev Hr. unfold runtime_new in Hr. apply bind_Ok in Hr as (f0 & H0 & Hr). apply map_err_Ok in H0.
  pose proof (from_initial_wf _ _ _ _ _ _ Hmin Hw Hh Hf Hrev H0) as Hwf0.
  destruct (derive_candidate_frontier f0) as [f1 d] eqn:Ed.
  apply bind_Ok in Hr as (l & _ & Hr). apply bind_Ok in Hr as (_ & _ & [= <-]). cbn.
  assert (revealed_quadrants f0 = initial_quadrants f) as E0.
  { unfold from_initial in H0. destruct (decide _); [done|]. by injection H0 as <-. }
  apply derive_cases in Ed as [(-> & _)|(l' & _ & _ & _ & _ & _ & -> & _)]; done.
Qed.

(** A new gate has prepared its quadrant and nothing else. *)
Lemma gate_new_slots r config r' g : prep_inv (rt_pair r) -> rt_preparations r = ∅ -> gate_new r config = (r', Ok g) ->
  rt_generator_version r' = rt_generator_version r /\
  (forall c i, rt_preparations r' !! c <> Some (SlotInFlight i)) /\
  forall c, state (rt_state r') c = Prepared -> c = reveal_coord config \/ state (rt_state r) c = Prepared.
Proof.
  intros [Hwf _] He (artifact & r1 & o & o2 & Hcoord & Er & Ec & _)%gate_new_calls. cbn in Hwf.
  assert (rt_state r1 = rt_state r /\ rt_generator_version r1 = rt_generator_version r /\
    rt_preparations r1 = {[reveal_coord config := SlotInFlight (art_identity artifact)]}) as (Es & Eg & Ep).
  { unfold request_preparation, request in Er. destruct (validate_preparation_generator r _); [|done].
    rewrite He, lookup_empty in Er. destruct (decide _); [done|]. injection Er as <- _. cbn. by rewrite Hcoord. }
  unfold complete_preparation in Ec. destruct (validate_preparation_generator r1 _); [|done].
  destruct (complete _ _ _) as [[sl f] o'] eqn:Ecomp. injection Ec as <- Eo. cbn [rt_state rt_preparations rt_generator_version with_frontier].
  rewrite Es, Ep in Ecomp. apply complete_cases in Ecomp as [(-> & -> & Hno & Hiff)|(t & _ & _ & _ & -> & Ht)]; [| |done].
  - exfalso. destruct o' as [o'|]; [|done]. destruct o' as [t|]; [by destruct (Hno t)|].
    pose proof (proj1 Hiff eq_refl) as Hslot. rewrite Hcoord, lookup_singleton_eq in Hslot. done.
  - rewrite Hcoord in *. split; [done|]. split.
    + intros c i. rewrite insert_singleton_eq. intros [_ ?]%lookup_singleton_Some. done.
    + intros c. destruct (state_after _ _ _ _ _ c Hwf Ht) as (-> & _). destruct (decide (_ /\ _)) as [[-> _]|]; auto.
Qed.

(** ** The system *)

(** The errors of a reveal that no caller can avoid: all quadrants that fit the list are revealed, or the
    last revision is used. *)
Definition frontier_used_up (f : FrontierState) (e : RuntimeError) : Prop :=
  match e with RuntimeReveal (RevealLifecycle e) => no_room f e | _ => False end.

Section System.
Context (blake3_hash : list Z -> list Z) (blake3_keyed : list Z -> list Z -> list Z) (cfg : SchedulerConfig).

(** [scheduler] says whether the preparation scheduler is attached. *)
Record system_ok (scheduler : bool) (gate : option DevelopmentFrontierRevealGate) (y : Sys) : Prop := {
  sy_runtime : runtime_ok (sys_frontier y);
  sy_scheduler : scheduler = true -> sys_inv blake3_hash blake3_keyed cfg y;
  sy_lattice : forall c, c ∈ revealed_quadrants (rt_state (sys_frontier y)) -> lattice_ok (to_fqc c);
  sy_gate : forall g, gate = Some g -> gate_ok g /\ lattice_ok (to_fqc (gate_coord g)) /\
    2 <= rank (state (rt_state (sys_frontier y)) (gate_coord g))
}.

(** The settings under which the scheduler works. *)
Definition scheduler_ok : Prop :=
  settings_in_range cfg /\ 0 <= max_prepared_quadrants (cfg_settings cfg) /\ seeds_nonzero blake3_keyed cfg /\
  hashes_ok blake3_hash blake3_keyed /\ public_settings_ok cfg.

Lemma system_manifest scheduler gate y : system_ok scheduler gate y ->
  exists m payload, manifest (sys_frontier y) = Ok m /\ Manifest.encode m = Ok payload /\
    Manifest.validate m = Ok tt /\ Manifest.revision m = rt_revision (sys_frontier y) /\
    rt_revision (sys_frontier y) <> 0 /\
    Manifest.quadrants m = map to_fqc (sort_coords (revealed_quadrants (rt_state (sys_frontier y)))) /\
    forall c, c ∈ Manifest.quadrants m -> lattice_ok c.
Proof.
  intros [[[Hwf _] Hm] _ Hl _]. cbn in Hwf. unfold manifest in *.
  destruct (build_manifest _ _ _) as [m|] eqn:E; [|done].
  pose proof (manifest_settings _ _ _ _ E) as (Hne & Hg & Hs). pose proof E as E'.
  rewrite manifest_exists in E' by done. injection E' as E'.
  assert (Manifest.validate m = Ok tt) as V.
  { unfold build_manifest in E. rewrite map_err_Ok in E. unfold Manifest.manifest_new in E.
    by apply bind_Ok in E as ([] & V & [= <-]). }
  assert (exists payload, Manifest.encode m = Ok payload) as [payload Hp].
  { destruct (Manifest.encode m) as [payload|e] eqn:Ee; [by exists payload|].
    by rewrite (Manifest.encode_valid m V) in Ee. }
  exists m, payload. do 3 (split; [done|]). subst m. cbn [Manifest.revision Manifest.quadrants] in *.
  split; [done|]. split; [|split; [done|]].
  - unfold Manifest.validate in V. cbn in V. repeat case_decide; done.
  - intros c (d & -> & Hd)%list_elem_of_fmap. apply Hl. by rewrite elem_of_sort_coords in Hd.
Qed.

Lemma system_steps scheduler gate y y' : system_ok scheduler gate y ->
  rtc runtime_step (sys_frontier y) (sys_frontier y') ->
  (scheduler = true -> sys_inv blake3_hash blake3_keyed cfg y') ->
  (forall c, c ∈ revealed_quadrants (rt_state (sys_frontier y')) -> lattice_ok (to_fqc c)) ->
  system_ok scheduler gate y'.
Proof.
  intros [Hr Hs Hl Hg] Hsteps Hs' Hl'. destruct (runtime_steps_ok _ _ Hr Hsteps) as (Hr' & (Hmono & _) & _).
  split; [done..|]. intros g E. destruct (Hg g E) as (H1 & H2 & H3). split_goals; [done|done|].
  etransitivity; [exact H3|]. apply Hmono.
Qed.

Lemma system_evaluate gate y now : scheduler_ok -> system_ok true gate y ->
  exists y' report, evaluate blake3_keyed cfg y now = (y', Ok report) /\ system_ok true gate y' /\
    same_public (sys_frontier y) (sys_frontier y').
Proof.
  intros (Hset & _ & Hseed & _ & _ & Hgen & _) Hy.
  destruct (evaluate_ok blake3_hash blake3_keyed cfg y now Hset Hseed ltac:(lia) (sy_scheduler _ _ _ Hy eq_refl))
    as (y' & report & E & Hs' & Hpub & _).
  exists y', report. split; [done|]. split; [|done]. eapply system_steps; [done|by eapply evaluate_steps|done|].
  destruct Hpub as [_ ->]. apply Hy.
Qed.

(** The worker and its queues work while the runtime waits for events. *)
Lemma system_worker scheduler gate y w store : system_ok scheduler gate y ->
  worker_step blake3_hash blake3_keyed cfg (sys_worker y, sys_retained y) (w, store) ->
  system_ok scheduler gate (with_retained (with_worker y w) store).
Proof.
  intros Hy H. eapply system_steps; [done|done| |apply Hy]. intros E. apply sys_worker_step_inv; [by apply Hy|done].
Qed.

Lemma system_gate scheduler g g' y : system_ok scheduler (Some g) y ->
  gate_requirements g' = gate_requirements g -> gate_requirement g' = gate_requirement g ->
  system_ok scheduler (Some g') y.
Proof.
  intros [Hr Hs Hl Hg] E1 E2. split; [done..|]. intros g0 [= <-]. destruct (Hg g eq_refl) as (H1 & H2 & H3).
  unfold gate_ok, gate_coord in *. by rewrite E1, E2.
Qed.

(** Around quadrants of the lattice no coordinate overflows. *)
Lemma staged_derives s c s1 o : frontier_wf s -> state s c = Prepared -> reveal s c = (s1, Ok o) -> lattice_ok (to_fqc c) ->
  (forall d, d ∈ revealed_quadrants s -> lattice_ok (to_fqc d)) -> is_ok (derive_candidate_frontier s1).2 = true.
Proof.
  intros Hwf Hst H Hc Hl. pose proof (transition_wf s c Revealed Hwf) as Hwf1. unfold reveal in H. rewrite H in Hwf1.
  apply derive_total; [done|]. intros x d Hx Hd. assert (lattice_ok (to_fqc x)) as Hxl.
  { apply transition_cases in H as [(_ & _ & ?)|[(_ & e & ?)|(_ & n & _ & _ & ->)]]; [congruence|done|].
    rewrite decide_True in Hx by done. cbn in Hx. rewrite elem_of_app, list_elem_of_singleton in Hx. destruct Hx as [?| ->]; auto. }
  unfold lattice_ok, to_fqc, coord_ok, in_i in *. cbn in Hxl |- *.
  assert (-1 <= d.1 <= 1 /\ -1 <= d.2 <= 1); [|lia].
  unfold CARDINAL_NEIGHBORS in Hd. repeat (apply elem_of_cons in Hd as [->|Hd]; [cbn; lia|]). by apply not_elem_of_nil in Hd.
Qed.

(** The gate's requirement is satisfied: its quadrant is revealed, unless it is
    already or the frontier is used up. *)
Lemma system_commit scheduler g y f o : system_ok scheduler (Some g) y ->
  commit_reveal (sys_frontier y) (gate_requirements g) (gate_resolver g true) = (f, o) ->
  system_ok scheduler (Some g) (with_runtime y f) /\
  match o with
  | Ok (RevealCommitted t _) => rt_revision f = tr_revision t /\ rt_revision f = rt_revision (sys_frontier y) + 1
  | Ok (AlreadyRevealed _ _) => f = sys_frontier y
  | Ok (Blocked _) => False
  | Err e => f = sys_frontier y /\ frontier_used_up (rt_state (sys_frontier y)) e
  end.
Proof.
  intros Hy H. pose proof (rt_commit _ _ _ _ _ H) as Hstep. destruct (sy_gate _ _ _ Hy g eq_refl) as (Hg & Hlat & Hrank).
  pose proof (sy_runtime _ _ _ Hy) as [[Hwf _] _]. cbn in Hwf. pose proof H as Hc.
  unfold commit_reveal in Hc. destruct (commit_authoritative_reveal _ _ _) as [f' o'] eqn:E. injection Hc as Hf Ho.
  assert (evaluate_frontier_eligibility (gate_requirements g) (gate_resolver g true) =
    Ok {| ev_coord := gate_coord g; ev_unsatisfied := [] |}) as Hev.
  { unfold evaluate_frontier_eligibility. fold (gate_coord g). rewrite Hg. cbn [unsatisfied req_list].
    unfold gate_resolver. by rewrite decide_True. }
  assert ((exists t l, o' = Ok (RevealCommitted t l) /\ revision f' = tr_revision t /\
             revision f' = revision (rt_state (sys_frontier y)) + 1 /\
             revealed_quadrants f' = revealed_quadrants (rt_state (sys_frontier y)) ++ [gate_coord g]) \/
          f' = rt_state (sys_frontier y) /\
          match o' with
          | Ok (AlreadyRevealed _ _) => True
          | Ok _ => False
          | Err e => frontier_used_up (rt_state (sys_frontier y)) (RuntimeReveal e)
          end) as Hcases.
  { pose proof E as E0. unfold commit_authoritative_reveal in E0. fold (gate_coord g) in E0.
    destruct (state (rt_state (sys_frontier y)) (gate_coord g)) eqn:Est; cbn in Hrank; try lia.
    2: { injection E0 as <- <-. by right. }
    rewrite Hev in E0. cbn [is_eligible ev_unsatisfied] in E0. 
    destruct (stage_reveal _ _) as [[[s2 t] l]|e] eqn:Es; cbn in E0; injection E0 as <- <-; [left|right].
    - apply stage_reveal_Ok in Es as (s1 & Ht & _ & Hd); [|done..]. exists t, l. split; [done|].
      apply transition_cases in Ht as [(_ & ? & _)|[(_ & e & ?)|(_ & n & Hn & [= ->] & ->)]]; [done|done|].
      rewrite decide_True in Hd by done. cbn [tr_revision].
      assert (frontier_wf (mk_frontier n (revealed_quadrants (rt_state (sys_frontier y)) ++ [gate_coord g])
        ({[ gate_coord g ]} ∪ revealed_lookup (rt_state (sys_frontier y)))
        (delete (gate_coord g) (lifecycle_states (rt_state (sys_frontier y)))))) as Hwf1.
      { pose proof (transition_wf (rt_state (sys_frontier y)) (gate_coord g) Revealed Hwf) as Hw.
        unfold transition in Hw. rewrite Est in Hw. cbn in Hw. by rewrite Hn in Hw. }
      apply derive_cases in Hd as [(_ & e & ?)|(l2 & _ & _ & _ & _ & Hrv & Hrq & _)]; [done| |done].
      rewrite Hrv, Hrq. cbn. apply next_revision_Ok in Hn as [[? _]|(_ & -> & _)]; done.
    - split; [done|]. unfold stage_reveal in Es. destruct (reveal _ _) as [s1 [rv|e1]] eqn:Er; cbn in Es.
      2: { injection Es as <-. by apply (reveal_no_room _ _ _ _ Hwf Est Er). }
      exfalso. destruct rv as [t|]; 
        [|by apply transition_cases in Er as [(_ & _ & ?)|[(_ & ? & ?)|(_ & ? & _ & ? & _)]]; congruence].
      cbn in Es. pose proof (staged_derives _ _ _ _ Hwf Est Er Hlat (sy_lattice _ _ _ Hy)) as Hd.
      by destruct (derive_candidate_frontier s1) as [s3 [l|e3]]. }
  assert (sys_frontier (with_runtime y f) = f) as Ef by done.
  split.
  - eapply system_steps; [done|by rewrite Ef; apply rtc_once| |].
    + intros Hsch. eapply commit_sys_inv; [by apply Hy|exact H].
    + rewrite Ef, <- Hf. cbn [rt_state with_frontier]. intros c. destruct Hcases as [(t & l & _ & _ & _ & ->)|[-> _]].
      * rewrite elem_of_app, list_elem_of_singleton. intros [Hc| ->]; [by apply (sy_lattice _ _ _ Hy)|done].
      * apply Hy.
  - rewrite <- Ho, <- Hf. destruct Hcases as [(t & l & -> & Hr1 & Hr2 & _)|[-> Ho']]; [done|].
    assert (with_frontier (sys_frontier y) (rt_state (sys_frontier y)) (rt_preparations (sys_frontier y)) =
      sys_frontier y) as -> by (by destruct (sys_frontier y)).
    destruct o' as [[]|e]; cbn [map_err]; [done..|]. by split.
Qed.

(** The contracts of a revealed quadrant exist and encode. *)
Lemma system_contracts gate y (retained : list (Identity * TerrainAuthorityArtifactV1)) c :
  scheduler_ok -> system_ok true gate y -> retained ≡ₚ map_to_list (sys_retained y) -> lattice_ok c ->
  exists t p w e,
    presentation_contracts_for_revealed blake3_hash blake3_keyed cfg retained c = Ok (t, p) /\
    presentation_contracts_with_water_for_revealed blake3_hash blake3_keyed cfg retained c = Ok (t, p, w) /\
    terrain_encode_wire t = Ok (terrain_payload e) /\ environment_encode_wire p = Ok (environment_payload e) /\
    water_encode_wire w = Ok (water_payload e) /\
    quadrant_coord t = c /\ policy_quadrant_coord p = c /\ water_quadrant_coord w = c.
Proof.
  intros (_ & _ & _ & Hhash & Hcfg) Hy Hperm Hc.
  pose proof (terrain_told blake3_hash blake3_keyed cfg y retained c (sy_scheduler _ _ _ Hy eq_refl) Hperm Hcfg Hc) as Ht.
  pose proof (pool_told_bytes blake3_keyed cfg y c Hcfg) as Hpool. unfold told_terrain in Ht.
  set (pool := match sys_retained y !! _ with Some _ => _ | None => _ end) in *.
  destruct (serialized_told blake3_hash blake3_keyed cfg Hhash Hcfg pool c Hc Hpool) as (e & He & _).
  pose proof (contracts_told blake3_hash blake3_keyed cfg Hhash Hcfg retained pool c Hc Ht) as Hw.
  do 3 eexists. exists e. split; [|split; [exact Hw|]].
  - unfold presentation_contracts_with_water_for_revealed in Hw. apply bind_Ok in Hw as ([t p] & Htp & Hw).
    apply bind_Ok in Hw as (w & _ & Hw). repeat (case_decide; [done|]). rewrite Htp. by injection Hw as -> -> _.
  - unfold serialize in He. apply bind_Ok in He as (b1 & H1%map_err_Ok & He).
    apply bind_Ok in He as (b2 & H2%map_err_Ok & He). apply bind_Ok in He as (b3 & H3%map_err_Ok & [= <-]).
    by cbn.
Qed.
End System.
