(* ===== verification/Server.v ===== *)
(** The session runtime of the world server ([apps/world-server/src/session_runtime.rs]):
    the single task that owns the sessions, the frontier and the routes between them,
    and reacts to the events of the transport, to the movement snapshots of the zones
    and to its tickers.  A handler runs to its end before the next event; what the
    outside answers while it runs is a function of everything it has done so far. *)

From S2P Require Import Prelude Bytes Core Contracts Snapshots Wire Presentation Frontier Preparation Runtime.
From S2P Require Import Scheduler PublicContracts Delivery Session Sync Transport Bags Movement Zone Egress Router.
Import World Bootstrap Equipment.

Definition ENVIRONMENT_PRESENTATION_POLICY_MIN_PROTOCOL_MINOR : Z := 1.
Definition WATER_SURFACE_PRESENTATION_MIN_PROTOCOL_MINOR : Z := 2.

(** ** Settings *)

Record SessionRuntimeSettings := {
  set_authorized_capacity : Z;
  set_zone_id : Z;
  set_auto_admit : bool;
  set_reveal : option DevelopmentFrontierRevealConfig;
  set_spawn_position : WorldPositionMm;
  set_delivery_policy : FrontierDeliveryPolicy
}.

Definition runtime_settings_new (capacity zone_id : Z) (auto_admit : bool)
  (reveal : option DevelopmentFrontierRevealConfig) : SessionRuntimeSettings := {|
  set_authorized_capacity := capacity; set_zone_id := zone_id; set_auto_admit := auto_admit; set_reveal := reveal;
  set_spawn_position := mk_pos 0 0 0; set_delivery_policy := delivery_default
|}.

Definition with_development_spawn_position (s : SessionRuntimeSettings) (position : WorldPositionMm)
  : SessionRuntimeSettings := {|
  set_authorized_capacity := set_authorized_capacity s; set_zone_id := set_zone_id s;
  set_auto_admit := set_auto_admit s; set_reveal := set_reveal s; set_spawn_position := position;
  set_delivery_policy := set_delivery_policy s
|}.

Definition with_frontier_delivery (s : SessionRuntimeSettings) (retry timeout retries : Z)
  : result FrontierDeliveryPolicyError SessionRuntimeSettings :=
  policy ← delivery_policy_new retry timeout retries;
  Ok {| set_authorized_capacity := set_authorized_capacity s; set_zone_id := set_zone_id s;
        set_auto_admit := set_auto_admit s; set_reveal := set_reveal s;
        set_spawn_position := set_spawn_position s; set_delivery_policy := policy |}.

(** ** Events *)

Inductive TransportSessionEvent :=
| SessionAdmitted (connection_id session_id : Z) (realtime : RealtimeConnectionSender) (reliable : ReliableConnectionSender)
| MoveIntentReceived (connection_id : Z) (intent : Intents.MoveIntent)
| MineIntentReceived (connection_id : Z) (intent : Intents.MineIntent)
| FrontierManifestAckReceived (connection_id ack_revision : Z)
| Disconnected (connection_id session_id : Z).

(** What the outside answers to one event besides the effects: the clock, the
    persisted character, the inventories the zones send back, and the orders in
    which the hash maps are walked. *)
Record Answers := {
  ans_now : Z;
  ans_inventory : result unit (option (CharacterInventoryState * Z));
  ans_position : result unit (option WorldPositionMm);
  ans_reply : Z -> option (CharacterInventoryState * Z);
  ans_retained : list (Identity * Terrain.TerrainAuthorityArtifactV1);
  ans_connections : list Z
}.

(** ** State *)

Inductive ServerError :=
| RevealNeedsDevelopment
| GateFailed (e : GateError)
| IngressConfig (e : IntentIngressConfigError)
| CapabilitiesMismatch (connection_id : Z)
| DuplicateReliable (connection_id : Z)
| RealtimeRegistration (e : BridgeError)
| SessionRegistration (e : SessionRegistryError)
| DuplicateSessionMapping (session_id : Z)
| SyncRegistration (e : FrontierSyncError)
| DevelopmentAuthentication (e : SessionRegistryError)
| DevelopmentBinding (e : SessionRegistryError)
| DevelopmentSnapshotBinding (e : BridgeError)
| BindingLookup (e : SessionRegistryError)
| NoWorldBinding
| SpawnFailed (e : RouterError)
| SpawnRollback (e : RouterError)
| WorldActivation (e : SessionRegistryError)
| AuthorizedQueueClosed
| SessionClosing (e : SessionRegistryError)
| DespawnFailed (e : RouterError)
| SessionRemoval (e : SessionRegistryError)
| RemovedOtherSession (removed expected : Z)
| SchedulerFailed (e : SchedulerError)
| FrontierFailed (e : RuntimeError)
| ManifestEncoding (e : Manifest.FrontierManifestCodecError)
| PendingFrontier (e : FrontierSyncError)
| DeliveryBeforeSync (connection_id : Z)
| DeliveryRevisionMismatch (connection_id acknowledged authoritative : Z)
| ContractsFailed (e : PublicContractsError)
| TerrainEncoding (e : Presentation.Terrain.TerrainAuthorityContractError)
| PolicyEncoding (e : Presentation.Environment.EnvironmentPresentationWireCodecError)
| WaterEncoding (e : Presentation.Water.WaterSurfacePresentationWireCodecError)
| RoutingFailed (e : RouterError)
| SnapshotFailed (e : BridgeError).

Section Server.
Context {Q : Type} `{!MpscSender Q AuthorizedIntent}.
Context (blake3_hash : list Z -> list Z) (blake3_keyed : list Z -> list Z -> list Z) (cfg : SchedulerConfig).
Context (env : Environment).

(** The fields that do not change while the runtime runs. *)
Record Fixed := {
  has_scheduler : bool;
  world_router : WorldRouter;
  bootstrap_frontier_revision : Z;
  development_auto_admit : bool;
  development_spawn_position : WorldPositionMm;
  zone_id : Z;
  delivery_policy : FrontierDeliveryPolicy;
  postgres_client : bool;
  position_buffer : bool
}.

(** [sys] holds the frontier runtime and the preparation scheduler. *)
Record SessionRuntime := mk_runtime {
  ingress : SessionIntentIngress (Q := Q);
  snapshot_bridge : SelfSnapshotBridge;
  reliable_by_connection : gmap Z ReliableConnectionSender;
  connection_by_session : gmap Z Z;
  frontier_sync : FrontierSyncRegistry;
  frontier_delivery : FrontierDeliveries;
  sys : Sys;
  reveal_gate : option DevelopmentFrontierRevealGate;
  outside : Outside;
  fixed : Fixed
}.

Definition set_ingress (s : SessionRuntime) x : SessionRuntime :=
  mk_runtime x (snapshot_bridge s) (reliable_by_connection s) (connection_by_session s) (frontier_sync s)
    (frontier_delivery s) (sys s) (reveal_gate s) (outside s) (fixed s).
Definition set_bridge (s : SessionRuntime) x : SessionRuntime :=
  mk_runtime (ingress s) x (reliable_by_connection s) (connection_by_session s) (frontier_sync s)
    (frontier_delivery s) (sys s) (reveal_gate s) (outside s) (fixed s).
Definition set_reliable (s : SessionRuntime) x : SessionRuntime :=
  mk_runtime (ingress s) (snapshot_bridge s) x (connection_by_session s) (frontier_sync s)
    (frontier_delivery s) (sys s) (reveal_gate s) (outside s) (fixed s).
Definition set_sessions (s : SessionRuntime) x : SessionRuntime :=
  mk_runtime (ingress s) (snapshot_bridge s) (reliable_by_connection s) x (frontier_sync s)
    (frontier_delivery s) (sys s) (reveal_gate s) (outside s) (fixed s).
Definition set_sync (s : SessionRuntime) x : SessionRuntime :=
  mk_runtime (ingress s) (snapshot_bridge s) (reliable_by_connection s) (connection_by_session s) x
    (frontier_delivery s) (sys s) (reveal_gate s) (outside s) (fixed s).
Definition set_delivery (s : SessionRuntime) x : SessionRuntime :=
  mk_runtime (ingress s) (snapshot_bridge s) (reliable_by_connection s) (connection_by_session s) (frontier_sync s)
    x (sys s) (reveal_gate s) (outside s) (fixed s).
Definition set_sys (s : SessionRuntime) x : SessionRuntime :=
  mk_runtime (ingress s) (snapshot_bridge s) (reliable_by_connection s) (connection_by_session s) (frontier_sync s)
    (frontier_delivery s) x (reveal_gate s) (outside s) (fixed s).
Definition set_gate (s : SessionRuntime) x : SessionRuntime :=
  mk_runtime (ingress s) (snapshot_bridge s) (reliable_by_connection s) (connection_by_session s) (frontier_sync s)
    (frontier_delivery s) (sys s) x (outside s) (fixed s).
Definition set_outside (s : SessionRuntime) x : SessionRuntime :=
  mk_runtime (ingress s) (snapshot_bridge s) (reliable_by_connection s) (connection_by_session s) (frontier_sync s)
    (frontier_delivery s) (sys s) (reveal_gate s) x (fixed s).

(** ** Handlers as state transformers

    A handler keeps the changes it made before an error, as the methods on
    [&mut self] do. *)

Definition M (A : Type) : Type := SessionRuntime -> SessionRuntime * result ServerError A.

#[local] Instance M_ret : MRet M := fun _ a s => (s, Ok a).
#[local] Instance M_bind : MBind M := fun _ _ f m s =>
  match m s with (s', Ok a) => f a s' | (s', Err e) => (s', Err e) end.

Definition get : M SessionRuntime := fun s => (s, Ok s).
Definition modify (f : SessionRuntime -> SessionRuntime) : M unit := fun s => (f s, Ok tt).
Definition bail {A} (e : ServerError) : M A := fun s => (s, Err e).
Definition lift {E A} (context : E -> ServerError) (r : result E A) : M A := fun s => (s, map_err context r).

(** [if let Err(error) = m { rollback; return Err(error) }], where the rollback may
    itself fail. *)
Definition or_rollback (m : M unit) (rollback : M unit) : M unit := fun s =>
  match m s with
  | (s', Ok a) => (s', Ok a)
  | (s', Err e) => match rollback s' with (s'', Ok _) => (s'', Err e) | (s'', Err e') => (s'', Err e') end
  end.

(** The methods of the parts, on the state. *)
Definition on_registry {A} (context : SessionRegistryError -> ServerError)
  (f : LiveSessionRegistry -> LiveSessionRegistry * result SessionRegistryError A) : M A := fun s =>
  let '(r, o) := f (ing_registry (ingress s)) in
  (set_ingress s (mk_ingress r (authorized_tx (ingress s))), map_err context o).

Definition on_bridge {A} (f : SelfSnapshotBridge -> SelfSnapshotBridge * result BridgeError A)
  (context : BridgeError -> ServerError) : M A := fun s =>
  let '(b, o) := f (snapshot_bridge s) in (set_bridge s b, map_err context o).

Definition on_outside {E A} (f : Outside -> Outside * result E A) (context : E -> ServerError) : M A := fun s =>
  let '(x, o) := f (outside s) in (set_outside s x, map_err context o).

(** The same for calls whose failure the handler looks at. *)
Definition try_outside {E A} (f : Outside -> Outside * result E A) : M (result E A) := fun s =>
  let '(x, o) := f (outside s) in (set_outside s x, Ok o).

Definition remove_session_mapping (sid : Z) : M unit := modify (fun s => set_sessions s (delete sid (connection_by_session s))).
Definition remove_realtime (cid : Z) : M unit := modify (fun s => set_bridge s (remove_connection (snapshot_bridge s) cid)).
Definition remove_reliable (cid : Z) : M unit :=
  modify (fun s => set_reliable s (delete cid (reliable_by_connection s))).
Definition remove_sync (cid : Z) : M unit := modify (fun s => set_sync s (sync_remove (frontier_sync s) cid).2).
Definition remove_delivery (cid : Z) : M unit :=
  modify (fun s => set_delivery s (delivery_remove (frontier_delivery s) cid)).
(** [let _ = self.ingress.remove_by_connection(connection_id)]. *)
Definition discard_session (cid : Z) : M unit :=
  modify (fun s => set_ingress s (mk_ingress (remove_by_connection (ing_registry (ingress s)) cid).1 (authorized_tx (ingress s)))).
Definition close_capability (sender : ReliableConnectionSender) : M unit :=
  modify (fun s => set_outside s (fail_close (outside s) sender)).
Definition track_delivery (cid revision now : Z) : M unit :=
  modify (fun s => set_delivery s (track (delivery_policy (fixed s)) (frontier_delivery s) cid revision now)).

Definition current_revision (s : SessionRuntime) : Z := rt_revision (sys_frontier (sys s)).

Definition world_binding_of (context : SessionRegistryError -> ServerError) (cid : Z) : M (option WorldBinding) :=
  s ← get; lift context (world_binding_for_connection (ing_registry (ingress s)) cid).

(** [SessionRuntime::new] and its [with_] methods. *)
Definition session_runtime_new (channel : Z -> Q) (settings : SessionRuntimeSettings) (router : WorldRouter)
  (frontier_runtime : FrontierRuntime) (scheduler postgres buffer : bool) : result ServerError SessionRuntime :=
  if bool_decide (is_Some (set_reveal settings)) && negb (set_auto_admit settings) then Err RevealNeedsDevelopment
  else
    let bootstrap := rt_revision frontier_runtime in
    '(frontier_runtime, gate) ←
      match set_reveal settings with
      | None => Ok (frontier_runtime, None)
      | Some config =>
          match gate_new frontier_runtime config with
          | (r, Ok g) => Ok (r, Some g)
          | (_, Err e) => Err (GateFailed e)
          end
      end;
    ing ← map_err IngressConfig (ingress_bounded channel (set_authorized_capacity settings));
    Ok (mk_runtime ing empty_bridge ∅ ∅ ∅ ∅
          {| sys_frontier := frontier_runtime; sys_retries := ∅; sys_worker := worker_init; sys_retained := ∅ |}
          gate (mk_outside ∅ [])
          {| has_scheduler := scheduler; world_router := router; bootstrap_frontier_revision := bootstrap;
             development_auto_admit := set_auto_admit settings;
             development_spawn_position := set_spawn_position settings; zone_id := set_zone_id settings;
             delivery_policy := set_delivery_policy settings; postgres_client := postgres; position_buffer := buffer |}).

(** ** The manifest *)

(** [self.frontier_runtime.manifest()?] and its encoding. *)
Definition current_manifest : M Manifest.FrontierManifest :=
  s ← get; lift FrontierFailed (manifest (sys_frontier (sys s))).

Definition encoded_manifest : M (Manifest.FrontierManifest * list Z) :=
  m ← current_manifest;
  payload ← lift ManifestEncoding (Manifest.encode m);
  mret (m, payload).

(** A failed send is only logged. *)
Definition sync_current_frontier_to_connection (cid : Z) : M unit :=
  s ← get;
  match reliable_by_connection s !! cid with
  | None => mret tt
  | Some sender =>
      '(_, payload) ← encoded_manifest;
      _ ← try_outside (fun o => reliable_send env o sender KFrontierManifest payload);
      mret tt
  end.

(** The tasks of the join set, in the order of their sends. *)
Fixpoint broadcast_frontier_manifest (connections : list Z) (payload : list Z) : M (Z * Z) :=
  match connections with
  | [] => mret (0, 0)
  | cid :: rest =>
      s ← get;
      match reliable_by_connection s !! cid with
      | None => broadcast_frontier_manifest rest payload
      | Some sender =>
          o ← try_outside (fun o => reliable_send env o sender KFrontierManifest payload);
          '(sent, failed) ← broadcast_frontier_manifest rest payload;
          mret (if is_ok o then (sent + 1, failed) else (sent, failed + 1))
      end
  end.

(** ** Admission *)

Definition persisted_inventory (postgres : bool) (a : Answers) : CharacterInventoryState * Z :=
  if postgres then
    match ans_inventory a with
    | Ok (Some loaded) => loaded
    | Ok None | Err _ => (inventory_new 10 6, 0)
    end
  else (inventory_new 10 6, 0).

Definition persisted_position (postgres : bool) (default_position : WorldPositionMm) (a : Answers) : WorldPositionMm :=
  if postgres then
    match ans_position a with
    | Ok (Some saved) => saved
    | Ok None | Err _ => default_position
    end
  else default_position.

Definition register_admitted (cid sid : Z) (realtime : RealtimeConnectionSender)
  (reliable : ReliableConnectionSender) (now : Z) : M unit :=
  _ ← (if decide (realtime_connection_id realtime <> cid \/ reliable_connection_id reliable <> cid)
       then bail (CapabilitiesMismatch cid) else mret tt);
  s ← get;
  _ ← match reliable_by_connection s !! cid with
      | None => modify (fun s => set_reliable s (<[cid := reliable]> (reliable_by_connection s)))
      | Some _ => bail (DuplicateReliable cid)
      end;
  _ ← or_rollback (on_bridge (fun b => register_connection b realtime) RealtimeRegistration) (remove_reliable cid);
  _ ← or_rollback (on_registry SessionRegistration (fun r => register r sid cid))
        (_ ← remove_realtime cid; remove_reliable cid);
  s ← get;
  _ ← match connection_by_session s !! sid with
      | None => modify (fun s => set_sessions s (<[sid := cid]> (connection_by_session s)))
      | Some _ =>
          _ ← remove_realtime cid; _ ← remove_reliable cid; _ ← discard_session cid;
          bail (DuplicateSessionMapping sid)
      end;
  s ← get;
  _ ← or_rollback
        (fun s => let '(o, y) := register_pending (frontier_sync s) cid (current_revision s) in
                  (set_sync s y, map_err SyncRegistration o))
        (_ ← remove_session_mapping sid; _ ← remove_realtime cid; _ ← remove_reliable cid; discard_session cid);
  track_delivery cid (current_revision s) now.

(** The branch of the development environment: a fixed account and character. *)
Definition auto_admit (cid sid : Z) (a : Answers) : M unit :=
  s ← get;
  let f := fixed s in
  _ ← on_registry DevelopmentAuthentication (fun r => reg_authenticate r cid 1);
  _ ← on_registry DevelopmentBinding (fun r => reg_bind_character r cid 1 (zone_id f));
  _ ← on_bridge (fun b => bridge_bind_character b 1 cid) DevelopmentSnapshotBinding;
  bound ← world_binding_of BindingLookup cid;
  match bound with
  | None => bail NoWorldBinding
  | Some binding =>
      let '(inventory, revision) := persisted_inventory (postgres_client f) a in
      let position := persisted_position (postgres_client f) (development_spawn_position f) a in
      _ ← on_outside (fun o => spawn_character env (world_router f) o (wb_zone_id binding) (wb_character_id binding)
                                 position inventory revision) SpawnFailed;
      _ ← or_rollback (on_registry WorldActivation (fun r => reg_activate_world r cid))
            (_ ← on_outside (fun o => despawn_character env (world_router f) o (wb_zone_id binding)
                                        (wb_character_id binding) None) SpawnRollback;
             _ ← remove_sync cid; _ ← remove_session_mapping sid; _ ← remove_realtime cid; remove_reliable cid);
      modify (fun s => set_gate s (option_map (fun g => (arm g (ans_now a)).1) (reveal_gate s)))
  end.

Definition handle_admitted (cid sid : Z) (realtime : RealtimeConnectionSender) (reliable : ReliableConnectionSender)
  (a : Answers) : M unit :=
  _ ← register_admitted cid sid realtime reliable (ans_now a);
  s ← get;
  _ ← (if development_auto_admit (fixed s) then auto_admit cid sid a else mret tt);
  s ← get;
  if decide (bootstrap_frontier_revision (fixed s) < current_revision s)
  then sync_current_frontier_to_connection cid else mret tt.

(** ** Gameplay *)

Definition handle_move_intent (cid : Z) (intent : Intents.MoveIntent) : M unit :=
  s ← get;
  if negb (is_synced (frontier_sync s) cid) then mret tt
  else
    let '(ing, o) := try_ingest_move (ingress s) cid (Intents.mv_sequence intent) (Intents.mv_axis_x intent)
                       (Intents.mv_axis_y intent) in
    _ ← modify (fun s => set_ingress s ing);
    match o with
    | Ok _ | Err QueueFull | Err (IngressSequence _) => mret tt
    | Err QueueClosed => bail AuthorizedQueueClosed
    end.

(** Neither the lookup's error nor the router's is reported. *)
Definition handle_mine_intent (cid : Z) (intent : Intents.MineIntent) : M unit :=
  s ← get;
  if negb (is_synced (frontier_sync s) cid) then mret tt
  else
    match world_binding_for_connection (ing_registry (ingress s)) cid with
    | Ok (Some binding) =>
        _ ← try_outside (fun o => send_zone_command env (world_router (fixed s)) o (wb_zone_id binding)
                                    (ZoneMineIntent (wb_character_id binding) 1));
        mret tt
    | _ => mret tt
    end.

Definition route_authorized_intent (intent : AuthorizedIntent) : M unit :=
  s ← get;
  if negb (is_world_active_session (ing_registry (ingress s)) (ai_session_id intent)) then mret tt
  else
    match connection_by_session s !! ai_session_id intent with
    | None => mret tt
    | Some cid =>
        if negb (is_synced (frontier_sync s) cid) then mret tt
        else
          _ ← on_outside (fun o => route_authorized env (world_router (fixed s)) o intent) RoutingFailed;
          mret tt
    end.

(** [checked_div] of [i64], with [unwrap_or(0)]. *)
Definition quadrant_or_zero (v q_size : Z) : Z :=
  default 0 (if decide (q_size = 0) then None else checked_i 64 (Z.quot v q_size)).

Definition position_update (snapshot : MovementSnapshot) : CharacterPositionUpdate :=
  let pos := snapshot_position snapshot in
  {| update_character_id := wrap_i 64 (snapshot_character_id snapshot);
     update_x_mm := px pos; update_y_mm := py pos; update_z_mm := pz pos;
     Egress.quadrant_x := quadrant_or_zero (px pos) 512000; Egress.quadrant_y := quadrant_or_zero (py pos) 512000 |}.

Definition route_movement_snapshot (snapshot : MovementSnapshot) : M unit :=
  s ← get;
  _ ← (if position_buffer (fixed s)
       then modify (fun s => set_outside s (emit (outside s) (PositionTracked (position_update snapshot))))
       else mret tt);
  match connection_id_for_character (snapshot_bridge s) (snapshot_character_id snapshot) with
  | Some cid =>
      if negb (is_synced (frontier_sync s) cid) then mret tt
      else _ ← on_outside (fun o => bridge_route env o (snapshot_bridge s) snapshot) SnapshotFailed; mret tt
  | None => _ ← on_outside (fun o => bridge_route env o (snapshot_bridge s) snapshot) SnapshotFailed; mret tt
  end.

(** ** Saved inventories *)

(** A fresh one-shot channel for the zone's answer. *)
Definition new_responder (s : SessionRuntime) : Z := Z.of_nat (length (effects (outside s))).

Definition save_reply (character_id responder : Z) (a : Answers) : M unit :=
  match ans_reply a responder with
  | Some (inventory, revision) =>
      modify (fun s => set_outside s (emit (outside s) (InventorySaved character_id inventory revision)))
  | None => mret tt
  end.

Fixpoint auto_save_loop (connections : list Z) (a : Answers) : M unit :=
  match connections with
  | [] => mret tt
  | cid :: rest =>
      s ← get;
      _ ← match world_binding_for_connection (ing_registry (ingress s)) cid with
          | Ok (Some binding) =>
              let responder := new_responder s in
              o ← try_outside (fun o => snapshot_inventory env (world_router (fixed s)) o (wb_zone_id binding)
                                          (wb_character_id binding) responder);
              if is_ok o then save_reply (wb_character_id binding) responder a else mret tt
          | _ => mret tt
          end;
      auto_save_loop rest a
  end.

(** [ans_connections] are the values of [connection_by_session]. *)
Definition auto_save_active_inventories (a : Answers) : M unit :=
  s ← get; if postgres_client (fixed s) then auto_save_loop (ans_connections a) a else mret tt.

(** ** Presentation contracts *)

Definition isolate_connection_after_reliable_delivery_failure (cid : Z) : M unit :=
  bound ← world_binding_of BindingLookup cid;
  _ ← on_registry SessionClosing (fun r => reg_begin_closing r cid);
  _ ← remove_sync cid;
  _ ← remove_delivery cid;
  _ ← remove_realtime cid;
  _ ← remove_reliable cid;
  s ← get;
  match bound with
  | None => mret tt
  | Some binding =>
      on_outside (fun o => despawn_character env (world_router (fixed s)) o (wb_zone_id binding)
                             (wb_character_id binding) None) DespawnFailed
  end.

(** After a failed delivery: nothing more is sent. *)
Definition isolate (cid : Z) (sender : ReliableConnectionSender) : M bool :=
  _ ← close_capability sender; _ ← isolate_connection_after_reliable_delivery_failure cid; mret false.

(** The body of the loop over the quadrants; [false] ends it. *)
Definition send_quadrant (cid : Z) (sender : ReliableConnectionSender) (a : Answers) (coord : Coord) : M bool :=
  '(terrain, policy, water_surface) ←
    (if supports_protocol_minor sender WATER_SURFACE_PRESENTATION_MIN_PROTOCOL_MINOR then
       '(t, p, w) ← lift ContractsFailed
         (presentation_contracts_with_water_for_revealed blake3_hash blake3_keyed cfg (ans_retained a) coord);
       mret (t, p, Some w)
     else
       '(t, p) ← lift ContractsFailed
         (presentation_contracts_for_revealed blake3_hash blake3_keyed cfg (ans_retained a) coord);
       mret (t, p, None));
  terrain_payload ← lift TerrainEncoding (Presentation.Terrain.terrain_encode_wire terrain);
  sent ← try_outside (fun o => reliable_send env o sender KTerrainAuthority terrain_payload);
  match sent with
  | Err _ => isolate cid sender
  | Ok _ =>
      policy_payload ← lift PolicyEncoding (Presentation.Environment.environment_encode_wire policy);
      sent ← try_outside (fun o => send_if_supported env o sender ENVIRONMENT_PRESENTATION_POLICY_MIN_PROTOCOL_MINOR
                                     KEnvironmentPresentationPolicy policy_payload);
      match sent with
      | Err _ => isolate cid sender
      | Ok _ =>
          match water_surface with
          | None => mret true
          | Some water_surface =>
              water_payload ← lift WaterEncoding (Presentation.Water.water_encode_wire water_surface);
              sent ← try_outside (fun o => send_if_supported env o sender WATER_SURFACE_PRESENTATION_MIN_PROTOCOL_MINOR
                                             KWaterSurfacePresentation water_payload);
              match sent with
              | Ok Sent => mret true
              | Ok (UnsupportedProtocolMinor _ _) | Err _ => isolate cid sender
              end
          end
      end
  end.

Fixpoint send_quadrants (cid : Z) (sender : ReliableConnectionSender) (a : Answers) (coords : list Coord) : M unit :=
  match coords with
  | [] => mret tt
  | coord :: rest =>
      more ← send_quadrant cid sender a coord;
      if more : bool then send_quadrants cid sender a rest else mret tt
  end.

Definition send_revealed_presentation_contracts_to_connection (cid frontier_revision : Z) (a : Answers) : M unit :=
  s ← get;
  if negb (has_scheduler (fixed s)) then mret tt
  else if negb (is_synced (frontier_sync s) cid) then bail (DeliveryBeforeSync cid)
  else
    match reliable_by_connection s !! cid with
    | None => mret tt
    | Some sender =>
        m ← current_manifest;
        if decide (Manifest.revision m <> frontier_revision)
        then bail (DeliveryRevisionMismatch cid frontier_revision (Manifest.revision m))
        else send_quadrants cid sender a (Manifest.quadrants m)
    end.

Definition handle_manifest_ack (cid ack_revision : Z) (a : Answers) : M unit :=
  s ← get;
  match reliable_by_connection s !! cid with
  | None => mret tt
  | Some sender =>
      let '(o, y) := apply_ack (frontier_sync s) cid ack_revision in
      _ ← modify (fun s => set_sync s y);
      match o with
      | Ok (Synchronized revision) =>
          _ ← modify (fun s => set_delivery s (acknowledge (frontier_delivery s) cid revision).1);
          send_revealed_presentation_contracts_to_connection cid revision a
      | Ok (Duplicate _) | Ok (Stale _ _) => mret tt
      | Err _ => close_capability sender
      end
  end.

(** ** Disconnection *)

Definition handle_disconnected (cid sid : Z) (a : Answers) : M unit :=
  bound ← world_binding_of BindingLookup cid;
  _ ← on_registry SessionClosing (fun r => reg_begin_closing r cid);
  s ← get;
  _ ← match bound with
      | None => mret tt
      | Some binding =>
          let responder := new_responder s in
          _ ← on_outside (fun o => despawn_character env (world_router (fixed s)) o (wb_zone_id binding)
                                     (wb_character_id binding) (Some responder)) DespawnFailed;
          if postgres_client (fixed s) then save_reply (wb_character_id binding) responder a else mret tt
      end;
  _ ← remove_sync cid;
  _ ← remove_delivery cid;
  _ ← remove_session_mapping sid;
  _ ← remove_realtime cid;
  _ ← remove_reliable cid;
  removed ← on_registry SessionRemoval (fun r => remove_by_connection r cid);
  if decide (removed <> sid) then bail (RemovedOtherSession removed sid) else mret tt.

Definition handle_transport_event (event : TransportSessionEvent) (a : Answers) : M unit :=
  match event with
  | SessionAdmitted cid sid realtime reliable => handle_admitted cid sid realtime reliable a
  | MoveIntentReceived cid intent => handle_move_intent cid intent
  | FrontierManifestAckReceived cid revision => handle_manifest_ack cid revision a
  | Disconnected cid sid => handle_disconnected cid sid a
  | MineIntentReceived cid intent => handle_mine_intent cid intent
  end.

(** ** Tickers *)

Definition evaluate_preparation_pipeline (now : Z) : M unit :=
  s ← get;
  if has_scheduler (fixed s) then
    let '(y, o) := evaluate blake3_keyed cfg (sys s) now in
    _ ← modify (fun s => set_sys s y);
    _ ← lift SchedulerFailed o;
    mret tt
  else mret tt.

Definition deliver_action (m : Manifest.FrontierManifest) (payload : list Z) (action : FrontierDeliveryAction) : M unit :=
  s ← get;
  match action with
  | Retry cid revision attempt =>
      match reliable_by_connection s !! cid with
      | None => mret tt
      | Some sender =>
          if decide (Manifest.revision m <> revision) then
            _ ← remove_delivery cid; close_capability sender
          else
            o ← try_outside (fun o => reliable_send env o sender KFrontierManifest payload);
            match o with Ok _ => mret tt | Err _ => remove_delivery cid end
      end
  | Timeout cid revision retries_sent =>
      match reliable_by_connection s !! cid with
      | None => mret tt
      | Some sender => close_capability sender
      end
  end.

Fixpoint deliver_actions (m : Manifest.FrontierManifest) (payload : list Z) (actions : list FrontierDeliveryAction)
  : M unit :=
  match actions with
  | [] => mret tt
  | action :: rest => _ ← deliver_action m payload action; deliver_actions m payload rest
  end.

(** [ans_connections] are the keys of the tracker. *)
Definition evaluate_frontier_delivery (a : Answers) : M unit :=
  s ← get;
  let '(pending, actions) := evaluate_delivery (delivery_policy (fixed s)) (ans_connections a) (frontier_delivery s) (ans_now a) in
  _ ← modify (fun s => set_delivery s pending);
  match actions with
  | [] => mret tt
  | _ :: _ => '(m, payload) ← encoded_manifest; deliver_actions m payload actions
  end.

Definition complete_gate : M unit := modify (fun s => set_gate s (option_map mark_complete (reveal_gate s))).

Fixpoint track_all (connections : list Z) (revision now : Z) : M unit :=
  match connections with
  | [] => mret tt
  | cid :: rest => _ ← track_delivery cid revision now; track_all rest revision now
  end.

(** [ans_connections] are the keys of [reliable_by_connection]. *)
Definition commit_development_frontier_reveal (satisfied : bool) (a : Answers) : M unit :=
  s ← get;
  match reveal_gate s with
  | None => mret tt
  | Some gate =>
      if gate_complete gate then mret tt
      else
        let '(frontier, o) := commit_reveal (sys_frontier (sys s)) (gate_requirements gate) (gate_resolver gate satisfied) in
        _ ← modify (fun s => set_sys s (with_runtime (sys s) frontier));
        outcome ← lift FrontierFailed o;
        match outcome with
        | Blocked _ => mret tt
        | AlreadyRevealed _ _ => complete_gate
        | RevealCommitted transition _ =>
            _ ← (fun s => let '(o, y) := mark_all_pending (frontier_sync s) (tr_revision transition) in
                          (set_sync s y, map_err PendingFrontier o));
            _ ← track_all (ans_connections a) (tr_revision transition) (ans_now a);
            '(_, payload) ← encoded_manifest;
            _ ← broadcast_frontier_manifest (ans_connections a) payload;
            complete_gate
        end
  end.

Definition evaluate_development_frontier_reveal (a : Answers) : M unit :=
  s ← get;
  match reveal_gate s with
  | None => mret tt
  | Some gate =>
      if gate_complete gate || negb (is_ready gate (ans_now a)) then mret tt
      else commit_development_frontier_reveal true a
  end.
End Server.
