(* ===== verification/ServerInv.v ===== *)
(** What the session runtime keeps true ([Server.v]): the maps it keeps by hand agree
    with each other, with the session registry, with the frontier and with what the
    zones have been told.  The invariant, and how it survives the changes the handlers
    make. *)

From S2P Require Import Prelude Bytes Core Contracts Snapshots Wire Presentation Frontier Preparation Runtime.
From S2P Require Import Scheduler SchedulerSafety PublicContracts Delivery System Session Sync Transport Bags Movement.
From S2P Require Import Traversal Zone ZoneMovement ZoneInventory ZoneSafety Egress Router Server.
Import World Bootstrap Equipment.

(** ** What the zones have been told *)

(** The commands a zone's queue has taken, in order. *)
Definition commands (zone : Z) (log : list Effect) : list ZoneCommand :=
  omap (fun e => match e with
                 | CommandQueued z command => if decide (z = zone) then Some command else None
                 | _ => None
                 end) log.

(** The characters present after a command, [None] when a zone would refuse it or the
    session runtime never sends it. *)
Definition present_step (present : gset Z) (command : ZoneCommand) : option (gset Z) :=
  match command with
  | SpawnCharacter c _ _ _ => if decide (c ∈ present) then None else Some ({[ c ]} ∪ present)
  | DespawnCharacter c _ => if decide (c ∈ present) then Some (present ∖ {[ c ]}) else None
  | ZoneMoveIntent c _ _ | ZoneMineIntent c _ => if decide (c ∈ present) then Some present else None
  | SnapshotInventory _ _ => Some present
  | SpawnRock _ _ | InventoryIntent _ _ => None
  end.

Fixpoint present_after (present : gset Z) (cs : list ZoneCommand) : option (gset Z) :=
  match cs with
  | [] => Some present
  | command :: rest => present' ← present_step present command; present_after present' rest
  end.

Lemma commands_app zone l k : commands zone (l ++ k) = commands zone l ++ commands zone k.
Proof. apply omap_app. Qed.

Lemma present_after_app present cs ds :
  present_after present (cs ++ ds) = (present' ← present_after present cs; present_after present' ds).
Proof.
  revert present. induction cs as [|c cs IH]; intros present; cbn; [done|].
  destruct (present_step present c); cbn; [apply IH|done].
Qed.

(** An effect that is not a command. *)
Definition no_command (e : Effect) : Prop := match e with CommandQueued _ _ => False | _ => True end.

Lemma commands_none zone l : Forall no_command l -> commands zone l = [].
Proof. induction 1 as [|[] l He _ IH]; cbn in *; try done. Qed.

(** ** The invariant *)

(** Reads a part of a changed state. *)
Ltac parts := cbn [ingress snapshot_bridge reliable_by_connection connection_by_session frontier_sync frontier_delivery
  sys reveal_gate outside fixed set_ingress set_bridge set_reliable set_sessions set_sync set_delivery set_sys set_gate
  set_outside ing_registry authorized_tx realtime_by_connection connection_by_character] in *.

Section Invariant.
Context {Q : Type} `{!MpscSender Q AuthorizedIntent}.
Context (blake3_hash : list Z -> list Z) (blake3_keyed : list Z -> list Z -> list Z) (cfg : SchedulerConfig).

Abbreviation Srv := (SessionRuntime (Q := Q)).
Abbreviation registry s := (ing_registry (ingress s)).

(** The session of a connection the runtime serves. *)
Definition serving (f : Fixed) : SessionState :=
  if development_auto_admit f then WorldActive 1 1 (zone_id f) else ProtocolAdmitted.

Definition reg_state (R : LiveSessionRegistry) (cid : Z) : option SessionState :=
  sid ← by_connection R !! cid; live ← by_session R !! sid; Some (session_state (live_session live)).
Definition state_of (s : Srv) (cid : Z) : option SessionState := reg_state (registry s) cid.

(** A snapshot fits a datagram of this size. *)
Definition fits_snapshot (rt : RealtimeConnectionSender) : Prop := Datagram.HEADER + 50 <= maximum_datagram_bytes rt.

(** The characters the zone has to know. *)
Definition expected_present (s : Srv) : gset Z :=
  if decide (development_auto_admit (fixed s) = true /\ reliable_by_connection s <> ∅) then {[ 1 ]} else ∅.

Definition queued_ok (f : Fixed) (i : AuthorizedIntent) : Prop :=
  ai_character_id i = 1 /\ ai_zone_id i = zone_id f /\
  let 'Move x y := ai_payload i in
  Intents.MOVE_AXIS_MIN <= x <= Intents.MOVE_AXIS_MAX /\ Intents.MOVE_AXIS_MIN <= y <= Intents.MOVE_AXIS_MAX.

(** How the server is set up. *)
Record fixed_ok (f : Fixed) : Prop := {
  fx_zone : zone_id f ∈ zones (world_router f) /\ zone_id f <> 0;
  fx_spawn : pos_ok (development_spawn_position f) /\ within MAX_SPAWN (development_spawn_position f);
  fx_policy : policy_ok (delivery_policy f);
  fx_scheduler : has_scheduler f = true -> scheduler_ok blake3_hash blake3_keyed cfg
}.

Record server_inv (s : Srv) : Prop := {
  sv_fixed : fixed_ok (fixed s);
  sv_registry : reg_wf (registry s);
  sv_reliable : forall cid sender, reliable_by_connection s !! cid = Some sender ->
    reliable_connection_id sender = cid /\ state_of s cid = Some (serving (fixed s));
  sv_closed : forall cid st, state_of s cid = Some st -> reliable_by_connection s !! cid = None -> st = Closing;
  sv_realtime : forall cid rt, realtime_by_connection (snapshot_bridge s) !! cid = Some rt ->
    realtime_connection_id rt = cid /\ fits_snapshot rt;
  sv_realtime_dom : dom (realtime_by_connection (snapshot_bridge s)) = dom (reliable_by_connection s);
  sv_sync_dom : dom (frontier_sync s) = dom (reliable_by_connection s);
  sv_sync : forall cid st, frontier_sync s !! cid = Some st -> state_revision st = current_revision s;
  sv_sessions : forall sid cid, connection_by_session s !! sid = Some cid <-> by_connection (registry s) !! cid = Some sid;
  sv_bound : forall ch cid, connection_by_character (snapshot_bridge s) !! ch = Some cid <->
    ch = 1 /\ development_auto_admit (fixed s) = true /\ is_Some (reliable_by_connection s !! cid);
  sv_delivery : deliveries_ok (delivery_policy (fixed s)) (frontier_delivery s);
  sv_pending : forall cid p, frontier_delivery s !! cid = Some p -> frontier_sync s !! cid = Some (Pending (pending_revision p));
  sv_system : system_ok blake3_hash blake3_keyed cfg (has_scheduler (fixed s)) (reveal_gate s) (sys s);
  sv_queue : Forall (queued_ok (fixed s)) (contents (authorized_tx (ingress s)));
  sv_commands : present_after ∅ (commands (zone_id (fixed s)) (effects (outside s))) = Some (expected_present s);
  sv_command_ok : Forall command_ok (commands (zone_id (fixed s)) (effects (outside s)))
}.

(** ** Changes of one part *)

Lemma inv_outside s o : server_inv s ->
  commands (zone_id (fixed s)) (effects o) = commands (zone_id (fixed s)) (effects (outside s)) ->
  server_inv (set_outside s o).
Proof. intros [] E. split; parts; try done; by rewrite E. Qed.

Lemma inv_emit s e : server_inv s -> no_command e -> server_inv (set_outside s (emit (outside s) e)).
Proof.
  intros H He. apply inv_outside; [done|]. unfold emit. cbn [effects]. rewrite commands_app.
  by rewrite (commands_none _ [e]), app_nil_r by (repeat constructor; done).
Qed.

(** A command that does not change who is present. *)
Lemma inv_command s command : server_inv s -> command_ok command ->
  present_step (expected_present s) command = Some (expected_present s) ->
  server_inv (set_outside s (emit (outside s) (CommandQueued (zone_id (fixed s)) command))).
Proof.
  intros [] Hok Hp. split; parts; try done; unfold emit; cbn [effects]; rewrite commands_app; cbn;
    rewrite decide_True by done.
  - rewrite present_after_app, sv_commands0. cbn. fold (expected_present s). rewrite Hp. done.
  - by apply Forall_app_2; [|repeat constructor].
Qed.

Lemma inv_ingress s ing : server_inv s -> reg_wf (ing_registry ing) ->
  by_connection (ing_registry ing) = by_connection (registry s) ->
  (forall cid, state_of (set_ingress s ing) cid = state_of s cid) ->
  Forall (queued_ok (fixed s)) (contents (authorized_tx ing)) -> server_inv (set_ingress s ing).
Proof.
  intros [] Hr Ec Es Hq. split; parts; try done.
  - intros cid sender H. rewrite Es. by apply sv_reliable0.
  - intros cid st. rewrite Es. apply sv_closed0.
  - intros sid cid. rewrite Ec. apply sv_sessions0.
Qed.

Lemma inv_system s y : server_inv s -> system_ok blake3_hash blake3_keyed cfg (has_scheduler (fixed s)) (reveal_gate s) y ->
  rt_revision (sys_frontier y) = current_revision s -> server_inv (set_sys s y).
Proof.
  intros [] Hy Hrev. split; parts; try done. intros cid st H. unfold current_revision. parts. rewrite Hrev. by eapply sv_sync0.
Qed.

Lemma inv_gate s g g' : server_inv s -> reveal_gate s = Some g -> gate_requirements g' = gate_requirements g ->
  gate_requirement g' = gate_requirement g -> server_inv (set_gate s (Some g')).
Proof. intros [] E E1 E2. split; parts; try done. eapply system_gate; [by rewrite <- E|done..]. Qed.

Lemma inv_delivery s d : server_inv s -> deliveries_ok (delivery_policy (fixed s)) d ->
  (forall cid p, d !! cid = Some p -> frontier_sync s !! cid = Some (Pending (pending_revision p))) ->
  server_inv (set_delivery s d).
Proof. intros [] H1 H2. split; parts; done. Qed.

(** The acknowledgement of a connection. *)
Lemma inv_synced s cid : server_inv s -> is_Some (frontier_sync s !! cid) ->
  server_inv (set_delivery (set_sync s (<[cid := Synced (current_revision s)]> (frontier_sync s)))
                (delete cid (frontier_delivery s))).
Proof.
  intros [] Hc. split; parts; try done.
  - rewrite dom_insert_L, <- sv_sync_dom0. apply elem_of_dom in Hc. set_solver.
  - intros c st [[<- <-]|[_ H]]%lookup_insert_Some; [done|]. by eapply sv_sync0.
  - intros c p [_ H]%lookup_delete_Some. by eapply sv_delivery0.
  - intros c p [Hne H]%lookup_delete_Some. rewrite lookup_insert_ne by done. by apply sv_pending0.
Qed.

(** ** Sessions that come and go *)

Lemma reg_state_Some R cid st : reg_state R cid = Some st <->
  exists sid live, by_connection R !! cid = Some sid /\ by_session R !! sid = Some live /\
    session_state (live_session live) = st.
Proof.
  unfold reg_state. split.
  - intros H. destruct (by_connection R !! cid) as [sid|]; cbn in H; [|done].
    destruct (by_session R !! sid) as [live|] eqn:E; cbn in H; [|done]. injection H as <-. by exists sid, live.
  - intros (sid & live & -> & H & <-). cbn. by rewrite H.
Qed.

(** Writing back the session of one connection. *)
Lemma reg_state_update R cid sid live live' c : reg_wf R -> by_connection R !! cid = Some sid ->
  by_session R !! sid = Some live ->
  reg_state (mk_registry (<[sid := live']> (by_session R)) (by_connection R)) c =
  if decide (c = cid) then Some (session_state (live_session live')) else reg_state R c.
Proof.
  intros Hwf Hc Hl. unfold reg_state; cbn. destruct (decide (c = cid)) as [->|Hne].
  { rewrite Hc. cbn. by rewrite lookup_insert_eq. }
  destruct (by_connection R !! c) as [sid'|] eqn:E; cbn; [|done]. rewrite lookup_insert_ne; [done|].
  intros <-. apply Hne. destruct (rw_conn R Hwf c sid E) as (l1 & El1 & <-).
  destruct (rw_conn R Hwf cid sid Hc) as (l2 & El2 & <-). congruence.
Qed.

(** A method of the session of a known connection. *)
Lemma reg_on_session {A} R cid sid live (f : AuthoritativeSession -> SessionM A) :
  by_connection R !! cid = Some sid -> by_session R !! sid = Some live ->
  with_live R cid id (on_session f) =
  (mk_registry (<[sid := mk_live (f (live_session live)).1 (replay live)]> (by_session R)) (by_connection R),
   map_err RegistryState (f (live_session live)).2).
Proof.
  intros Hc Hl. unfold with_live, session_id_for_connection. rewrite Hc. cbn. rewrite Hl. unfold on_session.
  by destruct (f (live_session live)).
Qed.

(** Every call of the session that can succeed. *)
Lemma reg_call_Ok R cid st call st' : reg_wf R -> reg_state R cid = Some st -> call_effect st call = Some st' ->
  exists R', reg_call R cid call = (R', Ok tt) /\ reg_wf R' /\ by_connection R' = by_connection R /\
    forall c, reg_state R' c = if decide (c = cid) then Some st' else reg_state R c.
Proof.
  intros Hwf (sid & live & Hc & Hl & <-)%reg_state_Some Hcall.
  pose proof (reg_exec_wf R (OpCall cid call) Hwf) as Hwf'. cbn [reg_exec fst] in Hwf'.
  rewrite reg_call_with_live, (reg_on_session R cid sid live _ Hc Hl) in *.
  destruct (session_call (live_session live) call) as [s1 r1] eqn:E. pose proof (session_call_effect _ _ _ _ E) as He.
  rewrite Hcall in He. destruct He as [-> ->]. cbn [fst snd map_err] in *. eexists. split; [done|].
  split; [done|]. split; [done|]. intros c. by rewrite (reg_state_update R cid sid live).
Qed.

Lemma begin_closing_Ok R cid st : reg_wf R -> reg_state R cid = Some st ->
  exists R', reg_begin_closing R cid = (R', Ok tt) /\ reg_wf R' /\ by_connection R' = by_connection R /\
    forall c, reg_state R' c = if decide (c = cid) then Some Closing else reg_state R c.
Proof. intros Hwf Hst. by apply (reg_call_Ok R cid st CallBeginClosing). Qed.

Lemma register_Ok R cid sid : reg_wf R -> by_connection R !! cid = None -> by_session R !! sid = None ->
  cid <> 0 -> sid <> 0 ->
  exists R', register R sid cid = (R', Ok tt) /\ reg_wf R' /\ by_connection R' = <[cid := sid]> (by_connection R) /\
    forall c, reg_state R' c = if decide (c = cid) then Some ProtocolAdmitted else reg_state R c.
Proof.
  intros Hwf Hc Hs Hc0 Hs0. assert (exists R', register R sid cid = (R', Ok tt) /\
    R' = mk_registry (<[sid := mk_live (mk_session sid cid ProtocolAdmitted) Replay.empty_window]> (by_session R))
           (<[cid := sid]> (by_connection R))) as (R' & E & ER).
  { unfold register. rewrite Hs, Hc. rewrite !decide_False by (by intros [? ?]).
    rewrite (proj2 (session_new_Ok sid cid _) (conj Hs0 (conj Hc0 eq_refl))). by eexists. }
  exists R'. split; [done|]. split; [|split; [by rewrite ER|]].
  - pose proof (reg_exec_wf R (OpRegister sid cid) Hwf) as H. cbn in H. by rewrite E in H.
  - intros c. rewrite ER. unfold reg_state; cbn. destruct (decide (c = cid)) as [->|Hne].
    + rewrite lookup_insert_eq. cbn. by rewrite lookup_insert_eq.
    + rewrite lookup_insert_ne by done. destruct (by_connection R !! c) as [sid'|] eqn:Ec; cbn; [|done].
      rewrite lookup_insert_ne; [done|]. intros <-. destruct (rw_conn R Hwf c sid Ec) as (l & El & _). congruence.
Qed.

Lemma binding_lookup R cid st : reg_state R cid = Some st ->
  world_binding_for_connection R cid = Ok (state_world_binding st).
Proof.
  intros (sid & live & Hc & Hl & <-)%reg_state_Some. unfold world_binding_for_connection, live_for_connection,
    session_id_for_connection. rewrite Hc. cbn. by rewrite Hl.
Qed.

Lemma served_once s c c' : server_inv s -> development_auto_admit (fixed s) = true ->
  is_Some (reliable_by_connection s !! c) -> is_Some (reliable_by_connection s !! c') -> c = c'.
Proof.
  intros [] Hd H H'. pose proof (proj2 (sv_bound0 1 c) (conj eq_refl (conj Hd H))).
  pose proof (proj2 (sv_bound0 1 c') (conj eq_refl (conj Hd H'))). congruence.
Qed.

Lemma served_registered s cid : server_inv s -> is_Some (reliable_by_connection s !! cid) ->
  state_of s cid = Some (serving (fixed s)).
Proof. intros [] [sender H]. by apply (sv_reliable0 cid sender). Qed.

Lemma expected_present_served s cid : is_Some (reliable_by_connection s !! cid) ->
  expected_present s = if development_auto_admit (fixed s) then {[ 1 ]} else ∅.
Proof.
  intros [x Hx]. unfold expected_present. destruct (development_auto_admit (fixed s)).
  - rewrite decide_True; [done|]. split; [done|]. intros E. by rewrite E in Hx.
  - by rewrite decide_False by naive_solver.
Qed.

(** The connection [cid] is no longer served: its session is closing, its routes are
    gone, its character leaves the zone. *)
Definition released (s : Srv) (cid : Z) (R : LiveSessionRegistry) (o : Outside) : Srv :=
  mk_runtime (mk_ingress R (authorized_tx (ingress s))) (remove_connection (snapshot_bridge s) cid)
    (delete cid (reliable_by_connection s)) (connection_by_session s) (delete cid (frontier_sync s))
    (delete cid (frontier_delivery s)) (sys s) (reveal_gate s) o (fixed s).

(** The commands of a release. *)
Definition release_commands (s : Srv) (cid : Z) (responder : option Z) : list ZoneCommand :=
  match reliable_by_connection s !! cid with
  | Some _ => if development_auto_admit (fixed s) then [DespawnCharacter 1 responder] else []
  | None => []
  end.

Lemma inv_release s cid R o responder : server_inv s -> reg_wf R ->
  by_connection R = by_connection (registry s) ->
  (forall c, reg_state R c = if decide (c = cid) then Some Closing else state_of s c) ->
  commands (zone_id (fixed s)) (effects o) =
    commands (zone_id (fixed s)) (effects (outside s)) ++ release_commands s cid responder ->
  server_inv (released s cid R o).
Proof.
  intros Hs Hwf Hcon Hst Hcmd. pose proof Hs as []. unfold released. split; unfold state_of; parts; try done.
  - intros c sender [Hne H]%lookup_delete_Some. rewrite Hst, decide_False by done. by apply sv_reliable0.
  - intros c st. rewrite Hst. destruct (decide (c = cid)) as [->|Hne]; [naive_solver|].
    rewrite lookup_delete_ne by done. apply sv_closed0.
  - intros c rt H. cbn in H. apply lookup_delete_Some in H as [_ H]. by apply sv_realtime0.
  - cbn. rewrite !dom_delete_L. congruence.
  - rewrite !dom_delete_L. congruence.
  - intros c st [_ H]%lookup_delete_Some. by eapply sv_sync0.
  - intros sid c. rewrite Hcon. apply sv_sessions0.
  - intros ch c. unfold remove_connection. cbn [connection_by_character]. rewrite map_lookup_filter_Some, sv_bound0. cbn.
    destruct (decide (c = cid)) as [->|Hne]; [rewrite lookup_delete_eq|rewrite lookup_delete_ne by done]; naive_solver.
  - intros c p [_ H]%lookup_delete_Some. by eapply sv_delivery0.
  - intros c p [Hne H]%lookup_delete_Some. rewrite lookup_delete_ne by done. by apply sv_pending0.
  - rewrite Hcmd, present_after_app, sv_commands0. cbn. unfold release_commands.
    destruct (reliable_by_connection s !! cid) as [sender|] eqn:E.
    2: { cbn. unfold expected_present. parts. by rewrite delete_id. }
    rewrite (expected_present_served s cid) by done. unfold expected_present. parts.
    destruct (development_auto_admit (fixed s)) eqn:Ed; cbn.
    2: { by rewrite decide_False by naive_solver. }
    rewrite decide_True by set_solver. cbn. rewrite decide_False; [f_equal; set_solver|]. intros [_ Hne]. apply Hne.
    apply map_empty. intros c. destruct (decide (c = cid)) as [->|Hc]; [by apply lookup_delete_eq|].
    rewrite lookup_delete_ne by done. apply eq_None_not_Some. intros Hx. apply Hc. by apply (served_once s c cid Hs Ed).
  - rewrite Hcmd. apply Forall_app_2; [done|]. unfold release_commands.
    destruct (reliable_by_connection s !! cid); [|constructor]. destruct (development_auto_admit _); repeat constructor.
Qed.

(** A closed session leaves the registry. *)
Lemma inv_forget s cid sid : server_inv s -> by_connection (registry s) !! cid = Some sid ->
  reliable_by_connection s !! cid = None ->
  exists R, remove_by_connection (registry s) cid = (R, Ok sid) /\
    server_inv (set_sessions (set_ingress s (mk_ingress R (authorized_tx (ingress s)))) (delete sid (connection_by_session s))).
Proof.
  intros Hs Hc Hn. pose proof Hs as []. destruct (rw_conn _ sv_registry0 cid sid Hc) as (live & Hl & Hcid).
  eexists. split.
  { unfold remove_by_connection, session_id_for_connection. rewrite Hc. cbn. rewrite Hl, decide_False by done. done. }
  assert (forall c sid', by_connection (registry s) !! c = Some sid' -> c <> cid -> sid' <> sid) as Hother.
  { intros c sid' E Hne ->. apply Hne. destruct (rw_conn _ sv_registry0 c sid E) as (l & El & <-). congruence. }
  assert (forall c, reg_state (mk_registry (delete sid (by_session (registry s))) (delete cid (by_connection (registry s)))) c =
    if decide (c = cid) then None else reg_state (registry s) c) as Hst.
  { intros c. unfold reg_state; cbn. destruct (decide (c = cid)) as [->|Hne]; [by rewrite lookup_delete_eq|].
    rewrite lookup_delete_ne by done. destruct (by_connection (registry s) !! c) as [sid'|] eqn:E; [|done]. cbn.
    rewrite lookup_delete_ne; [done|]. intros ->. by apply (Hother c sid'). }
  split; unfold state_of; parts; try done.
  - split; cbn.
    + intros c sid' [Hne E]%lookup_delete_Some. destruct (rw_conn _ sv_registry0 c sid' E) as (l & El & Hcl).
      exists l. rewrite lookup_delete_ne; [done|]. intros ->. by apply (Hother c sid').
    + intros sid' l [Hne E]%lookup_delete_Some. destruct (rw_sess _ sv_registry0 sid' l E) as (H1 & H2).
      split; [|done]. rewrite lookup_delete_ne; [done|]. intros E'. rewrite <- E' in H1. congruence.
  - intros c sender H. rewrite Hst. rewrite decide_False by congruence. by apply sv_reliable0.
  - intros c st. rewrite Hst. destruct (decide (c = cid)); [done|]. apply sv_closed0.
  - intros sid' c. cbn [by_connection]. rewrite !lookup_delete_Some, sv_sessions0. split; intros [Hne E]; (split; [|done]).
    + intros <-. congruence.
    + intros ->. by apply (Hother c sid').
Qed.

(** A connection that is new to the runtime. *)
Definition fresh (s : Srv) (cid sid : Z) : Prop :=
  cid <> 0 /\ sid <> 0 /\ by_connection (registry s) !! cid = None /\ by_session (registry s) !! sid = None.

Lemma fresh_unserved s cid sid : server_inv s -> fresh s cid sid -> reliable_by_connection s !! cid = None.
Proof.
  intros Hs (_ & _ & Hc & _). apply eq_None_not_Some. intros H%(served_registered s cid Hs).
  unfold state_of, reg_state in H. by rewrite Hc in H.
Qed.

(** The connection [cid] is served, not synchronised yet; with the development
    environment's character. *)
Definition admitted (s : Srv) (cid sid : Z) (rt : RealtimeConnectionSender) (sender : ReliableConnectionSender)
  (now : Z) (R : LiveSessionRegistry) (gate : option DevelopmentFrontierRevealGate) (o : Outside) : Srv :=
  let b := snapshot_bridge s in
  mk_runtime (mk_ingress R (authorized_tx (ingress s)))
    (mk_bridge (<[cid := rt]> (realtime_by_connection b))
       (if development_auto_admit (fixed s) then <[1 := cid]> (connection_by_character b) else connection_by_character b))
    (<[cid := sender]> (reliable_by_connection s)) (<[sid := cid]> (connection_by_session s))
    (<[cid := Pending (current_revision s)]> (frontier_sync s))
    (track (delivery_policy (fixed s)) (frontier_delivery s) cid (current_revision s) now)
    (sys s) gate o (fixed s).

Lemma inv_admit s cid sid rt sender now R gate o spawn : server_inv s -> fresh s cid sid ->
  realtime_connection_id rt = cid -> fits_snapshot rt -> reliable_connection_id sender = cid -> reg_wf R ->
  by_connection R = <[cid := sid]> (by_connection (registry s)) ->
  (forall c, reg_state R c = if decide (c = cid) then Some (serving (fixed s)) else state_of s c) ->
  system_ok blake3_hash blake3_keyed cfg (has_scheduler (fixed s)) gate (sys s) ->
  (development_auto_admit (fixed s) = true -> reliable_by_connection s = ∅) ->
  commands (zone_id (fixed s)) (effects o) = commands (zone_id (fixed s)) (effects (outside s)) ++
    (if development_auto_admit (fixed s) then [spawn] else []) ->
  (exists p inventory revision, spawn = SpawnCharacter 1 p inventory revision) -> command_ok spawn ->
  server_inv (admitted s cid sid rt sender now R gate o).
Proof.
  intros Hs Hfresh Hrt Hfit Hsend Hwf Hcon Hst Hsys Hempty Hcmd (p & inventory & revision & ->) Hok.
  pose proof (fresh_unserved s cid sid Hs Hfresh) as Hnew. destruct Hfresh as (Hc0 & Hs0 & Hc & Hsid).
  pose proof Hs as []. unfold admitted. split; unfold state_of; parts; try done.
  - intros c x [[<- <-]|[Hne H]]%lookup_insert_Some; rewrite Hst; [by rewrite decide_True|].
    rewrite decide_False by done. by apply sv_reliable0.
  - intros c st. rewrite Hst. destruct (decide (c = cid)) as [->|Hne]; [by rewrite lookup_insert_eq|].
    rewrite lookup_insert_ne by done. apply sv_closed0.
  - intros c x [[<- <-]|[_ H]]%lookup_insert_Some; [done|]. by apply sv_realtime0.
  - rewrite !dom_insert_L. congruence.
  - rewrite !dom_insert_L. congruence.
  - intros c x [[<- <-]|[_ H]]%lookup_insert_Some; [done|]. by eapply sv_sync0.
  - intros sid' c. rewrite Hcon, !lookup_insert_Some, sv_sessions0. split; intros [[<- <-]|[Hne E]]; auto; right.
    + split; [|done]. intros <-. congruence.
    + split; [|done]. intros <-. destruct (rw_conn _ sv_registry0 c sid E) as (l & El & _). congruence.
  - intros ch c. destruct (development_auto_admit (fixed s)) eqn:Ed; [|rewrite sv_bound0; naive_solver].
    rewrite (Hempty eq_refl) in *. rewrite lookup_insert_Some, sv_bound0, lookup_empty.
    rewrite insert_empty, lookup_singleton_is_Some. split; [intros [[<- <-]|(_ & _ & _ & [? ?])]; done|].
    intros (-> & _ & ->). by left.
  - intros c x. unfold track. intros [[<- <-]|[_ H]]%lookup_insert_Some; [|by eapply sv_delivery0].
    cbn. destruct (fx_policy _ sv_fixed0). lia.
  - intros c x. unfold track. intros [[<- <-]|[Hne H]]%lookup_insert_Some; [by rewrite lookup_insert_eq|].
    rewrite lookup_insert_ne by done. by apply sv_pending0.
  - rewrite Hcmd, present_after_app, sv_commands0. cbn. unfold expected_present. parts.
    destruct (development_auto_admit (fixed s)) eqn:Ed; cbn.
    + rewrite (Hempty eq_refl). rewrite (decide_False (P := true = true /\ ∅ <> ∅)) by naive_solver.
      rewrite decide_False by set_solver. cbn. rewrite decide_True; [f_equal; set_solver|]. split; [done|].
      by rewrite insert_empty.
    + by rewrite !decide_False by naive_solver.
  - rewrite Hcmd. apply Forall_app_2; [done|]. destruct (development_auto_admit (fixed s)); [by constructor; [|constructor]|constructor].
Qed.

(** The frontier moves on: every connection has to acknowledge the new revision. *)
Fixpoint track_from (policy : FrontierDeliveryPolicy) (d : FrontierDeliveries) (connections : list Z) (revision now : Z)
  : FrontierDeliveries :=
  match connections with
  | [] => d
  | cid :: rest => track_from policy (track policy d cid revision now) rest revision now
  end.

Lemma track_from_lookup policy connections revision now : forall d c p,
  track_from policy d connections revision now !! c = Some p ->
  (c ∈ connections /\ pending_revision p = revision /\ retries_sent p = 0) \/ (c ∉ connections /\ d !! c = Some p).
Proof.
  induction connections as [|cid rest IH]; intros d c p; cbn [track_from]; [intros H; right; split; [set_solver|done]|].
  intros [(H1 & H2 & H3)|(H1 & H2)]%IH; [left; split_goals; [by right|done|done]|].
  unfold track in H2. apply lookup_insert_Some in H2 as [[<- <-]|[Hne H2]]; [left; split; [by left|done]|].
  right. split; [|done]. rewrite not_elem_of_cons. done.
Qed.

Definition advanced (s : Srv) (y : Sys) (connections : list Z) (now : Z) : Srv :=
  let revision := rt_revision (sys_frontier y) in
  set_delivery (set_sync (set_sys s y) ((fun _ => Pending revision) <$> frontier_sync s))
    (track_from (delivery_policy (fixed s)) (frontier_delivery s) connections revision now).

Lemma inv_advance s y connections now : server_inv s ->
  system_ok blake3_hash blake3_keyed cfg (has_scheduler (fixed s)) (reveal_gate s) y ->
  (forall c, c ∈ connections <-> is_Some (reliable_by_connection s !! c)) ->
  server_inv (advanced s y connections now).
Proof.
  intros [] Hy Hcon. unfold advanced. split; parts; try done.
  - by rewrite dom_fmap_L.
  - intros c st H. rewrite lookup_fmap in H. destruct (frontier_sync s !! c); [|done]. by injection H as <-.
  - intros c p [(_ & _ & ->)|(_ & H)]%track_from_lookup; [|by eapply sv_delivery0]. destruct (fx_policy _ sv_fixed0). lia.
  - intros c p [(Hc & -> & _)|(Hc & H)]%track_from_lookup; rewrite lookup_fmap.
    + assert (c ∈ dom (frontier_sync s)) as [st ->]%elem_of_dom; [|done]. rewrite sv_sync_dom0. by apply elem_of_dom, Hcon.
    + exfalso. apply Hc, Hcon, elem_of_dom. rewrite <- sv_sync_dom0. apply elem_of_dom. exists (Pending (pending_revision p)).
      by apply sv_pending0.
Qed.
End Invariant.

Arguments sv_fixed {Q MpscSender0 blake3_hash blake3_keyed cfg s} _.
Arguments sv_registry {Q MpscSender0 blake3_hash blake3_keyed cfg s} _.
Arguments sv_reliable {Q MpscSender0 blake3_hash blake3_keyed cfg s} _.
Arguments sv_closed {Q MpscSender0 blake3_hash blake3_keyed cfg s} _.
Arguments sv_realtime {Q MpscSender0 blake3_hash blake3_keyed cfg s} _.
Arguments sv_realtime_dom {Q MpscSender0 blake3_hash blake3_keyed cfg s} _.
Arguments sv_sync_dom {Q MpscSender0 blake3_hash blake3_keyed cfg s} _.
Arguments sv_sync {Q MpscSender0 blake3_hash blake3_keyed cfg s} _.
Arguments sv_sessions {Q MpscSender0 blake3_hash blake3_keyed cfg s} _.
Arguments sv_bound {Q MpscSender0 blake3_hash blake3_keyed cfg s} _.
Arguments sv_delivery {Q MpscSender0 blake3_hash blake3_keyed cfg s} _.
Arguments sv_pending {Q MpscSender0 blake3_hash blake3_keyed cfg s} _.
Arguments sv_system {Q MpscSender0 blake3_hash blake3_keyed cfg s} _.
Arguments sv_queue {Q MpscSender0 blake3_hash blake3_keyed cfg s} _.
Arguments sv_commands {Q MpscSender0 blake3_hash blake3_keyed cfg s} _.
Arguments sv_command_ok {Q MpscSender0 blake3_hash blake3_keyed cfg s} _.
Arguments fx_zone {blake3_hash blake3_keyed cfg f} _.
Arguments fx_scheduler {blake3_hash blake3_keyed cfg f} _ _.
