(* ===== verification/ServerSteps.v ===== *)
(** The handlers of the session runtime, one by one ([Server.v]): each keeps the
    invariant, fails only where it may, and does only what its event allows. *)

From S2P Require Import Prelude Bytes Core Contracts Snapshots Wire Presentation Terrain Frontier Preparation Runtime.
From S2P Require Import Scheduler SchedulerSafety PublicContracts Delivery System Session Sync Transport Bags Movement.
From S2P Require Import Traversal Zone ZoneMovement ZoneInventory ZoneSafety Egress Router Server ServerInv.
Import World Bootstrap Equipment.

(** ** Effects that extend the past *)

Definition extends (P : Effect -> Prop) (o o' : Outside) : Prop :=
  exists new, effects o' = effects o ++ new /\ Forall P new.

#[global] Instance extends_preorder P : PreOrder (extends P).
Proof.
  split.
  - intros o. exists []. by rewrite app_nil_r.
  - intros o1 o2 o3 (n1 & E1 & H1) (n2 & E2 & H2). exists (n1 ++ n2). rewrite E2, E1, <- app_assoc. split; [done|].
    by apply Forall_app_2.
Qed.

Lemma extends_emit (P : Effect -> Prop) o e : P e -> extends P o (emit o e).
Proof. intros H. exists [e]. by repeat constructor. Qed.

Lemma extends_mono (P P' : Effect -> Prop) o o' : (forall e, P e -> P' e) -> extends P o o' -> extends P' o o'.
Proof. intros H (n & E & Hn). exists n. split; [done|]. by eapply Forall_impl. Qed.

Lemma extends_commands zone P o o' : (forall e, P e -> no_command e) -> extends P o o' ->
  commands zone (effects o') = commands zone (effects o).
Proof. intros H (n & -> & Hn). rewrite commands_app, (commands_none zone n), app_nil_r; [done|]. by eapply Forall_impl. Qed.

(** What a send on the capability of [cid] may leave behind. *)
Definition send_effect (cid : Z) (k : MessageKind) (payload : list Z) (e : Effect) : Prop :=
  e = ReliableSent cid k payload \/ e = ReliableFailed cid k \/ e = CapabilityClosed cid.

Lemma send_no_command cid k payload e : send_effect cid k payload e -> no_command e.
Proof. by intros [->|[->| ->]]. Qed.

Lemma reliable_send_extends env o sender k payload :
  extends (send_effect (reliable_connection_id sender) k payload) o (reliable_send env o sender k payload).1.
Proof.
  destruct (reliable_send env o sender k payload) as [o' r] eqn:E. cbn [fst].
  apply reliable_send_cases in E as [(_ & _ & _ & _ & _ & He)|(e & _ & _ & [(-> & _)|[_ He]])]; [|done|].
  - eexists. split; [exact He|]. repeat constructor.
  - eexists. split; [exact He|]. unfold send_effect. apply Forall_cons_2; [auto|]. apply Forall_cons_2; [auto|constructor].
Qed.

Lemma fail_close_extends o sender : extends (eq (CapabilityClosed (reliable_connection_id sender))) o (fail_close o sender).
Proof. unfold fail_close. case_decide; [done|]. eexists. split; [done|]. by repeat constructor. Qed.

Section Steps.
Context {Q : Type} `{!MpscSender Q AuthorizedIntent}.
Context (blake3_hash : list Z -> list Z) (blake3_keyed : list Z -> list Z -> list Z) (cfg : SchedulerConfig).
Context (env : Environment).

Abbreviation Srv := (SessionRuntime (Q := Q)).
Abbreviation registry s := (ing_registry (ingress s)).
Abbreviation inv := (server_inv (Q := Q) blake3_hash blake3_keyed cfg).

#[local] Existing Instances M_ret M_bind.

(** ** Running a handler *)

Definition runs {A} (m : M (Q := Q) A) (s : Srv) (post : Srv -> result ServerError A -> Prop) : Prop :=
  post (m s).1 (m s).2.

Lemma runs_mono {A} (m : M A) s (P P' : Srv -> result ServerError A -> Prop) :
  runs m s P -> (forall s' r, P s' r -> P' s' r) -> runs m s P'.
Proof. unfold runs. auto. Qed.

Lemma runs_ret {A} (a : A) s (post : Srv -> result ServerError A -> Prop) : post s (Ok a) -> runs (mret a) s post.
Proof. done. Qed.

Lemma runs_bind {A B} (f : A -> M B) (m : M A) s post :
  runs m s (fun s' r => match r with Ok a => runs (f a) s' post | Err e => post s' (Err e) end) ->
  runs (mbind f m) s post.
Proof.
  unfold runs, mbind, M_bind. destruct (m s) as [s' [a|e]]; cbn; [|done].
  by destruct (f a s').
Qed.

Lemma runs_get {B} (f : Srv -> M B) s post : runs (f s) s post -> runs (mbind f get) s post.
Proof. intros H. by apply runs_bind. Qed.

Lemma runs_modify {B} (g : Srv -> Srv) (f : unit -> M B) s post :
  runs (f tt) (g s) post -> runs (mbind f (modify g)) s post.
Proof. intros H. by apply runs_bind. Qed.

Lemma runs_lift {E A B} (context : E -> ServerError) (r : result E A) (f : A -> M B) s a post :
  r = Ok a -> runs (f a) s post -> runs (mbind f (lift context r)) s post.
Proof. intros -> H. by apply runs_bind. Qed.

Lemma runs_try {E A B} (g : Outside -> Outside * result E A) (f : result E A -> M B) s post :
  runs (f (g (outside s)).2) (set_outside s (g (outside s)).1) post -> runs (mbind f (try_outside g)) s post.
Proof. intros H. apply runs_bind. unfold runs, try_outside. by destruct (g (outside s)). Qed.

(** ** Steps *)

Inductive ServerStep :=
| StepTransport (event : TransportSessionEvent) (a : Answers)
| StepAuthorized (intent : AuthorizedIntent) (rest : Q)
| StepSnapshot (snapshot : MovementSnapshot)
| StepDelivery (a : Answers)
| StepPreparation (now : Z)
| StepReveal (a : Answers)
| StepAutoSave (a : Answers)
| StepWorker (w : Worker) (store : Retained).

(** One turn of the loop of [run], or of the preparation worker's task. *)
Definition step_run (l : ServerStep) : M (Q := Q) unit :=
  match l with
  | StepTransport event a => handle_transport_event blake3_hash blake3_keyed cfg env event a
  | StepAuthorized intent rest =>
      _ ← modify (fun s => set_ingress s (mk_ingress (registry s) rest)); route_authorized_intent env intent
  | StepSnapshot snapshot => route_movement_snapshot env snapshot
  | StepDelivery a => evaluate_frontier_delivery env a
  | StepPreparation now => evaluate_preparation_pipeline blake3_keyed cfg now
  | StepReveal a => evaluate_development_frontier_reveal env a
  | StepAutoSave a => auto_save_active_inventories env a
  | StepWorker w store => modify (fun s => set_sys s (with_retained (with_worker (sys s) w) store))
  end.

Definition answers_ok (a : Answers) : Prop :=
  (forall inventory revision, ans_inventory a = Ok (Some (inventory, revision)) -> inventory_ok inventory) /\
  (forall p, ans_position a = Ok (Some p) -> pos_ok p /\ within MAX_SPAWN p).

(** What the transport, the channels, the database and the hash maps promise. *)
Definition step_ok (s : Srv) (l : ServerStep) : Prop :=
  match l with
  | StepTransport (SessionAdmitted cid sid rt sender) a =>
      fresh s cid sid /\ realtime_connection_id rt = cid /\ reliable_connection_id sender = cid /\ fits_snapshot rt /\
      answers_ok a
  | StepTransport (MoveIntentReceived _ intent) _ => Intents.move_intent_ok intent
  | StepTransport (MineIntentReceived _ _) _ => True
  | StepTransport (FrontierManifestAckReceived _ _) a => ans_retained a ≡ₚ map_to_list (sys_retained (sys s))
  | StepTransport (Disconnected cid sid) _ => by_connection (registry s) !! cid = Some sid
  | StepAuthorized intent rest => contents (authorized_tx (ingress s)) = intent :: contents rest
  | StepSnapshot _ | StepPreparation _ | StepAutoSave _ => True
  | StepDelivery a => ans_connections a ≡ₚ (map_to_list (frontier_delivery s)).*1
  | StepReveal a => ans_connections a ≡ₚ (map_to_list (reliable_by_connection s)).*1
  | StepWorker w store => worker_step blake3_hash blake3_keyed cfg (sys_worker (sys s), sys_retained (sys s)) (w, store)
  end.

(** The queue of the zone is full or closed for a control command. *)
Definition queue_problem (zone : Z) (action : string) (e : RouterError) : Prop :=
  e = ControlQueueFull action zone \/ e = ControlQueueClosed action zone.

(** The errors that end the runtime. *)
Definition stops (s : Srv) (l : ServerStep) (e : ServerError) : Prop :=
  match e with
  | DevelopmentSnapshotBinding (CharacterRouted 1 cid) =>
      development_auto_admit (fixed s) = true /\ is_Some (reliable_by_connection s !! cid) /\
      exists c sid rt sender a, l = StepTransport (SessionAdmitted c sid rt sender) a
  | SpawnFailed e => queue_problem (zone_id (fixed s)) "spawn character" e /\
      exists c sid rt sender a, l = StepTransport (SessionAdmitted c sid rt sender) a
  | DespawnFailed e => queue_problem (zone_id (fixed s)) "despawn character" e /\ exists event a, l = StepTransport event a
  | RoutingFailed e => e = CommandQueueClosed (zone_id (fixed s)) /\ exists intent rest, l = StepAuthorized intent rest
  | AuthorizedQueueClosed => exists cid intent a, l = StepTransport (MoveIntentReceived cid intent) a
  | FrontierFailed e => frontier_used_up (rt_state (sys_frontier (sys s))) e /\ exists a, l = StepReveal a
  | _ => False
  end.

(** The connection has acknowledged the current frontier. *)
Definition current_synced (s : Srv) (cid : Z) : Prop := frontier_sync s !! cid = Some (Synced (current_revision s)).

(** A message about the contracts of one revealed quadrant. *)
Definition contract_message (y : Sys) (k : MessageKind) (payload : list Z) : Prop :=
  exists m c, manifest (sys_frontier y) = Ok m /\ c ∈ Manifest.quadrants m /\
    match k with
    | KTerrainAuthority => exists t, Presentation.Terrain.terrain_encode_wire t = Ok payload /\ Presentation.Terrain.quadrant_coord t = c
    | KEnvironmentPresentationPolicy =>
        exists p, Presentation.Environment.environment_encode_wire p = Ok payload /\ Presentation.Environment.policy_quadrant_coord p = c
    | KWaterSurfacePresentation =>
        exists w, Presentation.Water.water_encode_wire w = Ok payload /\ Presentation.Water.water_quadrant_coord w = c
    | _ => False
    end.

Definition current_manifest_payload (y : Sys) (payload : list Z) : Prop :=
  exists m, manifest (sys_frontier y) = Ok m /\ Manifest.encode m = Ok payload.

(** What a step in state [s] may do to the outside; [y] is the system after it. *)
Definition caused (s : Srv) (l : ServerStep) (y : Sys) (e : Effect) : Prop :=
  match e with
  | ReliableSent cid k payload =>
      (k = KFrontierManifest /\ current_manifest_payload y payload) \/
      (exists a, l = StepTransport (FrontierManifestAckReceived cid (current_revision s)) a /\
         frontier_sync s !! cid = Some (Pending (current_revision s)) /\ contract_message (sys s) k payload)
  | ReliableFailed _ _ | CapabilityClosed _ => True
  | DatagramSent cid frame =>
      exists snapshot rt, l = StepSnapshot snapshot /\ current_synced s cid /\
        state_of s cid = Some (WorldActive 1 (snapshot_character_id snapshot) (zone_id (fixed s))) /\
        connection_by_character (snapshot_bridge s) !! snapshot_character_id snapshot = Some cid /\
        Datagram.encode_datagram_frame KSelfMovementSnapshotV2 (SnapshotV2.encode_wire (snapshot_wire snapshot))
          (maximum_datagram_bytes rt) = Ok frame
  | CommandQueued zone command =>
      zone = zone_id (fixed s) /\
      match command with
      | SpawnCharacter c _ _ _ => exists cid sid rt sender a, l = StepTransport (SessionAdmitted cid sid rt sender) a
      | DespawnCharacter c _ => exists event a, l = StepTransport event a
      | SnapshotInventory _ _ => exists a, l = StepAutoSave a
      | ZoneMoveIntent c sequence input =>
          exists intent rest cid, l = StepAuthorized intent rest /\ current_synced s cid /\
            state_of s cid = Some (WorldActive 1 c zone) /\ connection_by_session s !! ai_session_id intent = Some cid /\
            sequence = ai_sequence intent /\ ai_payload intent = Move (axis_x input) (axis_y input)
      | ZoneMineIntent c power =>
          exists cid intent a, l = StepTransport (MineIntentReceived cid intent) a /\ current_synced s cid /\
            state_of s cid = Some (WorldActive 1 c zone) /\ power = 1
      | SpawnRock _ _ | InventoryIntent _ _ => False
      end
  | PositionTracked update => exists snapshot, l = StepSnapshot snapshot /\ update = position_update snapshot
  | InventorySaved c inventory revision => postgres_client (fixed s) = true
  end.

(** The outcome of a step. *)
Definition step_good (s : Srv) (l : ServerStep) (s' : Srv) (r : result ServerError unit) : Prop :=
  fixed s' = fixed s /\ extends (caused s l (sys s')) (outside s) (outside s') /\
  match r with Ok _ => inv s' | Err e => stops s l e end.

Lemma step_good_refl s l : inv s -> step_good s l s (Ok tt).
Proof. intros H. by split_goals. Qed.

(** ** Gameplay *)

Lemma synced_current s cid : inv s -> is_synced (frontier_sync s) cid = true -> current_synced s cid.
Proof.
  intros Hs H. unfold is_synced in H. destruct (frontier_sync s !! cid) as [st|] eqn:E; [|done].
  pose proof (sv_sync Hs _ _ E). unfold current_synced. destruct st; [done|]. cbn in *. congruence.
Qed.

Lemma synced_served s cid : inv s -> current_synced s cid -> is_Some (reliable_by_connection s !! cid).
Proof. intros Hs H. apply elem_of_dom. rewrite <- (sv_sync_dom Hs). apply elem_of_dom. by eexists. Qed.

(** Authorising an intent changes only the replay window. *)
Lemma authorize_Ok s cid sequence x y R r : inv s ->
  authorize_from_connection (registry s) cid sequence (Move x y) = (R, r) ->
  reg_wf R /\ by_connection R = by_connection (registry s) /\ (forall c, reg_state R c = state_of s c) /\
  forall i, r = Ok i -> exists a ch z, state_of s cid = Some (WorldActive a ch z) /\
    (ai_character_id i = ch /\ ai_zone_id i = z /\ ai_payload i = Move x y) /\
    by_connection (registry s) !! cid = Some (ai_session_id i) /\ ai_sequence i = sequence.
Proof.
  intros Hs E. pose proof (reg_exec_wf _ (OpAuthorize cid sequence (Move x y)) (sv_registry Hs)) as Hwf.
  cbn [reg_exec] in Hwf. rewrite E in Hwf. cbn in Hwf. split; [done|].
  unfold authorize_from_connection in E.
  apply with_live_cases in E as [(-> & e & -> & _)|(sid & live & live' & Hc & Hl & Ef & ->)]; [by split_goals|].
  assert (live_session live' = live_session live) as Es.
  { unfold authorize_live in Ef. destruct (authorize_intent _ _ _); [destruct (Replay.observe _ _)|]; by injection Ef as <- _. }
  split; [done|]. split.
  - intros c. rewrite (reg_state_update _ cid sid live) by (done || apply (sv_registry Hs)). case_decide as Hd; [subst c|done]. rewrite Es.
    symmetry. apply reg_state_Some. eauto.
  - intros i ->. unfold authorize_live in Ef. destruct (authorize_intent _ _ _) as [j|] eqn:Ei; [|done].
    destruct (Replay.observe _ _) as [w []]; try done. injection Ef as _ <-.
    unfold authorize_intent in Ei. destruct (session_state (live_session live)) as [| | |a ch z|] eqn:Est; try done.
    injection Ei as <-. exists a, ch, z. split; [apply reg_state_Some; eauto|]. split; [done|]. split; [|done]. cbn [ai_session_id].
    destruct (rw_sess _ (sv_registry Hs) sid live Hl) as (_ & -> & _). done.
Qed.

Lemma move_good s cid intent a (l := StepTransport (MoveIntentReceived cid intent) a) :
  inv s -> step_ok s l -> runs (step_run l) s (step_good s l).
Proof.
  intros Hs (_ & Hx & Hy). cbn [step_run l handle_transport_event]. unfold handle_move_intent. apply runs_get.
  destruct (is_synced (frontier_sync s) cid) eqn:Hsync; cbn [negb]; [|by apply runs_ret, step_good_refl].
  apply synced_current in Hsync; [|done]. apply synced_served in Hsync as Hserved; [|done].
  unfold try_ingest_move. destruct (authorize_from_connection _ _ _ _) as [R r] eqn:E.
  destruct (authorize_Ok s cid _ _ _ R r Hs E) as (Hwf & Hcon & Hst & Hi).
  assert (forall q, Forall (queued_ok (fixed s)) (contents q) -> inv (set_ingress s (mk_ingress R q))) as Hinv.
  { intros q Hq. by apply inv_ingress. }
  assert (forall q, Forall (queued_ok (fixed s)) (contents q) -> step_good s l (set_ingress s (mk_ingress R q)) (Ok tt)) as Hgood.
  { intros q Hq. split; [done|]. split; [by parts|by apply Hinv]. }
  destruct r as [i|e].
  2: { apply runs_modify, runs_ret, Hgood, Hs. }
  destruct (try_send (authorized_tx (ingress s)) i) as [q o] eqn:Et. apply runs_modify.
  destruct o as [[]|]; cbn.
  - apply runs_ret, Hgood. apply try_send_err in Et as ->. apply Hs.
  - split; [done|]. split; [by parts|]. cbn. eauto.
  - apply runs_ret, Hgood. apply try_send_ok in Et as ->. apply Forall_app_2; [apply Hs|]. constructor; [|constructor].
    destruct (Hi i eq_refl) as (ac & ch & z & Est & (Hch & Hz & Hp) & _).
    rewrite (served_registered blake3_hash blake3_keyed cfg s cid Hs Hserved) in Est. unfold serving in Est.
    destruct (development_auto_admit (fixed s)); [|done]. injection Est as <- <- <-.
    unfold queued_ok. rewrite Hch, Hz, Hp. done.
Qed.

(** A served connection of the development environment plays character 1. *)
Lemma served_binding s cid : inv s -> is_Some (reliable_by_connection s !! cid) ->
  world_binding_for_connection (registry s) cid = Ok (state_world_binding (serving (fixed s))).
Proof. intros Hs H. apply binding_lookup. by eapply served_registered. Qed.

Lemma zone_known s : inv s -> sender_for_zone (world_router (fixed s)) (zone_id (fixed s)) = Ok tt.
Proof. intros Hs. destruct (fx_zone (sv_fixed Hs)) as [Hz _]. unfold sender_for_zone. by rewrite decide_True. Qed.

(** A [try_send] to the zone. *)
Lemma zone_send_cases o zone command o' r : zone_try_send env o zone command = (o', r) ->
  (r = None /\ o' = emit o (CommandQueued zone command)) \/ (exists e, r = Some e /\ o' = o).
Proof. unfold zone_try_send. destruct (env_zone env _ _) as [e|]; intros [= <- <-]; eauto. Qed.

Lemma mine_good s cid intent a (l := StepTransport (MineIntentReceived cid intent) a) :
  inv s -> runs (step_run l) s (step_good s l).
Proof.
  intros Hs. cbn [step_run l handle_transport_event]. unfold handle_mine_intent. apply runs_get.
  destruct (is_synced (frontier_sync s) cid) eqn:Hsync; cbn [negb]; [|by apply runs_ret, step_good_refl].
  apply synced_current in Hsync; [|done]. apply synced_served in Hsync as Hserved; [|done].
  rewrite (served_binding s cid Hs Hserved). unfold serving.
  destruct (development_auto_admit (fixed s)) eqn:Ed; cbn; [|by apply runs_ret, step_good_refl].
  apply runs_try, runs_ret. unfold send_zone_command. rewrite (zone_known s Hs).
  destruct (zone_try_send _ _ _ _) as [o' r] eqn:E. apply zone_send_cases in E as [[-> ->]|(e & -> & ->)].
  - cbn [fst]. split; [done|]. split.
    + parts. apply extends_emit. cbn. split; [done|]. exists cid, intent, a. split_goals; [done|done| |done].
      rewrite (served_registered blake3_hash blake3_keyed cfg s cid Hs Hserved). unfold serving. by rewrite Ed.
    + apply inv_command; [done|split; cbn; lia|]. rewrite (expected_present_served s cid Hserved), Ed. cbn.
      by rewrite decide_True by set_solver.
  - assert (set_outside s (outside s) = s) as Eid by (by destruct s).
    destruct e; cbn [fst]; rewrite Eid; by apply step_good_refl.
Qed.

Lemma authorized_good s intent rest (l := StepAuthorized intent rest) :
  inv s -> step_ok s l -> runs (step_run l) s (step_good s l).
Proof.
  intros Hs Hq. cbn [step_run l step_ok] in *. apply runs_modify.
  pose proof (sv_queue Hs) as Hqueue. rewrite Hq in Hqueue. apply Forall_cons_1 in Hqueue as [(Hch & Hz & Hp) Hrest].
  set (s1 := set_ingress s _). assert (inv s1) as Hs1 by (by apply inv_ingress; [|apply Hs|..]).
  assert (step_good s l s1 (Ok tt)) as Hdrop by (split; [done|split; [by parts|done]]).
  unfold route_authorized_intent. apply runs_get.
  destruct (is_world_active_session _ _) eqn:Hactive; cbn [negb]; [|by apply runs_ret].
  destruct (connection_by_session s1 !! ai_session_id intent) as [cid|] eqn:Hcid; [|by apply runs_ret].
  destruct (is_synced (frontier_sync s1) cid) eqn:Hsync; cbn [negb]; [|by apply runs_ret].
  apply synced_current in Hsync; [|done]. apply synced_served in Hsync as Hserved; [|done].
  assert (state_of s cid = Some (WorldActive 1 1 (zone_id (fixed s))) /\ development_auto_admit (fixed s) = true) as [Hstate Hdev].
  { pose proof (served_registered blake3_hash blake3_keyed cfg s1 cid Hs1 Hserved) as Hst. unfold serving in Hst. parts.
    change (state_of s1 cid) with (state_of s cid) in Hst. change (fixed s1) with (fixed s) in Hst.
    destruct (development_auto_admit (fixed s)) eqn:Ed; [done|]. exfalso. apply reg_state_Some in Hst as (sid & live & Hc & Hl & Est).
    apply (sv_sessions Hs1) in Hcid. change (registry s1) with (mk_ingress (registry s) rest).(ing_registry) in Hcid.
    cbn in Hcid. unfold is_world_active_session in Hactive. cbn in Hactive.
    rewrite Hc in Hcid. injection Hcid as ->. rewrite Hl in Hactive. unfold phase in Hactive. rewrite Est in Hactive. done. }
  apply runs_bind. unfold runs, on_outside, route_authorized.
  change (fixed s1) with (fixed s). change (outside s1) with (outside s). rewrite Hz, (zone_known s Hs).
  unfold authorized_to_zone_command. destruct (ai_payload intent) as [x y] eqn:Epay. unfold from_axes.
  unfold Intents.MOVE_AXIS_MIN, Intents.MOVE_AXIS_MAX in Hp. rewrite decide_False by lia. cbn [ok_or mbind result_bind].
  destruct (zone_try_send _ _ _ _) as [o' r] eqn:E. apply zone_send_cases in E as [[-> ->]|(e & -> & ->)].
  - cbn [fst snd map_err mret M_ret]. split; [done|]. split.
    + parts. apply extends_emit. cbn. split; [done|]. exists intent, rest, cid. rewrite Hch.
      split_goals; [done|exact Hsync|done|done|done|done].
    + apply (inv_command _ _ _ s1); [done| |].
      * unfold command_ok, input_ok. cbn. lia.
      * rewrite (expected_present_served s1 cid Hserved). change (fixed s1) with (fixed s). rewrite Hdev, Hch. cbn. by rewrite decide_True by set_solver.
  - assert (set_outside s1 (outside s) = s1) as Eid by done.
    destruct e; cbn [fst snd map_err mret M_ret]; rewrite Eid; [done|].
    split; [done|]. split; [by parts|]. cbn. eauto.
Qed.

(** ** Snapshots *)

Lemma snapshot_frame rt x : fits_snapshot rt -> exists frame,
  Datagram.encode_datagram_frame KSelfMovementSnapshotV2 (SnapshotV2.encode_wire x) (maximum_datagram_bytes rt) = Ok frame.
Proof.
  intros H. pose proof (proj2 (proj2 (proj2 Datagram.datagram_roundtrip) KSelfMovementSnapshotV2 (SnapshotV2.encode_wire x)
    (maximum_datagram_bytes rt))) as Hok. unfold len in Hok. rewrite SnapshotV2.length_encode_wire in Hok. unfold fits_snapshot in H.
  destruct (Datagram.encode_datagram_frame _ _ _) as [frame|e]; [by exists frame|].
  exfalso. discriminate Hok. unfold in_u. change (Z.of_nat 50) with 50. lia.
Qed.

Lemma snapshot_good s snapshot (l := StepSnapshot snapshot) : inv s -> runs (step_run l) s (step_good s l).
Proof.
  intros Hs. cbn [step_run l]. unfold route_movement_snapshot. apply runs_get, runs_bind.
  set (o1 := if position_buffer (fixed s) then emit (outside s) (PositionTracked (position_update snapshot)) else outside s).
  assert (forall (m : M unit), runs m (set_outside s o1) (step_good s l) ->
    runs (if position_buffer (fixed s)
          then modify (fun s => set_outside s (emit (outside s) (PositionTracked (position_update snapshot)))) else mret tt) s
      (fun s' r => match r with Ok _ => runs m s' (step_good s l) | Err e => step_good s l s' (Err e) end)) as Hstart.
  { intros m. unfold o1. destruct (position_buffer _); [done|]. by destruct s. }
  apply Hstart. clear Hstart. set (s1 := set_outside s o1).
  assert (extends (caused s l (sys s)) (outside s) o1) as Hext.
  { unfold o1. destruct (position_buffer _); [|done]. apply extends_emit. by exists snapshot. }
  assert (inv s1) as Hs1.
  { unfold s1, o1. destruct (position_buffer _); [by apply inv_emit|]. by destruct s. }
  assert (step_good s l s1 (Ok tt)) as Hgood by (by split_goals).
  assert (set_outside s1 o1 = s1) as Eid by done.
  unfold connection_id_for_character.
  destruct (connection_by_character (snapshot_bridge s) !! snapshot_character_id snapshot) as [cid|] eqn:Ec.
  2: { apply runs_bind. unfold runs, on_outside, bridge_route, connection_id_for_character. rewrite Ec. done. }
  destruct (is_synced (frontier_sync s) cid) eqn:Hsync; cbn [negb]; [|by apply runs_ret].
  apply synced_current in Hsync; [|done]. apply runs_bind. unfold runs, on_outside, bridge_route, connection_id_for_character.
  rewrite Ec. change (outside s1) with o1.
  destruct (realtime_by_connection (snapshot_bridge s) !! cid) as [rt|] eqn:Ert; [|done].
  destruct (sv_realtime Hs cid rt Ert) as [Hid Hfit]. unfold realtime_try_send.
  destruct (snapshot_frame rt (snapshot_wire snapshot) Hfit) as [frame Ef]. rewrite Ef, Hid.
  destruct (env_datagram env (effects o1) cid); [done|]. cbn [fst snd map_err mret M_ret].
  split; [done|]. split.
  - parts. etransitivity; [exact Hext|]. apply extends_emit. exists snapshot, rt. split; [done|]. split; [done|]. split; [|done].
    apply (sv_bound Hs) in Ec as (-> & Hdev & Hserved).
    rewrite (served_registered blake3_hash blake3_keyed cfg s cid Hs Hserved). unfold serving. by rewrite Hdev.
  - by apply (inv_emit _ _ _ s1).
Qed.

(** ** The scheduler and its worker *)

Lemma preparation_good s now (l := StepPreparation now) : inv s -> runs (step_run l) s (step_good s l).
Proof.
  intros Hs. cbn [step_run l]. unfold evaluate_preparation_pipeline. apply runs_get.
  destruct (has_scheduler (fixed s)) eqn:Hsch; [|by apply runs_ret, step_good_refl].
  pose proof (sv_system Hs) as Hy. rewrite Hsch in Hy.
  destruct (system_evaluate _ _ _ _ (sys s) now (fx_scheduler (sv_fixed Hs) Hsch) Hy) as (y & report & -> & Hy' & Hrev & _).
  apply runs_modify. eapply runs_lift; [done|]. apply runs_ret. split; [done|]. split; [by parts|].
  apply inv_system; [done|by rewrite Hsch|exact Hrev].
Qed.

Lemma worker_good s w store (l := StepWorker w store) : inv s -> step_ok s l -> runs (step_run l) s (step_good s l).
Proof.
  intros Hs Hw. cbn [step_run l]. split; [done|]. split; [by parts|]. apply inv_system; [done| |done].
  apply system_worker; [|done]. apply (sv_system Hs).
Qed.

(** ** Saved inventories *)

Lemma route_control_cases s command action o' r : inv s ->
  route_control env (world_router (fixed s)) (outside s) (zone_id (fixed s)) command action = (o', r) ->
  (r = Ok tt /\ o' = emit (outside s) (CommandQueued (zone_id (fixed s)) command)) \/
  (exists e, r = Err e /\ queue_problem (zone_id (fixed s)) action e /\ o' = outside s).
Proof.
  intros Hs. unfold route_control. rewrite (zone_known s Hs). destruct (zone_try_send _ _ _ _) as [o1 r1] eqn:E.
  apply zone_send_cases in E as [[-> ->]|(e & -> & ->)]; [intros [= <- <-]; by left|].
  destruct e; intros [= <- <-]; right; eexists; (split; [done|]); (split; [|done]); unfold queue_problem; auto.
Qed.

(** In the middle of a handler whose parts each keep the invariant: [y] and [g] are the
    system and the gate by now. *)
Definition ongoing (s : Srv) (l : ServerStep) (y : Sys) (g : option DevelopmentFrontierRevealGate) (s' : Srv) : Prop :=
  fixed s' = fixed s /\ (sys s' = y /\ reveal_gate s' = g) /\ extends (caused s l y) (outside s) (outside s') /\ inv s'.

Lemma ongoing_refl s l : inv s -> ongoing s l (sys s) (reveal_gate s) s.
Proof. intros H. by split_goals. Qed.

Lemma ongoing_outside s l y g s1 o (P : Effect -> Prop) : ongoing s l y g s1 -> extends P (outside s1) o ->
  (forall e, P e -> no_command e /\ caused s l y e) -> ongoing s l y g (set_outside s1 o).
Proof.
  intros (Hf & Hy & Hext & Hinv) Ho HP. split; [done|]. split; [done|]. split.
  - parts. etransitivity; [exact Hext|]. eapply extends_mono; [|exact Ho]. apply HP.
  - apply inv_outside; [done|]. eapply extends_commands; [|exact Ho]. apply HP.
Qed.

Lemma save_reply_runs s character responder a : runs (save_reply character responder a) s
  (fun s' r => r = Ok tt /\ exists o, s' = set_outside s o /\
     extends (fun e => exists inventory revision, e = InventorySaved character inventory revision) (outside s) o).
Proof.
  unfold save_reply. destruct (ans_reply a responder) as [[inventory revision]|].
  - split; [done|]. eexists. split; [done|]. apply extends_emit. eauto.
  - split; [done|]. exists (outside s). split; [by destruct s|done].
Qed.

Lemma auto_save_loop_ok s a (l := StepAutoSave a) connections : postgres_client (fixed s) = true ->
  forall s1, ongoing s l (sys s) (reveal_gate s) s1 ->
  runs (auto_save_loop env connections a) s1 (fun s2 r => r = Ok tt /\ ongoing s l (sys s) (reveal_gate s) s2).
Proof.
  intros Hpg. induction connections as [|cid rest IH]; intros s1 Hs1; cbn [auto_save_loop]; [by apply runs_ret|].
  apply runs_get, runs_bind.
  assert (forall (m : M unit), runs m s1 (fun s2 r => r = Ok tt /\ ongoing s l (sys s) (reveal_gate s) s2) ->
    runs m s1 (fun s' r => match r with
      | Ok _ => runs (auto_save_loop env rest a) s' (fun s2 r => r = Ok tt /\ ongoing s l (sys s) (reveal_gate s) s2)
      | Err e => Err e = Ok tt /\ ongoing s l (sys s) (reveal_gate s) s' end)) as Hrest.
  { intros m Hm. eapply runs_mono; [exact Hm|]. intros s2 r [-> H2]. by apply IH. }
  apply Hrest. clear Hrest IH.
  destruct (world_binding_for_connection (registry s1) cid) as [[binding|]|] eqn:Eb; [|by apply runs_ret..].
  pose proof Hs1 as (Hf & Hy & Hext & Hinv).
  assert (wb_zone_id binding = zone_id (fixed s1)) as Hz.
  { unfold world_binding_for_connection, live_for_connection, session_id_for_connection in Eb.
    apply bind_Ok in Eb as (live & (sid & Hc%ok_or_Ok & Hl%ok_or_Ok)%bind_Ok & [= Ew]).
    assert (state_of s1 cid = Some (session_state (live_session live))) as Est by (apply reg_state_Some; eauto).
    destruct (reliable_by_connection s1 !! cid) eqn:Er.
    - rewrite (served_registered blake3_hash blake3_keyed cfg s1 cid Hinv ltac:(by rewrite Er)) in Est.
      injection Est as Est. unfold world_binding in Ew. rewrite <- Est in Ew. unfold serving in Ew.
      destruct (development_auto_admit (fixed s1)); [|done]. by injection Ew as <-.
    - apply (sv_closed Hinv) in Est; [|done]. unfold world_binding in Ew. by rewrite Est in Ew. }
  apply runs_try. unfold snapshot_inventory. rewrite Hz.
  destruct (route_control _ _ _ _ _ _) as [o' r] eqn:E.
  apply route_control_cases in E as [[-> ->]|(e & -> & _ & ->)]; [| |done].
  - cbn [fst snd is_ok]. eapply runs_mono; [apply save_reply_runs|]. intros s2 r (-> & o & -> & Ho). split; [done|].
    eapply ongoing_outside; [|exact Ho|by intros ? (? & ? & ->)]. split; [done|]. split; [done|]. split.
    + parts. etransitivity; [exact Hext|]. apply extends_emit. cbn. split; [by rewrite Hf|]. by exists a.
    + by apply inv_command.
  - cbn [fst snd is_ok]. apply runs_ret. split; [done|]. by assert (set_outside s1 (outside s1) = s1) as -> by (by destruct s1).
Qed.

Lemma auto_save_good s a (l := StepAutoSave a) : inv s -> runs (step_run l) s (step_good s l).
Proof.
  intros Hs. cbn [step_run l]. unfold auto_save_active_inventories. apply runs_get.
  destruct (postgres_client (fixed s)) eqn:Hpg; [|by apply runs_ret, step_good_refl].
  eapply runs_mono; [apply (auto_save_loop_ok s a (ans_connections a) Hpg s), ongoing_refl, Hs|].
  intros s' r (-> & Hf & [Hy _] & Hext & Hinv). split; [done|]. split; [by rewrite Hy|done].
Qed.

(** ** Delivery of the manifest *)

Lemma send_ongoing s l y g s1 sender payload : ongoing s l y g s1 -> current_manifest_payload y payload ->
  ongoing s l y g (set_outside s1 (reliable_send env (outside s1) sender KFrontierManifest payload).1).
Proof.
  intros H Hp. eapply ongoing_outside; [done|apply reliable_send_extends|].
  intros e He. split; [by eapply send_no_command|]. destruct He as [->|[->| ->]]; [by left|done..].
Qed.

Lemma close_ongoing s l y g s1 sender : ongoing s l y g s1 ->
  ongoing s l y g (set_outside s1 (fail_close (outside s1) sender)).
Proof.
  intros H. eapply ongoing_outside; [done|apply fail_close_extends|]. by intros e <-.
Qed.

Lemma forget_ongoing s l y g s1 cid : ongoing s l y g s1 ->
  ongoing s l y g (set_delivery s1 (delivery_remove (frontier_delivery s1) cid)).
Proof.
  intros (Hf & Hy & Hext & Hinv). do 3 (split; [done|]). apply inv_delivery; [done|..]; unfold delivery_remove.
  - intros c p [_ H]%lookup_delete_Some. by eapply (sv_delivery Hinv).
  - intros c p [_ H]%lookup_delete_Some. by apply (sv_pending Hinv).
Qed.

(** A retry for the current revision, or a timeout. *)
Definition action_current (rev : Z) (action : FrontierDeliveryAction) : Prop :=
  match action with Retry _ revision _ => revision = rev | Timeout _ _ _ => True end.

Lemma deliver_actions_ok s l m payload actions : current_manifest_payload (sys s) payload ->
  Forall (action_current (Manifest.revision m)) actions ->
  forall s1, ongoing s l (sys s) (reveal_gate s) s1 ->
  runs (deliver_actions env m payload actions) s1 (fun s2 r => r = Ok tt /\ ongoing s l (sys s) (reveal_gate s) s2).
Proof.
  intros Hp. induction actions as [|action rest IH]; intros Hact s1 Hs1; cbn [deliver_actions]; [by apply runs_ret|].
  apply Forall_cons_1 in Hact as [Hcur Hrest].
  apply runs_bind. eapply (runs_mono _ _ (fun s2 r => r = Ok tt /\ ongoing s l (sys s) (reveal_gate s) s2)).
  2: { intros s2 r [-> Hs2]. by apply IH. }
  unfold deliver_action. apply runs_get. destruct action as [cid revision attempt|cid revision retries].
  - destruct (reliable_by_connection s1 !! cid) as [sender|]; [|by apply runs_ret].
    rewrite decide_False by (cbn in Hcur; congruence). apply runs_try.
    pose proof (send_ongoing _ _ _ _ _ sender payload Hs1 Hp) as Hsent.
    destruct (reliable_send _ _ _ _ _) as [o' []]; cbn [fst snd] in *; [by apply runs_ret|].
    split; [done|]. by apply forget_ongoing.
  - destruct (reliable_by_connection s1 !! cid) as [sender|]; [|by apply runs_ret].
    split; [done|]. by apply close_ongoing.
Qed.

Lemma encoded_manifest_ok s (Φ : Srv -> result ServerError unit -> Prop) f : inv s ->
  (forall m payload, manifest (sys_frontier (sys s)) = Ok m -> Manifest.encode m = Ok payload ->
     Manifest.revision m = current_revision s -> runs (f (m, payload)) s Φ) ->
  runs (mbind f encoded_manifest) s Φ.
Proof.
  intros Hs H. destruct (system_manifest _ _ _ _ _ _ (sv_system Hs)) as (m & payload & Hm & He & _ & Hr & _).
  assert (encoded_manifest s = (s, Ok (m, payload))) as E.
  { unfold encoded_manifest, current_manifest, get, lift, mbind, M_bind, mret, M_ret. rewrite Hm. cbn. by rewrite He. }
  apply runs_bind. unfold runs at 1. rewrite E. by apply H.
Qed.

Lemma delivery_good s a (l := StepDelivery a) : inv s -> step_ok s l -> runs (step_run l) s (step_good s l).
Proof.
  intros Hs Hids. cbn [step_run l step_ok] in *. unfold evaluate_frontier_delivery. apply runs_get.
  destruct (evaluate_delivery _ _ _ _) as [pending actions] eqn:E.
  destruct (evaluate_delivery_spec _ _ _ _ _ _ (fx_policy _ _ _ _ (sv_fixed Hs)) (sv_delivery Hs) Hids E) as (Hok & Hp & Ha).
  assert (Forall (action_current (current_revision s)) actions) as Hact.
  { apply list.Forall_forall. intros action Hin.
    assert (action ∈ filter (fun x => action_connection x = action_connection action) actions) as H
      by (by apply list_elem_of_filter).
    rewrite Ha in H. destruct (frontier_delivery s !! action_connection action) as [p|] eqn:Ep; cbn in H; [|by apply not_elem_of_nil in H].
    apply (sv_pending Hs) in Ep as Hpend. apply (sv_sync Hs) in Hpend. cbn in Hpend.
    unfold delivery_step in H. repeat (destruct (decide _); cbn in H); rewrite ?list_elem_of_singleton in H;
      [destruct action; cbn; [congruence|done].. |by apply not_elem_of_nil in H]. }
  apply runs_modify. set (s1 := set_delivery s pending). assert (inv s1) as Hs1.
  { apply inv_delivery; [done|done|]. intros c p' H. rewrite Hp in H.
    destruct (frontier_delivery s !! c) as [p|] eqn:Ep; [|done]. apply (sv_pending Hs) in Ep. cbn in H.
    unfold delivery_step in H. repeat (destruct (decide _); cbn in H); try done; by injection H as <-. }
  destruct actions as [|action rest].
  { apply runs_ret. split; [done|]. by split. }
  apply encoded_manifest_ok; [done|]. intros m payload Hm He Hrev.
  eapply runs_mono; [apply (deliver_actions_ok s l)|].
  - by exists m.
  - rewrite Hrev. exact Hact.
  - by split_goals.
  - intros s2 r (-> & Hf & [Hy _] & Hext & Hinv). split; [done|]. split; [by rewrite Hy|done].
Qed.

(** ** The reveal *)

Lemma track_all_runs connections revision now : forall s, runs (track_all connections revision now) s
  (fun s' r => r = Ok tt /\
     s' = set_delivery s (track_from (delivery_policy (fixed s)) (frontier_delivery s) connections revision now)).
Proof.
  induction connections as [|cid rest IH]; intros s; cbn [track_all track_from].
  - split; [done|]. by destruct s.
  - apply runs_modify. eapply runs_mono; [apply IH|]. intros s' r [-> ->]. by split.
Qed.

Lemma broadcast_ok s l y g payload connections : current_manifest_payload y payload -> forall s1, ongoing s l y g s1 ->
  runs (broadcast_frontier_manifest env connections payload) s1 (fun s2 r => is_ok r = true /\ ongoing s l y g s2).
Proof.
  intros Hp. induction connections as [|cid rest IH]; intros s1 Hs1; cbn [broadcast_frontier_manifest]; [by apply runs_ret|].
  apply runs_get. destruct (reliable_by_connection s1 !! cid) as [sender|]; [|by apply IH].
  apply runs_try, runs_bind. eapply runs_mono; [apply IH, send_ongoing; done|].
  intros s2 [[sent failed]|e] [Hr Hs2]; [|done]. by apply runs_ret.
Qed.

Lemma reveal_good s a (l := StepReveal a) : inv s -> step_ok s l -> runs (step_run l) s (step_good s l).
Proof.
  intros Hs Hids. cbn [step_run l step_ok] in *. unfold evaluate_development_frontier_reveal. apply runs_get.
  destruct (reveal_gate s) as [g|] eqn:Eg; [|by apply runs_ret, step_good_refl].
  destruct (gate_complete g || _) eqn:Edue; [by apply runs_ret, step_good_refl|].
  apply orb_false_iff in Edue as [Hcomplete _]. unfold commit_development_frontier_reveal. apply runs_get.
  rewrite Eg, Hcomplete. destruct (commit_reveal _ _ _) as [f o] eqn:Ecommit.
  pose proof (sv_system Hs) as Hsys. rewrite Eg in Hsys.
  destruct (system_commit _ _ _ _ _ _ _ _ Hsys Ecommit) as [Hy Ho]. apply runs_modify.
  set (y := with_runtime (sys s) f) in *.
  assert (f = sys_frontier (sys s) -> set_sys s y = s) as Hsame.
  { intros ->. unfold y. rewrite with_runtime_id. by destruct s. }
  assert (forall s2, ongoing s l (sys s2) (Some g) s2 ->
    step_good s l (set_gate s2 (option_map mark_complete (reveal_gate s2))) (Ok tt)) as Hfinish.
  { intros s2 (Hf & [_ Hg] & Hext & Hinv). rewrite Hg. split; [done|]. split; [done|]. by eapply inv_gate. }
  apply runs_bind. unfold runs at 1, lift. destruct o as [[evaluation|c rev|t newly]|e]; cbn [fst snd map_err].
  - done.
  - rewrite (Hsame Ho). apply Hfinish. by split_goals.
  - destruct Ho as [Hrev Hnext].
    destruct (system_manifest _ _ _ _ _ _ Hy) as (m & payload & Hm & He & _ & Hmr & Hnz & _).
    cbn [sys_frontier with_runtime y] in Hm, Hmr, Hnz.
    apply runs_bind. unfold runs at 1, mark_all_pending, validate_revision. parts.
    rewrite <- Hrev, (proj2 (Z.eqb_neq _ _) Hnz). cbn [fst snd map_err].
    apply runs_bind. eapply runs_mono; [apply track_all_runs|]. intros s2 r [-> ->]. parts.
    match goal with |- runs _ ?s2 _ => set (s3 := s2); assert (s3 = advanced s y (ans_connections a) (ans_now a)) as Es3 end.
    { unfold s3, advanced. cbn [sys_frontier with_runtime y]. by rewrite Hrev. }
    assert (inv s3) as Hs3.
    { rewrite Es3. apply inv_advance; [done|by rewrite Eg|]. intros c. rewrite Hids, list_elem_of_fmap. split.
      - intros ([c' p] & -> & Hc%elem_of_map_to_list). by exists p.
      - intros [p Hp]. exists (c, p). by rewrite elem_of_map_to_list. }
    clearbody s3. assert (sys s3 = y /\ fixed s3 = fixed s /\ outside s3 = outside s /\ reveal_gate s3 = Some g)
      as (Ey & Ef & Eo & Eg3) by (by rewrite Es3).
    apply encoded_manifest_ok; [done|]. intros m' payload' Hm' He' _.
    assert (current_manifest_payload y payload') as Hpayload by (exists m'; by rewrite <- Ey).
    apply runs_bind. eapply runs_mono; [apply (broadcast_ok s l y (Some g) payload' (ans_connections a) Hpayload)|].
    + split; [done|]. split; [done|]. split; [by rewrite Eo|done].
    + intros s4 [x|e] [Hx Hs4]; [|done]. apply Hfinish. pose proof (proj1 (proj1 (proj2 Hs4))) as ->. done.
  - destruct Ho as [-> Hup]. rewrite (Hsame eq_refl). split; [done|]. split; [done|]. cbn. eauto.
Qed.

(** ** Connections that end *)

(** A part of a handler, with its result. *)
Definition step_part {A} (s : Srv) (l : ServerStep) (y : Sys) (g : option DevelopmentFrontierRevealGate)
  (s' : Srv) (r : result ServerError A) : Prop :=
  fixed s' = fixed s /\ (sys s' = y /\ reveal_gate s' = g) /\ extends (caused s l y) (outside s) (outside s') /\
  match r with Ok _ => inv s' | Err e => stops s l e end.

Lemma step_part_good s l s' r g : step_part s l (sys s) g s' r -> step_good s l s' r.
Proof. intros (Hf & [Hy _] & Hext & Hr). split; [done|]. by rewrite Hy. Qed.

Lemma ongoing_part {A} s l y g s' (a : A) : ongoing s l y g s' -> step_part s l y g s' (Ok a).
Proof. intros (? & ? & ? & ?). by split_goals. Qed.

Lemma runs_binding {B} context cid st (f : option WorldBinding -> M B) s post : reg_state (registry s) cid = Some st ->
  runs (f (state_world_binding st)) s post -> runs (mbind f (world_binding_of context cid)) s post.
Proof.
  intros Hst H. apply runs_bind. unfold world_binding_of. apply runs_get. unfold runs at 1, lift.
  by rewrite (binding_lookup _ _ _ Hst).
Qed.

Lemma runs_registry {A B} context (g : LiveSessionRegistry -> LiveSessionRegistry * result SessionRegistryError A)
  (f : A -> M B) s R a post : g (registry s) = (R, Ok a) ->
  runs (f a) (set_ingress s (mk_ingress R (authorized_tx (ingress s)))) post ->
  runs (mbind f (on_registry context g)) s post.
Proof. intros E H. apply runs_bind. unfold runs at 1, on_registry. by rewrite E. Qed.

(** The binding of a registered connection is that of its character, if it is served. *)
Definition live_binding (s : Srv) (cid : Z) : option WorldBinding :=
  match reliable_by_connection s !! cid with
  | Some _ => if development_auto_admit (fixed s)
              then Some {| wb_account_id := 1; wb_character_id := 1; wb_zone_id := zone_id (fixed s) |} else None
  | None => None
  end.

Lemma registered_binding s cid st : inv s -> state_of s cid = Some st -> state_world_binding st = live_binding s cid.
Proof.
  intros Hs Hst. unfold live_binding. destruct (reliable_by_connection s !! cid) eqn:E.
  - rewrite (served_registered blake3_hash blake3_keyed cfg s cid Hs ltac:(by rewrite E)) in Hst. injection Hst as <-.
    unfold serving. by destruct (development_auto_admit (fixed s)).
  - by rewrite (sv_closed Hs cid st Hst E).
Qed.

Lemma binding_commands s cid responder : release_commands s cid responder =
  match live_binding s cid with Some b => [DespawnCharacter (wb_character_id b) responder] | None => [] end.
Proof.
  unfold release_commands, live_binding. destruct (reliable_by_connection s !! cid); [|done].
  by destruct (development_auto_admit (fixed s)).
Qed.

Lemma binding_zone s cid b : live_binding s cid = Some b -> wb_zone_id b = zone_id (fixed s) /\ wb_character_id b = 1.
Proof.
  unfold live_binding. destruct (reliable_by_connection s !! cid); [|done].
  destruct (development_auto_admit (fixed s)); [|done]. by intros [= <-].
Qed.

Lemma emitted_commands zone o command : commands zone (effects (emit o (CommandQueued zone command))) =
  commands zone (effects o) ++ [command].
Proof. unfold emit. cbn [effects]. rewrite commands_app. cbn. by rewrite decide_True. Qed.

Lemma isolate_connection_ok s event a y g s1 cid (l := StepTransport event a) : ongoing s l y g s1 ->
  is_Some (reliable_by_connection s1 !! cid) ->
  runs (isolate_connection_after_reliable_delivery_failure env cid) s1 (step_part s l y g).
Proof.
  intros (Hf & Hy & Hext & Hinv) Hserved. unfold isolate_connection_after_reliable_delivery_failure.
  pose proof (served_registered _ _ _ _ cid Hinv Hserved) as Hst.
  eapply runs_binding; [exact Hst|]. rewrite (registered_binding s1 cid _ Hinv Hst).
  destruct (begin_closing_Ok _ _ _ (sv_registry Hinv) Hst) as (R & HR & Hwf & Hcon & HstR).
  eapply runs_registry; [exact HR|]. do 4 apply runs_modify. apply runs_get.
  destruct (live_binding s1 cid) as [b|] eqn:Eb.
  - destruct (binding_zone s1 cid b Eb) as [Hz Hch]. unfold runs, on_outside, despawn_character. parts. rewrite Hz.
    destruct (route_control _ _ _ _ _ _) as [o' r] eqn:E.
    apply (route_control_cases s1) in E as [[-> ->]|(e & -> & Hprob & ->)]; [| |done]; cbn [fst snd map_err].
    + split; [done|]. split; [done|]. split.
      * parts. etransitivity; [exact Hext|]. apply extends_emit. cbn. split; [by rewrite Hf|]. by exists event, a.
      * apply (inv_release _ _ _ s1 cid R _ None); [done..|]. rewrite emitted_commands, binding_commands, Eb. done.
    + split; [done|]. split; [done|]. split; [done|]. cbn. rewrite <- Hf. eauto.
  - apply runs_ret. split; [done|]. split; [done|]. split; [done|].
    apply (inv_release _ _ _ s1 cid R _ None); [done..|]. by rewrite binding_commands, Eb, app_nil_r.
Qed.

Lemma disconnected_good s cid sid a (l := StepTransport (Disconnected cid sid) a) :
  inv s -> step_ok s l -> runs (step_run l) s (step_good s l).
Proof.
  intros Hs Hcid. cbn [step_run l step_ok handle_transport_event] in *. unfold handle_disconnected.
  destruct (rw_conn _ (sv_registry Hs) cid sid Hcid) as (live & Hl & _).
  assert (state_of s cid = Some (session_state (live_session live))) as Hst by (apply reg_state_Some; eauto).
  eapply runs_binding; [exact Hst|]. rewrite (registered_binding s cid _ Hs Hst).
  destruct (begin_closing_Ok _ _ _ (sv_registry Hs) Hst) as (R & HR & Hwf & Hcon & HstR).
  eapply runs_registry; [exact HR|]. apply runs_get.
  set (s1 := set_ingress s _). set (responder := new_responder s1).
  assert (forall o, extends (caused s l (sys s)) (outside s) o ->
    commands (zone_id (fixed s)) (effects o) =
      commands (zone_id (fixed s)) (effects (outside s)) ++ release_commands s cid (Some responder) ->
    runs (_ ← remove_sync cid; _ ← remove_delivery cid; _ ← remove_session_mapping sid; _ ← remove_realtime cid;
          _ ← remove_reliable cid; removed ← on_registry SessionRemoval (fun r => remove_by_connection r cid);
          if decide (removed <> sid) then bail (RemovedOtherSession removed sid) else mret tt)
      (set_outside s1 o) (step_good s l)) as Hrest.
  { intros o Hext Hcmd. do 5 apply runs_modify.
    pose proof (inv_release _ _ _ s cid R o (Some responder) Hs Hwf Hcon HstR Hcmd) as Hrel.
    assert (by_connection (registry (released s cid R o)) !! cid = Some sid) as Hc by (cbn; by rewrite Hcon).
    assert (reliable_by_connection (released s cid R o) !! cid = None) as Hn by apply lookup_delete_eq.
    destruct (inv_forget _ _ _ _ cid sid Hrel Hc Hn) as (R2 & HR2 & Hinv).
    eapply runs_registry; [exact HR2|]. rewrite decide_False by naive_solver. apply runs_ret.
    split; [done|]. split; [by parts|exact Hinv]. }
  apply runs_bind. destruct (live_binding s cid) as [b|] eqn:Eb.
  - destruct (binding_zone s cid b Eb) as [Hz Hch]. apply runs_bind. unfold runs at 1, on_outside, despawn_character.
    change (fixed s1) with (fixed s). change (outside s1) with (outside s). rewrite Hz.
    destruct (route_control _ _ _ _ _ _) as [o' r] eqn:E.
    apply (route_control_cases s) in E as [[-> ->]|(e & -> & Hprob & ->)]; [| |done]; cbn [fst snd map_err].
    + set (o1 := emit (outside s) _).
      assert (extends (caused s l (sys s)) (outside s) o1) as Hext1.
      { apply extends_emit. cbn. split; [done|]. by exists (Disconnected cid sid), a. }
      assert (commands (zone_id (fixed s)) (effects o1) =
        commands (zone_id (fixed s)) (effects (outside s)) ++ release_commands s cid (Some responder)) as Hcmd1.
      { unfold o1. by rewrite emitted_commands, binding_commands, Eb. }
      destruct (postgres_client (fixed s)) eqn:Hpg; [|by apply Hrest].
      eapply runs_mono; [apply save_reply_runs|]. intros s2 r [-> (o & -> & Ho)]. apply Hrest.
      * etransitivity; [exact Hext1|]. eapply extends_mono; [|exact Ho]. by intros ? (? & ? & ->).
      * erewrite extends_commands; [exact Hcmd1| |exact Ho]. by intros ? (? & ? & ->).
    + split; [done|]. split; [by parts|]. split; [exact Hprob|eauto].
  - apply runs_ret. assert (s1 = set_outside s1 (outside s)) as -> by done.
    apply Hrest; [done|]. by rewrite binding_commands, Eb, app_nil_r.
Qed.

(** ** Acknowledgements and the contracts that follow them *)

Lemma send_if_supported_extends o sender minimum k payload :
  extends (send_effect (reliable_connection_id sender) k payload) o (send_if_supported env o sender minimum k payload).1.
Proof.
  unfold send_if_supported. destruct (supports_protocol_minor _ _); [|done].
  pose proof (reliable_send_extends env o sender k payload) as H. by destruct (reliable_send _ _ _ _ _) as [o' []].
Qed.

Section Ack.
Context (s : Srv) (cid : Z) (a : Answers) (sender : ReliableConnectionSender).
Context (l := StepTransport (FrontierManifestAckReceived cid (current_revision s)) a).
Context (Hs : inv s) (Hretained : ans_retained a ≡ₚ map_to_list (sys_retained (sys s))).
Context (Hpending : frontier_sync s !! cid = Some (Pending (current_revision s))).
Context (Hsched : has_scheduler (fixed s) = true) (Hid : reliable_connection_id sender = cid).

Abbreviation so_far s1 := (ongoing s l (sys s) (reveal_gate s) s1 /\ reliable_by_connection s1 !! cid = Some sender).

Lemma contract_sent s1 k payload o : so_far s1 -> contract_message (sys s) k payload ->
  extends (send_effect cid k payload) (outside s1) o -> so_far (set_outside s1 o).
Proof.
  intros [H Hr] Hk Ho. split; [|done]. eapply ongoing_outside; [done|exact Ho|].
  intros e He. split; [by eapply send_no_command|]. destruct He as [->|[->| ->]]; [|done..]. right. by exists a.
Qed.

(** Sending goes on with the connection served, or ends with it isolated. *)
Definition quadrant_done (s2 : Srv) (r : result ServerError bool) : Prop :=
  step_part s l (sys s) (reveal_gate s) s2 r /\ (r = Ok true -> so_far s2).

Lemma isolate_ok s1 : so_far s1 -> runs (isolate env cid sender) s1 quadrant_done.
Proof.
  intros [H Hr]. unfold isolate. apply runs_modify, runs_bind.
  eapply runs_mono; [eapply isolate_connection_ok; [by apply close_ongoing|by exists sender]|].
  intros s2 [[]|e] (Hf & Hy & Hext & Hinv); (split; [|done]); by split_goals.
Qed.

Lemma send_quadrant_ok s1 coord m : so_far s1 -> manifest (sys_frontier (sys s)) = Ok m ->
  coord ∈ Manifest.quadrants m -> lattice_ok coord ->
  runs (send_quadrant blake3_hash blake3_keyed cfg env cid sender a coord) s1 quadrant_done.
Proof.
  intros Hs1 Hm Hin Hlat. pose proof (sv_system Hs) as Hy. rewrite Hsched in Hy.
  destruct (system_contracts _ _ _ _ _ _ coord (fx_scheduler (sv_fixed Hs) Hsched) Hy Hretained Hlat)
    as (t & p & w & e & Hc & Hcw & Ht & Hp & Hw & Et & Ep & Ew).
  assert (contract_message (sys s) KTerrainAuthority (terrain_payload e)) as Mt by (exists m, coord; eauto).
  assert (contract_message (sys s) KEnvironmentPresentationPolicy (environment_payload e)) as Mp by (exists m, coord; eauto).
  assert (contract_message (sys s) KWaterSurfacePresentation (water_payload e)) as Mw by (exists m, coord; eauto).
  unfold send_quadrant.
  assert (forall s2, so_far s2 -> quadrant_done s2 (Ok true)) as Hmore.
  { intros s2 [H2 Hr2]. split; [|done]. by apply ongoing_part. }
  set (water := if supports_protocol_minor sender WATER_SURFACE_PRESENTATION_MIN_PROTOCOL_MINOR then Some w else None).
  apply runs_bind. eapply (runs_mono _ _ (fun s2 r => s2 = s1 /\ r = Ok (t, p, water))).
  { unfold water. destruct (supports_protocol_minor _ _).
    - eapply runs_lift; [exact Hcw|]. by apply runs_ret.
    - eapply runs_lift; [exact Hc|]. by apply runs_ret. }
  intros s2 r [-> ->]. eapply runs_lift; [exact Ht|]. apply runs_try.
  pose proof (reliable_send_extends env (outside s1) sender KTerrainAuthority (terrain_payload e)) as H1. rewrite Hid in H1.
  apply (contract_sent s1 _ _ _ Hs1 Mt) in H1. destruct (reliable_send _ _ _ _ _) as [o1 []]; cbn [fst snd] in *;
    [|by apply isolate_ok].
  eapply runs_lift; [exact Hp|]. apply runs_try.
  pose proof (send_if_supported_extends (outside (set_outside s1 o1)) sender ENVIRONMENT_PRESENTATION_POLICY_MIN_PROTOCOL_MINOR
    KEnvironmentPresentationPolicy (environment_payload e)) as H2. rewrite Hid in H2.
  apply (contract_sent _ _ _ _ H1 Mp) in H2. destruct (send_if_supported _ _ _ _ _ _) as [o2 []]; cbn [fst snd] in *;
    [|by apply isolate_ok].
  destruct water as [w'|] eqn:Ewater; [|by apply runs_ret, Hmore].
  assert (w' = w) as ->. { unfold water in Ewater. destruct (supports_protocol_minor _ _); [by injection Ewater as <-|done]. }
  eapply runs_lift; [exact Hw|]. apply runs_try.
  match goal with |- context [send_if_supported env ?o] =>
    pose proof (send_if_supported_extends o sender WATER_SURFACE_PRESENTATION_MIN_PROTOCOL_MINOR
      KWaterSurfacePresentation (water_payload e)) as H3 end. rewrite Hid in H3.
  apply (contract_sent _ _ _ _ H2 Mw) in H3. destruct (send_if_supported _ _ _ _ _ _) as [o3 [[]|]]; cbn [fst snd] in *;
    [by apply runs_ret, Hmore|by apply isolate_ok..].
Qed.

Lemma send_quadrants_ok m coords : manifest (sys_frontier (sys s)) = Ok m ->
  (forall c, c ∈ coords -> c ∈ Manifest.quadrants m /\ lattice_ok c) -> forall s1, so_far s1 ->
  runs (send_quadrants blake3_hash blake3_keyed cfg env cid sender a coords) s1 (step_part s l (sys s) (reveal_gate s)).
Proof.
  intros Hm. induction coords as [|coord rest IH]; intros Hin s1 Hs1; cbn [send_quadrants];
    [by apply runs_ret, ongoing_part, Hs1|].
  apply runs_bind. destruct (Hin coord ltac:(by left)) as [Hc Hlat].
  eapply runs_mono; [by apply (send_quadrant_ok s1 coord m)|].
  intros s2 [[]|e] [Hpart Hmore]; [|done..]. apply IH; [|by apply Hmore]. intros c Hc'. apply Hin. by right.
Qed.
End Ack.

Lemma ack_good s cid rev a (l := StepTransport (FrontierManifestAckReceived cid rev) a) :
  inv s -> step_ok s l -> runs (step_run l) s (step_good s l).
Proof.
  intros Hs Hret. cbn [step_run l step_ok handle_transport_event] in *. unfold handle_manifest_ack. apply runs_get.
  destruct (reliable_by_connection s !! cid) as [sender|] eqn:Er; [|by apply runs_ret, step_good_refl].
  destruct (sv_reliable Hs cid sender Er) as [Hid _].
  assert (is_Some (frontier_sync s !! cid)) as [st Est].
  { apply elem_of_dom. rewrite (sv_sync_dom Hs). apply elem_of_dom. by eexists. }
  pose proof (sv_sync Hs cid st Est) as Hrev.
  destruct (apply_ack (frontier_sync s) cid rev) as [o y] eqn:Eack. apply runs_modify.
  assert (y = frontier_sync s -> set_sync s y = s) as Hsame by (intros ->; by destruct s).
  assert (ongoing s l (sys s) (reveal_gate s) s) as Hstart by by apply ongoing_refl.
  unfold apply_ack in Eack. rewrite Est in Eack. destruct (validate_revision rev) as [|e].
  2: { injection Eack as <- <-. rewrite Hsame by done.
    apply (step_part_good _ _ _ _ (reveal_gate s)), (ongoing_part _ _ _ _ _ tt), close_ongoing, Hstart. }
  destruct (rev <? state_revision st) eqn:Elow.
  { injection Eack as <- <-. rewrite Hsame by done. by apply runs_ret, step_good_refl. }
  destruct (state_revision st <? rev) eqn:Ehigh.
  { injection Eack as <- <-. rewrite Hsame by done.
    apply (step_part_good _ _ _ _ (reveal_gate s)), (ongoing_part _ _ _ _ _ tt), close_ongoing, Hstart. }
  assert (rev = current_revision s) as -> by lia.
  destruct st as [rev'|rev']; cbn in Hrev; subst rev'; injection Eack as <- <-.
  2: { rewrite Hsame by done. by apply runs_ret, step_good_refl. }
  apply runs_modify. parts.
  assert ((acknowledge (frontier_delivery s) cid (current_revision s)).1 = delete cid (frontier_delivery s)) as ->.
  { unfold acknowledge. destruct (frontier_delivery s !! cid) as [p|] eqn:Ep; [|by rewrite delete_id].
    pose proof (sv_pending Hs cid p Ep) as Hp. rewrite Est in Hp. injection Hp as Hp. by rewrite decide_False by naive_solver. }
  set (s1 := set_delivery _ _). assert (inv s1) as Hs1 by (by apply inv_synced).
  unfold send_revealed_presentation_contracts_to_connection. apply runs_get.
  change (fixed s1) with (fixed s). change (reliable_by_connection s1) with (reliable_by_connection s).
  assert (is_synced (frontier_sync s1) cid = true) as -> by (unfold is_synced, s1; parts; by rewrite lookup_insert_eq).
  destruct (has_scheduler (fixed s)) eqn:Hsched; cbn [negb]; [|apply runs_ret; by split_goals].
  rewrite Er. destruct (system_manifest _ _ _ _ _ _ (sv_system Hs)) as (m & payload & Hm & _ & _ & Hmr & _ & _ & Hlat).
  apply runs_bind. unfold runs at 1.
  assert (current_manifest s1 = (s1, Ok m)) as E.
  { unfold current_manifest, get, lift, mbind, M_bind. change (sys s1) with (sys s). by rewrite Hm. }
  rewrite E. cbn [fst snd]. rewrite decide_False by (rewrite Hmr; naive_solver).
  eapply runs_mono; [eapply (send_quadrants_ok s cid a sender); [done..| |]|].
  - intros c Hc. split; [done|by apply Hlat].
  - split; [by split_goals|done].
  - intros s2 r Hpart. by eapply step_part_good.
Qed.

(** ** Admission *)

Lemma runs_rollback {B} (m rollback : M unit) (f : unit -> M B) s s' post : m s = (s', Ok tt) ->
  runs (f tt) s' post -> runs (mbind f (or_rollback m rollback)) s post.
Proof. intros E H. apply runs_bind. unfold runs at 1, or_rollback. by rewrite E. Qed.

(** The connection is known to every map, nothing else has happened. *)
Definition registered (s : Srv) (cid sid : Z) (rt : RealtimeConnectionSender) (sender : ReliableConnectionSender)
  (now : Z) (R : LiveSessionRegistry) : Srv :=
  mk_runtime (mk_ingress R (authorized_tx (ingress s)))
    (mk_bridge (<[cid := rt]> (realtime_by_connection (snapshot_bridge s))) (connection_by_character (snapshot_bridge s)))
    (<[cid := sender]> (reliable_by_connection s)) (<[sid := cid]> (connection_by_session s))
    (<[cid := Pending (current_revision s)]> (frontier_sync s))
    (track (delivery_policy (fixed s)) (frontier_delivery s) cid (current_revision s) now)
    (sys s) (reveal_gate s) (outside s) (fixed s).

Lemma register_admitted_runs s cid sid rt sender now R post : inv s -> fresh s cid sid ->
  realtime_connection_id rt = cid -> reliable_connection_id sender = cid -> register (registry s) sid cid = (R, Ok tt) ->
  post (registered s cid sid rt sender now R) (Ok tt) -> runs (register_admitted cid sid rt sender now) s post.
Proof.
  intros Hs Hfresh Hrt Hsend HR H. pose proof (fresh_unserved _ _ _ s cid sid Hs Hfresh) as Hnew.
  assert (realtime_by_connection (snapshot_bridge s) !! cid = None) as Hnort.
  { apply not_elem_of_dom. rewrite (sv_realtime_dom Hs). by apply not_elem_of_dom. }
  assert (frontier_sync s !! cid = None) as Hnosync.
  { apply not_elem_of_dom. rewrite (sv_sync_dom Hs). by apply not_elem_of_dom. }
  destruct Hfresh as (_ & _ & Hc & Hsid).
  assert (connection_by_session s !! sid = None) as Hnomap.
  { apply eq_None_not_Some. intros [c Hx]. apply (sv_sessions Hs) in Hx.
    destruct (rw_conn _ (sv_registry Hs) c sid Hx) as (live & Hl & _). congruence. }
  destruct (system_manifest _ _ _ _ _ _ (sv_system Hs)) as (m & payload & _ & _ & _ & _ & Hnz & _).
  unfold register_admitted. rewrite decide_False by (intros [?|?]; congruence). apply runs_bind, runs_ret, runs_get.
  rewrite Hnew. apply runs_modify. eapply runs_rollback.
  { unfold on_bridge, register_connection. parts. by rewrite Hrt, Hnort. }
  eapply runs_rollback. { unfold on_registry. parts. by rewrite HR. }
  apply runs_get. parts. rewrite Hnomap. apply runs_modify, runs_get. eapply runs_rollback.
  { unfold register_pending, validate_revision. parts. unfold current_revision at 1. parts.
    rewrite (proj2 (Z.eqb_neq _ _) Hnz), Hnosync. reflexivity. }
  exact H.
Qed.

(** The current manifest goes to a connection that joins late. *)
Lemma sync_current_ok s l y g s1 cid : ongoing s l y g s1 -> runs (sync_current_frontier_to_connection env cid) s1 (step_part s l y g).
Proof.
  intros H. pose proof H as (_ & [Hy _] & _ & Hinv). unfold sync_current_frontier_to_connection. apply runs_get.
  destruct (reliable_by_connection s1 !! cid) as [sender|]; [|by apply runs_ret, ongoing_part].
  apply encoded_manifest_ok; [done|]. intros m payload Hm He _. apply runs_try, runs_ret, ongoing_part, send_ongoing; [done|].
  exists m. by rewrite <- Hy.
Qed.

Lemma late_frontier s l y g s1 cid : ongoing s l y g s1 ->
  runs (s ← get; if decide (bootstrap_frontier_revision (fixed s) < current_revision s)
        then sync_current_frontier_to_connection env cid else mret tt) s1 (step_part s l y g).
Proof.
  intros H. apply runs_get. destruct (decide _); [by apply sync_current_ok|by apply runs_ret, ongoing_part].
Qed.

Lemma persisted_ok s a : inv s -> answers_ok a ->
  inventory_ok (persisted_inventory (postgres_client (fixed s)) a).1 /\
  let p := persisted_position (postgres_client (fixed s)) (development_spawn_position (fixed s)) a in
  pos_ok p /\ within MAX_SPAWN p.
Proof.
  intros Hs [Hinv Hpos]. pose proof (fx_spawn _ _ _ _ (sv_fixed Hs)) as Hspawn.
  assert (inventory_ok (inventory_new 10 6)) as Hnew by (apply inventory_new_ok; unfold in_u; lia).
  unfold persisted_inventory, persisted_position. destruct (postgres_client _); [|done].
  split; [|by destruct (ans_position a) as [[p|]|] eqn:E; [apply Hpos|..]].
  destruct (ans_inventory a) as [[[inventory revision]|]|] eqn:E; [by eapply Hinv|done..].
Qed.

Lemma admitted_good s cid sid rt sender a (l := StepTransport (SessionAdmitted cid sid rt sender) a) :
  inv s -> step_ok s l -> runs (step_run l) s (step_good s l).
Proof.
  intros Hs (Hfresh & Hrt & Hsend & Hfit & Ha). cbn [step_run l handle_transport_event]. unfold handle_admitted.
  pose proof Hfresh as (Hc0 & Hs0 & Hc & Hsid).
  destruct (register_Ok _ cid sid (sv_registry Hs) Hc Hsid Hc0 Hs0) as (R & HR & Hwf & Hcon & Hst).
  apply runs_bind. eapply register_admitted_runs; [done..|]. set (s1 := registered s cid sid rt sender (ans_now a) R).
  apply runs_get. change (fixed s1) with (fixed s).
  assert (forall R' gate o spawn, reg_wf R' -> by_connection R' = by_connection R ->
    (forall c, reg_state R' c = if decide (c = cid) then Some (serving (fixed s)) else state_of s c) ->
    system_ok blake3_hash blake3_keyed cfg (has_scheduler (fixed s)) gate (sys s) ->
    (development_auto_admit (fixed s) = true -> reliable_by_connection s = ∅) ->
    commands (zone_id (fixed s)) (effects o) = commands (zone_id (fixed s)) (effects (outside s)) ++
      (if development_auto_admit (fixed s) then [spawn] else []) ->
    (exists p inventory revision, spawn = SpawnCharacter 1 p inventory revision) -> command_ok spawn ->
    extends (caused s l (sys s)) (outside s) o ->
    ongoing s l (sys s) gate (admitted s cid sid rt sender (ans_now a) R' gate o)) as Hadmit.
  { intros R' gate o spawn H1 H2 H3 H4 H5 H6 H7 H8 H9. do 3 (split; [done|]). eapply inv_admit; try done. by rewrite H2. }
  destruct (development_auto_admit (fixed s)) eqn:Hdev.
  2: { apply runs_bind, runs_ret.
    eapply runs_mono; [apply late_frontier|intros s2 r; apply step_part_good].
    replace s1 with (admitted s cid sid rt sender (ans_now a) R (reveal_gate s) (outside s))
      by (unfold admitted; by rewrite Hdev).
    apply (Hadmit _ _ _ (SpawnCharacter 1 (development_spawn_position (fixed s)) (inventory_new 10 6) 0)); try done.
    - intros c. rewrite Hst. unfold serving. by rewrite Hdev.
    - apply (sv_system Hs).
    - by rewrite app_nil_r.
    - eauto.
    - destruct (fx_spawn _ _ _ _ (sv_fixed Hs)). do 2 (split; [done|]). apply inventory_new_ok; unfold in_u; lia. }
  apply runs_bind. unfold auto_admit. apply runs_get. change (fixed s1) with (fixed s).
  destruct (fx_zone (sv_fixed Hs)) as [_ Hz0].
  destruct (reg_call_Ok R cid _ (CallAuthenticate 1) (Authenticated 1) Hwf ltac:(by rewrite Hst, decide_True)
    eq_refl) as (R1 & HR1 & Hwf1 & Hcon1 & Hst1).
  eapply runs_registry; [exact HR1|].
  destruct (reg_call_Ok R1 cid _ (CallBindCharacter 1 (zone_id (fixed s))) (CharacterBound 1 1 (zone_id (fixed s))) Hwf1
    ltac:(by rewrite Hst1, decide_True) ltac:(cbn; by rewrite decide_False by naive_solver)) as (R2 & HR2 & Hwf2 & Hcon2 & Hst2).
  eapply runs_registry; [exact HR2|].
  apply runs_bind. unfold runs at 1, on_bridge, bridge_bind_character. parts. change (snapshot_bridge s1) with
    (mk_bridge (<[cid := rt]> (realtime_by_connection (snapshot_bridge s))) (connection_by_character (snapshot_bridge s))).
  parts. rewrite lookup_insert_eq.
  destruct (connection_by_character (snapshot_bridge s) !! 1) as [c'|] eqn:Ebound; cbn [fst snd map_err].
  { split; [done|]. split; [by parts|]. cbn. apply (sv_bound Hs) in Ebound as (_ & _ & Hserved).
    split; [done|]. split; [done|]. by exists cid, sid, rt, sender, a. }
  assert (reliable_by_connection s = ∅) as Hempty.
  { apply map_empty. intros c. apply eq_None_not_Some. intros Hx.
    assert (connection_by_character (snapshot_bridge s) !! 1 = Some c) by (by apply (sv_bound Hs)). congruence. }
  eapply runs_binding; [by rewrite Hst2, decide_True|]. cbn [state_world_binding wb_zone_id wb_character_id].
  destruct (persisted_ok s a Hs Ha) as [Hinventory Hposition]. cbv zeta in Hposition.
  destruct (persisted_inventory _ _) as [inventory revision] eqn:Einv. cbn [fst] in Hinventory.
  set (position := persisted_position _ _ _) in *. set (spawn := SpawnCharacter 1 position inventory revision).
  apply runs_bind. unfold runs at 1, on_outside, spawn_character. parts. fold spawn.
  change (outside s1) with (outside s).
  destruct (route_control _ _ _ _ _ _) as [o' r] eqn:E.
  apply (route_control_cases s) in E as [[-> ->]|(e & -> & Hprob & ->)]; [| |done]; cbn [fst snd map_err].
  2: { split; [done|]. split; [by parts|]. split; [exact Hprob|]. by exists cid, sid, rt, sender, a. }
  set (o1 := emit (outside s) _).
  destruct (reg_call_Ok R2 cid _ CallActivateWorld (WorldActive 1 1 (zone_id (fixed s))) Hwf2
    ltac:(by rewrite Hst2, decide_True) eq_refl) as (R3 & HR3 & Hwf3 & Hcon3 & Hst3).
  eapply runs_rollback. { unfold on_registry. parts. cbn [reg_call] in HR3. by rewrite HR3. }
  unfold runs at 1. cbn [modify fst snd]. parts. change (reveal_gate s1) with (reveal_gate s).
  set (gate := option_map _ (reveal_gate s)).
  eapply runs_mono; [apply (late_frontier s l (sys s) gate)|intros s2 r; apply step_part_good].
  match goal with |- ongoing _ _ _ _ ?x =>
    replace x with (admitted s cid sid rt sender (ans_now a) R3 gate o1) by (unfold admitted; by rewrite Hdev) end.
  apply (Hadmit _ _ _ spawn); try done.
  - congruence.
  - intros c. rewrite Hst3, Hst2, Hst1, Hst. unfold serving. rewrite Hdev. by destruct (decide (c = cid)).
  - unfold gate. destruct (reveal_gate s) as [g|] eqn:Eg; cbn; [|rewrite <- Eg; apply (sv_system Hs)].
    eapply (system_gate _ _ _ _ g); [rewrite <- Eg; apply (sv_system Hs)|..]; unfold arm;
      by destruct (armed_at g), (gate_complete g).
  - unfold o1. by rewrite emitted_commands.
  - unfold spawn. eauto.
  - split; [apply Hposition|]. split; [apply Hposition|done].
  - apply extends_emit. cbn. split; [done|]. by exists cid, sid, rt, sender, a.
Qed.

(** ** All steps *)

Lemma server_step_spec s l : inv s -> step_ok s l -> runs (step_run l) s (step_good s l).
Proof.
  intros Hs Hok. destruct l as [[cid sid rt sender|cid intent|cid intent|cid rev|cid sid] a|intent rest|snapshot|a|now|a|a|w store].
  - by apply admitted_good.
  - by apply move_good.
  - by apply mine_good.
  - by apply ack_good.
  - by apply disconnected_good.
  - by apply authorized_good.
  - by apply snapshot_good.
  - by apply delivery_good.
  - by apply preparation_good.
  - by apply reveal_good.
  - by apply auto_save_good.
  - by apply worker_good.
Qed.
End Steps.
