(* ===== verification/ServerTrace.v ===== *)
(** Runs of the session runtime with the turns they take: what each turn does to the
    sessions the runtime knows and to the intents that wait for the zone. *)

From S2P Require Import Prelude Bytes Core Contracts Transport Frontier Preparation Runtime Scheduler Delivery System.
From S2P Require Import Session Sync Egress Router Server ServerInv ServerSteps.
Import World Bootstrap.

(** ** The sessions the runtime has been told about *)

(** [connection_by_session] after an event. *)
Definition sessions_after (R : gmap Z Z) (e : TransportSessionEvent) : gmap Z Z :=
  match e with
  | SessionAdmitted cid sid _ _ => <[sid := cid]> R
  | Disconnected _ sid => delete sid R
  | _ => R
  end.

Section Sessions.
Context {Q : Type} `{!MpscSender Q AuthorizedIntent}.
Context (blake3_hash : list Z -> list Z) (blake3_keyed : list Z -> list Z -> list Z) (cfg : SchedulerConfig).
Context (env : Environment).

Abbreviation Srv := (SessionRuntime (Q := Q)).
Abbreviation run := (step_run (Q := Q) blake3_hash blake3_keyed cfg env).

#[local] Existing Instances M_ret M_bind.

(** The sessions known, and the intents that wait for the zone. *)
Definition told (s : Srv) : gmap Z Z * Q := (connection_by_session s, authorized_tx (ingress s)).

(** A part of a handler that leaves them alone, if it succeeds. *)
Definition keeps {A} (m : M (Q := Q) A) : Prop := forall s s' a, m s = (s', Ok a) -> told s' = told s.

Lemma keeps_ret {A} (a : A) : keeps (mret a).
Proof. by intros s s' b [= <- _]. Qed.
Lemma keeps_bind {A B} (m : M A) (f : A -> M B) : keeps m -> (forall a, keeps (f a)) -> keeps (mbind f m).
Proof.
  intros Hm Hf s s' b H. unfold mbind, M_bind in H. destruct (m s) as [s1 [a|e]] eqn:E; [|done].
  apply Hm in E. apply Hf in H. congruence.
Qed.
Lemma keeps_get : keeps get.
Proof. by intros s s' a [= <- _]. Qed.
Lemma keeps_modify f : (forall s : Srv, told (f s) = told s) -> keeps (modify f).
Proof. intros H s s' a [= <- _]. apply H. Qed.
Lemma keeps_bail {A} e : keeps (bail (A := A) e).
Proof. done. Qed.
Lemma keeps_lift {X A} context (r : result X A) : keeps (lift context r).
Proof. intros s s' a [= <- _]. done. Qed.
Lemma keeps_rollback m r : keeps m -> keeps (or_rollback m r).
Proof.
  intros H s s' a. unfold or_rollback. destruct (m s) as [s1 [b|e]] eqn:E; [intros [= <- <-]; by eapply H|].
  by destruct (r s1) as [s2 [|]].
Qed.
Lemma keeps_registry {A} context (f : LiveSessionRegistry -> LiveSessionRegistry * result SessionRegistryError A) :
  keeps (on_registry context f).
Proof. intros s s' a. unfold on_registry. destruct (f _) as [R o]. by intros [= <- _]. Qed.
Lemma keeps_bridge {A} context (f : SelfSnapshotBridge -> SelfSnapshotBridge * result BridgeError A) :
  keeps (on_bridge f context).
Proof. intros s s' a. unfold on_bridge. destruct (f _) as [b o]. by intros [= <- _]. Qed.
Lemma keeps_outside {X A} context (f : Outside -> Outside * result X A) : keeps (on_outside f context).
Proof. intros s s' a. unfold on_outside. destruct (f _) as [x o]. by intros [= <- _]. Qed.
Lemma keeps_try {X A} (f : Outside -> Outside * result X A) : keeps (try_outside f).
Proof. intros s s' a. unfold try_outside. destruct (f _) as [x o]. by intros [= <- _]. Qed.

#[local] Hint Resolve keeps_ret keeps_bind keeps_get keeps_bail keeps_lift keeps_rollback keeps_registry keeps_bridge
  keeps_outside keeps_try : keeps.
#[local] Hint Extern 1 (keeps (modify _)) => apply keeps_modify; intros []; reflexivity : keeps.

(** Goes through a handler. *)
Ltac keep := intros; repeat match goal with
  | |- keeps (mbind _ _) => apply keeps_bind; [|intros]
  | |- keeps (match ?x with _ => _ end) => destruct x
  | |- _ => solve [auto with keeps]
  end.

Lemma keeps_binding context cid : keeps (world_binding_of context cid).
Proof. unfold world_binding_of. keep. Qed.
Lemma keeps_realtime cid : keeps (remove_realtime cid).
Proof. unfold remove_realtime. keep. Qed.
Lemma keeps_reliable cid : keeps (remove_reliable cid).
Proof. unfold remove_reliable. keep. Qed.
Lemma keeps_sync cid : keeps (remove_sync cid).
Proof. unfold remove_sync. keep. Qed.
Lemma keeps_delivery cid : keeps (remove_delivery cid).
Proof. unfold remove_delivery. keep. Qed.
Lemma keeps_close sender : keeps (close_capability sender).
Proof. unfold close_capability. keep. Qed.
Lemma keeps_track cid revision now : keeps (track_delivery cid revision now).
Proof. unfold track_delivery. keep. Qed.
Lemma keeps_save ch responder a : keeps (save_reply ch responder a).
Proof. unfold save_reply. keep. Qed.
#[local] Hint Resolve keeps_binding keeps_realtime keeps_reliable keeps_sync keeps_delivery keeps_close keeps_track
  keeps_save : keeps.

Lemma keeps_manifest : keeps current_manifest.
Proof. unfold current_manifest. keep. Qed.
#[local] Hint Resolve keeps_manifest : keeps.
Lemma keeps_encoded : keeps encoded_manifest.
Proof. unfold encoded_manifest. keep. Qed.
#[local] Hint Resolve keeps_encoded : keeps.
Lemma keeps_sync_current cid : keeps (sync_current_frontier_to_connection env cid).
Proof. unfold sync_current_frontier_to_connection. keep. Qed.
Lemma keeps_auto_admit cid sid a : keeps (auto_admit env cid sid a).
Proof. unfold auto_admit. keep. Qed.
Lemma keeps_isolate_connection cid : keeps (isolate_connection_after_reliable_delivery_failure env cid).
Proof. unfold isolate_connection_after_reliable_delivery_failure. keep. Qed.
#[local] Hint Resolve keeps_sync_current keeps_auto_admit keeps_isolate_connection : keeps.
Lemma keeps_isolate cid sender : keeps (isolate env cid sender).
Proof. unfold isolate. keep. Qed.
#[local] Hint Resolve keeps_isolate : keeps.
Lemma keeps_quadrant cid sender a c : keeps (send_quadrant blake3_hash blake3_keyed cfg env cid sender a c).
Proof. unfold send_quadrant. keep. Qed.
#[local] Hint Resolve keeps_quadrant : keeps.
Lemma keeps_quadrants cid sender a coords : keeps (send_quadrants blake3_hash blake3_keyed cfg env cid sender a coords).
Proof. induction coords as [|c rest IH]; cbn [send_quadrants]; keep. Qed.
#[local] Hint Resolve keeps_quadrants : keeps.
Lemma keeps_broadcast connections payload : keeps (broadcast_frontier_manifest env connections payload).
Proof. induction connections as [|c rest IH]; cbn [broadcast_frontier_manifest]; keep. Qed.
Lemma keeps_track_all connections revision now : keeps (track_all connections revision now).
Proof. induction connections as [|c rest IH]; cbn [track_all]; keep. Qed.
Lemma keeps_auto_save connections a : keeps (auto_save_loop env connections a).
Proof. induction connections as [|c rest IH]; cbn [auto_save_loop]; keep. Qed.
Lemma keeps_action m payload action : keeps (deliver_action env m payload action).
Proof. unfold deliver_action. keep. Qed.
#[local] Hint Resolve keeps_broadcast keeps_track_all keeps_auto_save keeps_action : keeps.
Lemma keeps_actions m payload actions : keeps (deliver_actions env m payload actions).
Proof. induction actions as [|c rest IH]; cbn [deliver_actions]; keep. Qed.
#[local] Hint Resolve keeps_actions : keeps.

Lemma keeps_set_sync {X} context (f : FrontierSyncRegistry -> result FrontierSyncError X * FrontierSyncRegistry) :
  keeps (fun s => let '(o, y) := f (frontier_sync s) in (set_sync s y, map_err context o)).
Proof. intros s s' a. destruct (f _) as [o y]. by intros [= <- _]. Qed.

(** A part of a handler that changes the sessions in this way, if it succeeds. *)
Definition changes {A} (f : gmap Z Z -> gmap Z Z) (m : M (Q := Q) A) : Prop :=
  forall s s' a, m s = (s', Ok a) -> told s' = (f (connection_by_session s), authorized_tx (ingress s)).

Lemma keeps_then {A B} f (m : M A) (k : A -> M B) : keeps m -> (forall a, changes f (k a)) -> changes f (mbind k m).
Proof.
  intros Hm Hk s s' b H. unfold mbind, M_bind in H. destruct (m s) as [s1 [a|e]] eqn:E; [|done].
  apply Hm in E. apply Hk in H. unfold told in *. injection E as E1 E2. by rewrite H, E1, E2.
Qed.
Lemma then_keeps {A B} f (m : M A) (k : A -> M B) : changes f m -> (forall a, keeps (k a)) -> changes f (mbind k m).
Proof.
  intros Hm Hk s s' b H. unfold mbind, M_bind in H. destruct (m s) as [s1 [a|e]] eqn:E; [|done].
  apply Hm in E. apply Hk in H. congruence.
Qed.
Lemma changes_bail {A} f e : changes f (bail (A := A) e).
Proof. done. Qed.
Lemma keeps_discard cid : keeps (discard_session cid).
Proof. unfold discard_session. keep. Qed.
#[local] Hint Resolve keeps_discard changes_bail : keeps.

(** Goes to the part that changes the sessions. *)
Ltac keep_until := intros; repeat match goal with
  | |- changes _ (mbind _ _) => apply keeps_then; [solve [keep]|intros]
  | |- _ => solve [auto with keeps]
  end.

Lemma register_adds cid sid rt sender now : changes (<[sid := cid]>) (register_admitted cid sid rt sender now).
Proof.
  unfold register_admitted. keep_until. apply then_keeps.
  - destruct (connection_by_session _ !! sid); [keep_until|]. by intros s s' b [= <- _].
  - intros. apply keeps_bind; [keep|]. intros. apply keeps_bind; [|keep].
    apply keeps_rollback. intros s s' b.
    destruct (register_pending _ _ _) as [o y]. by intros [= <- _].
Qed.

Lemma disconnected_removes cid sid a : changes (delete sid) (handle_disconnected env cid sid a).
Proof.
  unfold handle_disconnected. keep_until. apply then_keeps; [|keep]. by intros s s' b [= <- _].
Qed.

(** What a turn does to the sessions. *)
Lemma step_told l s s' : run l s = (s', Ok tt) ->
  match l with
  | StepTransport (MoveIntentReceived cid i) _ => connection_by_session s' = connection_by_session s /\
      (s' = s \/ ingress s' = (try_ingest_move (ingress s) cid (Intents.mv_sequence i) (Intents.mv_axis_x i) (Intents.mv_axis_y i)).1 /\
         is_synced (frontier_sync s) cid = true)
  | StepTransport e _ => told s' = (sessions_after (connection_by_session s) e, authorized_tx (ingress s))
  | StepAuthorized intent rest => told s' = (connection_by_session s, rest)
  | _ => told s' = told s
  end.
Proof.
  destruct l as [[cid sid rt sender|cid intent|cid intent|cid rev|cid sid] a|intent rest|snapshot|a|now|a|a|w store];
    cbn [step_run handle_transport_event sessions_after]; intros H.
  - assert (changes (<[sid := cid]>) (handle_admitted env cid sid rt sender a)) as Hc; [|by apply Hc in H].
    unfold handle_admitted. apply then_keeps; [apply register_adds|keep].
  - unfold handle_move_intent, get, mbind, M_bind in H. destruct (is_synced _ _); cbn [negb] in H; [|injection H as <-; auto].
    destruct (try_ingest_move _ _ _ _ _) as [ing o]. unfold modify in H.
    destruct o as [|[]]; try done; injection H as <-; auto.
  - assert (keeps (handle_mine_intent env cid intent)) as Hk by (unfold handle_mine_intent; keep). by apply Hk in H.
  - assert (keeps (handle_manifest_ack blake3_hash blake3_keyed cfg env cid rev a)) as Hk; [|by apply Hk in H].
    unfold handle_manifest_ack, send_revealed_presentation_contracts_to_connection. keep.
  - by apply disconnected_removes in H.
  - assert (keeps (route_authorized_intent env intent)) as Hk by (unfold route_authorized_intent; keep).
    unfold modify, mbind, M_bind in H. by apply Hk in H.
  - assert (keeps (route_movement_snapshot env snapshot)) as Hk by (unfold route_movement_snapshot; keep). by apply Hk in H.
  - assert (keeps (evaluate_frontier_delivery env a)) as Hk by (unfold evaluate_frontier_delivery; keep). by apply Hk in H.
  - assert (keeps (evaluate_preparation_pipeline blake3_keyed cfg now)) as Hk by (unfold evaluate_preparation_pipeline; keep).
    by apply Hk in H.
  - assert (keeps (evaluate_development_frontier_reveal env a)) as Hk; [|by apply Hk in H].
    unfold evaluate_development_frontier_reveal, commit_development_frontier_reveal, complete_gate. keep.
    apply (keeps_set_sync PendingFrontier (fun r => mark_all_pending r _)).
  - assert (keeps (auto_save_active_inventories env a)) as Hk by (unfold auto_save_active_inventories; keep). by apply Hk in H.
  - by injection H as <-.
Qed.

Lemma step_sessions l s s' : run l s = (s', Ok tt) ->
  connection_by_session s' = match l with StepTransport e _ => sessions_after (connection_by_session s) e | _ => connection_by_session s end.
Proof.
  intros H%step_told. destruct l as [[] a|intent rest|snapshot|a|now|a|a|w store]; unfold told in H; cbn in *; first [by injection H | by destruct H].
Qed.

(** ** Runs with their steps *)

Abbreviation ok := (step_ok (Q := Q) blake3_hash blake3_keyed cfg).

(** The turns of the loop, in order. *)
Inductive turns (s0 : Srv) : list (ServerStep (Q := Q)) -> Srv -> Prop :=
| turns_nil : turns s0 [] s0
| turns_snoc trace s l s' : turns s0 trace s -> ok s l -> run l s = (s', Ok tt) -> turns s0 (trace ++ [l]) s'.

(** The connections and sessions a run has admitted. *)
Definition admission_of (e : TransportSessionEvent) : option (Z * Z) :=
  match e with SessionAdmitted cid sid _ _ => Some (cid, sid) | _ => None end.
Definition admissions (trace : list (ServerStep (Q := Q))) : list (Z * Z) :=
  omap (fun l => match l with StepTransport e _ => admission_of e | _ => None end) trace.

Lemma admissions_snoc trace l : admissions (trace ++ [l]) =
  admissions trace ++ match l with StepTransport e _ => option_list (admission_of e) | _ => [] end.
Proof. unfold admissions. rewrite omap_app. by destruct l as [[] ?|?|?|?|?|?|?|?]. Qed.

Lemma sessions_admitted s0 trace s sid cid : turns s0 trace s -> connection_by_session s0 = ∅ ->
  connection_by_session s !! sid = Some cid -> (cid, sid) ∈ admissions trace.
Proof.
  intros H H0. revert sid cid. induction H as [|trace s l s' H IH Hok E]; intros sid cid Hc; [by rewrite H0, lookup_empty in Hc|].
  rewrite admissions_snoc, elem_of_app. rewrite (step_sessions _ _ _ E) in Hc.
  destruct l as [[] a|intent rest|snapshot|a|now|a|a|w store]; cbn in *; try (left; by apply IH).
  - apply lookup_insert_Some in Hc as [[<- <-]|[_ Hc]]; [right; by apply list_elem_of_singleton|left; by apply IH].
  - apply lookup_delete_Some in Hc as [_ Hc]. left. by apply IH.
Qed.
End Sessions.
