(* ===== verification/ServerCorrect.v ===== *)
(** The session runtime from its start on: everything it keeps true between two events,
    the only ways in which it can stop, whom it lets play, and what a client is sent
    when it has acknowledged the frontier. *)

From S2P Require Import Prelude Bytes Core Contracts Snapshots Wire Presentation Terrain Frontier Preparation Runtime.
From S2P Require Import Scheduler SchedulerSafety PublicContracts Delivery System Session Sync Transport Bags Movement.
From S2P Require Import Traversal Zone ZoneMovement ZoneInventory ZoneSafety Egress Router Server ServerInv ServerSteps ServerTrace.
Import World Bootstrap Equipment.

Section ServerCorrect.
Context {Q : Type} `{!MpscSender Q AuthorizedIntent}.
Context (blake3_hash : list Z -> list Z) (blake3_keyed : list Z -> list Z -> list Z) (cfg : SchedulerConfig).
Context (env : Environment).

Abbreviation Srv := (SessionRuntime (Q := Q)).
Abbreviation inv := (server_inv (Q := Q) blake3_hash blake3_keyed cfg).
Abbreviation run := (step_run (Q := Q) blake3_hash blake3_keyed cfg env).
Abbreviation ok := (step_ok (Q := Q) blake3_hash blake3_keyed cfg).

(** ** The start *)

(** How [main.rs] starts the runtime: on a rectangular frontier, the zone of the
    settings registered, the channel of the intents empty, the policy and the spawn
    position those of a configuration that was accepted. *)
Definition server_started (s0 : Srv) : Prop :=
  exists channel min w h f rev size r settings router scheduler postgres buffer,
    coord_ok min /\ 0 <= w /\ 0 <= h /\ rectangular min w h = Ok f /\ 0 <= rev < 2 ^ 64 /\
    runtime_new f rev (cfg_generator_version cfg) size = Ok r /\
    session_runtime_new channel settings router r scheduler postgres buffer = Ok s0 /\
    contents (channel (set_authorized_capacity settings)) = [] /\
    (set_zone_id settings ∈ zones router /\ set_zone_id settings <> 0) /\
    (pos_ok (set_spawn_position settings) /\ within MAX_SPAWN (set_spawn_position settings)) /\
    policy_ok (set_delivery_policy settings) /\
    (scheduler = true -> scheduler_ok blake3_hash blake3_keyed cfg /\
       (is_Some (set_reveal settings) -> 1 <= max_prepared_quadrants (cfg_settings cfg))) /\
    (forall c, c ∈ initial_quadrants f -> lattice_ok (to_fqc c)) /\
    (forall config, set_reveal settings = Some config -> lattice_ok (to_fqc (reveal_coord config))).

(** A gate prepares one quadrant. *)
Lemma gate_occupied min w h f rev size r r' config g :
  coord_ok min -> 0 <= w -> 0 <= h -> rectangular min w h = Ok f -> 0 <= rev < 2 ^ 64 ->
  runtime_new f rev (cfg_generator_version cfg) size = Ok r -> gate_new r config = (r', Ok g) ->
  rt_generator_version r' = cfg_generator_version cfg /\ runtime_ok r' /\
  (forall c i, rt_preparations r' !! c <> Some (SlotInFlight i)) /\ occupied r' <= 1.
Proof.
  intros Hmin Hw Hh Hf Hrev Hr Hg.
  destruct (runtime_new_ok _ _ _ _ _ _ _ _ Hmin Hw Hh Hf Hrev Hr) as [Hok He].
  destruct (runtime_new_unprepared _ _ _ _ _ _ _ _ Hmin Hw Hh Hf Hrev Hr) as [Hgen Hnp].
  destruct (gate_new_Ok r config r' g Hok Hg) as (_ & _ & _ & _ & _ & Hsteps & _).
  destruct (gate_new_slots r config r' g (proj1 Hok) He Hg) as (Hgen' & Hidle & Hprep).
  assert (runtime_ok r') as Hok' by (by eapply runtime_steps_ok). split; [congruence|]. split; [done|]. split; [done|].
  rewrite occupied_size by apply Hok'. assert (occupied_set r' ⊆ {[ reveal_coord config ]}) as Hsub.
  { intros c. rewrite elem_of_occupied by apply Hok'. intros [[->|Hx]%Hprep|[i Hi]]; [set_solver| |].
    - by destruct (Hnp c).
    - by destruct (Hidle c i). }
  apply subseteq_size in Hsub. rewrite size_singleton in Hsub. lia.
Qed.

Lemma started_system min w h f rev size r settings scheduler r' gate :
  coord_ok min -> 0 <= w -> 0 <= h -> rectangular min w h = Ok f -> 0 <= rev < 2 ^ 64 ->
  runtime_new f rev (cfg_generator_version cfg) size = Ok r ->
  (scheduler = true -> scheduler_ok blake3_hash blake3_keyed cfg /\
     (is_Some (set_reveal settings) -> 1 <= max_prepared_quadrants (cfg_settings cfg))) ->
  (forall c, c ∈ initial_quadrants f -> lattice_ok (to_fqc c)) ->
  (forall config, set_reveal settings = Some config -> lattice_ok (to_fqc (reveal_coord config))) ->
  match set_reveal settings with
  | None => r' = r /\ gate = None
  | Some config => exists g, gate_new r config = (r', Ok g) /\ gate = Some g
  end ->
  system_ok blake3_hash blake3_keyed cfg scheduler gate (sys_init r').
Proof.
  intros Hmin Hw Hh Hf Hrev Hr Hsched Hlat Hglat Hgate.
  destruct (runtime_new_ok _ _ _ _ _ _ _ _ Hmin Hw Hh Hf Hrev Hr) as [Hok _].
  pose proof (runtime_new_revealed _ _ _ _ _ _ _ _ Hmin Hw Hh Hf Hrev Hr) as Hrevealed.
  destruct (set_reveal settings) as [config|].
  - destruct Hgate as (g & Hg & ->).
    destruct (gate_occupied _ _ _ _ _ _ _ _ _ _ Hmin Hw Hh Hf Hrev Hr Hg) as (Hgen & Hok' & Hidle & Hocc).
    destruct (gate_new_Ok r config r' g Hok Hg) as (Hgok & Hcoord & _ & _ & _ & _ & Hrank & _ & Hsame).
    split; [done| | |].
    + intros Hs. destruct (Hsched Hs) as [_ Hmax]. apply idle_sys_inv; [apply Hok'|done|done|].
      specialize (Hmax ltac:(done)). lia.
    + cbn [sys_frontier sys_init]. rewrite Hsame, Hrevealed. done.
    + intros g0 [= <-]. split; [done|]. rewrite Hcoord. split; [by apply Hglat|]. by rewrite <- Hcoord.
  - destruct Hgate as [-> ->]. split; [done| | |done].
    + intros Hs. destruct (Hsched Hs) as [(_ & Hmax & _) _]. by exact (sys_init_inv _ _ _ _ _ _ _ _ _ _ Hmin Hw Hh Hf Hrev Hr Hmax).
    + cbn [sys_frontier sys_init]. by rewrite Hrevealed.
Qed.

Lemma started_inv s0 : server_started s0 -> inv s0 /\ effects (outside s0) = [].
Proof.
  intros (channel & min & w & h & f & rev & size & r & settings & router & scheduler & postgres & buffer &
    Hmin & Hw & Hh & Hf & Hrev & Hr & Hnew & Hempty & Hzone & Hspawn & Hpol & Hsched & Hlat & Hglat).
  unfold session_runtime_new in Hnew. case_match; [done|].
  apply bind_Ok in Hnew as ([r' gate] & Hgate & Hnew). apply bind_Ok in Hnew as (ing & Hing & [= <-]).
  assert (system_ok blake3_hash blake3_keyed cfg scheduler gate (sys_init r')) as Hsys.
  { refine (started_system _ _ _ _ _ _ _ settings _ _ _ Hmin Hw Hh Hf Hrev Hr Hsched Hlat Hglat _).
    destruct (set_reveal settings) as [config|]; [|by injection Hgate as <- <-].
    destruct (gate_new r config) as [r1 [g|]]; [|done]. injection Hgate as <- <-. by exists g. }
  unfold ingress_bounded in Hing. case_decide; [done|]. injection Hing as <-.
  split; [|done]. split; unfold state_of; parts; try done; cbn.
  - split; cbn; try done. intros E. by destruct (Hsched E).
  - intros ch cid. rewrite !lookup_empty. split; [done|]. by intros (_ & _ & [? ?]).
  - by rewrite Hempty.
  - unfold expected_present. parts. by rewrite decide_False by naive_solver.
Qed.

(** One turn of the loop that does not end it. *)
Definition turn (s s' : Srv) : Prop := exists l, ok s l /\ run l s = (s', Ok tt).

Lemma run_spec s l s' r : inv s -> ok s l -> run l s = (s', r) ->
  step_good blake3_hash blake3_keyed cfg s l s' r.
Proof.
  intros Hs Hl E. pose proof (server_step_spec blake3_hash blake3_keyed cfg env s l Hs Hl) as H. unfold runs in H. by rewrite E in H.
Qed.

Lemma turns_inv s s' : inv s -> rtc turn s s' -> inv s' /\ fixed s' = fixed s.
Proof.
  intros Hs H. induction H as [|s s1 s' (l & Hl & E) _ IH]; [done|].
  apply run_spec in E as (Hf & _ & H1); [|done..]. destruct (IH H1) as [? ->]. done.
Qed.

Lemma reached_inv s0 s : server_started s0 -> rtc turn s0 s -> inv s /\ fixed s = fixed s0.
Proof. intros [H0 _]%started_inv. by apply turns_inv. Qed.

Lemma turns_rtc s0 trace s : turns blake3_hash blake3_keyed cfg env s0 trace s -> rtc turn s0 s.
Proof. induction 1 as [|trace s l s' _ IH Hl E]; [done|]. eapply rtc_r; [exact IH|]. by exists l. Qed.

Lemma started_no_sessions s0 : server_started s0 ->
  connection_by_session s0 = ∅ /\ contents (authorized_tx (ingress s0)) = [].
Proof.
  intros (channel & min & w & h & f & rev & size & r & settings & router & scheduler & postgres & buffer &
    _ & _ & _ & _ & _ & _ & Hnew & Hempty & _). unfold session_runtime_new in Hnew. case_match; [done|].
  apply bind_Ok in Hnew as ([r' gate] & _ & Hnew). apply bind_Ok in Hnew as (ing & Hing%map_err_Ok & [= <-]).
  unfold ingress_bounded in Hing. case_decide; [done|]. by injection Hing as <-.
Qed.

(** ** Where the intents come from *)

(** The message of a client behind an authorised intent: it was taken from the transport in a state in which its
    connection had acknowledged the frontier and belonged to the session of the intent. *)
Definition received (s0 : Srv) (trace : list ServerStep) (i : AuthorizedIntent) : Prop :=
  exists before after s1 cid m a,
    trace = before ++ StepTransport (MoveIntentReceived cid m) a :: after /\
    turns blake3_hash blake3_keyed cfg env s0 before s1 /\ current_synced s1 cid /\
    connection_by_session s1 !! ai_session_id i = Some cid /\ ai_sequence i = Intents.mv_sequence m /\
    ai_payload i = Move (Intents.mv_axis_x m) (Intents.mv_axis_y m).

Lemma received_snoc s0 trace i l : received s0 trace i -> received s0 (trace ++ [l]) i.
Proof.
  intros (before & after & s1 & cid & m & a & -> & H). exists before, (after ++ [l]), s1, cid, m, a.
  split; [by rewrite <- app_assoc|done].
Qed.

(** A turn adds to the queue only the intent of the message it takes. *)
Lemma turn_queue s l s' i : inv s -> ok s l -> run l s = (s', Ok tt) ->
  i ∈ contents (authorized_tx (ingress s')) ->
  i ∈ contents (authorized_tx (ingress s)) \/
  exists cid m a, l = StepTransport (MoveIntentReceived cid m) a /\ current_synced s cid /\
    connection_by_session s !! ai_session_id i = Some cid /\ ai_sequence i = Intents.mv_sequence m /\
    ai_payload i = Move (Intents.mv_axis_x m) (Intents.mv_axis_y m).
Proof.
  intros Hs Hl E Hi. apply step_told in E.
  assert (told s' = told s -> i ∈ contents (authorized_tx (ingress s))) as Hsame by (intros [= _ Eq]; by rewrite <- Eq).
  destruct l as [[cid sid rt sender|cid m|cid m|cid rev|cid sid] a|intent rest|snapshot|a|now|a|a|w store]; try (left; by apply Hsame).
  - left. injection E as _ Eq. by rewrite <- Eq.
  - destruct E as [_ [->|[Eq Hsync]]]; [by left|]. rewrite Eq in Hi. unfold try_ingest_move in Hi.
    destruct (authorize_from_connection _ _ _ _) as [R r] eqn:Ea.
    destruct (authorize_Ok blake3_hash blake3_keyed cfg s cid _ _ _ R r Hs Ea) as (_ & _ & _ & Hauth).
    destruct r as [j|e]; [|by left]. destruct (try_send _ _) as [q o] eqn:Et. cbn in Hi. destruct o as [err|].
    + apply try_send_err in Et as ->. by left.
    + apply try_send_ok in Et. rewrite Et, elem_of_app, list_elem_of_singleton in Hi. destruct Hi as [Hi| ->]; [by left|right].
      destruct (Hauth j eq_refl) as (ac & ch & z & _ & (_ & _ & Hp) & Hc & Hq).
      exists cid, m, a. split; [done|]. split; [by eapply synced_current|]. split; [by apply (sv_sessions Hs)|done].
  - left. injection E as _ Eq. by rewrite <- Eq.
  - left. injection E as _ Eq. cbn in Hl. rewrite Hl, <- Eq. by right.
Qed.

Lemma queue_received s0 trace s : server_started s0 -> turns blake3_hash blake3_keyed cfg env s0 trace s ->
  forall i, i ∈ contents (authorized_tx (ingress s)) -> received s0 trace i.
Proof.
  intros H0 H. induction H as [|trace s l s' H IH Hl E]; intros i Hi.
  - rewrite (proj2 (started_no_sessions s0 H0)) in Hi. by apply not_elem_of_nil in Hi.
  - destruct (reached_inv s0 s H0 (turns_rtc _ _ _ H)) as [Hs _].
    apply (turn_queue s l s' i Hs Hl E) in Hi as [Hi|(cid & m & a & -> & Hm)]; [by apply received_snoc, IH|].
    by exists trace, [], s, cid, m, a.
Qed.

(** Sessions are admitted for one connection only, when no identifier is admitted twice. *)
Lemma admitted_once {A B} (l : list (A * B)) a a' b : NoDup l.*2 -> (a, b) ∈ l -> (a', b) ∈ l -> a = a'.
Proof.
  intros Hnd (i & Hi)%list_elem_of_lookup (j & Hj)%list_elem_of_lookup.
  assert (i = j) as ->; [|congruence]. eapply list.NoDup_lookup; [exact Hnd|rewrite list_lookup_fmap, Hi|rewrite list_lookup_fmap, Hj]; done.
Qed.

(** What a client sent, and what reaches the zone in its name. *)
Definition from_client (s0 : Srv) (trace : list ServerStep) (s : Srv) (e : Effect) : Prop :=
  match e with
  | CommandQueued zone (ZoneMoveIntent c sequence input) =>
      exists before after s1 cid sid m a,
        trace = before ++ StepTransport (MoveIntentReceived cid m) a :: after /\
        turns blake3_hash blake3_keyed cfg env s0 before s1 /\
        (connection_by_session s1 !! sid = Some cid /\ connection_by_session s !! sid = Some cid) /\
        (current_synced s1 cid /\ current_synced s cid) /\ state_of s cid = Some (WorldActive 1 c zone) /\
        sequence = Intents.mv_sequence m /\ axis_x input = Intents.mv_axis_x m /\ axis_y input = Intents.mv_axis_y m
  | _ => True
  end.

Lemma caused_from_client s0 trace s l y e : server_started s0 -> turns blake3_hash blake3_keyed cfg env s0 trace s ->
  NoDup (admissions trace).*2 -> ok s l -> caused s l y e -> from_client s0 trace s e.
Proof.
  intros H0 H Hnd Hl He. destruct e as [| | | |zone command| |]; try done. destruct command; try done.
  destruct He as (-> & intent & rest & cid & -> & Hsync & Hst & Hcid & -> & Hp). cbn in Hl.
  destruct (queue_received s0 trace s H0 H intent) as (before & after & s1 & cid' & m & a & -> & H1 & Hsync1 & Hcid1 & Hq & Hp1);
    [rewrite Hl; by left|].
  destruct (started_no_sessions s0 H0) as [Hempty _].
  pose proof (sessions_admitted _ _ _ _ s0 _ s _ _ H Hempty Hcid) as Ha.
  pose proof (sessions_admitted _ _ _ _ s0 _ s1 _ _ H1 Hempty Hcid1) as Ha1.
  assert (cid' = cid) as ->.
  { apply (admitted_once _ cid' cid (ai_session_id intent) Hnd); [|done]. unfold admissions in *. rewrite omap_app. apply elem_of_app. by left. }
  rewrite Hp1 in Hp. injection Hp as Hx Hy. exists before, after, s1, cid, (ai_session_id intent), m, a. by split_goals.
Qed.

(** The connection is served. *)
Definition served (s : Srv) (cid : Z) : Prop := is_Some (reliable_by_connection s !! cid).

Lemma served_dom {A} s (m : gmap Z A) cid : dom m = dom (reliable_by_connection s) -> served s cid <-> is_Some (m !! cid).
Proof. intros E. unfold served. by rewrite <- !elem_of_dom, E. Qed.

(** The second client of a development server. *)
Lemma second_admission s cid sid rt sender a c (l := StepTransport (Q := Q) (SessionAdmitted cid sid rt sender) a) :
  inv s -> ok s l -> development_auto_admit (fixed s) = true -> served s c ->
  runs (run l) s (fun _ r => r = Err (DevelopmentSnapshotBinding (CharacterRouted 1 c))).
Proof.
  intros Hs (Hfresh & Hrt & Hsend & _) Hdev Hc0. assert (connection_by_character (snapshot_bridge s) !! 1 = Some c) as Hbound
    by (by apply (sv_bound Hs)). cbn [step_run l handle_transport_event]. unfold handle_admitted.
  pose proof Hfresh as (Hcid & Hsid & Hc & Hnew).
  destruct (register_Ok _ cid sid (sv_registry Hs) Hc Hnew Hcid Hsid) as (R & HR & Hwf & _ & Hst).
  apply runs_bind. eapply register_admitted_runs; [done..|]. set (s1 := registered s cid sid rt sender (ans_now a) R).
  apply runs_get. change (fixed s1) with (fixed s). rewrite Hdev. apply runs_bind. unfold auto_admit. apply runs_get.
  destruct (fx_zone (sv_fixed Hs)) as [_ Hz0].
  destruct (reg_call_Ok R cid _ (CallAuthenticate 1) (Authenticated 1) Hwf ltac:(by rewrite Hst, decide_True)
    eq_refl) as (R1 & HR1 & Hwf1 & _ & Hst1).
  eapply runs_registry; [exact HR1|].
  destruct (reg_call_Ok R1 cid _ (CallBindCharacter 1 (zone_id (fixed s))) (CharacterBound 1 1 (zone_id (fixed s))) Hwf1
    ltac:(by rewrite Hst1, decide_True) ltac:(cbn; by rewrite decide_False by naive_solver)) as (R2 & HR2 & _).
  eapply runs_registry; [exact HR2|].
  apply runs_bind. unfold runs at 1, on_bridge, bridge_bind_character. parts. change (snapshot_bridge s1) with
    (mk_bridge (<[cid := rt]> (realtime_by_connection (snapshot_bridge s))) (connection_by_character (snapshot_bridge s))).
  parts. by rewrite lookup_insert_eq, Hbound.
Qed.

(** ** The theorems *)

(** C2: the tables of the session runtime agree, whatever happened since the server
    started: a connection is served if and only if it has a datagram capability, a
    synchronisation state, and a session that is admitted (outside the development
    environment) or active in the server's zone (inside), and every other session that
    is left is closing; sessions and connections are in bijection; only the development
    character is ever routed, to the one connection that is served.  Every
    synchronisation state stands at the current revision of the frontier, and every
    delivery that is tracked belongs to a connection that has still to acknowledge it
    and has been retried no more often than allowed.  The manifest always encodes, and
    the preparation budget is kept. *)
Theorem session_runtime_invariant (s0 s : Srv) :
  server_started s0 -> rtc turn s0 s ->
  let R := ing_registry (ingress s) in let b := snapshot_bridge s in let dev := development_auto_admit (fixed s0) in
  (forall cid, served s cid <-> is_Some (realtime_by_connection b !! cid)) /\
  (forall cid, served s cid <-> is_Some (frontier_sync s !! cid)) /\
  (forall cid sender rt, reliable_by_connection s !! cid = Some sender -> realtime_by_connection b !! cid = Some rt ->
     reliable_connection_id sender = cid /\ realtime_connection_id rt = cid) /\
  (forall cid st, state_of s cid = Some st ->
     st = if decide (served s cid) then if dev then WorldActive 1 1 (zone_id (fixed s0)) else ProtocolAdmitted else Closing) /\
  (forall cid, served s cid -> is_Some (state_of s cid)) /\
  (forall sid cid, connection_by_session s !! sid = Some cid <-> by_connection R !! cid = Some sid) /\
  (forall sid cid cid', connection_by_session s !! sid = Some cid -> by_connection R !! cid' = Some sid -> cid' = cid) /\
  (forall ch cid, connection_by_character b !! ch = Some cid <-> ch = 1 /\ dev = true /\ served s cid) /\
  (forall cid cid', dev = true -> served s cid -> served s cid' -> cid = cid') /\
  (forall cid st, frontier_sync s !! cid = Some st -> state_revision st = current_revision s) /\
  (forall cid p, frontier_delivery s !! cid = Some p ->
     frontier_sync s !! cid = Some (Pending (current_revision s)) /\ pending_revision p = current_revision s /\
     0 <= retries_sent p <= max_retries (delivery_policy (fixed s0))) /\
  (exists m payload, manifest (sys_frontier (sys s)) = Ok m /\ Manifest.encode m = Ok payload /\
     Manifest.revision m = current_revision s) /\
  (has_scheduler (fixed s0) = true -> occupied (sys_frontier (sys s)) <= max_prepared_quadrants (cfg_settings cfg)).
Proof.
  intros H0 Hrun. destruct (reached_inv s0 s H0 Hrun) as [Hs <-]. cbv zeta. split_goals.
  - intros cid. apply served_dom. by rewrite (sv_realtime_dom Hs).
  - intros cid. apply served_dom. by rewrite (sv_sync_dom Hs).
  - intros cid sender rt H1 H2. split; [by eapply sv_reliable|by eapply sv_realtime].
  - intros cid st Hst. case_decide as Hd.
    + rewrite (served_registered _ _ _ s cid Hs Hd) in Hst. by injection Hst as <-.
    + eapply (sv_closed Hs); [exact Hst|]. by apply eq_None_not_Some.
  - intros cid Hc. by rewrite (served_registered _ _ _ s cid Hs Hc).
  - apply (sv_sessions Hs).
  - intros sid cid cid' H1%(sv_sessions Hs) H2. destruct (rw_conn _ (sv_registry Hs) _ _ H1) as (live & E1 & <-).
    destruct (rw_conn _ (sv_registry Hs) _ _ H2) as (live' & E2 & <-). congruence.
  - apply (sv_bound Hs).
  - intros cid cid'. by apply (served_once blake3_hash blake3_keyed cfg s).
  - apply (sv_sync Hs).
  - intros cid p Hp. pose proof (sv_pending Hs cid p Hp) as Hsync. pose proof (sv_sync Hs _ _ Hsync) as Hrev. cbn in Hrev.
    rewrite <- Hrev. split_goals; [done|done|by apply (sv_delivery Hs cid p)..].
  - destruct (system_manifest _ _ _ _ _ _ (sv_system Hs)) as (m & payload & ? & ? & _ & ? & _). by exists m, payload.
  - intros Hsched. apply (si_budget _ _ _ _ (sy_scheduler _ _ _ _ _ _ (sv_system Hs) Hsched)).
Qed.

(** C7: the loop of the session runtime ends with an error in four cases only, all
    others are handled: the queue of the zone is full or closed when a character is to
    spawn on admission or to leave, or closed when an intent is routed to it; the channel
    of authorised intents is closed when a move arrives; the frontier that is to be
    revealed holds 65535 quadrants already or stands at the last revision; or a second
    client connects to a development server, which has one character - and this last
    one always ends it. *)
Theorem runtime_stops_only (s0 s s' : Srv) (l : ServerStep) (r : result ServerError unit) :
  server_started s0 -> rtc turn s0 s -> ok s l -> run l s = (s', r) ->
  match r with
  | Ok _ => True
  | Err e =>
      (exists e', e = SpawnFailed e' /\ queue_problem (zone_id (fixed s0)) "spawn character" e' /\
         exists cid sid rt sender a, l = StepTransport (SessionAdmitted cid sid rt sender) a) \/
      (exists e', e = DespawnFailed e' /\ queue_problem (zone_id (fixed s0)) "despawn character" e' /\
         exists event a, l = StepTransport event a) \/
      (e = RoutingFailed (CommandQueueClosed (zone_id (fixed s0))) /\ exists intent rest, l = StepAuthorized intent rest) \/
      (e = AuthorizedQueueClosed /\ exists cid intent a, l = StepTransport (MoveIntentReceived cid intent) a) \/
      (exists e', e = FrontierFailed e' /\ frontier_used_up (rt_state (sys_frontier (sys s))) e' /\ exists a, l = StepReveal a) \/
      (exists c, e = DevelopmentSnapshotBinding (CharacterRouted 1 c) /\ served s c /\
         exists cid sid rt sender a, l = StepTransport (SessionAdmitted cid sid rt sender) a)
  end /\
  (forall cid sid rt sender a c, l = StepTransport (SessionAdmitted cid sid rt sender) a ->
     development_auto_admit (fixed s0) = true -> served s c ->
     r = Err (DevelopmentSnapshotBinding (CharacterRouted 1 c))).
Proof.
  intros H0 Hrun Hl E. destruct (reached_inv s0 s H0 Hrun) as [Hs <-]. split.
  - destruct (run_spec _ _ _ _ Hs Hl E) as (_ & _ & Hr). destruct r as [[]|e]; [done|].
    destruct e; try done; cbn in Hr; try (by eauto 10).
    2: { destruct Hr as [-> Hr]. by do 2 right; left. }
    destruct e as [| |ch c|]; try done. assert (ch = 1) as -> by (by destruct ch as [|[]|]).
    destruct Hr as (_ & Hc & Hadm). do 5 right. eauto.
  - intros cid sid rt sender a c -> Hdev Hc.
    pose proof (second_admission s cid sid rt sender a c Hs Hl Hdev Hc) as H. unfold runs in H. by rewrite E in H.
Qed.

(** C3: a client takes part in the game only while it has acknowledged the current
    frontier.  Whatever a step does to the outside is caused by its event: a move or a
    mining command reaches the zone, and a movement snapshot reaches a client, only for
    a session that is active in that zone with this character and whose connection has
    acknowledged the revision the frontier has now; the contracts of the revealed
    quadrants go to a connection only in the step that acknowledges that revision; and
    what is sent as the manifest is the encoding of the manifest of the frontier as it is
    now.  A move that reaches the zone has the sequence and the axes of a message that
    the same connection, of the same session, sent earlier in the run, when it had
    acknowledged the frontier of that time; this holds as long as no session identifier
    is admitted twice, which the transport sees to.  What a connection sends before it
    has acknowledged changes nothing. *)
Theorem gameplay_gated (s0 s s' : Srv) (trace : list ServerStep) (l : ServerStep) (r : result ServerError unit) :
  server_started s0 -> turns blake3_hash blake3_keyed cfg env s0 trace s -> NoDup (admissions trace).*2 ->
  ok s l -> run l s = (s', r) ->
  (exists new, effects (outside s') = effects (outside s) ++ new /\ Forall (caused s l (sys s')) new /\
     Forall (from_client s0 trace s) new) /\
  (forall cid, ~ current_synced s cid ->
     (exists intent a, l = StepTransport (MoveIntentReceived cid intent) a) \/
     (exists intent a, l = StepTransport (MineIntentReceived cid intent) a) -> s' = s /\ r = Ok tt).
Proof.
  intros H0 Hrun Hnd Hl E. destruct (reached_inv s0 s H0 (turns_rtc _ _ _ Hrun)) as [Hs _]. split.
  - destruct (run_spec _ _ _ _ Hs Hl E) as (_ & (new & Enew & Hnew) & _). exists new. split; [done|]. split; [done|].
    eapply Forall_impl; [|exact Hnew]. intros e. by apply caused_from_client.
  - intros cid Hns. assert (is_synced (frontier_sync s) cid = false) as Hfalse.
    { destruct (is_synced _ _) eqn:Ei; [|done]. by eapply synced_current in Ei. }
    intros [(intent & a & ->)|(intent & a & ->)]; cbn in E; unfold handle_move_intent, handle_mine_intent, get, mbind, M_bind in E;
      rewrite Hfalse in E; by injection E as <- <-.
Qed.
End ServerCorrect.

(** ** A development server with one client *)

Section Demo.
#[local] Existing Instance bounded_queue.
Abbreviation Channel := (nat * bool * list AuthorizedIntent)%type.
Abbreviation run := (step_run (Q := Channel) constant_hash constant_keyed pool_config).
Abbreviation ok := (step_ok (Q := Channel) constant_hash constant_keyed pool_config).

(** Everything that is sent arrives. *)
Definition calm : Environment :=
  {| env_write := fun _ _ _ => None; env_datagram := fun _ _ => None; env_zone := fun _ _ => None |}.

Definition srv_settings : SessionRuntimeSettings :=
  runtime_settings_new 4 3 true (Some {| reveal_coord := mk_coord 0 (-1); reveal_delay := 10 |}).

Definition srv_router : WorldRouter := {| zones := {[ 3 ]} |}.
Definition srv_channel (capacity : Z) : Channel := (Z.to_nat capacity, true, []).

Definition no_answers (now : Z) : Answers :=
  {| ans_now := now; ans_inventory := Err tt; ans_position := Err tt; ans_reply := fun _ => None; ans_retained := [];
     ans_connections := [] |}.

Definition start_srv : result ServerError (SessionRuntime (Q := Channel)) :=
  session_runtime_new srv_channel srv_settings srv_router example_runtime false false false.

Definition srv0 : SessionRuntime (Q := Channel) :=
  match start_srv with
  | Ok s => s
  | Err _ => mk_runtime (mk_ingress empty_registry (srv_channel 0)) empty_bridge ∅ ∅ ∅ ∅ (sys_init example_runtime) None
               (mk_outside ∅ [])
               {| has_scheduler := false; world_router := srv_router; bootstrap_frontier_revision := 0;
                  development_auto_admit := false; development_spawn_position := mk_pos 0 0 0; zone_id := 0;
                  delivery_policy := delivery_default; postgres_client := false; position_buffer := false |}
  end.

Definition client (cid sid now : Z) : ServerStep (Q := Channel) :=
  StepTransport (SessionAdmitted cid sid {| realtime_connection_id := cid; maximum_datagram_bytes := 1200 |}
    {| reliable_connection_id := cid; negotiated_protocol_minor := 2; maximum_payload_bytes := 65535; send_timeout := 1 |})
    (no_answers now).

Definition acknowledges (cid rev : Z) : ServerStep (Q := Channel) :=
  StepTransport (FrontierManifestAckReceived cid rev) (no_answers 1).
Definition moves (cid : Z) : ServerStep (Q := Channel) :=
  StepTransport (MoveIntentReceived cid {| Intents.mv_sequence := 1; Intents.mv_axis_x := 32767; Intents.mv_axis_y := 0 |}) (no_answers 2).

Definition srv1 := (run calm (client 10 20 0) srv0).1.
Definition srv2 := (run calm (acknowledges 10 5) srv1).1.
Definition srv3 := (run calm (moves 10) srv2).1.

Lemma srv_start : start_srv = Ok srv0.
Proof. unfold srv0. destruct start_srv eqn:E; [done|]. by vm_compute in E. Qed.

Lemma srv_started : server_started constant_hash constant_keyed pool_config srv0.
Proof.
  exists srv_channel, (mk_coord 0 0), 1, 1, one_quadrant, 5, 64000, example_runtime, srv_settings, srv_router, false, false, false.
  split; [split; vm_compute; split; congruence|]. do 2 (split; [lia|]). split; [reflexivity|]. split; [lia|].
  split; [exact example_runtime_new|]. split; [exact srv_start|]. split; [reflexivity|].
  split; [split; [set_solver|done]|]. split; [repeat split; vm_compute; congruence|].
  split; [unfold policy_ok; cbn; lia|]. split; [done|]. split.
  - intros c ->%list_elem_of_singleton. unfold lattice_ok, in_i; cbn. lia.
  - intros config [= <-]. unfold lattice_ok, in_i; cbn. lia.
Qed.

Lemma srv_turn l s : ok s l -> snd (run calm l s) = Ok tt ->
  turn constant_hash constant_keyed pool_config calm s (run calm l s).1.
Proof. intros Hl E. exists l. split; [done|]. rewrite <- E. apply surjective_pairing. Qed.

Lemma client_ok s cid sid now : fresh s cid sid -> ok s (client cid sid now).
Proof. intros H. split; [done|]. do 2 (split; [done|]). split; [vm_compute; congruence|]. done. Qed.

Lemma srv_reached1 : rtc (turn constant_hash constant_keyed pool_config calm) srv0 srv1.
Proof.
  apply rtc_once, srv_turn; [|vm_compute; reflexivity]. apply client_ok. split; [done|]. split; [done|].
  split; vm_compute; reflexivity.
Qed.

Lemma srv_reached2 : rtc (turn constant_hash constant_keyed pool_config calm) srv0 srv2.
Proof.
  eapply rtc_r; [exact srv_reached1|]. apply srv_turn; [|vm_compute; reflexivity].
  cbn [step_ok acknowledges ans_retained no_answers]. assert (sys_retained (sys srv1) = ∅) as -> by (vm_compute; reflexivity).
  by rewrite map_to_list_empty.
Qed.

Lemma session_runtime_invariant_witness :
  served srv2 10 /\ state_of srv2 10 = Some (WorldActive 1 1 3) /\
  frontier_sync srv2 !! 10 = Some (Synced 5) /\ current_revision srv2 = 5.
Proof.
  destruct (session_runtime_invariant constant_hash constant_keyed pool_config calm srv0 srv2 srv_started srv_reached2)
    as (_ & H1 & _ & _ & _ & _ & _ & _ & _ & H2 & _).
  assert (frontier_sync srv2 !! 10 = Some (Synced 5)) as E by (vm_compute; reflexivity).
  split; [apply H1; rewrite E; eexists; reflexivity|]. split; [vm_compute; reflexivity|]. split; [exact E|].
  symmetry. exact (H2 10 _ E).
Defined.

(** A second client. *)
Lemma runtime_stops_only_witness :
  snd (run calm (client 11 21 1) srv1) = Err (DevelopmentSnapshotBinding (CharacterRouted 1 10)).
Proof.
  destruct (run calm (client 11 21 1) srv1) as [s' r] eqn:E.
  destruct (runtime_stops_only constant_hash constant_keyed pool_config calm srv0 srv1 s' (client 11 21 1) r srv_started
    srv_reached1) as [_ H]; [|exact E|].
  - apply client_ok. split; [done|]. split; [done|]. split; vm_compute; reflexivity.
  - eapply (H 11 21 _ _ _ 10); [reflexivity|vm_compute; reflexivity|]. eexists. vm_compute. reflexivity.
Defined.

(** The move of a client that has not acknowledged the frontier is ignored; after the
    acknowledgement it is queued, and its sequence number and axes reach the zone. *)
Definition queued_move : AuthorizedIntent :=
  {| ai_session_id := 20; ai_account_id := 1; ai_character_id := 1; ai_zone_id := 3; ai_sequence := 1; ai_payload := Move 32767 0 |}.
Definition routes_move : ServerStep (Q := Channel) := StepAuthorized queued_move (4%nat, true, []).

Lemma moves_ok s : ok s (moves 10).
Proof. repeat split; vm_compute; congruence. Qed.

Lemma srv_turns : turns constant_hash constant_keyed pool_config calm srv0 [client 10 20 0; acknowledges 10 5; moves 10] srv3.
Proof.
  assert (forall trace s l, turns constant_hash constant_keyed pool_config calm srv0 trace s -> ok s l ->
    snd (run calm l s) = Ok tt -> turns constant_hash constant_keyed pool_config calm srv0 (trace ++ [l]) (run calm l s).1) as Hsnoc.
  { intros trace s l H Hl E. eapply turns_snoc; [exact H|exact Hl|]. rewrite <- E. apply surjective_pairing. }
  apply (Hsnoc [client 10 20 0; acknowledges 10 5] srv2); [|apply moves_ok|vm_compute; reflexivity].
  apply (Hsnoc [client 10 20 0] srv1); [| |vm_compute; reflexivity].
  - apply (Hsnoc [] srv0); [apply turns_nil| |vm_compute; reflexivity]. apply client_ok. split; [done|]. split; [done|]. split; vm_compute; reflexivity.
  - cbn [step_ok acknowledges ans_retained no_answers]. assert (sys_retained (sys srv1) = ∅) as -> by (vm_compute; reflexivity).
    by rewrite map_to_list_empty.
Qed.

Lemma gameplay_gated_witness :
  contents (authorized_tx (ingress srv3)) = [queued_move] /\
  exists new, effects (outside (run calm routes_move srv3).1) = effects (outside srv3) ++ new /\
    new = [CommandQueued 3 (ZoneMoveIntent 1 1 {| axis_x := 32767; axis_y := 0 |})] /\
    Forall (from_client constant_hash constant_keyed pool_config calm srv0 [client 10 20 0; acknowledges 10 5; moves 10] srv3) new.
Proof.
  split; [vm_compute; reflexivity|]. destruct (run calm routes_move srv3) as [s' r] eqn:E.
  destruct (gameplay_gated constant_hash constant_keyed pool_config calm srv0 srv3 s' [client 10 20 0; acknowledges 10 5; moves 10]
    routes_move r srv_started srv_turns) as [(new & Hnew & _ & Hfrom) _].
  - cbn. constructor; [apply not_elem_of_nil|constructor].
  - vm_compute. reflexivity.
  - exact E.
  - exists new. cbn [fst]. split; [exact Hnew|]. split; [|exact Hfrom]. assert (s' = (run calm routes_move srv3).1) as -> by (by rewrite E).
    eapply app_inv_head. rewrite <- Hnew. vm_compute. reflexivity.
Defined.
End Demo.

(** The quadrant the position buffer is told truncates: one millimetre west of the
    origin is stored as quadrant 0, although the world counts it to quadrant -1. *)
Example tracked_quadrant_truncates : quadrant_or_zero (-1) 512000 = 0 /\ div_euclid (-1) 512000 = -1.
Proof. split; reflexivity. Qed.
