(* ===== verification/ServerZone.v ===== *)
(** The session runtime and the zone it serves, together: the zone executes the commands
    it has been sent one after the other, with ticks between them, possibly far behind
    the session runtime - and never has to refuse one. *)

From S2P Require Import Prelude Core Frontier Preparation Runtime Scheduler SchedulerSafety PublicContracts Delivery Session Sync.
From S2P Require Import Bags Movement Traversal Ecs Zone ZoneMovement ZoneInventory ZoneSafety ZoneCorrect.
From S2P Require Import Egress Router Server ServerInv ServerSteps ServerCorrect.
Import World Bags.Bags Equipment.

Section ServerZone.
Context {Q : Type} `{!MpscSender Q AuthorizedIntent}.
Context {Entity W : Type} `{!Ecs Components Entity W} `{!EqDecision Entity} `{!EcsLaws Components Entity W}.
Context (blake3_hash : list Z -> list Z) (blake3_keyed : list Z -> list Z -> list Z) (cfg : SchedulerConfig).
Context (env : Environment).

Abbreviation Zone := (ZoneRuntime Entity W).

(** The zone's task, after [n] events: [cs] are the commands of the session runtime it
    has executed, [main.rs] may have put rocks into its queue as well. *)
Inductive zone_serves (z0 : Zone) : Z -> list ZoneCommand -> Zone -> Prop :=
| serves_start : zone_serves z0 0 [] z0
| serves_command n cs z command z' replies : zone_serves z0 n cs z -> zone_accept z command = Ok (z', replies) ->
    zone_serves z0 (n + 1) (cs ++ [command]) z'
| serves_rock n cs z p h z' replies : zone_serves z0 n cs z -> pos_ok p -> in_u 32 h ->
    zone_accept z (SpawnRock p h) = Ok (z', replies) -> zone_serves z0 (n + 1) cs z'
| serves_tick n cs z order z' out : zone_serves z0 n cs z -> enumerates order z -> zone_step order z = Ok (z', out) ->
    zone_serves z0 (n + 1) cs z'.

Lemma serves_run z0 n cs z : Forall command_ok cs -> zone_serves z0 n cs z -> zone_run z0 n z.
Proof.
  intros Hok H. induction H as [|n cs z command z' replies _ IH E|n cs z p h z' replies _ IH Hp Hh E|n cs z order z' out _ IH Ho E].
  - constructor.
  - apply Forall_app in Hok as [Hcs Hc]. apply list.Forall_cons in Hc as [Hc _]. by eapply run_accept; [apply IH| |].
  - eapply (run_accept z0 n z (SpawnRock p h)); [by apply IH|done|done].
  - eapply run_step; [by apply IH|done|done].
Qed.

(** ** What never changes in a zone *)

Record same_ground (z z' : Zone) : Prop := {
  sg_rules : movement_rules z' = movement_rules z;
  sg_traversal : traversal_world z' = traversal_world z
}.

#[global] Instance same_ground_preorder : PreOrder same_ground.
Proof. split; [done|]. intros z1 z2 z3 [] []. split; congruence. Qed.

Lemma accept_ground (z z' : Zone) command r : zone_accept z command = Ok (z', r) -> same_ground z z'.
Proof.
  destruct command as [cid p i rev|cid responder|cid responder|cid seq input|p h|cid pw|cid intent]; cbn.
  - destruct (validate_placement _ _ _) as [[]|]; [|done]. cbn. destruct (entity_map z !! cid); [done|].
    destruct (ecs_spawn _ _). by intros [= <- _].
  - destruct (entity_map z !! cid) as [e|]; [|done]. destruct (ecs_despawn (world z) e); [|done]. by intros [= <- _].
  - destruct (entity_map z !! cid); by intros [= <- _].
  - destruct (entity_map z !! cid) as [e|]; [|done]. cbn. destruct (ecs_update _ _ _); [|done]. by intros [= <- _].
  - by intros [= <- _].
  - destruct (entity_map z !! cid) as [e|]; [|done]. cbn. destruct (ecs_update _ _ _); [|done]. by intros [= <- _].
  - by intros [= <- _].
Qed.

Lemma process_one_keeps d a st request : let z := st.1 in let z' := (process_one (Entity := Entity) (W := W) d a st request).1 in
  same_ground z z' /\ entity_map z' = entity_map z.
Proof.
  destruct st as [z events], request as [player intent]. unfold process_one. cbn [fst].
  match goal with |- context [match ?x with Some _ => _ | None => _ end] => destruct x as [[[[e c] p] i]|] end; [|done].
  by destruct (process_intent _ _ _ _ _ _ _ _ _) as [[[i' bags'] next'] event].
Qed.

Lemma process_all_keeps d a requests : forall st, let z := st.1 in
  let z' := (foldl (process_one (Entity := Entity) (W := W) d a) st requests).1 in
  same_ground z z' /\ entity_map z' = entity_map z.
Proof.
  induction requests as [|request rest IH]; intros st; cbn [foldl]; [done|].
  destruct (process_one_keeps d a st request) as [H1 E1]. destruct (IH (process_one d a st request)) as [H2 E2].
  cbv zeta in *. split; [by etransitivity|congruence].
Qed.

Lemma step_keeps (z z' : Zone) order out : zone_step order z = Ok (z', out) -> same_ground z z' /\ entity_map z' = entity_map z.
Proof.
  unfold zone_step. intros H. apply bind_Ok in H as (t & _ & H). cbv zeta in H.
  apply bind_Ok in H as ([[w updates] rocks] & _ & H). unfold process_inventory_intents in H.
  destruct (tick_decay _ _ _) as [bags expired].
  match type of H with context [foldl ?f ?st ?l] => pose proof (process_all_keeps (fun _ => None) (fun _ => None) l st) as [Hg He] end.
  destruct (foldl _ _ _) as [z2 events]. cbn [fst] in *. injection H as <- _. by split; [etransitivity; [|exact Hg]|].
Qed.

Lemma serves_ground z0 n cs z : zone_serves z0 n cs z -> same_ground z0 z.
Proof.
  induction 1 as [|n cs z command z' replies _ IH E|n cs z p h z' replies _ IH Hp Hh E|n cs z order z' out _ IH Ho E].
  - done.
  - etransitivity; [exact IH|]. by eapply accept_ground.
  - etransitivity; [exact IH|]. by eapply accept_ground.
  - etransitivity; [exact IH|]. by apply step_keeps in E as [? _].
Qed.

(** ** Who is there *)

(** A command that is executed changes the characters of the zone the way the session
    runtime's books say. *)
Lemma accept_present (z z' : Zone) command r present : zone_accept z command = Ok (z', r) ->
  present_step (dom (entity_map z)) command = Some present -> dom (entity_map z') = present.
Proof.
  destruct command as [cid p i rev|cid responder|cid responder|cid seq input|p h|cid pw|cid intent]; cbn;
    repeat case_decide; try done.
  - destruct (validate_placement _ _ _) as [[]|]; [|done]. cbn. destruct (entity_map z !! cid); [done|].
    destruct (ecs_spawn _ _). intros [= <- _] [= <-]. cbn. by rewrite dom_insert_L.
  - destruct (entity_map z !! cid) as [e|]; [|done]. destruct (ecs_despawn (world z) e); [|done].
    intros [= <- _] [= <-]. cbn. by rewrite dom_delete_L.
  - destruct (entity_map z !! cid); by intros [= <- _] [= <-].
  - destruct (entity_map z !! cid) as [e|]; [|done]. cbn. destruct (ecs_update _ _ _); [|done]. by intros [= <- _] [= <-].
  - destruct (entity_map z !! cid) as [e|]; [|done]. cbn. destruct (ecs_update _ _ _); [|done]. by intros [= <- _] [= <-].
Qed.

Lemma serves_present z0 n cs z present : entity_map z0 = ∅ -> zone_serves z0 n cs z ->
  present_after ∅ cs = Some present -> dom (entity_map z) = present.
Proof.
  intros H0 H. revert present.
  induction H as [|n cs z command z' replies _ IH E|n cs z p h z' replies _ IH Hp Hh E|n cs z order z' out _ IH Ho E];
    intros present.
  - intros [= <-]. rewrite H0. apply dom_empty_L.
  - rewrite present_after_app. destruct (present_after ∅ cs) as [before|]; cbn; [|done]. rewrite <- (IH before eq_refl).
    destruct (present_step _ command) as [after'|] eqn:Ep; cbn; [|done]. intros [= <-]. by eapply accept_present.
  - intros Hpa. rewrite <- (IH present Hpa). cbn in E. by injection E as <- _.
  - intros Hpa. rewrite <- (IH present Hpa). by apply step_keeps in E as [_ ->].
Qed.

(** A command that fits the books of the session runtime is accepted. *)
Lemma present_accepts (z : Zone) command present : present_step (dom (entity_map z)) command = Some present ->
  (forall ch p inv rev, command = SpawnCharacter ch p inv rev -> standing (movement_rules z) (traversal_world z) p) ->
  accepts z command.
Proof.
  destruct command as [cid p i rev|cid responder|cid responder|cid seq input|p h|cid pw|cid intent]; cbn;
    repeat case_decide; try done; intros _ Hs.
  - split; [by eapply Hs|]. by apply not_elem_of_dom.
  - by apply elem_of_dom.
  - by apply elem_of_dom.
  - by apply elem_of_dom.
Qed.

Lemma started_empty (z0 : Zone) : started z0 -> entity_map z0 = ∅.
Proof.
  intros (id & hz & settings & traversal & z & _ & _ & _ & _ & E & ->). unfold zone_new in E. case_decide; [done|].
  apply bind_Ok in E as (rules & _ & [= <-]). done.
Qed.

(** C4: the session runtime never asks its zone for something the zone refuses: a zone
    that has executed the first of the commands that are in its queue, in order, with
    any ticks between them, executes the next one, whichever it is - it never meets a
    character twice, nor one that is not there - and every tick succeeds; so the task of
    the zone does not end.  When it has caught up, the characters in the zone are
    exactly those of the clients that are served.  The positions at which characters
    appear - the spawn position of the settings, or what was saved - have to be free. *)
Theorem server_zone_agree (s0 s : SessionRuntime (Q := Q)) (z0 z : Zone) (n : Z) (cs rest : list ZoneCommand) :
  server_started blake3_hash blake3_keyed cfg s0 -> rtc (turn blake3_hash blake3_keyed cfg env) s0 s ->
  started z0 -> zone_serves z0 n cs z -> n < MAX_AGE ->
  commands (zone_id (fixed s)) (effects (outside s)) = cs ++ rest ->
  (forall ch p inv rev, SpawnCharacter ch p inv rev ∈ rest -> standing (movement_rules z0) (traversal_world z0) p) ->
  (forall command rest', rest = command :: rest' -> exists z' replies, zone_accept z command = Ok (z', replies)) /\
  (forall order, enumerates order z -> exists z' out, zone_step order z = Ok (z', out)) /\
  (rest = [] -> forall ch, is_Some (entity_map z !! ch) <->
     ch = 1 /\ development_auto_admit (fixed s0) = true /\ exists cid, served s cid).
Proof.
  intros H0 Hrun Hz0 Hz Hn Hcs Hspawn. destruct (reached_inv _ _ _ _ s0 s H0 Hrun) as [Hs Hf]. rewrite <- Hf.
  pose proof (sv_commands Hs) as Hbooks. pose proof (sv_command_ok Hs) as Hok. rewrite Hcs in Hbooks, Hok.
  apply Forall_app in Hok as [Hok Hokr].
  destruct (started_run_wf z0 n z Hz0 (serves_run _ _ _ _ Hok Hz) Hn) as [Hn0 Hwf].
  pose proof (serves_ground _ _ _ _ Hz) as [Er Et]. rewrite present_after_app in Hbooks.
  destruct (present_after ∅ cs) as [present|] eqn:Hp; cbn in Hbooks; [|done].
  pose proof (serves_present _ _ _ _ _ (started_empty z0 Hz0) Hz Hp) as Hdom. split; [|split].
  - intros command rest' ->. cbn in Hbooks. apply list.Forall_cons in Hokr as [Hc _].
    destruct (present_step present command) as [present'|] eqn:Hstep; cbn in Hbooks; [|done]. rewrite <- Hdom in Hstep.
    assert (accepts z command) as Hacc.
    { eapply present_accepts; [exact Hstep|]. intros ch p inv rev ->. rewrite Er, Et. eapply Hspawn. by left. }
    pose proof (accept_spec n z command Hwf ltac:(lia) Hc) as H. destruct (zone_accept z command) as [[z' r]|e]; [eauto|].
    by destruct H.
  - intros order Ho. destruct (ZoneSafety.step_spec n z order Hwf Hn0 Ho) as (z' & out & E & _). eauto.
  - intros -> ch. cbn in Hbooks. injection Hbooks as ->. rewrite <- elem_of_dom, Hdom. unfold expected_present.
    case_decide as Hd.
    + rewrite elem_of_singleton. destruct Hd as [Hdev Hne]. apply map_choose in Hne as (cid & x & Hx).
      split; [|by intros [-> _]]. intros ->. split_goals; [done|done|]. exists cid. by exists x.
    + split; [set_solver|]. intros (_ & Hdev & cid & x & Hx). destruct Hd. split; [done|]. intros E. by rewrite E in Hx.
Qed.
End ServerZone.

(** ** The development server of [ServerCorrect.v] and the zone of [ZoneCorrect.v] *)

Section Demo.
#[local] Existing Instances map_ecs map_ecs_laws bounded_queue.

Lemma origin_free : standing (movement_rules demo0) (traversal_world demo0) (mk_pos 0 0 0).
Proof.
  apply (validate_standing _ _ _ (zw_ground 0 demo0 (proj1 (started_wf demo0 demo_started)))).
  - repeat split; vm_compute; congruence.
  - vm_compute. reflexivity.
Qed.

(** The client's character is in the queue; the zone has ticked once before. *)
Lemma server_zone_agree_witness :
  exists z z' replies, zone_step [] demo0 = Ok (z, mk_output [] []) /\
    commands 3 (effects (outside srv2)) = [SpawnCharacter 1 (mk_pos 0 0 0) (inventory_new 10 6) 0] /\
    zone_accept z (SpawnCharacter 1 (mk_pos 0 0 0) (inventory_new 10 6) 0) = Ok (z', replies).
Proof.
  destruct (zone_step [] demo0) as [[z out]|e] eqn:E; [|vm_compute in E; discriminate E].
  assert (commands 3 (effects (outside srv2)) = [SpawnCharacter 1 (mk_pos 0 0 0) (inventory_new 10 6) 0]) as Hc
    by (vm_compute; reflexivity).
  assert (enumerates [] demo0) as Ho.
  { intros id. assert (bags (dropped_bags demo0) = ∅) as -> by (vm_compute; reflexivity).
    rewrite lookup_empty. split; [intros []%not_elem_of_nil|intros []; done]. }
  destruct (server_zone_agree PublicContracts.constant_hash constant_keyed pool_config calm srv0 srv2 demo0 z 1 []
    [SpawnCharacter 1 (mk_pos 0 0 0) (inventory_new 10 6) 0] srv_started srv_reached2 demo_started) as (H & _).
  - exact (serves_tick demo0 0 [] demo0 [] z out (serves_start demo0) Ho E).
  - vm_compute. reflexivity.
  - exact Hc.
  - intros ch p inv rev Hin. apply list_elem_of_singleton in Hin. injection Hin as _ -> _ _. exact origin_free.
  - destruct (H _ _ eq_refl) as (z' & replies & Hz'). exists z, z', replies. split; [|split; [exact Hc|exact Hz']].
    assert (out = mk_output [] []) as -> by (vm_compute in E; injection E as _ <-; reflexivity). reflexivity.
Defined.
End Demo.
