(* ===== verification/Persistence.v ===== *)
(** Persistence ([crates/persistence/src]): inventories with optimistic concurrency
    ([inventory.rs]), the buffer of positions ([position_buffer.rs]), characters
    ([character.rs]) and the repository in memory ([items.rs]).  PostgreSQL is its tables
    and what it documents of the statements used; bincode and JSON are parameters. *)

From S2P Require Import Prelude Core Items Bags Movement Traversal Ecs Zone Egress ZoneCorrect ServerZone.
Import World Bags.Bags Equipment.

(** What happens to a statement: it runs; it does not; or it runs and its answer is lost. *)
Inductive QueryOutcome := QueryRuns | QueryFails | QueryAnswerLost.
#[global] Instance QueryOutcome_eq_dec : EqDecision QueryOutcome.
Proof. solve_decision. Defined.

(** [x as i64] of a [u64], and back. *)
Definition as_i64 (x : Z) : Z := wrap_i 64 x.
Definition as_u64 (x : Z) : Z := wrap_u 64 x.

(** ** Inventories *)

(** A row of [character_inventories]. *)
Record InventoryRow := mk_row { inventory_data : list Z; row_revision : Z }.
Abbreviation Inventories := (gmap Z InventoryRow).

(** The statement of [save_inventory] and of [save_tree]: [None] for the row when the
    condition of the update does not hold, an error when the revision leaves BIGINT. *)
Definition upsert_inventory (t : Inventories) (character_id : Z) (data : list Z) (expected : Z)
  : option (Inventories * option Z) :=
  match t !! character_id with
  | None => Some (<[character_id := mk_row data 1]> t, Some 1)
  | Some row =>
      if decide (row_revision row = expected) then
        next ← checked_i 64 (row_revision row + 1);
        Some (<[character_id := mk_row data next]> t, Some next)
      else Some (t, None)
  end.

Inductive PersistenceError := SerializationFailed | QueryFailed | Conflict (character_id : Z) | DeserializationFailed.

Section Codec.
Context {S : Type} (serialize : S -> option (list Z)) (deserialize : list Z -> option S).

(** [load_inventory]; [reads] is whether the query succeeds. *)
Definition load_inventory (reads : bool) (t : Inventories) (character_id : Z) : result PersistenceError (option (S * Z)) :=
  _ ← forbid (reads = false) QueryFailed;
  match t !! as_i64 character_id with
  | None => Ok None
  | Some row => state ← ok_or DeserializationFailed (deserialize (inventory_data row)); Ok (Some (state, as_u64 (row_revision row)))
  end.

(** [save_inventory]: the table after it, and what it returns. *)
Definition save_inventory (outcome : QueryOutcome) (t : Inventories) (character_id : Z) (state : S) (expected_revision : Z)
  : Inventories * result PersistenceError Z :=
  match serialize state with
  | None => (t, Err SerializationFailed)
  | Some data =>
      match outcome with
      | QueryFails => (t, Err QueryFailed)
      | _ =>
          match upsert_inventory t (as_i64 character_id) data (as_i64 expected_revision) with
          | None => (t, Err QueryFailed)
          | Some (t', row) =>
              (t', match outcome, row with
                   | QueryAnswerLost, _ => Err QueryFailed
                   | _, Some revision => Ok (as_u64 revision)
                   | _, None => Err (Conflict character_id)
                   end)
          end
      end
  end.
End Codec.

(** [ContainerTreeRepository]: the same column, in JSON. *)
Definition load_tree {T} (from_json : list Z -> option T) := load_inventory from_json.
Definition save_tree {T} (to_json : T -> option (list Z)) (outcome : QueryOutcome) (t : Inventories) (character_id expected_revision : Z)
  (tree : T) : Inventories * result PersistenceError Z := save_inventory to_json outcome t character_id tree expected_revision.

(** ** Positions *)

(** A row of [characters], the columns that the code writes. *)
Record CharacterRow := mk_character {
  account_id : Z; character_name : list Z; attributes : list Z; available_attribute_points : Z;
  position : WorldPositionMm; current_quadrant_x : Z; current_quadrant_y : Z
}.
Abbreviation Characters := (gmap Z CharacterRow).

Definition load_position (reads : bool) (t : Characters) (character_id : Z) : result PersistenceError (option WorldPositionMm) :=
  _ ← forbid (reads = false) QueryFailed; Ok (position <$> t !! as_i64 character_id).

(** [create_character]: [next] is the number the sequence of the table gives; a name is
    used once. *)
Definition name_taken (t : Characters) (name : list Z) : Prop := Exists (fun p => character_name p.2 = name) (map_to_list t).
#[global] Instance name_taken_dec t name : Decision (name_taken t name) := _.

Definition create_character (outcome : QueryOutcome) (t : Characters) (next account : Z) (name : list Z)
  (strength defense agility vitality intelligence : Z) : Characters * result PersistenceError Z :=
  if decide (outcome = QueryFails \/ name_taken t name \/ is_Some (t !! next)) then (t, Err QueryFailed)
  else
    let row := mk_character account name [strength; defense; agility; vitality; intelligence] 15 (mk_pos 0 0 0) 0 0 in
    (<[next := row]> t, match outcome with QueryRuns => Ok next | _ => Err QueryFailed end).

Definition set_attributes (row : CharacterRow) (values : list Z) (points : Z) : CharacterRow :=
  mk_character (account_id row) (character_name row) values points (position row) (current_quadrant_x row) (current_quadrant_y row).

Definition update_attributes (outcome : QueryOutcome) (t : Characters) (character_id strength defense agility vitality intelligence points : Z)
  : Characters * result PersistenceError unit :=
  match outcome with
  | QueryFails => (t, Err QueryFailed)
  | _ => (alter (fun row => set_attributes row [strength; defense; agility; vitality; intelligence] points) character_id t,
          match outcome with QueryRuns => Ok tt | _ => Err QueryFailed end)
  end.

(** The statement of [flush_to_db]; no row is created. *)
Definition set_row_position (row : CharacterRow) (u : CharacterPositionUpdate) : CharacterRow :=
  mk_character (account_id row) (character_name row) (attributes row) (available_attribute_points row)
    (mk_pos (update_x_mm u) (update_y_mm u) (update_z_mm u)) (Egress.quadrant_x u) (Egress.quadrant_y u).
Definition write_position (t : Characters) (u : CharacterPositionUpdate) : Characters :=
  alter (fun row => set_row_position row u) (update_character_id u) t.

(** The buffer is a [DashMap]: a fixed number of shards, each behind a lock of its own,
    and a function that says in which one a key is.  The background task flushes it
    ([flush_to_db]): it copies the shards one after the other, then empties them one after
    the other, then writes.  The session runtime tracks positions at any time in between.  *)
Inductive FlushPhase :=
| Waiting
| Collecting (next : nat) (updates : list CharacterPositionUpdate)
| Clearing (next : nat) (updates : list CharacterPositionUpdate)
| Writing (updates : list CharacterPositionUpdate).

Record PositionBuffer := mk_buffer {
  buffer : gmap Z CharacterPositionUpdate;
  flushing : FlushPhase;
  characters : Characters
}.

Definition track_position (b : PositionBuffer) (u : CharacterPositionUpdate) : PositionBuffer :=
  mk_buffer (<[update_character_id u := u]> (buffer b)) (flushing b) (characters b).

Section Flush.
Context (shards : nat) (shard_of : Z -> nat).

Definition shard (n : nat) (m : gmap Z CharacterPositionUpdate) : gmap Z CharacterPositionUpdate := filter (fun p => shard_of p.1 = n) m.

(** The steps of the background task; the label is the fate of the statement a step runs.  The emptiness test at the
    beginning visits the shards, too: as nobody else removes entries, it finds one only if the buffer is not empty. *)
Inductive flush_step : option QueryOutcome -> PositionBuffer -> PositionBuffer -> Prop :=
| step_begin b : flushing b = Waiting -> buffer b <> ∅ ->
    flush_step None b (mk_buffer (buffer b) (Collecting 0 []) (characters b))
| step_collect b n us vs : flushing b = Collecting n us -> (n < shards)%nat -> vs ≡ₚ (map_to_list (shard n (buffer b))).*2 ->
    flush_step None b (mk_buffer (buffer b) (Collecting (S n) (us ++ vs)) (characters b))
| step_collected b us : flushing b = Collecting shards us -> flush_step None b (mk_buffer (buffer b) (Clearing 0 us) (characters b))
| step_clear b n us : flushing b = Clearing n us -> (n < shards)%nat ->
    flush_step None b (mk_buffer (filter (fun p => shard_of p.1 <> n) (buffer b)) (Clearing (S n) us) (characters b))
| step_cleared b us : flushing b = Clearing shards us -> flush_step None b (mk_buffer (buffer b) (Writing us) (characters b))
| step_write b u rest outcome : flushing b = Writing (u :: rest) ->
    flush_step (Some outcome) b (match outcome with
                     | QueryRuns => mk_buffer (buffer b) (Writing rest) (write_position (characters b) u)
                     | QueryFails => mk_buffer (buffer b) Waiting (characters b)
                     | QueryAnswerLost => mk_buffer (buffer b) Waiting (write_position (characters b) u)
                     end)
| step_end b : flushing b = Writing [] -> flush_step None b (mk_buffer (buffer b) Waiting (characters b)).
End Flush.

(** ** The repository in memory *)

Record CharacterInventorySnapshot := { snap_character_id : Z; snap_items : list ItemInstance; updated_at_tick : Z }.
Record WorldBagsStateSnapshot := { saved_at_tick : Z; saved_bags : list DroppedBagEntity }.
Record ItemPersistenceRepository := { inventories : gmap Z (list Z); world_bags : option (list Z) }.

Section Memory.
Context (serialize_inventory : CharacterInventorySnapshot -> option (list Z)) (deserialize_inventory : list Z -> option CharacterInventorySnapshot).
Context (serialize_bags : WorldBagsStateSnapshot -> option (list Z)) (deserialize_bags : list Z -> option WorldBagsStateSnapshot).

Definition save_character_inventory (r : ItemPersistenceRepository) (character_id : Z) (items : list ItemInstance) (current_tick : Z)
  : result PersistenceError ItemPersistenceRepository :=
  encoded ← ok_or SerializationFailed (serialize_inventory
    {| snap_character_id := character_id; snap_items := items; updated_at_tick := current_tick |});
  Ok {| inventories := <[character_id := encoded]> (inventories r); world_bags := world_bags r |}.

Definition load_character_inventory (r : ItemPersistenceRepository) (character_id : Z)
  : result PersistenceError (option CharacterInventorySnapshot) :=
  match inventories r !! character_id with
  | None => Ok None
  | Some raw => snapshot ← ok_or DeserializationFailed (deserialize_inventory raw); Ok (Some snapshot)
  end.

Definition save_world_bags (r : ItemPersistenceRepository) (bags : list DroppedBagEntity) (current_tick : Z)
  : result PersistenceError ItemPersistenceRepository :=
  encoded ← ok_or SerializationFailed (serialize_bags {| saved_at_tick := current_tick; saved_bags := bags |});
  Ok {| inventories := inventories r; world_bags := Some encoded |}.

Definition load_world_bags (r : ItemPersistenceRepository) : result PersistenceError (option WorldBagsStateSnapshot) :=
  match world_bags r with
  | None => Ok None
  | Some raw => snapshot ← ok_or DeserializationFailed (deserialize_bags raw); Ok (Some snapshot)
  end.
End Memory.

(** ** Saving with the revision one has loaded *)

Lemma as_i64_id x : in_i 64 x -> as_i64 x = x.
Proof. apply wrap_i_small. lia. Qed.

Section Saves.
Context {S : Type} (serialize : S -> option (list Z)) (deserialize : list Z -> option S).

(** The revisions of the rows. *)
Definition inventories_ok (t : Inventories) : Prop := forall id row, t !! id = Some row -> 1 <= row_revision row < 2 ^ 63.

(** What any of the tasks that use the table does to it: either repository saves bytes of its own codec. *)
Definition save_step (t t' : Inventories) : Prop := exists outcome id (data : list Z) expected,
  t' = (save_inventory Some outcome t id data expected).1.

Lemma save_inventory_step outcome t id (state : S) expected :
  save_step t (save_inventory serialize outcome t id state expected).1.
Proof.
  destruct (serialize state) as [data|] eqn:E.
  - exists outcome, id, data, expected. unfold save_inventory. by rewrite E.
  - exists QueryFails, id, [], expected. unfold save_inventory. by rewrite E.
Qed.

Lemma upsert_spec t id data expected t' row : inventories_ok t -> upsert_inventory t id data expected = Some (t', row) ->
  inventories_ok t' /\
  ((row = None /\ t' = t /\ exists old, t !! id = Some old /\ row_revision old <> expected) \/
   exists next, row = Some next /\ t' = <[id := mk_row data next]> t /\ 1 <= next < 2 ^ 63 /\
     match t !! id with None => next = 1 | Some old => row_revision old = expected /\ next = expected + 1 end).
Proof.
  intros Ht H. unfold upsert_inventory in H.
  assert (forall next, 1 <= next < 2 ^ 63 -> inventories_ok (<[id := mk_row data next]> t)) as Hins.
  { intros next Hn i r. rewrite lookup_insert_Some. intros [[_ <-]|[_ Hr]]; [done|by eapply Ht]. }
  destruct (t !! id) as [old|] eqn:E.
  - case_decide as He.
    + destruct (checked_i 64 (row_revision old + 1)) as [next|] eqn:Ec; [|done]. apply checked_i_Some in Ec as [-> Hr].
      injection H as <- <-. pose proof (Ht _ _ E). split; [apply Hins; unfold in_i in Hr; lia|].
      right. eexists. split; [done|]. split; [done|]. unfold in_i in Hr. split; [lia|]. split; [done|]. lia.
    + injection H as <- <-. split; [done|]. left. split; [done|]. split; [done|]. by exists old.
  - injection H as <- <-. split; [apply Hins; lia|]. right. exists 1. split; [done|]. split; [done|]. split; [lia|done].
Qed.

(** A row is only ever replaced by one with the next revision. *)
Definition row_after (old new : option InventoryRow) : Prop :=
  match old, new with
  | None, _ => True
  | Some _, None => False
  | Some a, Some b => b = a \/ row_revision a < row_revision b
  end.

Lemma row_after_trans a b c : row_after a b -> row_after b c -> row_after a c.
Proof. destruct a, b, c; cbn; try tauto. intros [->|?] [->|?]; auto. right. lia. Qed.

Lemma save_step_ok t t' : inventories_ok t -> save_step t t' -> inventories_ok t' /\ forall id, row_after (t !! id) (t' !! id).
Proof.
  intros Ht (outcome & id & data & expected & ->).
  assert (forall i, row_after (t !! i) (t !! i)) as Hrefl by (intros i; destruct (t !! i); [by left|done]).
  unfold save_inventory.
  assert (forall t' row, upsert_inventory t (as_i64 id) data (as_i64 expected) = Some (t', row) ->
    inventories_ok t' /\ forall i, row_after (t !! i) (t' !! i)) as Hup.
  { intros t' row H. destruct (upsert_spec _ _ _ _ _ _ Ht H) as [Hok [(_ & -> & _)|(next & _ & -> & Hn & Hold)]]; split; try done.
    intros i. destruct (decide (i = as_i64 id)) as [->|Hne]; [|by rewrite lookup_insert_ne]. rewrite lookup_insert_eq.
    destruct (t !! as_i64 id) as [old|]; [|done]. right. cbn. lia. }
  destruct (upsert_inventory _ _ _ _) as [[t1 row]|] eqn:E; destruct outcome; first [exact (conj Ht Hrefl)|exact (Hup _ _ eq_refl)].
Qed.

Lemma save_steps_ok t t' : inventories_ok t -> rtc save_step t t' -> inventories_ok t' /\ forall id, row_after (t !! id) (t' !! id).
Proof.
  intros Ht H. induction H as [t|t t1 t' Hs _ IH]; [split; [done|]; intros i; destruct (t !! i); [by left|done]|].
  destruct (save_step_ok _ _ Ht Hs) as [Ht1 H1]. destruct (IH Ht1) as [Ht' H2]. split; [done|]. intros i. by eapply row_after_trans.
Qed.

Lemma as_u64_id x : 0 <= x < 2 ^ 63 -> as_u64 x = x.
Proof. intros Hx. apply wrap_u_small. unfold in_u. lia. Qed.

Lemma save_runs_inv t id state expected t' r : inventories_ok t -> 0 <= expected < 2 ^ 63 ->
  save_inventory serialize QueryRuns t id state expected = (t', Ok r) ->
  exists data, serialize state = Some data /\ t' = <[as_i64 id := mk_row data r]> t /\ 1 <= r < 2 ^ 63 /\
    match t !! as_i64 id with None => r = 1 | Some old => row_revision old = expected /\ r = expected + 1 end.
Proof.
  intros Ht He. unfold save_inventory. destruct (serialize state) as [data|]; [|done]. rewrite (as_i64_id expected) by (unfold in_i; lia).
  destruct (upsert_inventory _ _ _ _) as [[t1 row]|] eqn:E; [|done]. destruct row as [next|]; [|done]. intros [= <- <-].
  destruct (upsert_spec _ _ _ _ _ _ Ht E) as [_ [(? & _)|(n & [= <-] & -> & Hn & Hold)]]; [done|].
  exists data. rewrite as_u64_id by lia. split; [done|]. split; [done|]. by split.
Qed.
End Saves.

Lemma save_tree_step {T} (to_json : T -> option (list Z)) outcome t id expected (tree : T) :
  save_step t (save_tree to_json outcome t id expected tree).1.
Proof. apply save_inventory_step. Qed.

(** C26: inventories are saved with optimistic concurrency.  Whoever else writes the table in between, with whatever fate
    of the statements: a save with the revision that a load gave succeeds only if the row is still the one that was
    loaded, so nobody's save is overwritten unseen; it then leads to the next revision, a load gives what was saved with
    that revision, the other rows stay, and no later save with the old revision succeeds or changes the table. *)
Theorem no_lost_inventory {S} (serialize : S -> option (list Z)) deserialize t0 t1 t2 id (s s' : S) r r' :
  (forall a data, serialize a = Some data -> deserialize data = Some a) -> inventories_ok t0 ->
  load_inventory deserialize true t0 id = Ok (Some (s, r)) -> rtc save_step t0 t1 ->
  save_inventory serialize QueryRuns t1 id s' r = (t2, Ok r') ->
  t1 !! as_i64 id = t0 !! as_i64 id /\ r' = r + 1 /\ load_inventory deserialize true t2 id = Ok (Some (s', r')) /\
  (forall i, i <> as_i64 id -> t2 !! i = t1 !! i) /\
  forall t3 s3, rtc save_step t2 t3 -> serialize s3 <> None ->
    save_inventory serialize QueryRuns t3 id s3 r = (t3, Err (Conflict id)).
Proof.
  intros Hcodec Ht0 Hload Hsteps Hsave. unfold load_inventory in Hload. apply bind_Ok in Hload as ([] & _ & Hload).
  destruct (t0 !! as_i64 id) as [row|] eqn:E0; [|done]. apply bind_Ok in Hload as (x & _ & [= <- <-]).
  pose proof (Ht0 _ _ E0) as Hrow.
  rewrite (as_u64_id (row_revision row)) in * by lia.
  destruct (save_steps_ok _ _ Ht0 Hsteps) as [Ht1 Hafter]. specialize (Hafter (as_i64 id)). rewrite E0 in Hafter.
  destruct (save_runs_inv serialize t1 id s' (row_revision row) t2 r' Ht1 ltac:(lia) Hsave) as (data & Hdata & -> & Hr' & Hold).
  destruct (t1 !! as_i64 id) as [old|] eqn:E1; [|done]. destruct Hold as [Hold ->].
  assert (old = row) as -> by (destruct Hafter as [->|?]; [done|lia]). split; [done|]. split; [done|]. split.
  { unfold load_inventory. cbn. rewrite lookup_insert_eq. cbn. rewrite (Hcodec _ _ Hdata). cbn. by rewrite as_u64_id by lia. }
  split; [intros i Hi; by rewrite lookup_insert_ne by done|]. intros t3 s3 H3 Hs3.
  assert (inventories_ok (<[as_i64 id := mk_row data (row_revision row + 1)]> t1)) as Ht2.
  { intros i x'. rewrite lookup_insert_Some. intros [[_ <-]|[_ Hx]]; [cbn; lia|by eapply Ht1]. }
  destruct (save_steps_ok _ _ Ht2 H3) as [Ht3 Hafter3]. specialize (Hafter3 (as_i64 id)). rewrite lookup_insert_eq in Hafter3.
  destruct (t3 !! as_i64 id) as [row3|] eqn:E3; [|done].
  assert (row_revision row3 <> row_revision row) by (destruct Hafter3 as [->|Hlt]; cbn in *; lia).
  unfold save_inventory. destruct (serialize s3); [|done]. rewrite (as_i64_id (row_revision row)) by (unfold in_i; lia).
  unfold upsert_inventory. rewrite E3. by rewrite decide_False by done.
Qed.

(** ** The repository in memory keeps what it is given *)

Lemma memory_inventory_roundtrip serialize deserialize r cid items tick r' :
  (forall a l, serialize a = Some l -> deserialize l = Some a) -> save_character_inventory serialize r cid items tick = Ok r' ->
  load_character_inventory deserialize r' cid =
    Ok (Some {| snap_character_id := cid; snap_items := items; updated_at_tick := tick |}) /\
  (forall c, c <> cid -> load_character_inventory deserialize r' c = load_character_inventory deserialize r c) /\
  world_bags r' = world_bags r.
Proof.
  intros Hc (l & Hl%ok_or_Ok & [= <-])%bind_Ok. unfold load_character_inventory. cbn. rewrite lookup_insert_eq, (Hc _ _ Hl).
  split; [done|]. split; [|done]. intros c Hne. by rewrite lookup_insert_ne.
Qed.

Lemma memory_bags_roundtrip serialize deserialize r bags tick r' :
  (forall a l, serialize a = Some l -> deserialize l = Some a) -> save_world_bags serialize r bags tick = Ok r' ->
  load_world_bags deserialize r' = Ok (Some {| saved_at_tick := tick; saved_bags := bags |}) /\ inventories r' = inventories r.
Proof. intros Hc (l & Hl%ok_or_Ok & [= <-])%bind_Ok. unfold load_world_bags. cbn. by rewrite (Hc _ _ Hl). Qed.

(** ** What a session saves *)

Section Session.
Context {Entity W : Type} `{!Ecs Components Entity W}.
Abbreviation Zone := (ZoneRuntime Entity W).

Lemma process_one_revisions d a st request :
  inventory_revisions (process_one (Entity := Entity) (W := W) d a st request).1 = inventory_revisions st.1.
Proof.
  destruct st as [z events], request as [player intent]. unfold process_one. cbn [fst].
  match goal with |- context [match ?x with Some _ => _ | None => _ end] => destruct x as [[[[e c] p] i]|] end; [|done].
  by destruct (process_intent _ _ _ _ _ _ _ _ _) as [[[i' bags'] next'] event].
Qed.

Lemma step_revisions (z z' : Zone) order out : zone_step order z = Ok (z', out) -> inventory_revisions z' = inventory_revisions z.
Proof.
  unfold zone_step. intros H. apply bind_Ok in H as (t & _ & H). cbv zeta in H.
  apply bind_Ok in H as ([[w updates] rocks] & _ & H). unfold process_inventory_intents in H.
  destruct (tick_decay _ _ _) as [bags expired].
  match type of H with context [foldl ?f ?st ?l] =>
    assert (forall l' st', inventory_revisions (foldl f st' l').1 = inventory_revisions st'.1) as Hf end.
  { induction l' as [|r l' IH]; intros st'; cbn [foldl]; [done|]. by rewrite IH, process_one_revisions. }
  match type of H with context [foldl ?f ?st ?l] => specialize (Hf l st); destruct (foldl f st l) as [z2 events] end.
  cbn [fst] in Hf. by injection H as <- _.
Qed.

(** The zone while a character is in it, from the command that put it there on, and the
    inventories it has handed out to be saved at the autosaves. *)
Inductive in_zone (cid rev : Z) : Zone -> list (CharacterInventoryState * Z) -> Prop :=
| zone_spawned z p inventory z' replies :
    zone_accept z (SpawnCharacter cid p inventory rev) = Ok (z', replies) -> in_zone cid rev z' []
| zone_command z saves command z' replies :
    in_zone cid rev z saves -> (forall r, command <> DespawnCharacter cid r) -> (forall r, command <> SnapshotInventory cid r) ->
    zone_accept z command = Ok (z', replies) -> in_zone cid rev z' saves
| zone_snapshot z saves responder z' replies :
    in_zone cid rev z saves -> zone_accept z (SnapshotInventory cid responder) = Ok (z', replies) ->
    in_zone cid rev z' (saves ++ replies.*2)
| zone_tick z saves order z' out :
    in_zone cid rev z saves -> zone_step order z = Ok (z', out) -> in_zone cid rev z' saves.

(** All that a session has handed out to be saved: so far, or when the character has left. *)
Inductive session_saves (cid rev : Z) : list (CharacterInventoryState * Z) -> Prop :=
| saves_so_far z saves : in_zone cid rev z saves -> session_saves cid rev saves
| saves_at_the_end z saves responder z' replies :
    in_zone cid rev z saves -> zone_accept z (DespawnCharacter cid responder) = Ok (z', replies) ->
    session_saves cid rev (saves ++ replies.*2).

Lemma in_zone_revision cid rev z saves : in_zone cid rev z saves ->
  inventory_revisions z !! cid = Some rev /\ is_Some (entity_map z !! cid) /\ Forall (fun save => save.2 = rev) saves.
Proof.
  induction 1 as [z p inventory z' replies E|z saves command z' replies _ (Hrev & He & Hs) Hno Hno' E|z saves responder z' replies _ (Hrev & He & Hs) E|z saves order z' out _ (Hrev & He & Hs) E].
  - cbn in E. destruct (validate_placement _ _ _); [|done]. cbn in E. destruct (entity_map z !! cid); [done|].
    destruct (ecs_spawn _ _) as [w e]. injection E as <- _. cbn. rewrite !lookup_insert_eq. split; [done|]. split; [by eexists|constructor].
  - destruct command as [c p i r|c responder|c responder|c seq input|p h|c p|c intent]; cbn in E.
    + destruct (validate_placement _ _ _); [|done]. cbn in E. destruct (entity_map z !! c) eqn:Ec; [done|].
      destruct (ecs_spawn _ _) as [w e]. injection E as <- _. assert (c <> cid) by (intros ->; by destruct He as [? ?]; congruence).
      cbn. by rewrite !lookup_insert_ne by done.
    + destruct (entity_map z !! c) as [e|]; [|done]. destruct (ecs_despawn _ _); [|done]. injection E as <- _.
      assert (c <> cid) by (intros ->; by apply (Hno responder)). cbn. by rewrite !lookup_delete_ne by done.
    + destruct (entity_map z !! c); by injection E as <- _.
    + destruct (entity_map z !! c) as [e|]; [|done]. cbn in E. destruct (ecs_update _ _ _); [|done]. by injection E as <- _.
    + by injection E as <- _.
    + destruct (entity_map z !! c) as [e|]; [|done]. cbn in E. destruct (ecs_update _ _ _); [|done]. by injection E as <- _.
    + by injection E as <- _.
  - cbn in E. destruct (entity_map z !! cid) as [e|] eqn:Ee; [|by destruct He]. injection E as <- <-. split; [done|].
    split; [by rewrite Ee|]. cbn. apply Forall_app. split; [done|]. constructor; [|constructor]. cbn. by rewrite Hrev.
  - split; [by rewrite (step_revisions _ _ _ _ E)|]. split; [|done].
    by rewrite (proj2 (ServerZone.step_keeps _ _ _ _ E)).
Qed.

Lemma session_saves_revision cid rev saves : session_saves cid rev saves -> Forall (fun save => save.2 = rev) saves.
Proof.
  destruct 1 as [z saves H|z saves responder z' replies H E]; destruct (in_zone_revision _ _ _ _ H) as (Hrev & _ & Hs); [done|].
  apply Forall_app. split; [done|]. cbn in E. destruct (entity_map z !! cid) as [e|]; [|done]. destruct (ecs_despawn _ _); [|done].
  injection E as _ <-. destruct responder; [|constructor]. cbn. constructor; [|constructor]. cbn. by rewrite Hrev.
Qed.

(** The session runtime saves each of them, and ignores what the save returns. *)
Fixpoint save_all (serialize : CharacterInventoryState -> option (list Z)) (t : Inventories) (cid : Z)
  (saves : list (CharacterInventoryState * Z)) : Inventories :=
  match saves with
  | [] => t
  | (state, revision) :: saves => save_all serialize (save_inventory serialize QueryRuns t cid state revision).1 cid saves
  end.

(** The inventory [main] begins a session with: the saved one, or a new one with revision 0. *)
Definition session_inventory (deserialize : list Z -> option CharacterInventoryState) (t : Inventories) (cid : Z)
  : CharacterInventoryState * Z :=
  match load_inventory deserialize true t cid with
  | Ok (Some loaded) => loaded
  | _ => (inventory_new 10 6, 0)
  end.

Lemma save_all_conflict serialize cid rev saves : forall t row, Forall (fun save => save.2 = rev) saves ->
  t !! as_i64 cid = Some row -> row_revision row <> as_i64 rev -> save_all serialize t cid saves = t.
Proof.
  induction saves as [|[state r] saves IH]; intros t row Hs E Hne; cbn; [done|].
  apply list.Forall_cons in Hs as [Hr Hs]. cbn in Hr. subst r. assert ((save_inventory serialize QueryRuns t cid state rev).1 = t) as ->; [|by eapply IH].
  unfold save_inventory. destruct (serialize state); [|done]. unfold upsert_inventory. rewrite E. by rewrite decide_False by done.
Qed.
End Session.

(** C27: of everything a session saves, only the first save reaches the database.  The session begins with the inventory
    that was loaded and its revision; whatever then happens in the zone, each inventory it hands out - at every autosave
    and when the character leaves - carries that same revision, which the first save makes obsolete.  If every statement
    runs and nobody else writes the row meanwhile, and an inventory that was in the table could be read, the table ends as the first save left it, and all that the character
    gained or lost afterwards is gone. *)
Theorem session_saves_once {Entity W : Type} `{!Ecs Components Entity W} `{!EqDecision Entity} `{!EcsLaws Components Entity W}
  (serialize : CharacterInventoryState -> option (list Z)) deserialize t cid first saves data :
  inventories_ok t -> (forall row, t !! as_i64 cid = Some row -> row_revision row < 2 ^ 62 /\ is_Some (deserialize (inventory_data row))) ->
  session_saves (Entity := Entity) (W := W) cid (session_inventory deserialize t cid).2 (first :: saves) -> serialize first.1 = Some data ->
  Forall (fun save => save.2 = (session_inventory deserialize t cid).2) (first :: saves) /\
  save_all serialize t cid (first :: saves) =
    <[as_i64 cid := mk_row data ((session_inventory deserialize t cid).2 + 1)]> t.
Proof.
  intros Ht Hrow Hzone Hdata. pose proof (session_saves_revision _ _ _ Hzone) as Hsaves. split; [exact Hsaves|].
  assert (exists rev, (session_inventory deserialize t cid).2 = rev /\ 0 <= rev < 2 ^ 62 /\
    match t !! as_i64 cid with Some row => row_revision row = rev | None => rev = 0 end) as (rev & Er & Hr & Hmatch).
  { unfold session_inventory, load_inventory, forbid. rewrite decide_False by done. cbn [mbind result_bind].
    destruct (t !! as_i64 cid) as [row|] eqn:E; [|by exists 0].
    destruct (Hrow row eq_refl) as [Hlt [s Hs]]. rewrite Hs. cbn. pose proof (Ht _ _ E). rewrite as_u64_id by lia. exists (row_revision row).
    split; [done|]. split; [lia|done]. }
  rewrite Er in *. destruct first as [state r]. apply list.Forall_cons in Hsaves as [Er' Hsaves]. cbn in Er', Hdata. subst r. cbn [save_all].
  assert ((save_inventory serialize QueryRuns t cid state rev).1 = <[as_i64 cid := mk_row data (rev + 1)]> t) as ->.
  { unfold save_inventory. rewrite Hdata. unfold upsert_inventory. rewrite (as_i64_id rev) by (unfold in_i; lia).
    destruct (t !! as_i64 cid) as [row|]; [|by rewrite Hmatch]. rewrite decide_True by done. rewrite checked_i_in by (unfold in_i; lia).
    cbn. by rewrite Hmatch. }
  eapply save_all_conflict; [exact Hsaves|apply lookup_insert_eq|]. rewrite as_i64_id by (unfold in_i; lia). cbn. lia.
Qed.

(** ** The positions in the database *)

(** A position with the quadrant it is said to be in. *)
Definition place_of (u : CharacterPositionUpdate) : WorldPositionMm * Z * Z :=
  (mk_pos (update_x_mm u) (update_y_mm u) (update_z_mm u), Egress.quadrant_x u, Egress.quadrant_y u).
Definition row_place (row : CharacterRow) : WorldPositionMm * Z * Z := (position row, current_quadrant_x row, current_quadrant_y row).

(** What was tracked for a character, oldest first. *)
Definition tracked_for (cid : Z) (log : list CharacterPositionUpdate) : list CharacterPositionUpdate :=
  filter (fun u => update_character_id u = cid) log.

(** The places of a character: the one in the table at first, then those tracked. *)
Definition places (row : CharacterRow) (log : list CharacterPositionUpdate) (cid : Z) : list (WorldPositionMm * Z * Z) :=
  row_place row :: map place_of (tracked_for cid log).

Lemma tracked_for_snoc cid log u : tracked_for cid (log ++ [u]) = tracked_for cid log ++ (if decide (update_character_id u = cid) then [u] else []).
Proof. unfold tracked_for. rewrite list.filter_app. cbn. destruct (decide _); done. Qed.

Lemma places_snoc row log u cid : places row (log ++ [u]) cid =
  places row log cid ++ (if decide (update_character_id u = cid) then [place_of u] else []).
Proof. unfold places. rewrite tracked_for_snoc, map_app. destruct (decide _); done. Qed.

(** The updates that a flush has taken and not yet written. *)
Definition pending (b : PositionBuffer) : list CharacterPositionUpdate :=
  match flushing b with Waiting => [] | Collecting _ us => us | Clearing _ us => us | Writing us => us end.

Section Positions.
Context (shards : nat) (shard_of : Z -> nat) (Hshards : forall id, (shard_of id < shards)%nat).

Abbreviation flush_step := (flush_step shards shard_of).

(** A run of the buffer, with the updates tracked in it, oldest first. *)
Inductive position_run (b0 : PositionBuffer) : list CharacterPositionUpdate -> PositionBuffer -> Prop :=
| run_start : position_run b0 [] b0
| run_track log b u : position_run b0 log b -> position_run b0 (log ++ [u]) (track_position b u)
| run_flush log b b' o : position_run b0 log b -> flush_step o b b' -> position_run b0 log b'.

(** How far the table, a flush under way and the buffer have come for a character. *)
Definition at_places (row0 : CharacterRow) (log : list CharacterPositionUpdate) (b : PositionBuffer) (cid : Z) (i : nat) : Prop :=
  exists row j k, characters b !! cid = Some row /\ places row0 log cid !! i = Some (row_place row) /\ (i <= j <= k)%nat /\
    (k < length (places row0 log cid))%nat /\
    (forall u, u ∈ pending b -> update_character_id u = cid -> places row0 log cid !! j = Some (place_of u)) /\
    (forall u, buffer b !! cid = Some u -> places row0 log cid !! k = Some (place_of u) /\ S k = length (places row0 log cid)).

Definition keyed_updates (m : gmap Z CharacterPositionUpdate) : Prop := forall cid u, m !! cid = Some u -> update_character_id u = cid.

Record buffer_ok (b : PositionBuffer) : Prop := {
  bo_keys : keyed_updates (buffer b);
  bo_distinct : NoDup (map update_character_id (pending b));
  bo_shards : forall n us, flushing b = Collecting n us -> forall u, u ∈ us -> (shard_of (update_character_id u) < n)%nat
}.

Lemma map_values (m : gmap Z CharacterPositionUpdate) us : keyed_updates m -> us ≡ₚ (map_to_list m).*2 ->
  (forall u, u ∈ us <-> m !! update_character_id u = Some u) /\ NoDup (map update_character_id us).
Proof.
  intros Hid Hus. split.
  - intros u. rewrite Hus, list_elem_of_fmap. split.
    + intros ([c u'] & -> & Hin). apply elem_of_map_to_list in Hin. cbn. by rewrite (Hid _ _ Hin).
    + intros Hu. exists (update_character_id u, u). by rewrite elem_of_map_to_list.
  - apply NoDup_ListNoDup. eapply Permutation_NoDup; [apply Permutation_map, Permutation_sym; exact Hus|].
    apply NoDup_ListNoDup. replace (map update_character_id (map_to_list m).*2) with (map_to_list m).*1; [apply NoDup_fst_map_to_list|].
    assert (forall p, p ∈ map_to_list m -> p.1 = update_character_id p.2) as Hall.
    { intros [c u] Hin. apply elem_of_map_to_list in Hin. cbn. by rewrite (Hid _ _ Hin). }
    revert Hall. generalize (map_to_list m) as l. induction l as [|p l IH]; intros Hall; cbn; [done|].
    f_equal; [apply Hall; by left|]. apply IH. intros q Hq. apply Hall. by right.
Qed.

Lemma shard_values n m vs : keyed_updates m -> vs ≡ₚ (map_to_list (shard shard_of n m)).*2 ->
  (forall u, u ∈ vs <-> m !! update_character_id u = Some u /\ shard_of (update_character_id u) = n) /\ NoDup (map update_character_id vs).
Proof.
  intros Hid Hvs. destruct (map_values (shard shard_of n m) vs) as [Hin Hnd]; [|done|].
  - intros c u Hu. unfold shard in Hu. apply map_lookup_filter_Some in Hu as [Hu _]. by apply Hid.
  - split; [|done]. intros u. rewrite Hin. unfold shard. by rewrite map_lookup_filter_Some.
Qed.

Lemma collect_distinct n us vs : NoDup (map update_character_id us) -> NoDup (map update_character_id vs) ->
  (forall u, u ∈ us -> (shard_of (update_character_id u) < n)%nat) -> (forall u, u ∈ vs -> shard_of (update_character_id u) = n) ->
  NoDup (map update_character_id (us ++ vs)).
Proof.
  intros H1 H2 Hus Hvs. rewrite map_app. apply list.NoDup_app. split; [done|]. split; [|done].
  intros c (u & -> & Hu)%list_elem_of_fmap (v & E & Hv)%list_elem_of_fmap. specialize (Hus u Hu). specialize (Hvs v Hv). rewrite E in Hus. lia.
Qed.

Lemma track_at row0 log b u cid i : at_places row0 log b cid i -> at_places row0 (log ++ [u]) (track_position b u) cid i.
Proof.
  intros (row & j & k & Hrow & Hi & Hijk & Hk & Hp & Hb). unfold at_places. rewrite places_snoc.
  destruct (decide (update_character_id u = cid)) as [Eu|Hne].
  - exists row, j, (length (places row0 log cid)). split; [done|]. split; [by apply lookup_app_l_Some|]. split; [lia|].
    rewrite length_app. cbn [length]. split; [lia|]. split.
    + intros v Hv Ev. apply lookup_app_l_Some. by apply Hp.
    + intros v. cbn [buffer track_position]. rewrite Eu, lookup_insert_eq. intros [= <-]. split; [|lia].
      by rewrite lookup_app_r, Nat.sub_diag by lia.
  - rewrite app_nil_r. exists row, j, k. split; [done|]. split; [done|]. split; [done|]. split; [done|]. split; [done|].
    intros v. cbn [buffer track_position]. rewrite lookup_insert_ne by done. apply Hb.
Qed.

(** A step that changes neither the table nor the buffer's entries, and takes nothing new. *)
Lemma at_places_mono row0 log b b' cid i : at_places row0 log b cid i -> characters b' = characters b ->
  (forall u, u ∈ pending b' -> u ∈ pending b) -> (forall u, buffer b' !! cid = Some u -> buffer b !! cid = Some u) ->
  at_places row0 log b' cid i.
Proof.
  intros (row & j & k & Hrow & Hi & Hijk & Hk & Hp & Hb) Ec Hpend Hbuf. exists row, j, k. rewrite Ec.
  split; [done|]. split; [done|]. split; [done|]. split; [done|]. split; [intros u Hu; by apply Hp, Hpend|intros u Hu; by apply Hb, Hbuf].
Qed.

Lemma flush_ok o b b' : buffer_ok b -> flush_step o b b' -> buffer_ok b'.
Proof.
  intros [Hid Hnd Hsh] Hs. destruct Hs as [b Hf Hne|b n us vs Hf Hn Hvs|b us Hf|b n us Hf Hn|b us Hf|b u rest outcome Hf|b Hf];
    unfold pending in *; rewrite Hf in *.
  - split; [done|constructor|]. cbn. intros n us [= <- <-] u []%not_elem_of_nil.
  - destruct (shard_values n (buffer b) vs Hid Hvs) as [Hin Hnd']. specialize (Hsh n us eq_refl). split; [done| |].
    + apply (collect_distinct n); [done|done|done|]. intros u Hu. by apply Hin.
    + cbn. intros n' us' [= <- <-] u [Hu|Hu]%elem_of_app; [specialize (Hsh u Hu); lia|apply Hin in Hu as [_ ->]; lia].
  - by split.
  - split; [|done|done]. intros c u Hu. cbn in Hu. apply map_lookup_filter_Some in Hu as [Hu _]. by apply Hid.
  - by split.
  - cbn in Hnd. apply list.NoDup_cons in Hnd as [_ Hnd]. by destruct outcome; split; try done; constructor.
  - split; [done|constructor|done].
Qed.

Lemma flush_at row0 log o b b' cid i : buffer_ok b -> at_places row0 log b cid i -> flush_step o b b' ->
  exists i', (i <= i')%nat /\ at_places row0 log b' cid i'.
Proof.
  intros [Hid Hnd Hsh] Hat Hs. destruct Hs as [b Hf Hne|b n us vs Hf Hn Hvs|b us Hf|b n us Hf Hn|b us Hf|b u rest outcome Hf|b Hf].
  - exists i. split; [done|]. apply (at_places_mono row0 log b); [done|done| |done]. unfold pending. cbn. by intros u []%not_elem_of_nil.
  - exists i. split; [done|]. destruct Hat as (row & j & k & Hrow & Hi & Hijk & Hk & Hp & Hb). unfold pending in Hp. rewrite Hf in Hp.
    destruct (shard_values n (buffer b) vs Hid Hvs) as [Hin _]. specialize (Hsh n us Hf).
    destruct (decide (shard_of cid = n /\ is_Some (buffer b !! cid))) as [[En [v Hv]]|Hno].
    + exists row, k, k. split; [exact Hrow|]. split; [exact Hi|]. split; [lia|]. split; [exact Hk|]. split; [|exact Hb].
      intros w [Hw|Hw]%elem_of_app Ew; [specialize (Hsh w Hw); rewrite Ew in Hsh; lia|].
      apply Hin in Hw as [Hw _]. rewrite Ew, Hv in Hw. injection Hw as ->. by apply Hb.
    + exists row, j, k. split; [exact Hrow|]. split; [exact Hi|]. split; [lia|]. split; [exact Hk|]. split; [|exact Hb].
      intros w [Hw|Hw]%elem_of_app Ew; [by apply Hp|]. apply Hin in Hw as [Hw Es]. destruct Hno. rewrite <- Ew. by rewrite Hw.
  - exists i. split; [done|]. apply (at_places_mono row0 log b); [done|done| |done]. unfold pending. cbn. by rewrite Hf.
  - exists i. split; [done|]. apply (at_places_mono row0 log b); [done|done|unfold pending; cbn; by rewrite Hf|].
    cbn. intros u [Hu _]%map_lookup_filter_Some. done.
  - exists i. split; [done|]. apply (at_places_mono row0 log b); [done|done| |done]. unfold pending. cbn. by rewrite Hf.
  - destruct Hat as (row & j & k & Hrow & Hi & Hijk & Hk & Hp & Hb). unfold pending in Hp. rewrite Hf in Hp.
    assert (exists i', (i <= i')%nat /\ (i' <= j)%nat /\ exists row', write_position (characters b) u !! cid = Some row' /\
      places row0 log cid !! i' = Some (row_place row')) as (i' & Hii' & Hij' & row' & Hrow' & Hi').
    { unfold write_position. destruct (decide (update_character_id u = cid)) as [Eu|Hne].
      - exists j. split; [lia|]. split; [lia|]. exists (set_row_position row u). rewrite Eu, lookup_alter_eq, Hrow. split; [done|].
        apply Hp; [by left|done].
      - exists i. split; [lia|]. split; [lia|]. exists row. by rewrite lookup_alter_ne. }
    destruct outcome; unfold at_places, pending; cbn.
    + exists i'. split; [done|]. exists row', j, k. split; [done|]. split; [done|]. split; [lia|]. split; [done|].
      split; [intros w Hw; apply Hp; by right|done].
    + exists i. split; [done|]. exists row, j, k. split; [done|]. split; [done|]. split; [lia|]. split; [done|]. split; [by intros w []%not_elem_of_nil|done].
    + exists i'. split; [done|]. exists row', j, k. split; [done|]. split; [done|]. split; [lia|]. split; [done|]. split; [by intros w []%not_elem_of_nil|done].
  - exists i. split; [done|]. apply (at_places_mono row0 log b); [done|done| |done]. unfold pending. cbn. by intros u []%not_elem_of_nil.
Qed.

Lemma track_ok b u : buffer_ok b -> buffer_ok (track_position b u).
Proof. intros []. split; [|done|done]. intros c v. cbn. rewrite lookup_insert_Some. intros [[<- <-]|[_ Hv]]; [done|by apply bo_keys0]. Qed.

Lemma run_at row0 log b log' b' cid i : position_run b log' b' -> buffer_ok b -> at_places row0 log b cid i ->
  buffer_ok b' /\ exists i', (i <= i')%nat /\ at_places row0 (log ++ log') b' cid i'.
Proof.
  intros Hrun Hok Hat. induction Hrun as [|log' b1 u Hrun IH|log' b1 b2 o Hrun IH Hs].
  - rewrite app_nil_r. split; [done|]. by exists i.
  - destruct IH as (Hok1 & i' & Hi' & Hat1). rewrite app_assoc. split; [by apply track_ok|]. exists i'. split; [done|by apply track_at].
  - destruct IH as (Hok1 & i' & Hi' & Hat1). destruct (flush_at _ _ _ _ _ _ _ Hok1 Hat1 Hs) as (i2 & Hi2 & Hat2).
    split; [by eapply flush_ok|]. exists i2. split; [lia|done].
Qed.

(** What waits in the buffer is the last update tracked for its character. *)
Lemma run_buffer b0 log b : position_run b0 log b -> buffer b0 = ∅ ->
  forall cid u, buffer b !! cid = Some u -> list.last (tracked_for cid log) = Some u.
Proof.
  intros Hrun H0. induction Hrun as [|log b v Hrun IH|log b b' o Hrun IH Hs]; intros cid u Hu.
  - by rewrite H0, lookup_empty in Hu.
  - rewrite tracked_for_snoc. cbn in Hu. apply lookup_insert_Some in Hu as [[<- <-]|[Hne Hu]].
    + by rewrite decide_True, list.last_snoc by done.
    + rewrite decide_False, app_nil_r by done. by apply IH.
  - apply IH. destruct Hs; try exact Hu; [|by destruct outcome]. cbn in Hu. by apply map_lookup_filter_Some in Hu as [Hu _].
Qed.

(** *** A flush that nothing disturbs *)

(** Nothing is tracked, and no statement fails. *)
Definition calm_step (b b' : PositionBuffer) : Prop := exists o, flush_step o b b' /\ (o = None \/ o = Some QueryRuns).

Lemma calm_run b b' : rtc calm_step b b' -> position_run b [] b'.
Proof.
  apply (rtc_ind_r (fun b' => position_run b [] b')); [apply run_start|].
  intros y z _ (o & Hs & _) IH. by eapply run_flush.
Qed.

(** The table with the updates of the buffer written. *)
Definition written (m : gmap Z CharacterPositionUpdate) (t t' : Characters) : Prop :=
  forall c, t' !! c = match m !! c with Some u => (fun row => set_row_position row u) <$> t !! c | None => t !! c end.

Lemma writes_rows us : forall t c, NoDup (map update_character_id us) ->
  (forall u, u ∈ us -> update_character_id u = c -> foldl write_position t us !! c = (fun row => set_row_position row u) <$> t !! c) /\
  (c ∉ map update_character_id us -> foldl write_position t us !! c = t !! c).
Proof.
  induction us as [|v us IH]; intros t c Hnd; cbn; [split; [by intros u []%not_elem_of_nil|done]|].
  cbn in Hnd. apply list.NoDup_cons in Hnd as [Hni Hnd]. destruct (IH (write_position t v) c Hnd) as [H1 H2].
  assert (update_character_id v = c -> c ∉ map update_character_id us) as Hv by (by intros <-). split.
  - intros u [->|Hu]%elem_of_cons Ec.
    + rewrite H2 by auto. unfold write_position. by rewrite Ec, lookup_alter_eq.
    + rewrite (H1 u Hu Ec). unfold write_position. rewrite lookup_alter_ne; [done|].
      intros E. apply (Hv E). rewrite <- Ec. by apply (list_elem_of_fmap_2 update_character_id).
  - intros Hno. rewrite H2 by (intros Hin; apply Hno; by right). unfold write_position. apply lookup_alter_ne.
    intros E. apply Hno. rewrite <- E. by left.
Qed.

Lemma all_written m t us : keyed_updates m -> (forall u, u ∈ us <-> m !! update_character_id u = Some u) ->
  NoDup (map update_character_id us) -> written m t (foldl write_position t us).
Proof.
  intros Hid Hin Hnd c. destruct (writes_rows us t c Hnd) as [H1 H2]. destruct (m !! c) as [u|] eqn:Ec.
  - apply H1; [|by apply Hid]. apply Hin. by rewrite (Hid _ _ Ec).
  - apply H2. intros (u & -> & Hu)%list_elem_of_fmap. apply Hin in Hu. congruence.
Qed.

(** How far such a flush of [b] has come. *)
Definition flush_at_phase (b x : PositionBuffer) : Prop :=
  match flushing x with
  | Collecting n us => buffer x = buffer b /\ characters x = characters b /\ NoDup (map update_character_id us) /\
      forall u, u ∈ us <-> buffer b !! update_character_id u = Some u /\ (shard_of (update_character_id u) < n)%nat
  | Clearing n us => (forall c, buffer x !! c = if decide (shard_of c < n)%nat then None else buffer b !! c) /\
      characters x = characters b /\ NoDup (map update_character_id us) /\ forall u, u ∈ us <-> buffer b !! update_character_id u = Some u
  | Writing us => buffer x = ∅ /\ exists before, characters x = foldl write_position (characters b) before /\
      NoDup (map update_character_id (before ++ us)) /\ forall u, u ∈ before ++ us <-> buffer b !! update_character_id u = Some u
  | Waiting => buffer x = ∅ /\ written (buffer b) (characters b) (characters x)
  end.

Lemma flush_begins b x : flushing b = Waiting -> calm_step b x -> flush_at_phase b x.
Proof.
  intros Hb (o & Hs & _). destruct Hs; try congruence. unfold flush_at_phase. cbn. split; [done|]. split; [done|]. split; [constructor|].
  intros u. split; [by intros []%not_elem_of_nil|lia].
Qed.

Lemma flush_goes_on b x y : keyed_updates (buffer b) -> flush_at_phase b x -> calm_step x y -> flush_at_phase b y.
Proof.
  intros Hid Hx (o & Hs & Ho). destruct Hs as [x Hf Hne|x n us vs Hf Hn Hvs|x us Hf|x n us Hf Hn|x us Hf|x u rest outcome Hf|x Hf];
    unfold flush_at_phase in Hx |- *; rewrite Hf in Hx; cbn.
  - by destruct Hx as [? _].
  - destruct Hx as (Eb & Ec & Hnd & Hin). rewrite Eb in Hvs. destruct (shard_values n (buffer b) vs Hid Hvs) as [Hin' Hnd'].
    split; [done|]. split; [done|]. split.
    + apply (collect_distinct n); [done|done|intros u Hu; by apply Hin|intros u Hu; by apply Hin'].
    + intros u. rewrite elem_of_app, Hin, Hin'. split; [intros [[? ?]|[? ?]]; (split; [done|lia])|]. intros [Hu Hlt].
      destruct (decide (shard_of (update_character_id u) = n)); [by right|left; split; [done|lia]].
  - destruct Hx as (Eb & Ec & Hnd & Hin). split; [intros c; by rewrite Eb|]. split; [done|]. split; [done|].
    intros u. rewrite Hin. split; [by intros [? _]|]. intros Hu. by split.
  - destruct Hx as (Eb & Ec & Hnd & Hin). split; [|by split]. intros c. destruct (decide (shard_of c < S n)%nat) as [Hlt|Hge].
    + apply eq_None_not_Some. intros [u [Hu Hs]%map_lookup_filter_Some]. cbn in Hs. rewrite Eb in Hu. case_decide; [done|lia].
    + apply option_eq. intros u. rewrite map_lookup_filter_Some, Eb, decide_False by lia. cbn. split; [by intros [? _]|].
      intros Hu. split; [done|lia].
  - destruct Hx as (Eb & Ec & Hnd & Hin). split.
    + apply map_eq. intros c. by rewrite Eb, decide_True, lookup_empty by done.
    + exists []. by split.
  - destruct Hx as (Eb & before & Ec & Hnd & Hin). destruct Ho as [?|[= ->]]; [done|]. cbn. split; [done|].
    exists (before ++ [u]). rewrite foldl_app, <- app_assoc. cbn. rewrite Ec. by split.
  - destruct Hx as (Eb & before & Ec & Hnd & Hin). rewrite app_nil_r in *. split; [done|]. rewrite Ec. by apply all_written.
Qed.

Lemma flush_runs b x : keyed_updates (buffer b) -> flushing b = Waiting -> tc calm_step b x -> flush_at_phase b x.
Proof.
  intros Hid Hb H.
  assert (forall y z, rtc calm_step y z -> flush_at_phase b y -> flush_at_phase b z) as Hgo.
  { intros y z Hy. induction Hy as [|y z w Hs _ IH]; [done|]. intros Hp. apply IH. by eapply flush_goes_on. }
  inversion H as [? ? Hs|? y ? Hs H']; subst; [by apply flush_begins|]. apply (Hgo y); [by apply tc_rtc|by apply flush_begins].
Qed.

(** It comes to its end. *)
Lemma collect_runs m t k : forall n us, (n + k = shards)%nat ->
  exists us', rtc calm_step (mk_buffer m (Collecting n us) t) (mk_buffer m (Collecting shards us') t).
Proof.
  induction k as [|k IH]; intros n us Hn.
  - exists us. assert (n = shards) as -> by lia. done.
  - destruct (IH (S n) (us ++ (map_to_list (shard shard_of n m)).*2) ltac:(lia)) as [us' H]. exists us'. eapply rtc_l; [|exact H].
    exists None. split; [|by left]. by apply (step_collect shards shard_of (mk_buffer m (Collecting n us) t)); [|lia|].
Qed.

Lemma clear_runs us t k : forall m n, (n + k = shards)%nat ->
  exists m', rtc calm_step (mk_buffer m (Clearing n us) t) (mk_buffer m' (Clearing shards us) t).
Proof.
  induction k as [|k IH]; intros m n Hn.
  - exists m. assert (n = shards) as -> by lia. done.
  - destruct (IH (filter (fun p => shard_of p.1 <> n) m) (S n) ltac:(lia)) as [m' H]. exists m'. eapply rtc_l; [|exact H].
    exists None. split; [|by left]. by apply (step_clear shards shard_of (mk_buffer m (Clearing n us) t)); [|lia].
Qed.

Lemma write_runs m us : forall t, exists t', rtc calm_step (mk_buffer m (Writing us) t) (mk_buffer m Waiting t').
Proof.
  induction us as [|u us IH]; intros t.
  - exists t. apply rtc_once. exists None. split; [|by left]. by apply (step_end shards shard_of (mk_buffer m (Writing []) t)).
  - destruct (IH (write_position t u)) as [t' H]. exists t'. eapply rtc_l; [|exact H]. exists (Some QueryRuns). split; [|by right].
    by apply (step_write shards shard_of (mk_buffer m (Writing (u :: us)) t) u us QueryRuns).
Qed.

Lemma flush_ends b : flushing b = Waiting -> buffer b <> ∅ -> exists x, tc calm_step b x /\ flushing x = Waiting.
Proof.
  intros Hf Hne. destruct b as [m f t]. cbn in Hf, Hne. subst f.
  destruct (collect_runs m t shards 0 [] eq_refl) as [us H1]. destruct (clear_runs us t shards m 0 eq_refl) as [m' H2].
  destruct (write_runs m' us t) as [t' H3]. exists (mk_buffer m' Waiting t'). split; [|done].
  eapply tc_rtc_r; [apply tc_once|].
  - exists None. split; [|by left]. by apply (step_begin shards shard_of (mk_buffer m Waiting t)).
  - etransitivity; [exact H1|]. eapply rtc_l.
    { exists None. split; [|by left]. by apply (step_collected shards shard_of (mk_buffer m (Collecting shards us) t)). }
    etransitivity; [exact H2|]. eapply rtc_l; [|exact H3].
    exists None. split; [|by left]. by apply (step_cleared shards shard_of (mk_buffer m' (Clearing shards us) t)).
Qed.

(** C28: the positions in the database.  However the session runtime, shard by shard of the buffer, and the background task
    interleave and whatever statements fail: the position of a character in the table is the one it began with or one that
    was tracked for that character, and from one moment to a later one it never goes back to an older one.  A flush that is
    not disturbed - nothing is tracked and no statement fails while it runs - comes to its end, and however it goes through
    the shards, it leaves the buffer empty, every character of the table that had an update in the buffer at that update,
    which is the last one tracked for that character, and every other row as it was.  Updates that an earlier, disturbed
    flush has lost stay lost. *)
Theorem positions_move_forward b0 log b :
  buffer b0 = ∅ -> flushing b0 = Waiting -> position_run b0 log b ->
  (forall cid row0 log' b', characters b0 !! cid = Some row0 -> position_run b log' b' ->
     exists row row' i j, characters b !! cid = Some row /\ characters b' !! cid = Some row' /\ (i <= j)%nat /\
       places row0 (log ++ log') cid !! i = Some (row_place row) /\ places row0 (log ++ log') cid !! j = Some (row_place row')) /\
  (forall cid u, buffer b !! cid = Some u -> list.last (tracked_for cid log) = Some u) /\
  (flushing b = Waiting ->
     (buffer b <> ∅ -> exists b2, tc calm_step b b2 /\ flushing b2 = Waiting) /\
     (forall b2, tc calm_step b b2 -> flushing b2 = Waiting ->
        buffer b2 = ∅ /\
        (forall cid u row, buffer b !! cid = Some u -> characters b !! cid = Some row ->
           characters b2 !! cid = Some (mk_character (account_id row) (character_name row) (attributes row) (available_attribute_points row)
             (mk_pos (update_x_mm u) (update_y_mm u) (update_z_mm u)) (Egress.quadrant_x u) (Egress.quadrant_y u))) /\
        (forall cid, buffer b !! cid = None \/ characters b !! cid = None -> characters b2 !! cid = characters b !! cid))).
Proof.
  intros Hb0 Hf0 Hrun.
  assert (buffer_ok b0) as Hok0.
  { split; [intros c u; by rewrite Hb0, lookup_empty|unfold pending; rewrite Hf0; constructor|by rewrite Hf0]. }
  assert (forall cid row0, characters b0 !! cid = Some row0 -> at_places row0 [] b0 cid 0) as Hat0.
  { intros cid row0 Hrow0. exists row0, 0%nat, 0%nat. unfold pending. rewrite Hf0, Hb0. split; [done|]. split; [done|]. split; [lia|]. split; [cbn; lia|].
    split; [by intros u []%not_elem_of_nil|]. intros u. by rewrite lookup_empty. }
  assert (buffer_ok b) as Hok.
  { clear Hat0 Hb0. induction Hrun as [|log b u _ IH|log b b' o _ IH Hs]; [done|by apply track_ok|by eapply flush_ok]. }
  split; [|split].
  - intros cid row0 log' b' Hrow0 Hrun'.
    destruct (run_at row0 [] b0 log b cid 0 Hrun Hok0 (Hat0 _ _ Hrow0)) as (_ & i & _ & Hat). cbn [app] in Hat.
    destruct (run_at row0 log b log' b' cid i Hrun' Hok Hat) as (_ & j & Hij & Hat').
    destruct Hat as (row & j1 & k1 & Hrow & Hi & _). destruct Hat' as (row' & _ & _ & Hrow' & Hj & _).
    exists row, row', i, j. split; [done|]. split; [done|]. split; [done|]. split; [|done].
    unfold places, tracked_for. rewrite list.filter_app, map_app. apply (lookup_app_l_Some (row_place row0 :: _)). exact Hi.
  - by eapply run_buffer.
  - intros Hw. split; [by apply flush_ends|]. intros b2 H2 Hw2.
    pose proof (flush_runs b b2 (bo_keys _ Hok) Hw H2) as Hp. unfold flush_at_phase in Hp. rewrite Hw2 in Hp. destruct Hp as [He Hwr].
    split; [done|]. split; intros cid; rewrite (Hwr cid).
    + intros u row -> ->. done.
    + intros [->|E]; [done|]. rewrite E. by destruct (buffer b !! cid).
Qed.
End Positions.

(** ** Small tables *)

Definition demo_row : CharacterRow := mk_character 7 [65] [1; 1; 1; 1; 1] 15 (mk_pos 0 0 0) 0 0.
Definition demo_update (x : Z) : CharacterPositionUpdate :=
  {| update_character_id := 1; update_x_mm := x; update_y_mm := 0; update_z_mm := 0; Egress.quadrant_x := 0; Egress.quadrant_y := 0 |}.
Definition demo_buffer : PositionBuffer := mk_buffer ∅ Waiting {[ 1 := demo_row ]}.
(** Two shards. *)
Definition parity (id : Z) : nat := Z.to_nat (id mod 2).
Abbreviation demo_run := (position_run 2 parity demo_buffer).

Lemma parity_shard id : (parity id < 2)%nat.
Proof. unfold parity. pose proof (Z.mod_pos_bound id 2 ltac:(lia)). lia. Qed.

Lemma demo_tracked : demo_run [demo_update 5] (track_position demo_buffer (demo_update 5)).
Proof. apply (run_track _ _ _ []), run_start. Qed.

Lemma positions_move_forward_witness :
  exists b2, tc (calm_step 2 parity) (track_position demo_buffer (demo_update 5)) b2 /\ buffer b2 = ∅ /\
    exists row, characters b2 !! 1 = Some row /\ position row = mk_pos 5 0 0.
Proof.
  destruct (positions_move_forward 2 parity parity_shard demo_buffer [demo_update 5] (track_position demo_buffer (demo_update 5))
    eq_refl eq_refl demo_tracked) as (_ & _ & H).
  destruct (H eq_refl) as [He Hall]. destruct He as (b2 & Hrun & Hw); [apply insert_non_empty|].
  destruct (Hall b2 Hrun Hw) as (Hb & Hrow & _). exists b2. split; [exact Hrun|]. split; [exact Hb|].
  exists (set_row_position demo_row (demo_update 5)). split; [|reflexivity]. apply Hrow; vm_compute; reflexivity.
Defined.

(** A position that is tracked while a flush is between the copy and the clearing of its shard is
    never written, and so is one whose statement fails: the buffer is empty, no flush is
    under way, and the table is as before. *)
Example positions_lost : exists b, demo_run [demo_update 5; demo_update 6] b /\
  buffer b = ∅ /\ flushing b = Waiting /\ characters b !! 1 = Some demo_row.
Proof.
  assert (demo_run [demo_update 5] (mk_buffer {[ 1 := demo_update 5 ]} (Collecting 2 [demo_update 5]) {[ 1 := demo_row ]})) as H1.
  { eapply run_flush; [eapply run_flush; [eapply run_flush; [exact demo_tracked|]|]|].
    - exact (step_begin 2 parity (track_position demo_buffer (demo_update 5)) eq_refl (insert_non_empty _ _ _)).
    - exact (step_collect 2 parity (mk_buffer {[ 1 := demo_update 5 ]} (Collecting 0 []) {[ 1 := demo_row ]}) 0 [] [] eq_refl ltac:(lia) ltac:(reflexivity)).
    - exact (step_collect 2 parity (mk_buffer {[ 1 := demo_update 5 ]} (Collecting 1 []) {[ 1 := demo_row ]}) 1 [] [demo_update 5] eq_refl ltac:(lia) ltac:(reflexivity)). }
  apply (run_track _ _ _ _ _ (demo_update 6)) in H1.
  eexists (mk_buffer ∅ Waiting {[ 1 := demo_row ]}). split; [|done].
  eapply run_flush; [|exact (step_write 2 parity (mk_buffer ∅ (Writing [demo_update 5]) {[ 1 := demo_row ]}) (demo_update 5) [] QueryFails eq_refl)].
  eapply run_flush; [|exact (step_cleared 2 parity (mk_buffer ∅ (Clearing 2 [demo_update 5]) {[ 1 := demo_row ]}) _ eq_refl)].
  eapply run_flush; [|exact (step_clear 2 parity (mk_buffer {[ 1 := demo_update 6 ]} (Clearing 1 [demo_update 5]) {[ 1 := demo_row ]}) 1 _ eq_refl ltac:(lia))].
  eapply run_flush; [|exact (step_clear 2 parity (mk_buffer {[ 1 := demo_update 6 ]} (Clearing 0 [demo_update 5]) {[ 1 := demo_row ]}) 0 _ eq_refl ltac:(lia))].
  eapply run_flush; [exact H1|]. exact (step_collected 2 parity (track_position (mk_buffer {[ 1 := demo_update 5 ]} (Collecting 2 [demo_update 5]) {[ 1 := demo_row ]}) (demo_update 6)) _ eq_refl).
Qed.

Definition number_codec (s : Z) : option (list Z) := Some [s].
Definition number_decode (l : list Z) : option Z := match l with [s] => Some s | _ => None end.

Lemma no_lost_inventory_witness :
  save_inventory number_codec QueryRuns {[ 1 := mk_row [7] 3 ]} 1 9 3 = ({[ 1 := mk_row [9] 4 ]}, Ok 4) /\
  save_inventory number_codec QueryRuns {[ 1 := mk_row [9] 4 ]} 1 8 3 = ({[ 1 := mk_row [9] 4 ]}, Err (Conflict 1)).
Proof.
  split; [vm_compute; reflexivity|].
  destruct (no_lost_inventory number_codec number_decode {[ 1 := mk_row [7] 3 ]} {[ 1 := mk_row [7] 3 ]} {[ 1 := mk_row [9] 4 ]} 1 7 9 3 4)
    as (_ & _ & _ & _ & H).
  - intros a data E. injection E as <-. reflexivity.
  - intros i row [<- <-]%lookup_singleton_Some. cbn. lia.
  - vm_compute. reflexivity.
  - apply rtc_refl.
  - vm_compute. reflexivity.
  - apply H; [apply rtc_refl|discriminate].
Defined.

(** Two autosaves of a character that drops what it has in between. *)
Section Demo.
#[local] Existing Instances map_ecs map_ecs_laws.
Abbreviation MapZone := (ZoneRuntime N (MapWorld Components)).

Definition count_codec (s : CharacterInventoryState) : option (list Z) := Some [Z.of_nat (size (inv_items s))].
Definition pockets_decode (l : list Z) : option CharacterInventoryState := Some pockets.
Definition saved_once : Inventories := {[ 7 := mk_row [1] 1 ]}.
Definition handed_out (z : MapZone) : list (Z * (CharacterInventoryState * Z)) :=
  match zone_accept z (SnapshotInventory 7 1) with Ok (_, replies) => replies | Err _ => [] end.
Definition ticked (z : MapZone) : MapZone := match zone_step [] z with Ok (z', _) => z' | Err _ => z end.
Definition emptied : MapZone := ticked (after demo1 drop_pebbles).

Definition left_with : list (CharacterInventoryState * Z) :=
  match zone_accept emptied (DespawnCharacter 7 (Some 2)) with Ok (_, replies) => replies.*2 | Err _ => [] end.
(** Two autosaves and the departure. *)
Definition demo_saves : list (CharacterInventoryState * Z) := ((handed_out demo1).*2 ++ (handed_out emptied).*2) ++ left_with.

Lemma demo_session : session_saves (Entity := N) (W := MapWorld Components) 7 1 demo_saves.
Proof.
  assert (in_zone 7 1 emptied ((handed_out demo1).*2 ++ (handed_out emptied).*2)) as Hin.
  { apply (zone_snapshot 7 1 emptied _ 1 emptied); [|vm_compute; reflexivity].
    eapply (zone_tick 7 1 (after demo1 drop_pebbles) _ []).
    - apply (zone_command 7 1 demo1 _ drop_pebbles _ []); [|discriminate|discriminate|vm_compute; reflexivity].
      apply (zone_snapshot 7 1 demo1 [] 1 demo1); [|vm_compute; reflexivity].
      apply (zone_spawned 7 1 demo0 (mk_pos 0 0 0) pockets demo1 []). vm_compute. reflexivity.
    - vm_compute. reflexivity. }
  unfold demo_saves, left_with. destruct (zone_accept emptied (DespawnCharacter 7 (Some 2))) as [[z' replies]|e] eqn:E.
  - exact (saves_at_the_end 7 1 emptied _ (Some 2) z' replies Hin E).
  - vm_compute in E. discriminate E.
Qed.

Lemma session_saves_once_witness :
  map (fun save => count_codec save.1) demo_saves = [Some [1]; Some [0]; Some [0]] /\
  save_all count_codec saved_once 7 demo_saves = {[ 7 := mk_row [1] 2 ]}.
Proof.
  split; [vm_compute; reflexivity|].
  assert (exists first saves, demo_saves = first :: saves /\ count_codec first.1 = Some [1]) as (first & saves & E & Ef)
    by (eexists _, _; split; vm_compute; reflexivity).
  pose proof demo_session as Hzone. rewrite E in *.
  destruct (session_saves_once (Entity := N) (W := MapWorld Components) count_codec pockets_decode saved_once 7 first saves [1]) as [_ H].
  - intros i row Hrow. unfold saved_once in Hrow. apply lookup_singleton_Some in Hrow as [<- <-]. cbn. lia.
  - intros row Hrow. vm_compute in Hrow. injection Hrow as <-. split; [cbn; lia|by eexists].
  - exact Hzone.
  - exact Ef.
  - rewrite H. vm_compute. reflexivity.
Defined.
End Demo.
