(* ===== verification/ServerContracts.v ===== *)
(** What a client is sent when it has acknowledged the frontier: the contracts of every
    revealed quadrant in the order of the manifest, or a prefix of them, after which the
    connection is no longer served. *)

From S2P Require Import Prelude Bytes Core Contracts Snapshots Wire Presentation Terrain Frontier Preparation Runtime.
From S2P Require Import Scheduler SchedulerSafety PublicContracts Delivery System Session Sync Transport Bags Movement.
From S2P Require Import Traversal Zone ZoneMovement ZoneInventory ZoneSafety Egress Router Server ServerInv ServerSteps.
From S2P Require Import ServerCorrect.
Import World Bootstrap Equipment.

Section Messages.
Context (env : Environment).

(** ** Messages one after the other *)

Lemma send_all_app messages : forall o sender more,
  send_all env o sender (messages ++ more) =
  let '(o1, rs) := send_all env o sender messages in let '(o2, rs') := send_all env o1 sender more in (o2, rs ++ rs').
Proof.
  induction messages as [|[k payload] rest IH]; intros o sender more; cbn [send_all app].
  - by destruct (send_all env o sender more).
  - destruct (reliable_send _ _ _ _ _) as [o1 r]. rewrite IH. destruct (send_all env o1 sender rest) as [o2 rs].
    by destruct (send_all env o2 sender more).
Qed.

(** All of them are written. *)
Definition all_sent (rs : list (result ReliableSendError unit)) : bool := forallb is_ok rs.

Lemma send_fails_closed o sender k payload o' e : reliable_send env o sender k payload = (o', Err e) ->
  reliable_connection_id sender ∈ failed_closed o'.
Proof. intros [(? & _)|(e' & _ & -> & _)]%reliable_send_cases; [done|set_solver]. Qed.

Lemma closed_send o sender k payload : reliable_connection_id sender ∈ failed_closed o ->
  reliable_send env o sender k payload = (o, Err (SendFailClosed (reliable_connection_id sender))).
Proof. intros H. unfold reliable_send. by rewrite decide_True. Qed.

Lemma unsent_closed messages : forall o sender o' rs, send_all env o sender messages = (o', rs) -> all_sent rs = false ->
  reliable_connection_id sender ∈ failed_closed o'.
Proof.
  induction messages as [|[k payload] rest IH]; intros o sender o' rs; cbn [send_all]; [by intros [= <- <-]|].
  destruct (reliable_send env o sender k payload) as [o1 [[]|e]] eqn:E; destruct (send_all env o1 sender rest) as [o2 rs1] eqn:E2;
    intros [= <- <-]; cbn; intros H; [by eapply IH|].
  apply send_fails_closed in E. rewrite send_closed in E2 by done. by injection E2 as <- _.
Qed.

(** What was sent before a failure stays sent, the rest is not attempted. *)
Lemma send_all_app_failed o sender messages more o1 rs : send_all env o sender messages = (o1, rs) -> all_sent rs = false ->
  (send_all env o sender (messages ++ more)).1 = o1 /\ all_sent (send_all env o sender (messages ++ more)).2 = false.
Proof.
  intros E Hfail. rewrite send_all_app, E. rewrite send_closed by (by eapply unsent_closed). split; [done|].
  unfold all_sent in *. cbn [snd]. by rewrite forallb_app, Hfail.
Qed.

Lemma send_all_app_sent o sender messages more o1 rs : send_all env o sender messages = (o1, rs) -> all_sent rs = true ->
  (send_all env o sender (messages ++ more)).1 = (send_all env o1 sender more).1 /\
  all_sent (send_all env o sender (messages ++ more)).2 = all_sent (send_all env o1 sender more).2.
Proof.
  intros E Hsent. rewrite send_all_app, E. destruct (send_all env o1 sender more) as [o2 rs2]. split; [done|].
  unfold all_sent in *. cbn [snd]. by rewrite forallb_app, Hsent.
Qed.
End Messages.

(** The messages about one revealed quadrant, for the protocol minor of the client. *)
Definition quadrant_messages (blake3_hash : list Z -> list Z) (blake3_keyed : list Z -> list Z -> list Z)
  (cfg : SchedulerConfig) (sender : ReliableConnectionSender) (retained : list (Identity * Terrain.TerrainAuthorityArtifactV1))
  (c : Coord) (messages : list (MessageKind * list Z)) : Prop :=
  exists t p w terrain policy water,
    presentation_contracts_with_water_for_revealed blake3_hash blake3_keyed cfg retained c = Ok (t, p, w) /\
    Presentation.Terrain.quadrant_coord t = c /\ Presentation.Environment.policy_quadrant_coord p = c /\
    Presentation.Water.water_quadrant_coord w = c /\
    Presentation.Terrain.terrain_encode_wire t = Ok terrain /\
    Presentation.Environment.environment_encode_wire p = Ok policy /\
    Presentation.Water.water_encode_wire w = Ok water /\
    messages = (KTerrainAuthority, terrain) ::
      (if supports_protocol_minor sender 1 then [(KEnvironmentPresentationPolicy, policy)] else []) ++
      (if supports_protocol_minor sender 2 then [(KWaterSurfacePresentation, water)] else []).

Section Contracts.
Context {Q : Type} `{!MpscSender Q AuthorizedIntent}.
Context (blake3_hash : list Z -> list Z) (blake3_keyed : list Z -> list Z -> list Z) (cfg : SchedulerConfig).
Context (env : Environment).

Abbreviation Srv := (SessionRuntime (Q := Q)).
Abbreviation inv := (server_inv (Q := Q) blake3_hash blake3_keyed cfg).
Abbreviation run := (step_run (Q := Q) blake3_hash blake3_keyed cfg env).
Abbreviation ok := (step_ok (Q := Q) blake3_hash blake3_keyed cfg).
Abbreviation messages_of := (quadrant_messages blake3_hash blake3_keyed cfg).

#[local] Existing Instances M_ret M_bind.

(** Every revealed quadrant has its messages. *)
Lemma messages_exist (s : Srv) sender retained m : inv s -> has_scheduler (fixed s) = true ->
  retained ≡ₚ map_to_list (sys_retained (sys s)) -> manifest (sys_frontier (sys s)) = Ok m ->
  exists mss, Forall2 (messages_of sender retained) (Manifest.quadrants m) mss.
Proof.
  intros Hs Hsched Hret Hm. pose proof (sv_system Hs) as Hy. rewrite Hsched in Hy.
  destruct (system_manifest _ _ _ _ _ _ Hy) as (m' & payload & Hm' & _ & _ & _ & _ & _ & Hlat).
  assert (m' = m) as -> by congruence. clear Hm Hm'. induction (Manifest.quadrants m) as [|c rest IH]; [by exists []|].
  destruct IH as [mss Hmss]; [intros c' Hc'; apply Hlat; by right|].
  destruct (system_contracts _ _ _ _ _ _ c (fx_scheduler (sv_fixed Hs) Hsched) Hy Hret (Hlat c ltac:(by left)))
    as (t & p & w & e & _ & Hcw & Ht & Hp & Hw & Et & Ep & Ew).
  eexists (_ :: mss). constructor; [|exact Hmss]. by exists t, p, w, (terrain_payload e), (environment_payload e), (water_payload e).
Qed.

(** The body of the loop sends the messages of its quadrant. *)
Lemma send_quadrant_sends (s1 : Srv) cid sender a c messages : messages_of sender (ans_retained a) c messages ->
  send_quadrant blake3_hash blake3_keyed cfg env cid sender a c s1 =
  let '(o, rs) := send_all env (outside s1) sender messages in
  if all_sent rs then (set_outside s1 o, Ok true) else isolate env cid sender (set_outside s1 o).
Proof.
  intros (t & p & w & terrain & policy & water & Hcw & _ & _ & _ & Ht & Hp & Hw & ->).
  pose proof Hcw as Hc. unfold presentation_contracts_with_water_for_revealed in Hc.
  apply bind_Ok in Hc as ([t' p'] & Hc & Hrest). apply bind_Ok in Hrest as (w' & _ & Hrest).
  assert ((t', p') = (t, p)) as [= -> ->] by (repeat (case_decide; [done|]); by injection Hrest as -> -> _).
  unfold send_quadrant, mbind, M_bind, lift, try_outside, mret, M_ret, send_if_supported.
  change WATER_SURFACE_PRESENTATION_MIN_PROTOCOL_MINOR with 2. change ENVIRONMENT_PRESENTATION_POLICY_MIN_PROTOCOL_MINOR with 1.
  destruct (supports_protocol_minor sender 2) eqn:E2; [rewrite Hcw|rewrite Hc]; cbn [map_err]; rewrite Ht; cbn [map_err send_all app];
    (destruct (reliable_send env (outside s1) sender KTerrainAuthority terrain) as [o1 [[]|e1]] eqn:Er1;
     [|apply send_fails_closed in Er1; by rewrite ?send_closed, ?closed_send by done]); rewrite Hp; cbn [map_err];
    (destruct (supports_protocol_minor sender 1); cbn [app send_all];
     [parts; destruct (reliable_send env o1 sender KEnvironmentPresentationPolicy policy) as [o2 [[]|e2]] eqn:Er2;
      [|apply send_fails_closed in Er2; by rewrite ?closed_send by done]|]); try done.
  all: rewrite Hw; cbn [map_err]; parts;
    lazymatch goal with |- context [reliable_send _ ?o _ KWaterSurfacePresentation _] =>
      by destruct (reliable_send env o _ KWaterSurfacePresentation _) as [o3 [[]|e3]] end.
Qed.

Lemma send_quadrants_sends cid sender a coords mss : Forall2 (messages_of sender (ans_retained a)) coords mss -> forall s1 : Srv,
  send_quadrants blake3_hash blake3_keyed cfg env cid sender a coords s1 =
  let '(o, rs) := send_all env (outside s1) sender (List.concat mss) in
  if all_sent rs then (set_outside s1 o, Ok tt) else
    let '(s2, r) := isolate env cid sender (set_outside s1 o) in
    (s2, match r with Ok _ => Ok tt | Err e => Err e end : result ServerError unit).
Proof.
  induction 1 as [|c messages coords mss Hm _ IH]; intros s1; cbn [send_quadrants concat].
  { cbn. f_equal. by destruct s1. }
  unfold mbind, M_bind. rewrite (send_quadrant_sends _ _ _ _ _ _ Hm).
  destruct (send_all env (outside s1) sender messages) as [o1 rs1] eqn:E1. destruct (all_sent rs1) eqn:Ea1.
  - pose proof (send_all_app_sent env (outside s1) sender messages (List.concat mss) o1 rs1 E1 Ea1) as [Ho Hrs].
    rewrite IH. parts. destruct (send_all env (outside s1) sender (messages ++ List.concat mss)) as [o rs].
    destruct (send_all env o1 sender (List.concat mss)) as [o2 rs2]. cbn [fst snd] in Ho, Hrs. subst o2. by rewrite Hrs.
  - pose proof (send_all_app_failed env (outside s1) sender messages (List.concat mss) o1 rs1 E1 Ea1) as [Ho Hrs].
    destruct (send_all env (outside s1) sender (messages ++ List.concat mss)) as [o rs]. cbn [fst snd] in Ho, Hrs. rewrite Hrs. subst o1.
    unfold isolate, mbind, M_bind, mret, M_ret. destruct (close_capability sender (set_outside s1 o)) as [s2 [[]|e]]; [|done].
    by destruct (isolate_connection_after_reliable_delivery_failure env cid s2) as [s3 [[]|e]].
Qed.

(** The connection is given up: it is not served any more, what it was sent stays. *)
Lemma isolate_runs (s1 : Srv) cid sender : inv s1 -> reliable_by_connection s1 !! cid = Some sender ->
  cid ∈ failed_closed (outside s1) ->
  runs (isolate env cid sender) s1 (fun s2 r =>
    ~ served s2 cid /\ state_of s2 cid = Some Closing /\ cid ∈ failed_closed (outside s2) /\
    delivered cid (effects (outside s2)) = delivered cid (effects (outside s1)) /\
    (r = Ok false \/ exists e, r = Err (DespawnFailed e) /\ queue_problem (zone_id (fixed s1)) "despawn character" e)).
Proof.
  intros Hs Hr Hclosed. unfold isolate. apply runs_modify. unfold fail_close.
  destruct (sv_reliable Hs cid sender Hr) as [-> Hst]. rewrite decide_True by done.
  apply runs_bind. unfold isolate_connection_after_reliable_delivery_failure.
  assert (set_outside s1 (outside s1) = s1) as -> by (by destruct s1).
  eapply runs_binding; [exact Hst|]. rewrite (registered_binding _ _ _ s1 cid _ Hs Hst).
  destruct (begin_closing_Ok _ _ _ (sv_registry Hs) Hst) as (R & HR & _ & _ & HstR).
  eapply runs_registry; [exact HR|]. do 4 apply runs_modify. apply runs_get.
  assert (forall P : Prop, P -> ~ is_Some (delete cid (reliable_by_connection s1) !! cid) /\ reg_state R cid = Some Closing /\ P) as Hgone.
  { intros P HP. rewrite lookup_delete_eq, HstR, decide_True by done. split; [by intros [? ?]|done]. }
  destruct (live_binding s1 cid) as [b|] eqn:Eb.
  - destruct (binding_zone s1 cid b Eb) as [Hz _]. unfold runs at 1, on_outside, despawn_character. parts. rewrite Hz.
    destruct (route_control _ _ _ _ _ _) as [o' r] eqn:E.
    apply (route_control_cases blake3_hash blake3_keyed cfg env s1) in E as [[-> ->]|(e & -> & Hprob & ->)]; [| |done];
      cbn [fst snd map_err].
    + apply Hgone. parts. split; [done|]. split; [|by left]. etransitivity; [|exact (app_nil_r _)].
      exact (delivered_app cid _ [CommandQueued (zone_id (fixed s1)) (DespawnCharacter (wb_character_id b) None)]).
    + apply Hgone. parts. split_goals; [done|done|]. right. eauto.
  - apply Hgone. parts. split_goals; [done|done|]. by left.
Qed.

(** Of a sequence of messages a prefix is written; if it is not all of them, the
    capability is closed. *)
Lemma send_all_outcome o sender messages o' rs (cid := reliable_connection_id sender) :
  send_all env o sender messages = (o', rs) ->
  exists n, delivered cid (effects o') = delivered cid (effects o) ++ take n messages /\
    if all_sent rs then n = length messages else (n < length messages)%nat /\ cid ∈ failed_closed o'.
Proof.
  intros E. pose proof (unsent_closed env messages o sender o' rs E) as Hclosed. fold cid in Hclosed.
  destruct (decide (cid ∈ failed_closed o)) as [Hin|Hout].
  { rewrite send_closed in E by done. injection E as <- <-. exists 0%nat. cbn. rewrite app_nil_r. split; [done|].
    destruct messages; cbn; [done|]. split; [lia|done]. }
  destruct (send_all_prefix env o o' sender messages rs Hout E) as (n & Hd & _ & _ & Hlen & Hiff & Hlate). fold cid in Hd, Hiff.
  destruct (all_sent rs) eqn:Ea.
  - exists (length messages). split; [|done]. rewrite Hd. f_equal. destruct (decide (n < length messages)%nat) as [Hn|Hn].
    + destruct (Hlate Hn) as (e & He & _). unfold all_sent in Ea. rewrite forallb_forall in Ea.
      apply list_elem_of_lookup_2, list_elem_of_In in He. by apply Ea in He.
    + by rewrite !take_ge by lia.
  - exists n. split; [done|]. split; [apply Hiff|]; auto.
Qed.

Lemma send_all_extends messages : forall o sender, extends no_command o (send_all env o sender messages).1.
Proof.
  induction messages as [|[k payload] rest IH]; intros o sender; cbn [send_all]; [done|].
  pose proof (reliable_send_extends env o sender k payload) as H1. specialize (IH (reliable_send env o sender k payload).1 sender).
  destruct (reliable_send env o sender k payload) as [o1 r]. cbn [fst] in *.
  destruct (send_all env o1 sender rest) as [o2 rs]. cbn [fst] in *.
  etransitivity; [|exact IH]. eapply extends_mono; [|exact H1]. intros e. apply send_no_command.
Qed.

(** A message that fits a frame and the capability. *)
Definition fits (sender : ReliableConnectionSender) (message : MessageKind * list Z) : Prop :=
  in_u 16 (len message.2) /\ len message.2 <= Egress.maximum_payload_bytes sender.

Lemma send_all_good sender messages : (forall log k, env_write env log (reliable_connection_id sender) k = None) ->
  Forall (fits sender) messages -> forall o, reliable_connection_id sender ∉ failed_closed o ->
  all_sent (send_all env o sender messages).2 = true.
Proof.
  intros Hnet Hfits. induction Hfits as [|[k payload] rest [Hu Hmax] _ IH]; intros o Ho; cbn [send_all]; [done|].
  assert (reliable_send env o sender k payload = (emit o (ReliableSent (reliable_connection_id sender) k payload), Ok tt)) as ->.
  { cbn [snd] in *. unfold reliable_send. rewrite decide_False by done. unfold send_attempt. rewrite decide_False by lia.
    unfold write_single_frame. rewrite decide_False by lia.
    destruct (header_new k (len payload)) as [h|e] eqn:Eh; cbn [map_err mbind result_bind]; [by rewrite Hnet|].
    unfold header_new, checked_u in Eh. rewrite decide_True in Eh by done. done. }
  specialize (IH (emit o (ReliableSent (reliable_connection_id sender) k payload)) Ho).
  destruct (send_all env _ sender rest) as [o2 rs]. exact IH.
Qed.

(** The acknowledgement of the current revision sends the contracts of every quadrant. *)
Lemma ack_sends (s : Srv) cid sender a m : inv s -> reliable_by_connection s !! cid = Some sender ->
  frontier_sync s !! cid = Some (Pending (current_revision s)) -> has_scheduler (fixed s) = true ->
  manifest (sys_frontier (sys s)) = Ok m ->
  exists s1, inv s1 /\ outside s1 = outside s /\ fixed s1 = fixed s /\ reliable_by_connection s1 !! cid = Some sender /\
    current_synced s1 cid /\
    run (StepTransport (FrontierManifestAckReceived cid (current_revision s)) a) s =
    send_quadrants blake3_hash blake3_keyed cfg env cid sender a (Manifest.quadrants m) s1.
Proof.
  intros Hs Hr Hsync Hsched Hm.
  destruct (system_manifest _ _ _ _ _ _ (sv_system Hs)) as (m' & payload & Hm' & _ & _ & Hrev & Hnz & _).
  assert (m' = m) as -> by congruence. change (rt_revision (sys_frontier (sys s))) with (current_revision s) in *.
  exists (set_delivery (set_sync s (<[cid := Synced (current_revision s)]> (frontier_sync s))) (delete cid (frontier_delivery s))).
  split; [by apply inv_synced|]. split; [done|]. split; [done|]. split; [done|]. split; [apply lookup_insert_eq|].
  cbn [step_run handle_transport_event]. unfold handle_manifest_ack, get, modify, mbind, M_bind. rewrite Hr.
  unfold apply_ack. rewrite Hsync. unfold validate_revision. rewrite (proj2 (Z.eqb_neq _ _) Hnz). cbn [state_revision].
  rewrite Z.ltb_irrefl. parts.
  assert ((acknowledge (frontier_delivery s) cid (current_revision s)).1 = delete cid (frontier_delivery s)) as Edel.
  { unfold acknowledge. destruct (frontier_delivery s !! cid) as [p|] eqn:Ep; [|by rewrite delete_id].
    pose proof (sv_pending Hs cid p Ep) as Hp. rewrite Hsync in Hp. injection Hp as Hp. by rewrite decide_False by naive_solver. }
  rewrite Edel. unfold send_revealed_presentation_contracts_to_connection, get, mbind, M_bind. parts.
  rewrite Hsched. unfold is_synced. rewrite lookup_insert_eq. cbn [state_is_synced negb]. rewrite Hr.
  unfold current_manifest, get, lift, mbind, M_bind. parts. rewrite Hm. cbn [map_err]. by rewrite decide_False by (rewrite Hrev; auto).
Qed.

(** C5: a client that acknowledges the current frontier is sent the world it may see:
    for every revealed quadrant, in the order of the manifest, its terrain, and its
    environment policy and water surface if the client's protocol knows them, each the
    encoding of the contract that was published for that quadrant - all of them if the
    network takes them, and then the client takes part in the game.  Otherwise what is
    written is a prefix of exactly these messages, nothing follows it, the connection is
    no longer served and its session is closing. *)
Theorem contracts_follow_ack (s0 s s' : Srv) (r : result ServerError unit) (cid : Z) (sender : ReliableConnectionSender)
  (a : Answers) (l := StepTransport (FrontierManifestAckReceived cid (current_revision s)) a) :
  server_started blake3_hash blake3_keyed cfg s0 -> rtc (turn blake3_hash blake3_keyed cfg env) s0 s -> ok s l ->
  has_scheduler (fixed s0) = true -> reliable_by_connection s !! cid = Some sender ->
  frontier_sync s !! cid = Some (Pending (current_revision s)) -> run l s = (s', r) ->
  exists m mss n, manifest (sys_frontier (sys s)) = Ok m /\
    Forall2 (messages_of sender (ans_retained a)) (Manifest.quadrants m) mss /\
    delivered cid (effects (outside s')) = delivered cid (effects (outside s)) ++ take n (concat mss) /\
    ((n = length (concat mss) /\ r = Ok tt /\ served s' cid /\ current_synced s' cid) \/
     ((n < length (concat mss))%nat /\ ~ served s' cid /\ state_of s' cid = Some Closing /\
      cid ∈ failed_closed (outside s') /\
      (r = Ok tt \/ exists e, r = Err (DespawnFailed e) /\ queue_problem (zone_id (fixed s0)) "despawn character" e))) /\
    (cid ∉ failed_closed (outside s) -> (forall log k, env_write env log cid k = None) -> Forall (fits sender) (concat mss) ->
     n = length (concat mss)).
Proof.
  intros H0 Hrun Hl Hsched Hr Hsync E. destruct (reached_inv _ _ _ _ s0 s H0 Hrun) as [Hs Hf]. rewrite <- Hf in *.
  destruct (sv_reliable Hs cid sender Hr) as [Hid _].
  destruct (system_manifest _ _ _ _ _ _ (sv_system Hs)) as (m & payload & Hm & _).
  destruct (messages_exist s sender (ans_retained a) m Hs Hsched Hl Hm) as [mss Hmss]. exists m, mss.
  destruct (ack_sends s cid sender a m Hs Hr Hsync Hsched Hm) as (s1 & Hs1 & Eo & Ef & Hr1 & Hsync1 & Eack).
  fold l in Eack. rewrite Eack, (send_quadrants_sends cid sender a _ mss Hmss s1), Eo in E.
  destruct (send_all env (outside s) sender (concat mss)) as [o rs] eqn:Esend.
  destruct (send_all_outcome _ _ _ _ _ Esend) as (n & Hd & Hn). rewrite Hid in Hd, Hn. exists n.
  split; [done|]. split; [done|].
  assert (cid ∉ failed_closed (outside s) -> (forall log k, env_write env log cid k = None) -> Forall (fits sender) (concat mss) ->
    all_sent rs = true) as Hgood.
  { intros Hopen Hnet Hfits. pose proof (send_all_good sender (concat mss) ltac:(by rewrite Hid) Hfits (outside s)
      ltac:(by rewrite Hid)) as H. by rewrite Esend in H. }
  destruct (all_sent rs) eqn:Ea.
  - injection E as <- <-. split; [exact Hd|]. split; [|auto]. left. split_goals; [done|done|by exists sender|exact Hsync1].
  - destruct Hn as [Hn Hclosed].
    assert (inv (set_outside s1 o)) as Hs2.
    { apply inv_outside; [done|]. rewrite Eo.
      assert (extends no_command (outside s) o) as Hext.
      { assert (o = (send_all env (outside s) sender (concat mss)).1) as -> by (by rewrite Esend). apply send_all_extends. }
      by eapply extends_commands. }
    pose proof (isolate_runs (set_outside s1 o) cid sender Hs2 Hr1 Hclosed) as H. unfold runs in H.
    destruct (isolate env cid sender (set_outside s1 o)) as [s2 r2]. cbn [fst snd] in H. injection E as <- <-.
    destruct H as (H1 & H2 & H3 & H4 & H5). rewrite H4. split; [exact Hd|]. split.
    + right. split_goals; [done|done|done|done|]. change (fixed (set_outside s1 o)) with (fixed s1) in H5. rewrite Ef in H5.
      destruct H5 as [->|(e & -> & He)]; eauto.
    + intros Hopen Hnet Hfits. by specialize (Hgood Hopen Hnet Hfits).
Qed.
End Contracts.

(** ** A development server that has the scheduler *)

Section Demo.
#[local] Existing Instance bounded_queue.
Abbreviation Channel := (nat * bool * list AuthorizedIntent)%type.

Definition start_busy : result ServerError (SessionRuntime (Q := Channel)) :=
  session_runtime_new srv_channel srv_settings srv_router example_runtime true false false.
Definition busy0 : SessionRuntime (Q := Channel) := match start_busy with Ok s => s | Err _ => srv0 end.
Definition busy1 : SessionRuntime (Q := Channel) :=
  (step_run constant_hash constant_keyed pool_config calm (client 10 20 0) busy0).1.

Lemma busy_start : start_busy = Ok busy0.
Proof. unfold busy0. destruct start_busy eqn:E; [done|]. by vm_compute in E. Qed.

Lemma pool_scheduler_ok : scheduler_ok constant_hash constant_keyed pool_config.
Proof.
  split; [split; vm_compute; congruence|]. split; [vm_compute; congruence|].
  split; [intros c Hc; by apply Forall_cons_1 in Hc as [? _]|]. split; [exact constant_hashes_ok|].
  unfold public_settings_ok; cbn. split; [lia|split; [lia|]].
  apply list.Forall_cons; split; [split; vm_compute; congruence|constructor].
Qed.

Lemma busy_started : server_started constant_hash constant_keyed pool_config busy0.
Proof.
  exists srv_channel, (mk_coord 0 0), 1, 1, one_quadrant, 5, 64000, example_runtime, srv_settings, srv_router, true, false, false.
  split; [split; vm_compute; split; congruence|]. do 2 (split; [lia|]). split; [reflexivity|]. split; [lia|].
  split; [exact example_runtime_new|]. split; [exact busy_start|]. split; [reflexivity|].
  split; [split; [set_solver|done]|]. split; [repeat split; vm_compute; congruence|].
  split; [unfold policy_ok; cbn; lia|]. split; [intros _; split; [exact pool_scheduler_ok|intros _; vm_compute; congruence]|]. split.
  - intros c ->%list_elem_of_singleton. unfold lattice_ok, in_i; cbn. lia.
  - intros config [= <-]. unfold lattice_ok, in_i; cbn. lia.
Qed.

Lemma busy_reached : rtc (turn constant_hash constant_keyed pool_config calm) busy0 busy1.
Proof.
  apply rtc_once, srv_turn; [|vm_compute; reflexivity]. apply client_ok. split; [done|]. split; [done|].
  split; vm_compute; reflexivity.
Qed.

(** The client is told about the one quadrant that is revealed. *)
Lemma contracts_follow_ack_witness :
  frontier_sync busy1 !! 10 = Some (Pending 5) /\
  exists mss, Forall2 (quadrant_messages constant_hash constant_keyed pool_config
      {| reliable_connection_id := 10; negotiated_protocol_minor := 2; Egress.maximum_payload_bytes := 65535; send_timeout := 1 |} [])
    [Manifest.mk_fqc 0 0] mss /\ exists n,
    delivered 10 (effects (outside (step_run constant_hash constant_keyed pool_config calm (acknowledges 10 5) busy1).1)) =
    take n (concat mss).
Proof.
  assert (frontier_sync busy1 !! 10 = Some (Pending 5)) as Hsync by (vm_compute; reflexivity).
  split; [exact Hsync|].
  destruct (step_run constant_hash constant_keyed pool_config calm (acknowledges 10 5) busy1) as [s' r] eqn:E.
  assert (current_revision busy1 = 5) as Hrev by (vm_compute; reflexivity).
  destruct (contracts_follow_ack constant_hash constant_keyed pool_config calm busy0 busy1 s' r 10
    {| reliable_connection_id := 10; negotiated_protocol_minor := 2; Egress.maximum_payload_bytes := 65535; send_timeout := 1 |}
    (no_answers 1) busy_started busy_reached) as (m & mss & n & Hm & Hmss & Hd & _).
  - cbn [step_ok ans_retained no_answers]. assert (sys_retained (sys busy1) = ∅) as -> by (vm_compute; reflexivity).
    by rewrite map_to_list_empty.
  - vm_compute. reflexivity.
  - vm_compute. reflexivity.
  - rewrite Hrev. exact Hsync.
  - rewrite Hrev. exact E.
  - exists mss. assert (Manifest.quadrants m = [Manifest.mk_fqc 0 0]) as Eq.
    { assert (exists m', manifest (sys_frontier (sys busy1)) = Ok m' /\ Manifest.quadrants m' = [Manifest.mk_fqc 0 0]) as (m' & Hm' & Hq)
        by (eexists; split; vm_compute; reflexivity). congruence. }
    rewrite Eq in Hmss. split; [exact Hmss|]. exists n. cbn [fst]. rewrite Hd.
    assert (delivered 10 (effects (outside busy1)) = []) as -> by (vm_compute; reflexivity). reflexivity.
Defined.
End Demo.
