(* ===== verification/Ingress.v ===== *)
(** The receiving side of the transport ([crates/transport/src/server.rs],
    [reliable_ingress.rs] and the reading half of [frame.rs]): the admission of
    connections, the handshake, and the tasks that turn what a client sends into events
    for the session runtime.  The tasks of the connections run concurrently and share
    two counters, a semaphore and the queue of events; QUIC itself is the environment:
    which bytes arrive, which connections break and when. *)

From S2P Require Import Prelude Bytes Contracts Transport Session Egress Server.
Import Bootstrap.

Definition HANDSHAKE_REJECTED_CODE : Z := 0x1001.
Definition SESSION_INGRESS_UNAVAILABLE_CODE : Z := 0x1003.
Definition RELIABLE_CONTROL_PROTOCOL_ERROR_CODE : Z := 0x1004.

(** ** Frames *)

(** [read_single_frame] of a stream that holds these bytes: the frame and what is left. *)
Definition read_single_frame (stream : list Z) (maximum_payload_bytes : Z)
  : result FrameIoError (MessageKind * list Z * list Z) :=
  if decide (length stream < FRAME_HEADER_BYTES)%nat then Err FrameRead
  else
    header ← map_err FrameCodec (header_decode (take FRAME_HEADER_BYTES stream));
    let declared := Bootstrap.payload_len header in
    if decide (declared > maximum_payload_bytes) then Err (FramePayloadTooLarge declared maximum_payload_bytes)
    else
      let rest := drop FRAME_HEADER_BYTES stream in
      if decide (len rest < declared) then Err FrameRead
      else Ok (kind header, take (Z.to_nat declared) rest, drop (Z.to_nat declared) rest).

(** ** Settings *)

Record QuicServerSettings := {
  universe_id : Z;
  max_connections : Z;
  max_datagram_bytes : Z;
  max_control_frame_bytes : Z;
  handshake_timeout : Z;
  minimum_client_build : Z
}.

Record InitialReliableFrame := { initial_kind : MessageKind; initial_payload : list Z }.

Definition with_initial_reliable_frame (settings : QuicServerSettings) (frames : list InitialReliableFrame)
  (frame : InitialReliableFrame) : result FrameIoError (list InitialReliableFrame) :=
  if decide (len (initial_payload frame) > max_control_frame_bytes settings)
  then Err (FramePayloadTooLarge (len (initial_payload frame)) (max_control_frame_bytes settings))
  else Ok (frames ++ [frame]).

(** [fetch_update] gives the value before the update. *)
Definition allocate_runtime_id (counter : Z) : option (Z * Z) :=
  next ← checked_u 64 (counter + 1); Some (counter, next).

(** ** The handshake *)

Inductive BootstrapError :=
| BootstrapFrame (e : FrameIoError)
| NotClientHello (k : MessageKind)
| InvalidClientHello (e : BootstrapCodecError)
| IdentifiersExhausted.

Definition receive_hello (settings : QuicServerSettings) (stream : list Z) : result BootstrapError ClientHello :=
  '(k, payload, _) ← map_err BootstrapFrame (read_single_frame stream (max_control_frame_bytes settings));
  if decide (k <> KClientHello) then Err (NotClientHello k)
  else map_err InvalidClientHello (client_hello_decode payload).

Definition reject_code (settings : QuicServerSettings) (hello : ClientHello) : HandshakeRejectCode :=
  match negotiate_protocol_minor (ch_protocol_major hello) (ch_protocol_minor hello) PROTOCOL_MAJOR PROTOCOL_MINOR with
  | None => IncompatibleProtocol
  | Some _ => if decide (ch_client_build hello < minimum_client_build settings) then ClientBuildTooOld else RejectNone
  end.

(** The answer, and the session counter after it. *)
Definition answer_hello (settings : QuicServerSettings) (connection_id session_counter : Z) (server_nonce : list Z)
  (hello : ClientHello) : result BootstrapError (ServerHello * Z) :=
  let code := reject_code settings hello in
  let accepted := match code with RejectNone => true | _ => false end in
  let minor := default PROTOCOL_MINOR
    (negotiate_protocol_minor (ch_protocol_major hello) (ch_protocol_minor hello) PROTOCOL_MAJOR PROTOCOL_MINOR) in
  '(session_id, counter) ←
    (if accepted then ok_or IdentifiersExhausted (allocate_runtime_id session_counter) else Ok (0, session_counter));
  Ok ({| sh_protocol_major := PROTOCOL_MAJOR; sh_protocol_minor := minor; sh_accepted := accepted;
         sh_reject_code := code; sh_connection_id := connection_id; sh_session_id := session_id;
         sh_universe_id := universe_id settings; sh_client_nonce_echo := ch_client_nonce hello;
         sh_server_nonce := server_nonce |}, counter).

(** The frames every admitted client is sent first. *)
Fixpoint write_initial_frames (settings : QuicServerSettings) (frames : list InitialReliableFrame)
  : result FrameIoError (list (list Z)) :=
  match frames with
  | [] => Ok []
  | frame :: rest =>
      bytes ← write_single_frame (initial_kind frame) (initial_payload frame) (max_control_frame_bytes settings);
      more ← write_initial_frames settings rest;
      Ok (bytes :: more)
  end.

(** The event that hands a connection to the session runtime. *)
Definition admission (settings : QuicServerSettings) (connection_id session_id minor : Z)
  : result ReliableEgressConfigError TransportSessionEvent :=
  reliable ← reliable_new connection_id (max_control_frame_bytes settings) (handshake_timeout settings);
  Ok (SessionAdmitted connection_id session_id
        {| realtime_connection_id := connection_id; maximum_datagram_bytes := max_datagram_bytes settings |}
        (with_negotiated_protocol_minor reliable minor)).

(** ** Datagrams and control streams of a live connection *)

Definition datagram_event (settings : QuicServerSettings) (connection_id : Z) (datagram : list Z)
  : option TransportSessionEvent :=
  match Datagram.decode_datagram_frame datagram (max_datagram_bytes settings) with
  | Err _ => None
  | Ok (KMoveIntent, payload) =>
      match Intents.move_intent_decode payload with
      | Ok intent => Some (MoveIntentReceived connection_id intent)
      | Err _ => None
      end
  | Ok (KMineIntent, payload) =>
      match Intents.mine_intent_decode payload with
      | Ok intent => Some (MineIntentReceived connection_id intent)
      | Err _ => None
      end
  | Ok _ => None
  end.

Inductive ControlStreamError :=
| ControlFrame (e : FrameIoError)
| TrailingBytes
| InvalidAck (e : Ack.FrontierManifestAckCodecError)
| InvalidMine (e : Intents.IntentCodecError)
| UnsupportedControlKind (k : MessageKind).

(** One unidirectional stream of the client; [finished] says that it ended after these
    bytes, and was not reset. *)
Definition control_event (settings : QuicServerSettings) (connection_id : Z) (stream : list Z) (finished : bool)
  : result ControlStreamError TransportSessionEvent :=
  '(k, payload, trailing) ← map_err ControlFrame (read_single_frame stream (max_control_frame_bytes settings));
  if decide (trailing <> [] \/ finished = false) then Err TrailingBytes
  else
    match k with
    | KFrontierManifestAck =>
        ack ← map_err InvalidAck (Ack.ack_decode payload);
        Ok (FrontierManifestAckReceived connection_id (Ack.ack_revision ack))
    | KMineIntent =>
        intent ← map_err InvalidMine (Intents.mine_intent_decode payload);
        Ok (MineIntentReceived connection_id intent)
    | _ => Err (UnsupportedControlKind k)
    end.

(** ** The tasks *)

Section Tasks.
Context {E : Type} `{!MpscSender E TransportSessionEvent}.

(** One round of the loop over the datagrams; [false] ends it. *)
Definition live_datagram (settings : QuicServerSettings) (connection_id : Z) (datagram : list Z) (events : E) : E * bool :=
  match datagram_event settings connection_id datagram with
  | None => (events, true)
  | Some event =>
      match try_send events event, event with
      | (events', Some Closed), MoveIntentReceived _ _ => (events', false)
      | (events', _), _ => (events', true)
      end
  end.

(** Where the task of a connection is: in the handshake, rejected, welcomed but not yet
    handed over, live - with its loop over the datagrams and the task of its control
    streams running or not -, or past its [Disconnected]. *)
Inductive Phase :=
| Handshaking
| Rejected
| Welcomed (session_id minor : Z)
| Live (session_id : Z) (datagrams control : bool)
| Gone (control : bool).

(** What the tasks share, and what has been written to the clients in the handshake. *)
Record QuicServer := mk_quic {
  settings : QuicServerSettings;
  initial_reliable_frames : list InitialReliableFrame;
  next_connection_id : Z;
  next_session_id : Z;
  in_use : Z;
  connecting : Z;
  tasks : gmap Z Phase;
  session_events : E;
  written : list (Z * list Z)
}.

(** [bind]. *)
Definition quic_bind (s : QuicServerSettings) (frames : list InitialReliableFrame) (events : E) : option QuicServer :=
  if decide (max_connections s = 0) then None
  else Some (mk_quic s frames 1 1 0 0 ∅ events []).

Definition set_task (t : QuicServer) (cid : Z) (p : Phase) : QuicServer :=
  mk_quic (settings t) (initial_reliable_frames t) (next_connection_id t) (next_session_id t) (in_use t) (connecting t)
    (<[cid := p]> (tasks t)) (session_events t) (written t).

Definition set_events (t : QuicServer) (events : E) : QuicServer :=
  mk_quic (settings t) (initial_reliable_frames t) (next_connection_id t) (next_session_id t) (in_use t) (connecting t)
    (tasks t) events (written t).

Definition set_written (t : QuicServer) (w : list (Z * list Z)) : QuicServer :=
  mk_quic (settings t) (initial_reliable_frames t) (next_connection_id t) (next_session_id t) (in_use t) (connecting t)
    (tasks t) (session_events t) w.

(** The end of a task gives its permit back. *)
Definition end_task (t : QuicServer) (cid : Z) : QuicServer :=
  mk_quic (settings t) (initial_reliable_frames t) (next_connection_id t) (next_session_id t) (in_use t - 1) (connecting t)
    (delete cid (tasks t)) (session_events t) (written t).

(** [admit]: the permit of the semaphore, without waiting. *)
Definition admit_incoming (t : QuicServer) : option QuicServer :=
  if decide (in_use t < max_connections (settings t)) then
    Some (mk_quic (settings t) (initial_reliable_frames t) (next_connection_id t) (next_session_id t) (in_use t + 1)
            (connecting t + 1) (tasks t) (session_events t) (written t))
  else None.

(** The task of the control streams of a phase, and the phase without it. *)
Definition control_running (p : Phase) : bool :=
  match p with Live _ _ control | Gone control => control | _ => false end.
Definition stop_control (p : Phase) : Phase :=
  match p with Live sid datagrams _ => Live sid datagrams false | Gone _ => Gone false | _ => p end.

(** The steps of the tasks between two waits, while the session runtime holds the
    other end of the queue. *)
Inductive transport_step : QuicServer -> QuicServer -> Prop :=
| ts_admit t t' : admit_incoming t = Some t' -> transport_step t t'
| ts_connected t cid counter :
    0 < connecting t -> allocate_runtime_id (next_connection_id t) = Some (cid, counter) ->
    transport_step t (mk_quic (settings t) (initial_reliable_frames t) counter (next_session_id t) (in_use t)
                        (connecting t - 1) (<[cid := Handshaking]> (tasks t)) (session_events t) (written t))
| ts_not_connected t :
    0 < connecting t ->
    transport_step t (mk_quic (settings t) (initial_reliable_frames t) (next_connection_id t) (next_session_id t)
                        (in_use t - 1) (connecting t - 1) (tasks t) (session_events t) (written t))
| ts_hello t cid stream hello nonce answer counter frame :
    tasks t !! cid = Some Handshaking -> receive_hello (settings t) stream = Ok hello ->
    answer_hello (settings t) cid (next_session_id t) nonce hello = Ok (answer, counter) ->
    write_single_frame KServerHello (server_hello_encode answer) (max_control_frame_bytes (settings t)) = Ok frame ->
    transport_step t (mk_quic (settings t) (initial_reliable_frames t) (next_connection_id t) counter (in_use t) (connecting t)
                        (<[cid := if sh_accepted answer then Welcomed (sh_session_id answer) (sh_protocol_minor answer)
                                  else Rejected]> (tasks t))
                        (session_events t) (written t ++ [(cid, frame)]))
| ts_given_up t cid p :
    tasks t !! cid = Some p -> match p with Handshaking | Rejected | Welcomed _ _ => True | _ => False end ->
    transport_step t (end_task t cid)
| ts_admitted t cid sid minor frames event events :
    tasks t !! cid = Some (Welcomed sid minor) ->
    write_initial_frames (settings t) (initial_reliable_frames t) = Ok frames ->
    admission (settings t) cid sid minor = Ok event -> try_send (session_events t) event = (events, None) ->
    transport_step t (set_written (set_events (set_task t cid (Live sid true true)) events)
                        (written t ++ map (pair cid) frames))
| ts_datagram t cid sid control datagram events more :
    tasks t !! cid = Some (Live sid true control) -> are_bytes datagram ->
    live_datagram (settings t) cid datagram (session_events t) = (events, more) ->
    transport_step t (set_events (set_task t cid (Live sid more control)) events)
| ts_connection_lost t cid sid control :
    tasks t !! cid = Some (Live sid true control) -> transport_step t (set_task t cid (Live sid false control))
| ts_control t cid p stream finished event events :
    tasks t !! cid = Some p -> control_running p = true -> are_bytes stream ->
    control_event (settings t) cid stream finished = Ok event -> try_send (session_events t) event = (events, None) ->
    transport_step t (set_events t events)
| ts_control_stopped t cid p :
    tasks t !! cid = Some p -> transport_step t (set_task t cid (stop_control p))
| ts_disconnected t cid sid control events :
    tasks t !! cid = Some (Live sid false control) ->
    try_send (session_events t) (Disconnected cid sid) = (events, None) ->
    transport_step t (set_events (set_task t cid (Gone control)) events)
| ts_ended t cid control :
    tasks t !! cid = Some (Gone control) -> transport_step t (end_task t cid).
End Tasks.
Arguments QuicServer : clear implicits.

(** ** Frames survive the way *)

Lemma write_single_frame_Ok k payload maximum bytes : write_single_frame k payload maximum = Ok bytes <->
  in_u 16 (len payload) /\ len payload <= maximum /\
  bytes = header_encode {| kind := k; Bootstrap.payload_len := len payload |} ++ payload.
Proof.
  unfold write_single_frame, header_new, checked_u. case_decide as Hbig; [split; [done|lia]|].
  destruct (decide (in_u 16 (len payload))) as [Hu|Hu]; cbn; [|split; [done|naive_solver]].
  split; [intros [= <-]; split_goals; (done || lia)|]. by intros (_ & _ & ->).
Qed.

Lemma read_written k payload maximum bytes rest : write_single_frame k payload maximum = Ok bytes ->
  read_single_frame (bytes ++ rest) maximum = Ok (k, payload, rest).
Proof.
  intros (Hu & Hmax & ->)%write_single_frame_Ok. set (h := {| kind := k; Bootstrap.payload_len := len payload |}).
  pose proof (length_header_encode h) as Hh. unfold read_single_frame. rewrite decide_False by (rewrite !length_app, Hh; lia).
  rewrite <- app_assoc, (take_app_length' (header_encode h)) by done. rewrite Datagram.header_decode_encode by done.
  cbn [map_err mbind result_bind Bootstrap.payload_len kind h]. rewrite decide_False by lia.
  rewrite (drop_app_length' (header_encode h)) by done. rewrite decide_False by (unfold len; rewrite length_app; lia).
  unfold len. rewrite Nat2Z.id. by rewrite take_app_length, drop_app_length.
Qed.

Lemma read_is_written stream maximum k payload rest : are_bytes stream ->
  read_single_frame stream maximum = Ok (k, payload, rest) ->
  exists bytes, write_single_frame k payload maximum = Ok bytes /\ stream = bytes ++ rest.
Proof.
  intros Hb H. unfold read_single_frame in H. case_decide as Hshort; [done|].
  apply bind_Ok in H as (h & Hh%map_err_Ok & H). case_decide as Hbig; [done|]. case_decide as Hless; [done|].
  injection H as <- <- <-.
  destruct (Datagram.header_encode_decode (take FRAME_HEADER_BYTES stream) h) as [Hok Henc];
    [by apply Forall_take|rewrite length_take; lia|done|].
  assert (len (take (Z.to_nat (Bootstrap.payload_len h)) (drop FRAME_HEADER_BYTES stream)) = Bootstrap.payload_len h) as Hlen.
  { unfold len in *. rewrite length_take. unfold header_ok, in_u in Hok. lia. }
  exists (header_encode h ++ take (Z.to_nat (Bootstrap.payload_len h)) (drop FRAME_HEADER_BYTES stream)). split.
  - apply write_single_frame_Ok. rewrite Hlen. split; [exact Hok|]. split; [lia|]. by destruct h.
  - rewrite Henc, <- app_assoc, !take_drop. done.
Qed.

(** ** What a client sends is what the session runtime is told *)

(** Intents and acknowledgements reach the session runtime exactly as clients write
    them.  The datagram of a valid move or mining intent becomes the event with that
    intent, for that connection; so does the control stream of an acknowledgement or of
    a mining intent.  And no other bytes become an event: a datagram or a stream that is
    not one of these encodings, bit for bit, is dropped or ends the connection. *)
Theorem client_messages_received (s : QuicServerSettings) (cid : Z) :
  (forall intent datagram, Intents.move_intent_ok intent ->
     Datagram.encode_datagram_frame KMoveIntent (Intents.move_intent_encode intent) (max_datagram_bytes s) = Ok datagram ->
     datagram_event s cid datagram = Some (MoveIntentReceived cid intent)) /\
  (forall intent datagram, Intents.mine_intent_ok intent ->
     Datagram.encode_datagram_frame KMineIntent (Intents.mine_intent_encode intent) (max_datagram_bytes s) = Ok datagram ->
     datagram_event s cid datagram = Some (MineIntentReceived cid intent)) /\
  (forall datagram e, are_bytes datagram -> datagram_event s cid datagram = Some e ->
     (exists intent, e = MoveIntentReceived cid intent /\ Intents.move_intent_ok intent /\
        Datagram.encode_datagram_frame KMoveIntent (Intents.move_intent_encode intent) (max_datagram_bytes s) = Ok datagram) \/
     (exists intent, e = MineIntentReceived cid intent /\ Intents.mine_intent_ok intent /\
        Datagram.encode_datagram_frame KMineIntent (Intents.mine_intent_encode intent) (max_datagram_bytes s) = Ok datagram)) /\
  (forall ack stream, Ack.ack_ok ack ->
     write_single_frame KFrontierManifestAck (Ack.ack_encode ack) (max_control_frame_bytes s) = Ok stream ->
     control_event s cid stream true = Ok (FrontierManifestAckReceived cid (Ack.ack_revision ack))) /\
  (forall intent stream, Intents.mine_intent_ok intent ->
     write_single_frame KMineIntent (Intents.mine_intent_encode intent) (max_control_frame_bytes s) = Ok stream ->
     control_event s cid stream true = Ok (MineIntentReceived cid intent)) /\
  (forall stream finished e, are_bytes stream -> control_event s cid stream finished = Ok e -> finished = true /\
     ((exists ack, e = FrontierManifestAckReceived cid (Ack.ack_revision ack) /\ Ack.ack_ok ack /\
         write_single_frame KFrontierManifestAck (Ack.ack_encode ack) (max_control_frame_bytes s) = Ok stream) \/
      (exists intent, e = MineIntentReceived cid intent /\ Intents.mine_intent_ok intent /\
         write_single_frame KMineIntent (Intents.mine_intent_encode intent) (max_control_frame_bytes s) = Ok stream))).
Proof.
  destruct Datagram.datagram_roundtrip as (Hto & Hfrom & _). split_goals.
  - intros i d Hi Hd. apply Hto in Hd as [_ Hd]. unfold datagram_event. by rewrite Hd, decode_encode.
  - intros i d Hi Hd. apply Hto in Hd as [_ Hd]. unfold datagram_event. by rewrite Hd, decode_encode.
  - intros d e Hb H. unfold datagram_event in H. destruct (Datagram.decode_datagram_frame _ _) as [[k payload]|] eqn:Ed; [|done].
    pose proof (Datagram.decode_payload_bytes _ _ _ _ Hb Ed) as Hp. apply (Hfrom _ _ _ _ Hb) in Ed. destruct k; try done.
    + destruct (Intents.move_intent_decode payload) as [i|] eqn:Ei; [|done]. injection H as <-.
      destruct (encode_decode (dec := Intents.move_intent_decode) payload i Hp Ei) as [Hi <-]. left. by exists i.
    + destruct (Intents.mine_intent_decode payload) as [i|] eqn:Ei; [|done]. injection H as <-.
      destruct (encode_decode (dec := Intents.mine_intent_decode) payload i Hp Ei) as [Hi <-]. right. by exists i.
  - intros a stream Ha Hw. apply (read_written _ _ _ _ []) in Hw. rewrite app_nil_r in Hw. unfold control_event.
    rewrite Hw. cbn [map_err mbind result_bind]. rewrite decide_False by naive_solver. by rewrite decode_encode.
  - intros a stream Ha Hw. apply (read_written _ _ _ _ []) in Hw. rewrite app_nil_r in Hw. unfold control_event.
    rewrite Hw. cbn [map_err mbind result_bind]. rewrite decide_False by naive_solver. by rewrite decode_encode.
  - intros stream finished e Hb H. unfold control_event in H.
    apply bind_Ok in H as ([[k payload] trailing] & Hr%map_err_Ok & H). case_decide as Ht; [done|].
    assert (trailing = [] /\ finished = true) as [-> ->].
    { destruct trailing, finished; [done|..]; destruct Ht; auto. }
    pose proof Hr as Hr'. apply (read_is_written _ _ _ _ _ Hb) in Hr' as (bytes & Hw & ->). rewrite app_nil_r in *.
    assert (are_bytes payload) as Hp.
    { apply write_single_frame_Ok in Hw as (_ & _ & ->). by apply Forall_app in Hb as [_ ?]. }
    split; [done|]. destruct k; try done; apply bind_Ok in H as (x & Hx%map_err_Ok & [= <-]).
    + destruct (encode_decode (dec := Ack.ack_decode) payload x Hp Hx) as [Hok <-]. left. by exists x.
    + destruct (encode_decode (dec := Intents.mine_intent_decode) payload x Hp Hx) as [Hok <-]. right. by exists x.
Qed.

(** The protocol the server speaks. *)
Definition compatible (s : QuicServerSettings) (hello : ClientHello) : Prop :=
  ch_protocol_major hello = PROTOCOL_MAJOR /\ ch_protocol_minor hello <= PROTOCOL_MINOR /\
  minimum_client_build s <= ch_client_build hello.

Lemma receive_hello_written s hello bytes rest : client_hello_ok hello ->
  write_single_frame KClientHello (client_hello_encode hello) (max_control_frame_bytes s) = Ok bytes ->
  receive_hello s (bytes ++ rest) = Ok hello.
Proof.
  intros Hok Hw. unfold receive_hello. rewrite (read_written _ _ _ _ rest Hw).
  cbn [map_err mbind result_bind]. rewrite decide_False by naive_solver. by rewrite decode_encode.
Qed.

Lemma receive_hello_canonical s stream hello : are_bytes stream -> receive_hello s stream = Ok hello ->
  client_hello_ok hello /\ exists bytes rest,
    write_single_frame KClientHello (client_hello_encode hello) (max_control_frame_bytes s) = Ok bytes /\ stream = bytes ++ rest.
Proof.
  intros Hb H. unfold receive_hello in H. apply bind_Ok in H as ([[k payload] rest] & Hr%map_err_Ok & H).
  case_decide as Hk; [done|]. subst k. apply map_err_Ok in H.
  apply (read_is_written _ _ _ _ _ Hb) in Hr as (bytes & Hw & ->). apply Forall_app in Hb as [Hbytes _].
  assert (are_bytes payload) as Hp.
  { apply write_single_frame_Ok in Hw as (_ & _ & ->). by apply Forall_app in Hbytes as [_ ?]. }
  destruct (encode_decode (dec := client_hello_decode) payload hello Hp H) as [Hok <-]. split; [done|]. by exists bytes, rest.
Qed.

Lemma answer_hello_spec s cid counter nonce hello : 0 < cid < 2 ^ 64 -> 0 < counter < 2 ^ 64 -> in_u 64 (universe_id s) ->
  length nonce = 16%nat -> client_hello_ok hello ->
  match answer_hello s cid counter nonce hello with
  | Ok (answer, counter') =>
      (sh_accepted answer = true <-> compatible s hello) /\
      (if sh_accepted answer
       then sh_reject_code answer = RejectNone /\ sh_session_id answer = counter /\ counter' = counter + 1 /\
            sh_protocol_minor answer = ch_protocol_minor hello
       else sh_reject_code answer <> RejectNone /\ sh_session_id answer = 0 /\ counter' = counter) /\
      sh_connection_id answer = cid /\ sh_client_nonce_echo answer = ch_client_nonce hello /\
      server_hello_decode (server_hello_encode answer) = Ok answer
  | Err e => e = IdentifiersExhausted /\ compatible s hello /\ counter = 2 ^ 64 - 1
  end.
Proof.
  intros Hcid Hcounter Huniverse Hnonce (Hmajor & Hminor & Hbuild & Hecho). unfold answer_hello, reject_code, negotiate_protocol_minor, compatible.
  assert (in_u 64 cid /\ in_u 64 counter /\ in_u 16 PROTOCOL_MAJOR /\ in_u 16 PROTOCOL_MINOR) as (H1 & H2 & H3 & H4)
    by (unfold in_u, PROTOCOL_MAJOR, PROTOCOL_MINOR; lia).
  destruct (decide (ch_protocol_major hello = PROTOCOL_MAJOR /\ ch_protocol_minor hello <= PROTOCOL_MINOR)) as [Hp|Hp];
    [destruct (decide (ch_client_build hello < minimum_client_build s)) as [Hold|Hnew]|].
  + cbn. split; [split; [done|lia]|]. split_goals; [done|done|done|done|done|]. by apply decode_encode.
  + unfold allocate_runtime_id, checked_u. cbn [mbind result_bind]. case_decide as Hfull; cbn.
    * split; [split; [lia|done]|]. split_goals; [done|done|done|done|done|done|]. by apply decode_encode.
    * split; [done|]. split; [lia|]. unfold in_u in Hfull. lia.
  + cbn. split; [split; [done|lia]|]. split_goals; [done|done|done|done|done|]. by apply decode_encode.
Qed.

(** C29: the handshake.  The server reads the hello a client writes, and nothing but the
    encoding of a hello is read as one.  It accepts a client if and only if it speaks
    the server's major version, no newer minor version, and is not older than the
    minimum build; then, and only then, the answer carries a new session identifier, and
    the minor version agreed on is the client's.  The answer repeats the client's nonce
    and decodes to itself; there is none only for an acceptable client when all session
    identifiers have been given. *)
Theorem handshake_correct (s : QuicServerSettings) (cid counter : Z) (nonce : list Z) (hello : ClientHello) :
  0 < cid < 2 ^ 64 -> 0 < counter < 2 ^ 64 -> in_u 64 (universe_id s) -> length nonce = 16%nat ->
  (forall stream bytes rest, client_hello_ok hello ->
     write_single_frame KClientHello (client_hello_encode hello) (max_control_frame_bytes s) = Ok bytes ->
     stream = bytes ++ rest -> receive_hello s stream = Ok hello) /\
  (forall stream, are_bytes stream -> receive_hello s stream = Ok hello -> client_hello_ok hello /\ exists bytes rest,
     write_single_frame KClientHello (client_hello_encode hello) (max_control_frame_bytes s) = Ok bytes /\ stream = bytes ++ rest) /\
  (client_hello_ok hello ->
   match answer_hello s cid counter nonce hello with
   | Ok (answer, counter') =>
       (sh_accepted answer = true <-> compatible s hello) /\
       (if sh_accepted answer
        then sh_reject_code answer = RejectNone /\ sh_session_id answer = counter /\ counter' = counter + 1 /\
             sh_protocol_minor answer = ch_protocol_minor hello
        else sh_reject_code answer <> RejectNone /\ sh_session_id answer = 0 /\ counter' = counter) /\
       sh_connection_id answer = cid /\ sh_client_nonce_echo answer = ch_client_nonce hello /\
       server_hello_decode (server_hello_encode answer) = Ok answer
   | Err e => e = IdentifiersExhausted /\ compatible s hello /\ counter = 2 ^ 64 - 1
   end).
Proof.
  intros Hcid Hcounter Huniverse Hnonce. split_goals.
  - intros stream bytes rest Hok Hw ->. by apply receive_hello_written.
  - intros stream. apply receive_hello_canonical.
  - by apply answer_hello_spec.
Qed.

(** ** A client of minor version 2 *)

Definition quic_settings : QuicServerSettings :=
  {| universe_id := 9; max_connections := 2; max_datagram_bytes := 1200; max_control_frame_bytes := 4096;
     handshake_timeout := 5; minimum_client_build := 3 |}.
Definition hello_2 : ClientHello :=
  {| ch_protocol_major := 1; ch_protocol_minor := 2; ch_client_build := 4; ch_client_nonce := replicate 16 7 |}.

Lemma handshake_correct_witness :
  client_hello_ok hello_2 /\ compatible quic_settings hello_2 /\
  exists answer, answer_hello quic_settings 1 1 (replicate 16 8) hello_2 = Ok (answer, 2) /\ sh_accepted answer = true /\
    sh_session_id answer = 1 /\ server_hello_decode (server_hello_encode answer) = Ok answer.
Proof.
  assert (client_hello_ok hello_2) as Hok by (repeat split; vm_compute; congruence).
  assert (compatible quic_settings hello_2) as Hc by (repeat split; vm_compute; congruence).
  split; [exact Hok|]. split; [exact Hc|].
  destruct (handshake_correct quic_settings 1 1 (replicate 16 8) hello_2) as (_ & _ & H);
    [lia|lia|split; vm_compute; congruence|reflexivity|].
  specialize (H Hok). destruct (answer_hello quic_settings 1 1 (replicate 16 8) hello_2) as [[answer counter]|e] eqn:E;
    [|vm_compute in E; discriminate E].
  destruct H as (Hacc & Hrest & _ & _ & Hdec). pose proof (proj2 Hacc Hc) as Ha. rewrite Ha in Hrest.
  destruct Hrest as (_ & Hsid & -> & _). exists answer. split; [reflexivity|]. split; [exact Ha|]. split; [exact Hsid|exact Hdec].
Defined.
