(* ===== verification/ServerTransport.v ===== *)
(** The transport in front of the session runtime: what the runtime assumes about the
    events it takes from its queue is what the tasks of the connections put there. *)

From S2P Require Import Prelude Bytes Contracts Transport Frontier Preparation Runtime Scheduler SchedulerSafety Delivery System.
From S2P Require Import Session Sync Traversal Egress Router Server ServerInv ServerSteps ServerTrace ServerCorrect Ingress.
Import Bootstrap.

(** ** The events in the queue *)

(** An event the runtime can take when it knows the sessions [R]. *)
Definition event_fits (R : gmap Z Z) (e : TransportSessionEvent) : Prop :=
  match e with
  | SessionAdmitted cid sid rt sender =>
      cid <> 0 /\ sid <> 0 /\ R !! sid = None /\ (forall sid', R !! sid' <> Some cid) /\
      realtime_connection_id rt = cid /\ reliable_connection_id sender = cid /\ fits_snapshot rt
  | MoveIntentReceived _ intent => Intents.move_intent_ok intent
  | MineIntentReceived _ _ | FrontierManifestAckReceived _ _ => True
  | Disconnected cid sid => R !! sid = Some cid
  end.

Fixpoint queue_fits (R : gmap Z Z) (q : list TransportSessionEvent) : Prop :=
  match q with
  | [] => True
  | e :: q => event_fits R e /\ queue_fits (sessions_after R e) q
  end.

Definition sessions_told (R : gmap Z Z) (q : list TransportSessionEvent) : gmap Z Z := foldl sessions_after R q.

Lemma queue_fits_snoc q e : forall R, queue_fits R (q ++ [e]) <-> queue_fits R q /\ event_fits (sessions_told R q) e.
Proof.
  induction q as [|x q IH]; intros R; cbn [queue_fits app]; [unfold sessions_told; cbn; tauto|].
  rewrite IH. unfold sessions_told; cbn. tauto.
Qed.

Lemma sessions_told_snoc R q e : sessions_told R (q ++ [e]) = sessions_after (sessions_told R q) e.
Proof. unfold sessions_told. by rewrite foldl_app. Qed.

Section Transport.
Context {E : Type} `{!MpscSender E TransportSessionEvent}.

Abbreviation Quic := (QuicServer E).

(** The identifier of the session of a task that has not ended it. *)
Definition phase_session (p : Phase) : option Z :=
  match p with Welcomed sid _ | Live sid _ _ => Some sid | _ => None end.
Definition handed_over (p : Phase) : option Z := match p with Live sid _ _ => Some sid | _ => None end.

(** The tasks and the queue, when the runtime knows the sessions [R]. *)
Record transport_inv (R : gmap Z Z) (t : Quic) : Prop := {
  ti_counters : 0 < next_connection_id t /\ 0 < next_session_id t;
  ti_settings : Datagram.HEADER + 50 <= max_datagram_bytes (settings t);
  ti_tasks : forall cid p, tasks t !! cid = Some p -> 0 < cid < next_connection_id t /\
    forall sid, phase_session p = Some sid -> 0 < sid < next_session_id t;
  ti_distinct : forall cid cid' p p' sid, tasks t !! cid = Some p -> tasks t !! cid' = Some p' ->
    phase_session p = Some sid -> phase_session p' = Some sid -> cid = cid';
  ti_queue : queue_fits R (contents (session_events t));
  ti_told : forall sid cid, sessions_told R (contents (session_events t)) !! sid = Some cid <->
    exists p, tasks t !! cid = Some p /\ handed_over p = Some sid;
  ti_permits : 0 <= connecting t /\ in_use t = connecting t + Z.of_nat (size (tasks t)) /\
    0 <= in_use t <= max_connections (settings t)
}.

Lemma handed_over_session p sid : handed_over p = Some sid -> phase_session p = Some sid.
Proof. by destruct p. Qed.

(** A task goes on: the permits stay. *)
Lemma permits_set (m : gmap Z Phase) cid p p' : m !! cid = Some p -> size (<[cid := p']> m) = size m.
Proof. intros H. by rewrite map_size_insert_Some by (by rewrite H). Qed.

(** A task whose session stays the same, and that adds events which change no session. *)
Lemma inv_set_task R t cid p p' : transport_inv R t -> tasks t !! cid = Some p ->
  (forall sid, phase_session p' = Some sid -> phase_session p = Some sid) -> handed_over p' = handed_over p ->
  transport_inv R (set_task t cid p').
Proof.
  intros [] Hp Hs Hh. split; cbn; try done.
  - intros c x [[<- <-]|[Hne Hx]]%lookup_insert_Some; [|by apply ti_tasks0].
    destruct (ti_tasks0 cid p Hp) as [H1 H2]. split; [done|]. intros sid Hsid. by apply H2, Hs.
  - intros c c' x x' sid [[<- <-]|[Hne Hx]]%lookup_insert_Some [[<- <-]|[Hne' Hx']]%lookup_insert_Some H1 H2; try done;
      (eapply ti_distinct0; [done|done| |]; eauto).
  - intros sid c. rewrite ti_told0. destruct (decide (c = cid)) as [->|Hne].
    + rewrite lookup_insert_eq, Hp. split; intros (x & [= <-] & Hx); eexists; (split; [done|]); congruence.
    + by rewrite lookup_insert_ne by done.
  - by rewrite (permits_set _ _ p).
Qed.

Lemma inv_quiet R t events e : transport_inv R t -> contents events = contents (session_events t) ++ [e] ->
  event_fits (sessions_told R (contents (session_events t))) e ->
  (forall R', sessions_after R' e = R') -> transport_inv R (set_events t events).
Proof.
  intros [] Hq Hfit Hsame. split; cbn; try done; rewrite Hq.
  - by apply queue_fits_snoc.
  - intros sid cid. by rewrite sessions_told_snoc, Hsame.
Qed.

Lemma inv_end_task R t cid p : transport_inv R t -> tasks t !! cid = Some p -> handed_over p = None ->
  transport_inv R (end_task t cid).
Proof.
  intros [] Hp Hh. split; cbn; try done.
  - intros c x [_ Hx]%lookup_delete_Some. by apply ti_tasks0.
  - intros c c' x x' sid [_ Hx]%lookup_delete_Some [_ Hx']%lookup_delete_Some. by apply (ti_distinct0 c c' x x').
  - intros sid c. rewrite ti_told0. split; intros (x & Hx & Hsid); exists x; (split; [|done]).
    + apply lookup_delete_Some. split; [congruence|done].
    + by apply lookup_delete_Some in Hx as [_ ?].
  - destruct ti_permits0 as (H1 & H2 & H3). rewrite map_size_delete_Some by (by rewrite Hp).
    assert (0 < Z.of_nat (size (tasks t))).
    { assert (size (tasks t) <> 0%nat); [|lia]. intros Hz%map_size_empty_inv. by rewrite Hz in Hp. }
    rewrite H2 in *. split; [done|]. split; lia.
Qed.

(** ** What the clients can put into the queue *)

Definition quiet (e : TransportSessionEvent) : Prop :=
  (forall R, event_fits R e) /\ forall R, sessions_after R e = R.

Lemma datagram_event_quiet s cid datagram e : are_bytes datagram -> datagram_event s cid datagram = Some e -> quiet e.
Proof.
  intros Hb H. unfold datagram_event in H. destruct (Datagram.decode_datagram_frame _ _) as [[k payload]|] eqn:Ed; [|done].
  pose proof (Datagram.decode_payload_bytes _ _ _ _ Hb Ed) as Hp. destruct k; try done.
  - destruct (Intents.move_intent_decode payload) as [i|] eqn:Ei; [|done]. injection H as <-.
    split; [|done]. intros R. by destruct (encode_decode (dec := Intents.move_intent_decode) payload i Hp Ei).
  - destruct (Intents.mine_intent_decode payload); [|done]. by injection H as <-.
Qed.

Lemma control_event_quiet s cid stream finished e : control_event s cid stream finished = Ok e -> quiet e.
Proof.
  unfold control_event. intros H. apply bind_Ok in H as ([[k payload] trailing] & _ & H). case_decide; [done|].
  destruct k; try done; apply bind_Ok in H as (x & _ & [= <-]); done.
Qed.

Lemma live_datagram_queue s cid datagram events events' more : are_bytes datagram ->
  live_datagram (E := E) s cid datagram events = (events', more) ->
  events' = events \/ exists e, quiet e /\ contents events' = contents events ++ [e].
Proof.
  intros Hb H. unfold live_datagram in H. destruct (datagram_event s cid datagram) as [e|] eqn:Ee; [|by injection H as <- _; left].
  destruct (try_send events e) as [q [err|]] eqn:Es.
  - left. apply try_send_err in Es as ->. by destruct err, e; injection H as <- _.
  - right. exists e. split; [by eapply datagram_event_quiet|]. apply try_send_ok in Es. by injection H as <- _.
Qed.

(** ** Every step of the tasks keeps the invariant *)

Lemma allocated counter n next : 0 < counter -> allocate_runtime_id counter = Some (n, next) -> n = counter /\ next = counter + 1.
Proof.
  intros Hc H. unfold allocate_runtime_id in H. destruct (checked_u 64 (counter + 1)) as [m|] eqn:Em; [|done]. cbn in H.
  injection H as <- <-. unfold checked_u in Em. case_decide; [|done]. by injection Em as <-.
Qed.

Lemma admit_incoming_inv R t t' : transport_inv R t -> admit_incoming t = Some t' -> transport_inv R t'.
Proof.
  intros [] H. unfold admit_incoming in H. case_decide as Hroom; [|done]. injection H as <-. split; cbn; try done. lia.
Qed.

Lemma connected_inv R t cid counter : transport_inv R t -> 0 < connecting t ->
  allocate_runtime_id (next_connection_id t) = Some (cid, counter) ->
  transport_inv R (mk_quic (settings t) (initial_reliable_frames t) counter (next_session_id t) (in_use t)
                     (connecting t - 1) (<[cid := Handshaking]> (tasks t)) (session_events t) (written t)).
Proof.
  intros [] Hc Ha. apply allocated in Ha as [-> ->]; [|lia].
  assert (tasks t !! next_connection_id t = None) as Hnew.
  { apply eq_None_not_Some. intros [p Hp]. destruct (ti_tasks0 _ _ Hp). lia. }
  split; cbn; try done.
  - lia.
  - intros c p [[<- <-]|[_ Hp]]%lookup_insert_Some; [split; [lia|done]|]. destruct (ti_tasks0 c p Hp) as [? ?]. split; [lia|done].
  - intros c c' p p' sid [[<- <-]|[_ Hp]]%lookup_insert_Some [[<- <-]|[_ Hp']]%lookup_insert_Some; try done. by apply ti_distinct0.
  - intros sid c. rewrite ti_told0. split; intros (p & Hp & Hs); exists p; (split; [|done]).
    + apply lookup_insert_Some. right. split; [congruence|done].
    + apply lookup_insert_Some in Hp as [[<- <-]|[_ ?]]; done.
  - rewrite map_size_insert_None by done. lia.
Qed.

Lemma hello_inv R t cid stream hello nonce answer counter frame : transport_inv R t -> tasks t !! cid = Some Handshaking ->
  receive_hello (settings t) stream = Ok hello ->
  answer_hello (settings t) cid (next_session_id t) nonce hello = Ok (answer, counter) ->
  transport_inv R (mk_quic (settings t) (initial_reliable_frames t) (next_connection_id t) counter (in_use t) (connecting t)
    (<[cid := if sh_accepted answer then Welcomed (sh_session_id answer) (sh_protocol_minor answer) else Rejected]> (tasks t))
    (session_events t) (written t ++ [(cid, frame)])).
Proof.
  intros [] Hp _ Ha. unfold answer_hello in Ha. apply bind_Ok in Ha as ([sid next] & Hsid & [= <- <-]). cbn [sh_accepted sh_session_id sh_protocol_minor].
  set (accepted := match reject_code _ _ with RejectNone => true | _ => false end) in *.
  assert (next_session_id t <= next /\ (accepted = true -> sid = next_session_id t /\ next = next_session_id t + 1)) as [Hle Hacc].
  { destruct accepted; [|by injection Hsid as <- <-]. apply ok_or_Ok in Hsid.
    apply allocated in Hsid as [-> ->]; [split; [lia|done]|lia]. }
  assert (forall p, (if accepted then Welcomed sid (default PROTOCOL_MINOR (negotiate_protocol_minor (ch_protocol_major hello)
      (ch_protocol_minor hello) PROTOCOL_MAJOR PROTOCOL_MINOR)) else Rejected) = p ->
      handed_over p = None /\ forall x, phase_session p = Some x -> x = next_session_id t /\ next = next_session_id t + 1) as Hphase.
  { intros p <-. destruct accepted; [|done]. split; [done|]. intros x [= <-]. by apply Hacc. }
  generalize dependent (if accepted then Welcomed sid (default PROTOCOL_MINOR (negotiate_protocol_minor (ch_protocol_major hello)
      (ch_protocol_minor hello) PROTOCOL_MAJOR PROTOCOL_MINOR)) else Rejected).
  intros ph Hphase. destruct (Hphase ph eq_refl) as [Hhand Hsess].
  split; cbn; try done.
  - lia.
  - intros c x [[<- <-]|[_ Hx]]%lookup_insert_Some.
    + destruct (ti_tasks0 cid _ Hp) as [? _]. split; [done|]. intros y Hy. destruct (Hsess y Hy). lia.
    + destruct (ti_tasks0 c x Hx) as [? Hr]. split; [done|]. intros y Hy. specialize (Hr y Hy). lia.
  - intros c c' x x' y [[<- <-]|[Hne Hx]]%lookup_insert_Some [[<- <-]|[Hne' Hx']]%lookup_insert_Some H1 H2; try done.
    + destruct (Hsess y H1). destruct (ti_tasks0 c' x' Hx') as [_ Hr]. specialize (Hr y H2). lia.
    + destruct (Hsess y H2). destruct (ti_tasks0 c x Hx) as [_ Hr]. specialize (Hr y H1). lia.
    + by apply (ti_distinct0 c c' x x' y).
  - intros y c. rewrite ti_told0. destruct (decide (c = cid)) as [->|Hne].
    + rewrite lookup_insert_eq, Hp. split; intros (x & [= <-] & Hx); [done|congruence].
    + by rewrite lookup_insert_ne by done.
  - by rewrite (permits_set _ _ Handshaking).
Qed.

(** The connection is handed over. *)
Lemma admitted_inv R t cid sid minor event events w : transport_inv R t -> tasks t !! cid = Some (Welcomed sid minor) ->
  admission (settings t) cid sid minor = Ok event -> try_send (session_events t) event = (events, None) ->
  transport_inv R (set_written (set_events (set_task t cid (Live sid true true)) events) w).
Proof.
  intros [] Hp Ha Hq%try_send_ok. unfold admission in Ha. apply bind_Ok in Ha as (sender & Hsender & [= <-]).
  unfold reliable_new in Hsender. apply bind_Ok in Hsender as ([] & _ & [= <-]).
  destruct (ti_tasks0 cid _ Hp) as [Hcid Hsid]. specialize (Hsid sid eq_refl).
  assert (forall c, sessions_told R (contents (session_events t)) !! sid <> Some c) as Hnew.
  { intros c (p & Hc & Hh)%ti_told0. assert (c = cid) as -> by
      (eapply (ti_distinct0 c cid); [done|done|by apply handed_over_session|done]). rewrite Hp in Hc. by injection Hc as <-. }
  assert (forall sid', sessions_told R (contents (session_events t)) !! sid' <> Some cid) as Hnew'.
  { intros sid' (p & Hc & Hh)%ti_told0. rewrite Hp in Hc. by injection Hc as <-. }
  split; cbn; try done; try rewrite Hq.
  - intros c x [[<- <-]|[_ Hx]]%lookup_insert_Some; [|by apply ti_tasks0]. split; [done|]. by intros y [= <-].
  - intros c c' x x' y [[<- <-]|[Hne Hx]]%lookup_insert_Some [[<- <-]|[Hne' Hx']]%lookup_insert_Some H1 H2; try done;
      (eapply ti_distinct0; [done|done| |]; eauto).
  - apply queue_fits_snoc. split; [done|]. cbn. split_goals; [lia|lia| |done|done|done|done].
    by apply eq_None_not_Some; intros [c Hc]; apply (Hnew c).
  - intros y c. rewrite sessions_told_snoc. cbn. rewrite lookup_insert_Some. destruct (decide (c = cid)) as [->|Hne].
    + rewrite lookup_insert_eq. split.
      * intros [[<- _]|[_ Hy]]; [by eexists|by destruct (Hnew' y)].
      * intros (x & [= <-] & [= <-]). by left.
    + rewrite lookup_insert_ne, <- ti_told0 by done. split; [intros [[_ ?]|[_ ?]]; congruence|].
      intros Hy. right. split; [|done]. intros <-. by destruct (Hnew c).
  - by rewrite (permits_set _ _ (Welcomed sid minor)).
Qed.

(** The session runtime is told that the connection is gone. *)
Lemma disconnected_inv R t cid sid control events : transport_inv R t -> tasks t !! cid = Some (Live sid false control) ->
  try_send (session_events t) (Disconnected cid sid) = (events, None) ->
  transport_inv R (set_events (set_task t cid (Gone control)) events).
Proof.
  intros [] Hp Hq%try_send_ok.
  assert (sessions_told R (contents (session_events t)) !! sid = Some cid) as Htold by (apply ti_told0; by eexists).
  split; cbn; try done; try rewrite Hq.
  - intros c x [[<- <-]|[_ Hx]]%lookup_insert_Some; [|by apply ti_tasks0]. destruct (ti_tasks0 cid _ Hp). by split.
  - intros c c' x x' y [[<- <-]|[_ Hx]]%lookup_insert_Some [[<- <-]|[_ Hx']]%lookup_insert_Some; try done. by apply ti_distinct0.
  - by apply queue_fits_snoc.
  - intros y c. rewrite sessions_told_snoc. cbn. rewrite lookup_delete_Some. destruct (decide (c = cid)) as [->|Hne].
    + rewrite lookup_insert_eq. split; [|by intros (x & [= <-] & ?)]. intros [Hy (x & Hx & Hh)%ti_told0].
      rewrite Hp in Hx. injection Hx as <-. by injection Hh as ->.
    + rewrite lookup_insert_ne, <- ti_told0 by done. split; [by intros [_ ?]|]. intros Hy. split; [|done]. intros <-. congruence.
  - by rewrite (permits_set _ _ (Live sid false control)).
Qed.

Lemma transport_step_inv R t t' : transport_inv R t -> transport_step t t' -> transport_inv R t'.
Proof.
  intros Hi H. destruct H as [t t' H|t cid counter Hc Ha|t Hc|t cid stream hello nonce answer counter frame Hp Hr Ha Hw|t cid p Hp Hph|
    t cid sid minor frames event events Hp Hw Ha Hq|t cid sid control datagram events more Hp Hb Hd|t cid sid control Hp|
    t cid p stream finished event events Hp Hrun Hb He Hq|t cid p Hp|t cid sid control events Hp Hq|t cid control Hp].
  - by eapply admit_incoming_inv.
  - by apply connected_inv.
  - destruct Hi. split; cbn; try done. lia.
  - by eapply hello_inv.
  - eapply inv_end_task; [done|done|]. by destruct p.
  - by eapply admitted_inv.
  - assert (transport_inv R (set_task t cid (Live sid more control))) as Hi' by (by eapply inv_set_task).
    apply live_datagram_queue in Hd as [->|(e & [Hfit Hsame] & Hq)]; [|by eapply (inv_quiet R (set_task t cid _))|done].
    replace (set_events _ _) with (set_task t cid (Live sid more control)) by done. done.
  - by eapply inv_set_task.
  - apply control_event_quiet in He as [Hfit Hsame]. apply try_send_ok in Hq. by eapply inv_quiet.
  - eapply inv_set_task; [done|done|by destruct p|by destruct p].
  - by eapply disconnected_inv.
  - by eapply inv_end_task.
Qed.

(** ** Identifiers are given once *)

(** The admissions that wait in the queue. *)
Definition waiting (q : list TransportSessionEvent) : list (Z * Z) := omap admission_of q.

Lemma waiting_snoc q e : waiting (q ++ [e]) = waiting q ++ option_list (admission_of e).
Proof. unfold waiting. rewrite omap_app. cbn. by destruct (admission_of e). Qed.

Lemma waiting_cons e q : waiting (e :: q) = option_list (admission_of e) ++ waiting q.
Proof. unfold waiting. change (e :: q) with ([e] ++ q). rewrite omap_app. cbn. by destruct (admission_of e). Qed.

Lemma quiet_waiting q e : quiet e -> waiting (q ++ [e]) = waiting q.
Proof.
  intros [_ H]. rewrite waiting_snoc. destruct e; cbn; rewrite ?app_nil_r; try done.
  specialize (H ∅). cbn in H. apply (f_equal (lookup session_id)) in H. by rewrite lookup_insert_eq, lookup_empty in H.
Qed.

(** The session runtime has been told, or will be. *)
Definition announced (p : Phase) : bool := match p with Live _ _ _ | Gone _ => true | _ => false end.

(** [H]: the connections and sessions announced so far. *)
Record ids_inv (H : list (Z * Z)) (t : Quic) : Prop := {
  ii_nodup : NoDup H.*1 /\ NoDup H.*2;
  ii_bounds : forall cid sid, (cid, sid) ∈ H -> cid < next_connection_id t /\ sid < next_session_id t;
  ii_tasks : forall cid p, tasks t !! cid = Some p -> announced p = false ->
    cid ∉ H.*1 /\ forall sid, phase_session p = Some sid -> sid ∉ H.*2
}.

Lemma ids_set_task H t cid p p' : ids_inv H t -> tasks t !! cid = Some p ->
  (announced p' = false -> announced p = false /\ forall sid, phase_session p' = Some sid -> phase_session p = Some sid) ->
  ids_inv H (set_task t cid p').
Proof.
  intros [] Hp Hs. split; cbn; try done. intros c x [[<- <-]|[_ Hx]]%lookup_insert_Some Ha; [|by apply ii_tasks0].
  destruct (Hs Ha) as [Hp' Hsub]. destruct (ii_tasks0 cid p Hp Hp') as [H1 H2]. split; [done|]. intros sid Hsid. by apply H2, Hsub.
Qed.

Lemma ids_end_task H t cid : ids_inv H t -> ids_inv H (end_task t cid).
Proof. intros []. split; cbn; try done. intros c x [_ Hx]%lookup_delete_Some. by apply ii_tasks0. Qed.

Lemma ids_other_parts H t t' : ids_inv H t -> tasks t' = tasks t -> next_connection_id t' = next_connection_id t ->
  next_session_id t' = next_session_id t -> ids_inv H t'.
Proof. intros [] E1 E2 E3. split; rewrite ?E1, ?E2, ?E3; done. Qed.

Lemma ids_connected H t cid counter : 0 < next_connection_id t -> ids_inv H t ->
  allocate_runtime_id (next_connection_id t) = Some (cid, counter) ->
  ids_inv H (mk_quic (settings t) (initial_reliable_frames t) counter (next_session_id t) (in_use t)
               (connecting t - 1) (<[cid := Handshaking]> (tasks t)) (session_events t) (written t)).
Proof.
  intros Hpos [] Ha. apply allocated in Ha as [-> ->]; [|done]. split; cbn; [done| |].
  - intros c sid Hc. specialize (ii_bounds0 c sid Hc). lia.
  - intros c p [[<- <-]|[_ Hp]]%lookup_insert_Some; [|by apply ii_tasks0]. intros _. split; [|done].
    intros ([c x] & Ec & Hx)%list_elem_of_fmap. cbn in Ec. subst c. destruct (ii_bounds0 _ _ Hx). lia.
Qed.

Lemma ids_hello H t cid stream hello nonce answer counter frame : 0 < next_session_id t -> ids_inv H t -> tasks t !! cid = Some Handshaking ->
  answer_hello (settings t) cid (next_session_id t) nonce hello = Ok (answer, counter) ->
  receive_hello (settings t) stream = Ok hello ->
  ids_inv H (mk_quic (settings t) (initial_reliable_frames t) (next_connection_id t) counter (in_use t) (connecting t)
    (<[cid := if sh_accepted answer then Welcomed (sh_session_id answer) (sh_protocol_minor answer) else Rejected]> (tasks t))
    (session_events t) (written t ++ [(cid, frame)])).
Proof.
  intros Hpos [] Hp Ha _. unfold answer_hello in Ha. apply bind_Ok in Ha as ([sid next] & Hsid & [= <- <-]). cbn [sh_accepted sh_session_id sh_protocol_minor].
  set (accepted := match reject_code _ _ with RejectNone => true | _ => false end) in *.
  assert (next_session_id t <= next /\ (accepted = true -> sid = next_session_id t)) as [Hle Hacc].
  { destruct accepted; [|by injection Hsid as <- <-]. apply ok_or_Ok in Hsid. apply allocated in Hsid as [-> ->]; [split; [lia|done]|lia]. }
  split; cbn; [done| |].
  - intros c x Hc. specialize (ii_bounds0 c x Hc). lia.
  - intros c p [[<- <-]|[_ Hc]]%lookup_insert_Some; [|by apply ii_tasks0]. intros _.
    destruct (ii_tasks0 cid Handshaking Hp eq_refl) as [H1 _]. split; [done|]. destruct accepted; [|done].
    intros y [= <-]. rewrite (Hacc eq_refl). intros ([x y] & Ey & Hx)%list_elem_of_fmap. cbn in Ey. subst y. destruct (ii_bounds0 _ _ Hx). lia.
Qed.

Lemma ids_admitted R H t cid sid minor : transport_inv R t -> ids_inv H t -> tasks t !! cid = Some (Welcomed sid minor) ->
  ids_inv (H ++ [(cid, sid)]) (set_task t cid (Live sid true true)).
Proof.
  intros Ht [] Hp. destruct (ii_tasks0 cid _ Hp eq_refl) as [H1 H2]. specialize (H2 sid eq_refl).
  destruct (ti_tasks _ _ Ht cid _ Hp) as [Hcid Hsid]. specialize (Hsid sid eq_refl). destruct ii_nodup0 as [Hn1 Hn2].
  split; cbn; rewrite ?fmap_app; cbn.
  - split; apply list.NoDup_app; (split; [done|]); (split; [|apply NoDup_singleton]); intros x Hx ->%list_elem_of_singleton; done.
  - intros c x [Hc|[= -> ->]%list_elem_of_singleton]%elem_of_app; [by apply ii_bounds0|lia].
  - intros c x [[<- <-]|[Hne Hx]]%lookup_insert_Some Ha; [done|]. destruct (ii_tasks0 c x Hx Ha) as [H3 H4]. split.
    + intros [?|Hc%list_elem_of_singleton]%elem_of_app; [done|congruence].
    + intros y Hy [?|Hc%list_elem_of_singleton]%elem_of_app; [by apply (H4 y)|]. subst y. by apply Hne, (ti_distinct _ _ Ht cid c (Welcomed sid minor) x sid).
Qed.

Abbreviation announcements A t := (A ++ waiting (contents (session_events t))).

Lemma ids_later_queue A t e rest : contents (session_events t) = e :: contents rest ->
  ids_inv (announcements A t) t ->
  ids_inv ((A ++ option_list (admission_of e)) ++ waiting (contents rest)) (set_events t rest).
Proof.
  intros Hq H. rewrite Hq, waiting_cons, app_assoc in H. by apply (ids_other_parts _ t).
Qed.

Lemma transport_step_ids R A t t' : transport_inv R t -> transport_step t t' ->
  ids_inv (announcements A t) t -> ids_inv (announcements A t') t'.
Proof.
  intros Hi Hstep Ids. pose proof (ti_counters _ _ Hi) as [Hc0 Hs0].
  destruct Hstep as [t t' Had|t cid counter Hc Ha|t Hc|t cid stream hello nonce answer counter frame Hp Hr Ha Hw|t cid p Hp Hph|
    t cid sid minor frames event events Hp Hw Ha Hq|t cid sid control datagram events more Hp Hb Hd|t cid sid control Hp|
    t cid p stream finished event events Hp Hrun Hb He Hq|t cid p Hp|t cid sid control events Hp Hq|t cid control Hp].
  - unfold admit_incoming in Had. case_decide; [|done]. injection Had as <-. by eapply ids_other_parts.
  - by apply ids_connected.
  - by eapply ids_other_parts.
  - by eapply ids_hello.
  - by apply ids_end_task.
  - unfold admission in Ha. apply bind_Ok in Ha as (sender & _ & [= <-]). apply try_send_ok in Hq. cbn [session_events set_written set_events set_task].
    rewrite Hq, waiting_snoc, app_assoc. cbn. eapply ids_other_parts; [by apply (ids_admitted R _ t cid sid minor)|done..].
  - assert (ids_inv (announcements A t) (set_events (set_task t cid (Live sid more control)) events)) as Ids'.
    { eapply ids_other_parts; [by apply (ids_set_task _ t cid (Live sid true control) (Live sid more control))|done..]. }
    cbn [session_events set_events]. apply live_datagram_queue in Hd as [->|(e & He & Hq)]; [done| |done]. by rewrite Hq, quiet_waiting.
  - by eapply ids_set_task.
  - apply control_event_quiet in He. apply try_send_ok in Hq. cbn [session_events set_events]. rewrite Hq, quiet_waiting by done.
    by eapply ids_other_parts.
  - eapply ids_set_task; [done|exact Hp|]. by destruct p.
  - apply try_send_ok in Hq. cbn [session_events set_events]. rewrite Hq, waiting_snoc, app_nil_r.
    eapply ids_other_parts; [by apply (ids_set_task _ t cid (Live sid false control) (Gone control))|done..].
  - by apply ids_end_task.
Qed.

(** ** Two times of one run *)

(** Connections and sessions of the later time are those of the earlier one, or have newer identifiers. *)
Record later (t1 t : Quic) : Prop := {
  la_counters : next_connection_id t1 <= next_connection_id t /\ next_session_id t1 <= next_session_id t;
  la_tasks : forall cid, is_Some (tasks t !! cid) -> cid < next_connection_id t1 -> is_Some (tasks t1 !! cid);
  la_sessions : forall cid p sid, tasks t !! cid = Some p -> phase_session p = Some sid -> sid < next_session_id t1 ->
    exists p1, tasks t1 !! cid = Some p1 /\ phase_session p1 = Some sid
}.

#[global] Instance later_preorder : PreOrder later.
Proof.
  split.
  - intros t. split; [lia|done|eauto].
  - intros t1 t2 t3 [] []. split; [lia| |].
    + intros cid Hc Hlt. apply la_tasks0; [apply la_tasks1; [done|lia]|done].
    + intros cid p sid Hp Hs Hlt. destruct (la_sessions1 cid p sid Hp Hs) as (p2 & Hp2 & Hs2); [lia|]. eauto.
Qed.

Lemma later_set_task t cid p p' : tasks t !! cid = Some p -> (forall sid, phase_session p' = Some sid -> phase_session p = Some sid) ->
  later t (set_task t cid p').
Proof.
  intros Hp Hs. split; cbn; [lia| |].
  - intros c [x Hx] _. apply lookup_insert_Some in Hx as [[<- _]|[_ Hx]]; by eexists.
  - intros c x sid [[<- <-]|[_ Hx]]%lookup_insert_Some Hsid _; [exists p; auto|eauto].
Qed.

Lemma later_other_parts t t' t'' : later t t' -> tasks t'' = tasks t' -> next_connection_id t'' = next_connection_id t' ->
  next_session_id t'' = next_session_id t' -> later t t''.
Proof. intros [] E1 E2 E3. split; rewrite ?E1, ?E2, ?E3; done. Qed.

Lemma later_end_task t cid : later t (end_task t cid).
Proof.
  split; cbn; [lia| |].
  - intros c [x [_ Hx]%lookup_delete_Some] _. by eexists.
  - intros c x sid [_ Hx]%lookup_delete_Some. eauto.
Qed.

Lemma transport_step_later R t t' : transport_inv R t -> transport_step t t' -> later t t'.
Proof.
  intros Hi Hstep. pose proof (ti_counters _ _ Hi) as [Hc0 Hs0].
  destruct Hstep as [t t' Had|t cid counter Hc Ha|t Hc|t cid stream hello nonce answer counter frame Hp Hr Ha Hw|t cid p Hp Hph|
    t cid sid minor frames event events Hp Hw Ha Hq|t cid sid control datagram events more Hp Hb Hd|t cid sid control Hp|
    t cid p stream finished event events Hp Hrun Hb He Hq|t cid p Hp|t cid sid control events Hp Hq|t cid control Hp].
  - unfold admit_incoming in Had. case_decide; [|done]. injection Had as <-. by apply (later_other_parts t t).
  - apply allocated in Ha as [-> ->]; [|lia]. split; cbn; [lia| |].
    + intros c [x Hx] Hlt. apply lookup_insert_Some in Hx as [[<- _]|[_ Hx]]; [lia|by eexists].
    + intros c x sid [[<- <-]|[_ Hx]]%lookup_insert_Some; [done|eauto].
  - by apply (later_other_parts t t).
  - unfold answer_hello in Ha. apply bind_Ok in Ha as ([sid next] & Hsid & [= <- <-]). cbn [sh_accepted sh_session_id sh_protocol_minor].
    set (accepted := match reject_code _ _ with RejectNone => true | _ => false end) in *.
    assert (next_session_id t <= next /\ (accepted = true -> sid = next_session_id t)) as [Hle Hacc].
    { destruct accepted; [|by injection Hsid as <- <-]. apply ok_or_Ok in Hsid. apply allocated in Hsid as [-> ->]; [split; [lia|done]|lia]. }
    split; cbn; [lia| |].
    + intros c [x Hx] _. apply lookup_insert_Some in Hx as [[<- _]|[_ Hx]]; by eexists.
    + intros c x y [[<- <-]|[_ Hx]]%lookup_insert_Some Hy Hlt; [|eauto]. destruct accepted; [|done].
      injection Hy as <-. specialize (Hacc eq_refl). lia.
  - apply later_end_task.
  - eapply (later_other_parts t); [by apply (later_set_task t cid (Welcomed sid minor) (Live sid true true) Hp)|done..].
  - eapply (later_other_parts t); [by apply (later_set_task t cid (Live sid true control) (Live sid more control) Hp)|done..].
  - by apply (later_set_task t cid (Live sid true control) (Live sid false control) Hp).
  - by apply (later_other_parts t t).
  - apply (later_set_task t cid p _ Hp). by destruct p.
  - eapply (later_other_parts t); [by apply (later_set_task t cid (Live sid false control) (Gone control) Hp)|done..].
  - apply later_end_task.
Qed.
End Transport.

(** ** The transport and the session runtime, together *)

Section Node.
Context {Q : Type} `{!MpscSender Q AuthorizedIntent}.
Context {E : Type} `{!MpscSender E TransportSessionEvent}.
Context (blake3_hash : list Z -> list Z) (blake3_keyed : list Z -> list Z -> list Z) (cfg : SchedulerConfig).
Context (env : Environment).

Abbreviation Srv := (SessionRuntime (Q := Q)).
Abbreviation Quic := (QuicServer E).
Abbreviation run := (step_run (Q := Q) blake3_hash blake3_keyed cfg env).
Abbreviation ok := (step_ok (Q := Q) blake3_hash blake3_keyed cfg).

(** What the database and the hash maps answer when the runtime takes an event. *)
Definition event_answers_ok (s : Srv) (e : TransportSessionEvent) (a : Answers) : Prop :=
  match e with
  | SessionAdmitted _ _ _ _ => answers_ok a
  | FrontierManifestAckReceived _ _ => ans_retained a ≡ₚ map_to_list (sys_retained (sys s))
  | _ => True
  end.

Definition from_transport (l : ServerStep (Q := Q)) : bool := match l with StepTransport _ _ => true | _ => false end.

(** The tasks of the transport, the events the runtime takes from its queue in order,
    and the other turns of its loop. *)
Inductive node_step : Quic * Srv -> Quic * Srv -> Prop :=
| node_transport t t' s : transport_step t t' -> node_step (t, s) (t', s)
| node_event t s e rest a s' :
    contents (session_events t) = e :: contents rest -> event_answers_ok s e a ->
    run (StepTransport e a) s = (s', Ok tt) -> node_step (t, s) (set_events t rest, s')
| node_turn t s l s' :
    from_transport l = false -> ok s l -> run l s = (s', Ok tt) -> node_step (t, s) (t, s').

(** A server that has just been bound. *)
Definition transport_started (t0 : Quic) : Prop :=
  exists s frames events, quic_bind s frames events = Some t0 /\ contents events = [] /\ 0 <= max_connections s /\
    Datagram.HEADER + 50 <= max_datagram_bytes s.

(** An event that fits can be taken. *)
Lemma event_fits_ok s e a : server_inv blake3_hash blake3_keyed cfg s -> event_fits (connection_by_session s) e ->
  event_answers_ok s e a -> ok s (StepTransport e a).
Proof.
  intros Hs Hfit Ha. destruct e as [cid sid rt sender|cid intent|cid intent|cid rev|cid sid]; cbn in *; try done.
  - destruct Hfit as (Hc & Hsid & Hnew & Hnocid & Hrt & Hsender & Hfits). split; [|by split_goals].
    split; [done|]. split; [done|]. split; apply eq_None_not_Some.
    + intros [sid' Hx]. apply (sv_sessions Hs) in Hx. by apply (Hnocid sid').
    + intros [live Hx]. destruct (rw_sess _ (sv_registry Hs) sid live Hx) as [Hy _]. apply (sv_sessions Hs) in Hy. congruence.
  - by apply (sv_sessions Hs).
Qed.

Definition node_inv (s0 : Srv) (n : Quic * Srv) : Prop :=
  transport_inv (connection_by_session n.2) n.1 /\
  exists trace, turns blake3_hash blake3_keyed cfg env s0 trace n.2 /\
    ids_inv (admissions trace ++ waiting (contents (session_events n.1))) n.1.

Lemma node_step_inv s0 n n' : server_started blake3_hash blake3_keyed cfg s0 -> node_inv s0 n -> node_step n n' ->
  node_inv s0 n' /\ later n.1 n'.1.
Proof.
  intros H0 [Ht (trace & Hr & Hids)] H. destruct H as [t t' s H|t s e rest a s' Hq Ha E1|t s l s' Hl Hok E1]; cbn [fst snd] in *.
  - split; [|by eapply transport_step_later]. split; [by eapply transport_step_inv|]. exists trace. split; [done|].
    by eapply transport_step_ids.
  - split; [|by apply (later_other_parts t t)].
    destruct (reached_inv _ _ _ _ _ _ H0 (turns_rtc _ _ _ _ _ _ _ Hr)) as [Hs _]. pose proof Ht as [].
    rewrite Hq in ti_queue0, ti_told0. destruct ti_queue0 as [Hfit Hrest].
    pose proof (event_fits_ok s e a Hs Hfit Ha) as Hok. pose proof E1 as E2. split.
    + apply step_sessions in E1. cbn [fst snd]. rewrite E1. split; cbn; try done.
    + exists (trace ++ [StepTransport e a]). split; [by eapply turns_snoc|]. rewrite admissions_snoc.
      by apply ids_later_queue.
  - split; [|done]. pose proof E1 as E2. apply step_sessions in E1. split; cbn [fst snd].
    + destruct l; [done|by rewrite E1..].
    + exists (trace ++ [l]). split; [by eapply turns_snoc|]. rewrite admissions_snoc.
      destruct l; [done|by rewrite app_nil_r..].
Qed.

Lemma node_steps_inv s0 n n' : server_started blake3_hash blake3_keyed cfg s0 -> node_inv s0 n -> rtc node_step n n' ->
  node_inv s0 n' /\ later n.1 n'.1.
Proof.
  intros H0 Hn H. induction H as [n|n n1 n' Hstep _ IH]; [done|]. apply node_step_inv with (s0 := s0) in Hstep as [H1 Hle]; [|done..].
  destruct (IH H1) as [H2 Hle']. split; [done|]. by etransitivity.
Qed.

Lemma node_started s0 t0 : server_started blake3_hash blake3_keyed cfg s0 -> transport_started t0 -> node_inv s0 (t0, s0).
Proof.
  intros H0 (s & frames & events & Hbind & Hq & Hmax & Hfit). unfold quic_bind in Hbind. case_decide; [done|]. injection Hbind as <-.
  split; cbn [fst snd].
  - rewrite (proj1 (started_no_sessions _ _ _ s0 H0)). split; cbn; try done; try rewrite Hq; try done.
    intros sid cid. unfold sessions_told; cbn. split; [by rewrite lookup_empty|]. intros (p & Hp & _). by rewrite lookup_empty in Hp.
  - exists []. split; [apply turns_nil|]. cbn. rewrite Hq. split; cbn; [split; constructor| |].
    + by intros cid sid Hx%not_elem_of_nil.
    + intros cid p Hp. by rewrite lookup_empty in Hp.
Qed.

(** C6: the transport supplies what the session runtime relies on.  Whatever clients
    send and however the tasks of their connections interleave with each other and with
    the runtime: every event at the head of the queue is one the runtime may take - an
    admitted connection and its session have identifiers that are not zero and that the
    runtime does not know, with capabilities of that connection through which a snapshot
    fits, every intent is valid, a connection that is reported gone is known under this
    session - so the runtime only ever goes through turns of its own and all it
    guarantees holds.  No identifier is given twice: the connections and the sessions
    that the runtime has admitted in the whole run, or will admit from the queue, are
    all different; two connections, held at the same or at different times, never have
    the same session, and a connection that has ended is never held again.  No more
    connections are held than permits exist, and a session that is known to the runtime,
    once it has taken all events, belongs to a task that is still live. *)
Theorem transport_supplies_runtime (s0 s : Srv) (t0 t : Quic) :
  server_started blake3_hash blake3_keyed cfg s0 -> transport_started t0 -> rtc node_step (t0, s0) (t, s) ->
  (exists trace, turns blake3_hash blake3_keyed cfg env s0 trace s /\
     let all := admissions trace ++ waiting (contents (session_events t)) in NoDup all.*1 /\ NoDup all.*2) /\
  (forall e rest a, contents (session_events t) = e :: rest -> event_answers_ok s e a -> ok s (StepTransport e a)) /\
  (forall t1 s1 t2 s2, rtc node_step (t0, s0) (t1, s1) -> rtc node_step (t1, s1) (t2, s2) -> rtc node_step (t2, s2) (t, s) ->
     (forall cid cid' p p' sid, tasks t1 !! cid = Some p -> tasks t !! cid' = Some p' ->
        phase_session p = Some sid -> phase_session p' = Some sid -> cid = cid') /\
     (forall cid, is_Some (tasks t1 !! cid) -> tasks t2 !! cid = None -> tasks t !! cid = None)) /\
  Z.of_nat (size (tasks t)) <= in_use t <= max_connections (settings t) /\
  (contents (session_events t) = [] -> forall sid cid,
     connection_by_session s !! sid = Some cid <-> exists d c, tasks t !! cid = Some (Live sid d c)).
Proof.
  intros H0 Ht0 Hrun. pose proof (node_started s0 t0 H0 Ht0) as Hn0.
  destruct (node_steps_inv _ _ _ H0 Hn0 Hrun) as [[Ht (trace & Hr & Hids)] _]. cbn [fst snd] in *.
  destruct (reached_inv _ _ _ _ _ _ H0 (turns_rtc _ _ _ _ _ _ _ Hr)) as [Hs _]. pose proof Ht as [].
  split; [|split; [|split; [|split]]].
  - exists trace. split; [done|]. apply Hids.
  - intros e rest a Hq. apply event_fits_ok; [done|]. rewrite Hq in ti_queue0. apply ti_queue0.
  - intros t1 s1 t2 s2 R1 R2 R3. destruct (node_steps_inv _ _ _ H0 Hn0 R1) as [Hn1 _].
    destruct (node_steps_inv _ _ _ H0 Hn1 R2) as [Hn2 L12]. destruct (node_steps_inv _ _ _ H0 Hn2 R3) as [_ L23].
    destruct Hn1 as [Ht1 _]. cbn [fst snd] in *. split.
    + intros cid cid' p p' sid Hp Hp' Hsid Hsid'. destruct (ti_tasks _ _ Ht1 cid p Hp) as [_ Hlt]. specialize (Hlt sid Hsid).
      assert (later t1 t) as L13 by (by etransitivity).
      destruct (la_sessions _ _ L13 cid' p' sid Hp' Hsid') as (p1 & Hp1 & Hs1); [lia|].
      by apply (ti_distinct _ _ Ht1 cid cid' p p1 sid).
    + intros cid [p Hp] Hgone. apply eq_None_not_Some. intros Hheld. destruct (ti_tasks _ _ Ht1 cid p Hp) as [Hlt _].
      pose proof (la_counters _ _ L12). destruct (la_tasks _ _ L23 cid Hheld) as [x Hx]; [lia|congruence].
  - lia.
  - intros Hq sid cid. rewrite Hq in ti_told0. unfold sessions_told in ti_told0; cbn in ti_told0. rewrite ti_told0. split.
    + intros (p & Hp & Hh). destruct p as [| | |x d c|]; try done. injection Hh as ->. eauto.
    + intros (d & c & Hp). by eexists.
Qed.
End Node.

(** ** The development server of [ServerCorrect.v] behind a transport *)

Section Demo.
#[local] Existing Instance bounded_queue.
Abbreviation Channel := (nat * bool * list AuthorizedIntent)%type.
Abbreviation Events := (nat * bool * list TransportSessionEvent)%type.
Abbreviation node := (node_step (Q := Channel) (E := Events) PublicContracts.constant_hash PublicContracts.constant_keyed
  PublicContracts.pool_config calm).

Definition quic0 : QuicServer Events := mk_quic quic_settings [] 1 1 0 0 ∅ (8%nat, true, []) [].
Definition hello_stream : list Z :=
  header_encode {| kind := KClientHello; Bootstrap.payload_len := 24 |} ++ client_hello_encode hello_2.
Definition answer_2 : ServerHello :=
  {| sh_protocol_major := 1; sh_protocol_minor := 2; sh_accepted := true; sh_reject_code := RejectNone; sh_connection_id := 1;
     sh_session_id := 1; sh_universe_id := 9; sh_client_nonce_echo := replicate 16 7; sh_server_nonce := replicate 16 8 |}.
Definition first_event : TransportSessionEvent :=
  SessionAdmitted 1 1 {| realtime_connection_id := 1; maximum_datagram_bytes := 1200 |}
    {| reliable_connection_id := 1; negotiated_protocol_minor := 2; Egress.maximum_payload_bytes := 4096; send_timeout := 5 |}.
Definition quic1 (frame : list Z) : QuicServer Events :=
  mk_quic quic_settings [] 2 2 1 0 {[ 1 := Live 1 true true ]} (8%nat, true, [first_event]) [(1, frame)].

Lemma quic_started : transport_started quic0.
Proof. exists quic_settings, [], (8%nat, true, []). split; [reflexivity|]. split; [reflexivity|]. split; vm_compute; congruence. Qed.

Lemma quic_reached frame : write_single_frame KServerHello (server_hello_encode answer_2) 4096 = Ok frame ->
  rtc node (quic0, srv0) (quic1 frame, srv0).
Proof.
  intros Hw. eapply rtc_l; [apply node_transport, ts_admit; reflexivity|].
  eapply rtc_l; [apply node_transport, (ts_connected _ 1 2); [done|vm_compute; reflexivity]|].
  eapply rtc_l; [apply node_transport, (ts_hello _ 1 hello_stream hello_2 (replicate 16 8) answer_2 2 frame);
    [reflexivity|vm_compute; reflexivity|vm_compute; reflexivity|exact Hw]|].
  eapply rtc_l; [apply node_transport, (ts_admitted _ 1 1 2 [] first_event (8%nat, true, [first_event])); vm_compute; reflexivity|].
  apply rtc_refl.
Qed.

(** The first event is one the runtime may take. *)
Lemma transport_supplies_runtime_witness :
  step_ok PublicContracts.constant_hash PublicContracts.constant_keyed PublicContracts.pool_config srv0
    (StepTransport first_event (no_answers 0)).
Proof.
  destruct (write_single_frame KServerHello (server_hello_encode answer_2) 4096) as [frame|e] eqn:Ew;
    [|vm_compute in Ew; discriminate Ew].
  destruct (transport_supplies_runtime PublicContracts.constant_hash PublicContracts.constant_keyed PublicContracts.pool_config calm
    srv0 srv0 quic0 (quic1 frame) srv_started quic_started (quic_reached frame Ew)) as (_ & H & _).
  apply (H first_event [] (no_answers 0)); [reflexivity|]. split; [intros inventory revision Hx; discriminate Hx|intros p Hx; discriminate Hx].
Defined.
End Demo.
