(* ===== verification/ClientHistory.v ===== *)
(** What a client remembers of its inputs ([apps/protocol-client/src/reconciliation.rs]
    and [held_prediction.rs]): the inputs the server has not processed yet, which are
    replayed on top of its snapshots, and the input the server still holds, which is
    extrapolated from the arrival of the snapshot.  Times are microseconds of the
    client's clock. *)

From S2P Require Import Prelude Contracts Snapshots.
Import Intents SnapshotV1.

(** ** Plans *)

Inductive PredictionClockError :=
| ElapsedTimeOverflow (elapsed_us : Z)
| TimeRegressed (earlier_us later_us : Z).

Record ReplaySegment := mk_segment { segment_intent : MoveIntent; start_us : Z; end_us : Z; duration_us : Z }.
Record ReplayPlan := mk_plan { generated_at_us : Z; total_duration_us : Z; segments : list ReplaySegment }.

(** ** The pending inputs *)

Record TimedPendingInput := mk_timed { timed_intent : MoveIntent; sent_at : Z }.

Record AppliedSnapshot := mk_applied {
  applied_snapshot : SelfMovementSnapshot;
  acknowledged_inputs : Z;
  applied_pending_inputs : Z
}.

Inductive SnapshotApplyOutcome :=
| Applied (a : AppliedSnapshot)
| IgnoredStale (incoming_tick current_tick : Z)
| IgnoredDuplicate (tick : Z).

Inductive ReconciliationError :=
| ZeroPendingCapacity
| PendingHistoryFull (capacity : Z)
| NonMonotonicSentInput (previous incoming : Z)
| NonMonotonicClientTime (previous_us incoming_us : Z)
| ProcessedInputAckDisappeared (previous : Z)
| ProcessedInputAckRegressed (previous incoming : Z)
| ProcessedInputAckUnknown (incoming : Z)
| ConflictingDuplicateSnapshot (tick : Z)
| ReplayDurationOverflow
| PredictionClock (e : PredictionClockError).

Record ClientReconciler := mk_reconciler {
  pending_inputs : list TimedPendingInput;
  pending_capacity : Z;
  highest_sent_sequence : option Z;
  last_sent_at : option Z;
  last_processed : option Z;
  last_snapshot : option SelfMovementSnapshot
}.

Definition reconciler_new (capacity : Z) : result ReconciliationError ClientReconciler :=
  if decide (capacity = 0) then Err ZeroPendingCapacity
  else Ok (mk_reconciler [] capacity None None None None).

Definition record_sent_input (r : ClientReconciler) (intent : MoveIntent) (at_ : Z)
  : result ReconciliationError ClientReconciler :=
  if decide (Z.of_nat (length (pending_inputs r)) >= pending_capacity r)
  then Err (PendingHistoryFull (pending_capacity r))
  else
    _ ← match highest_sent_sequence r with
        | Some previous =>
            if decide (mv_sequence intent <= previous) then Err (NonMonotonicSentInput previous (mv_sequence intent)) else Ok tt
        | None => Ok tt
        end;
    _ ← match last_sent_at r with
        | Some previous => if decide (at_ < previous) then Err (NonMonotonicClientTime previous at_) else Ok tt
        | None => Ok tt
        end;
    Ok (mk_reconciler (pending_inputs r ++ [mk_timed intent at_]) (pending_capacity r) (Some (mv_sequence intent)) (Some at_)
          (last_processed r) (last_snapshot r)).

(** The checks of an acknowledgement against the previous one and the inputs sent. *)
Definition check_ack (r : ClientReconciler) (incoming_ack : option Z) : result ReconciliationError unit :=
  _ ← match last_processed r, incoming_ack with
      | Some previous, None => Err (ProcessedInputAckDisappeared previous)
      | Some previous, Some incoming =>
          if decide (incoming < previous) then Err (ProcessedInputAckRegressed previous incoming) else Ok tt
      | None, _ => Ok tt
      end;
  match incoming_ack, highest_sent_sequence r with
  | Some ack, Some highest => if decide (ack > highest) then Err (ProcessedInputAckUnknown ack) else Ok tt
  | _, _ => Ok tt
  end.

Definition unprocessed (ack : option Z) (l : list TimedPendingInput) : list TimedPendingInput :=
  match ack with Some ack => filter (fun t => mv_sequence (timed_intent t) > ack) l | None => l end.

(** An error leaves the history as it was. *)
Definition apply_snapshot (r : ClientReconciler) (snapshot : SelfMovementSnapshot)
  : result ReconciliationError (ClientReconciler * SnapshotApplyOutcome) :=
  let apply :=
    _ ← check_ack r (sequence snapshot);
    let pending := unprocessed (sequence snapshot) (pending_inputs r) in
    Ok (mk_reconciler pending (pending_capacity r) (highest_sent_sequence r) (last_sent_at r) (sequence snapshot) (Some snapshot),
        Applied (mk_applied snapshot
          (saturating_sub_u (Z.of_nat (length (pending_inputs r))) (Z.of_nat (length pending))) (Z.of_nat (length pending)))) in
  match last_snapshot r with
  | Some last =>
      if decide (server_tick snapshot < server_tick last)
      then Ok (r, IgnoredStale (server_tick snapshot) (server_tick last))
      else if decide (server_tick snapshot = server_tick last) then
        if decide (snapshot <> last) then Err (ConflictingDuplicateSnapshot (server_tick snapshot))
        else Ok (r, IgnoredDuplicate (server_tick snapshot))
      else apply
  | None => apply
  end.

(** The loop of [replay_plan] over the pending inputs. *)
Fixpoint replay_segments (now : Z) (l : list TimedPendingInput) (total : Z)
  : result ReconciliationError (list ReplaySegment * Z) :=
  match l with
  | [] => Ok ([], total)
  | current :: rest =>
      let start := sent_at current in
      if decide (start > now) then Err (PredictionClock (TimeRegressed start now))
      else
        let stop := match rest with next :: _ => sent_at next | [] => now end in
        let duration := saturating_sub_u stop start in
        total' ← ok_or ReplayDurationOverflow (checked_u 64 (total + duration));
        '(more, sum) ← replay_segments now rest total';
        Ok (mk_segment (timed_intent current) start stop duration :: more, sum)
  end.

Definition replay_plan (r : ClientReconciler) (now : Z) : result ReconciliationError ReplayPlan :=
  '(l, total) ← replay_segments now (pending_inputs r) 0;
  Ok (mk_plan now total l).

(** ** The held input *)

(** The snapshot as the first version of the message, which the reconciler takes. *)
Definition snapshot_of_v2 (s : SnapshotV2.SelfMovementSnapshotV2) : SelfMovementSnapshot :=
  {| server_tick := SnapshotV2.server_tick s; x_mm := SnapshotV2.x_mm s; y_mm := SnapshotV2.y_mm s; z_mm := SnapshotV2.z_mm s;
     sequence := SnapshotV2.last_processed_input_sequence s |}.

Inductive HeldPredictionError :=
| ZeroCapacity
| HistoryFull (capacity : Z)
| NonMonotonicSentSequence (previous incoming : Z)
| ActiveSequenceDoesNotMatchProcessed (active : Z) (processed : option Z)
| UnknownActiveSequence (sequence : Z)
| ZeroInputMarkedActive (sequence : Z)
| DurationOverflow.

Record HeldInputExtrapolator := mk_held {
  sent_inputs : list MoveIntent;
  held_capacity : Z;
  active_intent : option MoveIntent;
  baseline_received_at : option Z
}.

Definition held_new (capacity : Z) : result HeldPredictionError HeldInputExtrapolator :=
  if decide (capacity = 0) then Err ZeroCapacity else Ok (mk_held [] capacity None None).

Definition held_record_sent_input (h : HeldInputExtrapolator) (intent : MoveIntent)
  : result HeldPredictionError HeldInputExtrapolator :=
  _ ← match list.last (sent_inputs h) with
      | Some previous =>
          if decide (mv_sequence intent <= mv_sequence previous)
          then Err (NonMonotonicSentSequence (mv_sequence previous) (mv_sequence intent)) else Ok tt
      | None => Ok tt
      end;
  if decide (Z.of_nat (length (sent_inputs h)) >= held_capacity h) then Err (HistoryFull (held_capacity h))
  else Ok (mk_held (sent_inputs h ++ [intent]) (held_capacity h) (active_intent h) (baseline_received_at h)).

(** The input a snapshot says is still active. *)
Definition resolve_active (h : HeldInputExtrapolator) (processed active : option Z)
  : result HeldPredictionError (option MoveIntent) :=
  match active with
  | None => Ok None
  | Some active_sequence =>
      if decide (processed <> Some active_sequence) then Err (ActiveSequenceDoesNotMatchProcessed active_sequence processed)
      else
        let known i := mv_sequence i = active_sequence in
        intent ← ok_or (UnknownActiveSequence active_sequence)
          (match snd <$> list_find known (sent_inputs h) with
           | Some i => Some i
           | None => i ← active_intent h; if decide (known i) then Some i else None
           end);
        if decide (mv_axis_x intent = 0 /\ mv_axis_y intent = 0) then Err (ZeroInputMarkedActive active_sequence)
        else Ok (Some intent)
  end.

(** [while front.sequence < processed { pop_front }]. *)
Fixpoint drop_processed (processed : Z) (l : list MoveIntent) : list MoveIntent :=
  match l with
  | [] => []
  | i :: l' => if decide (mv_sequence i < processed) then drop_processed processed l' else l
  end.

Definition apply_authoritative_snapshot (h : HeldInputExtrapolator) (snapshot : SnapshotV2.SelfMovementSnapshotV2) (received_at : Z)
  : result HeldPredictionError HeldInputExtrapolator :=
  let processed := SnapshotV2.last_processed_input_sequence snapshot in
  active ← resolve_active h processed (SnapshotV2.active_movement_sequence snapshot);
  let kept := match processed with Some p => drop_processed p (sent_inputs h) | None => sent_inputs h end in
  Ok (mk_held kept (held_capacity h) active (Some received_at)).

(** The loop over the pending segments. *)
Fixpoint add_segments (l : list ReplaySegment) (total : Z) : result HeldPredictionError Z :=
  match l with
  | [] => Ok total
  | s :: l' => total' ← ok_or DurationOverflow (checked_u 64 (total + duration_us s)); add_segments l' total'
  end.

(** When the held input ends: at the first pending input, or now. *)
Definition held_end (pending : ReplayPlan) (start now : Z) : Z :=
  match head (segments pending) with
  | Some s => if decide (start_us s > start) then Z.min (start_us s) now else start
  | None => now
  end.

(** The segment of the held input and its duration. *)
Definition held_segment (h : HeldInputExtrapolator) (pending : ReplayPlan) (now : Z)
  : result HeldPredictionError (list ReplaySegment * Z) :=
  match active_intent h, baseline_received_at h with
  | Some active, Some start =>
      let stop := held_end pending start now in
      if decide (stop > start) then
        duration ← ok_or DurationOverflow (checked_u 64 (stop - start));
        total ← ok_or DurationOverflow (checked_u 64 (0 + duration));
        Ok ([mk_segment active start stop duration], total)
      else Ok ([], 0)
  | _, _ => Ok ([], 0)
  end.

Definition augment_replay_plan (h : HeldInputExtrapolator) (pending : ReplayPlan) (now : Z)
  : result HeldPredictionError ReplayPlan :=
  '(held, total) ← held_segment h pending now;
  total' ← add_segments (segments pending) total;
  Ok (mk_plan now total' (held ++ segments pending)).

(** ** Histories of a client *)

Definition seq_of (t : TimedPendingInput) : Z := mv_sequence (timed_intent t).
Definition before (a b : TimedPendingInput) : Prop := seq_of a < seq_of b /\ sent_at a <= sent_at b.

Instance before_trans : Transitive before.
Proof. intros a b c [? ?] [? ?]. split; lia. Qed.

(** The client keeps both histories in step: [sent] are all the inputs it has sent.  A
    snapshot acknowledges an input only once there is one. *)
Inductive client_history (capacity : Z) : list TimedPendingInput -> ClientReconciler -> HeldInputExtrapolator -> Prop :=
| history_start r h : reconciler_new capacity = Ok r -> held_new capacity = Ok h -> client_history capacity [] r h
| history_sent sent r h intent t r' h' : client_history capacity sent r h -> in_u 64 t ->
    record_sent_input r intent t = Ok r' -> held_record_sent_input h intent = Ok h' ->
    client_history capacity (sent ++ [mk_timed intent t]) r' h'
| history_snapshot sent r h s t r' a h' : client_history capacity sent r h -> in_u 64 t ->
    apply_snapshot r (snapshot_of_v2 s) = Ok (r', Applied a) -> apply_authoritative_snapshot h s t = Ok h' ->
    (sent = [] -> sequence (snapshot_of_v2 s) = None) -> client_history capacity sent r' h'
| history_ignored sent r h s r' o : client_history capacity sent r h -> apply_snapshot r s = Ok (r', o) ->
    match o with Applied _ => False | _ => True end -> client_history capacity sent r' h.

(** The inputs the held-input history still needs. *)
Definition not_before (ack : option Z) (l : list MoveIntent) : list MoveIntent :=
  match ack with Some ack => filter (fun i => ack <= mv_sequence i) l | None => l end.

Record histories_ok (capacity : Z) (sent : list TimedPendingInput) (r : ClientReconciler) (h : HeldInputExtrapolator) : Prop := {
  ho_sorted : StronglySorted before sent;
  ho_times : Forall (fun t => in_u 64 (sent_at t)) sent;
  ho_pending : pending_inputs r = unprocessed (last_processed r) sent;
  ho_room : pending_capacity r = capacity /\ Z.of_nat (length (pending_inputs r)) <= capacity;
  ho_highest : highest_sent_sequence r = seq_of <$> list.last sent;
  ho_last_at : last_sent_at r = sent_at <$> list.last sent;
  ho_ack : last_processed r = last_snapshot r ≫= sequence;
  ho_known : forall a, last_processed r = Some a -> exists t, list.last sent = Some t /\ a <= seq_of t;
  ho_held_room : held_capacity h = capacity;
  ho_held : sent_inputs h = not_before (last_processed r) (map timed_intent sent);
  ho_active : forall i, active_intent h = Some i -> i ∈ map timed_intent sent;
  ho_baseline : forall b, baseline_received_at h = Some b -> in_u 64 b
}.

Lemma last_is_latest sent t : StronglySorted before sent -> list.last sent = Some t ->
  forall t', t' ∈ sent -> seq_of t' <= seq_of t /\ sent_at t' <= sent_at t.
Proof.
  intros Hs Hl t' Ht'. destruct (list.last_Some sent t) as [[l ->] _]; [done|].
  apply elem_of_app in Ht' as [Ht'| ->%list_elem_of_singleton]; [|lia].
  destruct (StronglySorted_app_1_elem_of _ _ _ t' t Hs Ht') as [? ?]; [by apply list_elem_of_singleton|lia].
Qed.

Lemma sorted_snoc sent t : StronglySorted before sent -> (forall t', list.last sent = Some t' -> before t' t) ->
  StronglySorted before (sent ++ [t]).
Proof.
  intros Hs Hlast. apply StronglySorted_app_2; [|done|repeat constructor]. intros x y Hx ->%list_elem_of_singleton.
  destruct (list.last sent) as [t'|] eqn:El; [|by apply last_None in El as ->; apply not_elem_of_nil in Hx].
  specialize (Hlast t' eq_refl). destruct (last_is_latest sent t' Hs El x Hx). destruct Hlast. split; lia.
Qed.

Lemma unprocessed_snoc ack sent t : (forall a, ack = Some a -> a < seq_of t) ->
  unprocessed ack (sent ++ [t]) = unprocessed ack sent ++ [t].
Proof. intros H. destruct ack as [a|]; [|done]. cbn. specialize (H a eq_refl). unfold seq_of in H. rewrite list.filter_app. f_equal. apply (list.filter_singleton_True _ _ []). lia. Qed.

Lemma not_before_snoc ack l i : (forall a, ack = Some a -> a < mv_sequence i) -> not_before ack (l ++ [i]) = not_before ack l ++ [i].
Proof. intros H. destruct ack as [a|]; [|done]. cbn. specialize (H a eq_refl). rewrite list.filter_app. f_equal. apply (list.filter_singleton_True _ _ []). lia. Qed.

Lemma filter_filter_le (f : TimedPendingInput -> Z) a b (l : list TimedPendingInput) : a <= b ->
  filter (fun t => f t > b) (filter (fun t => f t > a) l) = filter (fun t => f t > b) l.
Proof. intros. apply list_filter_filter_l. intros x. lia. Qed.

(** Dropping from the front is filtering, as the inputs are sorted. *)
Lemma drop_processed_sorted p (l : list MoveIntent) : StronglySorted (fun a b => mv_sequence a < mv_sequence b) l ->
  drop_processed p l = filter (fun i => p <= mv_sequence i) l.
Proof.
  induction 1 as [|i l Hs IH Hi]; [done|]. cbn. destruct (decide (mv_sequence i < p)) as [Hp|Hp].
  - rewrite decide_False by lia. done.
  - rewrite decide_True by lia. f_equal. symmetry. clear -Hi Hp. induction Hi as [|j l Hj _ IH]; [done|].
    cbn. rewrite decide_True by lia. f_equal. exact IH.
Qed.

Lemma intents_sorted sent : StronglySorted before sent -> StronglySorted (fun a b => mv_sequence a < mv_sequence b) (map timed_intent sent).
Proof. induction 1 as [|t l _ IH H]; [constructor|]. cbn. constructor; [done|]. apply Forall_map. eapply list.Forall_impl; [exact H|]. by intros ? []. Qed.

Lemma sorted_filter {A} (R : relation A) (P : A -> Prop) `{!forall x, Decision (P x)} l : StronglySorted R l -> StronglySorted R (filter P l).
Proof.
  induction 1 as [|x l _ IH Hx]; [constructor|]. cbn. case_decide; [|done]. constructor; [done|].
  apply list.Forall_forall. intros y [_ Hy]%list_elem_of_filter. by eapply list.Forall_forall in Hx.
Qed.

Lemma not_before_sorted ack sent : StronglySorted before sent ->
  StronglySorted (fun a b => mv_sequence a < mv_sequence b) (not_before ack (map timed_intent sent)).
Proof. intros H%intents_sorted. destruct ack; [by apply sorted_filter|done]. Qed.

Lemma record_ok capacity sent r h intent t r' h' : histories_ok capacity sent r h -> in_u 64 t ->
  record_sent_input r intent t = Ok r' -> held_record_sent_input h intent = Ok h' ->
  histories_ok capacity (sent ++ [mk_timed intent t]) r' h'.
Proof.
  intros [Hs Ht Hp [Hc Hr] Hh Hl Ha Hk Hhc Hheld Hact Hb] Hin E1 E2. unfold record_sent_input in E1. case_decide as Hroom; [done|].
  apply bind_Ok in E1 as ([] & Eseq & E1). apply bind_Ok in E1 as ([] & Etime & [= <-]).
  assert (forall t', list.last sent = Some t' -> before t' (mk_timed intent t)) as Hlast.
  { intros t' El. rewrite Hh, El in Eseq. rewrite Hl, El in Etime. unfold before, seq_of in *. cbn in *.
    split; [clear Etime; case_decide; [done|lia]|]. clear Eseq. case_decide; [done|lia]. }
  assert (forall a, last_processed r = Some a -> a < mv_sequence intent) as Hack.
  { intros a Hap. destruct (Hk a Hap) as (t' & El & Hle). destruct (Hlast t' El) as [Hlt _]. unfold seq_of in *. cbn in Hlt. lia. }
  unfold held_record_sent_input in E2. apply bind_Ok in E2 as ([] & _ & E2). case_decide; [done|]. injection E2 as <-.
  split; cbn; rewrite ?last_snoc.
  - by apply sorted_snoc.
  - apply Forall_app; split; [done|]. by apply list.Forall_singleton.
  - by rewrite unprocessed_snoc, Hp.
  - split; [done|]. rewrite length_app. cbn. lia.
  - done.
  - done.
  - done.
  - intros a Hap. eexists. split; [done|]. unfold seq_of. cbn. specialize (Hack a Hap). lia.
  - done.
  - rewrite map_app. cbn [map timed_intent]. rewrite not_before_snoc by done. by rewrite Hheld.
  - intros i Hi. rewrite map_app. apply elem_of_app. left. by apply Hact.
  - done.
Qed.

Lemma check_ack_Ok r ack : check_ack r ack = Ok tt ->
  (forall a, last_processed r = Some a -> exists b, ack = Some b /\ a <= b) /\
  (forall b h, ack = Some b -> highest_sent_sequence r = Some h -> b <= h).
Proof.
  unfold check_ack. intros H. apply bind_Ok in H as ([] & H1 & H2). split.
  - intros a Ha. rewrite Ha in H1. destruct ack as [b|]; [|done]. case_decide; [done|]. exists b. split; [done|lia].
  - intros b h -> Hh. rewrite Hh in H2. case_decide; [done|lia].
Qed.

Lemma apply_snapshot_Ok r s r' o : apply_snapshot r s = Ok (r', o) ->
  match o with
  | Applied a => applied_snapshot a = s /\ check_ack r (sequence s) = Ok tt /\
      (forall l, last_snapshot r = Some l -> server_tick l < server_tick s) /\
      r' = mk_reconciler (unprocessed (sequence s) (pending_inputs r)) (pending_capacity r) (highest_sent_sequence r)
             (last_sent_at r) (sequence s) (Some s)
  | IgnoredStale _ _ => r' = r /\ exists l, last_snapshot r = Some l /\ server_tick s < server_tick l
  | IgnoredDuplicate _ => r' = r /\ last_snapshot r = Some s
  end.
Proof.
  unfold apply_snapshot. destruct (last_snapshot r) as [l|] eqn:El.
  - case_decide as Hlt; [intros [= <- <-]; by eauto|]. case_decide as Heq.
    + case_decide as Hne; [done|]. subst l. by intros [= <- <-].
    + intros H. apply bind_Ok in H as ([] & Hc & [= <- <-]). split_goals; try done. intros l' [= ->]. lia.
  - intros H. by apply bind_Ok in H as ([] & Hc & [= <- <-]).
Qed.

Lemma resolve_active_Ok h processed active i : resolve_active h processed active = Ok i ->
  match active with
  | None => i = None
  | Some a => exists intent, i = Some intent /\ processed = Some a /\ mv_sequence intent = a /\
      (intent ∈ sent_inputs h \/ active_intent h = Some intent)
  end.
Proof.
  unfold resolve_active. destruct active as [a|]; [|by intros [= <-]]. case_decide as Hp; [done|]. subst processed.
  intros H. apply bind_Ok in H as (intent & Hi%ok_or_Ok & H). case_decide; [done|]. injection H as <-. exists intent.
  split; [done|]. split; [done|]. destruct (list_find _ (sent_inputs h)) as [[k j]|] eqn:Ef; cbn in Hi.
  - injection Hi as ->. apply list_find_Some in Ef as (Hj & Hs & _). split; [done|]. left. by eapply list_elem_of_lookup_2.
  - destruct (active_intent h) as [j|]; [|done]. cbn in Hi. case_decide as Hs; [|done]. injection Hi as ->. auto.
Qed.

Lemma applied_ok capacity sent r h s t r' a h' : histories_ok capacity sent r h -> in_u 64 t ->
  apply_snapshot r (snapshot_of_v2 s) = Ok (r', Applied a) -> apply_authoritative_snapshot h s t = Ok h' ->
  (sent = [] -> sequence (snapshot_of_v2 s) = None) -> histories_ok capacity sent r' h'.
Proof.
  intros [Hs Ht Hp [Hc Hr] Hh Hl Ha Hk Hhc Hheld Hact Hb] Hin E1 E2 Hempty.
  apply apply_snapshot_Ok in E1 as (_ & [Hmono Hsent]%check_ack_Ok & _ & ->).
  unfold apply_authoritative_snapshot in E2. apply bind_Ok in E2 as (act & Hres%resolve_active_Ok & [= <-]).
  change (SnapshotV2.last_processed_input_sequence s) with (sequence (snapshot_of_v2 s)) in *.
  set (ack := sequence (snapshot_of_v2 s)) in *.
  assert (unprocessed ack (pending_inputs r) = unprocessed ack sent) as Epend.
  { rewrite Hp. destruct (last_processed r) as [a0|]; [|done]. destruct (Hmono a0 eq_refl) as (b & -> & Hle).
    cbn. by apply (filter_filter_le seq_of). }
  assert (match ack with Some p => drop_processed p (sent_inputs h) | None => sent_inputs h end = not_before ack (map timed_intent sent)) as Ekept.
  { rewrite Hheld. destruct ack as [b|] eqn:Eack.
    - rewrite drop_processed_sorted by by apply not_before_sorted. cbn. destruct (last_processed r) as [a0|]; [|done].
      destruct (Hmono a0 eq_refl) as (b' & [= <-] & Hle). cbn. apply list_filter_filter_l. intros x. lia.
    - destruct (last_processed r) as [a0|]; [|done]. by destruct (Hmono a0 eq_refl) as (b' & ? & _). }
  rewrite Epend, Ekept. assert (ack = SnapshotV2.last_processed_input_sequence s) as Eack by done.
  clearbody ack. split; cbn; try done.
  - split; [done|]. rewrite Hp in Hr. etrans; [|exact Hr]. apply inj_le.
    destruct (last_processed r) as [a0|]; cbn.
    + destruct (Hmono a0 eq_refl) as (b & -> & Hle). cbn. rewrite <- (filter_filter_le seq_of a0 b) by done. apply length_filter.
    + destruct ack; [apply length_filter|done].
  - intros b Hb'. destruct sent as [|t0 sent0] eqn:Es; [rewrite Hempty in Hb' by done; done|]. rewrite <- Es in *.
    destruct (list.last sent) as [t'|] eqn:El; [|apply last_None in El; congruence]. exists t'. split; [done|].
    apply (Hsent b); [done|]. by rewrite Hh.
  - intros i ->. destruct (SnapshotV2.active_movement_sequence s) as [q|]; [|done].
    destruct Hres as (intent & [= ->] & _ & _ & [Hi|Hi]); [|by apply Hact]. rewrite Hheld in Hi.
    destruct (last_processed r); [by apply list_elem_of_filter in Hi as [_ ?]|done].
  - by intros b [= <-].
Qed.

Lemma client_history_ok capacity sent r h : 0 <= capacity -> client_history capacity sent r h -> histories_ok capacity sent r h.
Proof.
  intros H0 H. induction H as [r h E1 E2|sent r h intent t r' h' _ IH Ht E1 E2|sent r h s t r' a h' _ IH Ht E1 E2 Hs|sent r h s r' o _ IH E1 Ho].
  - unfold reconciler_new in E1. unfold held_new in E2. case_decide; [done|]. injection E1 as <-. injection E2 as <-.
    split; cbn; try done; constructor.
  - by eapply record_ok.
  - by eapply applied_ok.
  - apply apply_snapshot_Ok in E1. by destruct o as [a|x y|x]; [|destruct E1 as [-> _]..].
Qed.

(** ** Replay *)

(** The segments follow each other without a gap from one time to the other. *)
Fixpoint covers (from until : Z) (l : list ReplaySegment) : Prop :=
  match l with
  | [] => from = until
  | s :: l' => start_us s = from /\ from <= end_us s /\ duration_us s = end_us s - start_us s /\ covers (end_us s) until l'
  end.

Lemma covers_le l : forall from until, covers from until l -> from <= until.
Proof. induction l as [|s l IH]; cbn; intros from until H; [lia|]. destruct H as (_ & ? & _ & H%IH). lia. Qed.

Definition waited (now : Z) (l : list TimedPendingInput) : Z := match head l with Some t => now - sent_at t | None => 0 end.

Lemma replay_segments_spec now l : StronglySorted before l -> Forall (fun t => 0 <= sent_at t <= now) l ->
  forall total, 0 <= total -> total + waited now l < 2 ^ 64 ->
  exists segs, replay_segments now l total = Ok (segs, total + waited now l) /\
    map segment_intent segs = map timed_intent l /\ covers (now - waited now l) now segs.
Proof.
  induction 1 as [|t l Hs IH Ht]; intros Hnow total H0 Hfit.
  - exists []. cbn. unfold waited. cbn. split_goals; [do 2 f_equal; lia|done|lia].
  - apply list.Forall_cons in Hnow as [Hnow Hnow']. unfold waited in Hfit; cbn in Hfit. cbn [replay_segments]. rewrite decide_False by lia.
    set (stop := match l with next :: _ => sent_at next | [] => now end).
    assert (sent_at t <= stop <= now /\ waited now l = now - stop) as [Hstop Hw].
    { unfold stop, waited. destruct l as [|t' l]; cbn; [lia|]. apply list.Forall_cons in Ht as [[_ Ht] _].
      apply list.Forall_cons in Hnow' as [Hn _]. lia. }
    unfold saturating_sub_u. rewrite Z.max_r by lia. rewrite checked_u_in by (unfold in_u; lia). cbn [ok_or mbind result_bind].
    destruct (IH Hnow' (total + (stop - sent_at t)) ltac:(lia) ltac:(lia)) as (segs & E & Hi & Hc). rewrite E. cbn.
    exists (mk_segment (timed_intent t) (sent_at t) stop (stop - sent_at t) :: segs). split; [|split].
    + do 2 f_equal. lia.
    + cbn. by rewrite Hi.
    + cbn. split_goals; [lia|lia|lia|]. by replace stop with (now - waited now l) by lia.
Qed.

Lemma add_segments_spec l : forall from until total, covers from until l -> 0 <= total -> total + (until - from) < 2 ^ 64 ->
  add_segments l total = Ok (total + (until - from)).
Proof.
  induction l as [|s l IH]; cbn; intros from until total H H0 Hfit; [do 2 f_equal; lia|].
  destruct H as (Hs & Hle & Hd & Hc). pose proof (covers_le _ _ _ Hc). rewrite checked_u_in by (unfold in_u; lia). cbn.
  rewrite (IH (end_us s) until) by (done || lia). f_equal. lia.
Qed.

Lemma covers_start now l segs : covers (now - waited now l) now segs -> map segment_intent segs = map timed_intent l ->
  match head segs with Some s => exists t, head l = Some t /\ start_us s = sent_at t | None => l = [] end.
Proof.
  intros Hc Hm. destruct segs as [|s segs], l as [|t l]; try done. cbn in *. destruct Hc as (-> & _). exists t. split; [done|].
  unfold waited. cbn. lia.
Qed.

Lemma covers_app l1 l2 : forall a b c, covers a b l1 -> covers b c l2 -> covers a c (l1 ++ l2).
Proof. induction l1 as [|s l1 IH]; cbn; intros a b c H1 H2; [by subst|]. destruct H1 as (-> & ? & ? & ?). split_goals; try done. by eapply IH. Qed.

(** The held input fills the time between the snapshot and the first pending input. *)
Lemma held_segment_spec h pending now l : covers (now - waited now l) now (segments pending) ->
  map segment_intent (segments pending) = map timed_intent l -> Forall (fun t => 0 <= sent_at t <= now) l ->
  (forall b, baseline_received_at h = Some b -> 0 <= b <= now) -> in_u 64 now ->
  exists held from, held_segment h pending now = Ok (held, now - waited now l - from) /\ 0 <= from /\
    covers from (now - waited now l) held /\
    (held = [] \/ exists s, held = [s] /\ active_intent h = Some (segment_intent s) /\ baseline_received_at h = Some (start_us s)).
Proof.
  intros Hc Hm Hl Hb Hnow. unfold in_u in Hnow. assert (0 <= waited now l <= now) as Hw.
  { unfold waited. destruct l as [|t l]; cbn; [lia|]. apply list.Forall_cons in Hl as [? _]. lia. }
  assert (exists held from, Ok (E := HeldPredictionError) ([], 0) = Ok (held, now - waited now l - from) /\ 0 <= from /\
    covers from (now - waited now l) held /\
    (held = [] \/ exists s, held = [s] /\ active_intent h = Some (segment_intent s) /\ baseline_received_at h = Some (start_us s))) as Hnone.
  { exists [], (now - waited now l). split; [do 2 f_equal; lia|]. split; [lia|]. by split; [|left]. }
  unfold held_segment. destruct (active_intent h) as [i|] eqn:Ea; [|done].
  destruct (baseline_received_at h) as [b|] eqn:Eb; [|done]. specialize (Hb b eq_refl).
  assert (held_end pending b now > b -> held_end pending b now = now - waited now l) as Hend.
  { unfold held_end. pose proof (covers_start now l (segments pending) Hc Hm) as Hs. destruct (head (segments pending)) as [s|].
    - destruct Hs as (t & Et & ->). destruct l as [|t' l]; [done|]. injection Et as ->. unfold waited. cbn.
      apply list.Forall_cons in Hl as [? _]. case_decide; lia.
    - subst l. unfold waited. cbn. lia. }
  case_decide as Hgt; [|done]. specialize (Hend Hgt). rewrite Hend in *. rewrite checked_u_in by (unfold in_u; lia). cbn [ok_or mbind result_bind].
  rewrite checked_u_in by (unfold in_u; lia). cbn.
  exists [mk_segment i b (now - waited now l) (now - waited now l - b)], b. split_goals; [done|lia| |].
  - cbn. split_goals; lia.
  - right. by eexists.
Qed.

Lemma augment_spec h pending now l : covers (now - waited now l) now (segments pending) ->
  map segment_intent (segments pending) = map timed_intent l -> Forall (fun t => 0 <= sent_at t <= now) l ->
  (forall b, baseline_received_at h = Some b -> 0 <= b <= now) -> in_u 64 now ->
  exists full from, augment_replay_plan h pending now = Ok full /\
    (segments full = segments pending \/ exists s, segments full = s :: segments pending /\
       active_intent h = Some (segment_intent s) /\ baseline_received_at h = Some (start_us s)) /\
    0 <= from /\ covers from now (segments full) /\ total_duration_us full = now - from.
Proof.
  intros Hc Hm Hl Hb Hnow. destruct (held_segment_spec h pending now l Hc Hm Hl Hb Hnow) as (held & from & E & H0 & Hheld & Hcase).
  unfold in_u in Hnow. pose proof (covers_le _ _ _ Hc). pose proof (covers_le _ _ _ Hheld).
  unfold augment_replay_plan. rewrite E. cbn [mbind result_bind].
  rewrite (add_segments_spec _ (now - waited now l) now) by (done || lia). cbn. eexists _, from. split; [done|]. cbn. split_goals.
  - destruct Hcase as [->|(s & -> & ? & ?)]; [by left|right]. by exists s.
  - done.
  - by eapply covers_app.
  - lia.
Qed.

Lemma replay_total (capacity now : Z) (sent : list TimedPendingInput) (r : ClientReconciler) (h : HeldInputExtrapolator) :
  0 <= capacity -> client_history capacity sent r h -> Forall (fun t => sent_at t <= now) sent ->
  (forall b, baseline_received_at h = Some b -> b <= now) -> in_u 64 now ->
  let waiting := unprocessed (last_snapshot r ≫= sequence) sent in
  pending_inputs r = waiting /\ Z.of_nat (length waiting) <= capacity /\
  exists pending full from, replay_plan r now = Ok pending /\ augment_replay_plan h pending now = Ok full /\
    map segment_intent (segments pending) = map timed_intent waiting /\
    (segments full = segments pending \/ exists s, segments full = s :: segments pending /\
       active_intent h = Some (segment_intent s) /\ baseline_received_at h = Some (start_us s)) /\
    0 <= from /\ covers from now (segments full) /\ total_duration_us full = now - from.
Proof.
  intros H0 Hh%client_history_ok Hsent Hb Hnow; [|done]. cbn zeta. pose proof Hh as [Hs Ht Hp [_ Hr] _ _ Ha _ _ _ _ Hbase].
  rewrite <- Ha, <- Hp. split; [done|]. split; [done|]. assert (Forall (fun t => 0 <= sent_at t <= now) (pending_inputs r)) as Hrange.
  { apply list.Forall_forall. intros t Hin. assert (t ∈ sent) as Hin'.
    { rewrite Hp in Hin. destruct (last_processed r); [by apply list_elem_of_filter in Hin as [_ ?]|done]. }
    eapply list.Forall_forall in Ht, Hsent; [|exact Hin'..]. unfold in_u in Ht. lia. }
  assert (StronglySorted before (pending_inputs r)) as Hsorted by (rewrite Hp; destruct (last_processed r); [by apply sorted_filter|done]).
  unfold in_u in Hnow. assert (0 <= waited now (pending_inputs r) <= now) as Hw.
  { unfold waited. destruct (pending_inputs r) as [|t l]; cbn; [lia|]. apply list.Forall_cons in Hrange as [? _]. lia. }
  destruct (replay_segments_spec now (pending_inputs r) Hsorted Hrange 0 ltac:(lia) ltac:(lia)) as (segs & E & Hi & Hc).
  set (pending := mk_plan now (0 + waited now (pending_inputs r)) segs).
  destruct (augment_spec h pending now (pending_inputs r)) as (full & from & Ef & Hcase & Hrest); try done.
  { intros b Eb. specialize (Hbase b Eb). specialize (Hb b Eb). unfold in_u in Hbase. lia. }
  destruct Hrest as (? & ? & ?). exists pending, full, from. unfold replay_plan. rewrite E. by split_goals.
Qed.

(** What the client replays.  Whatever it has sent and received: the inputs it
    keeps as pending are exactly those it has sent that the newest snapshot has not
    processed, no more than the history holds.  At any later time the replay succeeds
    and has one segment for each of them, in the order of sending, before them at most
    the input the server still holds, since the arrival of the snapshot; the segments
    follow each other without a gap up to the present, so no moment is counted twice
    or left out. *)
Theorem replay_covers_time (capacity now : Z) (sent : list TimedPendingInput) (r : ClientReconciler) (h : HeldInputExtrapolator) :
  0 <= capacity -> client_history capacity sent r h -> Forall (fun t => sent_at t <= now) sent ->
  (forall b, baseline_received_at h = Some b -> b <= now) -> in_u 64 now ->
  let waiting := unprocessed (last_snapshot r ≫= sequence) sent in
  pending_inputs r = waiting /\ Z.of_nat (length waiting) <= capacity /\
  exists pending full from, replay_plan r now = Ok pending /\ augment_replay_plan h pending now = Ok full /\
    map segment_intent (segments pending) = map timed_intent waiting /\
    (segments full = segments pending \/ exists s, segments full = s :: segments pending /\
       active_intent h = Some (segment_intent s) /\ baseline_received_at h = Some (start_us s)) /\
    0 <= from /\ covers from now (segments full) /\ total_duration_us full = now - from.
Proof. apply replay_total. Qed.

(** An input that was acknowledged while it was held, and one that is pending. *)
Definition walk : MoveIntent := {| mv_sequence := 1; mv_axis_x := 16384; mv_axis_y := 0 |}.
Definition turn_north : MoveIntent := {| mv_sequence := 2; mv_axis_x := 0; mv_axis_y := 127 |}.
Definition first_snapshot : SnapshotV2.SelfMovementSnapshotV2 :=
  {| SnapshotV2.server_tick := 5; SnapshotV2.x_mm := 112; SnapshotV2.y_mm := 0; SnapshotV2.z_mm := 300;
     SnapshotV2.last_processed_input_sequence := Some 1; SnapshotV2.active_movement_sequence := Some 1 |}.

Definition walked_sent : list TimedPendingInput := [mk_timed walk 100; mk_timed turn_north 130].
Definition walked : ClientReconciler :=
  mk_reconciler [mk_timed turn_north 130] 256 (Some 2) (Some 130) (Some 1) (Some (snapshot_of_v2 first_snapshot)).
Definition walked_held : HeldInputExtrapolator := mk_held [walk; turn_north] 256 (Some walk) (Some 120).

Lemma walked_history : client_history 256 walked_sent walked walked_held.
Proof.
  apply (history_sent 256 [mk_timed walk 100] (mk_reconciler [] 256 (Some 1) (Some 100) (Some 1) (Some (snapshot_of_v2 first_snapshot)))
    (mk_held [walk] 256 (Some walk) (Some 120)) turn_north 130); [|by vm_compute|vm_compute; reflexivity|vm_compute; reflexivity].
  eapply (history_snapshot 256 [mk_timed walk 100] (mk_reconciler [mk_timed walk 100] 256 (Some 1) (Some 100) None None)
    (mk_held [walk] 256 None None) first_snapshot 120); [|by vm_compute|vm_compute; reflexivity|vm_compute; reflexivity|done].
  apply (history_sent 256 [] (mk_reconciler [] 256 None None None None) (mk_held [] 256 None None) walk 100);
    [by apply history_start|by vm_compute|vm_compute; reflexivity|vm_compute; reflexivity].
Qed.

Lemma replay_covers_time_witness :
  exists pending full, replay_plan walked 200 = Ok pending /\ augment_replay_plan walked_held pending 200 = Ok full /\
    map segment_intent (segments pending) = [turn_north] /\ map duration_us (segments full) = [10; 70] /\
    total_duration_us full = 80.
Proof.
  destruct (replay_covers_time 256 200 walked_sent walked walked_held) as (_ & _ & pending & full & from & Ep & Ef & Hp & _);
    [lia|apply walked_history|repeat constructor; cbn; lia|intros b [= <-]; lia|by vm_compute|].
  exists pending, full. split; [exact Ep|]. split; [exact Ef|]. split; [exact Hp|].
  vm_compute in Ep. injection Ep as <-. vm_compute in Ef. injection Ef as <-. split; reflexivity.
Defined.

(** A client that has not sent anything accepts an acknowledgement. *)
Example ack_of_nothing_accepted :
  exists r r' a, reconciler_new 256 = Ok r /\ apply_snapshot r (snapshot_of_v2 first_snapshot) = Ok (r', Applied a) /\
    last_processed r' = Some 1.
Proof. eexists _, _, _. split; [vm_compute; reflexivity|]. split; [vm_compute; reflexivity|reflexivity]. Qed.
