(* ===== verification/ClientPrediction.v ===== *)
(** Prediction and presentation on the client ([apps/protocol-client/src/prediction.rs]
    and [presentation.rs]): where the replayed inputs take the character from a
    snapshot, and how the difference to what was shown before is smoothed away. *)

From S2P Require Import Prelude Contracts Snapshots Movement ClientHistory.
Import Intents Contracts.Prediction SnapshotV1.

Definition MICROS_PER_SECOND : Z := 1000000.
Definition MICROS_PER_MILLISECOND : Z := 1000.

(** ** The clock *)

Definition checked_duration_since (later earlier : Z) : result PredictionClockError Z :=
  ok_or (TimeRegressed earlier later) (checked_u 64 (later - earlier)).

(** [now], from the microseconds since the clock was started. *)
Definition clock_now (elapsed_us : Z) : result PredictionClockError Z :=
  ok_or (ElapsedTimeOverflow elapsed_us) (checked_u 64 elapsed_us).

(** ** The square root and the axes

    The client repeats the code of the simulation ([Movement.v]) on its own axes. *)

Definition predicted_sqrt_floor (value : Z) : option Z :=
  if decide (value < 2) then Some value
  else newton 64 65 value value ((value + 1) / 2).

Definition predicted_sqrt_ceil (value : Z) : option Z :=
  floor ← predicted_sqrt_floor value;
  if decide (wrap_u 64 (floor * floor) = value) then Some floor else Some (wrap_u 64 (floor + 1)).

Definition predicted_axes (axis_x axis_y : Z) : option (Z * Z) :=
  let scale := MOVE_AXIS_MAX in
  let magnitude_squared := wrap_u 64 (wrap_i 64 (wrap_i 64 (axis_x * axis_x) + wrap_i 64 (axis_y * axis_y))) in
  let scale_squared := wrap_u 64 (wrap_i 64 (scale * scale)) in
  if decide (magnitude_squared <= scale_squared) then Some (axis_x, axis_y)
  else
    m ← predicted_sqrt_ceil magnitude_squared;
    let magnitude := wrap_i 64 m in
    Some (Z.quot (wrap_i 64 (axis_x * scale)) magnitude, Z.quot (wrap_i 64 (axis_y * scale)) magnitude).

(** ** The predictor *)

(** [PredictionFuel] stands for a square root that is not found in time, which does
    not happen ([predicted_axes_total]). *)
Inductive PredictionError :=
| TimeoutOverflow | ZeroPredictableLifetime | IntegrationOverflow | PositionOverflow | PredictionFuel.

Record PredictedPositionMm := mk_predicted { predicted_x : Z; predicted_y : Z; predicted_z : Z }.

Record PositionalPredictor := mk_predictor { profile : MovementPredictionProfile; max_input_lifetime_us : Z }.

(** The tick rate of a profile is not zero: profiles are validated when they are
    received. *)
Definition predictor_new (p : MovementPredictionProfile) : result PredictionError PositionalPredictor :=
  timeout_numerator ← ok_or TimeoutOverflow (checked_u 64 (movement_input_timeout_ticks p * MICROS_PER_SECOND));
  let lifetime := timeout_numerator / simulation_tick_hz p in
  if decide (lifetime = 0) then Err ZeroPredictableLifetime else Ok (mk_predictor p lifetime).

Record Integration := mk_integration { int_x : Z; int_y : Z; int_remainder_x : Z; int_remainder_y : Z }.

(** One axis of a segment: the numerator. *)
Definition segment_numerator (speed axis duration remainder : Z) : result PredictionError Z :=
  product ← ok_or IntegrationOverflow (v ← checked_i 128 (speed * axis); checked_i 128 (v * duration));
  ok_or IntegrationOverflow (checked_i 128 (remainder + product)).

Definition predict_segment (p : PositionalPredictor) (denominator : Z) (i : Integration) (s : ReplaySegment)
  : result PredictionError Integration :=
  let speed := speed_mm_per_second (profile p) in
  let duration := Z.min (duration_us s) (max_input_lifetime_us p) in
  '(axis_x, axis_y) ← ok_or PredictionFuel (predicted_axes (mv_axis_x (segment_intent s)) (mv_axis_y (segment_intent s)));
  numerator_x ← segment_numerator speed axis_x duration (int_remainder_x i);
  numerator_y ← segment_numerator speed axis_y duration (int_remainder_y i);
  x ← ok_or PositionOverflow (checked_i 128 (int_x i + Z.quot numerator_x denominator));
  y ← ok_or PositionOverflow (checked_i 128 (int_y i + Z.quot numerator_y denominator));
  Ok (mk_integration x y (Z.rem numerator_x denominator) (Z.rem numerator_y denominator)).

Fixpoint predict_segments (p : PositionalPredictor) (denominator : Z) (i : Integration) (l : list ReplaySegment)
  : result PredictionError Integration :=
  match l with
  | [] => Ok i
  | s :: l' => i' ← predict_segment p denominator i s; predict_segments p denominator i' l'
  end.

Definition predict (p : PositionalPredictor) (baseline : SelfMovementSnapshot) (replay : ReplayPlan)
  : result PredictionError PredictedPositionMm :=
  denominator ← ok_or IntegrationOverflow (checked_i 128 (MOVE_AXIS_MAX * MICROS_PER_SECOND));
  i ← predict_segments p denominator (mk_integration (x_mm baseline) (y_mm baseline) 0 0) (segments replay);
  x ← ok_or PositionOverflow (checked_i 64 (int_x i));
  y ← ok_or PositionOverflow (checked_i 64 (int_y i));
  Ok (mk_predicted x y (z_mm baseline)).

(** ** Presentation *)

Inductive CorrectionMode := Absorb | Smooth | Rapid | HardSnap.
#[global] Instance CorrectionMode_eq_dec : EqDecision CorrectionMode.
Proof. solve_decision. Defined.

Record PresentationOffsetMm := mk_offset { offset_x : Z; offset_y : Z; offset_z : Z }.
Definition OFFSET_ZERO : PresentationOffsetMm := mk_offset 0 0 0.

Record CorrectionDecision := mk_decision {
  mode : CorrectionMode;
  distance_mm : Z;
  decision_duration_us : Z;
  active_offset : PresentationOffsetMm
}.

Record ActiveCorrection := mk_active { initial_offset : PresentationOffsetMm; started_at : Z; active_duration_us : Z }.

(** [PresentationFuel]: as [PredictionFuel]. *)
Inductive PresentationError :=
| PresentationDurationOverflow | PresentationPositionOverflow | InterpolationOverflow | DistanceOverflow
| PresentationClock (e : PredictionClockError)
| PresentationFuel.

Record PresentationReconciler := mk_presentation {
  correction_profile : PresentationCorrectionProfile;
  smooth_duration_us : Z;
  rapid_duration_us : Z;
  active : option ActiveCorrection
}.

Definition set_active (r : PresentationReconciler) (a : option ActiveCorrection) : PresentationReconciler :=
  mk_presentation (correction_profile r) (smooth_duration_us r) (rapid_duration_us r) a.

Definition presentation_new (p : PresentationCorrectionProfile) : result PresentationError PresentationReconciler :=
  smooth ← ok_or PresentationDurationOverflow (checked_u 64 (smooth_duration_ms p * MICROS_PER_MILLISECOND));
  rapid ← ok_or PresentationDurationOverflow (checked_u 64 (rapid_duration_ms p * MICROS_PER_MILLISECOND));
  Ok (mk_presentation p smooth rapid None).

Definition add_offset (position : PredictedPositionMm) (offset : PresentationOffsetMm) : result PresentationError PredictedPositionMm :=
  x ← ok_or PresentationPositionOverflow (checked_i 64 (predicted_x position + offset_x offset));
  y ← ok_or PresentationPositionOverflow (checked_i 64 (predicted_y position + offset_y offset));
  z ← ok_or PresentationPositionOverflow (checked_i 64 (predicted_z position + offset_z offset));
  Ok (mk_predicted x y z).

Definition position_delta (from to : PredictedPositionMm) : result PresentationError PresentationOffsetMm :=
  x ← ok_or PresentationPositionOverflow (checked_i 64 (predicted_x from - predicted_x to));
  y ← ok_or PresentationPositionOverflow (checked_i 64 (predicted_y from - predicted_y to));
  z ← ok_or PresentationPositionOverflow (checked_i 64 (predicted_z from - predicted_z to));
  Ok (mk_offset x y z).

Definition decay_component (value remaining_us duration_us : Z) : result PresentationError Z :=
  product ← ok_or InterpolationOverflow (checked_i 128 (value * remaining_us));
  ok_or InterpolationOverflow (checked_i 64 (Z.quot product duration_us)).

(** The square root of [u128]. *)
Definition magnitude_sqrt_floor (value : Z) : option Z :=
  if decide (value < 2) then Some value
  else newton 128 129 value value ((value + 1) / 2).

Definition magnitude_mm (offset : PresentationOffsetMm) : result PresentationError Z :=
  let x := Z.abs (offset_x offset) in
  let y := Z.abs (offset_y offset) in
  let z := Z.abs (offset_z offset) in
  squared ← ok_or DistanceOverflow
    (xx ← checked_u 128 (x * x);
     yy ← checked_u 128 (y * y); xy ← checked_u 128 (xx + yy);
     zz ← checked_u 128 (z * z); checked_u 128 (xy + zz));
  magnitude ← ok_or PresentationFuel (magnitude_sqrt_floor squared);
  ok_or DistanceOverflow (checked_u 64 magnitude).

Definition sample_offset (r : PresentationReconciler) (now : Z) : PresentationReconciler * result PresentationError PresentationOffsetMm :=
  match active r with
  | None => (r, Ok OFFSET_ZERO)
  | Some a =>
      match checked_duration_since now (started_at a) with
      | Err e => (r, Err (PresentationClock e))
      | Ok elapsed =>
          if decide (elapsed >= active_duration_us a) then (set_active r None, Ok OFFSET_ZERO)
          else
            let remaining := active_duration_us a - elapsed in
            (r, x ← decay_component (offset_x (initial_offset a)) remaining (active_duration_us a);
                y ← decay_component (offset_y (initial_offset a)) remaining (active_duration_us a);
                z ← decay_component (offset_z (initial_offset a)) remaining (active_duration_us a);
                Ok (mk_offset x y z))
      end
  end.

Definition rendered_position (r : PresentationReconciler) (gameplay : PredictedPositionMm) (now : Z)
  : PresentationReconciler * result PresentationError PredictedPositionMm :=
  let '(r', offset) := sample_offset r now in (r', o ← offset; add_offset gameplay o).

(** Which correction a distance asks for, and how long it takes. *)
Definition correction_for (r : PresentationReconciler) (distance : Z) : CorrectionMode * Z :=
  if decide (distance <= absorb_max_mm (correction_profile r)) then (Absorb, 0)
  else if decide (distance <= smooth_max_mm (correction_profile r)) then (Smooth, smooth_duration_us r)
  else if decide (distance < hard_snap_threshold_mm (correction_profile r)) then (Rapid, rapid_duration_us r)
  else (HardSnap, 0).

Definition reconcile (r : PresentationReconciler) (old_gameplay new_gameplay : PredictedPositionMm) (now : Z)
  : PresentationReconciler * result PresentationError CorrectionDecision :=
  let '(r1, current_offset) := sample_offset r now in
  match
    (offset ← current_offset;
     old_rendered ← add_offset old_gameplay offset;
     requested ← position_delta old_rendered new_gameplay;
     distance ← magnitude_mm requested;
     Ok (requested, distance))
  with
  | Err e => (r1, Err e)
  | Ok (requested, distance) =>
      let '(m, duration) := correction_for r1 distance in
      match m with
      | Smooth | Rapid =>
          (set_active r1 (Some (mk_active requested now duration)), Ok (mk_decision m distance duration requested))
      | Absorb | HardSnap => (set_active r1 None, Ok (mk_decision m distance duration OFFSET_ZERO))
      end
  end.

(** ** The prediction agrees with the server *)

Lemma predicted_axes_normalized x y : predicted_axes x y = normalized_axes (mk_input x y).
Proof. reflexivity. Qed.

Definition input_of (i : MoveIntent) : MovementInput := mk_input (mv_axis_x i) (mv_axis_y i).

Lemma input_of_ok i : move_intent_ok i -> input_ok (input_of i).
Proof. intros (_ & ? & ?). unfold input_ok, MOVE_AXIS_MIN, MOVE_AXIS_MAX in *. cbn. lia. Qed.

Lemma predicted_axes_total i : move_intent_ok i ->
  exists ax ay, predicted_axes (mv_axis_x i) (mv_axis_y i) = Some (ax, ay) /\ normalized_axes (input_of i) = Some (ax, ay) /\
    Z.abs ax <= 32767 /\ Z.abs ay <= 32767.
Proof.
  intros Hi%input_of_ok. destruct (normalized_axes_bounded _ Hi) as (ax & ay & E & ? & ?). exists ax, ay.
  by rewrite predicted_axes_normalized.
Qed.

(** Dividing twice, as two ticks do, or once: the same as long as the sum does not
    change its sign. *)
Lemma quot_rem_then D N b : 0 < D -> 0 <= b /\ - D < N \/ b <= 0 /\ N < D ->
  Z.quot N D + Z.quot (Z.rem N D + b) D = Z.quot (N + b) D /\ Z.rem (Z.rem N D + b) D = Z.rem (N + b) D.
Proof.
  intros HD H.
  assert (Z.quot N D + Z.quot (Z.rem N D + b) D = Z.quot (N + b) D) as E.
  { pose proof (Z.quot_rem' N D) as HN. destruct (decide (Z.abs N < D)) as [Hs|Hs].
    - assert (Z.quot N D = 0) as Eq by (apply Z.quot_small_iff; lia). rewrite Eq in *.
      replace (Z.rem N D) with N by lia. done.
    - destruct H as [[Hb Hlo]|[Hb Hhi]].
      + pose proof (Z.rem_bound_pos N D ltac:(lia) HD). rewrite !Z.quot_div_nonneg by lia.
        rewrite !Z.quot_div_nonneg in HN by lia. replace (N + b) with (Z.rem N D + b + (N / D) * D) by lia. rewrite Z.div_add by lia. lia.
      + pose proof (Z.rem_bound_pos_neg N D HD ltac:(lia)) as Hr. set (q := Z.quot N D) in *. set (m := Z.rem N D) in *.
        replace (N + b) with (m + b + q * D) by lia.
        rewrite Z.quot_add; [lia|lia|]. replace (m + b + q * D) with (N + b) by lia. apply Z.mul_nonpos_nonpos; lia. }
  split; [done|]. pose proof (Z.quot_rem' N D). pose proof (Z.quot_rem' (Z.rem N D + b) D). pose proof (Z.quot_rem' (N + b) D). nia.
Qed.

Lemma integrate_exact rules input r ax ay : rules_ok rules -> input_ok input -> remainder_ok rules r ->
  normalized_axes input = Some (ax, ay) ->
  let nx := rem_x r + rule_speed rules * ax in let ny := rem_y r + rule_speed rules * ay in
  integrate rules input r = Some (Ok (mk_delta (Z.quot nx (denominator rules)) (Z.quot ny (denominator rules)),
                                      mk_rem (Z.rem nx (denominator rules)) (Z.rem ny (denominator rules)))).
Proof.
  intros Hok Hin Hr Hax. cbn zeta. destruct (integrate_spec rules input r Hok Hin Hr) as (ax' & ay' & d & r' & E1 & E2 & _).
  rewrite Hax in E1. injection E1 as <- <-. rewrite E2. unfold integrate in E2. rewrite Hax in E2. cbn in E2. injection E2 as E2.
  apply bind_Ok in E2 as (v1 & [-> _]%ok_or_Ok%checked_i_Some & E2). apply bind_Ok in E2 as (v2 & [-> _]%ok_or_Ok%checked_i_Some & E2).
  apply bind_Ok in E2 as (v3 & [-> _]%ok_or_Ok%checked_i_Some & E2). apply bind_Ok in E2 as (v4 & [-> _]%ok_or_Ok%checked_i_Some & E2).
  by injection E2 as <- <-.
Qed.

Lemma opposite_cases D a n r : 0 < D -> Z.abs r < D -> 0 <= n ->
  0 <= n * a /\ - D < r + a \/ n * a <= 0 /\ r + a < D.
Proof. intros. destruct (decide (0 <= a)); [left|right]; split; nia. Qed.

(** As many ticks with the same input as one division. *)
Lemma integrate_replicate rules input ax ay (n : nat) : rules_ok rules -> input_ok input -> normalized_axes input = Some (ax, ay) ->
  forall r, remainder_ok rules r ->
  let nx := rem_x r + Z.of_nat n * (rule_speed rules * ax) in let ny := rem_y r + Z.of_nat n * (rule_speed rules * ay) in
  exists ds, integrate_all rules (replicate n input) r =
      Some (Ok (ds, mk_rem (Z.rem nx (denominator rules)) (Z.rem ny (denominator rules)))) /\
    sum_by delta_x ds = Z.quot nx (denominator rules) /\ sum_by delta_y ds = Z.quot ny (denominator rules).
Proof.
  intros Hok Hin Hax. set (D := denominator rules). assert (0 < D) as HD by (destruct Hok; lia).
  induction n as [|n IH]; intros r [Hrx Hry]; cbn zeta; fold D in Hrx, Hry.
  - cbn [replicate integrate_all]. exists []. rewrite !Z.mul_0_l, !Z.add_0_r.
    rewrite (proj2 (Z.quot_small_iff (rem_x r) D ltac:(lia))), (proj2 (Z.quot_small_iff (rem_y r) D ltac:(lia))) by lia.
    rewrite (proj2 (Z.rem_small_iff (rem_x r) D ltac:(lia))), (proj2 (Z.rem_small_iff (rem_y r) D ltac:(lia))) by lia.
    by destruct r.
  - cbn [replicate integrate_all]. rewrite (integrate_exact rules input r ax ay Hok Hin (conj Hrx Hry) Hax). fold D. cbn [mbind option_bind].
    set (sx := rule_speed rules * ax) in *. set (sy := rule_speed rules * ay) in *.
    destruct (quot_rem_then D (rem_x r + sx) (Z.of_nat n * sx) HD) as [Ex Ex']; [apply opposite_cases; lia|].
    destruct (quot_rem_then D (rem_y r + sy) (Z.of_nat n * sy) HD) as [Ey Ey']; [apply opposite_cases; lia|].
    replace (rem_x r + Z.of_nat (S n) * sx) with (rem_x r + sx + Z.of_nat n * sx) by lia.
    replace (rem_y r + Z.of_nat (S n) * sy) with (rem_y r + sy + Z.of_nat n * sy) by lia.
    edestruct IH as (ds & E & Hx & Hy); [|rewrite E; eexists; split; [|split]].
    + unfold remainder_ok. cbn. split; apply quot_rem_bounds; done.
    + cbn [mbind option_bind]. cbn [rem_x rem_y]. by rewrite Ex', Ey'.
    + cbn [sum_by foldr delta_x]. unfold sum_by in Hx. rewrite Hx. cbn [rem_x]. exact Ex.
    + cbn [sum_by foldr delta_y]. unfold sum_by in Hy. rewrite Hy. cbn [rem_y]. exact Ey.
Qed.

Lemma integrate_all_app rules l1 l2 : forall r ds1 r1 ds2 r2, integrate_all rules l1 r = Some (Ok (ds1, r1)) ->
  integrate_all rules l2 r1 = Some (Ok (ds2, r2)) -> integrate_all rules (l1 ++ l2) r = Some (Ok (ds1 ++ ds2, r2)).
Proof.
  induction l1 as [|i l1 IH]; intros r ds1 r1 ds2 r2 E1 E2; cbn [integrate_all app] in *.
  - by injection E1 as <- <-.
  - destruct (integrate rules i r) as [[[d r']|e]|]; cbn in *; [|done|done].
    destruct (integrate_all rules l1 r') as [[[ds last]|e]|] eqn:E; cbn in E1; [|done|done].
    injection E1 as <- <-. by rewrite (IH r' ds last ds2 r2 E E2).
Qed.

Lemma sum_by_app {A} (f : A -> Z) l1 l2 : sum_by f (l1 ++ l2) = sum_by f l1 + sum_by f l2.
Proof. unfold sum_by. induction l1 as [|x l1 IH]; cbn; lia. Qed.

(** The segments last whole ticks, within the lifetime of an input. *)
Definition last_ticks (tick_us timeout : Z) : list ReplaySegment -> list nat -> Prop :=
  Forall2 (fun s n => duration_us s = Z.of_nat n * tick_us /\ Z.of_nat n <= timeout).

(** What the server integrates meanwhile: the input of each segment, tick by tick. *)
Definition server_inputs (l : list ReplaySegment) (ticks : list nat) : list MovementInput :=
  concat (zip_with (fun s n => replicate n (input_of (segment_intent s))) l ticks).

Section Agreement.
Context (p : PositionalPredictor) (rules : MovementRules) (hz timeout : Z).
Context (Hrules : rules_ok rules) (Hspeed : rule_speed rules = speed_mm_per_second (profile p)).
Context (Hhz : 0 < hz) (Hden : denominator rules = MOVE_AXIS_MAX * hz).
Context (K : Z) (HK : K * hz = MICROS_PER_SECOND).
Context (Hlifetime : max_input_lifetime_us p = timeout * K) (Hlife : in_u 64 (timeout * K)).

Lemma tick_positive : 0 < K.
Proof. unfold MICROS_PER_SECOND in HK. nia. Qed.

Lemma segment_numerator_Ok axis duration remainder : Z.abs axis <= 32767 -> in_u 64 duration -> Z.abs remainder < 2 ^ 64 ->
  segment_numerator (speed_mm_per_second (profile p)) axis duration remainder =
  Ok (remainder + speed_mm_per_second (profile p) * axis * duration) /\
  Z.abs (remainder + speed_mm_per_second (profile p) * axis * duration) < 2 ^ 112.
Proof.
  intros Ha Hd Hr. destruct Hrules as [Hs _]. rewrite Hspeed in Hs. unfold segment_numerator, in_u in *. set (speed := speed_mm_per_second (profile p)) in *.
  assert (Z.abs (speed * axis) <= 2 ^ 47) as H1 by (rewrite Z.abs_mul; nia).
  assert (Z.abs (speed * axis * duration) <= 2 ^ 111) as H2 by (rewrite Z.abs_mul; nia).
  rewrite (checked_i_in 128 (speed * axis)) by (unfold in_i; lia). cbn.
  rewrite (checked_i_in 128 (speed * axis * duration)) by (unfold in_i; lia). cbn.
  rewrite checked_i_in by (unfold in_i; lia). cbn. split; [done|lia].
Qed.

Lemma scaled_numerator r axis (n : Z) :
  K * r + speed_mm_per_second (profile p) * axis * (n * K) = K * (r + n * (rule_speed rules * axis)).
Proof. rewrite Hspeed. ring. Qed.

Lemma scaled_division N : Z.quot (K * N) (MOVE_AXIS_MAX * MICROS_PER_SECOND) = Z.quot N (denominator rules) /\
  Z.rem (K * N) (MOVE_AXIS_MAX * MICROS_PER_SECOND) = K * Z.rem N (denominator rules).
Proof.
  pose proof tick_positive. unfold MOVE_AXIS_MAX in *. replace (32767 * MICROS_PER_SECOND) with (K * denominator rules) by (rewrite Hden; lia).
  split; [apply Z.quot_mul_cancel_l|apply Z.mul_rem_distr_l]; lia.
Qed.

Lemma predict_segment_spec i s (n : nat) r : move_intent_ok (segment_intent s) ->
  duration_us s = Z.of_nat n * K -> Z.of_nat n <= timeout -> remainder_ok rules r ->
  int_remainder_x i = K * rem_x r -> int_remainder_y i = K * rem_y r ->
  Z.abs (int_x i) < 2 ^ 126 -> Z.abs (int_y i) < 2 ^ 126 ->
  exists i' ds r', predict_segment p (MOVE_AXIS_MAX * MICROS_PER_SECOND) i s = Ok i' /\
    integrate_all rules (replicate n (input_of (segment_intent s))) r = Some (Ok (ds, r')) /\ remainder_ok rules r' /\
    int_x i' = int_x i + sum_by delta_x ds /\ int_y i' = int_y i + sum_by delta_y ds /\
    int_remainder_x i' = K * rem_x r' /\ int_remainder_y i' = K * rem_y r' /\
    Z.abs (int_x i') <= Z.abs (int_x i) + 2 ^ 112 /\ Z.abs (int_y i') <= Z.abs (int_y i) + 2 ^ 112.
Proof.
  intros Hi Hd Hn Hr Hrx Hry Hx Hy. pose proof tick_positive as HKp.
  destruct (predicted_axes_total _ Hi) as (ax & ay & E1 & E2 & Hax & Hay).
  destruct (integrate_replicate rules _ ax ay n Hrules (input_of_ok _ Hi) E2 r Hr) as (ds & E3 & Hdx & Hdy).
  assert (K <= 1000000 /\ 0 < denominator rules <= K * denominator rules /\ K * denominator rules = 32767000000) as (HK1 & HD & HKD).
  { destruct Hrules. rewrite Hden. unfold MICROS_PER_SECOND, MOVE_AXIS_MAX in *. nia. }
  assert (in_u 64 (Z.of_nat n * K)) as Hdur by (unfold in_u in *; nia).
  assert (Z.abs (K * rem_x r) < 2 ^ 64 /\ Z.abs (K * rem_y r) < 2 ^ 64) as [HRx HRy].
  { destruct Hr. rewrite !Z.abs_mul, (Z.abs_eq K) by lia. nia. }
  destruct (segment_numerator_Ok ax (Z.of_nat n * K) (K * rem_x r) Hax Hdur HRx) as [Enx Hnx].
  destruct (segment_numerator_Ok ay (Z.of_nat n * K) (K * rem_y r) Hay Hdur HRy) as [Eny Hny].
  unfold predict_segment. rewrite Hd, Hlifetime, (Z.min_l (Z.of_nat n * K)) by nia. rewrite E1. cbn [ok_or mbind result_bind].
  rewrite Hrx, Hry, Enx, Eny. cbn [mbind result_bind]. rewrite !scaled_numerator in *.
  set (nx := rem_x r + Z.of_nat n * (rule_speed rules * ax)) in *. set (ny := rem_y r + Z.of_nat n * (rule_speed rules * ay)) in *.
  destruct (scaled_division nx) as [-> ->]. destruct (scaled_division ny) as [-> ->].
  assert (forall N, Z.abs (K * N) < 2 ^ 112 -> Z.abs (Z.quot N (denominator rules)) < 2 ^ 112) as Hq.
  { intros N HN. rewrite Z.abs_mul, (Z.abs_eq K) in HN by lia. rewrite <- Z.quot_abs by lia.
    rewrite (Z.abs_eq (denominator rules)) by lia. pose proof (Z.quot_le_upper_bound (Z.abs N) (denominator rules) (Z.abs N)). nia. }
  pose proof (Hq nx Hnx). pose proof (Hq ny Hny).
  rewrite (checked_i_in 128 (int_x i + _)) by (unfold in_i; lia). cbn [ok_or mbind result_bind].
  rewrite (checked_i_in 128 (int_y i + _)) by (unfold in_i; lia). cbn [ok_or mbind result_bind].
  eexists _, ds, _. split; [done|]. split; [exact E3|]. cbn. rewrite Hdx, Hdy. split_goals; try lia.
  split; cbn; apply quot_rem_bounds; lia.
Qed.

Lemma predict_segments_spec l ticks : last_ticks K timeout l ticks -> Forall (fun s => move_intent_ok (segment_intent s)) l ->
  forall i r, remainder_ok rules r -> int_remainder_x i = K * rem_x r -> int_remainder_y i = K * rem_y r ->
  Z.abs (int_x i) + Z.of_nat (length l) * 2 ^ 112 < 2 ^ 126 -> Z.abs (int_y i) + Z.of_nat (length l) * 2 ^ 112 < 2 ^ 126 ->
  exists i' ds r', predict_segments p (MOVE_AXIS_MAX * MICROS_PER_SECOND) i l = Ok i' /\
    integrate_all rules (server_inputs l ticks) r = Some (Ok (ds, r')) /\
    int_x i' = int_x i + sum_by delta_x ds /\ int_y i' = int_y i + sum_by delta_y ds.
Proof.
  induction 1 as [|s n l ticks [Hd Hn] _ IH]; intros Hok i r Hr Hrx Hry Hx Hy.
  - exists i, [], r. cbn. split_goals; (done || lia).
  - apply list.Forall_cons in Hok as [Hi Hok]. cbn [length] in *. rewrite Nat2Z.inj_succ in *.
    destruct (predict_segment_spec i s n r Hi Hd Hn Hr Hrx Hry) as (i1 & ds1 & r1 & E1 & E2 & Hr1 & Hx1 & Hy1 & Hrx1 & Hry1 & Hb1 & Hb2); [lia|lia|].
    destruct (IH Hok i1 r1 Hr1 Hrx1 Hry1) as (i' & ds & r' & E3 & E4 & Hx' & Hy'); [lia|lia|].
    exists i', (ds1 ++ ds), r'. cbn [predict_segments]. rewrite E1. cbn. split; [done|].
    unfold server_inputs. cbn. split; [by eapply integrate_all_app|]. rewrite !sum_by_app. lia.
Qed.
End Agreement.

Lemma within_two D a b r r0 r' S : 0 < D -> D * a + r = r0 + S -> D * b + r' = S ->
  Z.abs r < D -> Z.abs r0 < D -> Z.abs r' < D -> Z.abs (b - a) <= 2.
Proof.
  intros HD Ha Hb Hr Hr0 Hr'. assert (D * Z.abs (b - a) < D * 3) as H.
  { rewrite <- (Z.abs_eq D) at 1 by lia. rewrite <- Z.abs_mul, Z.mul_sub_distr_l. lia. }
  apply Z.mul_lt_mono_pos_l in H; lia.
Qed.

(** C22: the client predicts what the server will do.  Take the rules of the server and
    the profile it sends, a tick rate that divides a second into whole microseconds,
    and a replay whose segments last whole ticks, no longer than an input lives.  Where
    nothing stands in the way, the server moves the character, tick by tick and with
    every rounding, by [deltas]; the client's single division per segment arrives at
    the same millimetre when the server's remainder at the snapshot is zero - it is not
    part of a snapshot - and within two millimetres otherwise, however long the replay
    and however often the direction changes.  The prediction fails only if the position
    leaves the range of [i64]. *)
Theorem prediction_matches_server (settings : CharacterMovementSettings) (hz : Z) (rules : MovementRules)
    (p : MovementPredictionProfile) (predictor : PositionalPredictor) (baseline : SelfMovementSnapshot)
    (plan : ReplayPlan) (ticks : list nat) (r0 : MovementRemainder) :
  in_u 32 (Movement.speed_mm_per_second settings) -> in_u 32 hz -> rules_new settings hz = Ok rules ->
  speed_mm_per_second p = Movement.speed_mm_per_second settings -> simulation_tick_hz p = hz ->
  0 <= movement_input_timeout_ticks p -> predictor_new p = Ok predictor -> (hz | MICROS_PER_SECOND) ->
  in_i 64 (x_mm baseline) -> in_i 64 (y_mm baseline) ->
  last_ticks (MICROS_PER_SECOND / hz) (movement_input_timeout_ticks p) (segments plan) ticks ->
  Forall (fun s => move_intent_ok (segment_intent s)) (segments plan) -> Z.of_nat (length (segments plan)) <= 2 ^ 12 ->
  remainder_ok rules r0 ->
  exists deltas r, integrate_all rules (server_inputs (segments plan) ticks) r0 = Some (Ok (deltas, r)) /\
    let x := x_mm baseline + sum_by delta_x deltas in
    let y := y_mm baseline + sum_by delta_y deltas in
    match predict predictor baseline plan with
    | Ok q => Z.abs (predicted_x q - x) <= 2 /\ Z.abs (predicted_y q - y) <= 2 /\ predicted_z q = z_mm baseline /\
        (r0 = mk_rem 0 0 -> predicted_x q = x /\ predicted_y q = y)
    | Err e => e = PositionOverflow /\ (r0 = mk_rem 0 0 -> ~ (in_i 64 x /\ in_i 64 y))
    end.
Proof.
  intros Hs Hh Hr Hsp Ehz Htimeout Hnew [K HK] Hbx Hby Hl Hok Hlen Hr0.
  destruct (rules_new_ok _ _ _ Hs Hh Hr) as (Hrules & Hspeed & Hden). unfold in_u in Hh.
  assert (0 < hz) as Hhz by (destruct (decide (hz = 0)) as [->|]; [rewrite Z.mul_0_r in HK; done|lia]).
  unfold predictor_new in Hnew. apply bind_Ok in Hnew as (num & [-> Hnum]%ok_or_Ok%checked_u_Some & Hnew). rewrite Ehz in Hnew.
  assert (movement_input_timeout_ticks p * MICROS_PER_SECOND / hz = movement_input_timeout_ticks p * K) as Elife.
  { rewrite HK, Z.mul_assoc. apply Z.div_mul. lia. }
  rewrite Elife in Hnew. case_decide as Hzero; [done|]. injection Hnew as <-.
  rewrite HK, Z.div_mul in Hl by lia. unfold in_u, in_i, MICROS_PER_SECOND in *.
  assert (0 < K <= 1000000) as HKr by nia.
  assert (in_u 64 (movement_input_timeout_ticks p * K)) as Hlife by (unfold in_u; nia).
  pose proof (predict_segments_spec (mk_predictor p (movement_input_timeout_ticks p * K)) rules hz (movement_input_timeout_ticks p)
    Hrules (eq_trans Hspeed (eq_sym Hsp)) Hhz Hden K (eq_sym HK) eq_refl Hlife (segments plan) ticks Hl Hok) as Hpred.
  assert (remainder_ok rules (mk_rem 0 0)) as H00 by (destruct Hrules; unfold remainder_ok; cbn; lia).
  destruct (Hpred (mk_integration (x_mm baseline) (y_mm baseline) 0 0) (mk_rem 0 0) H00) as (i & ds0 & r & E & E0 & Hx & Hy);
    [cbn; lia..|]. cbn [int_x int_y] in Hx, Hy.
  assert (Forall input_ok (server_inputs (segments plan) ticks)) as Hin.
  { clear -Hok Hl. unfold server_inputs. revert ticks Hl. induction Hok as [|s l Hs _ IH]; intros ticks Hl; [constructor|].
    apply Forall2_cons_inv_l in Hl as (n & ticks' & _ & Hl & ->). cbn. apply Forall_app. split; [|by apply IH].
    apply Forall_replicate. by apply input_of_ok. }
  destruct (integrate_all_exact rules _ Hrules Hin r0 Hr0) as (axes & ds & r1 & Ea & E1 & _ & Hr1 & Hdx & Hdy).
  destruct (integrate_all_exact rules _ Hrules Hin _ H00) as (axes' & ds' & r' & Ea' & E2 & _ & Hr' & Hdx' & Hdy').
  rewrite E0 in E2. injection E2 as <- <-. rewrite Ea in Ea'. apply (inj (map Some)) in Ea' as <-.
  exists ds, r1. split; [done|]. cbn zeta.
  assert (Z.abs (sum_by delta_x ds0 - sum_by delta_x ds) <= 2 /\ Z.abs (sum_by delta_y ds0 - sum_by delta_y ds) <= 2) as Hclose.
  { destruct Hr0, Hr1, Hr', Hrules. cbn in Hdx', Hdy'. split.
    - eapply (within_two (denominator rules) _ _ (rem_x r1) (rem_x r0) (rem_x r)); [lia|exact Hdx|exact Hdx'|done..].
    - eapply (within_two (denominator rules) _ _ (rem_y r1) (rem_y r0) (rem_y r)); [lia|exact Hdy|exact Hdy'|done..]. }
  assert (r0 = mk_rem 0 0 -> ds = ds0) as Hsame by (intros ->; congruence).
  unfold predict. rewrite checked_i_in by (vm_compute; split; congruence). cbn [ok_or mbind result_bind].
  change (MOVE_AXIS_MAX * MICROS_PER_SECOND) with (MOVE_AXIS_MAX * 1000000) in *. rewrite E. cbn [mbind result_bind].
  destruct (checked_i 64 (int_x i)) as [x|] eqn:Ex; cbn; [apply checked_i_Some in Ex as [-> Hix]|apply checked_i_None in Ex as Hix];
    [destruct (checked_i 64 (int_y i)) as [y|] eqn:Ey; cbn; [apply checked_i_Some in Ey as [-> Hiy]|apply checked_i_None in Ey as Hiy]|].
  - rewrite Hx, Hy. split_goals; [lia|lia|done|]. intros H%Hsame. by subst ds.
  - split; [done|]. intros H%Hsame [_ H2]. subst ds. apply Hiy. unfold in_i. rewrite Hy. exact H2.
  - split; [done|]. intros H%Hsame [H1 _]. subst ds. apply Hix. unfold in_i. rewrite Hx. exact H1.
Qed.

(** ** A prediction that cannot fail

    With an input lifetime below four years and a snapshot in the inner half of the
    range, a short replay always gives a position. *)

Lemma predict_segment_total pr i s B : in_u 32 (speed_mm_per_second (profile pr)) -> 0 <= max_input_lifetime_us pr <= 2 ^ 47 ->
  move_intent_ok (segment_intent s) -> 0 <= duration_us s -> B + 2 ^ 60 < 2 ^ 63 ->
  Z.abs (int_x i) <= B -> Z.abs (int_y i) <= B ->
  Z.abs (int_remainder_x i) < MOVE_AXIS_MAX * MICROS_PER_SECOND -> Z.abs (int_remainder_y i) < MOVE_AXIS_MAX * MICROS_PER_SECOND ->
  exists i', predict_segment pr (MOVE_AXIS_MAX * MICROS_PER_SECOND) i s = Ok i' /\
    Z.abs (int_x i') <= B + 2 ^ 60 /\ Z.abs (int_y i') <= B + 2 ^ 60 /\
    Z.abs (int_remainder_x i') < MOVE_AXIS_MAX * MICROS_PER_SECOND /\ Z.abs (int_remainder_y i') < MOVE_AXIS_MAX * MICROS_PER_SECOND.
Proof.
  unfold MOVE_AXIS_MAX, MICROS_PER_SECOND, in_u. intros Hs Hl Hi Hd HB Hx Hy Hrx Hry.
  destruct (predicted_axes_total _ Hi) as (ax & ay & E & _ & Hax & Hay). unfold predict_segment. rewrite E. cbn [ok_or mbind result_bind].
  set (d := Z.min (duration_us s) (max_input_lifetime_us pr)). assert (0 <= d <= 2 ^ 47) as Hdur by lia.
  set (speed := speed_mm_per_second (profile pr)) in *.
  assert (forall axis R, Z.abs axis <= 32767 -> Z.abs R < 32767 * 1000000 ->
    segment_numerator speed axis d R = Ok (R + speed * axis * d) /\ Z.abs (Z.quot (R + speed * axis * d) (32767 * 1000000)) <= 2 ^ 60) as H.
  { intros axis R Ha HR. assert (Z.abs (speed * axis) <= 2 ^ 32 * 32767) as H1 by (rewrite Z.abs_mul; nia).
    assert (Z.abs (speed * axis * d) <= 2 ^ 79 * 32767) as H2 by (rewrite Z.abs_mul; nia).
    unfold segment_numerator. rewrite (checked_i_in 128 (speed * axis)) by (unfold in_i; lia). cbn.
    rewrite (checked_i_in 128 (speed * axis * d)) by (unfold in_i; lia). cbn. rewrite checked_i_in by (unfold in_i; lia). cbn. split; [done|].
    rewrite <- Z.quot_abs by lia. rewrite Z.quot_div_nonneg by lia. apply Z.div_le_upper_bound; lia. }
  destruct (H ax (int_remainder_x i) Hax Hrx) as [-> Hqx]. destruct (H ay (int_remainder_y i) Hay Hry) as [-> Hqy]. cbn [mbind result_bind].
  rewrite (checked_i_in 128 (int_x i + _)) by (unfold in_i; lia). cbn [ok_or mbind result_bind].
  rewrite (checked_i_in 128 (int_y i + _)) by (unfold in_i; lia). cbn [ok_or mbind result_bind].
  eexists. split; [done|]. cbn [int_x int_y int_remainder_x int_remainder_y]. split_goals; [lia|lia|apply quot_rem_bounds; lia|apply quot_rem_bounds; lia].
Qed.

Lemma predict_total pr baseline plan : in_u 32 (speed_mm_per_second (profile pr)) -> 0 <= max_input_lifetime_us pr <= 2 ^ 47 ->
  Forall (fun s => move_intent_ok (segment_intent s) /\ 0 <= duration_us s) (segments plan) -> (length (segments plan) <= 3)%nat ->
  Z.abs (x_mm baseline) <= 2 ^ 62 -> Z.abs (y_mm baseline) <= 2 ^ 62 ->
  exists q, predict pr baseline plan = Ok q /\ in_i 64 (predicted_x q) /\ in_i 64 (predicted_y q) /\ predicted_z q = z_mm baseline.
Proof.
  intros Hs Hl Hsegs Hlen Hx Hy.
  assert (forall l i B, Forall (fun s => move_intent_ok (segment_intent s) /\ 0 <= duration_us s) l ->
    B + Z.of_nat (length l) * 2 ^ 60 < 2 ^ 63 -> Z.abs (int_x i) <= B -> Z.abs (int_y i) <= B ->
    Z.abs (int_remainder_x i) < MOVE_AXIS_MAX * MICROS_PER_SECOND -> Z.abs (int_remainder_y i) < MOVE_AXIS_MAX * MICROS_PER_SECOND ->
    exists i', predict_segments pr (MOVE_AXIS_MAX * MICROS_PER_SECOND) i l = Ok i' /\
      Z.abs (int_x i') < 2 ^ 63 /\ Z.abs (int_y i') < 2 ^ 63) as H.
  { induction l as [|s l IH]; intros i B Hall HB Hbx Hby Hrx Hry; [exists i; cbn in *; split; [done|lia]|].
    apply list.Forall_cons in Hall as [[Hi Hd] Hall]. cbn [length predict_segments] in *.
    destruct (predict_segment_total pr i s B Hs Hl Hi Hd) as (i1 & -> & ? & ? & ? & ?); try done; [lia|].
    apply (IH i1 (B + 2 ^ 60)); try done. lia. }
  destruct (H (segments plan) (mk_integration (x_mm baseline) (y_mm baseline) 0 0) (2 ^ 62) Hsegs) as (i & E & Hix & Hiy);
    [lia|done|done|done|done|].
  unfold predict. rewrite checked_i_in by (vm_compute; split; congruence). cbn [ok_or mbind result_bind]. rewrite E. cbn [mbind result_bind].
  rewrite (checked_i_in 64 (int_x i)) by (unfold in_i; lia). cbn [ok_or mbind result_bind].
  rewrite (checked_i_in 64 (int_y i)) by (unfold in_i; lia). cbn [ok_or mbind result_bind].
  eexists. split; [done|]. cbn. unfold in_i. split_goals; (done || lia).
Qed.

(** ** Corrections *)

Definition offset_ok (o : PresentationOffsetMm) : Prop := in_i 64 (offset_x o) /\ in_i 64 (offset_y o) /\ in_i 64 (offset_z o).

Record presentation_ok (r : PresentationReconciler) : Prop := {
  po_smooth : 0 < smooth_duration_us r < 2 ^ 64;
  po_rapid : 0 < rapid_duration_us r < 2 ^ 64;
  po_active : forall a, active r = Some a ->
    0 < active_duration_us a < 2 ^ 64 /\ in_u 64 (started_at a) /\ offset_ok (initial_offset a)
}.

Lemma presentation_new_ok p : in_u 32 (smooth_duration_ms p) -> in_u 32 (rapid_duration_ms p) -> correction_validate p = Ok tt ->
  exists r, presentation_new p = Ok r /\ presentation_ok r /\ correction_profile r = p /\ active r = None /\
    smooth_duration_us r = smooth_duration_ms p * 1000 /\ rapid_duration_us r = rapid_duration_ms p * 1000.
Proof.
  unfold correction_validate, presentation_new, in_u, MICROS_PER_MILLISECOND. intros Hs Hr Hv. repeat (case_decide; [done|]).
  rewrite checked_u_in by (unfold in_u; lia). cbn [ok_or mbind result_bind]. rewrite checked_u_in by (unfold in_u; lia). cbn.
  eexists. split; [done|]. split; [|done]. split; cbn; [lia|lia|done].
Qed.

Lemma magnitude_sqrt_floor_spec value : in_u 128 value -> magnitude_sqrt_floor value = Some (Z.sqrt value).
Proof.
  intros [H0 H1]. unfold magnitude_sqrt_floor. case_decide.
  - assert (value = 0 \/ value = 1) as [-> | ->] by lia; done.
  - apply (newton_start 128); cbn; lia.
Qed.

Definition squared_length (o : PresentationOffsetMm) : Z :=
  offset_x o * offset_x o + offset_y o * offset_y o + offset_z o * offset_z o.

Lemma magnitude_exact o : offset_ok o -> magnitude_mm o = Ok (Z.sqrt (squared_length o)).
Proof.
  intros (Hx & Hy & Hz). unfold magnitude_mm, squared_length, in_i in *.
  rewrite <- (Z.abs_square (offset_x o)), <- (Z.abs_square (offset_y o)), <- (Z.abs_square (offset_z o)).
  assert (forall v, - 2 ^ (64 - 1) <= v < 2 ^ (64 - 1) -> 0 <= Z.abs v * Z.abs v <= 2 ^ 126) as Hsq by (intros v Hv; nia).
  pose proof (Hsq _ Hx). pose proof (Hsq _ Hy). pose proof (Hsq _ Hz). set (x := Z.abs (offset_x o)) in *.
  set (y := Z.abs (offset_y o)) in *. set (z := Z.abs (offset_z o)) in *.
  rewrite (checked_u_in 128 (x * x)) by (unfold in_u; lia). cbn [mbind option_bind].
  rewrite (checked_u_in 128 (y * y)) by (unfold in_u; lia). cbn [mbind option_bind].
  rewrite (checked_u_in 128 (x * x + y * y)) by (unfold in_u; lia). cbn [mbind option_bind].
  rewrite (checked_u_in 128 (z * z)) by (unfold in_u; lia). cbn [mbind option_bind].
  rewrite (checked_u_in 128) by (unfold in_u; lia). cbn [ok_or mbind result_bind].
  rewrite magnitude_sqrt_floor_spec by (unfold in_u; lia). cbn [ok_or mbind result_bind].
  rewrite checked_u_in; [done|]. split; [apply Z.sqrt_nonneg|]. apply Z.sqrt_lt_square; lia.
Qed.

(** A fading component keeps its sign and only gets smaller. *)
Lemma decay_component_spec v remaining duration : in_i 64 v -> 0 <= remaining <= duration -> 0 < duration < 2 ^ 64 ->
  decay_component v remaining duration = Ok (Z.quot (v * remaining) duration) /\
  0 <= v * Z.quot (v * remaining) duration /\ Z.abs (Z.quot (v * remaining) duration) = Z.abs v * remaining / duration /\
  Z.abs (Z.quot (v * remaining) duration) <= Z.abs v.
Proof.
  intros Hv Hr Hd. unfold in_i in Hv.
  assert (Z.abs (Z.quot (v * remaining) duration) = Z.abs v * remaining / duration) as Habs.
  { rewrite <- Z.quot_abs, Z.abs_mul, (Z.abs_eq remaining), (Z.abs_eq duration) by lia. apply Z.quot_div_nonneg; nia. }
  assert (Z.abs v * remaining / duration <= Z.abs v) as Hle by (apply Z.div_le_upper_bound; nia).
  assert (0 <= v * Z.quot (v * remaining) duration) as Hsign.
  { destruct (decide (0 <= v)); [apply Z.mul_nonneg_nonneg; [lia|apply Z.quot_pos; nia]|].
    apply Z.mul_nonpos_nonpos; [lia|]. replace (v * remaining) with (- (- v * remaining)) by lia. rewrite Z.quot_opp_l by lia.
    pose proof (Z.quot_pos (- v * remaining) duration ltac:(nia) ltac:(lia)). lia. }
  split; [|by rewrite Habs]. unfold decay_component.
  rewrite checked_i_in by (unfold in_i; nia). cbn [ok_or mbind result_bind]. rewrite checked_i_in; [done|].
  unfold in_i. nia.
Qed.

(** The offset at a time after a correction has begun. *)
Definition fading (a : ActiveCorrection) (t : Z) : PresentationOffsetMm :=
  let left := Z.max 0 (active_duration_us a - (t - started_at a)) in
  let part v := Z.quot (v * left) (active_duration_us a) in
  mk_offset (part (offset_x (initial_offset a))) (part (offset_y (initial_offset a))) (part (offset_z (initial_offset a))).

Definition offset_at (r : PresentationReconciler) (t : Z) : PresentationOffsetMm :=
  match active r with None => OFFSET_ZERO | Some a => fading a t end.

Lemma sample_offset_spec r t : presentation_ok r -> in_u 64 t ->
  match sample_offset r t with
  | (r', Ok o) => o = offset_at r t /\ presentation_ok r' /\ correction_profile r' = correction_profile r /\
      smooth_duration_us r' = smooth_duration_us r /\ rapid_duration_us r' = rapid_duration_us r /\
      (active r' = active r \/ active r' = None)
  | (r', Err e) => r' = r /\ exists a, active r = Some a /\ t < started_at a /\ e = PresentationClock (TimeRegressed (started_at a) t)
  end.
Proof.
  intros Hok Ht. destruct Hok as [Hs Hr Ha]. unfold sample_offset, offset_at. destruct (active r) as [a|] eqn:E.
  - destruct (Ha a eq_refl) as (Hd & Hst & Hx & Hy & Hz). unfold checked_duration_since, in_u in *.
    destruct (decide (t < started_at a)) as [Hlt|Hge].
    + rewrite (proj2 (eq_None_not_Some _)); [|intros [v [_ Hv]%checked_u_Some]; unfold in_u in Hv; lia]. cbn. split; [done|]. by exists a.
    + rewrite checked_u_in by (unfold in_u; lia). cbn [ok_or]. case_decide as Hover.
      * split_goals; try done; [|by right]. unfold fading. rewrite Z.max_l by lia. by rewrite !Z.mul_0_r, !Z.quot_0_l by lia.
      * destruct (decay_component_spec _ (active_duration_us a - (t - started_at a)) (active_duration_us a) Hx) as (-> & _); [lia|lia|].
        destruct (decay_component_spec _ (active_duration_us a - (t - started_at a)) (active_duration_us a) Hy) as (-> & _); [lia|lia|].
        destruct (decay_component_spec _ (active_duration_us a - (t - started_at a)) (active_duration_us a) Hz) as (-> & _); [lia|lia|].
        cbn. split_goals; try done; [|split; [done|done|by rewrite E]|by left]. unfold fading. by rewrite Z.max_r by lia.
  - split_goals; try done; [split; [done|done|by rewrite E]|by left].
Qed.

(** The fading offset lies between the whole offset and nothing, never grows, and ends. *)
Lemma fading_spec a t t' : 0 < active_duration_us a < 2 ^ 64 -> offset_ok (initial_offset a) -> started_at a <= t <= t' ->
  (forall f, f = offset_x \/ f = offset_y \/ f = offset_z ->
     0 <= f (initial_offset a) * f (fading a t) /\ Z.abs (f (fading a t')) <= Z.abs (f (fading a t)) <= Z.abs (f (initial_offset a))) /\
  (active_duration_us a <= t - started_at a -> fading a t = OFFSET_ZERO) /\ fading a (started_at a) = initial_offset a.
Proof.
  intros Hd (Hx & Hy & Hz) Ht. set (D := active_duration_us a) in *.
  assert (forall v, in_i 64 v -> let part t := Z.quot (v * Z.max 0 (D - (t - started_at a))) D in
    0 <= v * part t /\ Z.abs (part t') <= Z.abs (part t) <= Z.abs v) as H.
  { intros v Hv. cbn zeta.
    destruct (decay_component_spec v (Z.max 0 (D - (t - started_at a))) D Hv) as (_ & Hsign & E1 & Hle); [lia|lia|].
    destruct (decay_component_spec v (Z.max 0 (D - (t' - started_at a))) D Hv) as (_ & _ & E2 & _); [lia|lia|].
    split; [done|]. split; [|done]. rewrite E1, E2. apply Z.div_le_mono; [lia|]. apply Z.mul_le_mono_nonneg_l; lia. }
  split; [|split].
  - intros f [-> | [-> | ->] ]; cbn; by apply H.
  - intros Hover. unfold fading. fold D. rewrite Z.max_l by lia. by rewrite !Z.mul_0_r, !Z.quot_0_l by lia.
  - unfold fading. fold D. rewrite Z.sub_diag, Z.sub_0_r, Z.max_r by lia. rewrite !Z.quot_mul by lia. by destruct (initial_offset a).
Qed.

Definition position_ok (q : PredictedPositionMm) : Prop := in_i 64 (predicted_x q) /\ in_i 64 (predicted_y q) /\ in_i 64 (predicted_z q).

Definition shifted (q : PredictedPositionMm) (o : PresentationOffsetMm) : PredictedPositionMm :=
  mk_predicted (predicted_x q + offset_x o) (predicted_y q + offset_y o) (predicted_z q + offset_z o).

Lemma add_offset_spec q o : add_offset q o =
  if decide (position_ok (shifted q o)) then Ok (shifted q o) else Err PresentationPositionOverflow.
Proof.
  unfold add_offset, position_ok, shifted, checked_i. cbn.
  repeat (destruct (decide (in_i 64 _)); cbn); by case_decide; naive_solver.
Qed.

Definition difference (from to : PredictedPositionMm) : PresentationOffsetMm :=
  mk_offset (predicted_x from - predicted_x to) (predicted_y from - predicted_y to) (predicted_z from - predicted_z to).

Lemma position_delta_spec from to : position_delta from to =
  if decide (offset_ok (difference from to)) then Ok (difference from to) else Err PresentationPositionOverflow.
Proof.
  unfold position_delta, offset_ok, difference, checked_i. cbn.
  repeat (destruct (decide (in_i 64 _)); cbn); by case_decide; naive_solver.
Qed.

(** What is shown at a time for a gameplay position. *)
Definition shown (r : PresentationReconciler) (q : PredictedPositionMm) (t : Z) : result PresentationError PredictedPositionMm :=
  (rendered_position r q t).2.

Lemma shown_active r q t a : active r = Some a -> presentation_ok r -> in_u 64 t -> started_at a <= t ->
  shown r q t = add_offset q (fading a t).
Proof.
  intros E Hok Ht Hge. unfold shown, rendered_position. pose proof (sample_offset_spec r t Hok Ht) as H.
  destruct (sample_offset r t) as [r' [o|e]].
  - destruct H as (-> & _). unfold offset_at. by rewrite E.
  - destruct H as (_ & a' & Ea & Hlt & _). rewrite E in Ea. injection Ea as <-. lia.
Qed.

Lemma shown_idle r q t : active r = None -> position_ok q -> shown r q t = Ok q.
Proof.
  intros E Hq. unfold shown, rendered_position, sample_offset. rewrite E. cbn. rewrite add_offset_spec. unfold shifted, OFFSET_ZERO. cbn.
  rewrite !Z.add_0_r. rewrite decide_True by done. by destruct q.
Qed.

(** A correction never makes the character jump, unless it must.  When a snapshot
    moves the predicted position, the correction depends on the distance, rounded down,
    between what was shown and the new position: up to the first threshold it is
    ignored and from the last on not hidden - the new position is shown at once -;
    between them the character is shown exactly where it was, and from then on the
    difference fades: on every axis it keeps its side and never grows, and it is gone
    when the duration of the correction has passed.  Nothing fails but a position
    outside the range of [i64], or a clock that runs backwards. *)
Theorem correction_never_jumps (r r' : PresentationReconciler) (old new : PredictedPositionMm) (now : Z)
    (decision : result PresentationError CorrectionDecision) :
  presentation_ok r -> position_ok new -> in_u 64 now -> reconcile r old new now = (r', decision) ->
  presentation_ok r' /\
  match decision with
  | Ok d => exists before, shown r old now = Ok before /\
      distance_mm d = Z.sqrt (squared_length (difference before new)) /\
      (mode d, decision_duration_us d) = correction_for r (distance_mm d) /\
      match mode d with
      | Absorb | HardSnap => forall t, shown r' new t = Ok new
      | Smooth | Rapid => shown r' new now = Ok before /\ exists a, active r' = Some a /\
          forall t, now <= t -> in_u 64 t -> shown r' new t = add_offset new (fading a t) /\
            (forall f, f = offset_x \/ f = offset_y \/ f = offset_z ->
               0 <= f (difference before new) * f (fading a t) /\ Z.abs (f (fading a t)) <= Z.abs (f (difference before new)) /\
               forall t', t <= t' -> Z.abs (f (fading a t')) <= Z.abs (f (fading a t))) /\
            (decision_duration_us d <= t - now -> fading a t = OFFSET_ZERO)
      end
  | Err e => e = PresentationPositionOverflow \/
      exists a, active r = Some a /\ now < started_at a /\ e = PresentationClock (TimeRegressed (started_at a) now)
  end.
Proof.
  intros Hok Hnew Hnow E. unfold reconcile in E. pose proof (sample_offset_spec r now Hok Hnow) as Hs.
  unfold shown at 1, rendered_position at 1.
  destruct (sample_offset r now) as [r1 [o|e]]; cbn [mbind result_bind] in E; [|destruct Hs as (-> & a & Ha & Hlt & ->);
    injection E as <- <-; split; [done|]; right; by exists a].
  destruct Hs as (-> & Hok1 & Hprof & Hsm & Hra & _). cbn [snd mbind result_bind].
  destruct (add_offset old (offset_at r now)) as [before|e] eqn:Eb; cbn [mbind result_bind] in E.
  2: { rewrite add_offset_spec in Eb. case_decide; [done|]. injection Eb as <-. injection E as <- <-. by split; [|left]. }
  rewrite position_delta_spec in E. case_decide as Hdiff; cbn [mbind result_bind] in E; [|injection E as <- <-; by split; [|left]].
  rewrite (magnitude_exact _ Hdiff) in E. cbn [mbind result_bind] in E.
  set (distance := Z.sqrt (squared_length (difference before new))) in *.
  assert (correction_for r1 distance = correction_for r distance) as Ecor by (unfold correction_for; by rewrite Hprof, Hsm, Hra).
  rewrite Ecor in E. destruct (correction_for r distance) as [m duration] eqn:Em.
  assert (add_offset new (difference before new) = Ok before) as Eback.
  { assert (shifted new (difference before new) = before) as Es.
    { destruct before, new. unfold shifted, difference. cbn. f_equal; lia. }
    rewrite add_offset_spec, Es, decide_True; [done|]. rewrite add_offset_spec in Eb. case_decide; [|done]. by injection Eb as <-. }
  assert (m = Smooth \/ m = Rapid -> r' = set_active r1 (Some (mk_active (difference before new) now duration)) ->
    decision = Ok (mk_decision m distance duration (difference before new)) -> 0 < duration < 2 ^ 64 ->
    presentation_ok r' /\ shown r' new now = Ok before /\ exists a, active r' = Some a /\
      forall t, now <= t -> in_u 64 t -> shown r' new t = add_offset new (fading a t) /\
        (forall f, f = offset_x \/ f = offset_y \/ f = offset_z ->
           0 <= f (difference before new) * f (fading a t) /\ Z.abs (f (fading a t)) <= Z.abs (f (difference before new)) /\
           forall t', t <= t' -> Z.abs (f (fading a t')) <= Z.abs (f (fading a t))) /\
        (duration <= t - now -> fading a t = OFFSET_ZERO)) as Hfade.
  { intros _ -> _ Hdur. set (a := mk_active (difference before new) now duration).
    assert (presentation_ok (set_active r1 (Some a))) as Hok'.
    { destruct Hok1. split; cbn; try done. intros a' [= <-]. split; [exact Hdur|by split]. }
    assert (forall t, now <= t -> in_u 64 t -> shown (set_active r1 (Some a)) new t = add_offset new (fading a t)) as Hshown.
    { intros t Ht Hin. by apply shown_active. }
    split; [done|]. split.
    { rewrite Hshown by (done || lia). destruct (fading_spec a now now) as (_ & _ & Hstart); [done|done|cbn; lia|].
      change now with (started_at a) at 1. rewrite Hstart. exact Eback. }
    exists a. split; [done|]. intros t Ht Hin. split; [by apply Hshown|]. split.
    - intros f Hf. destruct (fading_spec a t t) as (H & _); [done|done|cbn; lia|]. destruct (H f Hf) as [H1 [_ H2]].
      split; [exact H1|]. split; [exact H2|]. intros t' Ht'. destruct (fading_spec a t t') as (H' & _); [done|done|cbn; lia|].
      by destruct (H' f Hf) as [_ [? _]].
    - destruct (fading_spec a t t) as (_ & H & _); [done|done|cbn; lia|]. exact H. }
  assert (forall t, shown (set_active r1 None) new t = Ok new) as Hidle by (intros t; by apply shown_idle).
  assert (presentation_ok (set_active r1 None)) as Hok0 by (destruct Hok1; by split).
  assert (m = Smooth -> duration = smooth_duration_us r) as Hd1.
  { intros ->. unfold correction_for in Em. repeat case_decide; congruence. }
  assert (m = Rapid -> duration = rapid_duration_us r) as Hd2.
  { intros ->. unfold correction_for in Em. repeat case_decide; congruence. }
  destruct Hok as [Hp1 Hp2 _].
  destruct m; injection E as <- <-; cbn [mode distance_mm decision_duration_us].
  - split; [done|]. exists before. by split_goals.
  - destruct Hfade as (? & ? & ?); [by left|done|done|by rewrite Hd1|]. split; [done|]. exists before. by split_goals.
  - destruct Hfade as (? & ? & ?); [by right|done|done|by rewrite Hd2|]. split; [done|]. exists before. by split_goals.
  - split; [done|]. exists before. by split_goals.
Qed.

(** ** A profile of 4.5 metres a second at 20 ticks *)

Definition demo_profile : MovementPredictionProfile :=
  {| profile_version := 2; speed_mm_per_second := 4500; simulation_tick_hz := 20; character_radius_mm := 250;
     movement_input_timeout_ticks := 5;
     presentation_correction := {| absorb_max_mm := 25; smooth_max_mm := 250; hard_snap_threshold_mm := 1000;
                                   smooth_duration_ms := 120; rapid_duration_ms := 50 |} |}.
Definition demo_predictor : PositionalPredictor := mk_predictor demo_profile 250000.
Definition demo_presentation : PresentationReconciler :=
  mk_presentation (presentation_correction demo_profile) 120000 50000 None.

(** Three ticks east and five north, from a snapshot. *)
Definition demo_plan : ReplayPlan :=
  mk_plan 500000 400000 [mk_segment walk 100000 250000 150000; mk_segment turn_north 250000 500000 250000].

Lemma prediction_matches_server_witness :
  exists deltas r q, integrate_all (mk_rules 4500 655340 5 250) (server_inputs (segments demo_plan) [3; 5]%nat) (mk_rem 0 0) = Some (Ok (deltas, r)) /\
    predict demo_predictor (snapshot_of_v2 first_snapshot) demo_plan = Ok q /\
    predicted_x q = 112 + sum_by delta_x deltas /\ predicted_x q = 449 /\ predicted_y q = 4.
Proof.
  destruct (prediction_matches_server (mk_settings 4500 5 250) 20 (mk_rules 4500 655340 5 250) demo_profile demo_predictor
    (snapshot_of_v2 first_snapshot) demo_plan [3; 5]%nat (mk_rem 0 0)) as (deltas & r & E & H);
    [by vm_compute|by vm_compute|reflexivity|reflexivity|reflexivity|cbn; lia|reflexivity|exists 50000; reflexivity
    |by vm_compute|by vm_compute
    |constructor; [split; [reflexivity|cbn; lia]|]; constructor; [split; [reflexivity|cbn; lia]|]; constructor
    |apply list.Forall_cons; split; [by vm_compute|]; apply list.Forall_cons; split; [by vm_compute|by apply list.Forall_nil]
    |cbn; lia|split; cbn; lia|].
  exists deltas, r. destruct (predict demo_predictor (snapshot_of_v2 first_snapshot) demo_plan) as [q|e] eqn:Ep;
    [|vm_compute in Ep; discriminate Ep].
  exists q. split; [exact E|]. split; [reflexivity|]. destruct H as (_ & _ & _ & H). destruct (H eq_refl) as [Hx _].
  split; [exact Hx|]. vm_compute in Ep. injection Ep as <-. split; reflexivity.
Defined.

Lemma demo_presentation_ok : presentation_ok demo_presentation.
Proof. split; cbn; [lia|lia|done]. Qed.

(** A difference of 120 millimetres is hidden and fades. *)
Lemma correction_never_jumps_witness :
  exists r' d, reconcile demo_presentation (mk_predicted 120 0 300) (mk_predicted 0 0 300) 0 = (r', Ok d) /\ mode d = Smooth /\
    shown r' (mk_predicted 0 0 300) 0 = Ok (mk_predicted 120 0 300) /\ shown r' (mk_predicted 0 0 300) 60000 = Ok (mk_predicted 60 0 300).
Proof.
  assert (position_ok (mk_predicted 0 0 300)) as Hnew by (split; [|split]; by vm_compute).
  assert (in_u 64 0) as Hnow by by vm_compute.
  destruct (reconcile demo_presentation (mk_predicted 120 0 300) (mk_predicted 0 0 300) 0) as [r' [d|e]] eqn:E;
    [|vm_compute in E; discriminate E].
  pose proof (correction_never_jumps demo_presentation r' (mk_predicted 120 0 300) (mk_predicted 0 0 300) 0 (Ok d)
    demo_presentation_ok Hnew Hnow E) as Hc. cbn iota in Hc. destruct Hc as (_ & before & Eb & _ & _ & H).
  vm_compute in E. injection E as <- <-. vm_compute in Eb. injection Eb as <-. destruct H as [H _].
  eexists _, _. split; [reflexivity|]. split; [reflexivity|]. split; [exact H|reflexivity].
Defined.
