(* ===== verification/Client.v ===== *)
(** The protocol client ([apps/protocol-client/src/main.rs]): it introduces itself,
    takes the profile of the server's movement, sends a first movement intent and then
    follows its character through the snapshots it receives.  Every error ends the
    client. *)

From S2P Require Import Prelude Bytes Contracts Snapshots Transport Egress Ingress ClientHistory ClientPrediction.
Import Bootstrap Intents SnapshotV1.

Definition CLIENT_BUILD : Z := 3.
Definition MAX_CONTROL_FRAME_BYTES : Z := 4096.
Definition MAX_DATAGRAM_BYTES : Z := 1200.
Definition PENDING_INPUT_HISTORY_CAPACITY : Z := 256.

(** The errors that end the client. *)
Inductive ProbeError :=
| HandshakeFrame (e : FrameIoError)
| UnexpectedBootstrap (k : MessageKind)
| InvalidServerHello (e : BootstrapCodecError)
| NonceMismatch
| HandshakeRejected (code : HandshakeRejectCode)
| UnexpectedInitial (k : MessageKind)
| InvalidProfile (e : Contracts.Prediction.PredictionProfileCodecError)
| InvalidIntent (e : IntentCodecError)
| DatagramFrame (e : Datagram.DatagramFrameError)
| DatagramNotSent
| UnexpectedRealtime (k : MessageKind)
| InvalidSnapshot (e : SnapshotV2.SnapshotV2CodecError)
| ClockFailed (e : PredictionClockError)
| ReconciliationFailed (e : ReconciliationError)
| HeldFailed (e : HeldPredictionError)
| PredictionFailed (e : PredictionError)
| PresentationFailed (e : PresentationError)
| CorrectionOverflow
| CounterOverflow.

(** ** Before the game *)

Definition client_hello (nonce : list Z) : ClientHello :=
  {| ch_protocol_major := PROTOCOL_MAJOR; ch_protocol_minor := PROTOCOL_MINOR; ch_client_build := CLIENT_BUILD;
     ch_client_nonce := nonce |}.

Definition write_hello (nonce : list Z) : result ProbeError (list Z) :=
  map_err HandshakeFrame (write_single_frame KClientHello (client_hello_encode (client_hello nonce)) MAX_CONTROL_FRAME_BYTES).

(** The answer of the server on the same stream. *)
Definition accept_server_hello (nonce stream : list Z) : result ProbeError ServerHello :=
  '(k, payload, _) ← map_err HandshakeFrame (read_single_frame stream MAX_CONTROL_FRAME_BYTES);
  if decide (k <> KServerHello) then Err (UnexpectedBootstrap k)
  else
    hello ← map_err InvalidServerHello (server_hello_decode payload);
    if decide (sh_client_nonce_echo hello <> nonce) then Err NonceMismatch
    else if sh_accepted hello then Ok hello else Err (HandshakeRejected (sh_reject_code hello)).

(** The first stream the server opens. *)
Definition accept_profile (stream : list Z) : result ProbeError (PositionalPredictor * PresentationReconciler) :=
  '(k, payload, _) ← map_err HandshakeFrame (read_single_frame stream MAX_CONTROL_FRAME_BYTES);
  if decide (k <> KMovementPredictionProfile) then Err (UnexpectedInitial k)
  else
    p ← map_err InvalidProfile (Contracts.Prediction.profile_decode payload);
    predictor ← map_err PredictionFailed (predictor_new p);
    presentation ← map_err PresentationFailed (presentation_new (Contracts.Prediction.presentation_correction p));
    Ok (predictor, presentation).

(** ** The state of the client *)

(** What it counts for its report. *)
Inductive Counter :=
| SnapshotCount | AppliedCount | StaleCount | DuplicateCount | HeldExtrapolationCount
| AbsorbCount | SmoothCount | RapidCount | HardSnapCount.
#[global] Instance Counter_eq_dec : EqDecision Counter.
Proof. solve_decision. Defined.

Record Report := mk_report {
  counts : Counter -> Z;
  max_pre_replay_duration_us : Z;
  max_abs_correction_x_mm : Z;
  max_presentation_correction_distance_mm : Z
}.

Record Probe := mk_probe {
  predictor : PositionalPredictor;
  presentation_reconciler : PresentationReconciler;
  reconciler : ClientReconciler;
  held_extrapolator : HeldInputExtrapolator;
  second_intent_sent : bool;
  report : Report
}.

Definition set_histories (p : Probe) (r : ClientReconciler) (h : HeldInputExtrapolator) : Probe :=
  mk_probe (predictor p) (presentation_reconciler p) r h (second_intent_sent p) (report p).
Definition set_presentation (p : Probe) (r : PresentationReconciler) : Probe :=
  mk_probe (predictor p) r (reconciler p) (held_extrapolator p) (second_intent_sent p) (report p).
Definition set_second_sent (p : Probe) : Probe :=
  mk_probe (predictor p) (presentation_reconciler p) (reconciler p) (held_extrapolator p) true (report p).
Definition set_report (p : Probe) (r : Report) : Probe :=
  mk_probe (predictor p) (presentation_reconciler p) (reconciler p) (held_extrapolator p) (second_intent_sent p) r.

Definition count_up (c : Counter) (p : Probe) : result ProbeError Probe :=
  n ← ok_or CounterOverflow (checked_u 32 (counts (report p) c + 1));
  let r := report p in
  Ok (set_report p (mk_report (fun c' => if decide (c' = c) then n else counts r c')
        (max_pre_replay_duration_us r) (max_abs_correction_x_mm r) (max_presentation_correction_distance_mm r))).

(** ** Sending an intent *)

(** [sendable] is the answer of the connection to a datagram, [elapsed] the clock. *)
Definition send_and_record_move (sendable : list Z -> bool) (elapsed : Z) (intent : MoveIntent) (p : Probe)
  : result ProbeError (Probe * list Z) :=
  datagram ← map_err DatagramFrame
    (Datagram.encode_datagram_frame KMoveIntent (move_intent_encode intent) MAX_DATAGRAM_BYTES);
  if negb (sendable datagram) then Err DatagramNotSent
  else
    at_ ← map_err ClockFailed (clock_now elapsed);
    r ← map_err ReconciliationFailed (record_sent_input (reconciler p) intent at_);
    h ← map_err HeldFailed (held_record_sent_input (held_extrapolator p) intent);
    Ok (set_histories p r h, datagram).

(** The client once it has the profile. *)
Definition probe_start (predictor : PositionalPredictor) (presentation : PresentationReconciler) : result ProbeError Probe :=
  r ← map_err ReconciliationFailed (reconciler_new PENDING_INPUT_HISTORY_CAPACITY);
  h ← map_err HeldFailed (held_new PENDING_INPUT_HISTORY_CAPACITY);
  Ok (mk_probe predictor presentation r h false (mk_report (fun _ => 0) 0 0 0)).

Definition send_first (sendable : list Z -> bool) (elapsed : Z) (p : Probe) : result ProbeError (Probe * list Z) :=
  intent ← map_err InvalidIntent (move_intent_new 1 16384 0);
  send_and_record_move sendable elapsed intent p.

(** ** Snapshots *)

Definition gameplay_position (p : PositionalPredictor) (baseline : SelfMovementSnapshot) (replay : ReplayPlan)
  : result PredictionError PredictedPositionMm :=
  if decide (segments replay = []) then Ok (mk_predicted (x_mm baseline) (y_mm baseline) (z_mm baseline))
  else predict p baseline replay.

Definition correction_x (predicted : option PredictedPositionMm) (authoritative : SelfMovementSnapshot) : result ProbeError Z :=
  match predicted with
  | None => Ok 0
  | Some p => ok_or CorrectionOverflow (checked_i 64 (x_mm authoritative - predicted_x p))
  end.

Definition decode_snapshot (datagram : list Z) : result ProbeError SnapshotV2.SelfMovementSnapshotV2 :=
  '(k, payload) ← map_err DatagramFrame (Datagram.decode_datagram_frame datagram MAX_DATAGRAM_BYTES);
  if decide (k <> KSelfMovementSnapshotV2) then Err (UnexpectedRealtime k)
  else map_err InvalidSnapshot (SnapshotV2.decode_wire payload).

(** The replay of the pending inputs, and with the held input before them. *)
Definition replay (p : Probe) (now : Z) : result ProbeError (ReplayPlan * ReplayPlan) :=
  pending ← map_err ReconciliationFailed (replay_plan (reconciler p) now);
  full ← map_err HeldFailed (augment_replay_plan (held_extrapolator p) pending now);
  Ok (pending, full).

Definition counter_of (m : CorrectionMode) : Counter :=
  match m with Absorb => AbsorbCount | Smooth => SmoothCount | Rapid => RapidCount | HardSnap => HardSnapCount end.

(** The correction of what is shown, when there was a prediction before. *)
Definition correct_presentation (old : option PredictedPositionMm) (new : PredictedPositionMm) (now : Z) (p : Probe)
  : result ProbeError Probe :=
  match old with
  | None => Ok p
  | Some old =>
      let '(r, decision) := reconcile (presentation_reconciler p) old new now in
      d ← map_err PresentationFailed decision;
      let p := set_presentation p r in
      count_up (counter_of (mode d)) (set_report p (mk_report (counts (report p)) (max_pre_replay_duration_us (report p))
        (max_abs_correction_x_mm (report p)) (Z.max (max_presentation_correction_distance_mm (report p)) (distance_mm d))))
  end.

(** The second intent, once the first is confirmed. *)
Definition send_second (sendable : list Z -> bool) (elapsed : Z) (confirmed : option Z) (p : Probe)
  : result ProbeError (Probe * list (list Z)) :=
  if negb (second_intent_sent p) && bool_decide (confirmed = Some 1) then
    match move_intent_new 2 0 127 with
    | Ok intent =>
        '(p, datagram) ← send_and_record_move sendable elapsed intent p;
        Ok (set_second_sent p, [datagram])
    | Err _ => Ok (p, [])
    end
  else Ok (p, []).

(** The branch of a snapshot that is applied. *)
Definition snapshot_applied (sendable : list Z -> bool) (now elapsed : Z) (old : option PredictedPositionMm)
  (snapshot_v2 : SnapshotV2.SelfMovementSnapshotV2) (snapshot : SelfMovementSnapshot) (p : Probe)
  : result ProbeError (Probe * list (list Z)) :=
  h ← map_err HeldFailed (apply_authoritative_snapshot (held_extrapolator p) snapshot_v2 now);
  p ← count_up AppliedCount (set_histories p (reconciler p) h);
  '(_, post) ← replay p now;
  new ← map_err PredictionFailed (gameplay_position (predictor p) snapshot post);
  cx ← correction_x old snapshot;
  let r := report p in
  let p := set_report p (mk_report (counts r) (max_pre_replay_duration_us r) (Z.max (max_abs_correction_x_mm r) (Z.abs cx))
             (max_presentation_correction_distance_mm r)) in
  p ← correct_presentation old new now p;
  let '(presentation, rendered) := rendered_position (presentation_reconciler p) new now in
  _ ← map_err PresentationFailed rendered;
  send_second sendable elapsed (sequence snapshot) (set_presentation p presentation).

(** One round of the loop.  [last_authoritative] is the local variable that is declared
    with [None] before the loop. *)
Definition receive_snapshot (sendable : list Z -> bool) (last_authoritative : option SelfMovementSnapshot) (elapsed elapsed' : Z)
  (datagram : list Z) (p : Probe) : result ProbeError (Probe * list (list Z)) :=
  snapshot_v2 ← decode_snapshot datagram;
  let snapshot := snapshot_of_v2 snapshot_v2 in
  p ← count_up SnapshotCount p;
  received_at ← map_err ClockFailed (clock_now elapsed);
  '(pending, pre) ← replay p received_at;
  let r := report p in
  let p := set_report p (mk_report (counts r) (Z.max (max_pre_replay_duration_us r) (total_duration_us pre))
             (max_abs_correction_x_mm r) (max_presentation_correction_distance_mm r)) in
  p ← (if decide (length (segments pending) < length (segments pre))%nat then count_up HeldExtrapolationCount p else Ok p);
  old ← match last_authoritative with
        | None => Ok None
        | Some baseline => position ← map_err PredictionFailed (gameplay_position (predictor p) baseline pre); Ok (Some position)
        end;
  '(rec, outcome) ← map_err ReconciliationFailed (apply_snapshot (reconciler p) snapshot);
  let p := set_histories p rec (held_extrapolator p) in
  match outcome with
  | Applied a => snapshot_applied sendable received_at elapsed' old snapshot_v2 (applied_snapshot a) p
  | IgnoredStale _ _ => p ← count_up StaleCount p; Ok (p, [])
  | IgnoredDuplicate _ => p ← count_up DuplicateCount p; Ok (p, [])
  end.

(** The loop of [main]: the variable is never assigned again. *)
Definition observe_snapshot (sendable : list Z -> bool) : Z -> Z -> list Z -> Probe -> result ProbeError (Probe * list (list Z)) :=
  receive_snapshot sendable None.

(** ** The handshake, from both sides *)

(** A frame that was written is read under any limit it fits. *)
Lemma read_written_fitting k payload m m' bytes rest : write_single_frame k payload m = Ok bytes -> len payload <= m' ->
  read_single_frame (bytes ++ rest) m' = Ok (k, payload, rest).
Proof. intros (Hu & _ & ->)%write_single_frame_Ok Hm. apply (read_written k payload m'). by apply write_single_frame_Ok. Qed.

Lemma length_client_hello h : length (ch_client_nonce h) = 16%nat -> len (client_hello_encode h) = 24.
Proof. intros H. unfold len, client_hello_encode. rewrite !length_app, !length_to_be, H. done. Qed.

Lemma decoded_length h : server_hello_decode (server_hello_encode h) = Ok h -> len (server_hello_encode h) = 62.
Proof.
  unfold server_hello_decode. destruct (decide (length (server_hello_encode h) <> SERVER_HELLO_BYTES)) as [|Hl]; [done|].
  intros _. apply dec_stable in Hl. unfold len. by rewrite Hl.
Qed.

Lemma profile_length p : len (Contracts.Prediction.profile_encode p) = 44.
Proof. unfold len, Contracts.Prediction.profile_encode. rewrite !length_app, !length_to_le. done. Qed.

Lemma written k payload m : in_u 16 (len payload) -> len payload <= m -> exists bytes, write_single_frame k payload m = Ok bytes.
Proof. intros Hu Hm. eexists. by apply write_single_frame_Ok. Qed.

(** C30: the client and the server understand each other.  For any nonces and any
    server whose frames hold the handshake: the server reads the hello the client
    writes; if identifiers are left it answers, and the client takes the answer as it
    was written exactly if the server accepts builds as old as this client - agreed on
    the newest minor version of both -, and otherwise learns that it is too old.  The
    profile of the server's movement then arrives as it is, and gives the client its
    predictor and its corrections, provided the lifetime of an input is at least a
    microsecond and fits. *)
Theorem client_meets_server (s : QuicServerSettings) (nonce server_nonce : list Z) (cid counter : Z)
    (p : Contracts.Prediction.MovementPredictionProfile) :
  0 < cid < 2 ^ 64 -> 0 < counter < 2 ^ 64 - 1 -> in_u 64 (universe_id s) -> 62 <= max_control_frame_bytes s ->
  length nonce = 16%nat -> are_bytes nonce -> length server_nonce = 16%nat -> Contracts.Prediction.profile_ok p ->
  1 <= Contracts.Prediction.movement_input_timeout_ticks p * 1000000 / Contracts.Prediction.simulation_tick_hz p ->
  Contracts.Prediction.movement_input_timeout_ticks p * 1000000 < 2 ^ 64 ->
  exists hello answer counter' frame profile_frame,
    write_hello nonce = Ok hello /\ (forall rest, receive_hello s (hello ++ rest) = Ok (client_hello nonce)) /\
    answer_hello s cid counter server_nonce (client_hello nonce) = Ok (answer, counter') /\
    write_single_frame KServerHello (server_hello_encode answer) (max_control_frame_bytes s) = Ok frame /\
    (forall rest, accept_server_hello nonce (frame ++ rest) =
       if decide (minimum_client_build s <= CLIENT_BUILD) then Ok answer else Err (HandshakeRejected ClientBuildTooOld)) /\
    (minimum_client_build s <= CLIENT_BUILD -> sh_protocol_minor answer = PROTOCOL_MINOR /\ sh_session_id answer = counter) /\
    write_single_frame KMovementPredictionProfile (Contracts.Prediction.profile_encode p) (max_control_frame_bytes s) = Ok profile_frame /\
    (forall rest, exists predictor presentation, accept_profile (profile_frame ++ rest) = Ok (predictor, presentation) /\
       profile predictor = p /\ presentation_ok presentation /\ active presentation = None).
Proof.
  intros Hcid Hcounter Huni Hmax Hnonce Hbytes Hsn Hp Hlife Hfit.
  assert (client_hello_ok (client_hello nonce)) as Hok by (repeat split; try done; vm_compute; congruence).
  pose proof (length_client_hello (client_hello nonce) Hnonce) as Hlen.
  destruct (written KClientHello (client_hello_encode (client_hello nonce)) MAX_CONTROL_FRAME_BYTES) as [hello Ehello];
    [rewrite Hlen; split; lia|rewrite Hlen; done|].
  assert (write_single_frame KClientHello (client_hello_encode (client_hello nonce)) (max_control_frame_bytes s) = Ok hello) as Eserver.
  { apply write_single_frame_Ok in Ehello as (Hu & _ & ->). apply write_single_frame_Ok. split_goals; (done || lia). }
  pose proof (answer_hello_spec s cid counter server_nonce (client_hello nonce) Hcid ltac:(lia) Huni Hsn Hok) as Hans.
  destruct (answer_hello s cid counter server_nonce (client_hello nonce)) as [[answer counter']|e] eqn:Eans;
    [|destruct Hans as (_ & _ & ->); lia].
  destruct Hans as (Hacc & Hcase & Hid & Hecho & Hdec). pose proof (decoded_length _ Hdec) as Hlen'.
  destruct (written KServerHello (server_hello_encode answer) (max_control_frame_bytes s)) as [frame Eframe];
    [rewrite Hlen'; split; lia|lia|].
  destruct (written KMovementPredictionProfile (Contracts.Prediction.profile_encode p) (max_control_frame_bytes s)) as [pframe Epframe];
    [rewrite profile_length; split; lia|rewrite profile_length; lia|].
  assert (compatible s (client_hello nonce) <-> minimum_client_build s <= CLIENT_BUILD) as Hcompat.
  { unfold compatible. cbn. split; [intros (_ & _ & ?); done|intros ?; split_goals; (done || lia)]. }
  exists hello, answer, counter', frame, pframe. split_goals; try done.
  - unfold write_hello. by rewrite Ehello.
  - intros rest. by apply receive_hello_written.
  - intros rest. unfold accept_server_hello. rewrite (read_written_fitting _ _ _ MAX_CONTROL_FRAME_BYTES _ rest Eframe) by (rewrite Hlen'; done).
    cbn [map_err mbind result_bind]. rewrite decide_False by naive_solver. rewrite Hdec. cbn [map_err mbind result_bind].
    rewrite decide_False by (rewrite Hecho; naive_solver). rewrite Hcompat in Hacc. case_decide as Hb.
    + by rewrite (proj2 Hacc Hb).
    + destruct (sh_accepted answer) eqn:Ea; [by destruct Hb; apply Hacc|]. do 2 f_equal.
      unfold answer_hello in Eans. assert (reject_code s (client_hello nonce) = ClientBuildTooOld) as Er.
      { unfold reject_code.
        assert (negotiate_protocol_minor (ch_protocol_major (client_hello nonce)) (ch_protocol_minor (client_hello nonce))
          PROTOCOL_MAJOR PROTOCOL_MINOR = Some PROTOCOL_MINOR) as -> by reflexivity.
        rewrite decide_True; [done|]. cbn [ch_client_build client_hello]. lia. }
      rewrite Er in Eans. cbn in Eans. by injection Eans as <- <-.
  - intros Hb. rewrite (proj2 Hacc (proj2 Hcompat Hb)) in Hcase. destruct Hcase as (_ & Hs & _ & Hm). done.
  - intros rest. unfold accept_profile. rewrite (read_written_fitting _ _ _ MAX_CONTROL_FRAME_BYTES _ rest Epframe) by (rewrite profile_length; done).
    cbn [map_err mbind result_bind]. rewrite decide_False by naive_solver. rewrite (decode_encode (enc := Contracts.Prediction.profile_encode)) by done.
    cbn [map_err mbind result_bind]. unfold predictor_new, MICROS_PER_SECOND. destruct Hp as [Hf Hv].
    destruct Hf as (_ & _ & _ & _ & Hto & _ & _ & _ & Hsd & Hrd). apply Contracts.Prediction.profile_validate_Ok in Hv as Hv'.
    destruct (presentation_new_ok (Contracts.Prediction.presentation_correction p) Hsd Hrd) as (r & Er & Hr & _ & Ha & _).
    { unfold Contracts.Prediction.profile_validate in Hv. by repeat (case_decide; [done|]). }
    rewrite checked_u_in by (unfold in_u in *; lia). cbn [ok_or mbind result_bind map_err]. rewrite decide_False by lia.
    cbn [mbind result_bind map_err]. rewrite Er. cbn. eexists _, r. by split_goals.
Qed.

(** A server for builds from the second on takes this client. *)
Definition demo_nonce : list Z := replicate 16 7.

Lemma client_meets_server_witness : exists hello answer frame,
  write_hello demo_nonce = Ok hello /\
  receive_hello quic_settings hello = Ok (client_hello demo_nonce) /\
  accept_server_hello demo_nonce frame = Ok answer /\ sh_session_id answer = 41.
Proof.
  assert (Contracts.Prediction.profile_ok demo_profile) as Hp by (split; [repeat split; vm_compute; congruence|vm_compute; reflexivity]).
  assert (are_bytes demo_nonce) as Hb by (apply Forall_replicate; split; vm_compute; congruence).
  destruct (client_meets_server quic_settings demo_nonce (replicate 16 9) 5 41 demo_profile) as
    (hello & answer & counter & frame & pframe & Ehello & Hrecv & _ & _ & Hacc & Hid & _); try lia; try done.
  specialize (Hrecv []). specialize (Hacc []). rewrite app_nil_r in Hrecv, Hacc. rewrite decide_True in Hacc by (vm_compute; congruence).
  exists hello, answer, frame. split; [exact Ehello|]. split; [exact Hrecv|]. split; [exact Hacc|].
  apply Hid. vm_compute. congruence.
Defined.
