(* ===== verification/ClientRun.v ===== *)
(** The rounds of the protocol client ([apps/protocol-client/src/main.rs]): what holds of
    its state, and that a snapshot of a server it can follow never makes it fail. *)

From S2P Require Import Prelude Bytes Core Contracts Snapshots Transport Items Bags Movement Traversal Ecs Zone ZoneMovement ZoneInventory ZoneSafety ZoneCorrect Router ClientHistory ClientPrediction Client.
Import World Intents SnapshotV1.

(** ** What holds of the client *)

Definition first_intent : MoveIntent := {| mv_sequence := 1; mv_axis_x := 16384; mv_axis_y := 0 |}.
Definition second_intent : MoveIntent := {| mv_sequence := 2; mv_axis_x := 0; mv_axis_y := 127 |}.

(** The inputs of a client are the first, and from some time on the second. *)
Definition inputs_of (second : bool) (sent : list TimedPendingInput) : Prop :=
  if second then exists t1 t2, sent = [mk_timed first_intent t1; mk_timed second_intent t2]
  else exists t1, sent = [mk_timed first_intent t1].

(** After [k] snapshots, and those in [done] counted once more. *)
Definition counted (k : Z) (done : list Counter) (p : Probe) : Prop :=
  forall c, 0 <= counts (report p) c <= k + (if decide (c ∈ done) then 1 else 0).

Record probe_inv (sent : list TimedPendingInput) (k now : Z) (p : Probe) : Prop := {
  pi_history : client_history PENDING_INPUT_HISTORY_CAPACITY sent (reconciler p) (held_extrapolator p);
  pi_inputs : inputs_of (second_intent_sent p) sent;
  pi_sent : Forall (fun t => sent_at t <= now) sent;
  pi_baseline : forall b, baseline_received_at (held_extrapolator p) = Some b -> b <= now;
  pi_idle : active (presentation_reconciler p) = None;
  pi_speed : in_u 32 (Contracts.Prediction.speed_mm_per_second (profile (predictor p)));
  pi_lifetime : 0 <= max_input_lifetime_us (predictor p) <= 2 ^ 47;
  pi_counts : counted k [] p;
  pi_now : in_u 64 now
}.

Lemma inputs_ok second sent : inputs_of second sent ->
  Forall (fun t => move_intent_ok (timed_intent t) /\ mv_axis_x (timed_intent t) + mv_axis_y (timed_intent t) <> 0) sent /\
  sent <> [] /\ (length sent <= 2)%nat.
Proof.
  assert (move_intent_ok first_intent) as H1 by (split; [by vm_compute|split; split; vm_compute; congruence]).
  assert (move_intent_ok second_intent) as H2 by (split; [by vm_compute|split; split; vm_compute; congruence]).
  destruct second; cbn; [intros (t1 & t2 & ->)|intros (t1 & ->)]; (split; [|split; [done|cbn; lia]]);
    repeat (apply list.Forall_cons; split; [by split|]); by apply list.Forall_nil.
Qed.

(** What a snapshot must be for the client to take it. *)
Record acceptable (sent : list TimedPendingInput) (last : option SelfMovementSnapshot) (s : SnapshotV2.SelfMovementSnapshotV2) : Prop := {
  ac_active : SnapshotV2.active_movement_sequence s = SnapshotV2.last_processed_input_sequence s;
  ac_sent : forall q, SnapshotV2.last_processed_input_sequence s = Some q -> exists t, t ∈ sent /\ seq_of t = q;
  ac_same : forall l, last = Some l -> server_tick l = SnapshotV2.server_tick s -> l = snapshot_of_v2 s;
  ac_later : forall l, last = Some l -> server_tick l < SnapshotV2.server_tick s ->
    forall a, sequence l = Some a -> exists b, SnapshotV2.last_processed_input_sequence s = Some b /\ a <= b;
  ac_x : Z.abs (SnapshotV2.x_mm s) <= 2 ^ 62;
  ac_y : Z.abs (SnapshotV2.y_mm s) <= 2 ^ 62;
  ac_z : in_i 64 (SnapshotV2.z_mm s)
}.

(** ** The steps of its handler *)

Lemma bump_ok c k done p : counted k done p -> c ∉ done -> k < 2 ^ 32 - 1 ->
  exists p', count_up c p = Ok p' /\ predictor p' = predictor p /\ presentation_reconciler p' = presentation_reconciler p /\
    reconciler p' = reconciler p /\ held_extrapolator p' = held_extrapolator p /\ second_intent_sent p' = second_intent_sent p /\
    counted k (c :: done) p'.
Proof.
  intros H Hc Hk. pose proof (H c) as Hb. rewrite decide_False in Hb by done. unfold count_up.
  rewrite checked_u_in by (unfold in_u; lia). cbn. eexists. split; [done|]. cbn. split_goals; try done.
  intros c'. cbn. destruct (decide (c' = c)) as [->|Hne].
  - rewrite decide_True by (left; done). lia.
  - specialize (H c'). destruct (decide (c' ∈ done)).
    + rewrite decide_True by (by right). lia.
    + rewrite decide_False by (rewrite elem_of_cons; naive_solver). lia.
Qed.

(** A movement intent fits into a datagram. *)
Lemma move_datagram : Datagram.encode_datagram_frame Bootstrap.KMoveIntent (move_intent_encode second_intent) MAX_DATAGRAM_BYTES =
  Ok (Bootstrap.header_encode {| Bootstrap.kind := Bootstrap.KMoveIntent; Bootstrap.payload_len := 12 |} ++ move_intent_encode second_intent).
Proof. vm_compute. reflexivity. Qed.

(** The client's own view of time. *)
Lemma clock_now_ok t : in_u 64 t -> clock_now t = Ok t.
Proof. intros H. unfold clock_now. by rewrite checked_u_in. Qed.

Lemma covers_durations l : forall from until, covers from until l -> Forall (fun s => 0 <= duration_us s) l.
Proof. induction l as [|s l IH]; cbn; intros from until H; [constructor|]. destruct H as (? & ? & ? & H). constructor; [lia|by eapply IH]. Qed.

(** The replays succeed, and only contain inputs the client has sent. *)
Lemma replay_ok sent now t p : client_history PENDING_INPUT_HISTORY_CAPACITY sent (reconciler p) (held_extrapolator p) ->
  Forall (fun t => sent_at t <= now) sent -> (forall b, baseline_received_at (held_extrapolator p) = Some b -> b <= t) ->
  now <= t -> in_u 64 t -> (length sent <= 2)%nat -> Forall (fun t => move_intent_ok (timed_intent t)) sent ->
  exists pending full, replay p t = Ok (pending, full) /\
    Forall (fun s => move_intent_ok (segment_intent s) /\ 0 <= duration_us s) (segments full) /\ (length (segments full) <= 3)%nat.
Proof.
  intros Hh Hsent Hbase Hnow Ht Hlen Hok.
  destruct (replay_total PENDING_INPUT_HISTORY_CAPACITY t sent (reconciler p) (held_extrapolator p)) as
    (_ & _ & pending & full & from & E1 & E2 & Hp & Hfull & _ & Hc & _); [done|done| |done|done|].
  { eapply list.Forall_impl; [exact Hsent|]. cbn. lia. }
  exists pending, full. unfold replay. rewrite E1. cbn [map_err mbind result_bind]. rewrite E2. split; [done|].
  apply covers_durations in Hc. pose proof (client_history_ok PENDING_INPUT_HISTORY_CAPACITY _ _ _ ltac:(done) Hh) as Hinv.
  set (waiting := unprocessed (last_snapshot (reconciler p) ≫= sequence) sent) in *.
  assert (forall i, i ∈ map timed_intent sent -> move_intent_ok i) as Hi.
  { intros i (x & -> & Hx)%list_elem_of_fmap. by eapply list.Forall_forall in Hok. }
  assert (Forall (fun s => move_intent_ok (segment_intent s)) (segments pending) /\ (length (segments pending) <= 2)%nat) as [Hpend Hlenp].
  { split.
    - apply list.Forall_forall. intros s Hs.
      assert (segment_intent s ∈ map timed_intent waiting) as Hin by (rewrite <- Hp; by apply list_elem_of_fmap_2).
      apply list_elem_of_fmap in Hin as (x & -> & Hx). apply Hi, list_elem_of_fmap_2.
      unfold waiting in Hx. destruct (_ ≫= sequence); [by apply list_elem_of_filter in Hx as [_ ?]|done].
    - rewrite <- (length_map segment_intent), Hp, length_map. etrans; [|exact Hlen]. unfold waiting.
      destruct (_ ≫= sequence); [apply length_filter|done]. }
  destruct Hfull as [E|(s & E & Ha & _)]; rewrite E in *.
  - split; [|lia]. by apply Forall_and.
  - apply list.Forall_cons in Hc as [Hd Hc]. split; [|cbn; lia]. apply list.Forall_cons. split; [|by apply Forall_and].
    split; [|done]. apply Hi. by apply (ho_active _ _ _ _ Hinv).
Qed.

(** A snapshot that is acceptable is taken, or ignored. *)
Lemma apply_acceptable sent r h s t : histories_ok PENDING_INPUT_HISTORY_CAPACITY sent r h -> acceptable sent (last_snapshot r) s ->
  Forall (fun t => mv_axis_x (timed_intent t) + mv_axis_y (timed_intent t) <> 0) sent ->
  exists r' o, apply_snapshot r (snapshot_of_v2 s) = Ok (r', o) /\
    match o with
    | Applied a => applied_snapshot a = snapshot_of_v2 s /\ last_snapshot r' = Some (snapshot_of_v2 s) /\
        (forall l, last_snapshot r = Some l -> server_tick l < SnapshotV2.server_tick s) /\
        exists h', apply_authoritative_snapshot h s t = Ok h' /\ baseline_received_at h' = Some t
    | _ => r' = r /\ exists l, last_snapshot r = Some l /\ SnapshotV2.server_tick s <= server_tick l
    end.
Proof.
  intros Hinv [Hact Hsent Hsame Hlater _ _ _] Hne.
  assert ((forall l, last_snapshot r = Some l -> server_tick l < SnapshotV2.server_tick s) ->
    check_ack r (sequence (snapshot_of_v2 s)) = Ok tt /\
    exists h', apply_authoritative_snapshot h s t = Ok h' /\ baseline_received_at h' = Some t) as Happly.
  { intros Hnew. assert (forall a, last_processed r = Some a -> exists b, SnapshotV2.last_processed_input_sequence s = Some b /\ a <= b) as Hack.
    { intros a Ha. rewrite (ho_ack _ _ _ _ Hinv) in Ha. destruct (last_snapshot r) as [l|]; [|done]. eapply Hlater; eauto. }
    split.
    - unfold check_ack. cbn [sequence snapshot_of_v2]. destruct (last_processed r) as [a|].
      + destruct (Hack a eq_refl) as (b & Eb & Hle). rewrite Eb. rewrite decide_False by lia. cbn.
        destruct (Hsent b Eb) as (x & Hx & Ex). destruct (highest_sent_sequence r) as [q|] eqn:Eh; [|done].
        rewrite (ho_highest _ _ _ _ Hinv) in Eh. apply fmap_Some in Eh as (y & Ey & ->).
        destruct (last_is_latest _ _ (ho_sorted _ _ _ _ Hinv) Ey x Hx) as [? _]. by rewrite decide_False by lia.
      + cbn. destruct (SnapshotV2.last_processed_input_sequence s) as [b|] eqn:Eb; [|done].
        destruct (Hsent b eq_refl) as (x & Hx & Ex). destruct (highest_sent_sequence r) as [q|] eqn:Eh; [|done].
        rewrite (ho_highest _ _ _ _ Hinv) in Eh. apply fmap_Some in Eh as (y & Ey & ->).
        destruct (last_is_latest _ _ (ho_sorted _ _ _ _ Hinv) Ey x Hx) as [? _]. by rewrite decide_False by lia.
    - unfold apply_authoritative_snapshot, resolve_active. rewrite Hact.
      destruct (SnapshotV2.last_processed_input_sequence s) as [q|] eqn:Eq; [|by eexists].
      rewrite decide_False by naive_solver. destruct (Hsent q eq_refl) as (x & Hx & Ex).
      assert (timed_intent x ∈ sent_inputs h) as Hin.
      { rewrite (ho_held _ _ _ _ Hinv). assert (timed_intent x ∈ map timed_intent sent) as Hm by (by apply list_elem_of_fmap_2).
        destruct (last_processed r) as [a|]; [|done]. destruct (Hack a eq_refl) as (b & [= <-] & Hle). cbn.
        apply list_elem_of_filter. split; [|done]. unfold seq_of in Ex. lia. }
      destruct (list_find_elem_of (fun i => mv_sequence i = q) (sent_inputs h) (timed_intent x) Hin Ex) as [[k y] Ef].
      rewrite Ef. cbn. apply list_find_Some in Ef as (Hy & _ & _). apply list_elem_of_lookup_2 in Hy.
      rewrite decide_False; [by eexists|]. intros [Hzx Hzy].
      assert (y ∈ map timed_intent sent) as (z & -> & Hz)%list_elem_of_fmap.
      { rewrite (ho_held _ _ _ _ Hinv) in Hy. destruct (last_processed r); [by apply list_elem_of_filter in Hy as [_ ?]|done]. }
      eapply list.Forall_forall in Hne; [|exact Hz]. cbn in Hne. lia. }
  unfold apply_snapshot. destruct (last_snapshot r) as [l|] eqn:El.
  - cbn [server_tick snapshot_of_v2]. case_decide as Hlt.
    { eexists _, _. split; [done|]. split; [done|]. exists l. split; [done|]. lia. }
    case_decide as Heq.
    + rewrite decide_False.
      { eexists _, _. split; [done|]. split; [done|]. exists l. split; [done|]. lia. }
      intros Hd. by apply Hd, eq_sym, Hsame.
    + destruct Happly as [-> Hh]; [intros l' [= <-]; lia|]. cbn [mbind result_bind]. eexists _, _. split; [done|]. split; [done|]. split; [done|]. split; [|done]. intros l0 [= <-]. lia.
  - destruct Happly as [-> Hh]; [done|]. cbn [mbind result_bind]. eexists _, _. split; [done|]. by split_goals.
Qed.

(** What is on the network of an intent. *)
Definition intent_datagram (i : MoveIntent) (d : list Z) : Prop :=
  Datagram.encode_datagram_frame Bootstrap.KMoveIntent (move_intent_encode i) MAX_DATAGRAM_BYTES = Ok d.

(** The second intent went out, or not: what the client has sent since. *)
Record sending (sent sent' : list TimedPendingInput) (ds : list (list Z)) (t' : Z) (p p' : Probe) : Prop := {
  se_history : client_history PENDING_INPUT_HISTORY_CAPACITY sent' (reconciler p') (held_extrapolator p');
  se_inputs : inputs_of (second_intent_sent p') sent';
  se_more : forall x, x ∈ sent -> x ∈ sent';
  se_times : Forall (fun x => sent_at x <= t') sent';
  se_predictor : predictor p' = predictor p;
  se_snapshot : last_snapshot (reconciler p') = last_snapshot (reconciler p);
  se_datagrams : forall d, d ∈ ds -> exists x, x ∈ sent' /\ intent_datagram (timed_intent x) d
}.

(** The second intent goes out, and is remembered. *)
Lemma send_second_ok sendable sent t t' confirmed p : client_history PENDING_INPUT_HISTORY_CAPACITY sent (reconciler p) (held_extrapolator p) ->
  inputs_of (second_intent_sent p) sent -> Forall (fun x => sent_at x <= t) sent -> t <= t' -> in_u 64 t' ->
  (forall d, sendable d = true) ->
  exists p' ds sent', send_second sendable t' confirmed p = Ok (p', ds) /\ sending sent sent' ds t' p p' /\
    presentation_reconciler p' = presentation_reconciler p /\ report p' = report p /\
    baseline_received_at (held_extrapolator p') = baseline_received_at (held_extrapolator p).
Proof.
  intros Hh Hin Hsent Hle Ht' Hsend. assert (Forall (fun x => sent_at x <= t') sent) as Hsent'.
  { eapply list.Forall_impl; [exact Hsent|]. cbn. lia. }
  unfold send_second. destruct (negb (second_intent_sent p) && bool_decide (confirmed = Some 1)) eqn:E.
  2: { exists p, [], sent. split_goals; try done. split; try done. by intros d []%not_elem_of_nil. }
  apply andb_true_iff in E as [E _]. apply negb_true_iff in E. rewrite E in Hin. destruct Hin as [t1 ->].
  assert (move_intent_new 2 0 127 = Ok second_intent) as -> by reflexivity.
  pose proof (client_history_ok PENDING_INPUT_HISTORY_CAPACITY _ _ _ ltac:(done) Hh) as Hinv.
  assert (exists r', record_sent_input (reconciler p) second_intent t' = Ok r' /\ last_snapshot r' = last_snapshot (reconciler p)) as (r' & Er & Elast).
  { unfold record_sent_input. destruct (ho_room _ _ _ _ Hinv) as [Hcap _]. rewrite Hcap, decide_False.
    - rewrite (ho_highest _ _ _ _ Hinv), (ho_last_at _ _ _ _ Hinv). cbn. apply list.Forall_cons in Hsent' as [Ht1 _]. cbn in Ht1.
      rewrite (decide_False (P := 2 <= 1)) by lia. cbn. rewrite decide_False by lia. by eexists.
    - rewrite (ho_pending _ _ _ _ Hinv). unfold PENDING_INPUT_HISTORY_CAPACITY. destruct (last_processed (reconciler p)); cbn; [case_decide; cbn|]; lia. }
  assert (exists h', held_record_sent_input (held_extrapolator p) second_intent = Ok h' /\
    baseline_received_at h' = baseline_received_at (held_extrapolator p)) as (h' & Eh & Ebase).
  { unfold held_record_sent_input. rewrite (ho_held_room _ _ _ _ Hinv), (ho_held _ _ _ _ Hinv).
    assert (not_before (last_processed (reconciler p)) [first_intent] = [] \/
            not_before (last_processed (reconciler p)) [first_intent] = [first_intent]) as H01.
    { destruct (last_processed (reconciler p)); cbn; [case_decide|]; auto. }
    cbn [map timed_intent]. destruct H01 as [-> | ->]; cbn; [|rewrite (decide_False (P := 2 <= 1)) by lia; cbn];
      (rewrite decide_False; [by eexists|]); unfold PENDING_INPUT_HISTORY_CAPACITY; lia. }
  unfold send_and_record_move. rewrite move_datagram. cbn [map_err mbind result_bind]. rewrite Hsend. cbn [negb].
  rewrite clock_now_ok by done. cbn [map_err mbind result_bind]. rewrite Er. cbn [map_err mbind result_bind]. rewrite Eh. cbn.
  eexists _, _, ([mk_timed first_intent t1] ++ [mk_timed second_intent t']). split; [done|]. cbn. split_goals; try done.
  split; cbn; try done.
  - by eapply (history_sent _ [mk_timed first_intent t1]).
  - by exists t1, t'.
  - intros x Hx. set_solver.
  - apply list.Forall_cons in Hsent' as [? _]. repeat (apply list.Forall_cons; split; [cbn in *; lia|]). by apply list.Forall_nil.
  - intros d ->%list_elem_of_singleton. exists (mk_timed second_intent t'). split; [set_solver|]. apply move_datagram.
Qed.

Lemma counted_all k counters p : counted k counters p -> counted (k + 1) [] p.
Proof. intros H c. specialize (H c). destruct (decide (c ∈ counters)), (decide (c ∈ [])); lia. Qed.

Lemma rendered_idle r q t : active r = None -> position_ok q -> rendered_position r q t = (r, Ok q).
Proof.
  intros E Hq. pose proof (shown_idle r q t E Hq) as H. unfold shown, rendered_position, sample_offset in *. rewrite E in *.
  cbn in *. by rewrite H.
Qed.

Lemma gameplay_ok pr s plan : in_u 32 (Contracts.Prediction.speed_mm_per_second (profile pr)) -> 0 <= max_input_lifetime_us pr <= 2 ^ 47 ->
  Forall (fun s => move_intent_ok (segment_intent s) /\ 0 <= duration_us s) (segments plan) -> (length (segments plan) <= 3)%nat ->
  Z.abs (x_mm s) <= 2 ^ 62 -> Z.abs (y_mm s) <= 2 ^ 62 -> in_i 64 (z_mm s) ->
  exists q, gameplay_position pr s plan = Ok q /\ position_ok q.
Proof.
  intros Hs Hl Hsegs Hlen Hx Hy Hz. unfold gameplay_position. case_decide.
  - eexists. split; [done|]. unfold position_ok, in_i in *. cbn. split_goals; (done || lia).
  - destruct (predict_total pr s plan Hs Hl Hsegs Hlen Hx Hy) as (q & E & ? & ? & Hqz). exists q. split; [done|].
    split; [done|]. split; [done|]. by rewrite Hqz.
Qed.

(** A snapshot that was taken: the rest of its handler. *)
Lemma snapshot_applied_ok sendable sent k counters t t' s h' p :
  client_history PENDING_INPUT_HISTORY_CAPACITY sent (reconciler p) h' ->
  apply_authoritative_snapshot (held_extrapolator p) s t = Ok h' -> baseline_received_at h' = Some t ->
  inputs_of (second_intent_sent p) sent -> Forall (fun x => sent_at x <= t) sent -> active (presentation_reconciler p) = None ->
  in_u 32 (Contracts.Prediction.speed_mm_per_second (profile (predictor p))) -> 0 <= max_input_lifetime_us (predictor p) <= 2 ^ 47 ->
  counted k counters p -> AppliedCount ∉ counters -> k < 2 ^ 32 - 1 ->
  Z.abs (SnapshotV2.x_mm s) <= 2 ^ 62 -> Z.abs (SnapshotV2.y_mm s) <= 2 ^ 62 -> in_i 64 (SnapshotV2.z_mm s) ->
  t <= t' -> in_u 64 t -> in_u 64 t' -> (forall d, sendable d = true) ->
  exists p' ds sent', snapshot_applied sendable t t' None s (snapshot_of_v2 s) p = Ok (p', ds) /\ sending sent sent' ds t' p p' /\
    active (presentation_reconciler p') = None /\ counted k (AppliedCount :: counters) p' /\
    baseline_received_at (held_extrapolator p') = Some t.
Proof.
  intros Hh Eh Hb Hin Hsent Hact Hspeed Hlife Hcount Hnew Hk Hx Hy Hz Hle Ht Ht' Hsend.
  unfold snapshot_applied. rewrite Eh. cbn [map_err mbind result_bind].
  destruct (bump_ok AppliedCount k counters (set_histories p (reconciler p) h')) as (p1 & -> & Hp & Hpr & Hr & Hhe & Hse & Hc1); [done|done|done|].
  cbn [mbind result_bind set_histories reconciler held_extrapolator predictor presentation_reconciler second_intent_sent] in *.
  destruct (inputs_ok _ _ Hin) as (Hall & Hne & Hlen). assert (Forall (fun t => move_intent_ok (timed_intent t)) sent) as Hok by (eapply list.Forall_impl; [exact Hall|]; by intros ? []).
  destruct (replay_ok sent t t p1) as (pending & full & -> & Hsegs & Hlen3); try done; [by rewrite Hr, Hhe| |].
  { rewrite Hhe, Hb. intros b [= <-]. lia. }
  cbn [mbind result_bind]. destruct (gameplay_ok (predictor p1) (snapshot_of_v2 s) full) as (q & -> & Hq); try (by rewrite Hp); try done.
  cbn [map_err mbind result_bind correction_x correct_presentation set_report presentation_reconciler].
  rewrite Hpr, (rendered_idle _ _ _ Hact Hq). cbn [map_err mbind result_bind].
  edestruct (send_second_ok sendable sent t t' (sequence (snapshot_of_v2 s))) as (p' & ds & sent' & -> & [H1 H2 H3 H4 H5 H6 H7] & Hpre & Hrep & Hbase);
    [| | |exact Hle|done|done|].
  4: { exists p', ds, sent'. split; [done|]. split; [|split; [|split]].
    - split; try done; [by rewrite H5|by rewrite H6; cbn; rewrite Hr].
    - by rewrite Hpre.
    - intros c. rewrite Hrep. apply Hc1.
    - rewrite Hbase. cbn. by rewrite Hhe. }
  - cbn. by rewrite Hr, Hhe.
  - cbn. by rewrite Hse.
  - done.
Qed.

(** A round of the client on an acceptable snapshot: it succeeds, and the last snapshot
    is the newer of the two. *)
Lemma observe_ok sendable sent k now t t' datagram s p : probe_inv sent k now p -> k < 2 ^ 32 - 1 -> now <= t <= t' -> in_u 64 t' ->
  (forall d, sendable d = true) -> decode_snapshot datagram = Ok s -> acceptable sent (last_snapshot (reconciler p)) s ->
  exists p' ds sent' l, observe_snapshot sendable t t' datagram p = Ok (p', ds) /\ probe_inv sent' (k + 1) t' p' /\
    (forall x, x ∈ sent -> x ∈ sent') /\ (forall d, d ∈ ds -> exists x, x ∈ sent' /\ intent_datagram (timed_intent x) d) /\
    last_snapshot (reconciler p') = Some l /\ SnapshotV2.server_tick s <= server_tick l /\
    (l = snapshot_of_v2 s /\ (forall old, last_snapshot (reconciler p) = Some old -> server_tick old < SnapshotV2.server_tick s) \/
     last_snapshot (reconciler p) = Some l).
Proof.
  intros [Hh Hin Hsent Hbase Hidle Hspeed Hlife Hcount Hnow] Hk Hle Ht' Hsend Hdec Hacc.
  assert (in_u 64 t) as Ht by (unfold in_u in *; lia).
  destruct (inputs_ok _ _ Hin) as (Hall & Hne & Hlen).
  assert (Forall (fun t => move_intent_ok (timed_intent t)) sent) as Hok by (eapply list.Forall_impl; [exact Hall|]; by intros ? []).
  assert (Forall (fun x => sent_at x <= t) sent) as Hsent_t by (eapply list.Forall_impl; [exact Hsent|]; cbn; lia).
  assert (Forall (fun x => sent_at x <= t') sent) as Hsent_t' by (eapply list.Forall_impl; [exact Hsent|]; cbn; lia).
  unfold observe_snapshot, receive_snapshot. rewrite Hdec. cbn [map_err mbind result_bind].
  destruct (bump_ok SnapshotCount k [] p Hcount ltac:(apply not_elem_of_nil) Hk) as (p1 & -> & Hp1 & Hpr1 & Hr1 & Hhe1 & Hse1 & Hc1).
  cbn [mbind result_bind]. rewrite clock_now_ok by done. cbn [map_err mbind result_bind].
  destruct (replay_ok sent t t p1) as (pending & pre & -> & _ & _); try done; [by rewrite Hr1, Hhe1| |].
  { rewrite Hhe1. intros b Hb. specialize (Hbase b Hb). lia. }
  cbn [mbind result_bind]. set (p2 := set_report p1 _).
  assert (exists counters p3, (if decide (length (segments pending) < length (segments pre))%nat then count_up HeldExtrapolationCount p2 else Ok p2) = Ok p3 /\
    predictor p3 = predictor p /\ presentation_reconciler p3 = presentation_reconciler p /\ reconciler p3 = reconciler p /\
    held_extrapolator p3 = held_extrapolator p /\ second_intent_sent p3 = second_intent_sent p /\ counted k counters p3 /\
    AppliedCount ∉ counters /\ StaleCount ∉ counters /\ DuplicateCount ∉ counters) as
    (counters & p3 & -> & Hp3 & Hpr3 & Hr3 & Hhe3 & Hse3 & Hc3 & Hn1 & Hn2 & Hn3).
  { case_decide.
    - destruct (bump_ok HeldExtrapolationCount k [SnapshotCount] p2) as (p3 & -> & ? & ? & ? & ? & ? & ?); [done|set_solver|done|].
      exists [HeldExtrapolationCount; SnapshotCount], p3. split_goals; try done; try (etrans; [eassumption|done]); set_solver.
    - exists [SnapshotCount], p2. split_goals; try done; set_solver. }
  cbn [mbind result_bind map_err]. rewrite Hr3.
  pose proof (client_history_ok PENDING_INPUT_HISTORY_CAPACITY _ _ _ ltac:(done) Hh) as Hinv.
  destruct (apply_acceptable sent (reconciler p) (held_extrapolator p) s t Hinv Hacc) as (r' & o & E & Ho).
  { eapply list.Forall_impl; [exact Hall|]; by intros ? []. }
  rewrite E. cbn [mbind result_bind map_err].
  assert (forall c, match c with StaleCount | DuplicateCount => True | _ => False end -> c ∉ counters ->
    forall l, r' = reconciler p -> last_snapshot (reconciler p) = Some l -> SnapshotV2.server_tick s <= server_tick l ->
    exists p' l, count_up c (set_histories p3 r' (held_extrapolator p3)) = Ok p' /\ probe_inv sent (k + 1) t' p' /\
      last_snapshot (reconciler p') = Some l /\ SnapshotV2.server_tick s <= server_tick l /\
      last_snapshot (reconciler p) = Some l) as Hignored.
  { intros c _ Hc l -> El Hl. destruct (bump_ok c k counters (set_histories p3 (reconciler p) (held_extrapolator p3)))
      as (p4 & -> & Hp4 & Hpr4 & Hr4 & Hhe4 & Hse4 & Hc4); [done|done|done|]. cbn in *. exists p4, l. split; [done|].
    rewrite Hr4. split; [|done]. rewrite Hhe3 in Hhe4. split; try congruence.
    - rewrite Hhe4. intros b Hb. specialize (Hbase b Hb). lia.
    - by eapply counted_all. }
  destruct o as [a|inc cur|tk].
  - destruct Ho as (Ea & El & Hnewer & h' & Eh & Hb). rewrite Ea.
    destruct (snapshot_applied_ok sendable sent k counters t t' s h' (set_histories p3 r' (held_extrapolator p3)))
      as (p' & ds & sent' & -> & [H1 H2 H3 H4 H5 H6 H7] & Hact & Hcnt & Hbs); try done; cbn; try congruence; try apply Hacc; try lia.
    + apply (history_snapshot _ sent (reconciler p) (held_extrapolator p) s t r' a h'); try done.

    + exists p', ds, sent', (snapshot_of_v2 s). split; [done|]. cbn in H5, H6. rewrite H6. split_goals; try done; [|by left].
      split; try done.
      * rewrite Hbs. intros b [= <-]. lia.
      * by rewrite H5, Hp3.
      * by rewrite H5, Hp3.
      * by eapply counted_all.
  - destruct Ho as (-> & l & El & Hl). destruct (Hignored StaleCount I Hn2 l eq_refl El Hl) as (p' & l' & -> & Hinv' & El' & Hl' & ?).
    exists p', [], sent, l'. cbn. split_goals; try done; [|by right]. by intros d []%not_elem_of_nil.
  - destruct Ho as (-> & l & El & Hl). destruct (Hignored DuplicateCount I Hn3 l eq_refl El Hl) as (p' & l' & -> & Hinv' & El' & Hl' & ?).
    exists p', [], sent, l'. cbn. split_goals; try done; [|by right]. by intros d []%not_elem_of_nil.
Qed.
