(* ===== verification/ClientServer.v ===== *)
(** The protocol client against the simulation: it follows its character through the
    snapshots of the zone, in whatever order, however late, as often as the network
    delivers them, or not at all, and never fails. *)

From S2P Require Import Prelude Bytes Core Contracts Snapshots Transport Items Bags Movement Traversal Ecs Zone ZoneMovement ZoneInventory ZoneSafety ZoneCorrect Router ClientHistory ClientPrediction Client ClientRun.
Import World Bags.Bags Bootstrap Intents SnapshotV1.

(** ** Frames on the network *)

Lemma decode_fitting d m m' r : Datagram.decode_datagram_frame d m = Ok r -> len d <= m' -> Datagram.decode_datagram_frame d m' = Ok r.
Proof.
  unfold Datagram.decode_datagram_frame. intros H Hm. destruct (decide (len d > m)); [done|]. by rewrite decide_False by lia.
Qed.

Lemma decode_sent k payload m d m' r : Datagram.encode_datagram_frame k payload m = Ok d ->
  Datagram.decode_datagram_frame d m' = Ok r -> r = (k, payload).
Proof.
  intros [_ H]%(proj1 Datagram.datagram_roundtrip) Hr.
  apply (decode_fitting d m (Z.max m m')) in H; [|].
  - apply (decode_fitting d m' (Z.max m m')) in Hr; [congruence|].
    unfold Datagram.decode_datagram_frame in Hr. case_decide; [done|]. lia.
  - unfold Datagram.decode_datagram_frame in H. case_decide; [done|]. lia.
Qed.

(** The snapshot of the zone arrives as the server wrote it. *)
Lemma decode_published m s d : SnapshotV2.snapshot_v2_ok s ->
  Datagram.encode_datagram_frame KSelfMovementSnapshotV2 (SnapshotV2.encode_wire s) m = Ok d -> decode_snapshot d = Ok s.
Proof.
  intros Hs E. assert (Datagram.encode_datagram_frame KSelfMovementSnapshotV2 (SnapshotV2.encode_wire s) MAX_DATAGRAM_BYTES = Ok d) as E'.
  { revert E. unfold Datagram.encode_datagram_frame. rewrite !bind_Ok. intros (h & Hh & E). exists h. split; [done|].
    case_decide; [done|]. rewrite decide_False; [done|]. unfold len. rewrite SnapshotV2.length_encode_wire. by vm_compute. }
  apply (proj1 Datagram.datagram_roundtrip) in E' as [_ E']. unfold decode_snapshot. rewrite E'. cbn [map_err mbind result_bind].
  rewrite decide_False by naive_solver. by rewrite SnapshotV2.decode_encode_wire.
Qed.

Lemma intent_received i d m payload j : move_intent_ok i -> intent_datagram i d ->
  Datagram.decode_datagram_frame d m = Ok (KMoveIntent, payload) -> move_intent_decode payload = Ok j -> j = i.
Proof.
  intros Hi Hd Hr Hj. pose proof (decode_sent _ _ _ _ _ _ Hd Hr) as [= ->].
  pose proof (decode_encode (enc := move_intent_encode) i Hi). congruence.
Qed.

(** ** The game *)

Section Play.
Context {Entity W : Type} `{!Ecs Components Entity W} `{!EqDecision Entity} `{!EcsLaws Components Entity W}.

Abbreviation Zone := (ZoneRuntime Entity W).

(** Does a command change the character or his inputs? *)
Definition concerns (cid : Z) (command : ZoneCommand) : bool :=
  match command with
  | SpawnCharacter c _ _ _ | DespawnCharacter c _ | ZoneMoveIntent c _ _ => c =? cid
  | _ => false
  end.

Definition about (cid : Z) (l : list MovementSnapshot) : list MovementSnapshot :=
  filter (fun s => snapshot_character_id s = cid) l.

(** The client, the zone and its age, and what is on the network between them: the
    datagrams of the client and the snapshots of its character; how many of them the
    client has received, and its clock.  [m] is the server's limit of a datagram. *)
Inductive playing (sendable : list Z -> bool) (cid m : Z) :
  Probe -> Zone -> Z -> list (list Z) -> list MovementSnapshot -> Z -> Z -> Prop :=
| play_start z0 n z p inv rev z' r predictor presentation probe t probe' d :
    started z0 -> zone_run z0 n z -> command_ok (SpawnCharacter cid p inv rev) ->
    zone_accept z (SpawnCharacter cid p inv rev) = Ok (z', r) ->
    in_u 32 (Contracts.Prediction.speed_mm_per_second (profile predictor)) -> 0 <= max_input_lifetime_us predictor <= 2 ^ 47 ->
    active presentation = None -> probe_start predictor presentation = Ok probe -> in_u 64 t ->
    send_first sendable t probe = Ok (probe', d) ->
    playing sendable cid m probe' z' (n + 1) [d] [] 0 t
| play_intent probe z n intents snapshots k t d payload i z' r :
    playing sendable cid m probe z n intents snapshots k t -> d ∈ intents ->
    Datagram.decode_datagram_frame d m = Ok (KMoveIntent, payload) -> move_intent_decode payload = Ok i ->
    (forall q, last_processed_inputs z !! cid = Some q -> q < mv_sequence i) ->
    zone_accept z (ZoneMoveIntent cid (mv_sequence i) (input_of i)) = Ok (z', r) ->
    playing sendable cid m probe z' (n + 1) intents snapshots k t
| play_command probe z n intents snapshots k t command z' r :
    playing sendable cid m probe z n intents snapshots k t -> command_ok command -> concerns cid command = false ->
    zone_accept z command = Ok (z', r) ->
    playing sendable cid m probe z' (n + 1) intents snapshots k t
| play_tick probe z n intents snapshots k t order z' out :
    playing sendable cid m probe z n intents snapshots k t -> enumerates order z -> zone_step order z = Ok (z', out) ->
    playing sendable cid m probe z' (n + 1) intents (snapshots ++ about cid (out_snapshots out)) k t
| play_receive probe z n intents snapshots k now t t' s d probe' ds :
    playing sendable cid m probe z n intents snapshots k now -> s ∈ snapshots ->
    Datagram.encode_datagram_frame KSelfMovementSnapshotV2 (SnapshotV2.encode_wire (snapshot_wire s)) m = Ok d ->
    now <= t <= t' -> in_u 64 t' -> observe_snapshot sendable t t' d probe = Ok (probe', ds) ->
    playing sendable cid m probe' z n (intents ++ ds) snapshots (k + 1) t'.

(** ** What holds of the game *)

Record published (z : Zone) (n cid : Z) (sent : list TimedPendingInput) (s : MovementSnapshot) : Prop := {
  pu_tick : 0 <= Zone.server_tick s <= tick z;
  pu_position : pos_ok (snapshot_position s) /\ within (reach_at n) (snapshot_position s);
  pu_active : active_movement_sequence s = last_processed_input_sequence s;
  pu_sent : forall q, last_processed_input_sequence s = Some q -> exists x, x ∈ sent /\ seq_of x = q;
  pu_last : forall q, last_processed_input_sequence s = Some q -> exists q', last_processed_inputs z !! cid = Some q' /\ q <= q'
}.

(** Snapshots of one tick are one, and later ones acknowledge no less. *)
Definition consistent (s s' : MovementSnapshot) : Prop :=
  (Zone.server_tick s = Zone.server_tick s' -> s = s') /\
  (Zone.server_tick s < Zone.server_tick s' -> forall a, last_processed_input_sequence s = Some a ->
     exists b, last_processed_input_sequence s' = Some b /\ a <= b).

Record play_ok (cid : Z) (p : Probe) (z : Zone) (n : Z) (intents : list (list Z)) (snapshots : list MovementSnapshot) (k t : Z)
  (sent : list TimedPendingInput) : Prop := {
  po_zone : zone_wf n z;
  po_present : is_Some (entity_map z !! cid);
  po_client : probe_inv sent k t p;
  po_intents : forall d, d ∈ intents -> exists x, x ∈ sent /\ intent_datagram (timed_intent x) d;
  po_processed : forall q, last_processed_inputs z !! cid = Some q -> exists x, x ∈ sent /\ seq_of x = q;
  po_snapshots : forall s, s ∈ snapshots -> published z n cid sent s;
  po_order : forall s s', s ∈ snapshots -> s' ∈ snapshots -> consistent s s';
  po_last : forall l, last_snapshot (reconciler p) = Some l -> exists s, s ∈ snapshots /\ l = snapshot_of_v2 (snapshot_wire s)
}.

Lemma published_mono z z' n n' cid sent sent' s : tick z <= tick z' -> n <= n' -> (forall x, x ∈ sent -> x ∈ sent') ->
  (forall q, last_processed_inputs z !! cid = Some q -> exists q', last_processed_inputs z' !! cid = Some q' /\ q <= q') ->
  published z n cid sent s -> published z' n' cid sent' s.
Proof.
  intros Ht Hn Hs Hq [H1 [H2 H3] H4 H5 H6]. split; try done; [lia| | |].
  - split; [done|]. by eapply reach_at_mono.
  - intros q E. destruct (H5 q E) as (x & Hx & ?). exists x. by split; [apply Hs|].
  - intros q E. destruct (H6 q E) as (q' & Eq & Hle). destruct (Hq q' Eq) as (q'' & ? & ?). exists q''. split; [done|]. lia.
Qed.

(** A snapshot of the zone is one the client can follow. *)
Lemma published_acceptable cid p z n intents snapshots k t sent s : play_ok cid p z n intents snapshots k t sent -> n <= MAX_AGE ->
  s ∈ snapshots -> acceptable sent (last_snapshot (reconciler p)) (snapshot_wire s) /\ SnapshotV2.snapshot_v2_ok (snapshot_wire s).
Proof.
  intros Hp Hn Hs. destruct (po_snapshots _ _ _ _ _ _ _ _ _ Hp s Hs) as [Ht [(Hx & Hy & Hz) [Bx By]] Ha Hsent _].
  destruct (zw_age n z (po_zone _ _ _ _ _ _ _ _ _ Hp)) as [Htn _].
  assert (reach_at n <= 2 ^ 62) by (unfold reach_at, MAX_SPAWN, MAX_STEP, MAX_AGE in *; lia). unfold MAX_AGE in Hn.
  assert (forall q, last_processed_input_sequence s = Some q -> in_u 64 q) as Hq.
  { intros q E. destruct (Hsent q E) as (x & Hxs & <-).
    destruct (inputs_ok _ _ (pi_inputs _ _ _ _ (po_client _ _ _ _ _ _ _ _ _ Hp))) as (Hall & _ & _).
    eapply list.Forall_forall in Hall; [|exact Hxs]. apply Hall. }
  split.
  - split; cbn; try done; try lia.
    + intros l El Hlt. destruct (po_last _ _ _ _ _ _ _ _ _ Hp l El) as (s' & Hs' & ->). cbn in Hlt.
      by rewrite (proj1 (po_order _ _ _ _ _ _ _ _ _ Hp s' s Hs' Hs) Hlt).
    + intros l El Hlt a Ea. destruct (po_last _ _ _ _ _ _ _ _ _ Hp l El) as (s' & Hs' & ->). cbn in Hlt, Ea.
      exact (proj2 (po_order _ _ _ _ _ _ _ _ _ Hp s' s Hs' Hs) Hlt a Ea).
  - unfold SnapshotV2.snapshot_v2_ok, SnapshotV2.sequence_ok. cbn. rewrite Ha. split_goals; try done. unfold in_u. lia.
Qed.

(** The start. *)
Lemma sent_first predictor presentation p0 sendable t p d : probe_start predictor presentation = Ok p0 -> in_u 64 t ->
  send_first sendable t p0 = Ok (p, d) ->
  in_u 32 (Contracts.Prediction.speed_mm_per_second (profile predictor)) -> 0 <= max_input_lifetime_us predictor <= 2 ^ 47 ->
  active presentation = None ->
  probe_inv [mk_timed first_intent t] 0 t p /\ intent_datagram first_intent d /\ last_snapshot (reconciler p) = None.
Proof.
  unfold probe_start, send_first. intros (r & Hr%map_err_Ok & (h & Hh%map_err_Ok & [= <-])%bind_Ok)%bind_Ok Ht E Hs Hl Ha.
  assert (move_intent_new 1 16384 0 = Ok first_intent) as H1 by reflexivity. rewrite H1 in E. cbn [map_err mbind result_bind] in E.
  apply bind_Ok in E as (d' & Hd%map_err_Ok & E). destruct (negb _); [done|].
  rewrite clock_now_ok in E by done. cbn [map_err mbind result_bind] in E.
  apply bind_Ok in E as (r' & Hr'%map_err_Ok & E). apply bind_Ok in E as (h' & Hh'%map_err_Ok & E). cbn in Hr', Hh'. injection E as <- <-.
  assert (last_snapshot r' = None /\ baseline_received_at h' = None) as [El Eb].
  { unfold reconciler_new, held_new in Hr, Hh. cbn in Hr, Hh. injection Hr as <-. injection Hh as <-. vm_compute in Hr', Hh'.
    by simplify_eq. }
  split; [|by split]. split; cbn; try done; try congruence.
  - apply (history_sent _ [] r h); try done. by apply history_start.
  - by exists t.
  - apply list.Forall_singleton. cbn. lia.
Qed.

(** A command that does not concern the character. *)
Lemma accept_other cid z command z' r : concerns cid command = false -> zone_accept z command = Ok (z', r) ->
  tick z' = tick z /\ entity_map z' !! cid = entity_map z !! cid /\ last_processed_inputs z' !! cid = last_processed_inputs z !! cid.
Proof.
  destruct command as [c p inv rev|c o|c o|c q i|p h|c pw|c i]; cbn; intros Hc E.
  - apply Z.eqb_neq in Hc. apply bind_Ok in E as (_ & _ & E). destruct (entity_map z !! c); [done|].
    destruct (ecs_spawn _ _). injection E as <- _. cbn. by rewrite lookup_insert_ne.
  - apply Z.eqb_neq in Hc. destruct (entity_map z !! c); [|done]. apply bind_Ok in E as (w & _ & E). injection E as <- _. cbn.
    by rewrite !lookup_delete_ne.
  - destruct (entity_map z !! c); by injection E as <- _.
  - apply Z.eqb_neq in Hc. apply bind_Ok in E as (e & _ & E). apply bind_Ok in E as (w & _ & E). injection E as <- _. cbn.
    by rewrite lookup_insert_ne.
  - by injection E as <- _.
  - apply bind_Ok in E as (e & _ & E). apply bind_Ok in E as (w & _ & E). by injection E as <- _.
  - by injection E as <- _.
Qed.

Lemma play_zone cid p z z' n n' intents snapshots k t sent : play_ok cid p z n intents snapshots k t sent -> zone_wf n' z' ->
  n <= n' -> tick z <= tick z' -> is_Some (entity_map z' !! cid) ->
  (forall q, last_processed_inputs z !! cid = Some q -> exists q', last_processed_inputs z' !! cid = Some q' /\ q <= q') ->
  (forall q, last_processed_inputs z' !! cid = Some q -> exists x, x ∈ sent /\ seq_of x = q) ->
  play_ok cid p z' n' intents snapshots k t sent.
Proof.
  intros [H1 H2 H3 H4 H5 H6 H7 H8] Hwf Hn Ht Hin Hq Hs. split; try done. intros s Hsn.
  eapply published_mono; [exact Ht|exact Hn| |exact Hq|by apply H6]. done.
Qed.

(** A tick publishes the character, if it has moved, with the last of his inputs. *)
Lemma play_published cid p z n intents snapshots k t sent order z' out : play_ok cid p z n intents snapshots k t sent -> n < MAX_AGE ->
  enumerates order z -> zone_step order z = Ok (z', out) ->
  play_ok cid p z' (n + 1) intents (snapshots ++ about cid (out_snapshots out)) k t sent.
Proof.
  intros Hp Hn Ho E. pose proof (po_zone _ _ _ _ _ _ _ _ _ Hp) as Hz. destruct (zw_age n z Hz) as [Htn _].
  destruct (step_spec n z order Hz ltac:(lia) Ho) as (z1 & out1 & E1 & Hwf & Ht & Hm & Hl & Hc & _ & Hsn & _).
  rewrite E in E1. injection E1 as <- <-.
  assert (play_ok cid p z' (n + 1) intents snapshots k t sent) as Hp'.
  { eapply play_zone; [exact Hp|done|lia|lia|rewrite Hm; by eapply po_present| |rewrite Hl; by eapply po_processed].
    intros q Eq. exists q. by rewrite Hl. }
  destruct (po_present _ _ _ _ _ _ _ _ _ Hp) as [e He]. destruct (zw_characters n z Hz cid e He) as (c & Ec & _).
  assert (exists q, forall s, s ∈ about cid (out_snapshots out) ->
    s = mk_snapshot cid (tick z + 1) q (last_processed_inputs z !! cid) (last_processed_inputs z !! cid) /\
    pos_ok q /\ within (reach_at (n + 1)) q) as [q Hnew].
  { destruct (Hc cid e c He Ec) as (c' & Ec' & _). rewrite <- Hm in He.
    destruct (zw_characters (n + 1) z' Hwf cid e He) as (c1 & Ec1 & Hok). rewrite Ec' in Ec1. injection Ec1 as <-.
    destruct (co_position _ _ _ _ _ Hok) as (q & Eq & [Hpos _] & Hw). exists q. intros s [Hid Hs]%list_elem_of_filter.
    apply Hsn in Hs as (_ & cid' & e' & c1 & c1' & q' & He' & _ & Ec1' & Eq' & _ & ->). cbn in Hid. subst cid'.
    rewrite Hm, He' in He. injection He as ->. rewrite Ec1' in Ec'. injection Ec' as ->. rewrite Eq' in Eq. by injection Eq as ->. }
  destruct Hp' as [H1 H2 H3 H4 H5 H6 H7 H8]. split; try done.
  - intros s [Hs|Hs]%elem_of_app; [by apply H6|]. apply Hnew in Hs as (-> & Hpos & Hw).
    split; cbn; try done; [lia|by eapply po_processed|]. intros a Ea. exists a. by rewrite Hl.
  - intros s s' [Hs|Hs]%elem_of_app [Hs'|Hs']%elem_of_app.
    + by apply H7.
    + apply Hnew in Hs' as (-> & _). pose proof (po_snapshots _ _ _ _ _ _ _ _ _ Hp s Hs) as [Hts _ _ _ Hlast].
      split; cbn; [lia|]. intros _. apply Hlast.
    + apply Hnew in Hs as (-> & _). pose proof (po_snapshots _ _ _ _ _ _ _ _ _ Hp s' Hs') as [Hts _ _ _ _]. split; cbn; lia.
    + apply Hnew in Hs as (-> & _). apply Hnew in Hs' as (-> & _). split; cbn; [done|lia].
  - intros l El. destruct (H8 l El) as (s & Hs & ->). exists s. by split; [apply elem_of_app; left|].
Qed.

Lemma playing_ok sendable cid m p z n intents snapshots k t : (forall d, sendable d = true) ->
  playing sendable cid m p z n intents snapshots k t -> n <= MAX_AGE -> k < 2 ^ 32 ->
  exists sent, play_ok cid p z n intents snapshots k t sent.
Proof.
  intros Hsend H. induction H as
    [z0 n z q inv rev z' r pr pres probe t probe' d H0 Hrun Hcmd E Hs Hl Ha Ep Ht Ef
    |probe z n intents snapshots k t d payload i z' r _ IH Hd Ed Ei Hq E
    |probe z n intents snapshots k t command z' r _ IH Hcmd Hco E
    |probe z n intents snapshots k t order z' out _ IH Ho E
    |probe z n intents snapshots k now t t' s d probe' ds _ IH Hs Ed Hle Ht' E]; intros Hn Hk.
  - destruct (started_run_wf z0 n z H0 Hrun ltac:(lia)) as [Hn' Hz].
    pose proof (accept_spec n z _ Hz ltac:(lia) Hcmd) as Hacc. rewrite E in Hacc. destruct Hacc as [[_ Hnone] Hwf].
    destruct (sent_first pr pres probe sendable t probe' d Ep Ht Ef Hs Hl Ha) as (Hinv & Hd & Hlast).
    exists [mk_timed first_intent t]. cbn in E. apply bind_Ok in E as (_ & _ & E). rewrite Hnone in E.
    destruct (ecs_spawn _ _) as [w e]. injection E as <- _.
    assert (last_processed_inputs z !! cid = None) as Hno.
    { destruct (last_processed_inputs z !! cid) eqn:El; [|done]. destruct (zw_last n z Hz cid _ El) as [? ?]. congruence. }
    split; cbn; try done.
    + by rewrite lookup_insert_eq.
    + intros d' ->%list_elem_of_singleton. eexists. split; [by apply list_elem_of_singleton|done].
    + intros a. by rewrite Hno.
    + by intros s []%not_elem_of_nil.
    + by intros s s' []%not_elem_of_nil.
    + intros l. by rewrite Hlast.
  - destruct (IH ltac:(lia) Hk) as [sent Hp]. exists sent. pose proof (po_zone _ _ _ _ _ _ _ _ _ Hp) as Hz.
    destruct (zw_age n z Hz) as [Htn _].
    destruct (po_intents _ _ _ _ _ _ _ _ _ Hp d Hd) as (x & Hx & Hxd).
    destruct (inputs_ok _ _ (pi_inputs _ _ _ _ (po_client _ _ _ _ _ _ _ _ _ Hp))) as (Hall & _ & _).
    eapply list.Forall_forall in Hall as [Hok _]; [|exact Hx]. pose proof (intent_received _ _ _ _ _ Hok Hxd Ed Ei) as ->.
    pose proof (accept_spec n z (ZoneMoveIntent cid (mv_sequence (timed_intent x)) (input_of (timed_intent x))) Hz ltac:(lia) (input_of_ok _ Hok)) as Hacc. rewrite E in Hacc. destruct Hacc as [_ Hwf].
    cbn in E. apply bind_Ok in E as (e & He%ok_or_Ok & E). apply bind_Ok in E as (w & _ & E). injection E as <- _.
    eapply play_zone; [exact Hp|done|lia|done|by cbn; rewrite He| |]; cbn; intros a Ea.
    + eexists. split; [by rewrite lookup_insert_eq|]. specialize (Hq a Ea). lia.
    + rewrite lookup_insert_eq in Ea. injection Ea as <-. by exists x.
  - destruct (IH ltac:(lia) Hk) as [sent Hp]. exists sent. pose proof (po_zone _ _ _ _ _ _ _ _ _ Hp) as Hz.
    destruct (zw_age n z Hz) as [Htn _]. pose proof (accept_spec n z _ Hz ltac:(lia) Hcmd) as Hacc. rewrite E in Hacc.
    destruct (accept_other _ _ _ _ _ Hco E) as (Ht & Hm & Hl).
    eapply play_zone; [exact Hp|by destruct Hacc|lia|lia|rewrite Hm; by eapply po_present| |rewrite Hl; by eapply po_processed].
    intros a Ea. exists a. by rewrite Hl.
  - destruct (IH ltac:(lia) Hk) as [sent Hp]. exists sent. by eapply play_published; [..|lia| |].
  - destruct (IH ltac:(lia) ltac:(lia)) as [sent Hp].
    destruct (published_acceptable cid probe z n intents snapshots k now sent s Hp Hn Hs) as [Hacc Hok].
    destruct (observe_ok sendable sent k now t t' d (snapshot_wire s) probe (po_client _ _ _ _ _ _ _ _ _ Hp) ltac:(lia) Hle Ht' Hsend
      (decode_published _ _ _ Hok Ed) Hacc) as (p1 & ds1 & sent' & l & E1 & Hinv & Hmore & Hds & El & Hge & Hcase).
    rewrite E in E1. injection E1 as <- <-. exists sent'. destruct Hp as [H1 H2 H3 H4 H5 H6 H7 H8]. split; try done.
    + intros d' [Hd'|Hd']%elem_of_app; [|by apply Hds]. destruct (H4 d' Hd') as (x & ? & ?). exists x. by split; [apply Hmore|].
    + intros a Ea. destruct (H5 a Ea) as (x & ? & ?). exists x. by split; [apply Hmore|].
    + intros s' Hs'. eapply published_mono; [reflexivity|reflexivity|exact Hmore| |by apply H6]. intros a Ea. by exists a.
    + rewrite El. intros l' [= <-]. destruct Hcase as [[-> _] | Hold]; [by exists s|by apply H8].
Qed.

End Play.

(** C21: the client follows its character and never fails.  Whatever the zone does -
    takes the client's intents, in order and each at most once, takes commands about
    others, ticks -, and whichever of its snapshots arrive at the client, in any order,
    late, more than once or not at all: every snapshot that arrives is read, the client
    goes on, and the snapshot it predicts from is then the newest of those it has
    received.  It replays on top of it exactly the inputs it has sent which that
    snapshot has not processed.  (Up to the age a zone can have, as long as the counters
    of the client suffice and the connection takes its datagrams.) *)
Theorem client_follows_zone {Entity W : Type} `{!Ecs Components Entity W} `{!EqDecision Entity} `{!EcsLaws Components Entity W}
    (sendable : list Z -> bool) (cid m : Z) (p : Probe) (z : ZoneRuntime Entity W) (n : Z) (intents : list (list Z))
    (snapshots : list MovementSnapshot) (k now t t' : Z) (s : MovementSnapshot) :
  (forall d, sendable d = true) -> Datagram.HEADER + 50 <= m -> playing sendable cid m p z n intents snapshots k now ->
  n <= MAX_AGE -> k < 2 ^ 32 - 1 -> s ∈ snapshots -> now <= t <= t' -> in_u 64 t' ->
  exists d p' ds l sent, Datagram.encode_datagram_frame KSelfMovementSnapshotV2 (SnapshotV2.encode_wire (snapshot_wire s)) m = Ok d /\
    observe_snapshot sendable t t' d p = Ok (p', ds) /\ last_snapshot (reconciler p') = Some l /\
    l = (match last_snapshot (reconciler p) with
         | Some old => if decide (server_tick old < Zone.server_tick s) then snapshot_of_v2 (snapshot_wire s) else old
         | None => snapshot_of_v2 (snapshot_wire s)
         end) /\
    inputs_of (second_intent_sent p') sent /\ pending_inputs (reconciler p') = unprocessed (sequence l) sent.
Proof.
  intros Hsend Hm Hplay Hn Hk Hs Hle Ht'. destruct (playing_ok _ _ _ _ _ _ _ _ _ _ Hsend Hplay Hn ltac:(lia)) as [sent Hp].
  destruct (published_acceptable cid p z n intents snapshots k now sent s Hp Hn Hs) as [Hacc Hok].
  destruct (Datagram.encode_datagram_frame KSelfMovementSnapshotV2 (SnapshotV2.encode_wire (snapshot_wire s)) m) as [d|e] eqn:Ed.
  2: { exfalso. pose proof (proj2 (proj2 (proj2 Datagram.datagram_roundtrip) KSelfMovementSnapshotV2 (SnapshotV2.encode_wire (snapshot_wire s)) m)) as H.
       rewrite Ed in H. discriminate H. unfold len. rewrite SnapshotV2.length_encode_wire. unfold in_u. lia. }
  destruct (observe_ok sendable sent k now t t' d (snapshot_wire s) p (po_client _ _ _ _ _ _ _ _ _ Hp) ltac:(lia) Hle Ht' Hsend
    (decode_published _ _ _ Hok Ed) Hacc) as (p' & ds & sent' & l & E & Hinv & _ & _ & El & Hge & Hcase).
  exists d, p', ds, l, sent'. split_goals; try done; [|apply Hinv|].
  - destruct (last_snapshot (reconciler p)) as [old|].
    + destruct Hcase as [[-> Hnew]|[= ->]].
      * by rewrite decide_True by (by apply Hnew).
      * cbn in Hge. by rewrite decide_False by lia.
    + by destruct Hcase as [[-> _]|].
  - pose proof (client_history_ok PENDING_INPUT_HISTORY_CAPACITY _ _ _ ltac:(done) (pi_history _ _ _ _ Hinv)) as Hh.
    rewrite (ho_pending _ _ _ _ Hh), (ho_ack _ _ _ _ Hh), El. done.
Qed.

Section Demo.
#[local] Existing Instances map_ecs map_ecs_laws.

Definition everything (d : list Z) : bool := true.
Definition unstarted : Probe :=
  mk_probe demo_predictor demo_presentation (mk_reconciler [] 0 None None None None) (mk_held [] 0 None None) false (mk_report (fun _ => 0) 0 0 0).
Definition introduced : Probe :=
  match probe_start demo_predictor demo_presentation with Ok p => p | Err _ => unstarted end.
Definition demo_probe : Probe * list Z :=
  match send_first everything 100 introduced with Ok r => r | Err _ => (unstarted, []) end.
Definition told : ZoneRuntime N (MapWorld Components) := after demo1 (ZoneMoveIntent 7 1 (input_of first_intent)).

Lemma told_order : enumerates [] told.
Proof.
  intros id. assert (bags (dropped_bags told) = ∅) as -> by (vm_compute; reflexivity).
  rewrite lookup_empty. split; [intros []%not_elem_of_nil|intros []; done].
Qed.

(** The zone has taken the first intent of the client. *)
Lemma demo_told : playing everything 7 1200 demo_probe.1 told 2 [demo_probe.2] [] 0 100.
Proof.
  apply (play_intent everything 7 1200 demo_probe.1 demo1 1 [demo_probe.2] [] 0 100 demo_probe.2
    (move_intent_encode first_intent) first_intent told []).
  - apply (play_start everything 7 1200 demo0 0 demo0 (mk_pos 0 0 0) pockets 1 demo1 [] demo_predictor demo_presentation introduced 100
      demo_probe.1 demo_probe.2 demo_started).
    + apply run_start.
    + split; [unfold pos_ok, in_i; cbn; lia|]. split; [unfold within, MAX_SPAWN; cbn; lia|apply pockets_ok].
    + vm_compute. reflexivity.
    + unfold in_u. cbn. lia.
    + cbn. lia.
    + reflexivity.
    + vm_compute. reflexivity.
    + unfold in_u. lia.
    + vm_compute. reflexivity.
  - by apply list_elem_of_singleton.
  - vm_compute. reflexivity.
  - vm_compute. reflexivity.
  - intros q Hq. vm_compute in Hq. discriminate Hq.
  - vm_compute. reflexivity.
Qed.

Definition second_datagram : list Z :=
  match Datagram.encode_datagram_frame KMoveIntent (move_intent_encode second_intent) MAX_DATAGRAM_BYTES with Ok d => d | Err _ => [] end.

(** The snapshot after the tick confirms the first intent: the second one goes out. *)
Lemma client_follows_zone_witness : exists z' out d p' ds l,
  zone_step [] told = Ok (z', out) /\ out_snapshots out = [mk_snapshot 7 1 (mk_pos 100 0 0) (Some 1) (Some 1)] /\
  observe_snapshot everything 200 210 d demo_probe.1 = Ok (p', ds) /\ last_snapshot (reconciler p') = Some l /\
  x_mm l = 100 /\ ds = [second_datagram] /\ pending_inputs (reconciler p') = [mk_timed second_intent 210].
Proof.
  destruct (zone_step [] told) as [[z' out]|e] eqn:E; [|vm_compute in E; discriminate E].
  assert (out_snapshots out = [mk_snapshot 7 1 (mk_pos 100 0 0) (Some 1) (Some 1)]) as Eout by (vm_compute in E; injection E as <- <-; reflexivity).
  assert (playing everything 7 1200 demo_probe.1 z' 3 [demo_probe.2] [mk_snapshot 7 1 (mk_pos 100 0 0) (Some 1) (Some 1)] 0 100) as Hplay.
  { pose proof (play_tick everything 7 1200 demo_probe.1 told 2 [demo_probe.2] [] 0 100 [] z' out demo_told told_order E) as H.
    rewrite Eout in H. exact H. }
  clear E.
  destruct (client_follows_zone everything 7 1200 demo_probe.1 z' 3 [demo_probe.2] [mk_snapshot 7 1 (mk_pos 100 0 0) (Some 1) (Some 1)]
    0 100 200 210 (mk_snapshot 7 1 (mk_pos 100 0 0) (Some 1) (Some 1)) ltac:(done) ltac:(unfold Datagram.HEADER; vm_compute; congruence) Hplay
    ltac:(unfold MAX_AGE; lia) ltac:(lia) ltac:(by apply list_elem_of_singleton) ltac:(lia) ltac:(unfold in_u; lia))
    as (d & p' & ds & l & sent & Ed & Eo & El & El' & _ & _).
  vm_compute in Ed. injection Ed as <-.
  match type of Eo with ?run = _ =>
    assert (match run with Ok (q, sent) => sent = [second_datagram] /\ pending_inputs (reconciler q) = [mk_timed second_intent 210] | Err _ => False end)
      as Hrun by (vm_compute; split; reflexivity)
  end.
  rewrite Eo in Hrun. exists z', out. eexists _, p', ds, l. split; [reflexivity|]. split; [exact Eout|]. split; [exact Eo|].
  split; [exact El|]. rewrite El'. split; [vm_compute; reflexivity|exact Hrun].
Defined.

End Demo.
